(* ===== verification/_CoqProject ===== *)
-Q . S2P
Prelude.v
Replacer.v
SecretsProxy.v
Sparse.v
Scrollback.v
Subnet.v
GoFloat.v
Autoscaler.v
Router.v
RouterConc.v
ScalerState.v
Scaler.v
SessionStore.v
SessionFacts.v
Migration.v
OutboxRelay.v
Registry.v
Hibernate.v
HibernateFacts.v
Maintenance.v
RollHealth.v
Leader.v
Capacity.v
CapacityFacts.v
GoNum.v
Allocator.v
AllocatorFacts.v
UsageTicker.v
UsageTickerFacts.v
Threads.v
EventPipeline.v
EventPipelineFacts.v
ReclaimFacts.v
RedisScaler.v
RedisScalerFacts.v
QemuVm.v
QemuSnapshot.v
QemuSnapshotFacts.v
QemuRoundtrip.v
QemuVmFacts.v
QemuBilling.v
QemuResize.v
SandboxProxy.v
SandboxProxyFacts.v
Keyring.v
KeyringFacts.v
SecretLayers.v
SecretLayersFacts.v
Create.v
CreateFacts.v
Auth.v
AuthFacts.v
ForeignReaper.v
PreviewProxy.v
PreviewFacts.v
Checkpoints.v
CheckpointsFacts.v
