(* ===== verification/Prelude.v ===== *)
(** * OpenComputer: a verification development

    OpenComputer runs sandboxes (virtual machines) for its customers. A control
    plane takes API requests, places sandboxes on workers, scales the fleet and
    bills; workers run the machines, route requests to them, hibernate and wake
    them and meter their use; a secrets proxy gives code inside a sandbox the use
    of credentials it never sees; events flow from the workers through Redis to a
    global service. Control planes and workers share a PostgreSQL database and
    Redis, and many goroutines run in each of them. This development models the
    parts that carry the system's own logic as executable definitions, translated
    function by function from src/, and proves what they promise.

    ** Conventions

    - A Go function is a definition of the same name. Loops of a function that
      need a name of their own end in [_loop], or are named after what they do.
    - An [(value, error)] result is an [option] or a [result]; a panic is [None].
    - Times are integers: nanoseconds, or seconds where the file says so. Integers
      are kept at their width where they can overflow (the creation backoff of
      Scaler.v, stream identifiers of EventPipeline.v, advisory lock keys of
      Capacity.v, subnet blocks of Subnet.v).
    - A [float64] is the executable IEEE binary64 of GoFloat.v. The meters are
      written over the interface [Num] of GoNum.v, with binary64 and exact
      rationals as instances: laws of metering are stated for the exact instance,
      where the definitions are the same and only rounding is gone.
    - SQL statements are functions on lists of rows, a transaction is one function;
      Redis commands are functions on keys. Where the code issues several
      statements or commands, concurrent callers interleave between them.
    - What the program does not contain (the hypervisor, the network, Redis and
      PostgreSQL failing, clocks, the iteration order of Go maps, the resolver, the
      compression library) answers through arguments, and theorems hold for all
      answers unless they name a hypothesis.
    - Concurrency: Router.v has programs of critical sections with timers and
      channels; Migration.v programs of calls; Threads.v the general form, atomic
      commands with inputs, weakest preconditions of one thread, and the rule that
      proves invariants of all interleavings thread by thread; QemuVmFacts.v adds
      ownership, the state that the holder of a lock alone may change; Leader.v and Capacity.v step functions per
      command.
    - Fuel stands for a bound the code gets from a context or from the data. A loop
      that ends with its context runs on fuel, and a fuel of [n] is a context that
      ends after [n] rounds (Migration.v, OutboxRelay.v): theorems hold for every
      fuel. Where the data bounds the loop the fuel is shown to be enough
      (Replacer.v: the length of the input; Subnet.v: the number of blocks;
      ReclaimFacts.v: the entries of the stream; [itoa]: the binary digits).

    ** Shared files

    - Prelude.v: Go values, the [result] type and its notation, automation (hint
      database [oc], [crush_hyps], [case_goal], [bool_to_prop]), lists, decimals.
    - GoFloat.v, GoNum.v: numbers. Threads.v: threads.

    ** Workers

    - Router.v, RouterConc.v: internal/sandbox/router.go. Every interaction with a
      sandbox goes through its router entry: idle timeouts, waking, resuming,
      promotion to deep hibernation. State: [world], a heap of entries with
      channels and timers. [Route] refines the lifecycle automaton [route_spec];
      sequential histories and any concurrent requests for tracked boxes keep the
      router well formed and never panic; schedules outside that discipline that
      panic are lemmas.
    - Scrollback.v: internal/sandbox/scrollback.go. The ring buffer of a terminal
      refines the longest fitting suffix of its output.
    - Subnet.v: internal/qemu/network.go. Allocation of network blocks.
    - Sparse.v: internal/sparse/sparse.go. Archives of disk images round trip.
    - QemuVm.v, QemuVmFacts.v, QemuResize.v: internal/qemu/manager.go, pause.go, pool.go,
      ghost_reaper.go, orphan_reaper.go. The VMs of a worker: [world] has the registry, the
      heap of VM objects, the processes of the host, subnets, proxy sessions, directories
      and the billing hooks fired; every QMP, agent and host command is a step whose
      answer is an input. In all interleavings of the operations on the paused tier the
      status and the mark of a VM agree, and its vCPUs with them while no command is
      reported as failed that took effect; a resize keeps to the working set of the
      guest and the reserve of the host; the orphan reaper kills only what it should.
    - QemuSnapshot.v, QemuSnapshotFacts.v, QemuRoundtrip.v: internal/qemu/snapshot.go.
      Hibernation, wake, cold boot and recovery. A wake that fails at any point leaves
      nothing behind; a VM that is hibernated and woken, on its worker or from the
      archive on another, is the VM it was; and what a recovery does to the customer's
      files.
    - QemuBilling.v: the hooks of the manager replayed into the usage ticker.
    - UsageTicker.v, UsageTickerFacts.v: internal/worker/usage_ticker.go. What a
      sandbox is billed never exceeds what it ran, as long as it is resized and destroyed
      only while it runs, and is exact to the second when ticks are on time.
    - EventPipeline.v, EventPipelineFacts.v, ReclaimFacts.v: internal/sandbox/sqlite.go,
      internal/worker/redis_event_publisher.go, and on the control plane
      event_forwarder.go and cf_event_client.go. Events are accounted for from the
      sandbox's only database to the ingest service, their identifiers name the rows of the
      databases, and a reclaim pass settles what a crashed forwarder left.

    ** Secrets proxy

    - Replacer.v: internal/secretsproxy/replacer.go. Replacing tokens in a stream
      gives the substitution of the whole body, however it is split into reads.
    - SecretsProxy.v: internal/secretsproxy/proxy.go. Sessions and sealing: no
      secret in the injected environment, secrets only for the hosts they are
      scoped to, no connection to a private address.

    ** The database

    - SessionStore.v, SessionFacts.v: sessions, migrations, hibernations, the pause
      tier, the pool of pre-warmed boxes, billing periods, usage and the outbox of
      lifecycle events (internal/db/store.go, pause.go, pool.go, usage.go,
      webhooks.go). Every operation moves a status along the machine [moves];
      billing periods never overlap and end when the sandbox stops; no pooled box is claimed twice; usage is
      additive over windows.
    - Capacity.v, CapacityFacts.v: internal/db/capacity.go and internal/api/capacity.go.
      Reservations under concurrent transactions stay within the limit; requests in
      ascending order cannot deadlock unless lock keys of different buckets collide,
      others can.
    - Allocator.v, AllocatorFacts.v: internal/billing/capacity_reconciler.go,
      internal/db/billable_events.go, internal/billing/billable_events_sender.go.
      The segment walk equals the integral over every instant; a bucket that has
      a row is never charged again.

    ** The control plane

    - Autoscaler.v: pkg/types/sandbox.go, internal/db/sandbox_autoscale.go,
      internal/controlplane/autoscaler.go. Sizes of sandboxes.
    - ScalerState.v, Scaler.v, Migration.v: internal/controlplane/scaler.go and
      scaler_state.go. Sizes of the fleet: launches within limits, scale-down that
      keeps headroom, live migration with the statements it issues on the row and
      what they do to it if they succeed, drains, rolling
      replacement that terminates only empty machines.
    - RedisScaler.v, RedisScalerFacts.v: the second store of scaler_state.go, in
      Redis, with keys that expire: a refinement of the one in memory while they
      live, and what happens when a lock or a count expires under its holder.
    - Registry.v: internal/controlplane/redis_registry.go and capacity_reporter.go.
      Heartbeats and placement: a least loaded eligible worker, never a draining
      one.
    - RollHealth.v, Leader.v, Maintenance.v, OutboxRelay.v: roll_health.go,
      leader.go, reconcile.go, the maintenance loop of cmd/server/main.go, and
      lifecycle_outbox_relay.go.
    - Hibernate.v, HibernateFacts.v: the flows across worker, control plane and
      database that hibernate and wake (internal/worker/grpc_server.go,
      internal/api/sandbox.go, internal/api/admin_org.go, internal/billing/enforcer.go,
      hibernation_upload_reconciler.go, cmd/worker/main.go), over SessionStore.v and
      Registry.v: a round trip, and a reconciler that resolves every stuck upload.
    - SandboxProxy.v, SandboxProxyFacts.v: internal/proxy/sandbox_api_proxy.go, with the
      check of src/internal/auth/middleware.go. Requests for a sandbox are forwarded to its
      worker by any of several control planes, each with its own registry; a hibernated one
      is woken on the way. In all interleavings a token opens the sandbox it was issued for
      and no other, and asynchronous wakes converge on one worker while all registries
      hold the same workers; the wake that a request
      waits for does not.
    - Create.v, CreateFacts.v: internal/api/sandbox.go, pool.go, edge_claim.go and
      internal/previewauth. Creating a sandbox, cold or from the pool: the contract of a
      create at every point of failure, and what a wipe of the pool does to a box that is
      claimed meanwhile.
    - SecretLayers.v, SecretLayersFacts.v: the secret stores that a create or a fork binds,
      what is stored of them, and what a fork of a fork resolves to, and loses.
    - Keyring.v, KeyringFacts.v: internal/crypto and the secret entries of
      internal/db/store.go. Values stay readable through key rotations, the first one
      excepted; the cipher is the class [AEAD] with the laws [AEADLaws].
    - Auth.v, AuthFacts.v: internal/auth, the signed URLs of internal/api and the handlers that
      exchange credentials. [step] is the history of what the control plane, the
      workers and the edge (cloudflare-workers/api-edge/src/index.ts) sign with the shared
      secrets; in every history a request gets in to the API, to a sandbox or to a file only
      with what was granted to it. HMAC, the JWT and the UUID library are the classes
      [Crypto], [JWTLib] and [UUIDLib] with their laws; [honest] says that a signature that
      verifies is one that was made.
    - PreviewProxy.v, PreviewFacts.v: internal/proxy/controlplane_proxy.go and
      internal/previewauth. Public addresses of ports, their tokens, and the proxy over the
      state of SandboxProxy.v: names and tokens round trip, a refused request changes nothing,
      and which replies cost a sandbox its session.
    - ForeignReaper.v: internal/worker/foreign_vm_reaper.go, and the beginning of
      CompleteIncomingMigration of internal/qemu/migration.go. What a pass spares, and what
      it does to a migration under way.
    - Checkpoints.v, CheckpointsFacts.v: the checkpoint handlers of internal/api/sandbox.go
      with their goroutines, the readiness gate of router.go, patches, and the statements on
      both in internal/db/store.go, over Threads.v. In every interleaving a checkpoint that is
      shown as ready has its archive in the object store ([le]: rows keep their identifiers,
      and an archive goes only after the row that names it); the limits hold for requests
      that do not overlap; patches are applied in order. Fairness of an answer ([fair]) says
      that a call which reports success was carried out.

    ** Behaviour that is not as documented

    Theorems and lemmas that exhibit a defect are stated as positively as the
    others, with a concrete run: [unsorted_requests_deadlock],
    [rewake_loses_event], [hibernateForHalt_deletes_checkpoint],
    [recovery_deletes_files], [failed_promotion_unbilled], [kill_bills_paused_time],
    [partitioned_leader_persists], [inline_wake_splits], [first_rotation_locks_out],
    [wipe_destroys_claimed_box], [invalid_preview_auth_leaks], [third_store_forgotten], and
    lemmas next to the component they concern ([timeout_race_panics],
    [paused_box_lost], [kill_hibernated_noop], [idempotency_race],
    [tick_races_resize], [partial_emission_lost], [in_flight_undercounts],
    [merged_recovery_loses_files], [failed_savevm_stays_frozen], [hotplug_watchers_panic],
    [killed_session_remains], [stale_recovery_reverts_live_migration],
    [late_stop_stalls], [own_hosts_lost], [registry_gap_splits], [unmarked_wake_bills],
    [paused_destroy_overbills], [promotion_unused_when_merged], [patch_sequence_reused] and others).

    ** Not modelled

    On the worker, creation of VMs from golden images, checkpoints and forks, the QMP transfer of a
    migration and calls into the guest (the rest of internal/qemu/manager.go,
    migration.go), internal/firecracker, cloud SDK calls
    (internal/compute), the guest agent, the bytes that proxies copy, the websocket
    gateway, certificates, hash functions and ciphers, dashboard logins, logging and metrics, request parsing and
    JSON rendering of the API handlers, and the tables of the database that the
    lifecycle does not touch. They are calls to the operating system or to
    libraries with little logic of their own; where a modelled flow calls them,
    their answers are inputs. *)

From stdpp Require Export base tactics list numbers option gmap strings fin_maps.
From Stdlib Require Export Lia ZArith.
From Stdlib Require Import Ascii.

#[global] Open Scope Z_scope.
(** [nat] arithmetic is always written with [%nat] in this development. *)

(** ** Go values *)

(** A Go [[]byte]; a Go [string] is a [string] (a sequence of 8-bit
    characters in both cases). *)
Abbreviation bytes := (list ascii).

(** The conversions [string(b)] and [[]byte(s)]. *)
Definition str (b : bytes) : string := String.string_of_list_ascii b.
Definition raw (s : string) : bytes := String.list_ascii_of_string s.

(** Results of fallible Go calls: the [(value, error)] convention. *)
Inductive result (E A : Type) : Type :=
| Ok (a : A)
| Err (e : E).
Arguments Ok {E A} a.
Arguments Err {E A} e.

Declare Scope go_scope.
Delimit Scope go_scope with go.
#[global] Open Scope go_scope.

(** [let? x := c in k]: the [if err != nil { return err }] idiom. *)
Notation "'let?' x ':=' c 'in' k" :=
  (match c with Ok x => k | Err e => Err e end)
  (at level 10, x name, c at level 100, k at level 200) : go_scope.

(** A Go slice expression [b[i:j]] with [i <= j <= len(b)]. *)
Definition slice {A} (b : list A) (i j : nat) : list A := take (j - i) (drop i b).

(** ** Automation *)

Create HintDb oc.
Create Rewrite HintDb oc.

(** Split every conjunction and existential in the context, then
    simplify equations. *)
Ltac crush_hyps :=
  repeat match goal with
  | H : _ /\ _ |- _ => destruct H
  | H : exists _, _ |- _ => destruct H
  end; simplify_eq/=.

(** Case analysis on the scrutinee of the first [match]/[if] of the goal. *)
Ltac case_goal :=
  match goal with
  | |- context [match ?x with _ => _ end] => destruct x eqn:?
  end.

(** Case analysis on a scrutinee that holds no [match] itself. *)
Ltac case_inner :=
  match goal with
  | |- context [match ?x with _ => _ end] =>
      lazymatch x with
      | context [match _ with _ => _ end] => fail
      | _ => destruct x eqn:?
      end
  end.

(** The same in hypothesis [H]. *)
Ltac case_hyp H :=
  match type of H with
  | context [match ?x with _ => _ end] => destruct x eqn:?
  end.

Ltac bool_to_prop :=
  repeat match goal with
  | H : _ && _ = true |- _ => apply andb_true_iff in H; destruct H
  | H : _ || _ = false |- _ => apply orb_false_iff in H; destruct H
  | H : negb _ = true |- _ => apply negb_true_iff in H
  | H : negb _ = false |- _ => apply negb_false_iff in H
  | H : bool_decide _ = true |- _ => apply bool_decide_eq_true in H
  | H : bool_decide _ = false |- _ => apply bool_decide_eq_false in H
  | H : (_ <? _)%Z = true |- _ => apply Z.ltb_lt in H
  | H : (_ <? _)%Z = false |- _ => apply Z.ltb_ge in H
  | H : (_ <=? _)%Z = true |- _ => apply Z.leb_le in H
  | H : (_ <=? _)%Z = false |- _ => apply Z.leb_gt in H
  | H : (_ =? _)%Z = true |- _ => apply Z.eqb_eq in H
  | H : (_ =? _)%Z = false |- _ => apply Z.eqb_neq in H
  | H : (_ <? _)%nat = true |- _ => apply Nat.ltb_lt in H
  | H : (_ <? _)%nat = false |- _ => apply Nat.ltb_ge in H
  | H : (_ <=? _)%nat = true |- _ => apply Nat.leb_le in H
  | H : (_ <=? _)%nat = false |- _ => apply Nat.leb_gt in H
  | H : (_ =? _)%nat = true |- _ => apply Nat.eqb_eq in H
  | H : (_ =? _)%nat = false |- _ => apply Nat.eqb_neq in H
  end.

(** ** Shared lemmas on strings *)

Lemma str_raw s : str (raw s) = s.
Proof. apply String.string_of_list_ascii_of_string. Qed.

Lemma raw_str b : raw (str b) = b.
Proof. apply String.list_ascii_of_string_of_list_ascii. Qed.

Lemma str_inj b1 b2 : str b1 = str b2 -> b1 = b2.
Proof. intros H. by rewrite <- (raw_str b1), H, raw_str. Qed.

#[export] Hint Rewrite str_raw raw_str : oc.

(** ** Shared lemmas on lists *)

Section ListFacts.
Context {A : Type}.
Implicit Types l k : list A.

Lemma app_prefix_length l1 l2 k1 k2 :
  l1 ++ l2 = k1 ++ k2 -> (length l1 <= length k1)%nat -> exists m, k1 = l1 ++ m.
Proof.
  intros Heq Hlen. exists (drop (length l1) k1).
  rewrite <- (take_drop (length l1) k1) at 1. f_equal.
  assert (take (length l1) (l1 ++ l2) = take (length l1) (k1 ++ k2)) as Ht by by rewrite Heq.
  rewrite take_app_length, take_app_le in Ht by done. done.
Qed.

Lemma slice_length (b : list A) i j :
  (j <= length b)%nat -> length (slice b i j) = (j - i)%nat.
Proof. intros H. unfold slice. rewrite length_take, length_drop. lia. Qed.

End ListFacts.

(** ** Decimal integers: Go's [%d] on unsigned values *)

Definition digit_char (d : N) : ascii := ascii_of_N (48 + d).
Definition is_digit (c : ascii) : bool := (48 <=? N_of_ascii c)%N && (N_of_ascii c <=? 57)%N.
Definition digit_val (c : ascii) : N := (N_of_ascii c - 48)%N.

Fixpoint itoa_loop (fuel : nat) (n : N) (acc : bytes) : bytes :=
  match fuel with
  | O => acc
  | S fuel' =>
      let acc' := digit_char (n mod 10) :: acc in
      if (n <? 10)%N then acc' else itoa_loop fuel' (n / 10) acc'
  end.

(** A number has no more decimal than binary digits. *)
Definition itoa (n : N) : bytes := itoa_loop (S (N.size_nat n)) n [].

(** Value of a digit string. *)
Definition digits_val (b : bytes) : N := fold_left (fun a c => (10 * a + digit_val c)%N) b 0%N.

Lemma digit_char_spec d : (d < 10)%N -> is_digit (digit_char d) = true /\ digit_val (digit_char d) = d.
Proof.
  intros Hd. unfold is_digit, digit_val, digit_char.
  rewrite N_ascii_embedding by lia. split; [|lia].
  apply andb_true_iff; split; apply N.leb_le; lia.
Qed.

Lemma itoa_loop_spec fuel n acc :
  (0 < fuel)%nat -> (n < 2 ^ N.of_nat fuel)%N ->
  exists ds, itoa_loop fuel n acc = ds ++ acc /\ ds <> [] /\ Forall (fun c => is_digit c = true) ds /\
    digits_val ds = n.
Proof.
  revert n acc; induction fuel as [|fuel IH]; intros n acc H0 Hf; [lia|]. cbn [itoa_loop].
  pose proof (N.mod_lt n 10 ltac:(lia)) as Hm.
  destruct (digit_char_spec (n mod 10) Hm) as [Hd Hv].
  destruct (n <? 10)%N eqn:E.
  - apply N.ltb_lt in E. exists [digit_char (n mod 10)]. split_and!; [done|done|by repeat constructor|].
    unfold digits_val. cbn [fold_left]. rewrite Hv, N.mod_small by lia. lia.
  - apply N.ltb_ge in E.
    rewrite Nat2N.inj_succ, N.pow_succ_r' in Hf.
    destruct (IH (n / 10)%N (digit_char (n mod 10) :: acc)) as (ds & Hds & Hne & Hall & Hval).
    { destruct fuel; [cbn in Hf; lia|lia]. }
    { apply N.Div0.div_lt_upper_bound. lia. }
    exists (ds ++ [digit_char (n mod 10)]). rewrite Hds, <- app_assoc. split_and!; [done| | |].
    + by destruct ds.
    + apply Forall_app. split; [done|by repeat constructor].
    + unfold digits_val in *. rewrite fold_left_app. cbn [fold_left]. rewrite Hval, Hv.
      rewrite (N.div_mod n 10) at 3 by lia. lia.
Qed.

Lemma size_nat_size n : N.of_nat (N.size_nat n) = N.size n.
Proof. destruct n as [|p]; cbn; [done|]. induction p as [p IH|p IH|]; cbn [Pos.size_nat Pos.size]; lia. Qed.

Lemma itoa_spec n :
  itoa n <> [] /\ Forall (fun c => is_digit c = true) (itoa n) /\ digits_val (itoa n) = n.
Proof.
  unfold itoa. destruct (itoa_loop_spec (S (N.size_nat n)) n []) as (ds & -> & ? & ? & ?); [lia| |].
  { pose proof (N.size_gt n) as Hs. rewrite Nat2N.inj_succ, N.pow_succ_r'. rewrite size_nat_size. lia. }
  by rewrite app_nil_r.
Qed.

Lemma itoa_inj m n : itoa m = itoa n -> m = n.
Proof.
  intros H. destruct (itoa_spec m) as (_ & _ & <-), (itoa_spec n) as (_ & _ & <-). by rewrite H.
Qed.

(** Splitting at a separator that does not occur in the first part is unique. *)
Lemma app_sep_inj {A} (P : A -> Prop) (a a' b b' : list A) x :
  ~ P x -> Forall P a -> Forall P a' -> a ++ x :: b = a' ++ x :: b' -> a = a' /\ b = b'.
Proof.
  intros Hx Ha. revert a'; induction Ha as [|y a Hy Ha IH]; intros a' Ha' Heq;
    destruct Ha' as [|y' a' Hy' Ha']; simplify_eq/=; try done.
  destruct (IH a' Ha' H0) as [-> ->]. done.
Qed.

(** Splitting at the last occurrence of a separator is unique. *)
Lemma app_last_inj {A} (P : A -> Prop) (a a' b b' : list A) x :
  ~ P x -> Forall P b -> Forall P b' -> a ++ x :: b = a' ++ x :: b' -> a = a' /\ b = b'.
Proof.
  intros Hx Hb Hb' E. apply (f_equal (@rev A)) in E. rewrite !rev_app_distr in E. cbn [rev] in E. rewrite <- !app_assoc in E.
  apply (app_sep_inj P) in E as [E1 E2]; [|done|by apply Forall_rev..].
  apply (f_equal (@rev A)) in E1, E2. by rewrite !rev_involutive in E1, E2.
Qed.

(** [fmt.Sprintf("%d", n)] and [strconv.FormatInt]. *)
Definition itoaZ (n : Z) : bytes :=
  if (n <? 0)%Z then "-"%char :: itoa (Z.to_N (- n)) else itoa (Z.to_N n).

Lemma itoaZ_chars n : Forall (fun c => is_digit c = true \/ c = "-"%char) (itoaZ n).
Proof.
  assert (forall m, Forall (fun c => is_digit c = true \/ c = "-"%char) (itoa m)) as Hm.
  { intros m. destruct (itoa_spec m) as (_ & H & _). eapply Forall_impl; [exact H|]. by left. }
  unfold itoaZ. destruct (n <? 0)%Z; [|done]. constructor; [by right|done].
Qed.

Lemma itoaZ_inj m n : itoaZ m = itoaZ n -> m = n.
Proof.
  assert (forall a b, "-"%char :: itoa a <> itoa b) as Hd.
  { intros a b E. destruct (itoa_spec b) as (_ & H & _). rewrite <- E in H. inversion H as [|? ? Hc]. by vm_compute in Hc. }
  unfold itoaZ. destruct (m <? 0)%Z eqn:Em, (n <? 0)%Z eqn:En; intros E; bool_to_prop.
  - injection E as E. apply itoa_inj in E. lia.
  - by apply Hd in E.
  - by apply eq_sym, Hd in E.
  - apply itoa_inj in E. lia.
Qed.

Lemma digit_not_dot : ~ is_digit "."%char = true.
Proof. vm_compute. discriminate. Qed.
