(* ===== verification/Replacer.v ===== *)
(** * Secrets proxy: the streaming token replacer

    Models [src/internal/secretsproxy/replacer.go]: [processChunk],
    [findSafeFlushPoint], [newStreamReplacer] and [streamReplacer.Read],
    together with the [io.ReadAll] call its client makes.  The main theorems
    say that how the request body is split into reads never matters: draining
    the replacer gives exactly the left-to-right token substitution of the
    whole body. *)

From S2P Require Import Prelude.
From Stdlib Require Import Ascii.

Module Replacer.

(** ** Constants *)

Definition tokenPrefix : string := "osb_sealed_".
Definition tokenHexLen : nat := 32.
Definition tokenLen : nat := length (raw tokenPrefix) + tokenHexLen.

(** ** Byte search *)

(** [bytes.HasPrefix]-style test used by [bytes.Index]. *)
Fixpoint starts_with (p b : bytes) : bool :=
  match p, b with
  | [], _ => true
  | x :: p', y :: b' => bool_decide (x = y) && starts_with p' b'
  | _ :: _, [] => false
  end.

(** [bytes.Index(b, p)]: the first offset at which [p] occurs, [None] for
    Go's [-1]. *)
Fixpoint bytes_Index (b p : bytes) : option nat :=
  if starts_with p b then Some 0%nat
  else match b with
       | [] => None
       | _ :: b' => S <$> bytes_Index b' p
       end.

(** ** [findSafeFlushPoint] *)

(** The [for k := 1; k < len(prefix) && k <= len(data); k++] loop; [fuel]
    counts the remaining values of [k]. *)
Fixpoint flush_loop (data prefix : bytes) (k fuel : nat) : nat :=
  match fuel with
  | O => length data
  | S fuel' =>
      if (k <? length prefix)%nat && (k <=? length data)%nat then
        if bool_decide (drop (length data - k) data = take k prefix)
        then (length data - k)%nat
        else flush_loop data prefix (S k) fuel'
      else length data
  end.

Definition findSafeFlushPoint (data : bytes) : nat :=
  flush_loop data (raw tokenPrefix) 1 (length (raw tokenPrefix)).

(** ** [processChunk] *)

(** The scanning loop of [processChunk]; [rest] is [data[i:]] and [out] the
    bytes written so far.  Every iteration that continues consumes at least
    [tokenLen] bytes, so [length rest] iterations are enough
    ([process_loop_fuel]). *)
Fixpoint process_loop (fuel : nat) (rest : bytes) (tokens : gmap string string)
    (flush : bool) (out : bytes) : bytes * bytes :=
  match fuel with
  | O => (out, [])
  | S fuel' =>
      match rest with
      | [] => (out, [])
      | _ :: _ =>
          match bytes_Index rest (raw tokenPrefix) with
          | None =>
              if flush then (out ++ rest, [])
              else let safeEnd := findSafeFlushPoint rest in
                   (out ++ take safeEnd rest, drop safeEnd rest)
          | Some idx =>
              let out1 := out ++ take idx rest in
              let tail := drop idx rest in
              if (length tail <? tokenLen)%nat then
                if flush then (out1 ++ tail, []) else (out1, tail)
              else
                let candidate := take tokenLen tail in
                let out2 := match tokens !! str candidate with
                            | Some real => out1 ++ raw real
                            | None => out1 ++ candidate
                            end in
                process_loop fuel' (drop tokenLen tail) tokens flush out2
          end
      end
  end.

Definition processChunk (data : bytes) (tokens : gmap string string) (flush : bool)
  : bytes * bytes :=
  process_loop (length data) data tokens flush [].

(** ** The reader *)

(** One outcome of [src.Read(r.tmp)]: the bytes it delivered and its error. *)
Inductive read_event :=
| RData (chunk : bytes)            (** [n = len(chunk), err = nil] *)
| REof (chunk : bytes)             (** [n = len(chunk), err = io.EOF] *)
| RFail (chunk : bytes) (e : string). (** any other error *)

Inductive read_err := EOF | ReadFailed (e : string).

Record streamReplacer := {
  sr_src : list read_event;
  sr_tokens : gmap string string;
  sr_buf : bytes;
  sr_out : bytes;
  sr_eof : bool;
}.

(** [r.src.Read(r.tmp)]: a source that has delivered everything keeps
    answering [0, io.EOF]. *)
Definition src_read (src : list read_event) : read_event * list read_event :=
  match src with
  | [] => (REof [], [])
  | ev :: src' => (ev, src')
  end.

(** The [for len(r.out) == 0] loop of [Read].  Answers the error the call
    returns, or [None] when the loop ends with data in [r.out]. *)
Fixpoint fill (fuel : nat) (r : streamReplacer) : option (option read_err) * streamReplacer :=
  match fuel with
  | O => (None, r)
  | S fuel' =>
      match sr_out r with
      | _ :: _ => (Some None, r)
      | [] =>
          if sr_eof r then
            match sr_buf r with
            | _ :: _ =>
                let out := (processChunk (sr_buf r) (sr_tokens r) true).1 in
                let r' := {| sr_src := sr_src r; sr_tokens := sr_tokens r; sr_buf := [];
                             sr_out := out; sr_eof := true |} in
                match out with
                | _ :: _ => (Some None, r')
                | [] => (Some (Some EOF), r')
                end
            | [] => (Some (Some EOF), r)
            end
          else
            let '(ev, src') := src_read (sr_src r) in
            let step chunk eof :=
              let '(out, remainder) := processChunk (sr_buf r ++ chunk) (sr_tokens r) eof in
              fill fuel' {| sr_src := src'; sr_tokens := sr_tokens r; sr_buf := remainder;
                            sr_out := out; sr_eof := eof |} in
            match ev with
            | RData chunk => step chunk false
            | REof chunk => step chunk true
            | RFail chunk e =>
                (Some (Some (ReadFailed e)),
                 {| sr_src := src'; sr_tokens := sr_tokens r; sr_buf := sr_buf r ++ chunk;
                    sr_out := []; sr_eof := false |})
            end
      end
  end.

(** [Read(p)] with [len(p) = plen].  [length src + 3] iterations of the loop
    always suffice (one per event, one for the final [io.EOF], one to flush,
    one to leave). *)
Definition Read (r : streamReplacer) (plen : nat)
  : option (bytes * option read_err) * streamReplacer :=
  match fill (length (sr_src r) + 3) r with
  | (None, r') => (None, r')
  | (Some (Some e), r') => (Some ([], Some e), r')
  | (Some None, r') =>
      (Some (take plen (sr_out r'), None),
       {| sr_src := sr_src r'; sr_tokens := sr_tokens r'; sr_buf := sr_buf r';
          sr_out := drop plen (sr_out r'); sr_eof := sr_eof r' |})
  end.

(** The [io.Reader] a request body is read through: the source itself, or the
    replacer around it. *)
Inductive reader :=
| Plain (src : list read_event)
| Replacing (r : streamReplacer).

(** If [tokens] is empty, reads pass through without buffering. *)
Definition newStreamReplacer (src : list read_event) (tokens : gmap string string) : reader :=
  if bool_decide (tokens = ∅) then Plain src
  else Replacing {| sr_src := src; sr_tokens := tokens; sr_buf := []; sr_out := [];
                    sr_eof := false |}.

(** Everything a source delivers up to its [io.EOF], or its error. *)
Fixpoint src_bytes (src : list read_event) : result string bytes :=
  match src with
  | [] => Ok []
  | RData c :: src' => let? b := src_bytes src' in Ok (c ++ b)
  | REof c :: _ => Ok c
  | RFail _ e :: _ => Err e
  end.

(** [io.ReadAll]: read until an error; [io.EOF] is success.  [psize i] is the
    length of the buffer offered by the [i]-th read. *)
Fixpoint ReadAll_replacer (fuel : nat) (psize : nat -> nat) (i : nat) (r : streamReplacer)
    (acc : bytes) : option (result string bytes) :=
  match fuel with
  | O => None
  | S fuel' =>
      match Read r (psize i) with
      | (None, _) => None
      | (Some (b, None), r') => ReadAll_replacer fuel' psize (S i) r' (acc ++ b)
      | (Some (b, Some EOF), _) => Some (Ok (acc ++ b))
      | (Some (b, Some (ReadFailed e)), _) => Some (Err e)
      end
  end.

Definition ReadAll (fuel : nat) (psize : nat -> nat) (rd : reader)
  : option (result string bytes) :=
  match rd with
  | Plain src => Some (src_bytes src)
  | Replacing r => ReadAll_replacer fuel psize 0 r []
  end.

(** ** Reference: byte-at-a-time substitution

    [substitute] looks at every position in turn: at an occurrence of the
    token prefix it takes the 43-byte candidate and replaces it (or copies it
    when the map does not know it); a candidate cut short by the end of the
    input is literal text. *)
Fixpoint subst_fuel (fuel : nat) (tokens : gmap string string) (b : bytes) : bytes :=
  match fuel with
  | O => b
  | S fuel' =>
      match b with
      | [] => []
      | x :: b' =>
          if starts_with (raw tokenPrefix) b then
            if (length b <? tokenLen)%nat then b
            else
              (match tokens !! str (take tokenLen b) with
               | Some real => raw real
               | None => take tokenLen b
               end) ++ subst_fuel fuel' tokens (drop tokenLen b)
          else x :: subst_fuel fuel' tokens b'
      end
  end.

Definition substitute (tokens : gmap string string) (b : bytes) : bytes :=
  subst_fuel (length b) tokens b.

(** ** Lemmas: byte search *)

Lemma starts_with_spec p b : starts_with p b = true <-> exists r, b = p ++ r.
Proof.
  revert b; induction p as [|x p IH]; intros [|y b]; simpl; split; try done.
  - intros _. by exists [].
  - intros _. by exists (y :: b).
  - by intros [r ?].
  - intros H. bool_to_prop. subst. apply IH in H0 as [r ->]. by exists r.
  - intros [r [= -> ->]]. rewrite bool_decide_true by done. simpl. apply IH. by exists r.
Qed.

Lemma starts_with_length p b : starts_with p b = true -> (length p <= length b)%nat.
Proof. intros [r ->]%starts_with_spec. rewrite length_app. lia. Qed.

Lemma starts_with_app p b r :
  (length p <= length b)%nat -> starts_with p (b ++ r) = starts_with p b.
Proof.
  revert b; induction p as [|x p IH]; intros [|y b]; simpl; intros H; try done; [lia|].
  f_equal. apply IH. lia.
Qed.

Lemma bytes_Index_None b p i :
  p <> [] -> bytes_Index b p = None -> starts_with p (drop i b) = false.
Proof.
  intros Hp. revert i; induction b as [|x b IH]; intros i.
  - rewrite drop_nil. by destruct p.
  - simpl. case_match eqn:E; [done|]. destruct (bytes_Index b p); [done|].
    intros _. destruct i as [|i]; simpl; [done|by apply IH].
Qed.

Lemma bytes_Index_Some b p n :
  bytes_Index b p = Some n ->
  starts_with p (drop n b) = true /\ (n <= length b)%nat /\
  (forall i, (i < n)%nat -> starts_with p (drop i b) = false).
Proof.
  revert n; induction b as [|x b IH]; intros n; simpl.
  - case_match eqn:E; [|done]. intros [= <-]. simpl. split_and!; [done|lia|]. intros; lia.
  - case_match eqn:E.
    + intros [= <-]. split_and!; [done|lia|]. intros; lia.
    + destruct (bytes_Index b p) as [m|] eqn:Em; [|done]. intros [= <-].
      destruct (IH m eq_refl) as (H1 & H2 & H3). split_and!; [done|lia|].
      intros [|i] Hi; simpl; [done|]. apply H3. lia.
Qed.

(** ** Lemmas: the reference substitution *)

Lemma tokenLen_pos : (0 < tokenLen)%nat.
Proof. unfold tokenLen, tokenHexLen. lia. Qed.

Lemma prefix_length : length (raw tokenPrefix) = 11%nat.
Proof. reflexivity. Qed.

Lemma prefix_lt_token : (length (raw tokenPrefix) < tokenLen)%nat.
Proof. unfold tokenLen, tokenHexLen. lia. Qed.

(** The token prefix has no proper border: no non-empty proper prefix of one of
    its prefixes is also a suffix of it.  This is what makes it enough for
    [findSafeFlushPoint] to return at the first [k] that matches. *)
Lemma prefix_no_border k j :
  (1 <= j < k)%nat -> (k < length (raw tokenPrefix))%nat ->
  drop (k - j) (take k (raw tokenPrefix)) <> take j (raw tokenPrefix).
Proof.
  assert (forallb (fun k => forallb (fun j =>
            negb (bool_decide (drop (k - j) (take k (raw tokenPrefix)) = take j (raw tokenPrefix))))
            (seq 1 (k - 1))) (seq 0 11) = true) as H by (vm_compute; reflexivity).
  rewrite prefix_length. intros Hj Hk.
  rewrite forallb_forall in H. specialize (H k ltac:(apply in_seq; lia)).
  rewrite forallb_forall in H. specialize (H j ltac:(apply in_seq; lia)).
  by bool_to_prop.
Qed.

#[local] Opaque tokenLen tokenPrefix.

(** ** Lemmas: [findSafeFlushPoint] *)

Lemma flush_loop_spec data prefix k fuel :
  (length prefix <= k + fuel)%nat -> (1 <= k)%nat ->
  (flush_loop data prefix k fuel = length data /\
   forall j, (k <= j < length prefix)%nat -> (j <= length data)%nat ->
     drop (length data - j) data <> take j prefix) \/
  (exists j, (k <= j < length prefix)%nat /\ (j <= length data)%nat /\
     flush_loop data prefix k fuel = (length data - j)%nat /\
     drop (length data - j) data = take j prefix).
Proof.
  revert k; induction fuel as [|fuel IH]; intros k Hf Hk; simpl.
  - left. split; [done|]. intros j Hj. lia.
  - case_match eqn:E; bool_to_prop.
    + case_match eqn:E2; bool_to_prop.
      * right. exists k. split_and!; (done || lia).
      * destruct (IH (S k)) as [[Heq Hno]|(j & Hj & Hl & Heq & Hd)]; [lia|lia| |].
        -- left. split; [done|]. intros j Hj Hl.
           destruct (decide (j = k)) as [->|]; [done|]. apply Hno; lia.
        -- right. exists j. split_and!; (done || lia).
    + left. split; [done|]. intros j Hj Hl. apply andb_false_iff in E as [E|E]; bool_to_prop; lia.
Qed.

(** No token prefix can start before the flush point, whatever arrives
    next. *)
Lemma findSafeFlushPoint_safe data fut i :
  bytes_Index data (raw tokenPrefix) = None ->
  (i < findSafeFlushPoint data)%nat ->
  starts_with (raw tokenPrefix) (drop i (data ++ fut)) = false.
Proof.
  intros Hidx Hi. unfold findSafeFlushPoint in Hi.
  destruct (starts_with _ (drop i (data ++ fut))) eqn:Hs; [exfalso|done].
  pose proof (flush_loop_spec data (raw tokenPrefix) 1 (length (raw tokenPrefix))
                ltac:(lia) ltac:(lia)) as Hspec.
  assert (i < length data)%nat as Hil.
  { destruct Hspec as [[Heq _]|(j & ? & ? & Heq & _)]; lia. }
  rewrite drop_app_le in Hs by lia.
  destruct (le_lt_dec (length (raw tokenPrefix)) (length (drop i data))) as [Hle|Hlt].
  { rewrite starts_with_app in Hs by done.
    rewrite bytes_Index_None in Hs; done. }
  (* the match straddles the end: a proper prefix of the token prefix is a suffix of data *)
  apply starts_with_spec in Hs as [r Hr].
  apply app_prefix_length in Hr as [m Hm]; [|lia].
  rewrite length_drop in Hlt.
  assert (drop i data = take (length data - i) (raw tokenPrefix)) as Hk.
  { rewrite Hm, take_app_le by (rewrite length_drop; lia).
    rewrite take_ge; [done|rewrite length_drop; lia]. }
  destruct Hspec as [[_ Hno]|(j & Hj & Hjl & Heq & Hd)].
  - apply (Hno (length data - i)%nat); [lia|lia|].
    replace (length data - (length data - i))%nat with i by lia. done.
  - apply (prefix_no_border (length data - i) j); [lia|lia|].
    rewrite <- Hk, drop_drop, <- Hd. f_equal. lia.
Qed.

Lemma findSafeFlushPoint_le data : (findSafeFlushPoint data <= length data)%nat.
Proof.
  unfold findSafeFlushPoint.
  destruct (flush_loop_spec data (raw tokenPrefix) 1 (length (raw tokenPrefix)))
    as [[Heq _]|(j & ? & ? & Heq & _)]; lia.
Qed.

Section Substitution.
Context (tokens : gmap string string).

Lemma subst_fuel_enough f1 f2 b :
  (length b <= f1)%nat -> (length b <= f2)%nat ->
  subst_fuel f1 tokens b = subst_fuel f2 tokens b.
Proof.
  revert f2 b; induction f1 as [|f1 IH]; intros f2 [|x b] H1 H2; simpl in *;
    try (destruct f2; simpl in *; (done || lia)); try lia.
  destruct f2 as [|f2]; simpl in *; [lia|].
  pose proof tokenLen_pos.
  case_match; [case_match; [done|]|].
  - f_equal. apply IH; rewrite length_drop; simpl; lia.
  - f_equal. apply IH; lia.
Qed.

Lemma substitute_nil : substitute tokens [] = [].
Proof. done. Qed.

Lemma substitute_skip1 x b :
  starts_with (raw tokenPrefix) (x :: b) = false ->
  substitute tokens (x :: b) = x :: substitute tokens b.
Proof. intros H. unfold substitute. simpl length. cbn [subst_fuel]. by rewrite H. Qed.

Lemma substitute_short b :
  starts_with (raw tokenPrefix) b = true -> (length b < tokenLen)%nat ->
  substitute tokens b = b.
Proof.
  destruct b as [|x b]; [done|]. intros H Hl. unfold substitute. simpl length.
  cbn [subst_fuel]. rewrite H. by rewrite (proj2 (Nat.ltb_lt _ _)) by done.
Qed.

Lemma substitute_token b :
  starts_with (raw tokenPrefix) b = true -> (tokenLen <= length b)%nat ->
  substitute tokens b =
    match tokens !! str (take tokenLen b) with
    | Some real => raw real
    | None => take tokenLen b
    end ++ substitute tokens (drop tokenLen b).
Proof.
  destruct b as [|x b]; [done|]. intros H Hl. unfold substitute at 1. simpl length at 1.
  cbn [subst_fuel]. rewrite H. rewrite (proj2 (Nat.ltb_ge _ _)) by done.
  f_equal. pose proof tokenLen_pos. apply subst_fuel_enough; rewrite length_drop; simpl; lia.
Qed.

(** Bytes at which no token prefix starts are copied. *)
Lemma substitute_skip n b :
  (n <= length b)%nat ->
  (forall i, (i < n)%nat -> starts_with (raw tokenPrefix) (drop i b) = false) ->
  substitute tokens b = take n b ++ substitute tokens (drop n b).
Proof.
  revert b; induction n as [|n IH]; intros b Hn Hno; [done|].
  destruct b as [|x b]; simpl in *; [lia|].
  rewrite substitute_skip1 by apply (Hno 0%nat ltac:(lia)).
  f_equal. apply IH; [lia|]. intros i Hi. apply (Hno (S i)). lia.
Qed.

(** With no tokens the substitution is the identity. *)
Lemma substitute_empty b : tokens = ∅ -> substitute tokens b = b.
Proof.
  intros ->. unfold substitute.
  enough (forall f b, subst_fuel f ∅ b = b) by done.
  clear b. induction f as [|f IH]; intros [|x b]; cbn [subst_fuel]; try done.
  repeat case_match; try done; try (by rewrite IH).
  rewrite IH. by rewrite take_drop.
Qed.

(** ** Lemmas: [processChunk] against the reference *)

Lemma process_loop_flush fuel rest out :
  (length rest <= fuel)%nat ->
  process_loop fuel rest tokens true out = (out ++ substitute tokens rest, []).
Proof.
  revert rest out; induction fuel as [|fuel IH]; intros rest out Hf.
  { destruct rest; simpl in *; [|lia]. by rewrite substitute_nil, app_nil_r. }
  destruct rest as [|x rest']; [by rewrite substitute_nil, app_nil_r|].
  set (rest := x :: rest') in *. cbn [process_loop]. unfold rest at 1.
  destruct (bytes_Index rest (raw tokenPrefix)) as [idx|] eqn:Hidx.
  - apply bytes_Index_Some in Hidx as (Hs & Hl & Hno).
    rewrite (substitute_skip idx rest) by done. rewrite app_assoc.
    case_match eqn:E; bool_to_prop.
    + by rewrite (substitute_short (drop idx rest)).
    + pose proof tokenLen_pos. rewrite length_drop in E.
      rewrite (substitute_token (drop idx rest)) by (done || (rewrite length_drop; lia)).
      rewrite IH by (rewrite !length_drop; unfold rest in *; simpl in *; lia).
      case_match; by rewrite <- !app_assoc.
  - rewrite (substitute_skip (length rest) rest); [|done|].
    + by rewrite take_ge, drop_ge, substitute_nil, app_nil_r by lia.
    + intros i _. by apply bytes_Index_None.
Qed.

Lemma processChunk_flush data :
  processChunk data tokens true = (substitute tokens data, []).
Proof. unfold processChunk. by rewrite process_loop_flush. Qed.

(** Chunk law: what a non-final call emits, followed by the substitution of
    the held-back remainder and any future bytes, is the substitution of the
    data and the future bytes. *)
Lemma process_loop_partial fuel rest out o rem fut :
  (length rest <= fuel)%nat ->
  process_loop fuel rest tokens false out = (o, rem) ->
  exists o', o = out ++ o' /\
    substitute tokens (rest ++ fut) = o' ++ substitute tokens (rem ++ fut).
Proof.
  revert rest out; induction fuel as [|fuel IH]; intros rest out Hf.
  { destruct rest; simpl in *; [|lia]. intros [= <- <-]. exists []. by rewrite app_nil_r. }
  destruct rest as [|x rest'].
  { intros [= <- <-]. exists []. by rewrite app_nil_r. }
  set (rest := x :: rest') in *. cbn [process_loop]. unfold rest at 1.
  destruct (bytes_Index rest (raw tokenPrefix)) as [idx|] eqn:Hidx.
  - apply bytes_Index_Some in Hidx as (Hs & Hl & Hno).
    assert (substitute tokens (rest ++ fut) =
            take idx rest ++ substitute tokens (drop idx rest ++ fut)) as Hskip.
    { rewrite (substitute_skip idx (rest ++ fut)).
      - by rewrite take_app_le, drop_app_le by done.
      - rewrite length_app. lia.
      - intros i Hi. rewrite drop_app_le by lia.
        rewrite <- (Hno i Hi).
        apply starts_with_app. apply starts_with_length in Hs. rewrite length_drop in *. lia. }
    case_match eqn:E; bool_to_prop.
    + intros [= <- <-]. eexists. split; [done|]. done.
    + pose proof tokenLen_pos. pose proof prefix_lt_token as Hpt. rewrite length_drop in E.
      intros Hloop. apply IH in Hloop as (o' & -> & Hsub);
        [|rewrite !length_drop; unfold rest in *; simpl in *; lia].
      rewrite Hskip, (substitute_token (drop idx rest ++ fut)); [| |rewrite length_app, length_drop; lia].
      2:{ rewrite starts_with_app; [done|]. rewrite length_drop. lia. }
      rewrite take_app_le, (drop_app_le (drop idx rest)), Hsub by (rewrite length_drop; lia).
      case_match; eexists; (split; [by rewrite <- !app_assoc|by rewrite <- !app_assoc]).
  - intros [= <- <-]. eexists. split; [done|].
    pose proof (findSafeFlushPoint_le rest) as Hle.
    rewrite (substitute_skip (findSafeFlushPoint rest) (rest ++ fut)).
    + by rewrite take_app_le, drop_app_le by done.
    + rewrite length_app. lia.
    + intros i Hi. by apply findSafeFlushPoint_safe.
Qed.

Lemma processChunk_partial data o rem fut :
  processChunk data tokens false = (o, rem) ->
  substitute tokens (data ++ fut) = o ++ substitute tokens (rem ++ fut).
Proof.
  unfold processChunk. intros H.
  destruct (process_loop_partial (length data) data [] o rem fut) as (o' & -> & Hs); [lia|done|].
  done.
Qed.

End Substitution.

(** ** Lemmas: the reader *)

(** What remains to be delivered by a replacer. *)
Definition pending (r : streamReplacer) : result string bytes :=
  let? fut := (if sr_eof r then Ok [] else src_bytes (sr_src r)) in
  Ok (sr_out r ++ substitute (sr_tokens r) (sr_buf r ++ fut)).

(** Once the source is exhausted nothing is held back. *)
Definition replacer_wf (r : streamReplacer) : Prop := sr_eof r = true -> sr_buf r = [].

Definition rank (r : streamReplacer) : nat :=
  (2 * length (sr_src r) + if sr_eof r then 0 else 1)%nat.

(** What a run of the filling loop has achieved. *)
Definition fill_post (r : streamReplacer) (res : option (option read_err) * streamReplacer) : Prop :=
  match res with
  | (None, _) => False
  | (Some (Some EOF), _) => pending r = Ok []
  | (Some (Some (ReadFailed e)), _) => pending r = Err e
  | (Some None, r') =>
      sr_out r' <> [] /\ pending r' = pending r /\ replacer_wf r' /\
      (r' = r \/ (rank r' < rank r)%nat)
  end.

Lemma fill_post_weaken r1 r res :
  pending r1 = pending r -> (rank r1 < rank r)%nat -> fill_post r1 res -> fill_post r res.
Proof.
  intros Hp Hr. unfold fill_post. destruct res as [[[[|e]|]|] r']; rewrite ?Hp; try done.
  intros (? & ? & ? & [->|?]); split_and!; try done; right; lia.
Qed.

Lemma fill_spec fuel r :
  replacer_wf r ->
  ((if sr_eof r then 1 else length (sr_src r) + 2) <= fuel)%nat ->
  fill_post r (fill fuel r).
Proof.
  revert r; induction fuel as [|fuel IH]; intros [src tokens buf out eof] Hwf Hf;
    cbn [sr_eof sr_src] in Hf; [destruct eof; lia|].
  cbn [fill sr_out sr_eof sr_buf sr_src sr_tokens].
  destruct out as [|b out]; [|simpl; split_and!; try done; by left].
  destruct eof.
  { specialize (Hwf eq_refl). simpl in Hwf. subst buf. done. }
  assert (forall chunk src' (eof : bool),
    src_bytes src = (if eof then Ok chunk else let? b := src_bytes src' in Ok (chunk ++ b)) ->
    (length src' + (if eof then 0 else 1) <= length src)%nat ->
    fill_post {| sr_src := src; sr_tokens := tokens; sr_buf := buf; sr_out := []; sr_eof := false |}
      (let '(o, remainder) := processChunk (buf ++ chunk) tokens eof in
       fill fuel {| sr_src := src'; sr_tokens := tokens; sr_buf := remainder;
                    sr_out := o; sr_eof := eof |})) as Hstep.
  { intros chunk src' eof Hsrc Hlen.
    destruct (processChunk (buf ++ chunk) tokens eof) as [o rem] eqn:Hp.
    eapply fill_post_weaken; [| |apply IH].
    - unfold pending. cbn [sr_eof sr_src sr_out sr_buf sr_tokens]. rewrite Hsrc. destruct eof.
      + rewrite processChunk_flush in Hp. injection Hp as <- <-.
        by rewrite substitute_nil, app_nil_r.
      + destruct (src_bytes src') as [b|e]; [|done].
        rewrite app_assoc, (processChunk_partial tokens (buf ++ chunk) o rem b) by done. done.
    - unfold rank. cbn [sr_eof sr_src]. destruct eof; lia.
    - intros He. cbn [sr_eof sr_buf] in *. subst eof. rewrite processChunk_flush in Hp. congruence.
    - cbn [sr_eof sr_src]. destruct eof; lia. }
  destruct src as [|[chunk|chunk|chunk e] src']; cbn [src_read].
  - apply Hstep; [done|simpl; lia].
  - apply Hstep; [done|simpl; lia].
  - apply Hstep; [done|simpl; lia].
  - done.
Qed.

Section ReadAll.
Context (psize : nat -> nat) (psize_pos : forall i, (0 < psize i)%nat).

(** Reading until [io.EOF] delivers exactly what is pending. *)
Definition drains (r : streamReplacer) : Prop :=
  forall i, exists n, forall fuel acc, (n <= fuel)%nat ->
    ReadAll_replacer fuel psize i r acc = Some (let? b := pending r in Ok (acc ++ b)).

Lemma drains_all r : replacer_wf r -> drains r.
Proof using psize_pos.
  remember (rank r) as m eqn:Hm. remember (length (sr_out r)) as l eqn:Hl.
  revert l r Hm Hl. induction (lt_wf m) as [m _ IHm]. intros l.
  induction (lt_wf l) as [l _ IHl]. intros r -> -> Hwf i.
  pose proof (fill_spec (length (sr_src r) + 3) r Hwf ltac:(destruct (sr_eof r); lia)) as Hpost.
  destruct (fill (length (sr_src r) + 3) r) as [[[[|e]|]|] r'] eqn:Hfill; simpl in Hpost;
    [| | |done].
  - exists 1%nat. intros [|fuel] acc Hf; [lia|]. simpl. unfold Read. by rewrite Hfill, Hpost.
  - exists 1%nat. intros [|fuel] acc Hf; [lia|]. simpl. unfold Read. by rewrite Hfill, Hpost.
  - destruct Hpost as (Hne & Hp & Hwf' & Hdec).
    set (r2 := {| sr_src := sr_src r'; sr_tokens := sr_tokens r'; sr_buf := sr_buf r';
                  sr_out := drop (psize i) (sr_out r'); sr_eof := sr_eof r' |}).
    assert (drains r2) as Hr2.
    { specialize (psize_pos i). destruct Hdec as [->|Hlt].
      - eapply IHl; [|done|done|done]. simpl. rewrite length_drop.
        destruct (sr_out r); simpl in *; [done|lia].
      - eapply IHm; [exact Hlt|done|done|done]. }
    destruct (Hr2 (S i)) as [n Hn]. exists (S n).
    intros [|fuel] acc Hf; [lia|]. simpl. unfold Read. rewrite Hfill. fold r2.
    rewrite Hn by lia. rewrite <- Hp. unfold pending, r2.
    cbn [sr_eof sr_src sr_out sr_buf sr_tokens].
    destruct (if sr_eof r' then Ok [] else src_bytes (sr_src r')) as [fut|e]; [|done].
    rewrite <- (take_drop (psize i) (sr_out r')) at 3. by rewrite <- !app_assoc.
Qed.

End ReadAll.

(** Draining a fresh reader. *)
Lemma ReadAll_new src tokens psize :
  (forall i, (0 < psize i)%nat) ->
  exists n, forall fuel, (n <= fuel)%nat ->
    ReadAll fuel psize (newStreamReplacer src tokens) =
      Some (let? body := src_bytes src in Ok (substitute tokens body)).
Proof.
  intros Hpos. unfold newStreamReplacer. case_bool_decide as Hempty.
  - exists 0%nat. intros fuel _. simpl. destruct (src_bytes src); [|done].
    by rewrite substitute_empty.
  - destruct (drains_all psize Hpos {| sr_src := src; sr_tokens := tokens; sr_buf := [];
      sr_out := []; sr_eof := false |} ltac:(intros ?; done) 0%nat) as [n Hn].
    exists n. intros fuel Hf. simpl. rewrite Hn by done. unfold pending. simpl.
    destruct (src_bytes src); done.
Qed.

(** ** Properties *)

(** C20.  Chunking of the request body is invisible.  However the source splits
    its bytes into reads (including reads that return data together with
    [io.EOF], and reads that fail), and whatever positive buffer sizes the
    caller offers, [io.ReadAll(newStreamReplacer(src, tokens))] terminates and
    returns the left-to-right token substitution of the complete body, or the
    source's error. *)
Theorem replacer_chunking_invariant (src : list read_event) (tokens : gmap string string)
    (psize : nat -> nat) :
  (forall i, (0 < psize i)%nat) ->
  exists n, forall fuel, (n <= fuel)%nat ->
    ReadAll fuel psize (newStreamReplacer src tokens) =
      Some (let? body := src_bytes src in Ok (substitute tokens body)).
Proof. apply ReadAll_new. Qed.

#[local] Transparent tokenLen tokenPrefix.

Definition demo_token : string := "osb_sealed_0123456789abcdef0123456789abcdef".

(** A token cut in two by the read boundary is still replaced. *)
Lemma replacer_chunking_invariant_witness :
  exists n, forall fuel, (n <= fuel)%nat ->
    ReadAll fuel (fun _ => 7%nat)
      (newStreamReplacer [RData (raw "key=osb_seal"); RData (raw "ed_0123456789abcdef0123456789abcdef&");
                          REof (raw "x=1")] {[ demo_token := "s3cret" ]}) =
    Some (Ok (raw "key=s3cret&x=1")).
Proof.
  destruct (replacer_chunking_invariant
    [RData (raw "key=osb_seal"); RData (raw "ed_0123456789abcdef0123456789abcdef&"); REof (raw "x=1")]
    {[ demo_token := "s3cret" ]} (fun _ => 7%nat)) as [n Hn]; [intros; lia|].
  exists n. intros fuel Hf. rewrite Hn by done. vm_compute. reflexivity.
Defined.

(**  [processChunk] with [flush] is the reference substitution with nothing
    held back; without it, what is emitted followed by the substitution of the
    held-back remainder and any continuation equals the substitution of the
    whole, so holding bytes back loses and duplicates nothing. *)
Theorem processChunk_correct (tokens : gmap string string) (data fut : bytes) :
  processChunk data tokens true = (substitute tokens data, []) /\
  (let '(out, remainder) := processChunk data tokens false in
   substitute tokens (data ++ fut) = out ++ substitute tokens (remainder ++ fut)).
Proof.
  split; [apply processChunk_flush|].
  destruct (processChunk data tokens false) as [o r] eqn:Hp. by apply processChunk_partial.
Qed.

End Replacer.
