(* ===== verification/SecretsProxy.v ===== *)
(** * Secrets proxy: sessions, host policy and connection admission

    Models [src/internal/secretsproxy/proxy.go]: the per-sandbox session table
    ([RegisterSession], [UnregisterSession], [ReregisterSession],
    [UpdateSecretValue], [CreateSealedEnvs]), the host policy ([hostAllowed],
    [secretsForHost]), the private-address filter ([isPrivateIP],
    [checkPrivateIP], [dialUpstream]), the admission path of [handleConn] and
    the rewriting of a request body by [proxyHTTPRequests].

    TLS, certificate signing and sockets are the environment: their outcomes
    are arguments.  DNS ([LookupIP]) and the textual IP parser ([ParseIP]) are
    arguments too, used at arbitrary behaviour. *)

From S2P Require Import Prelude Replacer.
From Stdlib Require Import Ascii.

Module SecretsProxy.
Import Replacer.

(** ** String helpers of the Go standard library *)

(** [strings.HasPrefix(s, p)] *)
Definition HasPrefix (s p : string) : bool := starts_with (raw p) (raw s).

(** [strings.HasSuffix(s, t)] *)
Definition HasSuffix (s t : string) : bool :=
  (length (raw t) <=? length (raw s))%nat &&
  bool_decide (drop (length (raw s) - length (raw t)) (raw s) = raw t).

(** Position of the last occurrence of [c]. *)
Fixpoint last_index (c : ascii) (b : bytes) : option nat :=
  match b with
  | [] => None
  | x :: b' => match last_index c b' with
               | Some i => Some (S i)
               | None => if bool_decide (x = c) then Some 0%nat else None
               end
  end.

Definition has_byte (c : ascii) (b : bytes) : bool := existsb (fun x => bool_decide (x = c)) b.

(** [net.SplitHostPort]: [host:port] or [[host]:port]; [None] for its errors. *)
Definition SplitHostPort (hostport : string) : option (string * string) :=
  let b := raw hostport in
  match last_index ":" b with
  | None => None
  | Some i =>
      match b with
      | "["%char :: _ =>
          match bytes_Index b ["]"%char] with
          | None => None
          | Some fin =>
              if (fin + 1 =? i)%nat then
                if has_byte "[" (drop 1 b) || has_byte "]" (drop (fin + 1) b) then None
                else Some (str (slice b 1 fin), str (drop (i + 1) b))
              else None
          end
      | _ =>
          let host := take i b in
          if has_byte ":" host || has_byte "[" b || has_byte "]" b then None
          else Some (str host, str (drop (i + 1) b))
      end
  end.

(** ** Sessions *)

(** Times are nanoseconds since the epoch; [0] is Go's zero time. *)
Definition defaultSessionTTL : Z := 24 * 3600 * 1000000000.

Record Session := {
  SandboxID : string;
  Secrets : gmap string string;          (** sealed token -> real value *)
  Names : gmap string string;            (** env var name -> sealed token *)
  TokenHosts : gmap string (list string);
  Allowlist : list string;
  ExpiresAt : Z;
}.

(** [SecretsProxy.sessions], keyed by guest IP. *)
Abbreviation sessions := (gmap string Session).

(** [hostAllowed] *)
Fixpoint hostAllowed (host : string) (allowed : list string) : bool :=
  match allowed with
  | [] => false
  | pattern :: rest =>
      if bool_decide (pattern = "*") || bool_decide (pattern = host) then true
      else if HasPrefix pattern "*." && HasSuffix host (str (drop 1 (raw pattern))) then true
      else hostAllowed host rest
  end.

Definition hosts_of (s : Session) (token : string) : list string :=
  default [] (TokenHosts s !! token).

(** The condition under which [secretsForHost] keeps a token. *)
Definition token_allowed (s : Session) (host token : string) : bool :=
  match hosts_of s token with
  | [] => true
  | hosts => hostAllowed host hosts
  end.

(** [Session.secretsForHost] *)
Definition secretsForHost (s : Session) (host : string) : gmap string string :=
  if bool_decide (TokenHosts s = ∅) then Secrets s
  else filter (fun kv => token_allowed s host kv.1 = true) (Secrets s).

(** [RegisterSession] *)
Definition RegisterSession (now : Z) (p : sessions) (guestIP : string) (s : Session) : sessions :=
  let s := if ExpiresAt s =? 0
           then {| SandboxID := SandboxID s; Secrets := Secrets s; Names := Names s;
                   TokenHosts := TokenHosts s; Allowlist := Allowlist s;
                   ExpiresAt := now + defaultSessionTTL |}
           else s in
  <[guestIP := s]> p.

(** [UnregisterSession] *)
Definition UnregisterSession (p : sessions) (guestIP : string) : sessions := delete guestIP p.

(** [ReregisterSession] *)
Definition ReregisterSession (now : Z) (p : sessions) (sandboxID guestIP : string)
    (tokens : gmap string string) (allowlist : list string)
    (tokenHosts : gmap string (list string)) (names : gmap string string) : sessions :=
  <[guestIP := {| SandboxID := sandboxID; Secrets := tokens; Names := names;
                  TokenHosts := tokenHosts; Allowlist := allowlist;
                  ExpiresAt := now + defaultSessionTTL |}]> p.

(** [GetSessionTokens], [GetSessionAllowlist], [GetSessionTokenHosts],
    [GetSessionNames]: what hibernation and migration persist; [None] is the
    nil the Go getters return without a session. *)
Definition GetSessionTokens (p : sessions) (ip : string) := Secrets <$> p !! ip.
Definition GetSessionAllowlist (p : sessions) (ip : string) := Allowlist <$> p !! ip.
Definition GetSessionTokenHosts (p : sessions) (ip : string) := TokenHosts <$> p !! ip.
Definition GetSessionNames (p : sessions) (ip : string) := Names <$> p !! ip.

Definition set_secret (s : Session) (token value : string) : Session :=
  {| SandboxID := SandboxID s; Secrets := <[token := value]> (Secrets s); Names := Names s;
     TokenHosts := TokenHosts s; Allowlist := Allowlist s; ExpiresAt := ExpiresAt s |}.

(** [UpdateSecretValue]: the loop stops at the first session of the sandbox.
    [order] is the order in which Go's [range] visits the table. *)
Fixpoint update_loop (order : list string) (p : sessions) (sandboxID secretName newValue : string)
  : bool * sessions :=
  match order with
  | [] => (false, p)
  | ip :: order' =>
      match p !! ip with
      | None => update_loop order' p sandboxID secretName newValue
      | Some s =>
          if negb (bool_decide (SandboxID s = sandboxID))
          then update_loop order' p sandboxID secretName newValue
          else match Names s !! secretName with
               | None => (false, p)
               | Some token => (true, <[ip := set_secret s token newValue]> p)
               end
      end
  end.

Definition UpdateSecretValue := update_loop.

(** ** Sealing the environment of a new sandbox *)

(** The loop over [secretEnvs] of [CreateSealedEnvs].  [rnd i] is the hex
    string of the [i]-th [randomHex(16)] call; [order] the order in which
    [range] visits the map. *)
Fixpoint seal_loop (order : list (string * string)) (plaintextEnvs : gmap string string)
    (rnd : nat -> string) (i : nat) (sealed tokenMap : gmap string string)
  : gmap string string * gmap string string :=
  match order with
  | [] => (sealed, tokenMap)
  | (envVar, realValue) :: order' =>
      match plaintextEnvs !! envVar with
      | Some _ => seal_loop order' plaintextEnvs rnd i sealed tokenMap
      | None =>
          let token := (tokenPrefix +:+ rnd i)%string in
          seal_loop order' plaintextEnvs rnd (S i)
            (<[envVar := token]> sealed) (<[token := realValue]> tokenMap)
      end
  end.

(** Per-token host restrictions from per-env-var restrictions. *)
Definition token_hosts (sealed : gmap string string)
    (secretAllowedHosts : gmap string (list string)) : gmap string (list string) :=
  if bool_decide (secretAllowedHosts = ∅) then ∅
  else map_fold (fun envVar token acc =>
         match secretAllowedHosts !! envVar with
         | Some (h :: hs) => <[token := h :: hs]> acc
         | _ => acc
         end) ∅ sealed.

Definition AnycastEndpoint : string := "http://169.254.169.253:3128".
Definition caCertPath : string := "/usr/local/share/ca-certificates/opensandbox-proxy.crt".
Definition noProxy : string := "localhost,127.0.0.1,::1".

(** The proxy configuration variables written last into the VM environment. *)
Definition proxy_vars : gmap string string :=
  list_to_map
    [ ("HTTP_PROXY", AnycastEndpoint); ("HTTPS_PROXY", AnycastEndpoint);
      ("http_proxy", AnycastEndpoint); ("https_proxy", AnycastEndpoint);
      ("NO_PROXY", noProxy); ("no_proxy", noProxy);
      ("NODE_EXTRA_CA_CERTS", caCertPath); ("REQUESTS_CA_BUNDLE", caCertPath);
      ("SSL_CERT_FILE", caCertPath) ]%string.

(** [CreateSealedEnvs]: the environment injected into the VM ([None] is the nil
    map) and the updated session table. *)
Definition CreateSealedEnvs (now : Z) (rnd : nat -> string) (order : list (string * string))
    (p : sessions) (sandboxID guestIP : string) (plaintextEnvs secretEnvs : gmap string string)
    (allowlist : list string) (secretAllowedHosts : gmap string (list string))
  : option (gmap string string) * sessions :=
  if bool_decide (plaintextEnvs = ∅) && bool_decide (secretEnvs = ∅) && bool_decide (allowlist = [])
  then (None, p)
  else
    let '(sealed, tokenMap) := seal_loop order plaintextEnvs rnd 0 ∅ ∅ in
    let tokenHosts := token_hosts sealed secretAllowedHosts in
    let p' := if negb (bool_decide (tokenMap = ∅)) || negb (bool_decide (allowlist = []))
              then RegisterSession now p guestIP
                     {| SandboxID := sandboxID; Secrets := tokenMap; Names := sealed;
                        TokenHosts := tokenHosts; Allowlist := allowlist; ExpiresAt := 0 |}
              else p in
    (Some (proxy_vars ∪ (plaintextEnvs ∪ sealed)), p').

(** ** Private addresses *)

(** A [net.IP] after [To4]: an IPv4 address as a 32-bit value, or an IPv6
    address that is not IPv4-mapped as a 128-bit value. *)
Inductive ip := IP4 (a : Z) | IP6 (a : Z).

(** [net.IPNet.Contains] for a prefix of [len] bits. *)
Definition contains (n : ip * Z) (i : ip) : bool :=
  match n, i with
  | (IP4 base, len), IP4 a => Z.shiftr base (32 - len) =? Z.shiftr a (32 - len)
  | (IP6 base, len), IP6 a => Z.shiftr base (128 - len) =? Z.shiftr a (128 - len)
  | _, _ => false
  end.

Definition quad (a b c d : Z) : Z := Z.shiftl a 24 + Z.shiftl b 16 + Z.shiftl c 8 + d.

Definition privateIPNets : list (ip * Z) :=
  [ (IP4 (quad 10 0 0 0), 8); (IP4 (quad 172 16 0 0), 12); (IP4 (quad 192 168 0 0), 16);
    (IP4 (quad 127 0 0 0), 8); (IP4 (quad 169 254 0 0), 16);
    (IP6 1, 128); (IP6 (Z.shiftl 0xfc00 112), 7); (IP6 (Z.shiftl 0xfe80 112), 10) ].

Definition isPrivateIP (i : ip) : bool := existsb (fun n => contains n i) privateIPNets.

(** ** Admission of a connection *)

Inductive outcome :=
| Rejected (code : Z) (msg : string)   (** [writeHTTPError] *)
| Dropped (why : string)               (** connection closed without an answer *)
| ProxyHTTP (addr : ip) (port serverName : string) (secrets : gmap string string)
| ProxyRaw (addr : ip) (port serverName : string).

(** What [http.ReadRequest] delivers. *)
Record request := { Method : string; Host : string }.

Section Admission.
Context (ParseIP : string -> option ip)      (** [net.ParseIP] *)
        (LookupIP : string -> option (list ip)). (** [net.LookupIP] *)

(** [checkPrivateIP]: [true] when it returns an error. *)
Definition checkPrivateIP (host : string) : bool :=
  match ParseIP host with
  | Some i => isPrivateIP i
  | None => false
  end.

(** [dialUpstream]: resolves, refuses when any address is private, and
    connects to the first one. [LookupIP] never answers an empty list without
    an error. *)
Definition dialUpstream (host : string) : option ip :=
  match LookupIP host with
  | None => None
  | Some ips => if existsb isPrivateIP ips then None else head ips
  end.

(** [handleConn] up to the start of the proxy loops, in production
    configuration ([skipPrivateIPCheck = false], [dialFunc = nil]).  [signed]
    and [handshaken] are the outcomes of [SignHost] and of the client TLS
    handshake. Answers the outcome and the updated session table. *)
Definition handleConn (now : Z) (p : sessions) (clientIP : string) (req : option request)
    (signed handshaken : bool) : outcome * sessions :=
  match p !! clientIP with
  | None => (Rejected 407 "no session for this IP", p)
  | Some session =>
      if ExpiresAt session <? now then
        (Rejected 407 "session expired", UnregisterSession p clientIP)
      else match req with
      | None => (Dropped "bad request", p)
      | Some r =>
          if negb (bool_decide (Method r = "CONNECT")) then (Rejected 405 "only CONNECT supported", p)
          else
            let '(targetHost, targetPort0) :=
              match SplitHostPort (Host r) with
              | Some hp => hp
              | None => (Host r, "443"%string)
              end in
            let targetPort := if bool_decide (targetPort0 = "80") then "443"%string else targetPort0 in
            if negb (bool_decide (Allowlist session = [])) &&
               negb (hostAllowed targetHost (Allowlist session))
            then (Rejected 403 "host not in allowlist", p)
            else if checkPrivateIP targetHost then (Rejected 403 "private IP blocked", p)
            else
              let hostSecrets := secretsForHost session targetHost in
              if negb signed then (Dropped "sign cert", p)
              else if negb handshaken then (Dropped "client TLS handshake", p)
              else match dialUpstream targetHost with
                   | None => (Dropped "dial", p)
                   | Some addr =>
                       if bool_decide (hostSecrets = ∅)
                       then (ProxyRaw addr targetPort targetHost, p)
                       else (ProxyHTTP addr targetPort targetHost hostSecrets, p)
                   end
      end
  end.

End Admission.

(** The body rewriting of [proxyHTTPRequests]: the body forwarded upstream (as
    the reads it will deliver) and the recomputed [ContentLength]; [None] when
    the connection is dropped because the body could not be read.  A request
    without a body, or with [ContentLength] 0, is forwarded unchanged. *)
Definition rewriteBody (fuel : nat) (psize : nat -> nat) (secrets : gmap string string)
    (body : option (list read_event)) (contentLength : Z)
  : option (option (list read_event) * Z) :=
  match body with
  | Some src =>
      if contentLength =? 0 then Some (Some src, contentLength)
      else match ReadAll fuel psize (newStreamReplacer src secrets) with
           | Some (Ok replaced) => Some (Some [RData replaced], Z.of_nat (length replaced))
           | _ => None
           end
  | None => Some (None, contentLength)
  end.

(** ** Lemmas: host policy *)

Lemma HasSuffix_spec s t : HasSuffix s t = true <-> exists u, raw s = u ++ raw t.
Proof.
  unfold HasSuffix. split.
  - intros H. bool_to_prop. exists (take (length (raw s) - length (raw t)) (raw s)).
    rewrite <- H0 at 2. by rewrite take_drop.
  - intros [u Hu]. rewrite Hu, length_app. apply andb_true_iff. split.
    + apply Nat.leb_le. lia.
    + apply bool_decide_eq_true. replace (length u + _ - _)%nat with (length u) by lia.
      by rewrite drop_app_length.
Qed.

Lemma hostAllowed_spec host allowed :
  hostAllowed host allowed = true <->
  exists pattern, In pattern allowed /\
    (pattern = "*"%string \/ pattern = host \/
     exists domain u, pattern = ("*." +:+ domain)%string /\ raw host = u ++ "."%char :: raw domain).
Proof.
  induction allowed as [|q rest IH]; cbn [hostAllowed].
  { split; [done|]. intros (? & [] & _). }
  assert (HasPrefix q "*." && HasSuffix host (str (drop 1 (raw q))) = true <->
    exists domain u, q = ("*." +:+ domain)%string /\ raw host = u ++ "."%char :: raw domain) as Hwild.
  { rewrite andb_true_iff. unfold HasPrefix. rewrite starts_with_spec, HasSuffix_spec, raw_str.
    split.
    - intros [[r Hr] [u Hu]]. exists (str r), u. split.
      + rewrite <- (str_raw q), Hr. done.
      + rewrite Hr in Hu. simpl in Hu. by rewrite Hu, raw_str.
    - intros (domain & u & -> & Hu). split; [by exists (raw domain)|]. exists u. exact Hu. }
  destruct (bool_decide (q = "*") || bool_decide (q = host)) eqn:E1.
  { split; [intros _|done]. exists q. split; [by left|].
    apply orb_true_iff in E1 as [E|E]; bool_to_prop; auto. }
  destruct (HasPrefix q "*." && _) eqn:E2.
  { split; [intros _|done]. exists q. split; [by left|]. right; right. by apply Hwild. }
  apply orb_false_iff in E1 as [Ea Eb]; bool_to_prop. rewrite IH. split.
  - intros (q' & Hin & Hq'). exists q'. split; [by right|done].
  - intros (q' & [<-|Hin] & Hq').
    + destruct Hq' as [?|[?|Hd]]; try done. apply Hwild in Hd. congruence.
    + by exists q'.
Qed.

Lemma secretsForHost_spec s host token value :
  secretsForHost s host !! token = Some value <->
  Secrets s !! token = Some value /\ token_allowed s host token = true.
Proof.
  unfold secretsForHost. case_bool_decide as He.
  - split; [|by intros []]. intros H. split; [done|].
    unfold token_allowed, hosts_of. by rewrite He, lookup_empty.
  - by rewrite map_lookup_filter_Some.
Qed.

(** ** Lemmas: private addresses *)

(** RFC 1918, loopback and link-local IPv4 addresses, as ranges. *)
Definition private_v4 (a : Z) : Prop :=
  quad 10 0 0 0 <= a <= quad 10 255 255 255 \/
  quad 172 16 0 0 <= a <= quad 172 31 255 255 \/
  quad 192 168 0 0 <= a <= quad 192 168 255 255 \/
  quad 127 0 0 0 <= a <= quad 127 255 255 255 \/
  quad 169 254 0 0 <= a <= quad 169 254 255 255.

Lemma quotient_range q d a : 0 < d -> q = a / d <-> q * d <= a <= q * d + (d - 1).
Proof.
  intros Hd. pose proof (Z.div_mod a d ltac:(lia)). pose proof (Z.mod_pos_bound a d Hd).
  split; [intros ->; nia|]. intros Hr. apply (Z.div_unique a d q (a - q * d)); lia.
Qed.

Lemma contains_v4 base len a lo hi :
  0 <= len <= 32 -> Z.shiftr base (32 - len) * 2 ^ (32 - len) = lo ->
  lo + (2 ^ (32 - len) - 1) = hi ->
  contains (IP4 base, len) (IP4 a) = true <-> lo <= a <= hi.
Proof.
  intros Hlen <- <-. cbn [contains]. rewrite Z.eqb_eq, (Z.shiftr_div_pow2 a) by lia.
  apply quotient_range. apply Z.pow_pos_nonneg; lia.
Qed.

Lemma isPrivateIP_v4 a : isPrivateIP (IP4 a) = true <-> private_v4 a.
Proof.
  unfold isPrivateIP, privateIPNets, private_v4. cbn [existsb]. rewrite !orb_true_iff.
  rewrite (contains_v4 _ 8 a (quad 10 0 0 0) (quad 10 255 255 255));
    [|lia|vm_compute; reflexivity|vm_compute; reflexivity].
  rewrite (contains_v4 _ 12 a (quad 172 16 0 0) (quad 172 31 255 255));
    [|lia|vm_compute; reflexivity|vm_compute; reflexivity].
  rewrite (contains_v4 _ 16 a (quad 192 168 0 0) (quad 192 168 255 255));
    [|lia|vm_compute; reflexivity|vm_compute; reflexivity].
  rewrite (contains_v4 _ 8 a (quad 127 0 0 0) (quad 127 255 255 255));
    [|lia|vm_compute; reflexivity|vm_compute; reflexivity].
  rewrite (contains_v4 _ 16 a (quad 169 254 0 0) (quad 169 254 255 255));
    [|lia|vm_compute; reflexivity|vm_compute; reflexivity].
  cbn [contains]. intuition discriminate.
Qed.

(** ** Lemmas: sealing *)

Definition mk_token (rnd : nat -> string) (j : nat) : string := (tokenPrefix +:+ rnd j)%string.

Lemma mk_token_inj rnd j k : (forall a b, rnd a = rnd b -> a = b) -> mk_token rnd j = mk_token rnd k -> j = k.
Proof. intros Hinj H. apply Hinj. by apply (inj (String.append tokenPrefix)) in H. Qed.

Section Sealing.
Context (plaintextEnvs : gmap string string) (rnd : nat -> string)
        (rnd_inj : forall a b, rnd a = rnd b -> a = b).

(** Every sealed variable carries a generated token, different variables
    different ones, and the token map resolves it. *)
Record seal_inv (i : nat) (sealed tokenMap : gmap string string) : Prop := {
  seal_token : forall k t, sealed !! k = Some t ->
    plaintextEnvs !! k = None /\ exists j, (j < i)%nat /\ t = mk_token rnd j;
  seal_fresh : forall j, (i <= j)%nat -> tokenMap !! mk_token rnd j = None;
  seal_distinct : forall k1 k2 t, sealed !! k1 = Some t -> sealed !! k2 = Some t -> k1 = k2;
}.

Lemma seal_inv_step i sealed tokenMap k v :
  plaintextEnvs !! k = None -> seal_inv i sealed tokenMap ->
  seal_inv (S i) (<[k := mk_token rnd i]> sealed) (<[mk_token rnd i := v]> tokenMap).
Proof using rnd_inj.
  intros Hp [Ht Hf Hd]. split.
  - intros k' t. rewrite lookup_insert. case_decide as E.
    + intros [= <-]. subst k'. split; [done|]. exists i. split; [lia|done].
    + intros H. apply Ht in H as (? & j & ? & ?). split; [done|]. exists j. split; [lia|done].
  - intros j Hj. rewrite lookup_insert_ne; [apply Hf; lia|].
    intros H%mk_token_inj; [lia|done].
  - intros k1 k2 t. rewrite !lookup_insert.
    repeat case_decide; intros; simplify_eq; try done.
    + apply Ht in H2 as (_ & j & Hj & H2). apply mk_token_inj in H2; [lia|done].
    + apply Ht in H1 as (_ & j & Hj & H1). apply mk_token_inj in H1; [lia|done].
    + eauto.
Qed.

Lemma seal_loop_spec order i sealed tokenMap sealed' tokenMap' :
  seal_inv i sealed tokenMap ->
  NoDup order.*1 -> (forall k, In k order.*1 -> sealed !! k = None) ->
  seal_loop order plaintextEnvs rnd i sealed tokenMap = (sealed', tokenMap') ->
  (exists i', (i <= i')%nat /\ seal_inv i' sealed' tokenMap') /\
  (forall k t v, sealed !! k = Some t -> tokenMap !! t = Some v ->
     sealed' !! k = Some t /\ tokenMap' !! t = Some v) /\
  (forall k v, In (k, v) order -> plaintextEnvs !! k = None ->
     exists t, sealed' !! k = Some t /\ tokenMap' !! t = Some v).
Proof using rnd_inj.
  revert i sealed tokenMap; induction order as [|[k v] order IH];
    intros i sealed tokenMap Hinv Hnd Hfree; cbn [seal_loop].
  { intros [= <- <-]. split_and!; [by exists i|by intros|by intros ?? []]. }
  cbn in Hnd. apply NoDup_cons in Hnd as [Hk Hnd].
  destruct (plaintextEnvs !! k) as [x|] eqn:Hp.
  - intros H. apply IH in H as (H1 & H2 & H3); try done.
    + split_and!; try done. intros k' v' [[= -> ->]|Hin] Hp'; [congruence|]. eauto.
    + intros k' Hin. apply Hfree. by right.
  - intros H. change (tokenPrefix +:+ rnd i)%string with (mk_token rnd i) in H.
    apply IH in H as ((i' & Hi & Hinv') & H2 & H3).
    + split; [exists i'; split; [lia|done]|]. split.
      * intros k' t v' Hs Ht. apply H2.
        -- rewrite lookup_insert_ne; [done|]. intros <-.
           rewrite Hfree in Hs; [done|by left].
        -- rewrite lookup_insert_ne; [done|]. intros <-.
           rewrite (seal_fresh _ _ _ Hinv) in Ht; [done|lia].
      * intros k' v' [[= -> ->]|Hin] Hp'; [|eauto].
        exists (mk_token rnd i). apply H2; by rewrite lookup_insert_eq.
    + by apply seal_inv_step.
    + done.
    + intros k' Hin. rewrite lookup_insert_ne; [apply Hfree; by right|].
      intros ->. apply Hk. by apply list_elem_of_In.
Qed.

(** A token's host restriction is its variable's. *)
Lemma token_hosts_spec sealed tokenMap i secretAllowedHosts k t :
  seal_inv i sealed tokenMap -> sealed !! k = Some t ->
  token_hosts sealed secretAllowedHosts !! t =
    match secretAllowedHosts !! k with Some (h :: hs) => Some (h :: hs) | _ => None end.
Proof using.
  intros [_ _ Hd] Hk. unfold token_hosts. case_bool_decide as He.
  { by rewrite He, !lookup_empty. }
  set (f := fun (envVar token : string) (acc : gmap string (list string)) =>
    match secretAllowedHosts !! envVar with
    | Some (h :: hs) => <[token := h :: hs]> acc | _ => acc end).
  enough ((forall t, is_Some (map_fold f ∅ sealed !! t) -> exists k, sealed !! k = Some t) /\
    ((forall k1 k2 t, sealed !! k1 = Some t -> sealed !! k2 = Some t -> k1 = k2) ->
     forall k t, sealed !! k = Some t -> map_fold f ∅ sealed !! t =
      match secretAllowedHosts !! k with Some (h :: hs) => Some (h :: hs) | _ => None end))
    as [_ H] by (by apply H).
  clear Hd k t Hk.
  apply (map_fold_weak_ind (fun acc m =>
    (forall t, is_Some (acc !! t) -> exists k, m !! k = Some t) /\
    ((forall k1 k2 t, m !! k1 = Some t -> m !! k2 = Some t -> k1 = k2) ->
    forall k t, m !! k = Some t -> acc !! t =
      match secretAllowedHosts !! k with Some (h :: hs) => Some (h :: hs) | _ => None end)) f).
  { split; [intros t; rewrite lookup_empty; by intros [? ?]|]. intros _ k t. by rewrite lookup_empty. }
  intros j x m acc Hj [IHdom IH]. split.
  { intros t. unfold f.
    destruct (secretAllowedHosts !! j) as [[|h hs]|]; try (rewrite lookup_insert; case_decide as E);
      intros Hs; try (subst x; exists j; by rewrite lookup_insert_eq);
      apply IHdom in Hs as [k Hk]; exists k; rewrite lookup_insert_ne; congruence. }
  intros Hd k t Hk.
  assert (forall k', m !! k' = Some x -> False) as Hx.
  { intros k' Hk'. assert (j = k') as <-; [|congruence].
    apply (Hd j k' x); [by rewrite lookup_insert_eq|rewrite lookup_insert_ne; congruence]. }
  assert (forall k1 k2 t, m !! k1 = Some t -> m !! k2 = Some t -> k1 = k2) as Hd'.
  { intros k1 k2 t' H1 H2. apply (Hd k1 k2 t'); rewrite lookup_insert_ne; congruence. }
  rewrite lookup_insert in Hk. unfold f. case_decide as E.
  - injection Hk as ->. subst k.
    destruct (secretAllowedHosts !! j) as [[|h hs]|] eqn:Ej; [|by rewrite lookup_insert_eq|];
      (destruct (acc !! t) eqn:Ea; [exfalso|done]);
      destruct (IHdom t ltac:(by rewrite Ea)) as [k' Hk']; eauto.
  - rewrite <- (IH Hd' k t Hk).
    repeat case_match; try done. rewrite lookup_insert_ne; [done|]. intros ->. eauto.
Qed.

End Sealing.

Lemma seal_inv_empty plaintextEnvs rnd : seal_inv plaintextEnvs rnd 0 ∅ ∅.
Proof. split; intros *; by rewrite ?lookup_empty. Qed.

Lemma NoDup_order (secretEnvs : gmap string string) order :
  order ≡ₚ map_to_list secretEnvs -> NoDup order.*1.
Proof. intros ->. apply NoDup_fst_map_to_list. Qed.

(** ** Properties *)

(** C21.  Admission.  When [handleConn] starts proxying to an address, the
    client has an unexpired session; the host satisfies the session's egress
    allowlist; the address was returned by the DNS lookup of that host and is
    outside every private range (for IPv4: RFC 1918, loopback, link-local); the
    port is never 80; and each secret handed to the replacer belongs to the
    session and is permitted for that host.  The session table is unchanged. *)
Theorem handleConn_admission ParseIP LookupIP now p clientIP req signed handshaken
    addr port host secrets p' :
  handleConn ParseIP LookupIP now p clientIP req signed handshaken =
    (ProxyHTTP addr port host secrets, p') \/
  (handleConn ParseIP LookupIP now p clientIP req signed handshaken =
    (ProxyRaw addr port host, p') /\ secrets = ∅) ->
  exists s ips, p !! clientIP = Some s /\ now <= ExpiresAt s /\ p' = p /\
    (Allowlist s = [] \/ hostAllowed host (Allowlist s) = true) /\
    LookupIP host = Some ips /\ In addr ips /\ isPrivateIP addr = false /\
    (forall a, addr = IP4 a -> ~ private_v4 a) /\
    port <> "80"%string /\
    (forall token value, secrets !! token = Some value ->
       Secrets s !! token = Some value /\ token_allowed s host token = true).
Proof.
  unfold handleConn. destruct (p !! clientIP) as [s|]; [|by intros [?|[? _]]].
  destruct (ExpiresAt s <? now) eqn:Hexp; [by intros [?|[? _]]|].
  destruct req as [r|]; [|by intros [?|[? _]]].
  destruct (negb (bool_decide (Method r = "CONNECT"))); [by intros [?|[? _]]|].
  destruct (match SplitHostPort (Host r) with Some hp => hp | None => _ end) as [h port0].
  set (q := if bool_decide (port0 = "80") then "443"%string else port0).
  assert (q <> "80"%string) as Hq by (unfold q; case_bool_decide; [done|done]).
  destruct (negb (bool_decide (Allowlist s = [])) && _) eqn:Hallow; [by intros [?|[? _]]|].
  destruct (checkPrivateIP ParseIP h); [by intros [?|[? _]]|].
  destruct signed, handshaken; try by intros [?|[? _]]. simpl negb. cbv iota.
  unfold dialUpstream. destruct (LookupIP h) as [ips|] eqn:Hl; [|by intros [?|[? _]]].
  destruct (existsb isPrivateIP ips) eqn:Hpriv; [by intros [?|[? _]]|].
  destruct ips as [|i ips]; [by intros [?|[? _]]|]. cbn [head].
  assert (isPrivateIP i = false) as Hi by (simpl in Hpriv; by bool_to_prop).
  intros Hout.
  assert (addr = i /\ port = q /\ host = h /\ p' = p /\
    forall token value, secrets !! token = Some value -> secretsForHost s h !! token = Some value)
    as (-> & -> & -> & -> & Hsec).
  { destruct Hout as [Hout|[Hout ->]]; case_bool_decide; simplify_eq; split_and!; try done. }
  exists s, (i :: ips). bool_to_prop. split_and!; [done|done|done| |done|by left|done| |done|].
  - destruct (decide (Allowlist s = [])); [by left|right].
    rewrite bool_decide_false in Hallow by done. simpl in Hallow. by bool_to_prop.
  - intros a -> Hp%isPrivateIP_v4. congruence.
  - intros token value Ht%Hsec. by apply secretsForHost_spec.
Qed.

Definition demo_session : Session :=
  {| SandboxID := "sb-1"; Secrets := {[ demo_token := "s3cret"%string ]};
     Names := {[ "API_KEY"%string := demo_token ]};
     TokenHosts := {[ demo_token := ["api.openai.com"%string] ]};
     Allowlist := ["*.openai.com"%string]; ExpiresAt := 100 |}.

Definition demo_lookup (h : string) : option (list ip) :=
  if bool_decide (h = "api.openai.com") then Some [IP4 (quad 104 18 6 192)] else None.

Lemma handleConn_admission_witness :
  let r := handleConn (fun _ => None) demo_lookup 7 {[ "172.16.0.2"%string := demo_session ]} "172.16.0.2"
             (Some {| Method := "CONNECT"; Host := "api.openai.com:80" |}) true true in
  r.1 = ProxyHTTP (IP4 (quad 104 18 6 192)) "443" "api.openai.com" {[ demo_token := "s3cret"%string ]} /\
  isPrivateIP (IP4 (quad 104 18 6 192)) = false.
Proof.
  intros r.
  assert (r = (ProxyHTTP (IP4 (quad 104 18 6 192)) "443" "api.openai.com"
    {[ demo_token := "s3cret"%string ]}, {[ "172.16.0.2"%string := demo_session ]})) as Hr
    by (vm_compute; reflexivity).
  rewrite Hr. split; [reflexivity|].
  pose proof (handleConn_admission (fun _ => None) demo_lookup 7 {[ "172.16.0.2"%string := demo_session ]}
    "172.16.0.2" (Some {| Method := "CONNECT"; Host := "api.openai.com:80" |}) true true
    (IP4 (quad 104 18 6 192)) "443" "api.openai.com" {[ demo_token := "s3cret"%string ]}
    {[ "172.16.0.2"%string := demo_session ]} (or_introl Hr)) as (s & ips & H). tauto.
Defined.

(**  Sealing is resolvable and host-scoped.  Whatever order the map is
    visited in, and as long as generated hex strings do not repeat, every secret
    variable that the caller did not also pass in plain text (and that is not
    one of the proxy's own variables) reaches the VM as a sealed token; the
    session registered for the guest resolves that token to the real value and
    indexes it by name; and the token is substituted for exactly the hosts the
    variable is restricted to (all of them when it is unrestricted). *)
Theorem CreateSealedEnvs_resolves now rnd order p sandboxID guestIP plaintextEnvs secretEnvs
    allowlist secretAllowedHosts k v :
  (forall a b, rnd a = rnd b -> a = b) ->
  order ≡ₚ map_to_list secretEnvs ->
  secretEnvs !! k = Some v -> plaintextEnvs !! k = None -> proxy_vars !! k = None ->
  exists env p' s token,
    CreateSealedEnvs now rnd order p sandboxID guestIP plaintextEnvs secretEnvs allowlist
      secretAllowedHosts = (Some env, p') /\
    env !! k = Some token /\ HasPrefix token tokenPrefix = true /\
    p' !! guestIP = Some s /\ SandboxID s = sandboxID /\ Allowlist s = allowlist /\
    Secrets s !! token = Some v /\ Names s !! k = Some token /\
    (forall host, token_allowed s host token =
       match secretAllowedHosts !! k with
       | Some (h :: hs) => hostAllowed host (h :: hs)
       | _ => true
       end).
Proof.
  intros Hinj Hperm Hk Hplain Hproxy. unfold CreateSealedEnvs.
  rewrite (bool_decide_false (secretEnvs = ∅)) by (intros ->; by rewrite lookup_empty in Hk).
  rewrite andb_false_r. simpl.
  destruct (seal_loop order plaintextEnvs rnd 0 ∅ ∅) as [sealed tokenMap] eqn:Hloop.
  eapply seal_loop_spec in Hloop as ((i' & _ & Hinv) & _ & Hall);
    [|done|apply seal_inv_empty|by eapply NoDup_order|intros; apply lookup_empty].
  destruct (Hall k v) as (token & Hsealed & Htok); [|done|].
  { apply list_elem_of_In. rewrite Hperm. by apply elem_of_map_to_list. }
  rewrite (bool_decide_false (tokenMap = ∅)) by (intros ->; by rewrite lookup_empty in Htok).
  simpl. unfold RegisterSession. cbn [ExpiresAt Z.eqb].
  eexists _, _, _, token. split; [reflexivity|].
  rewrite lookup_insert_eq. split_and!; try reflexivity; try done.
  - rewrite lookup_union_r by done. by rewrite lookup_union_r.
  - destruct (seal_token _ _ _ _ _ Hinv k token Hsealed) as (_ & j & _ & ->).
    unfold HasPrefix. apply starts_with_spec. by exists (raw (rnd j)).
  - intros host. unfold token_allowed, hosts_of. cbn [TokenHosts].
    rewrite (token_hosts_spec _ _ _ _ _ _ _ _ Hinv Hsealed).
    by destruct (secretAllowedHosts !! k) as [[|h hs]|].
Qed.

Definition demo_rnd (n : nat) : string := str (repeat "a"%char n).

Lemma demo_rnd_inj a b : demo_rnd a = demo_rnd b -> a = b.
Proof.
  intros H%str_inj. apply (f_equal length) in H. by rewrite !repeat_length in H.
Qed.

Lemma CreateSealedEnvs_resolves_witness :
  exists env p' s token,
    CreateSealedEnvs 5 demo_rnd [("API_KEY", "s3cret")]%string ∅ "sb-1" "172.16.0.2" ∅
      {[ "API_KEY" := "s3cret" ]}%string [] ∅ = (Some env, p') /\
    env !! "API_KEY"%string = Some token /\ p' !! "172.16.0.2"%string = Some s /\
    Secrets s !! token = Some "s3cret"%string.
Proof.
  destruct (CreateSealedEnvs_resolves 5 demo_rnd [("API_KEY", "s3cret")]%string ∅ "sb-1" "172.16.0.2" ∅
      {[ "API_KEY" := "s3cret" ]}%string [] ∅ "API_KEY" "s3cret" demo_rnd_inj)
    as (env & p' & s & token & H1 & H2 & _ & H3 & _ & _ & H4 & _); try (vm_compute; reflexivity).
  by exists env, p', s, token.
Defined.

(** C30.  Real values never enter the VM: every value of the injected
    environment is a value the caller supplied in plain text under that very
    name, a generated token, or a constant of the proxy configuration. *)
Theorem CreateSealedEnvs_no_leak now rnd order p sandboxID guestIP plaintextEnvs secretEnvs
    allowlist secretAllowedHosts env p' k x :
  (forall a b, rnd a = rnd b -> a = b) ->
  order ≡ₚ map_to_list secretEnvs ->
  CreateSealedEnvs now rnd order p sandboxID guestIP plaintextEnvs secretEnvs allowlist
    secretAllowedHosts = (Some env, p') ->
  env !! k = Some x ->
  proxy_vars !! k = Some x \/ plaintextEnvs !! k = Some x \/
  exists j, x = (tokenPrefix +:+ rnd j)%string.
Proof.
  intros Hinj Hperm. unfold CreateSealedEnvs. case_match; [done|].
  destruct (seal_loop order plaintextEnvs rnd 0 ∅ ∅) as [sealed tokenMap] eqn:Hloop.
  eapply seal_loop_spec in Hloop as ((i' & _ & Hinv) & _ & _);
    [|done|apply seal_inv_empty|by eapply NoDup_order|intros; apply lookup_empty].
  intros [= <- _] [Hp|[_ [Hp|[_ Hs]]%lookup_union_Some_raw]]%lookup_union_Some_raw; auto.
  right; right. destruct (seal_token _ _ _ _ _ Hinv k x Hs) as (_ & j & _ & ->). by exists j.
Qed.

Lemma CreateSealedEnvs_no_leak_witness :
  exists env x,
    (CreateSealedEnvs 5 demo_rnd [("API_KEY", "s3cret")]%string ∅ "sb-1" "172.16.0.2" ∅
      {[ "API_KEY" := "s3cret" ]}%string [] ∅).1 = Some env /\
    env !! "API_KEY"%string = Some x /\ x <> "s3cret"%string.
Proof.
  set (r := CreateSealedEnvs _ _ _ _ _ _ _ _ _ _).
  assert (Hr : match r.1 with Some env => bool_decide (is_Some (env !! "API_KEY"%string)) | None => false end = true)
    by (vm_compute; reflexivity).
  destruct r.1 as [env|] eqn:E; [|discriminate]. apply bool_decide_eq_true in Hr as [x Hx].
  exists env, x. split; [reflexivity|]. split; [exact Hx|]. intros ->.
  destruct (CreateSealedEnvs_no_leak 5 demo_rnd [("API_KEY", "s3cret")]%string ∅ "sb-1" "172.16.0.2" ∅
      {[ "API_KEY" := "s3cret" ]}%string [] ∅ env r.2 "API_KEY" "s3cret" demo_rnd_inj)
    as [H|[H|[j H]]]; try (vm_compute in H; discriminate).
  - vm_compute. reflexivity.
  - rewrite <- E. apply surjective_pairing.
  - exact Hx.
Defined.

(**  Rotating a secret by name.  If exactly one session belongs to the
    sandbox, [UpdateSecretValue] finds it in any visiting order; when the name
    is known, afterwards its (unchanged) token resolves to the new value, every
    other token of that session and every other session is untouched; when it
    is unknown nothing changes and the call reports failure. *)
Theorem UpdateSecretValue_by_name order (p : sessions) ip s name newValue :
  order ≡ₚ (map_to_list p).*1 ->
  p !! ip = Some s ->
  (forall ip' s', p !! ip' = Some s' -> SandboxID s' = SandboxID s -> ip' = ip) ->
  match Names s !! name with
  | None => UpdateSecretValue order p (SandboxID s) name newValue = (false, p)
  | Some token =>
      exists p' s', UpdateSecretValue order p (SandboxID s) name newValue = (true, p') /\
        p' !! ip = Some s' /\ Names s' = Names s /\ TokenHosts s' = TokenHosts s /\
        Secrets s' !! token = Some newValue /\
        (forall t, t <> token -> Secrets s' !! t = Secrets s !! t) /\
        (forall ip', ip' <> ip -> p' !! ip' = p !! ip')
  end.
Proof.
  intros Hperm Hip Huniq.
  assert (In ip order) as Hin.
  { apply list_elem_of_In. rewrite Hperm. apply list_elem_of_fmap. exists (ip, s).
    split; [done|]. by apply elem_of_map_to_list. }
  assert (UpdateSecretValue order p (SandboxID s) name newValue =
    match Names s !! name with
    | None => (false, p)
    | Some token => (true, <[ip := set_secret s token newValue]> p)
    end) as Heq.
  { clear Hperm. induction order as [|ip' order IH]; [done|]. unfold UpdateSecretValue. cbn [update_loop].
    destruct (p !! ip') as [s'|] eqn:E.
    - case_bool_decide as Hid; simpl.
      + assert (ip' = ip) as -> by eauto. rewrite Hip in E. by injection E as ->.
      + apply IH. destruct Hin as [->|]; [|done]. congruence.
    - apply IH. destruct Hin as [->|]; [congruence|done]. }
  rewrite Heq. destruct (Names s !! name) as [token|]; [|done].
  eexists _, _. split; [reflexivity|]. rewrite lookup_insert_eq. split_and!; try reflexivity.
  - apply lookup_insert_eq.
  - intros t Ht. by apply lookup_insert_ne.
  - intros ip' Hne. by apply lookup_insert_ne.
Qed.

Lemma UpdateSecretValue_by_name_witness :
  exists p', UpdateSecretValue ["172.16.0.2"%string] {[ "172.16.0.2"%string := demo_session ]}
    "sb-1" "API_KEY" "rotated" = (true, p') /\
  exists s', p' !! "172.16.0.2"%string = Some s' /\ Secrets s' !! demo_token = Some "rotated"%string.
Proof.
  pose proof (UpdateSecretValue_by_name ["172.16.0.2"%string] {[ "172.16.0.2"%string := demo_session ]}
    "172.16.0.2" demo_session "API_KEY" "rotated") as H.
  destruct H as (p' & s' & H1 & H2 & _ & _ & H3 & _).
  - vm_compute. reflexivity.
  - apply lookup_singleton_eq.
  - intros ip' s' [<- _]%lookup_singleton_Some _. reflexivity.
  - exists p'. split; [exact H1|]. by exists s'.
Defined.

(**  A rewritten request is self-consistent: with a non-empty body, once
    [io.ReadAll] has the reads it needs the forwarded body is the substitution
    of the received one and [ContentLength] is its exact length; a body that
    cannot be read is never forwarded. *)
Theorem rewriteBody_content_length psize secrets src len :
  (forall i, (0 < psize i)%nat) -> len <> 0 ->
  exists n, forall fuel, (n <= fuel)%nat ->
    rewriteBody fuel psize secrets (Some src) len =
      match src_bytes src with
      | Ok body => Some (Some [RData (substitute secrets body)],
                         Z.of_nat (length (substitute secrets body)))
      | Err _ => None
      end.
Proof.
  intros Hpos Hlen. unfold rewriteBody. rewrite (proj2 (Z.eqb_neq len 0) Hlen).
  destruct (ReadAll_new src secrets psize Hpos) as [n Hn]. exists n. intros fuel Hf.
  rewrite (Hn fuel Hf). by destruct (src_bytes src).
Qed.

Lemma rewriteBody_content_length_witness :
  exists n, forall fuel, (n <= fuel)%nat ->
    rewriteBody fuel (fun _ => 512%nat) {[ demo_token := "s3cret"%string ]}
      (Some [RData (raw "k="); REof (raw demo_token)]) 45 = Some (Some [RData (raw "k=s3cret")], 8).
Proof.
  destruct (rewriteBody_content_length (fun _ => 512%nat) {[ demo_token := "s3cret"%string ]}
    [RData (raw "k="); REof (raw demo_token)] 45) as [n Hn]; [intros; lia|lia|].
  exists n. intros fuel Hf. rewrite Hn by done. vm_compute. reflexivity.
Defined.

End SecretsProxy.
