(* ===== verification/Sparse.v ===== *)
(** * Sparse disk archives

    Models [src/internal/sparse/sparse.go]: [Create] writes a header and the
    non-zero 4 KiB blocks of a disk image with their offsets, [Restore] rebuilds
    the image.  The zstd stream around the archive is a third-party library: a
    reader is the bytes it delivers and the error it ends with, and the round
    trip is stated for any compressor/decompressor pair that inverts. *)

From S2P Require Import Prelude.
From Stdlib Require Import Ascii.

Module Sparse.

Definition BlockSize : nat := 4096.
Definition Magic : string := "OSBSPAR1".

(** ** [encoding/binary] little-endian integers *)

Fixpoint put_le (n : nat) (z : Z) : bytes :=
  match n with
  | O => []
  | S n' => ascii_of_N (Z.to_N (z mod 256)) :: put_le n' (z / 256)
  end.

Fixpoint get_le (b : bytes) : Z :=
  match b with
  | [] => 0
  | c :: b' => Z.of_N (N_of_ascii c) + 256 * get_le b'
  end.

(** [binary.LittleEndian.PutUint64] and [Uint64]. *)
Definition PutUint64 (z : Z) : bytes := put_le 8 z.
Definition Uint64 (b : bytes) : Z := get_le b.

Definition zero_byte : ascii := "000"%char.

(** [isZero] *)
Fixpoint isZero (b : bytes) : bool :=
  match b with
  | [] => true
  | v :: b' => if bool_decide (v <> zero_byte) then false else isZero b'
  end.

(** ** [Create] *)

(** The scanning loop: [rest] is what the source has not delivered yet,
    [offset] the loop variable ([offset < fileSize] exactly while [rest] is
    non-empty, the size being the one [Stat] reported).  Answers the bytes written and the number of
    blocks.  The loop advances by [BlockSize] bytes, so [length rest]
    iterations are enough. *)
Fixpoint create_loop (fuel : nat) (rest : bytes) (offset : Z) : bytes * Z :=
  match fuel with
  | O => ([], 0)
  | S fuel' =>
      let buf := take BlockSize rest in
      match buf with
      | [] => ([], 0)
      | _ :: _ =>
          let '(out, blocks) := create_loop fuel' (drop BlockSize rest) (offset + Z.of_nat BlockSize) in
          if isZero buf then (out, blocks)
          else (PutUint64 offset ++ buf ++ out, blocks + 1)
      end
  end.

(** The uncompressed archive [Create] writes for the image [src], and the
    number of blocks it reports. *)
Definition Create (src : bytes) : bytes * Z :=
  let '(out, blocks) := create_loop (length src) src 0 in
  (raw Magic ++ PutUint64 (Z.of_nat (length src)) ++ out, blocks).

(** ** [Restore] *)

Inductive rerr := EOF | UnexpectedEOF | OtherErr.

(** The decompressing reader: what it still delivers, and the error after it. *)
Abbreviation stream := (bytes * rerr)%type.

(** [io.ReadFull(zr, buf)] with [len(buf) = n]: the bytes read, the error and
    the rest of the stream. *)
Definition ReadFull (n : nat) (s : stream) : bytes * option rerr * stream :=
  let '(b, e) := s in
  if (n <=? length b)%nat then (take n b, None, (drop n b, e))
  else
    let e' := match b, e with
              | _ :: _, EOF => UnexpectedEOF
              | _, _ => e
              end in
    (b, Some e', ([], e)).

(** [os.File.WriteAt]: overwrite at [off], extending with zeros if needed. *)
Definition WriteAt (file : bytes) (off : nat) (data : bytes) : bytes :=
  take off (file ++ replicate (off - length file) zero_byte) ++ data ++
  drop (off + length data) file.

Inductive restore_err :=
| ReadMagic | InvalidMagic | ReadSize | TruncateFailed | ReadOffset | ReadBlock (off : Z)
| WriteBlock (off : Z).

(** The block loop. Every iteration that continues consumes at least the 8
    offset bytes. *)
Fixpoint restore_loop (fuel : nat) (zr : stream) (file : bytes) : option (result restore_err bytes) :=
  match fuel with
  | O => None
  | S fuel' =>
      match ReadFull 8 zr with
      | (_, Some EOF, _) | (_, Some UnexpectedEOF, _) => Some (Ok file)
      | (_, Some OtherErr, _) => Some (Err ReadOffset)
      | (ob, None, zr1) =>
          let offset := Uint64 ob in
          let '(buf, err, zr2) := ReadFull BlockSize zr1 in
          match err with
          | Some EOF | Some OtherErr => Some (Err (ReadBlock offset))
          | None | Some UnexpectedEOF =>
              if 2 ^ 63 <=? offset then Some (Err (WriteBlock offset))
              else restore_loop fuel' zr2 (WriteAt file (Z.to_nat offset) buf)
          end
      end
  end.

Definition Restore (zr : stream) : option (result restore_err bytes) :=
  match ReadFull 8 zr with
  | (_, Some _, _) => Some (Err ReadMagic)
  | (header, None, zr1) =>
      if negb (bool_decide (str header = Magic)) then Some (Err InvalidMagic)
      else match ReadFull 8 zr1 with
      | (_, Some _, _) => Some (Err ReadSize)
      | (sizeBuf, None, zr2) =>
          let fileSize := Uint64 sizeBuf in
          if 2 ^ 63 <=? fileSize then Some (Err TruncateFailed)
          else restore_loop (S (length zr2.1)) zr2 (replicate (Z.to_nat fileSize) zero_byte)
      end
  end.

(** ** Lemmas: integers *)

Lemma length_put_le n z : length (put_le n z) = n.
Proof. revert z; induction n; intros; simpl; auto. Qed.

Lemma get_put_le n z : 0 <= z < 256 ^ Z.of_nat n -> get_le (put_le n z) = z.
Proof.
  revert z; induction n as [|n IH]; intros z Hz; simpl.
  - simpl in Hz. lia.
  - rewrite Nat2Z.inj_succ, Z.pow_succ_r in Hz by lia.
    pose proof (Z.mod_pos_bound z 256 ltac:(lia)).
    rewrite N_ascii_embedding by lia. rewrite Z2N.id by lia. rewrite IH.
    + pose proof (Z.div_mod z 256). lia.
    + split; [apply Z.div_pos; lia|]. apply Z.div_lt_upper_bound; lia.
Qed.

Lemma length_PutUint64 z : length (PutUint64 z) = 8%nat.
Proof. apply length_put_le. Qed.

Lemma Uint64_PutUint64 z : 0 <= z < 2 ^ 64 -> Uint64 (PutUint64 z) = z.
Proof. intros H. apply get_put_le. exact H. Qed.

#[export] Hint Rewrite length_PutUint64 : oc.

(** ** Lemmas: blocks *)

Lemma isZero_spec b : isZero b = true <-> b = replicate (length b) zero_byte.
Proof.
  induction b as [|v b IH]; simpl; [done|]. case_bool_decide as E.
  - split; [done|]. by intros [= ? _].
  - subst v. rewrite IH. split; [by intros <-|by intros [= ?]].
Qed.

Lemma ReadFull_app n b rest e :
  length b = n -> ReadFull n (b ++ rest, e) = (b, None, (rest, e)).
Proof.
  intros <-. unfold ReadFull. rewrite (proj2 (Nat.leb_le _ _)) by (rewrite length_app; lia).
  by rewrite take_app_length, drop_app_length.
Qed.

(** Writing a block over the zeroes of a freshly truncated file. *)
Lemma WriteAt_zeros done blk m :
  (length blk <= m)%nat ->
  WriteAt (done ++ replicate m zero_byte) (length done) blk =
    (done ++ blk) ++ replicate (m - length blk) zero_byte.
Proof.
  intros Hm. unfold WriteAt. rewrite length_app, length_replicate.
  replace (length done - _)%nat with 0%nat by lia. simpl. rewrite app_nil_r.
  rewrite take_app_length, <- app_assoc. f_equal. f_equal.
  rewrite drop_app_ge by lia. rewrite drop_replicate. f_equal. lia.
Qed.

#[local] Opaque BlockSize PutUint64 Uint64.

Lemma BlockSize_pos : (0 < BlockSize)%nat.
Proof. apply Nat.ltb_lt. vm_compute. reflexivity. Qed.

Lemma create_loop_nil fuel off : create_loop fuel [] off = ([], 0).
Proof. destruct fuel; cbn [create_loop]; by rewrite ?take_nil. Qed.

(** Restoring the blocks of [rest], whose first byte lies at the end of the
    part already rebuilt. *)
Lemma restore_create_loop fuel rfuel rest done :
  (length rest <= fuel)%nat ->
  (length (create_loop fuel rest (Z.of_nat (length done))).1 < rfuel)%nat ->
  Z.of_nat (length done + length rest) < 2 ^ 63 ->
  restore_loop rfuel ((create_loop fuel rest (Z.of_nat (length done))).1, EOF)
    (done ++ replicate (length rest) zero_byte) = Some (Ok (done ++ rest)).
Proof.
  revert rfuel rest done; induction fuel as [|fuel IH]; intros rfuel rest done Hf Hr Hsz.
  { destruct rest; simpl in *; [|lia]. destruct rfuel; [simpl in Hr; lia|].
    simpl. by rewrite app_nil_r. }
  pose proof BlockSize_pos as HB. cbn [create_loop] in *.
  assert (rest = take BlockSize rest ++ drop BlockSize rest) as Hsplit by by rewrite take_drop.
  destruct (take BlockSize rest) as [|x buf'] eqn:Hbuf.
  { assert (rest = []) as ->.
    { destruct rest as [|y r]; [done|]. by destruct BlockSize; [lia|]. }
    destruct rfuel; [simpl in Hr; lia|]. simpl. by rewrite app_nil_r. }
  set (buf := x :: buf') in *. set (tl := drop BlockSize rest) in *.
  assert (length buf <= BlockSize)%nat as Hbl by (rewrite <- Hbuf, length_take; lia).
  assert (length rest = length buf + length tl)%nat as Hlen
    by (rewrite Hsplit at 1; apply length_app).
  assert (tl = [] \/ length buf = BlockSize) as Hfull.
  { destruct (le_lt_dec (length rest) BlockSize) as [Hle|Hlt].
    - left. unfold tl. by apply drop_ge.
    - right. rewrite <- Hbuf, length_take. lia. }
  assert (length (done ++ buf) = length done + length buf)%nat as Hdb by apply length_app.
  (* the recursive archive, at the next offset *)
  destruct (create_loop fuel tl (Z.of_nat (length done) + Z.of_nat BlockSize)) as [out blocks] eqn:Hrec.
  assert (forall rf, (length out < rf)%nat ->
    restore_loop rf (out, EOF) ((done ++ buf) ++ replicate (length tl) zero_byte)
      = Some (Ok ((done ++ buf) ++ tl))) as IH'.
  { intros rf Hrf. destruct Hfull as [Htl|Hfull].
    - rewrite Htl in *. assert (out = []) as -> by (rewrite create_loop_nil in Hrec; congruence).
      destruct rf; [simpl in Hrf; lia|]. simpl. by rewrite !app_nil_r.
    - specialize (IH rf tl (done ++ buf)).
      replace (Z.of_nat (length (done ++ buf))) with (Z.of_nat (length done) + Z.of_nat BlockSize) in IH
        by (rewrite Hdb, Hfull; lia).
      rewrite Hrec in IH. apply IH; [|done|lia]. unfold buf in Hlen. simpl in Hlen. lia. }
  replace (done ++ rest) with ((done ++ buf) ++ tl) by (by rewrite <- app_assoc, <- Hsplit).
  destruct (isZero buf) eqn:Hz.
  - apply isZero_spec in Hz.
    replace (replicate (length rest) zero_byte) with (buf ++ replicate (length tl) zero_byte).
    + rewrite app_assoc. apply IH'. exact Hr.
    + rewrite Hz at 1. rewrite <- replicate_add. f_equal. lia.
  - cbn [fst] in *. destruct rfuel as [|rfuel]; [simpl in Hr; lia|].
    rewrite !length_app, length_PutUint64 in Hr. cbn [restore_loop].
    rewrite ReadFull_app by apply length_PutUint64.
    rewrite Uint64_PutUint64 by lia.
    assert (exists e, ReadFull BlockSize (buf ++ out, EOF) = (buf, e, (out, EOF)) /\
              e <> Some EOF /\ e <> Some OtherErr) as (e & -> & He1 & He2).
    { destruct Hfull as [Htl|Hfull]; [|exists None; by rewrite ReadFull_app].
      rewrite Htl in *. assert (out = []) as -> by (rewrite create_loop_nil in Hrec; congruence).
      rewrite app_nil_r. unfold ReadFull. case_match eqn:E; bool_to_prop.
      - exists None. split_and!; try done. rewrite take_ge, drop_ge by lia. done.
      - exists (Some UnexpectedEOF). split_and!; done. }
    rewrite (proj2 (Z.leb_gt (2 ^ 63) _)) by lia. rewrite Nat2Z.id.
    rewrite WriteAt_zeros by lia.
    replace (length rest - length buf)%nat with (length tl) by lia.
    destruct e as [[]|]; try done; apply IH'; lia.
Qed.

Lemma Restore_stream b e size :
  0 <= size < 2 ^ 63 ->
  Restore (raw Magic ++ PutUint64 size ++ b, e) =
    restore_loop (S (length b)) (b, e) (replicate (Z.to_nat size) zero_byte).
Proof.
  intros Hs. unfold Restore. rewrite ReadFull_app by reflexivity. rewrite str_raw.
  rewrite bool_decide_true by done. cbn [negb].
  rewrite ReadFull_app by apply length_PutUint64. rewrite Uint64_PutUint64 by lia.
  by rewrite (proj2 (Z.leb_gt (2 ^ 63) _)) by lia.
Qed.

Lemma Restore_Create_raw src :
  Z.of_nat (length src) < 2 ^ 63 -> Restore ((Create src).1, EOF) = Some (Ok src).
Proof.
  intros Hs. unfold Create. destruct (create_loop (length src) src 0) as [out blocks] eqn:Hc.
  cbn [fst]. rewrite Restore_stream by lia. rewrite Nat2Z.id.
  pose proof (restore_create_loop (length src) (S (length out)) src [] ltac:(lia)) as H.
  change (Z.of_nat (length (A := ascii) [])) with 0 in H. rewrite Hc in H.
  apply H; [simpl; lia|done].
Qed.

(** Number of non-zero blocks of an image. *)
Fixpoint nonzero_blocks (fuel : nat) (rest : bytes) : nat :=
  match fuel with
  | O => 0
  | S fuel' =>
      match take BlockSize rest with
      | [] => 0
      | _ :: _ => ((if isZero (take BlockSize rest) then 0 else 1)
                   + nonzero_blocks fuel' (drop BlockSize rest))%nat
      end
  end.

Lemma create_loop_size fuel rest off :
  (create_loop fuel rest off).2 = Z.of_nat (nonzero_blocks fuel rest) /\
  (length (create_loop fuel rest off).1 <= nonzero_blocks fuel rest * (8 + BlockSize))%nat.
Proof.
  revert rest off; induction fuel as [|fuel IH]; intros rest off; [split; simpl; lia|].
  cbn [create_loop nonzero_blocks].
  destruct (take BlockSize rest) as [|x buf] eqn:Hbuf; [split; simpl; lia|].
  specialize (IH (drop BlockSize rest) (off + Z.of_nat BlockSize)) as [IH1 IH2].
  destruct (create_loop fuel _ _) as [out blocks]. cbn [fst snd] in *.
  assert (length (x :: buf) <= BlockSize)%nat by (rewrite <- Hbuf, length_take; lia).
  destruct (isZero (x :: buf)); cbn [fst snd]; [lia|].
  rewrite !length_app, length_PutUint64. lia.
Qed.

(** ** Properties *)

Section Zstd.
Context (compress : bytes -> bytes) (decompress : bytes -> stream).

(** [Create(srcPath, dstPath)] and [Restore(archivePath, dstPath)] through the
    compressor. *)
Definition CreateFile (src : bytes) : bytes := compress (Create src).1.
Definition RestoreFile (archive : bytes) : option (result restore_err bytes) :=
  Restore (decompress archive).

End Zstd.

(**  Round trip.  For every disk image whose size fits a file offset, and
    any compressor whose decompressor delivers exactly the compressed bytes and
    then [io.EOF], restoring the archive terminates and rebuilds the image byte
    for byte, including a last block shorter than 4096 bytes and zero blocks
    that were never stored. *)
Theorem Restore_Create_roundtrip compress decompress (src : bytes) :
  (forall b, decompress (compress b) = (b, EOF)) ->
  Z.of_nat (length src) < 2 ^ 63 ->
  RestoreFile decompress (CreateFile compress src) = Some (Ok src).
Proof.
  intros Hz Hs. unfold RestoreFile, CreateFile. rewrite Hz. by apply Restore_Create_raw.
Qed.

Lemma Restore_Create_roundtrip_witness :
  RestoreFile (fun b => (b, EOF)) (CreateFile (fun b => b) (raw "boot")) = Some (Ok (raw "boot")).
Proof. apply Restore_Create_roundtrip; [reflexivity|vm_compute; reflexivity]. Defined.

(**  The archive is as large as the content, not the disk: [Create] reports
    the number of non-zero blocks, and the uncompressed archive is the 16-byte
    header plus at most 4104 bytes for each of them. *)
Theorem Create_proportional (src : bytes) :
  (Create src).2 = Z.of_nat (nonzero_blocks (length src) src) /\
  (length (Create src).1 <= 16 + nonzero_blocks (length src) src * 4104)%nat.
Proof.
  unfold Create. pose proof (create_loop_size (length src) src 0) as [H1 H2].
  destruct (create_loop (length src) src 0) as [out blocks]. cbn [fst snd] in *.
  split; [done|]. rewrite !length_app, length_PutUint64.
  change (length (raw Magic)) with 8%nat. 
  replace (8 + BlockSize)%nat with 4104%nat in H2 by (vm_compute; reflexivity). lia.
Qed.

(**  A cut archive is accepted.  If the decompressor reports
    [io.ErrUnexpectedEOF] after the header (the archive was truncated before
    its first complete block record), [Restore] returns success with an image
    of the right size whose content is all zeroes, whatever the original image
    was. *)
Theorem Restore_truncated_silent (src : bytes) (m : nat) :
  Z.of_nat (length src) < 2 ^ 63 -> (16 <= m < 24)%nat ->
  Restore (take m (Create src).1, UnexpectedEOF) =
    Some (Ok (replicate (length src) zero_byte)).
Proof.
  intros Hs Hm. unfold Create. destruct (create_loop (length src) src 0) as [out blocks]. cbn [fst].
  rewrite app_assoc, take_app_ge, <- app_assoc
    by (rewrite length_app, length_PutUint64; change (length (raw Magic)) with 8%nat; lia).
  rewrite Restore_stream, Nat2Z.id by lia.
  rewrite length_app, length_PutUint64. change (length (raw Magic)) with 8%nat.
  cbn [restore_loop]. unfold ReadFull.
  rewrite (proj2 (Nat.leb_gt _ _)) by (rewrite length_take; lia).
  by destruct (take (m - (8 + 8)) out).
Qed.

Lemma Restore_truncated_silent_witness :
  Restore (take 16 (Create (raw "boot")).1, UnexpectedEOF) =
    Some (Ok (replicate (length (raw "boot")) zero_byte)).
Proof. apply Restore_truncated_silent; [vm_compute; reflexivity|lia]. Defined.

End Sparse.
