(* ===== verification/Scrollback.v ===== *)
(** * Exec-session scrollback

    Models [src/internal/sandbox/scrollback.go]: a byte-bounded ring of tagged
    output chunks with live subscribers.  The refinement theorem says that the
    ring always holds the longest suffix of the session's output that fits. *)

From S2P Require Import Prelude.

Module Scrollback.

(** [OutputChunk] *)
Record OutputChunk := { Stream : Z; Data : bytes; Seq : Z }.

(** [ScrollbackBuffer].  [subs] maps each subscriber channel to the chunks
    waiting in it. *)
Record ScrollbackBuffer := {
  chunks : list OutputChunk;
  totalLen : Z;
  maxBytes : Z;
  nextSeq : Z;
  evicted : bool;
  subs : gmap nat (list OutputChunk);
}.

Definition chunk_len (c : OutputChunk) : Z := Z.of_nat (length (Data c)).

(** [NewScrollbackBuffer] *)
Definition NewScrollbackBuffer (max : Z) : ScrollbackBuffer :=
  {| chunks := []; totalLen := 0; maxBytes := if max <=? 0 then 1024 * 1024 else max;
     nextSeq := 0; evicted := false; subs := ∅ |}.

(** The eviction loop of [Write]. *)
Fixpoint evict (cs : list OutputChunk) (total max : Z) (ev : bool)
  : list OutputChunk * Z * bool :=
  match cs with
  | [] => (cs, total, ev)
  | c :: cs' => if max <? total then evict cs' (total - chunk_len c) max true else (cs, total, ev)
  end.

Definition sub_cap : nat := 256.

(** A non-blocking send on a subscriber channel. *)
Definition offer (chunk : OutputChunk) (q : list OutputChunk) : list OutputChunk :=
  if (length q <? sub_cap)%nat then q ++ [chunk] else q.

(** [Write] *)
Definition Write (sb : ScrollbackBuffer) (stream : Z) (data : bytes) : ScrollbackBuffer :=
  match data with
  | [] => sb
  | _ :: _ =>
      let chunk := {| Stream := stream; Data := data; Seq := nextSeq sb |} in
      let '(cs, total, ev) :=
        evict (chunks sb ++ [chunk]) (totalLen sb + chunk_len chunk) (maxBytes sb) (evicted sb) in
      {| chunks := cs; totalLen := total; maxBytes := maxBytes sb;
         nextSeq := (nextSeq sb + 1) mod 2 ^ 64; evicted := ev;
         subs := offer chunk <$> subs sb |}
  end.

(** [Snapshot], [Truncated], [Subscribe], [Unsubscribe]; [ch] is the channel
    [make] returns. *)
Definition Snapshot (sb : ScrollbackBuffer) : list OutputChunk := chunks sb.
Definition Truncated (sb : ScrollbackBuffer) : bool := evicted sb.

Definition Subscribe (sb : ScrollbackBuffer) (ch : nat) : ScrollbackBuffer :=
  {| chunks := chunks sb; totalLen := totalLen sb; maxBytes := maxBytes sb; nextSeq := nextSeq sb;
     evicted := evicted sb; subs := <[ch := []]> (subs sb) |}.

Definition Unsubscribe (sb : ScrollbackBuffer) (ch : nat) : ScrollbackBuffer :=
  {| chunks := chunks sb; totalLen := totalLen sb; maxBytes := maxBytes sb; nextSeq := nextSeq sb;
     evicted := evicted sb; subs := delete ch (subs sb) |}.

(** The operations of a session, in the order the mutex serialises them. *)
Inductive op :=
| OpWrite (stream : Z) (data : bytes)
| OpSubscribe (ch : nat)
| OpUnsubscribe (ch : nat).

Definition step (sb : ScrollbackBuffer) (o : op) : ScrollbackBuffer :=
  match o with
  | OpWrite st d => Write sb st d
  | OpSubscribe ch => Subscribe sb ch
  | OpUnsubscribe ch => Unsubscribe sb ch
  end.

Definition run (sb : ScrollbackBuffer) (ops : list op) : ScrollbackBuffer := fold_left step ops sb.

(** ** Abstract view *)

(** Everything a session has printed, numbered from [seq]. *)
Fixpoint history (seq : Z) (ops : list op) : list OutputChunk :=
  match ops with
  | [] => []
  | OpWrite st (b :: d) :: ops' =>
      {| Stream := st; Data := b :: d; Seq := seq |} :: history ((seq + 1) mod 2 ^ 64) ops'
  | _ :: ops' => history seq ops'
  end.

Definition total (cs : list OutputChunk) : Z := foldr (fun c n => chunk_len c + n) 0 cs.

(** The longest suffix of at most [max] bytes. *)
Fixpoint fitting (max : Z) (cs : list OutputChunk) : list OutputChunk :=
  match cs with
  | [] => []
  | _ :: cs' => if total cs <=? max then cs else fitting max cs'
  end.

(** ** Lemmas *)

Lemma chunk_len_nonneg c : 0 <= chunk_len c.
Proof. unfold chunk_len. lia. Qed.

Lemma total_app a b : total (a ++ b) = total a + total b.
Proof. induction a as [|c a IH]; simpl; [done|]. rewrite IH. lia. Qed.

Lemma total_nonneg a : 0 <= total a.
Proof. induction a as [|c a IH]; simpl; [lia|]. pose proof (chunk_len_nonneg c). lia. Qed.

#[local] Hint Resolve chunk_len_nonneg total_nonneg : oc.

Lemma fitting_suffix max cs : exists dropped, cs = dropped ++ fitting max cs.
Proof.
  induction cs as [|c cs [d IH]]; [by exists []|]. cbn [fitting].
  case_match; [by exists []|]. exists (c :: d). by rewrite IH at 1.
Qed.

Lemma fitting_total max cs : 0 <= max -> total (fitting max cs) <= max.
Proof.
  intros Hm. induction cs as [|c cs IH]; [done|]. cbn [fitting]. by case_match eqn:E; bool_to_prop.
Qed.

Lemma fitting_id max cs : total cs <= max -> fitting max cs = cs.
Proof. destruct cs; [done|]. cbn [fitting]. intros H. by rewrite (proj2 (Z.leb_le _ _)). Qed.

(** Dropping early does not change what finally fits. *)
Lemma fitting_app max a b : 0 <= max -> fitting max (fitting max a ++ b) = fitting max (a ++ b).
Proof.
  intros Hm. induction a as [|c a IH]; [done|].
  assert (total (c :: a) <= max \/ max < total (c :: a)) as [H|H] by lia.
  - by rewrite (fitting_id max (c :: a)).
  - cbn [fitting app]. rewrite (proj2 (Z.leb_gt (total (c :: a)) max)) by done. rewrite IH.
    rewrite (proj2 (Z.leb_gt (total (c :: a ++ b)) max)); [done|].
    change (c :: a ++ b) with ((c :: a) ++ b). rewrite total_app.
    pose proof (total_nonneg b). lia.
Qed.

(** The eviction loop computes the fitting suffix and its size. *)
Lemma evict_spec cs max ev :
  0 <= max ->
  evict cs (total cs) max ev =
    (fitting max cs, total (fitting max cs), ev || (max <? total cs)).
Proof.
  intros Hm. revert ev; induction cs as [|c cs IH]; intros ev; cbn [evict fitting].
  - simpl. rewrite (proj2 (Z.ltb_ge max 0)) by done. by rewrite orb_false_r.
  - destruct (max <? total (c :: cs)) eqn:E; bool_to_prop.
    + rewrite (proj2 (Z.leb_gt (total (c :: cs)) max)) by done.
      replace (total (c :: cs) - chunk_len c) with (total cs) by (simpl; lia).
      rewrite IH. f_equal. simpl. by rewrite orb_true_r.
    + rewrite (proj2 (Z.leb_le (total (c :: cs)) max)) by done. by rewrite orb_false_r.
Qed.

(** Refinement relation between the ring and the full output [h]. *)
Definition represents (sb : ScrollbackBuffer) (h : list OutputChunk) (seq : Z) : Prop :=
  0 < maxBytes sb /\ chunks sb = fitting (maxBytes sb) h /\ totalLen sb = total (chunks sb) /\
  evicted sb = (maxBytes sb <? total h) /\ nextSeq sb = seq.

Lemma run_represents ops : forall sb h seq,
  represents sb h seq ->
  exists seq', represents (run sb ops) (h ++ history seq ops) seq' /\ maxBytes (run sb ops) = maxBytes sb.
Proof.
  induction ops as [|o ops IH]; intros sb h seq Hr.
  { exists seq. simpl. by rewrite app_nil_r. }
  destruct o as [st [|b d]|ch|ch];
    [exact (IH sb h seq Hr)| |exact (IH (Subscribe sb ch) h seq Hr)|exact (IH (Unsubscribe sb ch) h seq Hr)].
  cbn [run fold_left history].
  destruct Hr as (Hm & Hc & Ht & He & Hs).
  set (chunk := {| Stream := st; Data := b :: d; Seq := seq |}).
  assert (represents (Write sb st (b :: d)) (h ++ [chunk]) ((seq + 1) mod 2 ^ 64) /\
          maxBytes (Write sb st (b :: d)) = maxBytes sb) as [Hw Hmax].
  { cbn [Write]. rewrite Hs. fold chunk.
    replace (totalLen sb + chunk_len chunk) with (total (chunks sb ++ [chunk]))
      by (rewrite total_app; simpl; lia).
    rewrite evict_spec by lia. unfold represents. cbn. rewrite Hc, fitting_app by lia.
    split_and!; try done. rewrite He. rewrite !total_app.
    destruct (maxBytes sb <? total h) eqn:E; bool_to_prop; simpl.
    - symmetry. apply Z.ltb_lt. pose proof (chunk_len_nonneg chunk). lia.
    - by rewrite fitting_id by lia. }
  destruct (IH _ _ _ Hw) as (seq' & Hr' & Hm'). exists seq'.
  rewrite <- app_assoc in Hr'. split; [exact Hr'|]. rewrite <- Hmax. exact Hm'.
Qed.

(** ** Properties *)

(**  The ring is the longest fitting suffix.  After any sequence of
    operations on a fresh buffer, [Snapshot] is the longest suffix of everything
    written (empty writes excluded, chunks numbered consecutively) that fits
    the byte limit; [totalLen] is its size and never exceeds the limit; and
    [Truncated] reports exactly whether something was dropped. *)
Theorem scrollback_refines (max : Z) (ops : list op) :
  let sb := run (NewScrollbackBuffer max) ops in
  let out := history 0 ops in
  Snapshot sb = fitting (maxBytes sb) out /\
  totalLen sb = total (Snapshot sb) /\ totalLen sb <= maxBytes sb /\
  maxBytes sb = (if max <=? 0 then 1048576 else max) /\
  (Truncated sb = true <-> Snapshot sb <> out).
Proof.
  intros sb out.
  destruct (run_represents ops (NewScrollbackBuffer max) [] 0) as (seq' & (Hm & Hc & Ht & He & _) & Hmax).
  { unfold represents, NewScrollbackBuffer. cbn. case_match eqn:E; bool_to_prop; split_and!; try lia; try done. }
  fold sb in Hm, Hc, Ht, He, Hmax. cbn [app] in *. fold out in Hc, He.
  unfold Snapshot, Truncated. split_and!; try done.
  - rewrite Ht, Hc. apply fitting_total. lia.
  - rewrite He, Hc. destruct (maxBytes sb <? total out) eqn:E; bool_to_prop.
    + split; [intros _ Heq|done]. pose proof (fitting_total (maxBytes sb) out ltac:(lia)).
      rewrite Heq in *. lia.
    + rewrite fitting_id by lia. split; [done|by intros []].
Qed.

End Scrollback.
