(* ===== verification/Subnet.v ===== *)
(** * Per-VM subnets

    Models the [/30] allocator of [src/internal/qemu/network.go]:
    [SubnetAllocator.Allocate], [AllocateSpecific], [Release] and the addresses
    they hand out.  Blocks are [uint32] values; [used] holds the keys whose
    value is true. *)

From S2P Require Import Prelude.
From Stdlib Require Import Ascii.

Module Subnet.

Record NetworkConfig := {
  TAPName : string;
  HostIP : string;
  GuestIP : string;
  Mask : string;
  CIDR : Z;
}.

Record SubnetAllocator := { next : Z; used : gset Z }.

Definition NewSubnetAllocator : SubnetAllocator := {| next := 0; used := ∅ |}.

(** [fmt.Sprintf("172.16.%d.%d", b2, b3+k)] with [byte] arithmetic. *)
Definition addr (block k : Z) : string :=
  let base := (block * 4) mod 2 ^ 32 in
  let b2 := Z.shiftr base 8 mod 256 in
  let b3 := Z.land base 255 mod 256 in
  str (raw "172.16." ++ itoa (Z.to_N b2) ++ "."%char :: itoa (Z.to_N ((b3 + k) mod 256))).

(** [fmt.Sprintf("qm-tap%07d", block)] *)
Definition tapName (block : Z) : string :=
  let ds := itoa (Z.to_N block) in
  str (raw "qm-tap" ++ replicate (7 - length ds) "0"%char ++ ds).

(** [fmt.Sscanf(tapName, "qm-tap%d", &block)]: literal prefix, optional blanks,
    a non-empty run of digits whose value fits [uint32]; the rest of the input
    is ignored. *)
Fixpoint span_digits (b : bytes) : bytes :=
  match b with
  | c :: b' => if is_digit c then c :: span_digits b' else []
  | [] => []
  end.

Fixpoint skip_blanks (b : bytes) : bytes :=
  match b with
  | c :: b' => if bool_decide (c = " "%char) then skip_blanks b' else b
  | [] => []
  end.

Definition scan_tap (name : string) : option Z :=
  let b := raw name in
  if bool_decide (take 6 b = raw "qm-tap") then
    let ds := span_digits (skip_blanks (drop 6 b)) in
    match ds with
    | [] => None
    | _ :: _ => let n := Z.of_N (digits_val ds) in if n <? 2 ^ 32 then Some n else None
    end
  else None.

(** The search loop of [Allocate]: [Some (Some b)] a free block, [Some None]
    the pool is exhausted, [None] out of fuel. *)
Fixpoint alloc_loop (fuel : nat) (u : gset Z) (start block : Z) : option (option Z) :=
  match fuel with
  | O => None
  | S fuel' =>
      if bool_decide (block ∈ u) then
        let block1 := (block + 1) mod 2 ^ 32 in
        let block2 := if 16383 <? block1 then 0 else block1 in
        if block2 =? start then Some None else alloc_loop fuel' u start block2
      else Some (Some block)
  end.

Definition config (name : string) (block : Z) : NetworkConfig :=
  {| TAPName := name; HostIP := addr block 1; GuestIP := addr block 2;
     Mask := "255.255.255.252"; CIDR := 30 |}.

(** [Allocate].  [16384] iterations visit every block of the pool. *)
Definition pool_fuel : nat := Z.to_nat 16384.

Definition Allocate (a : SubnetAllocator) : option (result string NetworkConfig * SubnetAllocator) :=
  match alloc_loop pool_fuel (used a) (next a) (next a) with
  | None => None
  | Some None => Some (Err "subnet pool exhausted"%string, a)
  | Some (Some block) =>
      let n := (block + 1) mod 2 ^ 32 in
      Some (Ok (config (tapName block) block),
            {| next := if 16383 <? n then 0 else n; used := {[ block ]} ∪ used a |})
  end.

(** [AllocateSpecific] *)
Definition AllocateSpecific (a : SubnetAllocator) (name : string)
  : result string NetworkConfig * SubnetAllocator :=
  match scan_tap name with
  | None => (Err "parse tap name"%string, a)
  | Some block =>
      if bool_decide (block ∈ used a) then (Err "already in use"%string, a)
      else (Ok (config name block), {| next := next a; used := {[ block ]} ∪ used a |})
  end.

(** [Release] *)
Definition Release (a : SubnetAllocator) (name : string) : SubnetAllocator :=
  match scan_tap name with
  | None => a
  | Some block => {| next := next a; used := used a ∖ {[ block ]} |}
  end.

Lemma pool_fuel_eq : Z.of_nat pool_fuel = 16384.
Proof. unfold pool_fuel. by rewrite Z2Nat.id by lia. Qed.

#[local] Opaque pool_fuel.

(** ** Lemmas: names and addresses *)

Lemma span_digits_all ds rest :
  Forall (fun c => is_digit c = true) ds ->
  match rest with c :: _ => is_digit c = false | [] => True end ->
  span_digits (ds ++ rest) = ds.
Proof.
  intros Hd Hr. induction Hd as [|c ds Hc Hd IH]; simpl.
  - destruct rest as [|c r]; [done|]. simpl. by rewrite Hr.
  - by rewrite Hc, IH.
Qed.

Lemma skip_blanks_digits ds : Forall (fun c => is_digit c = true) ds -> skip_blanks ds = ds.
Proof. intros [|c ds' Hc _]; [done|]. simpl. case_bool_decide; [|done]. subst. done. Qed.

Lemma digits_val_zeros k ds : digits_val (replicate k "0"%char ++ ds) = digits_val ds.
Proof. unfold digits_val. induction k as [|k IH]; simpl; [done|]. exact IH. Qed.

(** The name of a block scans back to the block. *)
Lemma scan_tapName block : 0 <= block < 2 ^ 32 -> scan_tap (tapName block) = Some block.
Proof.
  intros Hb. unfold scan_tap, tapName. rewrite raw_str.
  destruct (itoa_spec (Z.to_N block)) as (Hne & Hall & Hval).
  set (ds := itoa (Z.to_N block)) in *. set (z := replicate (7 - length ds) "0"%char).
  change (take 6 (raw "qm-tap" ++ z ++ ds)) with (raw "qm-tap"). rewrite bool_decide_true by done.
  change (drop 6 (raw "qm-tap" ++ z ++ ds)) with (z ++ ds).
  assert (Forall (fun c => is_digit c = true) (z ++ ds)) as Hzd.
  { apply Forall_app. split; [|done]. by apply Forall_replicate. }
  rewrite skip_blanks_digits by done.
  rewrite <- (app_nil_r (z ++ ds)), span_digits_all by done.
  destruct (z ++ ds) as [|c r] eqn:E; [destruct z; naive_solver|]. rewrite <- E.
  unfold z. rewrite digits_val_zeros, Hval, Z2N.id by lia. by rewrite (proj2 (Z.ltb_lt _ _)) by lia.
Qed.

(** The octets of a pool block. *)
Lemma addr_octets block k :
  0 <= block <= 16383 -> 0 <= k < 4 ->
  addr block k = str (raw "172.16." ++ itoa (Z.to_N (block / 64)) ++ "."%char ::
                        itoa (Z.to_N (block mod 64 * 4 + k))).
Proof.
  intros Hb Hk. unfold addr. rewrite (Z.mod_small (block * 4)) by lia.
  rewrite Z.shiftr_div_pow2 by lia. change (2 ^ 8) with 256.
  change 255 with (Z.ones 8). rewrite Z.land_ones by lia. change (2 ^ 8) with 256.
  replace (block * 4 / 256) with (block / 64) by (rewrite Z.div_mul_cancel_r with (b := 64) (c := 4); lia).
  replace (block * 4 mod 256) with (block mod 64 * 4)
    by (change 256 with (64 * 4); rewrite Z.mul_mod_distr_r; lia).
  pose proof (Z.mod_pos_bound block 64 ltac:(lia)).
  assert (0 <= block / 64 < 256) by (split; [apply Z.div_pos; lia|apply Z.div_lt_upper_bound; lia]).
  rewrite (Z.mod_small (block / 64)), (Z.mod_small (block mod 64 * 4)), (Z.mod_small (_ + k)) by lia. done.
Qed.

Lemma addr_inj b1 k1 b2 k2 :
  0 <= b1 <= 16383 -> 0 <= k1 < 4 -> 0 <= b2 <= 16383 -> 0 <= k2 < 4 ->
  addr b1 k1 = addr b2 k2 -> b1 = b2 /\ k1 = k2.
Proof.
  intros Hb1 Hk1 Hb2 Hk2. rewrite !addr_octets by done. intros H%str_inj.
  apply (app_inv_head (raw "172.16.")) in H.
  apply (app_sep_inj (fun c => is_digit c = true)) in H as [H1 H2];
    [|apply digit_not_dot|apply itoa_spec|apply itoa_spec].
  apply itoa_inj in H1, H2.
  pose proof (Z.mod_pos_bound b1 64 ltac:(lia)). pose proof (Z.mod_pos_bound b2 64 ltac:(lia)).
  pose proof (Z.div_mod b1 64 ltac:(lia)). pose proof (Z.div_mod b2 64 ltac:(lia)).
  pose proof (Z.div_pos b1 64 ltac:(lia) ltac:(lia)). pose proof (Z.div_pos b2 64 ltac:(lia) ltac:(lia)).
  apply Z2N.inj in H1; [|lia|lia]. apply Z2N.inj in H2; [|lia|lia]. lia.
Qed.

(** ** Lemmas: the search loop *)

(** The [i]-th block visited after [start]. *)
Definition visit (start i : Z) : Z := (start + i) mod 16384.

Lemma visit_next start i :
  0 <= start <= 16383 -> 0 <= i ->
  (if 16383 <? (visit start i + 1) mod 2 ^ 32 then 0 else (visit start i + 1) mod 2 ^ 32)
  = visit start (i + 1).
Proof.
  intros Hs Hi. unfold visit. pose proof (Z.mod_pos_bound (start + i) 16384 ltac:(lia)) as Hm.
  rewrite (Z.mod_small _ (2 ^ 32)) by lia.
  pose proof (Z.div_mod (start + i) 16384 ltac:(lia)).
  case_match eqn:E; bool_to_prop.
  - apply (Z.mod_unique _ _ ((start + i) / 16384 + 1)); lia.
  - apply (Z.mod_unique _ _ ((start + i) / 16384)); lia.
Qed.

Lemma visit_start start i :
  0 <= start <= 16383 -> 0 < i <= 16384 -> visit start i = start -> i = 16384.
Proof.
  intros Hs Hi. unfold visit. intros H. pose proof (Z.div_mod (start + i) 16384 ltac:(lia)). lia.
Qed.

(** From the [i]-th block on, all earlier ones being in use, the loop finds the
    first free block or has seen the whole pool. *)
Lemma alloc_loop_spec fuel u start i :
  0 <= start <= 16383 -> 0 <= i < 16384 -> 16384 - i <= Z.of_nat fuel ->
  (forall j, 0 <= j < i -> visit start j ∈ u) ->
  (exists b, alloc_loop fuel u start (visit start i) = Some (Some b) /\ b ∉ u /\ 0 <= b <= 16383) \/
  (alloc_loop fuel u start (visit start i) = Some None /\ forall j, 0 <= j < 16384 -> visit start j ∈ u).
Proof.
  revert i; induction fuel as [|fuel IH]; intros i Hs Hi Hf Hseen; [lia|]. cbn [alloc_loop].
  case_bool_decide as Hu.
  - assert (forall j, 0 <= j < i + 1 -> visit start j ∈ u) as Hseen'.
    { intros j Hj. destruct (decide (j = i)) as [->|]; [done|]. apply Hseen. lia. }
    rewrite (visit_next start i) by lia. case_match eqn:E; bool_to_prop.
    + apply visit_start in E; [|done|lia]. right. split; [done|]. intros j Hj. apply Hseen'. lia.
    + apply IH; [done| |lia|done]. split; [lia|].
      destruct (decide (i + 1 = 16384)) as [Heq|]; [|lia]. exfalso. apply E.
      unfold visit. rewrite Heq, Z.add_mod, Z.mod_same, Z.add_0_r, Z.mod_mod, Z.mod_small by lia. done.
  - left. exists (visit start i). split_and!; try done.
    + unfold visit. pose proof (Z.mod_pos_bound (start + i) 16384 ltac:(lia)). lia.
    + unfold visit. pose proof (Z.mod_pos_bound (start + i) 16384 ltac:(lia)). lia.
Qed.

Lemma visit_onto start b : 0 <= start <= 16383 -> 0 <= b <= 16383 ->
  exists j, 0 <= j < 16384 /\ visit start j = b.
Proof.
  intros Hs Hb. unfold visit. exists ((b - start) mod 16384). split; [apply Z.mod_pos_bound; lia|].
  rewrite Z.add_mod_idemp_r by lia. replace (start + (b - start)) with b by lia. by apply Z.mod_small; lia.
Qed.

Lemma alloc_loop_total u start :
  0 <= start <= 16383 ->
  (exists b, alloc_loop pool_fuel u start start = Some (Some b) /\ b ∉ u /\ 0 <= b <= 16383) \/
  (alloc_loop pool_fuel u start start = Some None /\ forall b, 0 <= b <= 16383 -> b ∈ u).
Proof.
  intros Hs.
  assert (visit start 0 = start) as H0 by (unfold visit; rewrite Z.add_0_r; apply Z.mod_small; lia).
  pose proof pool_fuel_eq.
  destruct (alloc_loop_spec pool_fuel u start 0) as [H'|[H1 H2]]; try lia; rewrite H0 in *.
  - by left.
  - right. split; [done|]. intros b Hb. destruct (visit_onto start b Hs Hb) as (j & Hj & <-). by apply H2.
Qed.

(** ** Properties *)

(** Well-formed allocators: the cursor is a pool index. *)
Definition wf (a : SubnetAllocator) : Prop := 0 <= next a <= 16383.

Inductive call := CAllocate | CSpecific (name : string) | CRelease (name : string).

Definition exec (a : SubnetAllocator) (c : call) : SubnetAllocator :=
  match c with
  | CAllocate => match Allocate a with Some (_, a') => a' | None => a end
  | CSpecific name => (AllocateSpecific a name).2
  | CRelease name => Release a name
  end.

Lemma exec_wf a c : wf a -> wf (exec a c).
Proof.
  unfold wf, exec, Allocate, AllocateSpecific, Release. intros Hwf.
  destruct c as [|name|name].
  - destruct (alloc_loop_total (used a) (next a) Hwf) as [(b & -> & _ & Hr)|[-> _]]; [|done].
    cbn [next]. rewrite (Z.mod_small _ (2 ^ 32)) by lia. case_match eqn:E; bool_to_prop; lia.
  - repeat case_match; done.
  - repeat case_match; done.
Qed.

(** What an allocation does, as its callers use it. *)
Lemma Allocate_spec a :
  wf a ->
  Allocate a = Some (Err "subnet pool exhausted"%string, a) \/
  exists b a', Allocate a = Some (Ok (config (tapName b) b), a') /\ b ∉ used a /\ used a' = {[ b ]} ∪ used a /\ wf a' /\
    scan_tap (tapName b) = Some b.
Proof.
  intros Hwf. pose proof (exec_wf a CAllocate Hwf) as Hwf'. unfold exec in Hwf'. unfold Allocate in *.
  destruct (alloc_loop_total (used a) (next a) Hwf) as [(b & E & Hb & Hr)|[E Hall]]; rewrite E in *; [right|by left].
  eexists b, _. split; [reflexivity|]. split_and!; [done|done|done|]. apply scan_tapName. lia.
Qed.

Lemma reachable_wf calls : wf (fold_left exec calls NewSubnetAllocator).
Proof.
  assert (wf NewSubnetAllocator) as H0 by (unfold wf; simpl; lia). revert H0.
  generalize NewSubnetAllocator as a. induction calls as [|c calls IH]; intros a Ha; [done|].
  apply IH. by apply exec_wf.
Qed.

(**  Allocation in every reachable state.  After any sequence of calls,
    [Allocate] terminates; it fails exactly when all 16384 blocks of the pool
    are in use and then changes nothing; otherwise it hands out a block that
    was free, marks exactly that block, and its TAP name scans back to it, so
    that [Release] of that name restores the set of blocks in use. *)
Theorem Allocate_reachable (calls : list call) :
  let a := fold_left exec calls NewSubnetAllocator in
  (Allocate a = Some (Err "subnet pool exhausted"%string, a) /\
     forall b, 0 <= b <= 16383 -> b ∈ used a) \/
  (exists b a', Allocate a = Some (Ok (config (tapName b) b), a') /\
     0 <= b <= 16383 /\ b ∉ used a /\ used a' = {[ b ]} ∪ used a /\
     used (Release a' (tapName b)) = used a).
Proof.
  intros a. pose proof (reachable_wf calls) as Hwf. fold a in Hwf.
  unfold Allocate. destruct (alloc_loop_total (used a) (next a) Hwf) as [(b & -> & Hb & Hr)|[-> Hall]].
  - right. eexists b, _. split; [reflexivity|]. split_and!; try lia; try done.
    unfold Release. rewrite scan_tapName by lia. cbn [used]. set_solver.
  - by left.
Qed.

(**  No two VMs share an address: blocks of the pool that differ get
    different host and guest addresses, and no host address is another VM's
    guest address. *)
Theorem Allocate_addresses_distinct (b1 b2 : Z) :
  0 <= b1 <= 16383 -> 0 <= b2 <= 16383 -> b1 <> b2 ->
  let c1 := config (tapName b1) b1 in let c2 := config (tapName b2) b2 in
  HostIP c1 <> HostIP c2 /\ GuestIP c1 <> GuestIP c2 /\ HostIP c1 <> GuestIP c2 /\
  GuestIP c1 <> HostIP c2 /\ HostIP c1 <> GuestIP c1 /\ TAPName c1 <> TAPName c2.
Proof.
  intros H1 H2 Hne. cbn [HostIP GuestIP TAPName config]. split_and!.
  1-4: intros [? ?]%addr_inj; lia.
  - intros [? ?]%addr_inj; lia.
  - intros H. apply (f_equal scan_tap) in H. rewrite !scan_tapName in H by lia. congruence.
Qed.

Lemma Allocate_addresses_distinct_witness :
  GuestIP (config (tapName 0) 0) <> GuestIP (config (tapName 64) 64) /\
  GuestIP (config (tapName 64) 64) = "172.16.1.2"%string.
Proof.
  split; [|vm_compute; reflexivity].
  apply (Allocate_addresses_distinct 0 64); lia.
Defined.

End Subnet.
