(* ===== verification/GoFloat.v ===== *)
(** * Go [float64]

    The IEEE-754 binary64 arithmetic the control plane uses for percentages,
    averages and scores, as the executable [spec_float] of the standard library
    (precision 53, exponent bound 1024, round to nearest even), with the order
    facts the schedulers rely on. *)

From S2P Require Import Prelude.
From Stdlib Require Import SpecFloat.

Module GoFloat.

Abbreviation float64 := spec_float.

Definition fadd : float64 -> float64 -> float64 := SFadd 53 1024.
Definition fsub : float64 -> float64 -> float64 := SFsub 53 1024.
Definition fmul : float64 -> float64 -> float64 := SFmul 53 1024.
Definition fdiv : float64 -> float64 -> float64 := SFdiv 53 1024.

(** [a < b], [a > b], [a >= b]; every comparison with NaN is false. *)
Definition flt (a b : float64) : bool := SFltb a b.
Definition fgt (a b : float64) : bool := SFltb b a.
Definition fge (a b : float64) : bool := SFleb b a.
Definition fle (a b : float64) : bool := SFleb a b.

(** [float64(n)] *)
Definition of_int (n : Z) : float64 := binary_normalize 53 1024 n 0 false.

(** The constant [n/d], correctly rounded. *)
Definition of_frac (n d : Z) : float64 := fdiv (of_int n) (of_int d).

Definition f0 : float64 := S754_zero false.

(** [int(x)] for a finite value: truncation toward zero. Go leaves the other
    cases unspecified; the callers never reach them with finite inputs. *)
Definition to_int (x : float64) : Z :=
  match x with
  | S754_finite s m e =>
      let v := if 0 <=? e then Z.pos m * 2 ^ e else Z.pos m / 2 ^ (- e) in
      if s then - v else v
  | _ => 0
  end.

(** ** Order facts *)

(** [SFcompare] on non-NaN values as a position on the integer line: sign,
    exponent and mantissa compared lexicographically. *)
Lemma flt_irrefl a : flt a a = false.
Proof.
  unfold flt, SFltb, SFcompare. destruct a as [[]|[]| |[] m e]; try done;
    by rewrite Z.compare_refl, Pos.compare_refl.
Qed.

(** Case analysis on every exponent and mantissa comparison in sight. *)
Ltac float_cases :=
  repeat first
  [ discriminate | reflexivity | congruence | lia
  | match goal with
    | H : context [Z.compare ?a ?b] |- _ => destruct (Z.compare_spec a b); subst; simpl in H
    | H : context [Pos.compare_cont Eq ?a ?b] |- _ =>
        destruct (Pos.compare_spec a b); subst; simpl in H
    | H : context [Pos.compare ?a ?b] |- _ => destruct (Pos.compare_spec a b); subst; simpl in H
    | |- context [Z.compare ?a ?b] => destruct (Z.compare_spec a b); subst; simpl
    | |- context [Pos.compare_cont Eq ?a ?b] => change (Pos.compare_cont Eq a b) with (Pos.compare a b)
    | |- context [Pos.compare ?a ?b] => destruct (Pos.compare_spec a b); subst; simpl
    end ].

Lemma flt_trans a b c : flt a b = true -> flt b c = true -> flt a c = true.
Proof.
  unfold flt, SFltb, SFcompare.
  destruct a as [[]|[]| |[] ma ea], b as [[]|[]| |[] mb eb], c as [[]|[]| |[] mc ec];
    cbn [Pos.compare]; intros H1 H2; try discriminate; try reflexivity;
    change (@Pos.compare_cont Eq) with Pos.compare in *; float_cases.
Qed.

Lemma flt_asym a b : flt a b = true -> flt b a = false.
Proof.
  intros H. destruct (flt b a) eqn:E; [|done].
  rewrite <- (flt_irrefl a). symmetry. by apply (flt_trans a b a).
Qed.

#[export] Hint Resolve flt_irrefl flt_asym : oc.

Definition finite (x : float64) : bool := match x with S754_zero _ | S754_finite _ _ _ => true | _ => false end.

(** [x - x] is a zero for finite [x]. *)
Lemma fsub_diag x : finite x = true -> exists s, fsub x x = S754_zero s.
Proof.
  destruct x as [s| | |s m e]; try done; intros _.
  - destruct s; vm_compute; by eexists.
  - unfold fsub, SFsub. cbn [SFopp]. rewrite Z.sub_diag. by exists false.
Qed.

Lemma fge_false a b : finite a = true -> finite b = true -> fge a b = false -> flt a b = true.
Proof.
  unfold fge, flt, SFleb, SFltb, SFcompare. destruct a as [[]| | |[] ma ea], b as [[]| | |[] mb eb]; try discriminate; intros _ _;
    change (@Pos.compare_cont Eq) with Pos.compare; try discriminate; try reflexivity; intros H; float_cases.
Qed.

End GoFloat.
