(* ===== verification/Autoscaler.v ===== *)
(** * Resource tiers and the per-sandbox autoscaler

    [Tiers] models the tier table and its validators
    (src/pkg/types/sandbox.go); [AutoscaleStore] the rows and SQL statements of
    src/internal/db/sandbox_autoscale.go and sandbox_scaling_lock.go; and
    [Autoscaler] the control loop of src/internal/controlplane/autoscaler.go:
    samples, window averages, the decision, and the claim-then-apply protocol.

    Times are nanoseconds since the Unix epoch; memory percentages are
    binary64 values ([GoFloat]); the store, the registry and the worker call
    are parameters, their calls recorded as an ordered list of effects. *)

From S2P Require Import Prelude GoFloat.
From stdpp Require Import sorting.
Import GoFloat.
#[local] Open Scope Z_scope.

(** ** The tier table *)
Module Tiers.

Record ResourceTier := { MemoryMB : Z; VCPUs : Z }.

Definition MaxSelfServeMemoryMB : Z := 16384.

Definition AllowedResourceTiers : list ResourceTier :=
  [ {| MemoryMB := 1024; VCPUs := 1 |};
    {| MemoryMB := 4096; VCPUs := 1 |};
    {| MemoryMB := 8192; VCPUs := 2 |};
    {| MemoryMB := 16384; VCPUs := 4 |} ].

(** Why a request is rejected. *)
Inductive tier_error := TooLarge | NotATier | Mismatch.

Definition ValidateMemoryMB (memoryMB : Z) : result tier_error Z :=
  if memoryMB =? 0 then Ok 0
  else if MaxSelfServeMemoryMB <? memoryMB then Err TooLarge
  else match List.find (fun t => memoryMB =? MemoryMB t) AllowedResourceTiers with
       | Some t => Ok (VCPUs t)
       | None => Err NotATier
       end.

Definition ValidateCPUCount (cpuCount : Z) : result tier_error Z :=
  if cpuCount =? 0 then Ok 0
  else if 4 <? cpuCount then Err TooLarge
  else match List.find (fun t => cpuCount =? VCPUs t) AllowedResourceTiers with
       | Some t => Ok (MemoryMB t)
       | None => Err NotATier
       end.

(** The two fields of [SandboxConfig] the validator reads and writes. *)
Record SandboxConfig := { cfg_MemoryMB : Z; cfg_CpuCount : Z }.

Definition ValidateResourceTier (cfg : SandboxConfig) : result tier_error SandboxConfig :=
  let m := cfg_MemoryMB cfg in
  let c := cfg_CpuCount cfg in
  if (m =? 0) && (c =? 0) then Ok cfg
  else if (0 <? m) && (c =? 0) then
    let? vcpus := ValidateMemoryMB m in Ok {| cfg_MemoryMB := m; cfg_CpuCount := vcpus |}
  else if (0 <? c) && (m =? 0) then
    let? mem := ValidateCPUCount c in Ok {| cfg_MemoryMB := mem; cfg_CpuCount := c |}
  else if existsb (fun t => (m =? MemoryMB t) && (c =? VCPUs t)) AllowedResourceTiers
       then Ok cfg else Err Mismatch.

(** The specification: a configuration is a tier when the pair is in the
    table, and the validator fills the missing half with the smallest tier
    that agrees with the half that is given. *)
Definition is_tier (m c : Z) : Prop := exists t, In t AllowedResourceTiers /\ MemoryMB t = m /\ VCPUs t = c.

Definition agrees (given got : Z) : Prop := given = 0 \/ got = given.

Lemma is_tier_iff m c :
  is_tier m c <-> (m = 1024 /\ c = 1) \/ (m = 4096 /\ c = 1) \/ (m = 8192 /\ c = 2) \/ (m = 16384 /\ c = 4).
Proof.
  unfold is_tier, AllowedResourceTiers. cbn [In]. split.
  - intros (t & Ht & <- & <-). intuition (subst; cbn; auto).
  - intros [[-> ->]|[[-> ->]|[[-> ->]|[-> ->]]]];
      (eexists {| MemoryMB := _; VCPUs := _ |}; split; [|split; reflexivity]; cbn; auto).
Qed.

(** [ValidateResourceTier] accepts exactly the empty configuration (left
    for the defaults) and the configurations that extend to an allowed tier: on
    success a non-empty request becomes a pair of the table that keeps every
    value the caller gave, and the memory filled in is the smallest tier with
    that CPU count; it fails only when no tier of the table agrees with the
    request. *)
Theorem ValidateResourceTier_correct m c :
  match ValidateResourceTier {| cfg_MemoryMB := m; cfg_CpuCount := c |} with
  | Ok cfg' =>
      let m' := cfg_MemoryMB cfg' in
      let c' := cfg_CpuCount cfg' in
      (m = 0 /\ c = 0 /\ m' = 0 /\ c' = 0) \/
      ((m <> 0 \/ c <> 0) /\ is_tier m' c' /\ agrees m m' /\ agrees c c' /\
       forall m2, is_tier m2 c' -> agrees m m2 -> m' <= m2)
  | Err _ => (m <> 0 \/ c <> 0) /\ forall m' c', is_tier m' c' -> ~ (agrees m m' /\ agrees c c')
  end.
Proof.
  unfold ValidateResourceTier, ValidateMemoryMB, ValidateCPUCount, agrees, MaxSelfServeMemoryMB,
    AllowedResourceTiers. cbn [cfg_MemoryMB cfg_CpuCount List.find existsb MemoryMB VCPUs].
  repeat (case_inner; cbn [MemoryMB VCPUs cfg_MemoryMB cfg_CpuCount]);
    cbn zeta; setoid_rewrite is_tier_iff;
    first [ left; lia | right; split_and!; try lia; intros; lia | split; [lia|intros; lia] ].
Qed.

End Tiers.

(** ** The rows the autoscaler reads and claims *)
Module AutoscaleStore.

(** The columns of [sandbox_sessions] these statements use. *)
Record row := {
  sandbox_id : string; worker_id : string; org_id : string; status : string;
  migrating_to_worker : string; scaling_locked : bool;
  autoscale_enabled : bool; autoscale_min_mb : option Z; autoscale_max_mb : option Z;
  autoscale_last_event_at : option Z
}.

(** A sandbox id may have several session rows. *)
Abbreviation table := (list row).

Record AutoscaleSandbox := {
  SandboxID : string; WorkerID : string; OrgID : string;
  CurrentMB : Z; MinMB : Z; MaxMB : Z; LastEventAt : Z
}.

Definition nullif0 (n : Z) : option Z := if n =? 0 then None else Some n.

Definition SetSandboxAutoscale (t : table) (id : string) (enabled : bool) (minMB maxMB : Z) : table :=
  map (fun r =>
    if String.eqb (sandbox_id r) id
    then {| sandbox_id := sandbox_id r; worker_id := worker_id r; org_id := org_id r; status := status r;
            migrating_to_worker := migrating_to_worker r; scaling_locked := scaling_locked r;
            autoscale_enabled := enabled; autoscale_min_mb := nullif0 minMB;
            autoscale_max_mb := nullif0 maxMB;
            autoscale_last_event_at := autoscale_last_event_at r |}
    else r) t.

(** The first row the query yields; [None] is [ErrNoRows]. *)
Definition GetSandboxAutoscale (t : table) (id : string) : option (bool * Z * Z) :=
  match List.find (fun r => String.eqb (sandbox_id r) id) t with
  | Some r => Some (autoscale_enabled r, default 0 (autoscale_min_mb r), default 0 (autoscale_max_mb r))
  | None => None
  end.

(** [None] is the not-found error. *)
Definition SetScalingLock (t : table) (id : string) (locked : bool) : option table :=
  if existsb (fun r => String.eqb (sandbox_id r) id) t then
    Some (map (fun r =>
      if String.eqb (sandbox_id r) id
      then {| sandbox_id := sandbox_id r; worker_id := worker_id r; org_id := org_id r; status := status r;
              migrating_to_worker := migrating_to_worker r; scaling_locked := locked;
              autoscale_enabled := autoscale_enabled r; autoscale_min_mb := autoscale_min_mb r;
              autoscale_max_mb := autoscale_max_mb r;
              autoscale_last_event_at := autoscale_last_event_at r |}
      else r) t)
  else None.

(** The [WHERE] clause of the listing. *)
Definition listed (r : row) : bool :=
  autoscale_enabled r && String.eqb (status r) "running" &&
  String.eqb (migrating_to_worker r) "" && negb (scaling_locked r).

Definition ListAutoscaleEnabled (t : table) : list AutoscaleSandbox :=
  map (fun r => {| SandboxID := sandbox_id r; WorkerID := worker_id r; OrgID := org_id r;
                   CurrentMB := 0;
                   MinMB := default 0 (autoscale_min_mb r);
                   MaxMB := default 0 (autoscale_max_mb r);
                   LastEventAt := default 0 (autoscale_last_event_at r) |})
      (List.filter listed t).

(** [prev.Year() <= 1970] (in UTC): the sentinel of a never-scaled row. *)
Definition year_1971 : Z := 365 * 86400 * 1000000000.
Definition prevArg (prev : Z) : option Z := if prev <? year_1971 then None else Some prev.

(** [sandbox_id = $2 AND autoscale_enabled AND autoscale_last_event_at IS NOT
    DISTINCT FROM $3] *)
Definition claim_match (id : string) (prev : Z) (r : row) : bool :=
  String.eqb (sandbox_id r) id && autoscale_enabled r &&
  bool_decide (autoscale_last_event_at r = prevArg prev).

Definition set_last (now : Z) (r : row) : row :=
  {| sandbox_id := sandbox_id r; worker_id := worker_id r; org_id := org_id r; status := status r;
     migrating_to_worker := migrating_to_worker r; scaling_locked := scaling_locked r;
     autoscale_enabled := autoscale_enabled r; autoscale_min_mb := autoscale_min_mb r;
     autoscale_max_mb := autoscale_max_mb r; autoscale_last_event_at := Some now |}.

Definition ClaimAutoscaleEvent (t : table) (id : string) (prev now : Z) : table * bool :=
  (map (fun r => if claim_match id prev r then set_last now r else r) t,
   Nat.eqb (length (List.filter (claim_match id prev) t)) 1).

(** *** The interface the autoscaler is written against

    [claimable s id prev]: a claim of [id] anchored at [prev] could still
    match. A claim that is granted was claimable; it consumes its anchor; and
    nothing but writing that very anchor again revives it. [claim_event]
    returns [Err] when the statement itself fails. *)
Class SandboxStore (S : Type) := {
  list_enabled : S -> option (list AutoscaleSandbox);
  claim_event : S -> string -> Z -> Z -> S * result unit bool;
  claimable : S -> string -> Z -> Prop;
  claim_needs s id prev now s' :
    claim_event s id prev now = (s', Ok true) -> claimable s id prev;
  claim_consumes s id prev now s' :
    claim_event s id prev now = (s', Ok true) -> prevArg prev <> Some now -> ~ claimable s' id prev;
  claim_stable s id prev id' prev' now s' r :
    ~ claimable s id prev -> (id' = id -> prevArg prev <> Some now) ->
    claim_event s id' prev' now = (s', r) -> ~ claimable s' id prev
}.

Definition table_claimable (t : table) (id : string) (prev : Z) : Prop :=
  exists r, In r t /\ claim_match id prev r = true.

Lemma claim_match_set_last id prev now r :
  prevArg prev <> Some now -> claim_match id prev (set_last now r) = false.
Proof.
  intros H. unfold claim_match, set_last; cbn. rewrite bool_decide_eq_false_2 by done.
  by rewrite andb_false_r.
Qed.

Lemma set_last_match id prev now r : claim_match id prev (set_last now r) = true ->
  sandbox_id r = id /\ prevArg prev = Some now.
Proof. unfold claim_match, set_last; cbn. intros H. bool_to_prop. by apply String.eqb_eq in H. Qed.

Lemma claim_match_id id prev r : claim_match id prev r = true -> sandbox_id r = id.
Proof. unfold claim_match. intros H. bool_to_prop. by apply String.eqb_eq in H. Qed.

#[export] Program Instance table_store : SandboxStore table := {
  list_enabled t := Some (ListAutoscaleEnabled t);
  claim_event t id prev now := let '(t', b) := ClaimAutoscaleEvent t id prev now in (t', Ok b);
  claimable := table_claimable
}.
Next Obligation.
  cbn. intros t id prev now s' H. simplify_eq/=. apply Nat.eqb_eq in H0.
  destruct (List.filter _ t) as [|r l] eqn:E; [done|].
  exists r. apply List.filter_In. rewrite E. by left.
Qed.
Next Obligation.
  cbn. intros t id prev now s' H Hne. simplify_eq/=. intros (r & Hr & Hm).
  apply in_map_iff in Hr as (r0 & <- & Hr0). destruct (claim_match id prev r0) eqn:E; [|congruence].
  by rewrite claim_match_set_last in Hm.
Qed.
Next Obligation.
  cbn. intros t id prev id' prev' now s' r Hno Hfresh H. simplify_eq/=. intros (r & Hr & Hm).
  apply in_map_iff in Hr as (r0 & <- & Hr0).
  destruct (claim_match id' prev' r0) eqn:E; [|by apply Hno; exists r0].
  apply set_last_match in Hm as [Hid Hp]. apply claim_match_id in E. apply Hfresh; congruence.
Qed.

End AutoscaleStore.

(** ** The control loop *)
Module Autoscaler.
Import Tiers AutoscaleStore.

(** [scaleUpMemPctThreshold], [scaleDownMemPctThreshold] *)
Definition scaleUpMemPctThreshold : float64 := of_int 75.
Definition scaleDownMemPctThreshold : float64 := of_int 25.
Definition second : Z := 1000000000.
Definition scaleUpCooldown : Z := 60 * second.
Definition scaleDownCooldown : Z := 5 * 60 * second.
Definition window1m : nat := 2.
Definition window5m : nat := 10.
Definition window15m : nat := 30.

(** [Time{}.IsZero()] (year 1) and the saturating [Time.Sub]. *)
Definition zero_time : Z := - 62135596800 * second.
Definition time_sub (a b : Z) : Z := Z.max (- 2 ^ 63) (Z.min (2 ^ 63 - 1) (a - b)).

(** [sandboxStats.memSamples], most recent first, by sandbox. *)
Abbreviation stats_map := (gmap string (list float64)).

Definition recordSample (st : stats_map) (sandboxID : string) (memPct : float64) : stats_map :=
  <[sandboxID := take window15m (memPct :: default [] (st !! sandboxID))]> st.

Definition windowAvg (samples : list float64) (n : nat) : float64 :=
  let n := if Nat.ltb (length samples) n then length samples else n in
  if Nat.eqb n 0 then f0
  else fdiv (fold_left fadd (take n samples) f0) (of_int (Z.of_nat n)).

(** [sort.Ints] of the memory column. *)
Definition tierMBs : list Z := merge_sort Z.le (map MemoryMB AllowedResourceTiers).

Definition nextTier (currentMB maxMB : Z) : Z :=
  default currentMB (List.find (fun t => (currentMB <? t) && (t <=? maxMB)) tierMBs).

Definition prevTier (currentMB minMB : Z) : Z :=
  default currentMB (List.find (fun t => (t <? currentMB) && (minMB <=? t)) (rev tierMBs)).

Definition roundUpToTier (mb : Z) : Z :=
  match tierMBs with
  | [] => mb
  | _ => match List.find (fun t => mb <=? t) tierMBs with
         | Some t => t
         | None => List.last tierMBs 0
         end
  end.

(** [!sb.LastEventAt.IsZero() && now.Sub(sb.LastEventAt) < cooldown] *)
Definition cooling (sb : AutoscaleSandbox) (now cooldown : Z) : bool :=
  negb (LastEventAt sb =? zero_time) && (time_sub now (LastEventAt sb) <? cooldown).

(** The guards of the two branches of [decideTarget]. *)
Definition wants_up (samples : list float64) (sb : AutoscaleSandbox) : bool :=
  fgt (windowAvg samples window1m) scaleUpMemPctThreshold && (CurrentMB sb <? MaxMB sb) &&
  (Nat.leb window1m (length samples)).

Definition wants_down (samples : list float64) (sb : AutoscaleSandbox) : bool :=
  flt (windowAvg samples window1m) scaleDownMemPctThreshold &&
  flt (windowAvg samples window5m) scaleDownMemPctThreshold &&
  flt (windowAvg samples window15m) scaleDownMemPctThreshold &&
  Nat.leb window15m (length samples) && (MinMB sb <? CurrentMB sb).

(** The scale-down half, reached when scale-up neither applied nor returned. *)
Definition decide_down (samples : list float64) (now : Z) (sb : AutoscaleSandbox) : Z :=
  if wants_down samples sb then
    if cooling sb now scaleDownCooldown then 0
    else
      let prev := prevTier (CurrentMB sb) (MinMB sb) in
      if prev <? CurrentMB sb then prev else 0
  else 0.

Definition decideTarget (st : stats_map) (now : Z) (sb : AutoscaleSandbox) : Z :=
  match st !! SandboxID sb with
  | None | Some [] => 0
  | Some samples =>
      if CurrentMB sb =? 0 then 0
      else if wants_up samples sb then
        if cooling sb now scaleUpCooldown then 0
        else
          let next := nextTier (CurrentMB sb) (MaxMB sb) in
          if CurrentMB sb <? next then next else decide_down samples now sb
      else decide_down samples now sb
  end.

(** Calls the loop makes on the outside world, in order. *)
Inductive effect :=
| Claim (id : string) (prev now : Z)
| SetMem (id : string) (fromMB toMB : Z).

(** What one evaluation observes: the registry's snapshot (memory limit in
    bytes and percentage), the two readings of the clock, and the result of the
    worker call. *)
Record inputs := {
  stats_of : option (Z * float64);
  decide_now : Z;
  claim_now : Z;
  set_ok : bool
}.

Definition with_current (sb : AutoscaleSandbox) (mb : Z) : AutoscaleSandbox :=
  {| SandboxID := SandboxID sb; WorkerID := WorkerID sb; OrgID := OrgID sb; CurrentMB := mb;
     MinMB := MinMB sb; MaxMB := MaxMB sb; LastEventAt := LastEventAt sb |}.

Section Loop.
Context {S : Type} `{!SandboxStore S}.

(** [evaluateOne]; a failed or successful [SetSandboxMemoryMB] only differs in
    the log line, so [set_ok] does not change the result. *)
Definition evaluateOne (st : stats_map) (s : S) (i : inputs) (sb : AutoscaleSandbox) :
  stats_map * S * list effect :=
  match stats_of i with
  | None => (st, s, [])
  | Some (memLimit, memPct) =>
      if memLimit =? 0 then (st, s, [])
      else
        let sb := with_current sb (roundUpToTier (memLimit / (1024 * 1024))) in
        let st := recordSample st (SandboxID sb) memPct in
        let target := decideTarget st (decide_now i) sb in
        if (target =? 0) || (target =? CurrentMB sb) then (st, s, [])
        else
          let c := Claim (SandboxID sb) (LastEventAt sb) (claim_now i) in
          match claim_event s (SandboxID sb) (LastEventAt sb) (claim_now i) with
          | (s, Err _) => (st, s, [c])
          | (s, Ok false) => (st, s, [c])
          | (s, Ok true) => (st, s, [c; SetMem (SandboxID sb) (CurrentMB sb) target])
          end
  end.

(** The loop of [tick] over the listed sandboxes. *)
Fixpoint evaluate_all (st : stats_map) (s : S) (obs : string -> inputs)
    (sbs : list AutoscaleSandbox) : stats_map * S * list effect :=
  match sbs with
  | [] => (st, s, [])
  | sb :: rest =>
      let '(st, s, e1) := evaluateOne st s (obs (SandboxID sb)) sb in
      let '(st, s, e2) := evaluate_all st s obs rest in
      (st, s, e1 ++ e2)
  end.

(** [isLeader] is [None] when no leader election is configured. *)
Definition tick (isLeader : option bool) (st : stats_map) (s : S) (obs : string -> inputs) :
  stats_map * S * list effect :=
  match isLeader with
  | Some false => (st, s, [])
  | _ =>
      match list_enabled s with
      | None => (st, s, [])
      | Some sandboxes =>
          let keep := map SandboxID sandboxes in
          let st := filter (fun kv => kv.1 ∈ keep) st in
          evaluate_all st s obs sandboxes
      end
  end.

(** Several control planes against one store: each step is one evaluation by
    one of them (the claim is the only operation that touches the store). *)
Record step := { cp : nat; step_inputs : inputs; step_sandbox : AutoscaleSandbox }.

Fixpoint interleave (cps : gmap nat stats_map) (s : S) (sched : list step) : S * list effect :=
  match sched with
  | [] => (s, [])
  | x :: rest =>
      let '(st, s, e1) := evaluateOne (default ∅ (cps !! cp x)) s (step_inputs x) (step_sandbox x) in
      let '(s, e2) := interleave (<[cp x := st]> cps) s rest in
      (s, e1 ++ e2)
  end.

End Loop.

(** *** Tiers *)

Lemma tierMBs_eq : tierMBs = [1024; 4096; 8192; 16384].
Proof. reflexivity. Qed.

(** [t] is the tier right above, or right below, [cur]. *)
Definition tier_above (cur t : Z) : Prop :=
  In t tierMBs /\ cur < t /\ forall t', In t' tierMBs -> cur < t' -> t <= t'.
Definition tier_below (cur t : Z) : Prop :=
  In t tierMBs /\ t < cur /\ forall t', In t' tierMBs -> t' < cur -> t' <= t.

(** Decide a statement about [tierMBs] by running through the table. *)
Ltac by_tiers :=
  rewrite tierMBs_eq in *; unfold default, id in *; cbn [rev app List.find List.last In] in *;
  repeat case_inner; bool_to_prop; intuition (subst; try lia).

Lemma nextTier_spec cur max t :
  cur < nextTier cur max /\ nextTier cur max = t <-> tier_above cur t /\ t <= max.
Proof.
  unfold nextTier, tier_above. split.
  - intros [H1 <-]. revert H1. by_tiers.
  - intros ((Hin & Hlt & Hmin) & Hmax).
    assert (Hall : forall t', In t' tierMBs -> cur < t' -> t <= t') by done. clear Hmin.
    pose proof (Hall 1024). pose proof (Hall 4096). pose proof (Hall 8192). clear Hall. by_tiers.
Qed.

Lemma prevTier_spec cur min t :
  prevTier cur min < cur /\ prevTier cur min = t <-> tier_below cur t /\ min <= t.
Proof.
  unfold prevTier, tier_below. split.
  - intros [H1 <-]. revert H1. by_tiers.
  - intros ((Hin & Hlt & Hmin) & Hmax).
    pose proof (Hmin 16384). pose proof (Hmin 4096). pose proof (Hmin 8192). clear Hmin. by_tiers.
Qed.

(** The configured size: the least tier that holds [mb], or the largest. *)
Lemma roundUpToTier_spec mb :
  In (roundUpToTier mb) tierMBs /\
  (mb <= 16384 -> mb <= roundUpToTier mb /\ forall t, In t tierMBs -> mb <= t -> roundUpToTier mb <= t) /\
  (16384 < mb -> roundUpToTier mb = 16384).
Proof. unfold roundUpToTier. by_tiers. Qed.

(** *** The decision *)

(** The conditions under which the documented policy scales to [t]. *)
Definition scale_up_to (samples : list float64) (now : Z) (sb : AutoscaleSandbox) (t : Z) : Prop :=
  fgt (windowAvg samples window1m) scaleUpMemPctThreshold = true /\ (2 <= length samples)%nat /\
  cooling sb now scaleUpCooldown = false /\
  tier_above (CurrentMB sb) t /\ t <= MaxMB sb.

Definition scale_down_to (samples : list float64) (now : Z) (sb : AutoscaleSandbox) (t : Z) : Prop :=
  (forall n, n = window1m \/ n = window5m \/ n = window15m ->
     flt (windowAvg samples n) scaleDownMemPctThreshold = true) /\ (30 <= length samples)%nat /\
  cooling sb now scaleDownCooldown = false /\
  tier_below (CurrentMB sb) t /\ MinMB sb <= t.

(** An average is never above the upper and below the lower threshold. *)
Lemma thresholds_disjoint x :
  fgt x scaleUpMemPctThreshold = true -> flt x scaleDownMemPctThreshold = true -> False.
Proof.
  intros H1 H2. pose proof (flt_trans _ _ _ H1 H2) as H. vm_compute in H. discriminate.
Qed.

Lemma tier_pos t : In t tierMBs -> 0 < t.
Proof. by_tiers. Qed.

Lemma decide_down_spec samples now sb t :
  decide_down samples now sb = t /\ t <> 0 <-> scale_down_to samples now sb t.
Proof.
  unfold decide_down, scale_down_to, wants_down.
  pose proof (prevTier_spec (CurrentMB sb) (MinMB sb) t) as Hp. split.
  - intros [H Hne]. repeat case_hyp H; simplify_eq. bool_to_prop.
    destruct Hp as [Hp _]. destruct Hp as [Ht Hm]; [done|].
    split_and!; try done. by intros n [->|[->| ->]].
  - intros (Ha & Hlen & Hc & Ht & Hm). destruct Hp as [_ Hp]. destruct Hp as [Hlt Heq]; [done|].
    rewrite !Ha by auto. destruct Ht as (Hin & Hcur & _).
    replace (Nat.leb window15m (length samples)) with true by (symmetry; apply Nat.leb_le; done).
    replace (MinMB sb <? CurrentMB sb) with true by (symmetry; apply Z.ltb_lt; lia).
    rewrite Hc. cbn [andb]. apply Z.ltb_lt in Hlt. rewrite Hlt. split; [done|].
    apply tier_pos in Hin. lia.
Qed.

(** [decideTarget] implements the scaling policy exactly: it names a size
    [t] if and only if the current size is known and either the one-minute
    average is above 75% over at least two samples, the scale-up cooldown is
    over and [t] is the tier right above the current size within the maximum,
    or all three averages are below 25% over thirty samples, the scale-down
    cooldown is over and [t] is the tier right below within the minimum. *)
Theorem decideTarget_policy st now sb t :
  let samples := default [] (st !! SandboxID sb) in
  decideTarget st now sb = t /\ t <> 0 <->
  CurrentMB sb <> 0 /\ (scale_up_to samples now sb t \/ scale_down_to samples now sb t).
Proof.
  intros samples. subst samples. unfold decideTarget.
  destruct (st !! SandboxID sb) as [samples|]; cbn [default from_option id].
  2: { split; [by intros [<- ?]|]. intros (_ & [(_ & H & _)|(_ & H & _)]); cbn in H; lia. }
  destruct samples as [|x xs].
  { split; [by intros [<- ?]|]. intros (_ & [(_ & H & _)|(_ & H & _)]); cbn in H; lia. }
  set (samples := x :: xs). rewrite <- decide_down_spec.
  pose proof (nextTier_spec (CurrentMB sb) (MaxMB sb) t) as Hn.
  pose proof (decide_down_spec samples now sb t) as Hd.
  destruct (CurrentMB sb =? 0) eqn:Ecur; bool_to_prop; [split; [by intros [<- ?]|tauto]|].
  destruct (wants_up samples sb) eqn:Eup.
  - unfold wants_up in Eup. bool_to_prop.
    assert (Hno : ~ scale_down_to samples now sb t).
    { intros (Ha & _). eapply thresholds_disjoint; [done|]. apply (Ha window1m). auto. }
    destruct (cooling sb now scaleUpCooldown) eqn:Ec.
    { split; [by intros [<- ?]|]. unfold scale_up_to. rewrite Ec. intuition congruence. }
    unfold scale_up_to. rewrite Ec. destruct (CurrentMB sb <? _) eqn:En; bool_to_prop.
    + split; [intuition|]. intros (_ & [Hup|Hdown]); [|tauto].
      destruct Hn as [_ Hn]. destruct Hn as [? Hn]; [tauto|]. split; [done|].
      destruct Hup as (_ & _ & _ & (Hin & _) & _). apply tier_pos in Hin. lia.
    + split; [tauto|]. intros (_ & [Hup|Hdown]); [|tauto].
      destruct Hn as [_ Hn]. destruct Hn as [? Hn]; [tauto|]. lia.
  - split; [tauto|]. intros (_ & [Hup|Hdown]); [|tauto]. exfalso.
    destruct Hup as (Ha & Hl & _ & (_ & Hlt & _) & Hm). unfold wants_up in Eup.
    rewrite Ha in Eup. apply Nat.leb_le in Hl. unfold window1m in *. rewrite Hl in Eup.
    rewrite (proj2 (Z.ltb_lt _ _)) in Eup by lia. done.
Qed.

(** *** One tick, and several control planes *)

(** At most thirty samples per sandbox. *)
Definition bounded (st : stats_map) : Prop := map_Forall (fun _ l => (length l <= window15m)%nat) st.

(** The effects one evaluation may have: nothing, a claim that was not
    granted, or a granted claim followed by one resize of that sandbox from its
    configured size to an adjacent tier within its bounds. *)
Inductive allowed (i : inputs) (sb : AutoscaleSandbox) : list effect -> Prop :=
| allowed_none : allowed i sb []
| allowed_claim : allowed i sb [Claim (SandboxID sb) (LastEventAt sb) (claim_now i)]
| allowed_set memLimit pct t :
    stats_of i = Some (memLimit, pct) -> memLimit <> 0 ->
    let cur := roundUpToTier (memLimit / (1024 * 1024)) in
    (tier_above cur t /\ t <= MaxMB sb) \/ (tier_below cur t /\ MinMB sb <= t) ->
    allowed i sb [Claim (SandboxID sb) (LastEventAt sb) (claim_now i); SetMem (SandboxID sb) cur t].

Section Correct.
Context {S : Type} `{!SandboxStore S}.

Lemma recordSample_bounded st id pct : bounded st -> bounded (recordSample st id pct).
Proof. intros H. apply map_Forall_insert_2; [|done]. rewrite length_take. lia. Qed.

Lemma recordSample_dom st id pct : dom (recordSample st id pct) = {[id]} ∪ dom st.
Proof. apply dom_insert_L. Qed.

Lemma decideTarget_adjacent st now sb t :
  decideTarget st now sb = t -> t <> 0 ->
  (tier_above (CurrentMB sb) t /\ t <= MaxMB sb) \/ (tier_below (CurrentMB sb) t /\ MinMB sb <= t).
Proof.
  unfold decideTarget. intros H Hne.
  pose proof (nextTier_spec (CurrentMB sb) (MaxMB sb) t) as [Hn _].
  assert (Hd : forall samples, decide_down samples now sb = t ->
    tier_below (CurrentMB sb) t /\ MinMB sb <= t).
  { intros samples Hs. destruct (decide_down_spec samples now sb t) as [Hd _].
    destruct (Hd (conj Hs Hne)) as (_ & _ & _ & ?). done. }
  repeat case_hyp H; bool_to_prop; simplify_eq; eauto.
Qed.

Lemma evaluateOne_spec st (s : S) i sb st' s' es :
  evaluateOne st s i sb = (st', s', es) -> bounded st ->
  bounded st' /\ dom st' ⊆ {[SandboxID sb]} ∪ dom st /\ allowed i sb es.
Proof.
  unfold evaluateOne. intros H Hb.
  destruct (stats_of i) as [[lim pct]|] eqn:Es; [|simplify_eq; split_and!; [done|set_solver|constructor]].
  destruct (lim =? 0) eqn:El; bool_to_prop; [simplify_eq; split_and!; [done|set_solver|constructor]|].
  set (sb' := with_current sb _) in *. set (st1 := recordSample _ _ _) in *.
  assert (bounded st1 /\ dom st1 ⊆ {[SandboxID sb]} ∪ dom st) as [Hb1 Hd1].
  { split; [by apply recordSample_bounded|]. subst st1. rewrite recordSample_dom. done. }
  destruct (decideTarget st1 (decide_now i) sb' =? 0) eqn:E0; cbn [orb] in H;
    [simplify_eq; split_and!; [done..|constructor]|].
  case_hyp H; [simplify_eq; split_and!; [done..|constructor]|]. bool_to_prop.
  pose proof (decideTarget_adjacent _ _ _ _ eq_refl E0) as Hadj.
  destruct (claim_event _ _ _ _) as [s1 [[]|]]; simplify_eq; split_and!; try done.
  - exact (allowed_set i sb lim pct _ Es El Hadj).
  - exact (allowed_claim i sb).
  - exact (allowed_claim i sb).
Qed.

Lemma evaluate_all_spec sbs st (s : S) obs st' s' es :
  evaluate_all st s obs sbs = (st', s', es) -> bounded st ->
  bounded st' /\ dom st' ⊆ list_to_set (map SandboxID sbs) ∪ dom st /\
  exists groups, es = concat groups /\ Forall2 (fun sb g => allowed (obs (SandboxID sb)) sb g) sbs groups.
Proof.
  revert st s st' s' es; induction sbs as [|sb sbs IH]; intros st s st' s' es H Hb; cbn in H.
  { simplify_eq. split_and!; [done|set_solver|]. by exists []. }
  destruct (evaluateOne _ _ _ _) as [[st1 s1] e1] eqn:E1.
  destruct (evaluate_all st1 s1 obs sbs) as [[st2 s2] e2] eqn:E2. simplify_eq.
  apply evaluateOne_spec in E1 as (Hb1 & Hd1 & Ha1); [|done].
  apply IH in E2 as (Hb2 & Hd2 & groups & -> & Hg); [|done]. split_and!; [done|set_solver|].
  exists (e1 :: groups). split; [done|]. by constructor.
Qed.

(** A tick of the leader touches only the sandboxes the store listed, each
    at most once and in listing order: per sandbox either nothing, a claim that
    was refused, or a granted claim followed by one resize from the sandbox's
    configured tier to the adjacent tier within its minimum and maximum. After
    it, samples are kept for listed sandboxes only, at most thirty each. *)
Theorem tick_effects isLeader st (s : S) obs sbs :
  isLeader <> Some false -> list_enabled s = Some sbs -> bounded st ->
  let '(st', _, es) := tick isLeader st s obs in
  bounded st' /\ dom st' ⊆ list_to_set (map SandboxID sbs) /\
  exists groups, es = concat groups /\ Forall2 (fun sb g => allowed (obs (SandboxID sb)) sb g) sbs groups.
Proof.
  intros Hl Hs Hb. unfold tick. rewrite Hs.
  set (st0 := filter _ st).
  assert (bounded st0) as Hb0.
  { intros id l Hid. apply map_lookup_filter_Some in Hid as [Hid _]. by apply (Hb id l). }
  assert (dom st0 ⊆ list_to_set (map SandboxID sbs)) as Hd0.
  { intros id Hid. apply elem_of_dom in Hid as [l Hid]. apply map_lookup_filter_Some in Hid as [_ Hid].
    by apply elem_of_list_to_set. }
  destruct (evaluate_all st0 s obs sbs) as [[st' s'] es] eqn:E.
  apply evaluate_all_spec in E as (? & ? & ?); [|done].
  destruct isLeader as [[]|]; (done || (split_and!; [done|set_solver|done])).
Qed.

(** The resizes of [id] among a list of effects. *)
Definition resizes (id : string) (es : list effect) : nat :=
  length (List.filter (fun e => match e with SetMem id' _ _ => String.eqb id' id | _ => false end) es).

Lemma resizes_app id e1 e2 : resizes id (e1 ++ e2) = (resizes id e1 + resizes id e2)%nat.
Proof. unfold resizes. by rewrite List.filter_app, length_app. Qed.

(** A step reads the row of [id] at anchor [prev] and its clock differs from it. *)
Definition reads (id : string) (prev : Z) (x : step) : Prop :=
  SandboxID (step_sandbox x) = id ->
  LastEventAt (step_sandbox x) = prev /\ prevArg prev <> Some (claim_now (step_inputs x)).

(** An evaluation resizes only after a granted claim of that sandbox. *)
Lemma evaluateOne_resizes st (s : S) x st' s' es id prev :
  evaluateOne st s (step_inputs x) (step_sandbox x) = (st', s', es) -> reads id prev x ->
  (resizes id es = 0%nat /\ (~ claimable s id prev -> ~ claimable s' id prev)) \/
  (resizes id es = 1%nat /\ claimable s id prev /\ ~ claimable s' id prev).
Proof.
  unfold evaluateOne, reads, resizes. intros H Hr.
  destruct (stats_of _) as [[lim pct]|]; [|simplify_eq; auto].
  destruct (lim =? 0); [simplify_eq; auto|]. case_hyp H; [simplify_eq; auto|]. cbn in H.
  destruct (claim_event _ _ _ _) as [s1 r] eqn:Ec.
  destruct (String.eqb_spec (SandboxID (step_sandbox x)) id) as [Hid|Hid].
  - destruct (Hr Hid) as [Hp Hf]. rewrite <- Hid, Hp in *.
    destruct r as [[]|]; simplify_eq; cbn.
    + right. rewrite String.eqb_refl. split_and!; [done| |].
      * by eapply claim_needs.
      * by eapply claim_consumes.
    + left. split; [done|]. intros Hn. eapply claim_stable; eauto.
    + left. split; [done|]. intros Hn. eapply claim_stable; eauto.
  - left. assert (~ claimable s id prev -> ~ claimable s1 id prev) as Hst.
    { intros Hn. eapply claim_stable; [done| |done]. done. }
    destruct r as [[]|]; simplify_eq; cbn; try done.
    apply String.eqb_neq in Hid. by rewrite Hid.
Qed.

Lemma interleave_resizes sched cps (s : S) id prev :
  Forall (reads id prev) sched ->
  (resizes id (interleave cps s sched).2 <= 1)%nat /\
  (~ claimable s id prev -> resizes id (interleave cps s sched).2 = 0%nat).
Proof.
  revert cps s; induction sched as [|x rest IH]; intros cps s Hf; cbn [interleave]; [split; [cbn; lia|done]|].
  apply Forall_cons in Hf as [Hx Hrest].
  destruct (evaluateOne _ _ _ _) as [[st1 s1] e1] eqn:E1.
  destruct (IH (<[cp x:=st1]> cps) s1 Hrest) as [IH1 IH2].
  destruct (interleave _ s1 rest) as [s2 e2]. cbn [snd] in *. rewrite resizes_app.
  destruct (evaluateOne_resizes _ _ _ _ _ _ _ _ E1 Hx) as [[-> Hst]|(-> & Hc & Hn)].
  - split; [done|]. intros Hno. by rewrite IH2 by auto.
  - rewrite IH2 by done. split; [done|]. intros Hno. done.
Qed.

(** Any number of control planes, interleaved in any order over one store
    that grants claims by compare-and-set, resize a sandbox at most once for one
    observed [LastEventAt]: of all evaluations that read the row of [id] at the
    same anchor at most one reaches the worker. *)
Theorem at_most_one_resize sched cps (s : S) id prev :
  Forall (reads id prev) sched -> (resizes id (interleave cps s sched).2 <= 1)%nat.
Proof. intros H. by apply (interleave_resizes sched cps s id prev). Qed.

End Correct.

(** *** Witnesses *)

Definition w_row : row := {|
  sandbox_id := "sb-1"; worker_id := "w-1"; org_id := "o"; status := "running";
  migrating_to_worker := ""; scaling_locked := false; autoscale_enabled := true;
  autoscale_min_mb := Some 1024; autoscale_max_mb := Some 8192; autoscale_last_event_at := None |}.

Definition w_inputs : inputs := {|
  stats_of := Some (896 * 1048576, of_int 90);
  decide_now := 2 * year_1971; claim_now := 2 * year_1971 + 1; set_ok := true |}.

Definition w_stats : stats_map := {[ "sb-1"%string := [of_int 80; of_int 78] ]}.

Lemma tick_effects_witness :
  let '(st', _, es) := tick (Some true) w_stats [w_row] (fun _ => w_inputs) in
  es = [Claim "sb-1" 0 (2 * year_1971 + 1); SetMem "sb-1" 1024 4096] /\
  bounded st' /\ dom st' ⊆ list_to_set ["sb-1"%string] /\
  exists groups, es = concat groups /\
    Forall2 (fun sb g => allowed w_inputs sb g) (ListAutoscaleEnabled [w_row]) groups.
Proof.
  pose proof (tick_effects (Some true) w_stats [w_row] (fun _ => w_inputs) (ListAutoscaleEnabled [w_row])
    ltac:(discriminate) eq_refl) as H.
  assert (bounded w_stats) as Hb by (apply map_Forall_singleton; cbn; unfold window15m; lia).
  specialize (H Hb).
  assert ((tick (Some true) w_stats [w_row] (fun _ => w_inputs)).2 =
    [Claim "sb-1" 0 (2 * year_1971 + 1); SetMem "sb-1" 1024 4096]) as He by (vm_compute; reflexivity).
  destruct (tick _ _ _ _) as [[st' s'] es]. cbn [snd] in He. split; [done|]. exact H.
Defined.

(** Two control planes read the never-scaled row; both want to grow it. *)
Definition w_step (n : nat) : step :=
  {| cp := n; step_inputs := w_inputs; step_sandbox := List.hd
       {| SandboxID := ""; WorkerID := ""; OrgID := ""; CurrentMB := 0; MinMB := 0; MaxMB := 0; LastEventAt := 0 |}
       (ListAutoscaleEnabled [w_row]) |}.

Lemma at_most_one_resize_witness :
  let out := interleave {[ 0%nat := w_stats; 1%nat := w_stats ]} [w_row] [w_step 0; w_step 1] in
  resizes "sb-1" out.2 = 1%nat /\ (resizes "sb-1" out.2 <= 1)%nat.
Proof.
  split; [vm_compute; reflexivity|].
  apply (at_most_one_resize [w_step 0; w_step 1] _ [w_row] "sb-1" 0).
  repeat constructor; vm_compute; discriminate.
Defined.

End Autoscaler.
