(* ===== verification/Router.v ===== *)
(** * The sandbox router

    src/internal/sandbox/router.go: the per-sandbox state machine every
    interaction goes through (rolling idle timeout, auto-wake, auto-resume,
    promotion of paused boxes to deep hibernation).

    Goroutines are programs of type [prog]: sequences of critical sections
    ([Atom]), calls to the sandbox manager, the database or a callback ([Ext])
    and channel receives ([Wait]). Every lock-protected section of the source is
    one [Atom] over the shared [world] (the map of entries, the entries
    themselves, the pending timers and the wake channels). A program has a
    sequential semantics ([run]) and, in a pool of threads with timers that may
    fire at any point, an interleaving semantics ([act], [reach]). A section
    that panics (closing a nil or closed channel) yields [None]. *)

From S2P Require Import Prelude GoFloat.

Module Router.

(** ** Data *)

Inductive SandboxState :=
| StateRunning | StateHibernated | StateWaking | StateHibernating | StateCreating | StatePaused.

#[export] Instance SandboxState_eq : EqDecision SandboxState.
Proof. solve_decision. Defined.

(** Errors: those of the outside world, and the router's own wrapping. *)
Inductive rerr :=
| ExtErr (n : Z)
| CtxErr
| NotConfigured
| NoActiveHibernation (e : rerr)
| ResumeUnsupported
| AutoWakeFailed (e : rerr)
| AutoResumeFailed (e : rerr)
| CreationFailed (e : rerr)
| UnexpectedState
| OutOfFuel.

(** A Go [error]: [None] is nil. *)
Abbreviation err := (option rerr).

Record sandboxEntry := {
  state : SandboxState;
  timeout : Z;
  timer : option nat;
  wakeCh : option nat;
  wakeErr : err;
  noPromote : bool
}.

(** The two callbacks a timer of this file can carry. *)
Inductive callback := cb_onTimeout | cb_promoteToDeep.

Record pending := { t_after : Z; t_cb : callback; t_box : string }.

(** Shared memory: [timers] holds the armed timers only ([Stop] and firing
    remove one); [chans] maps a channel to whether it is closed. Entries keep
    existing in [heap] after they leave the map, as goroutines may still hold
    a pointer to them. *)
Record world := {
  sandboxes : gmap string nat;
  heap : gmap nat sandboxEntry;
  timers : gmap nat pending;
  chans : gmap nat bool;
  next : nat
}.

(** [RouterConfig] as the methods read it: which collaborators are present. *)
Record RouterConfig := {
  pausable : bool;            (* the manager implements Pause/Resume *)
  checkpointStore : bool;
  store : bool;
  defaultTimeout : Z;
  pausePromoteAfter : Z;
  onHibernate : bool; onKill : bool; onPause : bool; onResume : bool
}.

(** Calls to the manager, the store, the callbacks and the routed operation. *)
Inductive call :=
| GetActiveHibernation (id : string)
| Wake (id : string) (seconds : Z)
| MarkHibernationRestored (id : string)
| UpdateSandboxSessionForWake (id : string)
| Pause (id : string) | Resume (id : string)
| SetSandboxPaused (id : string) | SetSandboxResumed (id : string) | SetSandboxDeep (id : string)
| Hibernate (id : string) | Kill (id : string)
| OnHibernate (id : string) | OnKill (id : string) | OnPause (id : string) | OnResume (id : string)
| Op (id op : string).

#[export] Instance call_eq : EqDecision call.
Proof. solve_decision. Defined.

(** ** Programs *)

Inductive prog (A : Type) : Type :=
| Ret (a : A)
| Atom {B : Type} (f : world -> option (world * B)) (k : B -> prog A)
| Ext (c : call) (k : err -> prog A)
| Wait (ch : option nat) (k : bool -> prog A).
Arguments Ret {A} a.
Arguments Atom {A B} f k.
Arguments Ext {A} c k.
Arguments Wait {A} ch k.

Fixpoint bind {A B} (p : prog A) (k : A -> prog B) : prog B :=
  match p with
  | Ret a => k a
  | Atom f k' => Atom f (fun b => bind (k' b) k)
  | Ext c k' => Ext c (fun a => bind (k' a) k)
  | Wait ch k' => Wait ch (fun b => bind (k' b) k)
  end.

#[local] Notation "'do' x <- p ; q" := (bind p (fun x => q))
  (at level 200, x name, p at level 100, q at level 200).

Definition ext (c : call) : prog err := Ext c Ret.
Definition when (b : bool) (p : prog unit) : prog unit := if b then p else Ret tt.
(** A call whose result is discarded or only logged. *)
Definition ext_ (c : call) : prog unit := Ext c (fun _ => Ret tt).

(** A section that cannot panic. *)
Definition atomically {B} (f : world -> world * B) : prog B := Atom (fun w => Some (f w)) Ret.

(** *** Primitives on shared memory *)

Definition set_heap (w : world) (h : gmap nat sandboxEntry) : world :=
  {| sandboxes := sandboxes w; heap := h; timers := timers w; chans := chans w; next := next w |}.
Definition set_timers (w : world) (t : gmap nat pending) : world :=
  {| sandboxes := sandboxes w; heap := heap w; timers := t; chans := chans w; next := next w |}.

Definition new_entry (w : world) (id : string) (e : sandboxEntry) : world :=
  {| sandboxes := <[id := next w]> (sandboxes w); heap := <[next w := e]> (heap w);
     timers := timers w; chans := chans w; next := S (next w) |}.

(** [time.AfterFunc] and [Timer.Stop]. *)
Definition AfterFunc (w : world) (p : pending) : world * nat :=
  ({| sandboxes := sandboxes w; heap := heap w; timers := <[next w := p]> (timers w);
      chans := chans w; next := S (next w) |}, next w).

Definition Stop (w : world) (t : option nat) : world :=
  match t with
  | Some n => set_timers w (delete n (timers w))
  | None => w
  end.

Definition make_chan (w : world) : world * nat :=
  ({| sandboxes := sandboxes w; heap := heap w; timers := timers w;
      chans := <[next w := false]> (chans w); next := S (next w) |}, next w).

(** [close(ch)]: panics on a nil or a closed channel. *)
Definition close_chan (w : world) (ch : option nat) : option world :=
  match ch with
  | Some c =>
      match chans w !! c with
      | Some false =>
          Some {| sandboxes := sandboxes w; heap := heap w; timers := timers w;
                  chans := <[c := true]> (chans w); next := next w |}
      | _ => None
      end
  | None => None
  end.

Definition is_closed (w : world) (ch : option nat) : bool :=
  match ch with
  | Some c => default false (chans w !! c)
  | None => false
  end.

Definition zero_entry : sandboxEntry :=
  {| state := StateRunning; timeout := 0; timer := None; wakeCh := None; wakeErr := None; noPromote := false |}.

(** Entries are never freed, so a pointer a goroutine holds is in the heap. *)
Definition get_entry (w : world) (e : nat) : sandboxEntry := default zero_entry (heap w !! e).
Definition put_entry (w : world) (e : nat) (x : sandboxEntry) : world := set_heap w (<[e := x]> (heap w)).

Definition with_state (x : sandboxEntry) (s : SandboxState) : sandboxEntry :=
  {| state := s; timeout := timeout x; timer := timer x; wakeCh := wakeCh x; wakeErr := wakeErr x;
     noPromote := noPromote x |}.
Definition with_timer (x : sandboxEntry) (t : option nat) : sandboxEntry :=
  {| state := state x; timeout := timeout x; timer := t; wakeCh := wakeCh x; wakeErr := wakeErr x;
     noPromote := noPromote x |}.
Definition with_timeout (x : sandboxEntry) (d : Z) : sandboxEntry :=
  {| state := state x; timeout := d; timer := timer x; wakeCh := wakeCh x; wakeErr := wakeErr x;
     noPromote := noPromote x |}.
Definition with_wake (x : sandboxEntry) (ch : option nat) (e : err) : sandboxEntry :=
  {| state := state x; timeout := timeout x; timer := timer x; wakeCh := ch; wakeErr := e;
     noPromote := noPromote x |}.

(** [entry.timer = time.AfterFunc(d, cb)], guarded by [d > 0]. *)
Definition arm (w : world) (e : nat) (d : Z) (cb : callback) (id : string) : world :=
  if 0 <? d then
    let '(w, t) := AfterFunc w {| t_after := d; t_cb := cb; t_box := id |} in
    put_entry w e (with_timer (get_entry w e) (Some t))
  else w.

(** [r.mu.RLock(); entry, ok := r.sandboxes[id]; r.mu.RUnlock()] *)
Definition lookup_entry (id : string) : prog (option nat) := atomically (fun w => (w, sandboxes w !! id)).

(** ** Operations *)

Section Ops.
Context (cfg : RouterConfig).

Definition Register (id : string) (d : Z) : prog unit :=
  let d := if d <=? 0 then defaultTimeout cfg else d in
  atomically (fun w =>
    let w := match sandboxes w !! id with
             | Some e => Stop w (timer (get_entry w e))
             | None => w
             end in
    let e := next w in
    let w := new_entry w id
      {| state := StateRunning; timeout := d; timer := None; wakeCh := None; wakeErr := None;
         noPromote := false |} in
    (arm w e d cb_onTimeout id, tt)).

Definition RegisterCreating (id : string) (d : Z) : prog unit :=
  let d := if (d <=? 0) && (0 <? defaultTimeout cfg) then defaultTimeout cfg else d in
  atomically (fun w =>
    let '(w, ch) := make_chan w in
    (new_entry w id
      {| state := StateCreating; timeout := d; timer := None; wakeCh := Some ch; wakeErr := None;
         noPromote := false |}, tt)).

Definition MarkCreated (id : string) (er : err) : prog unit :=
  do oe <- lookup_entry id;
  match oe with
  | None => Ret tt
  | Some e =>
      Atom (fun w =>
        let x := get_entry w e in
        if decide (state x = StateCreating) then
          let w :=
            match er with
            | Some _ => put_entry w e (with_state (with_wake x (wakeCh x) er) StateHibernated)
            | None => arm (put_entry w e (with_state x StateRunning)) e (timeout x) cb_onTimeout id
            end in
          match close_chan w (wakeCh x) with
          | Some w => Some (w, tt)
          | None => None
          end
        else Some (w, tt)) Ret
  end.

Definition Unregister (id : string) : prog unit :=
  do oe <- atomically (fun w =>
    ({| sandboxes := delete id (sandboxes w); heap := heap w; timers := timers w; chans := chans w;
        next := next w |}, sandboxes w !! id));
  match oe with
  | None => Ret tt
  | Some e => atomically (fun w => (Stop w (timer (get_entry w e)), tt))
  end.

Definition MarkHibernated (id : string) (d : Z) : prog unit :=
  let d := if d <=? 0 then defaultTimeout cfg else d in
  do oe <- atomically (fun w =>
    match sandboxes w !! id with
    | None => (new_entry w id
        {| state := StateHibernated; timeout := d; timer := None; wakeCh := None; wakeErr := None;
           noPromote := false |}, None)
    | Some e => (w, Some e)
    end);
  match oe with
  | None => Ret tt
  | Some e => atomically (fun w =>
      let x := get_entry w e in
      let w := Stop w (timer x) in
      (put_entry w e (with_timeout (with_state (with_timer x None) StateHibernated) d), tt))
  end.

Definition SetTimeout (id : string) (d : Z) : prog unit :=
  do oe <- lookup_entry id;
  match oe with
  | None => Ret tt
  | Some e => atomically (fun w =>
      let x := get_entry w e in
      let w := put_entry (Stop w (timer x)) e (with_timer (with_timeout x d) None) in
      (if decide (state x = StateRunning) then arm w e d cb_onTimeout id else w, tt))
  end.

Definition GetState (id : string) : prog (option SandboxState) :=
  do oe <- lookup_entry id;
  match oe with
  | None => Ret None
  | Some e => atomically (fun w => (w, Some (state (get_entry w e))))
  end.

Definition Close : prog unit :=
  atomically (fun w =>
    let w := map_fold (fun _ e w => Stop w (timer (get_entry w e))) w (sandboxes w) in
    ({| sandboxes := ∅; heap := heap w; timers := timers w; chans := chans w; next := next w |}, tt)).

Definition resetTimeout (id : string) : prog unit :=
  do oe <- lookup_entry id;
  match oe with
  | None => Ret tt
  | Some e => atomically (fun w =>
      let x := get_entry w e in
      if decide (state x = StateRunning) then
        (arm (Stop w (timer x)) e (timeout x) cb_onTimeout id, tt)
      else (w, tt))
  end.

Definition Touch (id : string) : prog unit := resetTimeout id.

(** [int(d.Seconds())]: whole seconds plus the fraction as a float64. *)
Definition int_seconds (d : Z) : Z :=
  GoFloat.to_int (GoFloat.fadd (GoFloat.of_int (Z.quot d 1000000000))
    (GoFloat.fdiv (GoFloat.of_int (Z.rem d 1000000000)) (GoFloat.of_int 1000000000))).

(** The deferred section of [doWake]. *)
Definition wake_done (e : nat) (er : err) : prog unit :=
  Atom (fun w =>
    let x := get_entry w e in
    let x := with_wake x (wakeCh x) er in
    let x := match er with Some _ => with_state x StateHibernated | None => x end in
    match close_chan w (wakeCh x) with
    | Some w => Some (put_entry w e (with_wake x None (wakeErr x)), tt)
    | None => None
    end) Ret.

Definition doWake (id : string) (e : nat) : prog unit :=
  if negb (store cfg) || negb (checkpointStore cfg) then wake_done e (Some NotConfigured)
  else
    do er <- ext (GetActiveHibernation id);
    match er with
    | Some x => wake_done e (Some (NoActiveHibernation x))
    | None =>
        do secs <- atomically (fun w => (w, int_seconds (timeout (get_entry w e))));
        let secs := if secs <=? 0 then int_seconds (defaultTimeout cfg) else secs in
        do er <- ext (Wake id secs);
        match er with
        | Some _ => wake_done e er
        | None =>
            do _ <- ext_ (MarkHibernationRestored id);
            do _ <- ext_ (UpdateSandboxSessionForWake id);
            do _ <- atomically (fun w =>
              let x := get_entry w e in
              (arm (put_entry w e (with_state x StateRunning)) e (timeout x) cb_onTimeout id, tt));
            wake_done e None
        end
    end.

(** The deferred section of [doResume]. *)
Definition resume_done (id : string) (e : nat) (er : err) : prog unit :=
  Atom (fun w =>
    let x := get_entry w e in
    let x := with_wake x (wakeCh x) er in
    let w :=
      match er with
      | Some _ => put_entry w e (with_state x StatePaused)
      | None => arm (put_entry w e (with_state x StateRunning)) e (timeout x) cb_onTimeout id
      end in
    let x := get_entry w e in
    match close_chan w (wakeCh x) with
    | Some w => Some (put_entry w e (with_wake x None (wakeErr x)), tt)
    | None => None
    end) Ret.

Definition doResume (id : string) (e : nat) : prog unit :=
  if pausable cfg then
    do er <- ext (Resume id);
    match er with
    | Some _ => resume_done id e er
    | None =>
        do _ <- when (store cfg) (ext_ (SetSandboxResumed id));
        do _ <- when (onResume cfg) (ext_ (OnResume id));
        resume_done id e None
    end
  else resume_done id e (Some ResumeUnsupported).

(** [entry.mu.Lock(); err := entry.wakeErr; entry.mu.Unlock()], wrapped. *)
Definition wake_result (e : nat) (wrap : rerr -> rerr) : prog err :=
  atomically (fun w => (w, option_map wrap (wakeErr (get_entry w e)))).

(** [select] on the wake channel and the request context. *)
Definition await (e : nat) (ch : option nat) (wrap : rerr -> rerr) : prog err :=
  Wait ch (fun received => if received then wake_result e wrap else Ret (Some CtxErr)).

(** Move the entry to [StateWaking] with a fresh channel. *)
Definition begin_wake (w : world) (e : nat) : world :=
  let x := get_entry w e in
  let '(w, ch) := make_chan w in
  put_entry w e (with_wake (with_state x StateWaking) (Some ch) None).

(** What the locked part of [ensureRunning] decides to do next. *)
Inductive plan := PReady | PWake | PResume | PWaitWake (ch : option nat) | PWaitCreate (ch : option nat).

Definition ensure_section (e : nat) : prog plan :=
  atomically (fun w =>
    let x := get_entry w e in
    match state x with
    | StateRunning => (w, PReady)
    | StateHibernated | StateHibernating => (begin_wake w e, PWake)
    | StateWaking => (w, PWaitWake (wakeCh x))
    | StateCreating => (w, PWaitCreate (wakeCh x))
    | StatePaused => (begin_wake w e, PResume)
    end).

Definition ensure_tracked (id : string) (e : nat) : prog err :=
  do p <- ensure_section e;
  match p with
  | PReady => Ret None
  | PWake => do _ <- doWake id e; wake_result e AutoWakeFailed
  | PWaitWake ch => await e ch AutoWakeFailed
  | PWaitCreate ch => await e ch CreationFailed
  | PResume => do _ <- doResume id e; wake_result e AutoResumeFailed
  end.

(** [ensureRunning] and [discoverAndEnsure] call each other; [fuel] bounds how
    often the entry may vanish again between [MarkHibernated] and the retry. *)
Fixpoint ensureRunning (fuel : nat) (id : string) : prog err :=
  do oe <- lookup_entry id;
  match oe with
  | Some e => ensure_tracked id e
  | None =>
      if negb (store cfg) || negb (checkpointStore cfg) then Ret None
      else
        do er <- ext (GetActiveHibernation id);
        match er with
        | Some _ => Ret None
        | None =>
            do _ <- MarkHibernated id (defaultTimeout cfg);
            match fuel with
            | O => Ret (Some OutOfFuel)
            | S fuel => ensureRunning fuel id
            end
        end
  end.

(** A middleware wraps the operation it is given. *)
Definition Middleware := string -> string -> prog err -> prog err.

Definition Route (middlewares : list Middleware) (fuel : nat) (id op : string) : prog err :=
  let wrapped := fold_right (fun mw next => mw id op next) (ext (Op id op)) middlewares in
  do er <- ensureRunning fuel id;
  match er with
  | Some _ => Ret er
  | None =>
      do er <- wrapped;
      do _ <- resetTimeout id;
      Ret er
  end.

Definition armPromoteTimer (id : string) : prog unit :=
  if pausePromoteAfter cfg <=? 0 then Ret tt
  else
    do oe <- lookup_entry id;
    match oe with
    | None => Ret tt
    | Some e => atomically (fun w =>
        let x := get_entry w e in
        if noPromote x then (w, tt)
        else if decide (state x = StatePaused)
        then (arm (Stop w (timer x)) e (pausePromoteAfter cfg) cb_promoteToDeep id, tt)
        else (w, tt))
    end.

(** [entry.state = s; entry.timer = nil] in one section. *)
Definition settle (e : nat) (s : SandboxState) : prog unit :=
  atomically (fun w => (put_entry w e (with_timer (with_state (get_entry w e) s) None), tt)).

Definition MarkPooled (id : string) : prog unit :=
  do oe <- lookup_entry id;
  match oe with
  | None => Ret tt
  | Some e => atomically (fun w =>
      let x := get_entry w e in
      (put_entry (Stop w (timer x)) e
        {| state := StatePaused; timeout := timeout x; timer := None; wakeCh := wakeCh x;
           wakeErr := wakeErr x; noPromote := true |}, tt))
  end.

Definition MarkPaused (id : string) : prog unit :=
  do oe <- lookup_entry id;
  match oe with
  | None => Ret tt
  | Some e =>
      do _ <- atomically (fun w =>
        let x := get_entry w e in
        (put_entry (Stop w (timer x)) e (with_state (with_timer x None) StatePaused), tt));
      do _ <- armPromoteTimer id;
      when (onPause cfg) (ext_ (OnPause id))
  end.

Definition promoteToDeep (id : string) : prog unit :=
  do oe <- lookup_entry id;
  match oe with
  | None => Ret tt
  | Some e =>
      do go <- atomically (fun w =>
        let x := get_entry w e in
        if bool_decide (state x = StatePaused) && checkpointStore cfg
        then (put_entry w e (with_timer (with_state x StateHibernating) None), true)
        else (w, false));
      if negb go then Ret tt
      else
        do er <- ext (Hibernate id);
        match er with
        | Some _ => atomically (fun w => (put_entry w e (with_state (get_entry w e) StatePaused), tt))
        | None =>
            do _ <- when (store cfg) (ext_ (SetSandboxDeep id));
            do _ <- settle e StateHibernated;
            when (onHibernate cfg) (ext_ (OnHibernate id))
        end
  end.

(** The kill path of [onTimeout]. *)
Definition timeout_kill (id : string) : prog unit :=
  do _ <- ext_ (Kill id);
  do _ <- Unregister id;
  when (onKill cfg) (ext_ (OnKill id)).

(** The deep-hibernate part of [onTimeout]. *)
Definition timeout_hibernate (id : string) (e : nat) : prog unit :=
  if checkpointStore cfg then
    do er <- ext (Hibernate id);
    match er with
    | Some _ => timeout_kill id
    | None => do _ <- settle e StateHibernated; when (onHibernate cfg) (ext_ (OnHibernate id))
    end
  else timeout_kill id.

Definition onTimeout (id : string) : prog unit :=
  do oe <- lookup_entry id;
  match oe with
  | None => Ret tt
  | Some e =>
      do go <- atomically (fun w =>
        let x := get_entry w e in
        if decide (state x = StateRunning)
        then (put_entry w e (with_state x StateHibernating), true) else (w, false));
      if negb go then Ret tt
      else if pausable cfg then
        do er <- ext (Pause id);
        match er with
        | None =>
            do _ <- when (store cfg) (ext_ (SetSandboxPaused id));
            do _ <- settle e StatePaused;
            do _ <- armPromoteTimer id;
            when (onPause cfg) (ext_ (OnPause id))
        | Some _ => timeout_hibernate id e
        end
      else timeout_hibernate id e
  end.

Definition run_callback (p : pending) : prog unit :=
  match t_cb p with
  | cb_onTimeout => onTimeout (t_box p)
  | cb_promoteToDeep => promoteToDeep (t_box p)
  end.

End Ops.

(** ** Sequential semantics: [o] answers the outside calls; the calls made are
    recorded in order. A receive on a channel nobody closed ends with the
    request's context. *)
Fixpoint run {A} (o : call -> err) (w : world) (p : prog A) : option (world * A * list call) :=
  match p with
  | Ret a => Some (w, a, [])
  | Atom f k => match f w with
                | Some (w, b) => run o w (k b)
                | None => None
                end
  | Ext c k => match run o w (k (o c)) with
               | Some (w, a, l) => Some (w, a, c :: l)
               | None => None
               end
  | Wait ch k => run o w (k (is_closed w ch))
  end.

(** ** Interleaving semantics *)

(** Threads that ended keep their [Ret]. *)
Record conf := { mem : world; threads : list (prog err); panicked : bool; trace : list call }.

Inductive action :=
| Spawn (p : prog err)            (* a new request or control call arrives *)
| Fire (t : nat)                  (* a pending timer fires *)
| Exec (tid : nat) (answer : err) (* a thread takes its next step; [answer] is used by [Ext] *)
| Cancel (tid : nat).             (* the context of a waiting thread is done *)

Definition no_err (p : prog unit) : prog err := bind p (fun _ => Ret None).

(** [None]: the action is not enabled. *)
Definition act (cfg : RouterConfig) (c : conf) (a : action) : option conf :=
  if panicked c then None else
  match a with
  | Spawn p => Some {| mem := mem c; threads := threads c ++ [p]; panicked := false; trace := trace c |}
  | Fire t =>
      match timers (mem c) !! t with
      | Some p => Some {| mem := Stop (mem c) (Some t);
                          threads := threads c ++ [no_err (run_callback cfg p)];
                          panicked := false; trace := trace c |}
      | None => None
      end
  | Exec tid answer =>
      match threads c !! tid with
      | Some (Atom f k) =>
          match f (mem c) with
          | Some (w, b) => Some {| mem := w; threads := <[tid := k b]> (threads c); panicked := false;
                                   trace := trace c |}
          | None => Some {| mem := mem c; threads := threads c; panicked := true; trace := trace c |}
          end
      | Some (Ext x k) => Some {| mem := mem c; threads := <[tid := k answer]> (threads c);
                                  panicked := false; trace := trace c ++ [x] |}
      | Some (Wait ch k) =>
          if is_closed (mem c) ch
          then Some {| mem := mem c; threads := <[tid := k true]> (threads c); panicked := false;
                       trace := trace c |}
          else None
      | _ => None
      end
  | Cancel tid =>
      match threads c !! tid with
      | Some (Wait ch k) => Some {| mem := mem c; threads := <[tid := k false]> (threads c);
                                    panicked := false; trace := trace c |}
      | _ => None
      end
  end.

Fixpoint play (cfg : RouterConfig) (c : conf) (l : list action) : option conf :=
  match l with
  | [] => Some c
  | a :: l => match act cfg c a with Some c => play cfg c l | None => None end
  end.

(** Reachability by actions that satisfy [P]. *)
Inductive reach (cfg : RouterConfig) (P : action -> Prop) (c0 : conf) : conf -> Prop :=
| reach_refl : reach cfg P c0 c0
| reach_step c a c' : reach cfg P c0 c -> P a -> act cfg c a = Some c' -> reach cfg P c0 c'.

(** ** A program logic for sequential runs

    [triple P p Q]: from a world with [P], whatever the outside world answers,
    [p] runs to completion without panicking and ends with [Q]. *)
Definition triple {A} (P : world -> Prop) (p : prog A) (Q : A -> world -> Prop) : Prop :=
  forall o w, P w -> exists w' a l, run o w p = Some (w', a, l) /\ Q a w'.

Section Triple.
Context {A : Type}.
Implicit Types (P : world -> Prop) (Q : A -> world -> Prop).

Lemma triple_ret P Q a : (forall w, P w -> Q a w) -> triple P (Ret a) Q.
Proof. intros H o w Hw. exists w, a, []. auto. Qed.

Lemma triple_atom {B} P Q (f : world -> option (world * B)) k :
  (forall w, P w -> exists w' b, f w = Some (w', b) /\ triple (eq w') (k b) Q) -> triple P (Atom f k) Q.
Proof.
  intros H o w Hw. destruct (H w Hw) as (w' & b & Hf & Hk). cbn. rewrite Hf. by apply Hk.
Qed.

Lemma triple_ext P Q c k : (forall a, triple P (k a) Q) -> triple P (Ext c k) Q.
Proof.
  intros H o w Hw. destruct (H (o c) o w Hw) as (w' & a & l & Hr & HQ).
  cbn. rewrite Hr. eauto.
Qed.

Lemma triple_wait P Q ch k : (forall b, triple P (k b) Q) -> triple P (Wait ch k) Q.
Proof. intros H o w Hw. cbn. by apply H. Qed.

Lemma triple_weaken P P' Q (p : prog A) : (forall w, P w -> P' w) -> triple P' p Q -> triple P p Q.
Proof. intros H Hp o w Hw. apply Hp. auto. Qed.

Lemma triple_post P Q Q' (p : prog A) : triple P p Q' -> (forall a w, Q' a w -> Q a w) -> triple P p Q.
Proof. intros Hp H o w Hw. destruct (Hp o w Hw) as (w' & a & l & ? & ?). eauto 6. Qed.

End Triple.

Lemma run_bind {A B} o w (p : prog A) (k : A -> prog B) :
  run o w (bind p k) =
  match run o w p with
  | Some (w', a, l) =>
      match run o w' (k a) with
      | Some (w'', b, l') => Some (w'', b, l ++ l')
      | None => None
      end
  | None => None
  end.
Proof.
  revert w; induction p as [a|C f k' IH|c k' IH|ch k' IH]; intros w; cbn [bind run].
  - by destruct (run o w (k a)) as [[[? ?] ?]|].
  - destruct (f w) as [[w' b]|]; [apply IH|done].
  - rewrite IH. destruct (run o w (k' _)) as [[[? ?] ?]|]; [|done].
    by destruct (run o _ (k _)) as [[[? ?] ?]|].
  - apply IH.
Qed.

Lemma triple_bind {A B} P (R : A -> world -> Prop) (Q : B -> world -> Prop) p k :
  triple P p R -> (forall a, triple (R a) (k a) Q) -> triple P (bind p k) Q.
Proof.
  intros Hp Hk o w Hw. destruct (Hp o w Hw) as (w1 & a & l1 & H1 & HR).
  destruct (Hk a o w1 HR) as (w2 & b & l2 & H2 & HQ).
  rewrite run_bind, H1, H2. eauto 6.
Qed.

Lemma triple_atomically {B} P (Q : B -> world -> Prop) f :
  (forall w, P w -> Q (f w).2 (f w).1) -> triple P (atomically f) Q.
Proof. intros H. apply triple_atom. intros w Hw. destruct (f w) as [w' b] eqn:E.
  exists w', b. cbn beta. split; [congruence|]. apply triple_ret. intros w'' <-. specialize (H w Hw). by rewrite E in H. Qed.

Lemma triple_ext_ P c : triple P (ext_ c) (fun _ => P).
Proof. apply triple_ext. intros a. by apply triple_ret. Qed.

Lemma triple_when_ext P b c : triple P (when b (ext_ c)) (fun _ => P).
Proof. destruct b; [apply triple_ext_|by apply triple_ret]. Qed.

Lemma triple_extc P c : triple P (ext c) (fun _ => P).
Proof. apply triple_ext. intros a. by apply triple_ret. Qed.

Lemma triple_lookup P id :
  triple P (lookup_entry id) (fun oe w => P w /\ sandboxes w !! id = oe).
Proof. by apply triple_atomically. Qed.

#[export] Hint Resolve triple_ext_ triple_when_ext triple_extc triple_lookup : oc.

(** ** The invariant of the router between operations *)

(** The shape of memory: the map is injective into the heap, and no two
    entries share a timer or a wake channel. *)
Record base (w : world) : Prop := {
  base_tracked id e : sandboxes w !! id = Some e -> is_Some (heap w !! e);
  base_inj id1 id2 e : sandboxes w !! id1 = Some e -> sandboxes w !! id2 = Some e -> id1 = id2;
  base_heap e : is_Some (heap w !! e) -> (e < next w)%nat;
  base_timer e x t : heap w !! e = Some x -> timer x = Some t -> (t < next w)%nat;
  base_chan e x c : heap w !! e = Some x -> wakeCh x = Some c -> (c < next w)%nat;
  base_timer_inj e1 e2 x1 x2 t : heap w !! e1 = Some x1 -> heap w !! e2 = Some x2 ->
    timer x1 = Some t -> timer x2 = Some t -> e1 = e2;
  base_chan_inj e1 e2 x1 x2 c : heap w !! e1 = Some x1 -> heap w !! e2 = Some x2 ->
    wakeCh x1 = Some c -> wakeCh x2 = Some c -> e1 = e2
}.

(** The promise per tracked box: it is in a stable state; while running with a
    timeout its idle timer is armed with that timeout; while it is being created
    its ready channel is open. *)
Record good (w : world) (id : string) (x : sandboxEntry) : Prop := {
  good_state : state x <> StateWaking /\ state x <> StateHibernating;
  good_running : state x = StateRunning -> 0 < timeout x ->
    exists t, timer x = Some t /\
      timers w !! t = Some {| t_after := timeout x; t_cb := cb_onTimeout; t_box := id |};
  good_creating : state x = StateCreating -> exists c, wakeCh x = Some c /\ chans w !! c = Some false
}.

(** Every tracked box is good, [ex] excepted. *)
Definition wf_except (ex : option nat) (w : world) : Prop :=
  base w /\ forall id e x, sandboxes w !! id = Some e -> heap w !! e = Some x -> ex <> Some e -> good w id x.

Abbreviation wf := (wf_except None).

Lemma get_entry_heap w e x : heap w !! e = Some x -> get_entry w e = x.
Proof. unfold get_entry. by intros ->. Qed.

Lemma wf_except_weaken w e : wf w -> wf_except (Some e) w.
Proof. intros [Hb Hg]. split; [done|]. eauto. Qed.

(** [good] reads memory only at the entry's own timer and channel. *)
Lemma good_frame w w' id x :
  good w id x ->
  (state x = StateRunning -> forall t, timer x = Some t -> timers w' !! t = timers w !! t) ->
  (state x = StateCreating -> forall c, wakeCh x = Some c -> chans w' !! c = chans w !! c) ->
  good w' id x.
Proof.
  intros [Hs Hr Hc] Ht Hch. split; [done| |].
  - intros H1 H2. destruct (Hr H1 H2) as (t & ? & ?). exists t. by rewrite Ht.
  - intros H1. destruct (Hc H1) as (c & ? & ?). exists c. by rewrite Hch.
Qed.

(** *** Steps on one entry *)

(** A channel no entry holds yet (or no channel). *)
Definition fresh_chan (w : world) (x : sandboxEntry) : Prop :=
  forall c, wakeCh x = Some c -> (c < next w)%nat /\ forall e y, heap w !! e = Some y -> wakeCh y <> Some c.

(** Writing entry [e] with its old, or no, timer and its old, or a fresh, channel. *)
Lemma base_put w e x x' :
  base w -> heap w !! e = Some x -> (timer x' = timer x \/ timer x' = None) ->
  (wakeCh x' = wakeCh x \/ fresh_chan w x') -> base (put_entry w e x').
Proof.
  intros [B1 B2 B3 B4 B5 B6 B7] He Ht Hc.
  split; cbn [put_entry set_heap sandboxes heap timers chans next].
  - intros id e' H. destruct (decide (e' = e)) as [->|]; simplify_map_eq; eauto.
  - done.
  - intros e' H. destruct (decide (e' = e)) as [->|]; simplify_map_eq; eauto.
  - intros e' y t H Hy. destruct (decide (e' = e)) as [->|]; simplify_map_eq; eauto.
    destruct Ht as [Ht|Ht]; rewrite Ht in Hy; [eauto|done].
  - intros e' y t H Hy. destruct (decide (e' = e)) as [->|]; simplify_map_eq; eauto.
    destruct Hc as [Hc|Hc]; [rewrite Hc in Hy; eauto|by apply Hc].
  - intros e1 e2 x1 x2 t H1 H2 T1 T2.
    destruct (decide (e1 = e)) as [->|], (decide (e2 = e)) as [->|]; simplify_map_eq; try done; eauto;
      destruct Ht as [Ht|Ht]; rewrite Ht in *; try done; eauto.
  - intros e1 e2 x1 x2 t H1 H2 T1 T2.
    destruct (decide (e1 = e)) as [->|], (decide (e2 = e)) as [->|]; simplify_map_eq; try done; eauto;
      (destruct Hc as [Hc|Hc]; [rewrite Hc in *; eauto|]).
    + by destruct (proj2 (Hc t T1) _ _ H2).
    + by destruct (proj2 (Hc t T2) _ _ H1).
Qed.

Lemma wf_put w e x x' :
  wf_except (Some e) w -> heap w !! e = Some x -> (timer x' = timer x \/ timer x' = None) ->
  (wakeCh x' = wakeCh x \/ fresh_chan w x') -> wf_except (Some e) (put_entry w e x').
Proof.
  intros [Hb Hg] He Ht Hc. split; [by eapply base_put|].
  intros id e' y Hid Hy Hne. cbn in Hid, Hy. assert (e' <> e) by congruence. simplify_map_eq.
  eapply good_frame; [by eapply Hg| |]; done.
Qed.

(** Closing the exception: entry [e] is good, or no longer tracked. *)
Lemma wf_restore w e :
  wf_except (Some e) w ->
  (forall id x, sandboxes w !! id = Some e -> heap w !! e = Some x -> good w id x) -> wf w.
Proof.
  intros [Hb Hg] H. split; [done|]. intros id e' x H1 H2 _.
  destruct (decide (e' = e)) as [->|]; [eauto|]. eapply Hg; eauto. congruence.
Qed.

Lemma base_stop w t : base w -> base (Stop w t).
Proof. intros Hb. destruct t; [|done]. by destruct Hb; split. Qed.

(** Stopping the timer of entry [e]. *)
Lemma wf_stop w e x :
  wf_except (Some e) w -> heap w !! e = Some x -> wf_except (Some e) (Stop w (timer x)).
Proof.
  intros [Hb Hg] He. destruct (timer x) as [t|] eqn:Et; [|done]. split.
  - by apply base_stop.
  - intros id e' y H1 H2 Hne. cbn in H1, H2. eapply good_frame; [by eapply Hg| |done].
    intros _ t' Ht'. cbn. apply lookup_delete_ne. intros ->. apply Hne. f_equal.
    by eapply (base_timer_inj w Hb e e' x y).
Qed.

(** Arming a timer on entry [e]. *)
Lemma arm_facts w e d cb id x :
  heap w !! e = Some x ->
  sandboxes (arm w e d cb id) = sandboxes w /\ chans (arm w e d cb id) = chans w /\
  exists x', heap (arm w e d cb id) = <[e := x']> (heap w) /\
    state x' = state x /\ timeout x' = timeout x /\ wakeCh x' = wakeCh x /\ wakeErr x' = wakeErr x /\
    noPromote x' = noPromote x /\
    (0 < d -> timer x' = Some (next w) /\
       timers (arm w e d cb id) !! next w = Some {| t_after := d; t_cb := cb; t_box := id |}).
Proof.
  intros He. unfold arm. destruct (0 <? d) eqn:Ed; cbn [AfterFunc].
  - split_and!; [done|done|]. eexists. split; [reflexivity|]. unfold get_entry. cbn [heap].
    rewrite He. cbn. split_and!; try done. intros _. split; [done|]. by simplify_map_eq.
  - apply Z.ltb_ge in Ed. split_and!; [done|done|]. exists x. rewrite insert_id by done.
    split_and!; try done. lia.
Qed.

Lemma base_arm w e d cb id x : base w -> heap w !! e = Some x -> base (arm w e d cb id).
Proof.
  intros [B1 B2 B3 B4 B5 B6 B7] He. unfold arm. destruct (0 <? d); [|done]. cbn [AfterFunc].
  set (w1 := Build_world _ _ _ _ _).
  assert (get_entry w1 e = x) as -> by by apply get_entry_heap.
  split; cbn.
  - intros i e' H. destruct (decide (e' = e)) as [->|]; simplify_map_eq; eauto.
  - done.
  - intros e' H. apply Nat.lt_lt_succ_r, B3. destruct (decide (e' = e)) as [->|]; simplify_map_eq; eauto.
  - intros e' y t H Hy. destruct (decide (e' = e)) as [->|]; simplify_map_eq; [lia|].
    apply Nat.lt_lt_succ_r. eauto.
  - intros e' y t H Hy. apply Nat.lt_lt_succ_r.
    destruct (decide (e' = e)) as [->|]; simplify_map_eq; eauto.
  - intros e1 e2 x1 x2 t H1 H2 T1 T2.
    destruct (decide (e1 = e)) as [->|], (decide (e2 = e)) as [->|]; simplify_map_eq; try done; eauto.
    + specialize (B4 _ _ _ H2 T2). lia.
    + specialize (B4 _ _ _ H1 T1). lia.
  - intros e1 e2 x1 x2 t H1 H2 T1 T2.
    destruct (decide (e1 = e)) as [->|], (decide (e2 = e)) as [->|]; simplify_map_eq; try done; eauto.
Qed.

Lemma base_make_chan w : base w -> base (make_chan w).1.
Proof.
  intros [B1 B2 B3 B4 B5 B6 B7]. split; cbn; eauto; intros; apply Nat.lt_lt_succ_r; eauto.
Qed.

Lemma base_close w ch w' : close_chan w ch = Some w' -> base w -> base w'.
Proof.
  intros H Hb. destruct ch as [c|]; [|done]. cbn in H. repeat case_hyp H; simplify_eq. by destruct Hb; split.
Qed.

#[export] Hint Resolve base_arm base_stop base_make_chan base_close : oc.

Lemma wf_arm w e d cb id x :
  wf_except (Some e) w -> heap w !! e = Some x -> wf_except (Some e) (arm w e d cb id).
Proof.
  intros [Hb Hg] He. split; [by eapply base_arm|]. unfold arm. destruct (0 <? d); [|done]. cbn [AfterFunc].
  intros i e' y H1 H2 Hne. cbn in H1, H2. assert (e' <> e) by congruence. simplify_map_eq.
  eapply good_frame; [by eapply Hg| |done]. intros _ t Ht. cbn.
  apply lookup_insert_ne. specialize (base_timer w Hb _ _ _ H2 Ht). lia.
Qed.

Lemma good_stable w id x : state x = StateHibernated \/ state x = StatePaused -> good w id x.
Proof. intros [H|H]; split; rewrite H; (done || (split; discriminate)). Qed.

(** A box that settles in [StateHibernated] or [StatePaused]. *)
Lemma wf_stable w e x :
  wf_except (Some e) w -> heap w !! e = Some x ->
  state x = StateHibernated \/ state x = StatePaused -> wf w.
Proof.
  intros Hw He Hs. eapply wf_restore; [done|]. intros id y _ Hy. simplify_eq. by apply good_stable.
Qed.

(** A running box whose idle timer is (re)armed. *)
Lemma wf_arm_running w id e x :
  wf_except (Some e) w -> sandboxes w !! id = Some e -> heap w !! e = Some x ->
  state x = StateRunning -> wf (arm w e (timeout x) cb_onTimeout id).
Proof.
  intros Hw Hid He Hs. pose proof (wf_arm w e (timeout x) cb_onTimeout id x Hw He) as Hw'.
  destruct (arm_facts w e (timeout x) cb_onTimeout id x He) as (Hsb & Hch & x' & Hh & S1 & S2 & S3 & S4 & S5 & S6).
  eapply wf_restore; [done|]. intros id' y Hid' Hy. rewrite Hsb in Hid'.
  assert (id' = id) as -> by (destruct Hw as [Hb _]; by eapply (base_inj w Hb)).
  rewrite Hh, lookup_insert_eq in Hy. simplify_eq. split.
  - rewrite S1, Hs. done.
  - rewrite S2. intros _ Hd. destruct (S6 Hd) as [? ?]. eauto.
  - rewrite S1, Hs. discriminate.
Qed.

(** Allocation of channels and entries. *)
Lemma wf_make_chan ex w : wf_except ex w -> wf_except ex (make_chan w).1.
Proof.
  intros [Hb Hg]. split; [by apply base_make_chan|].
  intros id e x H1 H2 Hne. cbn in H1, H2. eapply good_frame; [by eapply Hg|done|].
  intros _ c Hc. cbn. apply lookup_insert_ne. specialize (base_chan w Hb _ _ _ H2 Hc). lia.
Qed.

Lemma wf_new ex w id x :
  wf_except ex w -> (forall e, ex = Some e -> sandboxes w !! id = Some e) ->
  timer x = None -> fresh_chan w x -> wf_except (Some (next w)) (new_entry w id x).
Proof.
  intros [[B1 B2 B3 B4 B5 B6 B7] Hg] Hex Ht Hc.
  assert (Hnew : forall e y, heap w !! e = Some y -> e <> next w).
  { intros e y Hy ->. specialize (B3 (next w) (ex_intro _ y Hy)). lia. }
  split.
  - split; cbn.
    + intros i e H. destruct (decide (e = next w)) as [->|]; [by simplify_map_eq|].
      destruct (decide (i = id)) as [->|]; simplify_map_eq. eauto.
    + intros i1 i2 e H1 H2. destruct (decide (i1 = id)) as [->|], (decide (i2 = id)) as [->|];
        simplify_map_eq; try done; eauto.
      * destruct (B1 _ _ H2) as [? ?]. by exfalso; eapply Hnew.
      * destruct (B1 _ _ H1) as [? ?]. by exfalso; eapply Hnew.
    + intros e H. destruct (decide (e = next w)) as [->|]; simplify_map_eq; [lia|].
      apply Nat.lt_lt_succ_r; eauto.
    + intros e y t H Hy. destruct (decide (e = next w)) as [->|]; simplify_map_eq.
      apply Nat.lt_lt_succ_r; eauto.
    + intros e y c H Hy. apply Nat.lt_lt_succ_r.
      destruct (decide (e = next w)) as [->|]; simplify_map_eq; [by apply Hc|eauto].
    + intros e1 e2 x1 x2 t H1 H2 T1 T2.
      destruct (decide (e1 = next w)) as [->|], (decide (e2 = next w)) as [->|]; simplify_map_eq; eauto.
    + intros e1 e2 x1 x2 c H1 H2 T1 T2.
      destruct (decide (e1 = next w)) as [->|], (decide (e2 = next w)) as [->|]; simplify_map_eq; eauto.
      * by destruct (proj2 (Hc c T1) _ _ H2).
      * by destruct (proj2 (Hc c T2) _ _ H1).
  - intros i e y H1 H2 Hne. cbn in H1, H2. assert (e <> next w) by congruence.
    destruct (decide (i = id)) as [->|]; simplify_map_eq.
    eapply good_frame; [eapply Hg; eauto| |]; try done.
Qed.

Lemma new_entry_heap w id x : heap (new_entry w id x) !! next w = Some x.
Proof. cbn. by simplify_map_eq. Qed.

(** Closing the open channel of entry [e]. *)
Lemma wf_close w e x c :
  wf_except (Some e) w -> heap w !! e = Some x -> wakeCh x = Some c -> chans w !! c = Some false ->
  exists w', close_chan w (Some c) = Some w' /\ wf_except (Some e) w' /\
    sandboxes w' = sandboxes w /\ heap w' = heap w /\ timers w' = timers w.
Proof.
  intros [Hb Hg] He Hc Hop. cbn. rewrite Hop. eexists. split_and!; [done| |done|done|done]. split.
  - destruct Hb. by split.
  - intros id e' y H1 H2 Hne. cbn in H1, H2. eapply good_frame; [by eapply Hg|done|].
    intros _ c' Hc'. cbn. apply lookup_insert_ne. intros ->. apply Hne. f_equal.
    by eapply (base_chan_inj w Hb e e' x y).
Qed.

(** *** Every operation preserves the invariant *)

(** Entry [e] of box [id] is being woken: its channel is open. *)
Definition waking (id : string) (e : nat) (w : world) : Prop :=
  wf_except (Some e) w /\ sandboxes w !! id = Some e /\
  exists x c, heap w !! e = Some x /\ wakeCh x = Some c /\ chans w !! c = Some false.

(** The same, and the box is already running with its idle timer armed. *)
Definition woken (id : string) (e : nat) (w : world) : Prop :=
  wf w /\ sandboxes w !! id = Some e /\
  exists x c, heap w !! e = Some x /\ wakeCh x = Some c /\ chans w !! c = Some false /\ state x = StateRunning.

(** Box [id] is at entry [e] in an intact router. *)
Definition tracked (id : string) (e : nat) (w : world) : Prop := wf w /\ sandboxes w !! id = Some e.

(** After a wake: intact, and running unless an error was recorded. *)
Definition settled (id : string) (e : nat) (w : world) : Prop :=
  tracked id e w /\ (wakeErr (get_entry w e) = None -> state (get_entry w e) = StateRunning).

Section Preserve.
Context (cfg : RouterConfig).

Lemma tracked_entry id e w : tracked id e w -> exists x, heap w !! e = Some x /\ good w id x.
Proof.
  intros [[Hb Hg] Hid]. destruct (base_tracked w Hb _ _ Hid) as [x Hx]. exists x. split; [done|].
  by eapply Hg.
Qed.

Lemma fresh_none w x : wakeCh x = None -> fresh_chan w x.
Proof. intros H c Hc. congruence. Qed.

Lemma begin_wake_waking id e w : tracked id e w -> waking id e (begin_wake w e).
Proof.
  intros Ht. destruct (tracked_entry _ _ _ Ht) as (x & Hx & _). destruct Ht as [Hw Hid].
  unfold begin_wake. rewrite (get_entry_heap _ _ _ Hx). cbn [make_chan].
  pose proof (wf_make_chan _ _ (wf_except_weaken _ e Hw)) as Hw1. cbn [make_chan fst] in Hw1.
  split_and!; [|done|].
  - apply wf_put with (x := x); [done|done|by left|right].
    intros c Hc. cbn in Hc |- *. simplify_eq. split; [lia|]. intros e' y Hy Hyc.
    destruct Hw as [Hb _]. specialize (base_chan w Hb _ _ _ Hy Hyc). lia.
  - eexists _, (next w). cbn. simplify_map_eq. done.
Qed.

(** The common end of a wake: close the channel, write back entry [x']. *)
Lemma finish_wake id e w x x' c :
  wf_except (Some e) w -> sandboxes w !! id = Some e -> heap w !! e = Some x ->
  wakeCh x = Some c -> chans w !! c = Some false ->
  timer x' = timer x -> timeout x' = timeout x -> wakeCh x' = None ->
  (wakeErr x' <> None -> state x' = StateHibernated \/ state x' = StatePaused) ->
  (wakeErr x' = None -> state x' = StateRunning /\ state x = StateRunning /\ wf w) ->
  exists w', close_chan w (Some c) = Some w' /\ settled id e (put_entry w' e x').
Proof.
  intros Hw Hid Hx Hc Hop Ht Htm Hn Hs Hr.
  destruct (wf_close _ _ _ _ Hw Hx Hc Hop) as (w' & Hcl & Hw' & Hsb & Hh & Htms).
  exists w'. split; [done|].
  assert (Hw'' : wf_except (Some e) (put_entry w' e x')).
  { apply wf_put with (x := x); [done|by rewrite Hh|by left|right; by apply fresh_none]. }
  assert (Hget : heap (put_entry w' e x') !! e = Some x') by (cbn; by simplify_map_eq).
  unfold settled, tracked. rewrite (get_entry_heap _ _ _ Hget).
  assert (Hid' : sandboxes (put_entry w' e x') !! id = Some e) by (cbn; by rewrite Hsb).
  destruct (wakeErr x') as [r|].
  - split_and!; [|done|done]. eapply wf_stable; [done|done|]. by apply Hs.
  - destruct (Hr eq_refl) as (Hrun' & Hrun & Hwf). split_and!; [|done|done].
    eapply wf_restore; [done|]. intros id' y Hid1 Hy. assert (y = x') as -> by congruence.
    assert (id' = id) as -> by (destruct Hw'' as [Hb _]; by eapply (base_inj _ Hb)).
    destruct Hwf as [Hb Hg]. destruct (Hg id e x Hid Hx) as [G1 G2 G3]; [done|].
    split; cbn; rewrite ?Htms, ?Ht, ?Htm, ?Hrun'; try done. intros _. by apply G2.
Qed.

Lemma wake_done_triple id e er :
  triple (match er with Some _ => waking id e | None => woken id e end) (wake_done e er) (fun _ => settled id e).
Proof.
  apply triple_atom. intros w H.
  assert (exists x c, wf_except (Some e) w /\ sandboxes w !! id = Some e /\ heap w !! e = Some x /\
    wakeCh x = Some c /\ chans w !! c = Some false /\ (er = None -> state x = StateRunning /\ wf w))
    as (x & c & Hw & Hid & Hx & Hc & Hop & Hr).
  { destruct er; destruct H as (Hw & Hid & x & c & Hx & Hc & Hop); [by exists x, c; split_and!|].
    exists x, c. destruct Hop as [Hop Hs]. split_and!; try done. by apply wf_except_weaken. }
  rewrite (get_entry_heap _ _ _ Hx). cbn zeta.
  set (x1 := with_wake x (wakeCh x) er).
  set (x2 := match er with Some _ => with_state x1 StateHibernated | None => x1 end).
  assert (wakeCh x2 = Some c) as Hc2 by (subst x2 x1; by destruct er).
  destruct (finish_wake id e w x (with_wake x2 None (wakeErr x2)) c) as (w' & Hcl & Hset); try done.
  1-4: subst x2 x1; destruct er; cbn; auto; try done.
  { intros _. by destruct (Hr eq_refl). }
  rewrite Hc2, Hcl. eexists _, _. split; [done|]. apply triple_ret. by intros ? <-.
Qed.

Lemma doWake_triple id e : triple (waking id e) (doWake cfg id e) (fun _ => settled id e).
Proof.
  unfold doWake. destruct (negb _ || negb _); [apply (wake_done_triple id e (Some NotConfigured))|].
  eapply triple_bind; [apply triple_extc|]. intros [r|].
  { apply (wake_done_triple id e (Some _)). }
  eapply triple_bind; [by apply (triple_atomically _ (fun _ => waking id e))|]. intros secs. cbn zeta.
  eapply triple_bind; [apply triple_extc|]. intros er; destruct er as [r|]; [apply (wake_done_triple id e (Some r))|].
  eapply triple_bind; [apply triple_ext_|]. intros ?.
  eapply triple_bind; [apply triple_ext_|]. intros ?.
  eapply triple_bind; [|intros ?; apply (wake_done_triple id e None)].
  apply triple_atomically. intros w (Hw & Hid & x & c & Hx & Hc & Hop). cbn [fst snd].
  rewrite (get_entry_heap _ _ _ Hx).
  set (x1 := with_state x StateRunning).
  assert (Hw1 : wf_except (Some e) (put_entry w e x1)).
  { apply wf_put with (x := x); auto. }
  assert (Hx1 : heap (put_entry w e x1) !! e = Some x1) by (cbn; by simplify_map_eq).
  pose proof (wf_arm_running _ id e x1 Hw1 Hid Hx1 eq_refl) as Hwf.
  destruct (arm_facts _ e (timeout x) cb_onTimeout id x1 Hx1)
    as (Hsb & Hch & x' & Hh & S1 & S2 & S3 & _).
  split_and!; [done|by rewrite Hsb|]. exists x', c. rewrite Hh, Hch. split_and!; [by simplify_map_eq| |done|done].
  by rewrite S3.
Qed.

Lemma resume_done_triple id e er : triple (waking id e) (resume_done id e er) (fun _ => settled id e).
Proof.
  apply triple_atom. intros w (Hw & Hid & x & c & Hx & Hc & Hop).
  rewrite (get_entry_heap _ _ _ Hx). cbn zeta. set (x1 := with_wake x (wakeCh x) er).
  set (w1 := match er with Some _ => _ | None => _ end).
  assert (exists x2, heap w1 !! e = Some x2 /\ wf_except (Some e) w1 /\ sandboxes w1 !! id = Some e /\
    wakeCh x2 = Some c /\ chans w1 !! c = Some false /\ wakeErr x2 = er /\
    (er <> None -> state x2 = StatePaused) /\ (er = None -> state x2 = StateRunning /\ wf w1))
    as (x2 & Hx2 & Hw2 & Hid2 & Hc2 & Hop2 & Her & Hs & Hr).
  { subst w1. destruct er as [r|].
    - exists (with_state x1 StatePaused). cbn. split_and!; try done; [by simplify_map_eq|].
      apply wf_put with (x := x); auto.
    - set (x' := with_state x1 StateRunning).
      assert (Hw1 : wf_except (Some e) (put_entry w e x')) by (apply wf_put with (x := x); auto).
      assert (Hx1 : heap (put_entry w e x') !! e = Some x') by (cbn; by simplify_map_eq).
      pose proof (wf_arm_running _ id e x' Hw1 Hid Hx1 eq_refl) as Hwf.
      destruct (arm_facts _ e (timeout x) cb_onTimeout id x' Hx1)
        as (Hsb & Hch & x2 & Hh & S1 & S2 & S3 & S4 & _).
      exists x2. change (timeout x1) with (timeout x'). cbn [x' x1 with_state with_wake timeout] in *.
      rewrite Hh, Hsb, Hch. split_and!; try done; [by simplify_map_eq|by apply wf_except_weaken|by rewrite S3]. }
  rewrite (get_entry_heap _ _ _ Hx2), Hc2.
  destruct (finish_wake id e w1 x2 (with_wake x2 None (wakeErr x2)) c) as (w' & Hcl & Hset); try done.
  - cbn. rewrite Her. auto.
  - cbn. rewrite Her. intros H. by destruct (Hr H).
  - rewrite Hcl. eexists _, _. split; [done|]. apply triple_ret. by intros ? <-.
Qed.

Lemma doResume_triple id e : triple (waking id e) (doResume cfg id e) (fun _ => settled id e).
Proof.
  unfold doResume. destruct (pausable cfg); [|apply resume_done_triple].
  eapply triple_bind; [apply triple_extc|]. intros er; destruct er as [r|]; [apply resume_done_triple|].
  eapply triple_bind; [apply triple_when_ext|]. intros ?.
  eapply triple_bind; [apply triple_when_ext|]. intros ?. apply resume_done_triple.
Qed.

Lemma ensure_section_triple id e :
  triple (tracked id e) (ensure_section e) (fun p w =>
    match p with
    | PReady => tracked id e w /\ state (get_entry w e) = StateRunning
    | PWake | PResume => waking id e w
    | PWaitWake _ => False
    | PWaitCreate ch => tracked id e w /\ is_closed w ch = false
    end).
Proof.
  apply triple_atomically. intros w Ht. destruct (tracked_entry _ _ _ Ht) as (x & Hx & [G1 G2 G3]).
  pose proof (begin_wake_waking _ _ _ Ht) as Hb. cbn beta zeta. rewrite (get_entry_heap _ _ _ Hx).
  destruct (state x) eqn:Es; cbn [fst snd]; try done.
  - split; [done|]. by rewrite (get_entry_heap _ _ _ Hx).
  - by destruct G1.
  - split; [done|]. destruct (G3 eq_refl) as (c & -> & Hc). cbn. by rewrite Hc.
Qed.

Lemma wake_result_triple id e wrap :
  triple (settled id e) (wake_result e wrap)
    (fun er w => tracked id e w /\ (er = None -> state (get_entry w e) = StateRunning)).
Proof.
  apply triple_atomically. intros w [Ht Hs]. cbn. split; [done|]. intros H. apply Hs.
  by destruct (wakeErr _).
Qed.

Lemma ensure_tracked_triple id e :
  triple (tracked id e) (ensure_tracked cfg id e)
    (fun er w => tracked id e w /\ (er = None -> state (get_entry w e) = StateRunning)).
Proof.
  eapply triple_bind; [apply ensure_section_triple|]. intros [| | |ch|ch]; cbn beta iota.
  - apply triple_ret. intros w [? ?]. auto.
  - eapply triple_bind; [apply doWake_triple|]. intros ?. apply wake_result_triple.
  - eapply triple_bind; [apply doResume_triple|]. intros ?. apply wake_result_triple.
  - by intros o w Hw.
  - intros o w [Ht Hc]. cbn. rewrite Hc. cbn. eexists _, _, _. split; [done|]. by split.
Qed.

Lemma MarkHibernated_triple id d : triple wf (MarkHibernated cfg id d) (fun _ => wf).
Proof.
  eapply triple_bind with (R := fun oe w => wf w /\ forall e, oe = Some e -> sandboxes w !! id = Some e).
  - apply triple_atomically. intros w Hw. destruct (sandboxes w !! id) as [e|] eqn:E; cbn [fst snd].
    + split; [done|]. by intros ? [= ->].
    + split; [|done]. eapply wf_stable; [|apply new_entry_heap|by left].
      eapply wf_new; [done|done|done|by apply fresh_none].
  - intros [e|]; [|by apply triple_ret; intros w [? _]].
    apply triple_atomically. intros w [Hw He]. specialize (He e eq_refl). cbn [fst snd].
    destruct (tracked_entry id e w) as (x & Hx & _); [by split|]. rewrite (get_entry_heap _ _ _ Hx).
    pose proof (wf_stop _ _ _ (wf_except_weaken _ e Hw) Hx) as Hw1.
    assert (Hx1 : heap (Stop w (timer x)) !! e = Some x) by (by destruct (timer x)).
    eapply wf_stable; [|cbn; by simplify_map_eq|by left].
    eapply wf_put; [done|done|by right|by left].
Qed.

Lemma ensureRunning_triple fuel id :
  triple wf (ensureRunning cfg fuel id) (fun er w => wf w /\
    (er = None -> forall e, sandboxes w !! id = Some e -> state (get_entry w e) = StateRunning)).
Proof.
  assert (Hcut : forall e, triple (fun w => wf w /\ sandboxes w !! id = Some e) (ensure_tracked cfg id e)
    (fun er w => wf w /\
      (er = None -> forall e, sandboxes w !! id = Some e -> state (get_entry w e) = StateRunning))).
  { intros e. eapply triple_post; [apply ensure_tracked_triple|]. intros er w [[? Hid] Hs]. split; [done|].
    intros -> e' He'. assert (e' = e) as -> by congruence. auto. }
  induction fuel as [|fuel IH]; cbn [ensureRunning];
    (eapply triple_bind; [apply triple_lookup|]; intros [e|]; [apply Hcut|];
     destruct (negb _ || negb _); [apply triple_ret; intros w [? ?]; split; [done|congruence]|];
     eapply triple_bind; [apply triple_extc|]; intros [r|];
     [apply triple_ret; intros w [? ?]; split; [done|congruence]|];
     eapply triple_bind;
       [eapply triple_weaken; [|apply MarkHibernated_triple]; by intros w [? _]|]; intros ?).
  - apply triple_ret. by intros w Hw.
  - apply IH.
Qed.

Lemma resetTimeout_triple id : triple wf (resetTimeout id) (fun _ => wf).
Proof.
  eapply triple_bind; [apply triple_lookup|]. intros [e|]; [|by apply triple_ret; intros w [? _]].
  apply triple_atomically. intros w Ht. destruct (tracked_entry id e w Ht) as (x & Hx & _).
  destruct Ht as [Hw Hid]. cbn beta zeta. rewrite (get_entry_heap _ _ _ Hx).
  destruct (decide _) as [Hs|]; [|done]. cbn [fst].
  pose proof (wf_stop _ _ _ (wf_except_weaken _ e Hw) Hx) as Hw1.
  apply wf_arm_running; [done| | |done]; by destruct (timer x).
Qed.

Lemma Route_triple fuel id op : triple wf (Route cfg [] fuel id op) (fun _ => wf).
Proof.
  eapply triple_bind; [apply ensureRunning_triple|]. intros [r|].
  { apply triple_ret. by intros w [? _]. }
  eapply triple_bind; [apply triple_extc|]. intros er.
  eapply triple_bind; [eapply triple_weaken; [|apply resetTimeout_triple]; by intros w [? _]|].
  intros ?. by apply triple_ret.
Qed.

Lemma Register_triple id d : triple wf (Register cfg id d) (fun _ => wf).
Proof.
  apply triple_atomically. intros w Hw. cbn [fst]. set (d' := if d <=? 0 then _ else _).
  set (w1 := match sandboxes w !! id with Some e => _ | None => _ end).
  assert (exists ex, wf_except ex w1 /\ forall e, ex = Some e -> sandboxes w1 !! id = Some e) as (ex & Hw1 & Hex).
  { subst w1. destruct (sandboxes w !! id) as [e|] eqn:E; [|by exists None].
    destruct (tracked_entry id e w) as (x & Hx & _); [by split|]. rewrite (get_entry_heap _ _ _ Hx).
    exists (Some e). split; [by apply wf_stop, Hx; apply wf_except_weaken|].
    intros ? [= <-]. by destruct (timer x). }
  set (x := Build_sandboxEntry _ _ _ _ _ _).
  apply (wf_arm_running _ id (next w1) x); [|cbn; by simplify_map_eq|apply new_entry_heap|done].
  eapply wf_new; [done|done|done|by apply fresh_none].
Qed.

Lemma RegisterCreating_triple id d : triple wf (RegisterCreating cfg id d) (fun _ => wf).
Proof.
  apply triple_atomically. intros w Hw. cbn [make_chan fst]. set (d' := if _ && _ then _ else _).
  set (w1 := Build_world _ _ _ _ _). set (x := Build_sandboxEntry _ _ _ _ _ _).
  assert (Hw1 : wf_except None w1) by by apply (wf_make_chan None w).
  assert (Hfr : fresh_chan w1 x).
  { intros c Hc. cbn in Hc. simplify_eq. cbn. split; [lia|]. intros e y Hy Hyc.
    destruct Hw as [Hb _]. specialize (base_chan w Hb _ _ _ Hy Hyc). lia. }
  pose proof (wf_new None w1 id x Hw1 ltac:(done) eq_refl Hfr) as Hw2.
  eapply wf_restore; [done|]. intros id' y _ Hy. rewrite new_entry_heap in Hy. simplify_eq.
  split; [done|done|]. intros _. exists (next w). cbn. by simplify_map_eq.
Qed.

Lemma MarkCreated_triple id er : triple wf (MarkCreated id er) (fun _ => wf).
Proof.
  eapply triple_bind; [apply triple_lookup|]. intros [e|]; [|by apply triple_ret; intros w [? _]].
  apply triple_atom. intros w Ht. destruct (tracked_entry id e w Ht) as (x & Hx & [G1 G2 G3]).
  destruct Ht as [Hw Hid]. rewrite (get_entry_heap _ _ _ Hx). cbn zeta.
  destruct (decide _) as [Hs|].
  2: { eexists _, _. split; [done|]. apply triple_ret. by intros ? <-. }
  destruct (G3 Hs) as (c & Hc & Hop). rewrite Hc. cbn [close_chan].
  set (w1 := match er with Some _ => _ | None => _ end).
  assert (wf w1 /\ exists y, heap w1 !! e = Some y /\ wakeCh y = Some c /\ chans w1 !! c = Some false /\
    state y <> StateCreating) as (Hw1 & y & Hy & Hyc & Hyo & Hys).
  { subst w1. pose proof (wf_except_weaken _ e Hw) as Hwe. destruct er as [r|].
    - set (y := with_state _ _). assert (Hy : heap (put_entry w e y) !! e = Some y) by (cbn; by simplify_map_eq).
      split; [|by exists y]. eapply wf_stable; [|done|by left]. eapply wf_put; [done|done|by left|by left].
    - set (y := with_state _ _). assert (Hy : heap (put_entry w e y) !! e = Some y) by (cbn; by simplify_map_eq).
      destruct (arm_facts (put_entry w e y) e (timeout x) cb_onTimeout id y Hy)
        as (Hsb & Hch & y' & Hh & S1 & S2 & S3 & _).
      split; [|exists y'; rewrite Hh, Hch, S1, S3; split_and!; try done; by simplify_map_eq].
      apply (wf_arm_running _ id e y); [|done|done|done]. eapply wf_put; [done|done|by left|by left]. }
  destruct (wf_close w1 e y c (wf_except_weaken _ e Hw1) Hy Hyc Hyo) as (w' & Hcl & Hw' & Hsb & Hh & Htm).
  cbn [close_chan] in Hcl. rewrite Hcl. eexists _, _. split; [done|]. apply triple_ret. intros ? <-.
  eapply wf_restore; [done|]. intros id' y' Hid' Hy'. rewrite Hh in Hy'. rewrite Hsb in Hid'. simplify_eq.
  destruct Hw1 as [_ Hg]. eapply good_frame; [by eapply Hg|by rewrite Htm|done].
Qed.

(** Box [id] at entry [e] may be in any state. *)
Definition busy (id : string) (e : nat) (w : world) : Prop :=
  wf_except (Some e) w /\ sandboxes w !! id = Some e.

Lemma Unregister_triple id :
  triple (fun w => wf w \/ exists e, busy id e w) (Unregister id) (fun _ => wf).
Proof.
  eapply triple_bind with (R := fun oe w => wf w /\ forall e, oe = Some e -> is_Some (heap w !! e) /\
    forall id', sandboxes w !! id' <> Some e).
  - apply triple_atomically. intros w Hw.
    assert (base w) as Hb by (destruct Hw as [[? _]|(e & [? _] & _)]; done). split.
    + split; [destruct Hb as [B1 B2 B3 B4 B5 B6 B7]; split; cbn; try done|].
      * intros id' e He. apply lookup_delete_Some in He as [_ He]. eauto.
      * intros id1 id2 e H1 H2. apply lookup_delete_Some in H1 as [_ H1], H2 as [_ H2]. eauto.
      * cbn. intros id' e x He Hx _. apply lookup_delete_Some in He as [Hne He].
        destruct Hw as [[_ Hg]|(e' & [_ Hg] & Hid)]; (eapply good_frame; [eapply Hg|..]); try done.
        intros [= ->]. apply Hne. by eapply (base_inj w Hb).
    + cbn. intros e He. split; [by eapply base_tracked|]. intros id' Hid'.
      apply lookup_delete_Some in Hid' as [Hne Hid']. apply Hne. by eapply (base_inj w Hb).
  - intros [e|]; [|by apply triple_ret; intros w [? _]].
    apply triple_atomically. intros w [Hw He]. destruct (He e eq_refl) as [[x Hx] Hno]. cbn [fst].
    rewrite (get_entry_heap _ _ _ Hx). eapply (wf_restore _ e).
    + apply wf_stop; [by apply wf_except_weaken|done].
    + intros id' y Hid' _. exfalso. apply (Hno id'). by destruct (timer x).
Qed.

Lemma stop_tracked id e x w :
  wf_except (Some e) w -> sandboxes w !! id = Some e -> heap w !! e = Some x ->
  wf_except (Some e) (Stop w (timer x)) /\ sandboxes (Stop w (timer x)) !! id = Some e /\
  heap (Stop w (timer x)) !! e = Some x.
Proof. intros Hw Hid Hx. split; [by apply wf_stop|]. by destruct (timer x). Qed.

Lemma SetTimeout_triple id d : triple wf (SetTimeout id d) (fun _ => wf).
Proof.
  eapply triple_bind; [apply triple_lookup|]. intros [e|]; [|by apply triple_ret; intros w [? _]].
  apply triple_atomically. intros w Ht. destruct (tracked_entry id e w Ht) as (x & Hx & [G1 G2 G3]).
  destruct Ht as [Hw Hid]. cbn [fst]. rewrite (get_entry_heap _ _ _ Hx).
  destruct (stop_tracked id e x w (wf_except_weaken _ e Hw) Hid Hx) as (Hw1 & Hid1 & Hx1).
  set (y := with_timer (with_timeout x d) None).
  assert (Hw2 : wf_except (Some e) (put_entry (Stop w (timer x)) e y))
    by (eapply wf_put; [done|done|by right|by left]).
  assert (Hy : heap (put_entry (Stop w (timer x)) e y) !! e = Some y) by (cbn; by simplify_map_eq).
  destruct (decide _) as [Hs|Hs]; [by apply (wf_arm_running _ id e y)|].
  eapply wf_restore; [done|]. intros id' z _ Hz. assert (z = y) as -> by congruence.
  split; cbn; try done. intros Hc. destruct (G3 Hc) as (c & ? & ?). exists c. split; [done|].
  by destruct (timer x).
Qed.

Lemma Close_triple : triple wf Close (fun _ => wf).
Proof.
  apply triple_atomically. intros w [Hb _]. cbn [fst].
  set (w' := map_fold _ _ _).
  assert (heap w' = heap w /\ next w' = next w) as [Hh Hn].
  { subst w'. apply (map_fold_weak_ind (fun w' _ => heap w' = heap w /\ next w' = next w)); [done|].
    intros id e m w' _ [IH1 IH2]. unfold Stop. by destruct (timer _). }
  split; [|cbn; intros id e x H; by rewrite lookup_empty in H].
  destruct Hb as [B1 B2 B3 B4 B5 B6 B7]. split; cbn; rewrite ?Hh, ?Hn; try done;
    intros *; rewrite lookup_empty; discriminate.
Qed.

Lemma settle_triple id e s :
  s = StateHibernated \/ s = StatePaused -> triple (busy id e) (settle e s) (fun _ => wf).
Proof.
  intros Hs. apply triple_atomically. intros w [Hw Hid]. cbn [fst].
  destruct (base_tracked w (proj1 Hw) _ _ Hid) as [x Hx]. rewrite (get_entry_heap _ _ _ Hx).
  eapply wf_stable; [|cbn; by simplify_map_eq|done]. eapply wf_put; [done|done|by right|by left].
Qed.

Lemma armPromoteTimer_triple id : triple wf (armPromoteTimer cfg id) (fun _ => wf).
Proof.
  unfold armPromoteTimer. destruct (_ <=? 0); [by apply triple_ret|].
  eapply triple_bind; [apply triple_lookup|]. intros [e|]; [|by apply triple_ret; intros w [? _]].
  apply triple_atomically. intros w Ht. destruct (tracked_entry id e w Ht) as (x & Hx & _).
  destruct Ht as [Hw Hid]. cbn beta zeta. rewrite (get_entry_heap _ _ _ Hx).
  destruct (noPromote x); [done|]. destruct (decide _) as [Hs|]; [|done]. cbn [fst].
  destruct (stop_tracked id e x w (wf_except_weaken _ e Hw) Hid Hx) as (Hw1 & Hid1 & Hx1).
  destruct (arm_facts _ e (pausePromoteAfter cfg) cb_promoteToDeep id x Hx1) as (_ & _ & x' & Hh & S1 & _).
  eapply wf_stable; [by eapply wf_arm|rewrite Hh; by apply lookup_insert_eq|]. right. congruence.
Qed.

Lemma MarkPooled_triple id : triple wf (MarkPooled id) (fun _ => wf).
Proof.
  eapply triple_bind; [apply triple_lookup|]. intros [e|]; [|by apply triple_ret; intros w [? _]].
  apply triple_atomically. intros w Ht. destruct (tracked_entry id e w Ht) as (x & Hx & _).
  destruct Ht as [Hw Hid]. cbn [fst]. rewrite (get_entry_heap _ _ _ Hx).
  destruct (stop_tracked id e x w (wf_except_weaken _ e Hw) Hid Hx) as (Hw1 & Hid1 & Hx1).
  eapply wf_stable; [|cbn; by simplify_map_eq|by right]. eapply wf_put; [done|done|by right|by left].
Qed.

Lemma MarkPaused_triple id : triple wf (MarkPaused cfg id) (fun _ => wf).
Proof.
  eapply triple_bind; [apply triple_lookup|]. intros [e|]; [|by apply triple_ret; intros w [? _]].
  eapply triple_bind with (R := fun _ => wf).
  - apply triple_atomically. intros w Ht. destruct (tracked_entry id e w Ht) as (x & Hx & _).
    destruct Ht as [Hw Hid]. cbn [fst]. rewrite (get_entry_heap _ _ _ Hx).
    destruct (stop_tracked id e x w (wf_except_weaken _ e Hw) Hid Hx) as (Hw1 & Hid1 & Hx1).
    eapply wf_stable; [|cbn; by simplify_map_eq|by right]. eapply wf_put; [done|done|by right|by left].
  - intros ?. eapply triple_bind; [apply armPromoteTimer_triple|]. intros ?. apply triple_when_ext.
Qed.

Lemma promoteToDeep_triple id : triple wf (promoteToDeep cfg id) (fun _ => wf).
Proof.
  eapply triple_bind; [apply triple_lookup|]. intros [e|]; [|by apply triple_ret; intros w [? _]].
  eapply triple_bind with (R := fun go w => if go : bool then busy id e w else wf w).
  { apply triple_atomically. intros w Ht. destruct (tracked_entry id e w Ht) as (x & Hx & _).
    destruct Ht as [Hw Hid]. cbn beta zeta. rewrite (get_entry_heap _ _ _ Hx). destruct (_ && _); cbn [fst snd]; [|done].
    split; [|done]. eapply wf_put; [by apply wf_except_weaken|done|by right|by left]. }
  intros [|]; cbn [negb]; [|by apply triple_ret].
  eapply triple_bind; [apply triple_extc|]. intros [r|].
  - apply triple_atomically. intros w [Hw Hid]. cbn [fst].
    destruct (base_tracked w (proj1 Hw) _ _ Hid) as [x Hx]. rewrite (get_entry_heap _ _ _ Hx).
    eapply wf_stable; [|cbn; by simplify_map_eq|by right]. eapply wf_put; [done|done|by left|by left].
  - eapply triple_bind; [apply triple_when_ext|]. intros ?.
    eapply triple_bind; [apply settle_triple; by left|]. intros ?. apply triple_when_ext.
Qed.

Lemma timeout_kill_triple id e : triple (busy id e) (timeout_kill cfg id) (fun _ => wf).
Proof.
  eapply triple_bind; [apply triple_ext_|]. intros ?.
  eapply triple_bind; [eapply triple_weaken; [|apply Unregister_triple]; intros w Hw; right; by exists e|]. intros ?. apply triple_when_ext.
Qed.

Lemma timeout_hibernate_triple id e : triple (busy id e) (timeout_hibernate cfg id e) (fun _ => wf).
Proof.
  unfold timeout_hibernate. destruct (checkpointStore cfg); [|apply timeout_kill_triple].
  eapply triple_bind; [apply triple_extc|]. intros er; destruct er; [apply timeout_kill_triple|].
  eapply triple_bind; [apply settle_triple; by left|]. intros ?. apply triple_when_ext.
Qed.

(** The world right after the idle timer of [id] fired: the router is intact,
    except that [id], if it runs, has no armed timer. *)
Definition fired (id : string) (w : world) : Prop :=
  wf_except (sandboxes w !! id) w /\
  forall e x, sandboxes w !! id = Some e -> heap w !! e = Some x -> state x <> StateRunning -> good w id x.

Lemma onTimeout_triple id : triple (fired id) (onTimeout cfg id) (fun _ => wf).
Proof.
  eapply triple_bind; [apply triple_lookup|]. intros [e|].
  2: { apply triple_ret. intros w [[Hf _] Hid]. by rewrite Hid in Hf. }
  eapply triple_bind with (R := fun go w => if go : bool then busy id e w else wf w).
  { apply triple_atomically. intros w [[Hw Hg] Hid]. rewrite Hid in Hw.
    destruct (base_tracked w (proj1 Hw) _ _ Hid) as [x Hx]. cbn beta zeta. rewrite (get_entry_heap _ _ _ Hx).
    destruct (decide _) as [Hs|Hs]; cbn [fst snd].
    - split; [|done]. eapply wf_put; [done|done|by left|by left].
    - eapply wf_restore; [done|]. intros id' y Hid' Hy. simplify_eq.
      assert (id' = id) as -> by (eapply (base_inj w (proj1 Hw)); done). by eapply Hg. }
  intros [|]; cbn [negb]; [|by apply triple_ret].
  destruct (pausable cfg); [|apply timeout_hibernate_triple].
  eapply triple_bind; [apply triple_extc|]. intros [r|]; [apply timeout_hibernate_triple|].
  eapply triple_bind; [apply triple_when_ext|]. intros ?.
  eapply triple_bind; [apply settle_triple; by right|]. intros ?.
  eapply triple_bind; [apply armPromoteTimer_triple|]. intros ?. apply triple_when_ext.
Qed.

(** A timer that fires leaves the pending set before its callback runs. *)
Lemma fire_triple t p :
  triple (fun w => exists w0, wf w0 /\ timers w0 !! t = Some p /\ w = Stop w0 (Some t))
    (run_callback cfg p) (fun _ => wf).
Proof.
  destruct p as [d [|] id]; unfold run_callback; cbn [t_cb t_box].
  - eapply triple_weaken; [|apply onTimeout_triple]. intros w (w0 & [Hb Hg] & Ht & ->). split.
    + split; [by destruct Hb; split|]. cbn. intros id' e x Hid Hx Hne.
      destruct (Hg id' e x Hid Hx ltac:(done)) as [G1 G2 G3]. split; [done| |done].
      intros Hs Hd. destruct (G2 Hs Hd) as (t2 & Ht2 & Hp). exists t2. split; [done|]. cbn.
      rewrite lookup_delete_ne; [done|]. intros <-. apply Hne. by simplify_eq.
    + cbn. intros e x Hid Hx Hs. eapply good_frame; [by eapply Hg|by intros|done].
  - eapply triple_weaken; [|apply promoteToDeep_triple]. intros w (w0 & [Hb Hg] & Ht & ->).
    split; [by destruct Hb; split|]. cbn. intros id' e x Hid Hx Hne.
    destruct (Hg id' e x Hid Hx Hne) as [G1 G2 G3]. split; [done| |done].
    intros Hs Hd. destruct (G2 Hs Hd) as (t2 & Ht2 & Hp). exists t2. split; [done|]. cbn.
    rewrite lookup_delete_ne; [done|]. intros ->. congruence.
Qed.

End Preserve.
(** ** Histories *)

(** One event at the router: a call of its API or a timer that fires, each run
    to completion. *)
Inductive event :=
| ERegister (id : string) (d : Z)
| ERegisterCreating (id : string) (d : Z)
| EMarkCreated (id : string) (er : err)
| EUnregister (id : string)
| EMarkHibernated (id : string) (d : Z)
| EMarkPooled (id : string)
| EMarkPaused (id : string)
| ERoute (id op : string)
| ETouch (id : string)
| ESetTimeout (id : string) (d : Z)
| EGetState (id : string)
| EClose
| EFire (t : nat).

Definition drop_result {A} (p : prog A) : prog unit := bind p (fun _ => Ret tt).

(** The fuel of [ensureRunning]: run to completion, the entry that
    [MarkHibernated] creates is found at the first retry. *)
Definition route_fuel : nat := 1.

Definition event_prog (cfg : RouterConfig) (ev : event) : prog unit :=
  match ev with
  | ERegister id d => Register cfg id d
  | ERegisterCreating id d => RegisterCreating cfg id d
  | EMarkCreated id er => MarkCreated id er
  | EUnregister id => Unregister id
  | EMarkHibernated id d => MarkHibernated cfg id d
  | EMarkPooled id => MarkPooled id
  | EMarkPaused id => MarkPaused cfg id
  | ERoute id op => drop_result (Route cfg [] route_fuel id op)
  | ETouch id => Touch id
  | ESetTimeout id d => SetTimeout id d
  | EGetState id => drop_result (GetState id)
  | EClose => Close
  | EFire _ => Ret tt
  end.

Definition handle (cfg : RouterConfig) (o : call -> err) (w : world) (ev : event) : option world :=
  match ev with
  | EFire t =>
      match timers w !! t with
      | Some p => match run o (Stop w (Some t)) (run_callback cfg p) with
                  | Some (w, _, _) => Some w
                  | None => None
                  end
      | None => Some w
      end
  | _ => match run o w (event_prog cfg ev) with
         | Some (w, _, _) => Some w
         | None => None
         end
  end.

Fixpoint history (cfg : RouterConfig) (w : world) (l : list ((call -> err) * event)) : option world :=
  match l with
  | [] => Some w
  | (o, ev) :: l => match handle cfg o w ev with
                    | Some w => history cfg w l
                    | None => None
                    end
  end.

(** [NewSandboxRouter] *)
Definition NewSandboxRouter : world :=
  {| sandboxes := ∅; heap := ∅; timers := ∅; chans := ∅; next := 0 |}.

Lemma wf_new_router : wf NewSandboxRouter.
Proof. split; [split|]; cbn; intros *; rewrite lookup_empty; try done. Qed.

Lemma drop_triple {A} P (p : prog A) Q : triple P p Q -> (forall a w, Q a w -> wf w) ->
  triple P (drop_result p) (fun _ => wf).
Proof. intros Hp HQ. eapply triple_bind; [done|]. intros a. apply triple_ret. eauto. Qed.

Lemma event_triple cfg ev : triple wf (event_prog cfg ev) (fun _ => wf).
Proof.
  destruct ev; cbn [event_prog].
  - apply Register_triple.
  - apply RegisterCreating_triple.
  - apply MarkCreated_triple.
  - eapply triple_weaken; [|apply Unregister_triple]. intros w Hw. by left.
  - apply MarkHibernated_triple.
  - apply MarkPooled_triple.
  - apply MarkPaused_triple.
  - eapply drop_triple; [apply Route_triple|done].
  - apply resetTimeout_triple.
  - apply SetTimeout_triple.
  - eapply (drop_triple _ _ (fun _ => wf)); [|done].
    eapply triple_bind; [apply triple_lookup|]. intros [e|]; [|by apply triple_ret; intros w [? _]].
    apply triple_atomically. by intros w [? _].
  - apply Close_triple.
  - by apply triple_ret.
Qed.

Lemma handle_wf cfg o w ev : wf w -> exists w', handle cfg o w ev = Some w' /\ wf w'.
Proof.
  intros Hw. assert (Hev : forall ev, exists w', match run o w (event_prog cfg ev) with
    | Some (w, _, _) => Some w | None => None end = Some w' /\ wf w').
  { intros ev'. destruct (event_triple cfg ev' o w Hw) as (w' & a & l & -> & ?). eauto. }
  destruct ev; try apply (Hev (_)). cbn [handle].
  destruct (timers w !! t) as [p|] eqn:Et; [|eauto].
  destruct (fire_triple cfg t p o (Stop w (Some t))) as (w' & a & l & -> & ?); eauto.
Qed.

(** C1. From a new router, any sequence of API calls and timer expiries, each run
    to completion and with any answers of the manager and the database, never
    panics and ends in an intact router: every tracked box is in a stable state
    (none is left waking or hibernating), every running box with a timeout has
    its idle timer armed with exactly that timeout, every box being created has
    its ready channel open, and no two boxes share a timer or a channel. *)
Theorem sequential_histories_safe cfg l :
  exists w, history cfg NewSandboxRouter l = Some w /\ wf w.
Proof.
  assert (H : forall w, wf w -> exists w', history cfg w l = Some w' /\ wf w').
  { induction l as [|[o ev] l IH]; intros w Hw; [by exists w|]. cbn.
    destruct (handle_wf cfg o w ev Hw) as (w1 & -> & Hw1). by apply IH. }
  apply H, wf_new_router.
Qed.

(** ** What a routed operation does, as an automaton over the box's state *)

(** [route_spec]: new state, returned error and outside calls of a routed
    operation on a box in state [s]; [secs] is the timeout handed to the wake. *)
Definition route_spec (cfg : RouterConfig) (o : call -> err) (id op : string) (secs : Z) (s : SandboxState) :
  SandboxState * err * list call :=
  let run_op pre := (StateRunning, o (Op id op), pre ++ [Op id op]) in
  match s with
  | StateRunning => run_op []
  | StateHibernated | StateHibernating =>
      if store cfg && checkpointStore cfg then
        match o (GetActiveHibernation id), o (Wake id secs) with
        | Some x, _ => (StateHibernated, Some (AutoWakeFailed (NoActiveHibernation x)), [GetActiveHibernation id])
        | None, Some x => (StateHibernated, Some (AutoWakeFailed x), [GetActiveHibernation id; Wake id secs])
        | None, None => run_op [GetActiveHibernation id; Wake id secs; MarkHibernationRestored id;
                                UpdateSandboxSessionForWake id]
        end
      else (StateHibernated, Some (AutoWakeFailed NotConfigured), [])
  | StatePaused =>
      if pausable cfg then
        match o (Resume id) with
        | Some x => (StatePaused, Some (AutoResumeFailed x), [Resume id])
        | None => run_op (Resume id :: (if store cfg then [SetSandboxResumed id] else []) ++
                                        (if onResume cfg then [OnResume id] else []))
        end
      else (StatePaused, Some (AutoResumeFailed ResumeUnsupported), [])
  | StateWaking | StateCreating => (s, Some CtxErr, [])
  end.

(** The timeout, in seconds, a wake passes on. *)
Definition wake_seconds (cfg : RouterConfig) (d : Z) : Z :=
  if int_seconds d <=? 0 then int_seconds (defaultTimeout cfg) else int_seconds d.

Lemma get_put w e x : get_entry (put_entry w e x) e = x.
Proof. apply get_entry_heap. cbn. apply lookup_insert_eq. Qed.

Lemma get_arm w e x d cb id : heap w !! e = Some x ->
  exists t, get_entry (arm w e d cb id) e = with_timer x t /\
    heap (arm w e d cb id) !! e = Some (with_timer x t) /\
    sandboxes (arm w e d cb id) = sandboxes w /\ chans (arm w e d cb id) = chans w.
Proof.
  intros Hx. destruct (arm_facts w e d cb id x Hx) as (H1 & H2 & x' & H3 & H4 & H5 & H6 & H7 & H8 & _).
  exists (timer x'). assert (x' = with_timer x (timer x')) as <-.
  { destruct x, x'; cbn in *. by subst. }
  rewrite H3, lookup_insert_eq. split_and!; try done. unfold get_entry. by rewrite H3, lookup_insert_eq.
Qed.

Lemma run_reset o w id e x :
  sandboxes w !! id = Some e -> heap w !! e = Some x -> state x = StateRunning ->
  exists w', run o w (resetTimeout id) = Some (w', tt, []) /\
    sandboxes w' = sandboxes w /\ exists t, get_entry w' e = with_timer x t.
Proof.
  intros Hid Hx Hs. unfold resetTimeout. cbn. rewrite Hid. cbn.
  rewrite (get_entry_heap _ _ _ Hx), decide_True by done. cbn. eexists. split; [done|].
  assert (heap (Stop w (timer x)) !! e = Some x) as Hx' by (by destruct (timer x)).
  destruct (get_arm _ e x (timeout x) cb_onTimeout id Hx') as (t & Ht & _ & Hsb & _).
  rewrite Hsb. split; [by destruct (timer x)|eauto].
Qed.

(** The wake cycle of a tracked box, as one run. *)
Lemma run_doWake cfg o w id e x :
  sandboxes w !! id = Some e -> heap w !! e = Some x ->
  let secs := wake_seconds cfg (timeout x) in
  let '(s', er, l) :=
    if store cfg && checkpointStore cfg then
      match o (GetActiveHibernation id), o (Wake id secs) with
      | Some x, _ => (StateHibernated, Some (NoActiveHibernation x), [GetActiveHibernation id])
      | None, Some x => (StateHibernated, Some x, [GetActiveHibernation id; Wake id secs])
      | None, None => (StateRunning, None, [GetActiveHibernation id; Wake id secs;
                         MarkHibernationRestored id; UpdateSandboxSessionForWake id])
      end
    else (StateHibernated, Some NotConfigured, []) in
  exists w' x', run o (begin_wake w e) (doWake cfg id e) = Some (w', tt, l) /\
    sandboxes w' = sandboxes w /\ heap w' !! e = Some x' /\ state x' = s' /\ wakeErr x' = er.
Proof.
  intros Hid Hx. cbn zeta.
  set (w1 := begin_wake w e).
  assert (exists x1, heap w1 !! e = Some x1 /\ sandboxes w1 = sandboxes w /\ wakeCh x1 = Some (next w) /\
    chans w1 !! next w = Some false /\ timeout x1 = timeout x) as (x1 & Hx1 & Hsb & Hc & Hop & Htm).
  { subst w1. unfold begin_wake. rewrite (get_entry_heap _ _ _ Hx). cbn. eexists. simplify_map_eq.
    split_and!; done. }
  assert (Hdone : forall w2 x2 er, heap w2 !! e = Some x2 -> wakeCh x2 = Some (next w) ->
    chans w2 !! next w = Some false -> sandboxes w2 = sandboxes w ->
    exists w' x', run o w2 (wake_done e er) = Some (w', tt, []) /\ sandboxes w' = sandboxes w /\
      heap w' !! e = Some x' /\ wakeErr x' = er /\
      state x' = match er with Some _ => StateHibernated | None => state x2 end).
  { intros w2 x2 er H1 H2 H3 H4. unfold wake_done. cbn [run]. rewrite (get_entry_heap _ _ _ H1). cbn zeta.
    destruct er; cbn [with_wake with_state wakeCh wakeErr]; rewrite H2; cbn [close_chan]; rewrite H3;
      (eexists _, _; split; [reflexivity|]; cbn; rewrite lookup_insert_eq; split_and!; done). }
  unfold doWake. rewrite <- negb_andb. destruct (store cfg && checkpointStore cfg); cbn [negb].
  2: { destruct (Hdone w1 x1 (Some NotConfigured)) as (w' & x' & -> & ? & ? & ? & ?); try done.
       by exists w', x'. }
  rewrite run_bind. cbn [ext run]. destruct (o (GetActiveHibernation id)) as [r|] eqn:Eg.
  { destruct (Hdone w1 x1 (Some (NoActiveHibernation r))) as (w' & x' & -> & ? & ? & ? & ?); try done.
    by exists w', x'. }
  rewrite run_bind. cbn [atomically run]. rewrite (get_entry_heap _ _ _ Hx1), Htm. fold (wake_seconds cfg (timeout x)).
  rewrite run_bind. cbn [ext run]. destruct (o (Wake id _)) as [r|] eqn:Ew.
  { destruct (Hdone w1 x1 (Some r)) as (w' & x' & -> & ? & ? & ? & ?); try done. by exists w', x'. }
  rewrite run_bind. cbn [ext_ run]. rewrite run_bind. cbn [ext_ run]. rewrite run_bind. cbn [atomically run].
  rewrite (get_entry_heap _ _ _ Hx1).
  assert (Hx2 : heap (put_entry w1 e (with_state x1 StateRunning)) !! e = Some (with_state x1 StateRunning))
    by (cbn; apply lookup_insert_eq).
  destruct (get_arm _ e _ (timeout x1) cb_onTimeout id Hx2) as (t & _ & Hx3 & Hsb3 & Hch3).
  destruct (Hdone _ _ None Hx3) as (w' & x' & -> & ? & ? & ? & ?); try done.
  { by rewrite Hch3. }
  exists w', x'. split_and!; try done.
Qed.

Lemma run_doResume cfg o w id e x :
  sandboxes w !! id = Some e -> heap w !! e = Some x ->
  let '(s', er, l) :=
    if pausable cfg then
      match o (Resume id) with
      | Some x => (StatePaused, Some x, [Resume id])
      | None => (StateRunning, None, Resume id :: (if store cfg then [SetSandboxResumed id] else []) ++
                   (if onResume cfg then [OnResume id] else []))
      end
    else (StatePaused, Some ResumeUnsupported, []) in
  exists w' x', run o (begin_wake w e) (doResume cfg id e) = Some (w', tt, l) /\
    sandboxes w' = sandboxes w /\ heap w' !! e = Some x' /\ state x' = s' /\ wakeErr x' = er.
Proof.
  intros Hid Hx.
  set (w1 := begin_wake w e).
  assert (exists x1, heap w1 !! e = Some x1 /\ sandboxes w1 = sandboxes w /\ wakeCh x1 = Some (next w) /\
    chans w1 !! next w = Some false) as (x1 & Hx1 & Hsb & Hc & Hop).
  { subst w1. unfold begin_wake. rewrite (get_entry_heap _ _ _ Hx). cbn. eexists. simplify_map_eq.
    split_and!; done. }
  assert (Hdone : forall er,
    exists w' x', run o w1 (resume_done id e er) = Some (w', tt, []) /\ sandboxes w' = sandboxes w /\
      heap w' !! e = Some x' /\ wakeErr x' = er /\
      state x' = match er with Some _ => StatePaused | None => StateRunning end).
  { intros er. unfold resume_done. cbn [run]. rewrite (get_entry_heap _ _ _ Hx1). cbn zeta.
    set (x2 := with_state (with_wake x1 (wakeCh x1) er) (match er with Some _ => StatePaused | None => StateRunning end)).
    assert (Hx2 : heap (put_entry w1 e x2) !! e = Some x2) by (cbn; apply lookup_insert_eq).
    destruct (get_arm _ e _ (timeout x1) cb_onTimeout id Hx2) as (t & Hg3 & Hx3 & Hsb3 & Hch3).
    destruct er; cbn [timeout with_wake]; subst x2.
    - rewrite get_put. cbn [with_wake with_state wakeCh wakeErr]. rewrite Hc. cbn [close_chan].
      cbn [put_entry set_heap chans]. rewrite Hop.
      eexists _, _. split; [reflexivity|]. cbn. rewrite lookup_insert_eq. split_and!; done.
    - set (w3 := arm _ _ _ _ _) in *. clearbody w3. rewrite Hg3.
      cbn [with_wake with_state with_timer wakeCh wakeErr]. rewrite Hc. cbn [close_chan].
      rewrite Hch3. cbn [put_entry set_heap chans]. rewrite Hop.
      eexists _, _. split; [reflexivity|]. cbn. rewrite lookup_insert_eq. split_and!; try done.
  }
  unfold doResume. destruct (pausable cfg).
  2: { destruct (Hdone (Some ResumeUnsupported)) as (w' & x' & -> & ? & ? & ? & ?). by exists w', x'. }
  rewrite run_bind. cbn [ext run]. destruct (o (Resume id)) as [r|].
  { destruct (Hdone (Some r)) as (w' & x' & -> & ? & ? & ? & ?). by exists w', x'. }
  destruct (Hdone None) as (w' & x' & Hrun & ? & ? & ? & ?).
  destruct (store cfg), (onResume cfg); cbn [when]; repeat (rewrite run_bind; cbn [ext_ run]); rewrite Hrun;
    by exists w', x'.
Qed.

Lemma run_wake_then o w e x wrap :
  heap w !! e = Some x ->
  run o w (wake_result e wrap) = Some (w, option_map wrap (wakeErr x), []).
Proof. intros Hx. cbn. by rewrite (get_entry_heap _ _ _ Hx). Qed.

(** [ensureRunning] on a tracked box, before the operation itself. *)
Lemma run_ensure cfg o w fuel id e x op :
  wf w -> sandboxes w !! id = Some e -> heap w !! e = Some x ->
  let '(s', er, l) := route_spec cfg o id op (wake_seconds cfg (timeout x)) (state x) in
  exists w' x' er' l', run o w (ensureRunning cfg fuel id) = Some (w', er', l') /\
    sandboxes w' = sandboxes w /\ heap w' !! e = Some x' /\ state x' = s' /\
    match er' with
    | Some _ => er = er' /\ l = l'
    | None => s' = StateRunning /\ er = o (Op id op) /\ l = l' ++ [Op id op]
    end.
Proof.
  intros Hw Hid Hx.
  assert (good w id x) as [G1 G2 G3] by (destruct Hw as [_ Hg]; by eapply Hg).
  assert (forall k, run o w (ensureRunning cfg k id) = run o w (ensure_tracked cfg id e)) as ->.
  { intros k. destruct k; cbn [ensureRunning]; rewrite run_bind; cbn [lookup_entry atomically run]; rewrite Hid;
      by destruct (run o w _) as [[[? ?] ?]|]. }
  unfold ensure_tracked. rewrite run_bind. cbn [ensure_section atomically run].
  rewrite (get_entry_heap _ _ _ Hx). unfold route_spec. destruct (state x) eqn:Es.
  - cbn. exists w, x, None, []. split_and!; done.
  - pose proof (run_doWake cfg o w id e x Hid Hx) as Hwk. cbn zeta in Hwk. rewrite run_bind.
    destruct (store cfg && _); [destruct (o (GetActiveHibernation id)) as [r|];
      [|destruct (o (Wake id _)) as [r|]]|]; destruct Hwk as (w' & x' & -> & Hsb & Hx' & Hs' & He');
      rewrite (run_wake_then _ _ _ _ _ Hx'), He'; cbn [option_map app];
      (eexists w', x', _, _; split_and!; try done; by rewrite ?app_nil_r).
  - by destruct G1.
  - by destruct G1.
  - destruct (G3 eq_refl) as (c & Hc & Hop). rewrite Hc. cbn. rewrite Hop. cbn.
    exists w, x, (Some CtxErr), []. split_and!; done.
  - pose proof (run_doResume cfg o w id e x Hid Hx) as Hwk. rewrite run_bind.
    destruct (pausable cfg); [destruct (o (Resume id)) as [r|]|];
      destruct Hwk as (w' & x' & -> & Hsb & Hx' & Hs' & He'); rewrite (run_wake_then _ _ _ _ _ Hx'), He'; cbn [option_map app];
      (eexists w', x', _, _; split_and!; try done; by rewrite ?app_nil_r).
Qed.

(** C2. A routed operation on a tracked box refines the automaton [route_spec]:
    it runs immediately on a running box; a hibernated box is woken exactly once
    first (active hibernation looked up, one manager wake with the box's timeout,
    both database updates), a paused one is resumed without a wake; the operation
    itself is performed once, last, and only when the box is running; a failed
    wake or resume leaves the box hibernated or paused, returns the wrapped error
    and does not perform the operation; a box still being created makes the
    request wait for its context. *)
Theorem Route_refines cfg o w fuel id e x op :
  wf w -> sandboxes w !! id = Some e -> heap w !! e = Some x ->
  let '(s', er, l) := route_spec cfg o id op (wake_seconds cfg (timeout x)) (state x) in
  exists w', run o w (Route cfg [] fuel id op) = Some (w', er, l) /\
    sandboxes w' = sandboxes w /\ state (get_entry w' e) = s'.
Proof.
  intros Hw Hid Hx. pose proof (run_ensure cfg o w fuel id e x op Hw Hid Hx) as H.
  destruct (route_spec _ _ _ _ _ _) as [[s' er] l].
  destruct H as (w1 & x1 & er1 & l1 & Hrun & Hsb & Hx1 & Hs1 & Hcase).
  unfold Route. rewrite run_bind, Hrun. destruct er1 as [r|].
  - destruct Hcase as [-> ->]. cbn. exists w1. rewrite app_nil_r, (get_entry_heap _ _ _ Hx1). done.
  - destruct Hcase as (-> & -> & ->). cbn [fold_right]. rewrite run_bind. cbn [ext run].
    rewrite run_bind.
    destruct (run_reset o w1 id e x1) as (w2 & -> & Hsb2 & t & Hx2); [congruence|done|done|].
    cbn. exists w2. rewrite Hx2. split_and!; [done|congruence|done].
Qed.

(** *** Witness: a hibernated box is woken and the operation runs *)

Definition w_cfg : RouterConfig :=
  {| pausable := true; checkpointStore := true; store := true;
     defaultTimeout := 300000000000; pausePromoteAfter := 3600000000000;
     onHibernate := true; onKill := true; onPause := true; onResume := true |}.

Definition w_hibernated : world := default NewSandboxRouter
  (history w_cfg NewSandboxRouter [(fun _ => None, EMarkHibernated "sb" 60000000000)]).

Lemma w_hibernated_wf : wf w_hibernated.
Proof.
  destruct (handle_wf w_cfg (fun _ => None) NewSandboxRouter (EMarkHibernated "sb" 60000000000) wf_new_router)
    as (w & Hw & Hwf).
  unfold w_hibernated. cbn [history]. rewrite Hw. exact Hwf.
Qed.

Lemma Route_refines_witness :
  exists w', run (fun _ => None) w_hibernated (Route w_cfg [] 1 "sb" "exec") =
      Some (w', None, [GetActiveHibernation "sb"; Wake "sb" 60; MarkHibernationRestored "sb";
                       UpdateSandboxSessionForWake "sb"; Op "sb" "exec"]) /\
    sandboxes w' = sandboxes w_hibernated /\ state (get_entry w' 0) = StateRunning.
Proof.
  exact (Route_refines w_cfg (fun _ => None) w_hibernated 1 "sb" 0
    {| state := StateHibernated; timeout := 60000000000; timer := None; wakeCh := None; wakeErr := None;
       noPromote := false |} "exec" w_hibernated_wf eq_refl eq_refl).
Defined.

End Router.
