(* ===== verification/RouterConc.v ===== *)
(** * Interleavings of the sandbox router

    Concurrent requests on the router of src/internal/sandbox/router.go, over
    the interleaving semantics of [Router]. A rely-guarantee argument shows that
    requests for tracked boxes, in any interleaving and with any answers of the
    outside world, never panic, wake or resume a box at most once at a time, and
    never wait for a wake nobody performs. Three concrete schedules show what
    happens outside that discipline. *)

From S2P Require Import Prelude Router.
Import Router.

Module RouterConc.

(** ** Ghost roles

    What a thread is doing to a box: nothing, waking entry [e] through channel
    [c] ([done] once it has set the box running), or waiting on channel [c]. *)
Inductive role :=
| Idle
| Waker (e c : nat) (done : bool)
| Waiter (c : nat).

(** The part of an entry the roles constrain. *)
Definition view (w : world) (e : nat) : option (SandboxState * option nat) :=
  (fun x => (state x, wakeCh x)) <$> heap w !! e.

Section Protocol.
Context (cfg : RouterConfig) (m0 : gmap string nat).

(** The invariant that ties memory to the roles [R] of all threads. *)
Record J (R : list role) (w : world) : Prop := {
  J_base : base w;
  J_map : sandboxes w = m0;
  J_waker t e c d : R !! t = Some (Waker e c d) ->
    view w e = Some (if d then StateRunning else StateWaking, Some c) /\ chans w !! c = Some false;
  J_unique t1 t2 e c1 c2 d1 d2 :
    R !! t1 = Some (Waker e c1 d1) -> R !! t2 = Some (Waker e c2 d2) -> t1 = t2;
  J_waking id e ch : m0 !! id = Some e -> view w e = Some (StateWaking, ch) ->
    exists t c, R !! t = Some (Waker e c false);
  J_creating id e ch : m0 !! id = Some e -> view w e = Some (StateCreating, ch) -> exists c, ch = Some c;
  J_waiter t c : R !! t = Some (Waiter c) ->
    chans w !! c = Some true \/ (exists t' e d, R !! t' = Some (Waker e c d)) \/
    (exists e, view w e = Some (StateCreating, Some c))
}.

(** Calls that need a role: only the waker of a box wakes or resumes it. *)
Definition call_ok (r : role) (c : call) : Prop :=
  match c with
  | Wake id _ | Resume id => exists e ch, m0 !! id = Some e /\ r = Waker e ch false
  | _ => True
  end.

(** [ok r p Q]: a thread in role [r] may run [p] among others that keep [J]:
    no section panics, each keeps [J], calls respect the roles, and [p] ends
    with [Q]. *)
Fixpoint ok {A} (r : role) (p : prog A) (Q : role -> A -> Prop) : Prop :=
  match p with
  | Ret a => Q r a
  | Atom f k => forall R t w, R !! t = Some r -> J R w ->
      exists w' b r', f w = Some (w', b) /\ J (<[t := r']> R) w' /\ ok r' (k b) Q
  | Ext c k => call_ok r c /\ forall a, ok r (k a) Q
  | Wait ch k => (exists c, ch = Some c /\ r = Waiter c) /\ forall b, ok Idle (k b) Q
  end.

Lemma ok_bind {A B} r (p : prog A) (k : A -> prog B) Q :
  ok r p (fun r' a => ok r' (k a) Q) -> ok r (bind p k) Q.
Proof.
  revert r; induction p as [a|C f k' IH|c k' IH|ch k' IH]; intros r H; cbn [bind ok] in *.
  - done.
  - intros R t w HR HJ. destruct (H R t w HR HJ) as (w' & b & r' & ? & ? & ?). eauto 7.
  - destruct H as [? H]. split; [done|]. intros a. by apply IH.
  - destruct H as [? H]. split; [done|]. intros b. by apply IH.
Qed.

Lemma ok_mono {A} r (p : prog A) (Q Q' : role -> A -> Prop) :
  ok r p Q -> (forall r a, Q r a -> Q' r a) -> ok r p Q'.
Proof.
  intros H HQ. revert r H; induction p as [a|C f k' IH|c k' IH|ch k' IH]; intros r H; cbn [ok] in *.
  - auto.
  - intros R t w HR HJ. destruct (H R t w HR HJ) as (w' & b & r' & ? & ? & ?). eauto 7.
  - destruct H. eauto.
  - destruct H. eauto.
Qed.

(** *** Sections that leave roles alone *)

Lemma J_same R t r w : R !! t = Some r -> J R w -> J (<[t := r]> R) w.
Proof. intros HR HJ. by rewrite list_insert_id. Qed.

(** A thread may drop or take a non-waker role it is entitled to. *)
Lemma J_frame R w w' :
  J R w -> base w' -> sandboxes w' = sandboxes w -> chans w' = chans w ->
  (forall e, view w' e = view w e) -> J R w'.
Proof.
  intros [J1 J2 J3 J4 J5 J7 J6] Hb Hs Hc Hv. split; rewrite ?Hs, ?Hc; try done.
  - intros. rewrite Hv. eauto.
  - intros id e ch. rewrite Hv. eauto.
  - intros id e ch. rewrite Hv. eauto.
  - intros t c Ht. destruct (J6 t c Ht) as [?|[?|(e & He)]]; eauto. right; right. exists e. by rewrite Hv.
Qed.

Lemma view_put w e x x' e' :
  heap w !! e = Some x -> state x' = state x -> wakeCh x' = wakeCh x ->
  view (put_entry w e x') e' = view w e'.
Proof.
  intros Hx Hs Hc. unfold view; cbn. destruct (decide (e' = e)) as [->|]; simplify_map_eq; [|done].
  by rewrite Hs, Hc.
Qed.

Lemma view_arm w e d cb id x e' : heap w !! e = Some x -> view (arm w e d cb id) e' = view w e'.
Proof.
  intros Hx. destruct (arm_facts w e d cb id x Hx) as (_ & _ & x' & Hh & Hs & _ & Hc & _).
  unfold view. rewrite Hh. destruct (decide (e' = e)) as [->|]; simplify_map_eq; [|done].
  by rewrite Hs, Hc.
Qed.

Lemma heap_stop w t : heap (Stop w t) = heap w.
Proof. by destruct t. Qed.

Lemma view_stop w t e : view (Stop w t) e = view w e.
Proof. unfold view. by rewrite heap_stop. Qed.

(** A section with no effect but on timers. *)
Lemma ok_quiet {A} r (f : world -> world * A) Q :
  (forall w, base w -> sandboxes w = m0 ->
     base (f w).1 /\ sandboxes (f w).1 = sandboxes w /\ chans (f w).1 = chans w /\
     (forall e, view (f w).1 e = view w e) /\ Q r (f w).2) ->
  ok r (atomically f) Q.
Proof.
  intros H R t w HR HJ. destruct (H w (J_base _ _ HJ) (J_map _ _ HJ)) as (H1 & H2 & H3 & H4 & H5).
  exists (f w).1, (f w).2, r. split_and!; [by rewrite <- surjective_pairing| |done].
  apply J_same; [done|]. by eapply J_frame.
Qed.

(** A section that only reads. *)
Lemma ok_read {A} r (g : world -> A) Q :
  (forall w, base w -> sandboxes w = m0 -> Q r (g w)) -> ok r (atomically (fun w => (w, g w))) Q.
Proof. intros H. apply ok_quiet. intros w Hb Hm. cbn. split_and!; auto. Qed.

Lemma ok_lookup r id (Q : role -> option nat -> Prop) : Q r (m0 !! id) -> ok r (lookup_entry id) Q.
Proof. intros H. apply ok_read. intros w _ ->. done. Qed.

Lemma tracked_heap w id e : base w -> sandboxes w = m0 -> m0 !! id = Some e -> exists x, heap w !! e = Some x.
Proof. intros Hb Hm He. destruct (base_tracked w Hb id e) as [x Hx]; [congruence|eauto]. Qed.

Lemma ok_resetTimeout r id : ok r (resetTimeout id) (fun r' _ => r' = r).
Proof.
  apply ok_bind, ok_lookup. destruct (m0 !! id) as [e|] eqn:Ee; [|done].
  apply ok_quiet. intros w Hb Hm. destruct (tracked_heap w id e Hb Hm Ee) as [x Hx].
  cbn beta zeta. rewrite (get_entry_heap _ _ _ Hx). destruct (decide _); [|by split_and!]. cbn [fst snd].
  assert (Hx' : heap (Stop w (timer x)) !! e = Some x) by by rewrite heap_stop.
  destruct (arm_facts _ e (timeout x) cb_onTimeout id x Hx') as (Hs & Hc & _).
  rewrite Hs, Hc. split_and!; [eauto with oc| | | |done].
  - by destruct (timer x).
  - by destruct (timer x).
  - intros e'. by rewrite (view_arm _ _ _ _ _ x), view_stop.
Qed.

Lemma ok_SetTimeout r id d : ok r (SetTimeout id d) (fun r' _ => r' = r).
Proof.
  apply ok_bind, ok_lookup. destruct (m0 !! id) as [e|] eqn:Ee; [|done].
  apply ok_quiet. intros w Hb Hm. destruct (tracked_heap w id e Hb Hm Ee) as [x Hx].
  cbn [fst snd]. rewrite (get_entry_heap _ _ _ Hx).
  set (w1 := Stop w (timer x)). assert (Hx1 : heap w1 !! e = Some x) by (subst w1; by rewrite heap_stop).
  set (y := with_timer (with_timeout x d) None).
  assert (Hb2 : base (put_entry w1 e y)) by (eapply base_put; [by apply base_stop|done|by right|by left]).
  assert (Hy : heap (put_entry w1 e y) !! e = Some y) by (cbn; apply lookup_insert_eq).
  assert (sandboxes w1 = sandboxes w /\ chans w1 = chans w) as [Hs1 Hc1] by (subst w1; by destruct (timer x)).
  assert (Hv : forall e', view (put_entry w1 e y) e' = view w e').
  { intros e'. rewrite (view_put w1 e x y e') by done. apply view_stop. }
  destruct (decide _); [|by split_and!].
  destruct (arm_facts _ e d cb_onTimeout id y Hy) as (Hs & Hc & _). rewrite Hs, Hc.
  split_and!; [by eapply base_arm|done|done| |done].
  intros e'. by rewrite (view_arm _ _ _ _ _ y).
Qed.

(** *** Taking and releasing the waker role *)

Lemma insert_lookup_cases (R : list role) t r t' r' :
  <[t := r]> R !! t' = Some r' -> (t' = t /\ r' = r) \/ (t' <> t /\ R !! t' = Some r').
Proof. intros H. apply list_lookup_insert_Some in H as [(?&?&?)|[? ?]]; auto. Qed.

(** Any box that is not being woken, created or running can be claimed. *)
Lemma J_claim R t w e s ch :
  R !! t = Some Idle -> J R w -> view w e = Some (s, ch) ->
  s = StateHibernated \/ s = StateHibernating \/ s = StatePaused ->
  J (<[t := Waker e (next w) false]> R) (begin_wake w e).
Proof.
  intros HR [J1 J2 J3 J4 J5 J7 J6] Hv Hs.
  assert (Hlt : (t < length R)%nat) by by eapply lookup_lt_Some.
  unfold view in Hv. destruct (heap w !! e) as [x|] eqn:Hx; [|done]. cbn in Hv. simplify_eq.
  assert (Hno : forall t' c d, R !! t' <> Some (Waker e c d)).
  { intros t' c d H. apply J3 in H as [H _]. unfold view in H. rewrite Hx in H. cbn in H.
    destruct d; simplify_eq; intuition congruence. }
  assert (Hfresh : forall e' x' c, heap w !! e' = Some x' -> wakeCh x' = Some c -> c <> next w).
  { intros e' x' c H1 H2. specialize (base_chan w J1 _ _ _ H1 H2). lia. }
  assert (Hwk : forall t' e' c d, R !! t' = Some (Waker e' c d) -> c <> next w).
  { intros t' e' c d H. apply J3 in H as [H _]. unfold view in H.
    destruct (heap w !! e') as [x'|] eqn:E; [|done]. cbn in H. by simplify_eq; eapply Hfresh. }
  unfold begin_wake. rewrite (get_entry_heap _ _ _ Hx). cbn [make_chan].
  set (w1 := Build_world _ _ _ _ _). set (x' := with_wake _ _ _).
  assert (Hview : forall e', view (put_entry w1 e x') e' =
    if decide (e' = e) then Some (StateWaking, Some (next w)) else view w e').
  { intros e'. unfold view; cbn. destruct (decide (e' = e)) as [->|]; by simplify_map_eq. }
  split.
  - eapply base_put; [by apply (base_make_chan w)|done|by left|right].
    intros c Hc. cbn in Hc. simplify_eq. cbn. split; [lia|]. intros e' y Hy Hyc. by eapply Hfresh.
  - done.
  - intros t' e' c d H. rewrite Hview. cbn [chans put_entry set_heap w1].
    apply insert_lookup_cases in H as [[-> [= -> -> ->]]|[Hne H]].
    + rewrite decide_True by done. by simplify_map_eq.
    + rewrite decide_False by (intros ->; by eapply Hno). rewrite lookup_insert_ne; [by apply (J3 t')|].
      intros Heq. by eapply Hwk.
  - intros t1 t2 e' c1 c2 d1 d2 H1 H2.
    apply insert_lookup_cases in H1 as [[-> Hq1]|[Hn1 H1]], H2 as [[-> Hq2]|[Hn2 H2]];
      simplify_eq; try done; try (by exfalso; eapply Hno).
    by eapply J4.
  - intros id' e' ch' Hid'. rewrite Hview. destruct (decide (e' = e)) as [->|].
    + intros _. exists t, (next w). by apply list_lookup_insert_eq.
    + intros H. destruct (J5 _ _ _ Hid' H) as (t' & c & Ht'). exists t', c.
      rewrite list_lookup_insert_ne; [done|]. congruence.
  - intros id' e' ch' Hid'. rewrite Hview. destruct (decide (e' = e)) as [->|]; [done|]. by apply (J7 id').
  - intros t' c H. apply insert_lookup_cases in H as [[_ ?]|[Hne H]]; [done|].
    cbn [chans put_entry set_heap w1]. destruct (J6 _ _ H) as [Hcl|[(t2 & e2 & d & H2)|(e2 & H2)]].
    + destruct (decide (c = next w)) as [->|]; [|left; by simplify_map_eq].
      right; left. exists t, e, false. by apply list_lookup_insert_eq.
    + right; left. exists t2, e2, d. rewrite list_lookup_insert_ne; [done|]. congruence.
    + right; right. exists e2. rewrite Hview. rewrite decide_False; [done|]. intros ->.
      unfold view in H2. rewrite Hx in H2. cbn in H2. simplify_eq. intuition congruence.
Qed.

(** The waker updates its box: still waking, or now running. *)
Lemma J_progress R t w e c d w' x x' :
  R !! t = Some (Waker e c d) -> J R w -> heap w !! e = Some x -> base w' ->
  sandboxes w' = sandboxes w -> chans w' = chans w -> heap w' = <[e := x']> (heap w) ->
  state x' = StateRunning -> wakeCh x' = wakeCh x ->
  J (<[t := Waker e c true]> R) w'.
Proof.
  intros HR [J1 J2 J3 J4 J5 J7 J6] Hx Hb Hs Hc Hh Hrun Hch.
  assert (Hlt : (t < length R)%nat) by by eapply lookup_lt_Some.
  destruct (J3 _ _ _ _ HR) as [Hve Hop]. unfold view in Hve. rewrite Hx in Hve. cbn in Hve.
  assert (Hview : forall e', view w' e' = if decide (e' = e) then Some (StateRunning, Some c) else view w e').
  { intros e'. unfold view; rewrite Hh. destruct (decide (e' = e)) as [->|]; simplify_map_eq; [|done]. congruence. }
  split; rewrite ?Hs, ?Hc; try done.
  - intros t' e' c' d' H. rewrite Hview. apply insert_lookup_cases in H as [[-> [= -> -> ->]]|[Hne H]].
    + by rewrite decide_True.
    + rewrite decide_False; [by apply (J3 t')|]. intros ->. apply Hne. by eapply J4.
  - intros t1 t2 e' c1 c2 d1 d2 H1 H2.
    apply insert_lookup_cases in H1 as [[-> Hq1]|[Hn1 H1]], H2 as [[-> Hq2]|[Hn2 H2]];
      simplify_eq; try done; by eapply J4.
  - intros id' e' ch' Hid'. rewrite Hview. destruct (decide (e' = e)) as [->|]; [done|].
    intros H. destruct (J5 _ _ _ Hid' H) as (t' & c' & Ht'). exists t', c'.
    rewrite list_lookup_insert_ne; [done|]. congruence.
  - intros id' e' ch' Hid'. rewrite Hview. destruct (decide (e' = e)) as [->|]; [done|]. by apply (J7 id').
  - intros t' c' H. apply insert_lookup_cases in H as [[_ ?]|[Hne H]]; [done|].
    destruct (J6 _ _ H) as [Hcl|[(t2 & e2 & d2 & H2)|(e2 & H2)]]; [auto| |].
    + right; left. destruct (decide (t2 = t)) as [->|].
      * simplify_eq. exists t, e, true. by apply list_lookup_insert_eq.
      * exists t2, e2, d2. by rewrite list_lookup_insert_ne.
    + right; right. exists e2. rewrite Hview, decide_False; [done|]. intros ->.
      unfold view in H2. rewrite Hx in H2. cbn in H2. destruct d; congruence.
Qed.

(** The waker closes its channel and leaves the box in a settled state. *)
Lemma J_release R t w e c d w' x x' :
  R !! t = Some (Waker e c d) -> J R w -> heap w !! e = Some x -> base w' ->
  sandboxes w' = sandboxes w -> chans w' = <[c := true]> (chans w) -> heap w' = <[e := x']> (heap w) ->
  state x' <> StateWaking /\ state x' <> StateCreating -> J (<[t := Idle]> R) w'.
Proof.
  intros HR [J1 J2 J3 J4 J5 J7 J6] Hx Hb Hs Hc Hh Hst.
  assert (Hlt : (t < length R)%nat) by by eapply lookup_lt_Some.
  destruct (J3 _ _ _ _ HR) as [Hve Hop]. unfold view in Hve. rewrite Hx in Hve. cbn in Hve.
  assert (Hview : forall e', e' <> e -> view w' e' = view w e').
  { intros e' Hne. unfold view; rewrite Hh. by simplify_map_eq. }
  split; rewrite ?Hs, ?Hc; try done.
  - intros t' e' c' d' H. apply insert_lookup_cases in H as [[_ ?]|[Hne H]]; [done|].
    assert (e' <> e) by (intros ->; apply Hne; by eapply J4).
    destruct (J3 _ _ _ _ H) as [Hv' Ho']. rewrite Hview by done. split; [done|].
    rewrite lookup_insert_ne; [done|]. intros <-.
    unfold view in Hv'. destruct (heap w !! e') as [y|] eqn:Hy; [|done]. cbn in Hv'. simplify_eq.
    assert (e = e') by (eapply (base_chan_inj w J1 e e' x y c); congruence). done.
  - intros t1 t2 e' c1 c2 d1 d2 H1 H2.
    apply insert_lookup_cases in H1 as [[_ ?]|[Hn1 H1]], H2 as [[_ ?]|[Hn2 H2]]; try done. by eapply J4.
  - intros id' e' ch' Hid'. destruct (decide (e' = e)) as [->|].
    + unfold view. rewrite Hh, lookup_insert_eq. cbn. intuition congruence.
    + rewrite Hview by done. intros H. destruct (J5 _ _ _ Hid' H) as (t' & c' & Ht'). exists t', c'.
      rewrite list_lookup_insert_ne; [done|]. congruence.
  - intros id' e' ch' Hid'. destruct (decide (e' = e)) as [->|].
    + unfold view. rewrite Hh, lookup_insert_eq. cbn. intuition congruence.
    + rewrite Hview by done. by apply (J7 id').
  - intros t' c' H. apply insert_lookup_cases in H as [[_ ?]|[Hne H]]; [done|].
    destruct (decide (c' = c)) as [->|]; [left; by simplify_map_eq|]. rewrite lookup_insert_ne by done.
    destruct (J6 _ _ H) as [Hcl|[(t2 & e2 & d2 & H2)|(e2 & H2)]]; [auto| |].
    + right; left. exists t2, e2, d2. rewrite list_lookup_insert_ne; [done|]. congruence.
    + right; right. exists e2. rewrite Hview; [done|]. intros ->.
      unfold view in H2. rewrite Hx in H2. cbn in H2. destruct d; congruence.
Qed.

(** *** The programs respect the protocol *)

Lemma waker_entry R t w e c d :
  R !! t = Some (Waker e c d) -> J R w ->
  exists x, heap w !! e = Some x /\ wakeCh x = Some c /\ chans w !! c = Some false /\
    state x = (if d then StateRunning else StateWaking).
Proof.
  intros HR HJ. destruct (J_waker _ _ HJ _ _ _ _ HR) as [Hv Hc]. unfold view in Hv.
  destruct (heap w !! e) as [x|]; [|done]. cbn in Hv. exists x. by simplify_eq.
Qed.

Lemma ok_wake_done e c er :
  ok (Waker e c (bool_decide (er = None))) (wake_done e er) (fun r' _ => r' = Idle).
Proof.
  intros R t w HR HJ. destruct (waker_entry _ _ _ _ _ _ HR HJ) as (x & Hx & Hc & Hop & Hst).
  rewrite (get_entry_heap _ _ _ Hx). cbn zeta.
  set (x2 := match er with Some _ => _ | None => _ end).
  assert (wakeCh x2 = Some c) as -> by (subst x2; by destruct er).
  cbn [close_chan]. rewrite Hop. eexists _, _, Idle. split_and!; [reflexivity| |done].
  eapply (J_release R t w e c _ _ x (with_wake x2 None (wakeErr x2))); try done.
  - eapply base_put; [|done| |right; by apply fresh_none].
    + destruct (J_base _ _ HJ). by split.
    + left. subst x2. by destruct er.
  - subst x2. destruct er; cbn in *; [done|]. rewrite Hst. done.
Qed.

Lemma ok_resume_done id e c er :
  m0 !! id = Some e -> ok (Waker e c false) (resume_done id e er) (fun r' _ => r' = Idle).
Proof.
  intros Hid R t w HR HJ. destruct (waker_entry _ _ _ _ _ _ HR HJ) as (x & Hx & Hc & Hop & Hst).
  rewrite (get_entry_heap _ _ _ Hx). cbn zeta. set (x1 := with_wake x (wakeCh x) er).
  set (w1 := match er with Some _ => _ | None => _ end).
  assert (exists x2, heap w1 = <[e := x2]> (heap w) /\ base w1 /\ sandboxes w1 = sandboxes w /\
    chans w1 = chans w /\ wakeCh x2 = Some c /\
    state x2 <> StateWaking /\ state x2 <> StateCreating) as (x2 & Hh & Hb & Hs & Hch & Hc2 & Hne).
  { subst w1. destruct er as [r|].
    - exists (with_state x1 StatePaused). split_and!; try done. eapply base_put; [|done|by left|by left].
      apply HJ.
    - set (y := with_state x1 StateRunning).
      assert (Hy : heap (put_entry w e y) !! e = Some y) by (cbn; apply lookup_insert_eq).
      destruct (arm_facts (put_entry w e y) e (timeout x1) cb_onTimeout id y Hy)
        as (Hs & Hch & x2 & Hh & S1 & _ & S3 & _).
      exists x2. rewrite Hh, Hs, Hch. cbn [put_entry set_heap heap]. rewrite insert_insert_eq.
      split_and!; try done; [|by rewrite S3|by rewrite S1|by rewrite S1].
      eapply base_arm; [|done]. eapply base_put; [|done|by left|by left]. apply HJ. }
  assert (Hx2 : heap w1 !! e = Some x2) by (rewrite Hh; apply lookup_insert_eq).
  rewrite (get_entry_heap _ _ _ Hx2), Hc2. cbn [close_chan]. rewrite Hch, Hop.
  eexists _, _, Idle. split_and!; [reflexivity| |done].
  eapply (J_release R t w e c _ _ x (with_wake x2 None (wakeErr x2))); try done.
  - eapply base_put; [|done|by left|right; by apply fresh_none]. destruct Hb. by split.
  - cbn. by rewrite Hh, insert_insert_eq.
Qed.

Lemma ok_doWake id e c :
  m0 !! id = Some e -> ok (Waker e c false) (doWake cfg id e) (fun r' _ => r' = Idle).
Proof.
  intros Hid. unfold doWake. destruct (negb _ || negb _); [apply (ok_wake_done e c (Some _))|].
  apply ok_bind. split; [done|]. intros [r|]; [apply (ok_wake_done e c (Some _))|].
  apply ok_bind, ok_read. intros w0 _ _. cbn zeta. apply ok_bind. split; [cbn; eauto|].
  intros a; destruct a as [r|]; [apply (ok_wake_done e c (Some r))|].
  apply ok_bind. split; [done|]. intros _. apply ok_bind. split; [done|]. intros _.
  apply ok_bind. intros R t w HR HJ. destruct (waker_entry _ _ _ _ _ _ HR HJ) as (x & Hx & Hc & Hop & Hst).
  rewrite (get_entry_heap _ _ _ Hx). set (y := with_state x StateRunning).
  assert (Hy : heap (put_entry w e y) !! e = Some y) by (cbn; apply lookup_insert_eq).
  destruct (arm_facts (put_entry w e y) e (timeout x) cb_onTimeout id y Hy)
    as (Hs & Hch & x2 & Hh & S1 & _ & S3 & _).
  eexists _, _, (Waker e c true). split_and!; [reflexivity| |apply (ok_wake_done e c None)].
  eapply (J_progress R t w e c false _ x x2); try done.
  - eapply base_arm; [|done]. eapply base_put; [|done|by left|by left]. apply HJ.
  - rewrite Hh. cbn [put_entry set_heap heap]. by rewrite insert_insert_eq.
Qed.

Lemma ok_when_ext r b c : call_ok r c -> ok r (when b (ext_ c)) (fun r' _ => r' = r).
Proof. intros H. destruct b; [|done]. by split. Qed.

Lemma ok_doResume id e c :
  m0 !! id = Some e -> ok (Waker e c false) (doResume cfg id e) (fun r' _ => r' = Idle).
Proof.
  intros Hid. unfold doResume. destruct (pausable cfg); [|by apply ok_resume_done].
  apply ok_bind. split; [cbn; eauto|]. intros [r|]; [by apply ok_resume_done|].
  apply ok_bind. eapply ok_mono; [by apply ok_when_ext|]. intros r ? ->.
  apply ok_bind. eapply ok_mono; [by apply ok_when_ext|]. intros r ? ->. by apply ok_resume_done.
Qed.

Lemma ok_wake_result e wrap : ok Idle (wake_result e wrap) (fun r' _ => r' = Idle).
Proof. by apply ok_read. Qed.

Lemma ok_await e c wrap : ok (Waiter c) (await e (Some c) wrap) (fun r' _ => r' = Idle).
Proof. split; [eauto|]. intros [|]; [apply ok_wake_result|done]. Qed.

(** Becoming a waiter on the channel of a box that is being woken or created. *)
Lemma J_wait R t w c :
  R !! t = Some Idle -> J R w ->
  (exists id e, m0 !! id = Some e /\
     (view w e = Some (StateWaking, Some c) \/ view w e = Some (StateCreating, Some c))) ->
  J (<[t := Waiter c]> R) w.
Proof.
  intros HR [J1 J2 J3 J4 J5 J7 J6] (id & e & Hid & He).
  assert (Hlt : (t < length R)%nat) by by eapply lookup_lt_Some.
  split; try done.
  - intros t' e' c' d' H. apply insert_lookup_cases in H as [[_ ?]|[Hne H]]; [done|]. by apply (J3 t').
  - intros t1 t2 e' c1 c2 d1 d2 H1 H2.
    apply insert_lookup_cases in H1 as [[_ ?]|[Hn1 H1]], H2 as [[_ ?]|[Hn2 H2]]; try done. by eapply J4.
  - intros id' e' ch Hid' H. destruct (J5 _ _ _ Hid' H) as (t' & c' & Ht'). exists t', c'.
    rewrite list_lookup_insert_ne; [done|]. congruence.
  - intros t' c' H. apply insert_lookup_cases in H as [[-> Hq]|[Hne H]]; simplify_eq.
    + destruct He as [He|He]; [|eauto]. right; left. destruct (J5 _ _ _ Hid He) as (t' & c' & Ht').
      destruct (J3 _ _ _ _ Ht') as [Hv _]. assert (c' = c) as -> by congruence.
      exists t', e, false. rewrite list_lookup_insert_ne; [done|]. congruence.
    + destruct (J6 _ _ H) as [?|[(t2 & e2 & d2 & H2)|?]]; [auto| |auto].
      right; left. exists t2, e2, d2. rewrite list_lookup_insert_ne; [done|]. congruence.
Qed.

Lemma J_idle R t w r : R !! t = Some r -> (forall e c d, r <> Waker e c d) -> J R w -> J (<[t := Idle]> R) w.
Proof.
  intros HR Hr [J1 J2 J3 J4 J5 J7 J6]. split; try done.
  - intros t' e' c' d' H. apply insert_lookup_cases in H as [[_ ?]|[Hne H]]; [done|]. by apply (J3 t').
  - intros t1 t2 e' c1 c2 d1 d2 H1 H2.
    apply insert_lookup_cases in H1 as [[_ ?]|[Hn1 H1]], H2 as [[_ ?]|[Hn2 H2]]; try done. by eapply J4.
  - intros id' e' ch Hid' H. destruct (J5 _ _ _ Hid' H) as (t' & c' & Ht'). exists t', c'.
    rewrite list_lookup_insert_ne; [done|]. intros ->. simplify_eq. by eapply Hr.
  - intros t' c' H. apply insert_lookup_cases in H as [[_ ?]|[Hne H]]; [done|].
    destruct (J6 _ _ H) as [?|[(t2 & e2 & d2 & H2)|?]]; [auto| |auto].
    right; left. exists t2, e2, d2. rewrite list_lookup_insert_ne; [done|]. intros ->. simplify_eq. by eapply Hr.
Qed.

Lemma ok_ensure_tracked id e :
  m0 !! id = Some e -> ok Idle (ensure_tracked cfg id e) (fun r' _ => r' = Idle).
Proof.
  intros Hid. apply ok_bind. intros R t w HR HJ.
  destruct (tracked_heap w id e (J_base _ _ HJ) (J_map _ _ HJ) Hid) as [x Hx].
  assert (Hv : view w e = Some (state x, wakeCh x)) by (unfold view; by rewrite Hx).
  rewrite (get_entry_heap _ _ _ Hx). cbn zeta. destruct (state x) eqn:Es.
  - eexists _, _, Idle. split_and!; [reflexivity|by apply J_same|done].
  - eexists _, _, (Waker e (next w) false). split_and!; [reflexivity|by eapply J_claim; eauto|].
    apply ok_bind. eapply ok_mono; [by apply ok_doWake|]. intros ? ? ->. apply ok_wake_result.
  - destruct (J_waking _ _ HJ _ _ _ Hid Hv) as (t' & c & Ht'). destruct (J_waker _ _ HJ _ _ _ _ Ht') as [Hv' _].
    assert (wakeCh x = Some c) as Hc by congruence. rewrite Hc in Hv.
    eexists _, _, (Waiter c). split_and!; [reflexivity|apply J_wait; eauto 6|]. rewrite Hc. apply ok_await.
  - eexists _, _, (Waker e (next w) false). split_and!; [reflexivity|by eapply J_claim; eauto|].
    apply ok_bind. eapply ok_mono; [by apply ok_doWake|]. intros ? ? ->. apply ok_wake_result.
  - destruct (J_creating _ _ HJ _ _ _ Hid Hv) as [c Hc]. rewrite Hc in Hv.
    eexists _, _, (Waiter c). split_and!; [reflexivity|apply J_wait; eauto 6|]. rewrite Hc. apply ok_await.
  - eexists _, _, (Waker e (next w) false). split_and!; [reflexivity|by eapply J_claim; eauto|].
    apply ok_bind. eapply ok_mono; [by apply ok_doResume|]. intros ? ? ->. apply ok_wake_result.
Qed.

Lemma ok_Route fuel id op :
  is_Some (m0 !! id) -> ok Idle (Route cfg [] fuel id op) (fun r' _ => r' = Idle).
Proof.
  intros [e He]. apply ok_bind. assert (Hens : ok Idle (ensureRunning cfg fuel id) (fun r' _ => r' = Idle)).
  { destruct fuel; cbn [ensureRunning]; apply ok_bind, ok_lookup; rewrite He; by apply ok_ensure_tracked. }
  eapply ok_mono; [apply Hens|]. intros r er ->. destruct er; [done|].
  apply ok_bind. split; [done|]. intros a. apply ok_bind.
  eapply ok_mono; [apply ok_resetTimeout|]. by intros ? ? ->.
Qed.

Lemma ok_no_err r p : ok r p (fun r' _ => r' = r) -> ok r (no_err p) (fun r' _ => r' = r).
Proof. intros H. apply ok_bind. eapply ok_mono; [done|]. by intros ? ? ->. Qed.

(** *** Configurations *)

Definition CI (c : conf) : Prop :=
  panicked c = false /\ exists R, length R = length (threads c) /\ J R (mem c) /\
    forall t p r, threads c !! t = Some p -> R !! t = Some r -> ok r p (fun r' _ => r' = Idle).

(** Requests for tracked boxes, activity pings and timeout changes; any thread
    may step, with any answer, and any waiting request may be cancelled. No
    timer fires. *)
Inductive request : action -> Prop :=
| req_route fuel id op : is_Some (m0 !! id) -> request (Spawn (Route cfg [] fuel id op))
| req_touch id : request (Spawn (no_err (Touch id)))
| req_timeout id d : request (Spawn (no_err (SetTimeout id d)))
| req_exec t a : request (Exec t a)
| req_cancel t : request (Cancel t).

Lemma J_app R w : J R w -> J (R ++ [Idle]) w.
Proof.
  intros [J1 J2 J3 J4 J5 J7 J6].
  assert (Hl : forall t r, (R ++ [Idle]) !! t = Some r -> r = Idle \/ R !! t = Some r).
  { intros t r H. apply lookup_app_Some in H as [?|[_ H]]; [auto|]. left.
    destruct (t - length R)%nat; by simplify_eq/=. }
  assert (Hr : forall t r, R !! t = Some r -> (R ++ [Idle]) !! t = Some r).
  { intros t r H. by apply lookup_app_l_Some. }
  split; try done.
  - intros t e c d H. destruct (Hl _ _ H) as [|H']; [done|]. by apply (J3 t).
  - intros t1 t2 e c1 c2 d1 d2 H1 H2. destruct (Hl _ _ H1) as [|H1']; [done|].
    destruct (Hl _ _ H2) as [|H2']; [done|]. by eapply J4.
  - intros id e ch Hid H. destruct (J5 _ _ _ Hid H) as (t & c & Ht). eauto.
  - intros t c H. destruct (Hl _ _ H) as [|H']; [done|].
    destruct (J6 _ _ H') as [?|[(t' & e & d & ?)|?]]; eauto 7.
Qed.

Lemma spawn_CI c p : CI c -> ok Idle p (fun r' _ => r' = Idle) ->
  CI {| mem := mem c; threads := threads c ++ [p]; panicked := false; trace := trace c |}.
Proof.
  intros (Hp & R & Hlen & HJ & Hok) Hi. split; [done|]. exists (R ++ [Idle]). cbn.
  rewrite !length_app, Hlen. split_and!; [done|by apply J_app|].
  intros t q r Hq Hr. apply lookup_app_Some in Hq as [Hq|[Hge Hq]].
  - rewrite lookup_app_l in Hr by (apply lookup_lt_Some in Hq; lia). by eapply Hok.
  - rewrite lookup_app_r in Hr by lia. rewrite Hlen in Hr.
    destruct (t - length (threads c))%nat; by simplify_eq/=.
Qed.

(** Thread [t] moves on to [p] in role [r] over memory [w]. *)
Lemma update_CI c t p0 p R r w l :
  length R = length (threads c) -> threads c !! t = Some p0 ->
  J (<[t := r]> R) w -> ok r p (fun r' _ => r' = Idle) ->
  (forall t p r, threads c !! t = Some p -> R !! t = Some r -> ok r p (fun r' _ => r' = Idle)) ->
  CI {| mem := w; threads := <[t := p]> (threads c); panicked := false; trace := l |}.
Proof.
  intros Hlen Ht HJ Hp Hok. split; [done|]. exists (<[t := r]> R). cbn.
  rewrite !length_insert. split_and!; [done|done|]. intros t' q r' Hq Hr.
  destruct (decide (t' = t)) as [->|].
  - apply lookup_lt_Some in Ht.
    rewrite list_lookup_insert_eq in Hq by lia. rewrite list_lookup_insert_eq in Hr by lia. by simplify_eq.
  - rewrite list_lookup_insert_ne in Hq by done. rewrite list_lookup_insert_ne in Hr by done. by eapply Hok.
Qed.

Lemma act_CI c a c' : CI c -> request a -> act cfg c a = Some c' -> CI c'.
Proof.
  intros HC Ha H. pose proof HC as (Hp & R & Hlen & HJ & Hok). unfold act in H. rewrite Hp in H.
  destruct Ha as [fuel id op Hid|id|id d|t a|t].
  - simplify_eq. by apply spawn_CI, ok_Route.
  - simplify_eq. by apply spawn_CI, ok_no_err, ok_resetTimeout.
  - simplify_eq. by apply spawn_CI, ok_no_err, ok_SetTimeout.
  - destruct (threads c !! t) as [p|] eqn:Ht; [|done].
    destruct (lookup_lt_is_Some_2 R t) as [r Hr]; [apply lookup_lt_Some in Ht; lia|].
    specialize (Hok _ _ _ Ht Hr) as Hp'. destruct p as [x|B f k|x k|ch k]; [done| | |].
    + destruct (Hp' R t (mem c) Hr HJ) as (w' & b & r' & Hf & HJ' & Hk). rewrite Hf in H. simplify_eq.
      by eapply update_CI.
    + simplify_eq. destruct Hp' as [_ Hk]. eapply update_CI; eauto. by apply J_same.
    + destruct Hp' as [[cc [-> ->]] Hk]. case_hyp H; simplify_eq. eapply update_CI; eauto.
      by eapply J_idle.
  - destruct (threads c !! t) as [p|] eqn:Ht; [|done].
    destruct (lookup_lt_is_Some_2 R t) as [r Hr]; [apply lookup_lt_Some in Ht; lia|].
    specialize (Hok _ _ _ Ht Hr) as Hp'. destruct p as [x|B f k|x k|ch k]; try done.
    destruct Hp' as [[cc [-> ->]] Hk]. simplify_eq. eapply update_CI; eauto. by eapply J_idle.
Qed.

Lemma reach_CI c0 c : CI c0 -> reach cfg request c0 c -> CI c.
Proof. intros H0. induction 1 as [|c a c' _ IH Ha Hact]; [done|]. by eapply act_CI. Qed.

(** Thread [t] of [c] is about to wake or resume box [id]. *)
Definition waking_call (id : string) (c : conf) (t : nat) : Prop :=
  exists k, threads c !! t = Some (Ext (Resume id) k) \/ exists secs, threads c !! t = Some (Ext (Wake id secs) k).

Lemma waking_call_role (R : list role) c t id r :
  (forall t p r, threads c !! t = Some p -> R !! t = Some r -> ok r p (fun r' _ => r' = Idle)) ->
  R !! t = Some r -> waking_call id c t -> exists e ch, m0 !! id = Some e /\ r = Waker e ch false.
Proof. intros Hok Hr (k & [Ht|[secs Ht]]); by destruct (Hok _ _ _ Ht Hr) as [Hc _]. Qed.

Lemma CI_mutex c t1 t2 id : CI c -> waking_call id c t1 -> waking_call id c t2 -> t1 = t2.
Proof.
  intros (_ & R & Hlen & HJ & Hok) H1 H2.
  assert (forall t, waking_call id c t -> exists r, R !! t = Some r) as Hr.
  { intros t (k & [Ht|[secs Ht]]); apply lookup_lt_is_Some_2; apply lookup_lt_Some in Ht; lia. }
  destruct (Hr _ H1) as [r1 R1], (Hr _ H2) as [r2 R2].
  destruct (waking_call_role R c t1 id r1 Hok R1 H1) as (e1 & c1 & E1 & ->).
  destruct (waking_call_role R c t2 id r2 Hok R2 H2) as (e2 & c2 & E2 & ->).
  assert (e1 = e2) as -> by congruence. by eapply (J_unique _ _ HJ).
Qed.

Lemma CI_progress c t ch k : CI c -> threads c !! t = Some (Wait ch k) ->
  is_closed (mem c) ch = true \/
  (exists t', t' <> t /\ forall a, exists c', act cfg c (Exec t' a) = Some c' /\ panicked c' = false) \/
  (exists e x, heap (mem c) !! e = Some x /\ state x = StateCreating /\ wakeCh x = ch).
Proof.
  intros HC Ht. pose proof HC as (Hp & R & Hlen & HJ & Hok).
  destruct (lookup_lt_is_Some_2 R t) as [r Hr]; [apply lookup_lt_Some in Ht; lia|].
  destruct (Hok _ _ _ Ht Hr) as [(cc & -> & ->) _].
  destruct (J_waiter _ _ HJ _ _ Hr) as [Hcl|[(t' & e & d & Ht')|(e & He)]].
  - left. cbn. by rewrite Hcl.
  - right; left. exists t'. split; [congruence|]. intros a.
    destruct (lookup_lt_is_Some_2 (threads c) t') as [p Hpt]; [apply lookup_lt_Some in Ht'; lia|].
    pose proof (Hok _ _ _ Hpt Ht') as Hp'. unfold act. rewrite Hp, Hpt. destruct p as [x|B f k'|x k'|ch' k'].
    + done.
    + destruct (Hp' R t' (mem c) Ht' HJ) as (w' & b & r' & -> & _ & _). eauto.
    + eauto.
    + destruct Hp' as [(? & _ & ?) _]. done.
  - right; right. unfold view in He. destruct (heap (mem c) !! e) as [x|] eqn:Hx; [|done].
    exists e, x. cbn in He. by simplify_eq.
Qed.

End Protocol.

(** Requests arrive at a router between operations, with no thread in flight. *)
Definition quiet (w : world) : conf := {| mem := w; threads := []; panicked := false; trace := [] |}.

Lemma quiet_CI w : wf w -> CI (sandboxes w) (quiet w).
Proof.
  intros [Hb Hg]. split; [done|]. exists []. split_and!; [done| |done].
  split; try done; try (intros *; by rewrite lookup_nil).
  - intros id e ch Hid Hv. unfold view in Hv; cbn [quiet mem] in Hv. destruct (heap w !! e) as [x|] eqn:Hx; [|done].
    cbn in Hv. simplify_eq. destruct (Hg id e x Hid Hx ltac:(done)) as [[? ?] _ _]. congruence.
  - intros id e ch Hid Hv. unfold view in Hv; cbn [quiet mem] in Hv. destruct (heap w !! e) as [x|] eqn:Hx; [|done].
    cbn in Hv. destruct (Hg id e x Hid Hx ltac:(done)) as [_ _ G3].
    destruct G3 as (c & ? & _); [congruence|]. exists c. congruence.
Qed.

(** C3. On an intact router, any number of concurrent requests for tracked
    boxes, activity pings and timeout changes, interleaved in any way, with any
    answers from the manager and the database and any cancellations, and while no
    timer fires: no thread ever panics; at most one thread at a time is about to
    wake or resume a given box; and a request that waits is never stuck, since
    its channel is closed, or another thread (the waker) can step, or the box is
    still being created. *)
Theorem concurrent_requests_safe cfg w c :
  wf w -> reach cfg (request cfg (sandboxes w)) (quiet w) c ->
  panicked c = false /\
  (forall id t1 t2, waking_call id c t1 -> waking_call id c t2 -> t1 = t2) /\
  (forall t ch k, threads c !! t = Some (Wait ch k) ->
     is_closed (mem c) ch = true \/
     (exists t', t' <> t /\ forall a, exists c', act cfg c (Exec t' a) = Some c' /\ panicked c' = false) \/
     (exists e x, heap (mem c) !! e = Some x /\ state x = StateCreating /\ wakeCh x = ch)).
Proof.
  intros Hw Hr. pose proof (reach_CI cfg (sandboxes w) _ _ (quiet_CI w Hw) Hr) as HC.
  split_and!; [apply HC| |].
  - intros id t1 t2. by apply (CI_mutex (sandboxes w)).
  - intros t ch k. by apply (CI_progress cfg (sandboxes w)).
Qed.

(** ** Schedules outside the discipline *)

Lemma play_reach cfg (P : action -> Prop) c l c' :
  Forall P l -> play cfg c l = Some c' -> reach cfg P c c'.
Proof.
  intros Hl. assert (H : forall c1, reach cfg P c c1 -> play cfg c1 l = Some c' -> reach cfg P c c').
  { induction Hl as [|a l Ha Hl IH]; cbn; intros c1 Hr H; [by simplify_eq|].
    destruct (act cfg c1 a) as [c2|] eqn:E; [|done]. eapply IH; [|done]. by eapply reach_step. }
  intros Hp. apply (H c); [constructor|done].
Qed.

(** A schedule that runs to an observation, as reachability. *)
Lemma play_observe cfg (P : action -> Prop) c l (obs : conf -> bool) :
  Forall P l -> match play cfg c l with Some c' => obs c' | None => false end = true ->
  exists c', reach cfg P c c' /\ obs c' = true.
Proof.
  intros Hl Ho. destruct (play cfg c l) as [c'|] eqn:E; [|done]. exists c'. split; [|done].
  by eapply play_reach.
Qed.

(** Every collaborator present; five-minute idle timeout. *)
Definition full_cfg : RouterConfig :=
  {| pausable := true; checkpointStore := true; store := true;
     defaultTimeout := 300000000000; pausePromoteAfter := 3600000000000;
     onHibernate := true; onKill := true; onPause := true; onResume := true |}.

Definition req (op : string) : action := Spawn (Route full_cfg [] 1 "sb" op).
Definition step_n (n t : nat) : list action := replicate n (Exec t None).

(** Requests for box ["sb"], timers, and steps to which the outside world
    always answers success. *)
Definition all_succeed (a : action) : Prop :=
  match a with
  | Spawn p => exists op, p = Route full_cfg [] 1 "sb" op
  | Fire _ => True
  | Exec _ answer => answer = None
  | Cancel _ => False
  end.

Definition is_wake (c : call) : bool :=
  match c with Wake _ _ => true | _ => false end.

(** Two requests for a hibernated box the router does not track yet. *)
Definition untracked_schedule : list action :=
  [req "a"; req "b"; Exec 0 None; Exec 1 None] ++ step_n 4 0 ++ step_n 5 1 ++ step_n 7 0 ++ step_n 7 1.

(** Two concurrent requests for a hibernated box that the router does not
    track yet (as after a restart of the worker) can wake the box twice and then
    panic, even when every call to the outside succeeds: both miss the map, the
    second [MarkHibernated] of [discoverAndEnsure] resets the entry the first is
    already waking, and the second waker closes a channel the first one has
    dropped. *)
Theorem untracked_requests_panic :
  exists c, reach full_cfg all_succeed (quiet NewSandboxRouter) c /\ panicked c = true /\
    length (List.filter is_wake (trace c)) = 2%nat.
Proof.
  destruct (play_observe full_cfg all_succeed (quiet NewSandboxRouter) untracked_schedule
    (fun c => panicked c && Nat.eqb (length (List.filter is_wake (trace c))) 2)) as (c & Hr & Ho).
  - repeat (apply Forall_cons; split; [cbn; eauto|]); constructor.
  - vm_compute. reflexivity.
  - bool_to_prop. eauto.
Qed.

(** The router after one box was registered with a one-second timeout. *)
Definition one_box : world := default NewSandboxRouter
  (history full_cfg NewSandboxRouter [(fun _ => None, ERegister "sb" 1000000000)]).

(** The idle timer fires; one request arrives while the pause is in flight and
    another right after it. *)
Definition timeout_schedule : list action :=
  [Fire 1] ++ step_n 2 0 ++ [req "a"] ++ step_n 5 1 ++ step_n 3 0 ++ [req "b"] ++ step_n 2 2 ++
  step_n 4 1 ++ step_n 4 2.

(** Two requests around an idle timeout can panic the router although every
    outside call succeeds: a request that finds the box hibernating starts a wake
    instead of waiting for the transition, the timeout handler then records the
    box as paused over that wake, the next request starts a second one, and its
    channel has already been closed and dropped by the first. *)
Theorem timeout_race_panics :
  exists c, reach full_cfg all_succeed (quiet one_box) c /\ panicked c = true.
Proof.
  apply (play_observe full_cfg all_succeed (quiet one_box) timeout_schedule panicked).
  - repeat (apply Forall_cons; split; [cbn; eauto|]); constructor.
  - vm_compute. reflexivity.
Qed.

(** The router with one box known to be hibernated. *)
Definition hibernated_box : world := default NewSandboxRouter
  (history full_cfg NewSandboxRouter [(fun _ => None, EMarkHibernated "sb" 1000000000)]).

(** Thread 0 wakes and fails, thread 1 waits for it, thread 2 starts over
    before thread 1 has read the result. *)
Definition stale_schedule : list action :=
  [req "a"; req "b"; req "c"] ++ step_n 2 0 ++ step_n 2 1 ++ [Exec 0 (Some (ExtErr 7)); Exec 0 None] ++
  step_n 2 2 ++ step_n 3 1.

(** A request that waited for a wake can run its operation on a box that is
    not running: when the wake failed and a third request started another one
    before the waiter read the outcome, the waiter finds the error cleared. The
    requests are for a tracked box, and no timer is involved. *)
Theorem waiter_reads_cleared_error :
  exists c e, reach full_cfg (request full_cfg (sandboxes hibernated_box)) (quiet hibernated_box) c /\
    trace c = [GetActiveHibernation "sb"; Op "sb" "b"] /\
    sandboxes (mem c) !! "sb"%string = Some e /\ state (get_entry (mem c) e) = StateWaking.
Proof.
  destruct (play_observe full_cfg (request full_cfg (sandboxes hibernated_box)) (quiet hibernated_box)
    stale_schedule (fun c =>
      bool_decide (trace c = [GetActiveHibernation "sb"; Op "sb" "b"]) &&
      (bool_decide (sandboxes (mem c) !! "sb"%string = Some 0%nat) &&
       bool_decide (state (get_entry (mem c) 0) = StateWaking)))) as (c & Hr & Ho).
  - repeat (apply Forall_cons; split; [constructor; try (eexists; reflexivity)|]); constructor.
  - vm_compute. reflexivity.
  - bool_to_prop. exists c, 0%nat. split_and!; done.
Qed.

(** The box pauses on idle and is resumed by a request: the promote timer of
    the pause that is over stays armed beside the new idle timer. *)
Lemma resume_keeps_promote_timer :
  exists w, history full_cfg NewSandboxRouter
      [(fun _ => None, ERegister "sb" 1000000000); (fun _ => None, EFire 1); (fun _ => None, ERoute "sb" "op")]
      = Some w /\
    state (get_entry w 0) = StateRunning /\
    exists t, timers w !! t = Some {| t_after := 3600000000000; t_cb := cb_promoteToDeep; t_box := "sb" |}.
Proof. eexists. split; [vm_compute; reflexivity|]. split; [reflexivity|]. exists 2%nat. reflexivity. Qed.

(** ** Witnesses *)

Lemma one_box_wf : wf one_box.
Proof.
  destruct (handle_wf full_cfg (fun _ => None) NewSandboxRouter (ERegister "sb" 1000000000) wf_new_router)
    as (w & Hw & Hwf).
  unfold one_box. cbn [history]. rewrite Hw. exact Hwf.
Qed.

(** Two interleaved requests for the running box. *)
Lemma concurrent_requests_safe_witness :
  exists c, reach full_cfg (request full_cfg (sandboxes one_box)) (quiet one_box) c /\
    length (threads c) = 2%nat /\ panicked c = false /\
    forall id t1 t2, waking_call id c t1 -> waking_call id c t2 -> t1 = t2.
Proof.
  destruct (play_observe full_cfg (request full_cfg (sandboxes one_box)) (quiet one_box)
    ([req "a"; req "b"] ++ step_n 1 0 ++ step_n 1 1) (fun c => Nat.eqb (length (threads c)) 2)) as (c & Hr & Ho).
  - repeat (apply Forall_cons; split; [constructor; try (eexists; reflexivity)|]); constructor.
  - vm_compute. reflexivity.
  - exists c. apply Nat.eqb_eq in Ho. split; [exact Hr|]. split; [exact Ho|].
    destruct (concurrent_requests_safe full_cfg one_box c one_box_wf Hr) as (H1 & H2 & _).
    split; [exact H1|exact H2].
Defined.

End RouterConc.
