(* ===== verification/ScalerState.v ===== *)
(** * The scaler's state store

    src/internal/controlplane/scaler_state.go: the in-memory implementation of
    [ScalerStateStore] (cooldowns, pending launches, draining machines,
    migration locks, in-flight counts, creation backoff), and the small state
    monad in which the scaler's own code runs: the store, a clock that is read
    by index, and the ordered list of effects on the outside. Times are
    nanoseconds. *)

From S2P Require Import Prelude GoFloat.

Module ScalerState.

Record pendingLaunch := { MachineID : string; LaunchedAt : Z }.
Record drainState := { d_WorkerID : string; d_MachineID : string; d_Region : string; d_StartedAt : Z }.

(** [migrating] also holds the two named locks, as in the source. *)
Record InMemoryScalerState := {
  lastScaleUp : gmap string Z;
  pending : gmap string (list pendingLaunch);
  draining : gmap string drainState;
  lastEvacuation : gmap string Z;
  migrating : gset string;
  inFlight : gmap string Z;
  sandboxCount : gmap string Z;
  createFailures : gmap string Z;
  createBackoff : gmap string Z
}.

Definition NewInMemoryScalerState : InMemoryScalerState :=
  {| lastScaleUp := ∅; pending := ∅; draining := ∅; lastEvacuation := ∅; migrating := ∅;
     inFlight := ∅; sandboxCount := ∅; createFailures := ∅; createBackoff := ∅ |}.

(** Field updates. *)
Definition upd_lastScaleUp f m := {| lastScaleUp := f (lastScaleUp m); pending := pending m;
  draining := draining m; lastEvacuation := lastEvacuation m; migrating := migrating m;
  inFlight := inFlight m; sandboxCount := sandboxCount m; createFailures := createFailures m;
  createBackoff := createBackoff m |}.
Definition upd_pending f m := {| lastScaleUp := lastScaleUp m; pending := f (pending m);
  draining := draining m; lastEvacuation := lastEvacuation m; migrating := migrating m;
  inFlight := inFlight m; sandboxCount := sandboxCount m; createFailures := createFailures m;
  createBackoff := createBackoff m |}.
Definition upd_draining f m := {| lastScaleUp := lastScaleUp m; pending := pending m;
  draining := f (draining m); lastEvacuation := lastEvacuation m; migrating := migrating m;
  inFlight := inFlight m; sandboxCount := sandboxCount m; createFailures := createFailures m;
  createBackoff := createBackoff m |}.
Definition upd_lastEvacuation f m := {| lastScaleUp := lastScaleUp m; pending := pending m;
  draining := draining m; lastEvacuation := f (lastEvacuation m); migrating := migrating m;
  inFlight := inFlight m; sandboxCount := sandboxCount m; createFailures := createFailures m;
  createBackoff := createBackoff m |}.
Definition upd_migrating f m := {| lastScaleUp := lastScaleUp m; pending := pending m;
  draining := draining m; lastEvacuation := lastEvacuation m; migrating := f (migrating m);
  inFlight := inFlight m; sandboxCount := sandboxCount m; createFailures := createFailures m;
  createBackoff := createBackoff m |}.
Definition upd_inFlight f m := {| lastScaleUp := lastScaleUp m; pending := pending m;
  draining := draining m; lastEvacuation := lastEvacuation m; migrating := migrating m;
  inFlight := f (inFlight m); sandboxCount := sandboxCount m; createFailures := createFailures m;
  createBackoff := createBackoff m |}.
Definition upd_sandboxCount f m := {| lastScaleUp := lastScaleUp m; pending := pending m;
  draining := draining m; lastEvacuation := lastEvacuation m; migrating := migrating m;
  inFlight := inFlight m; sandboxCount := f (sandboxCount m); createFailures := createFailures m;
  createBackoff := createBackoff m |}.
Definition upd_createFailures f m := {| lastScaleUp := lastScaleUp m; pending := pending m;
  draining := draining m; lastEvacuation := lastEvacuation m; migrating := migrating m;
  inFlight := inFlight m; sandboxCount := sandboxCount m; createFailures := f (createFailures m);
  createBackoff := createBackoff m |}.
Definition upd_createBackoff f m := {| lastScaleUp := lastScaleUp m; pending := pending m;
  draining := draining m; lastEvacuation := lastEvacuation m; migrating := migrating m;
  inFlight := inFlight m; sandboxCount := sandboxCount m; createFailures := createFailures m;
  createBackoff := f (createBackoff m) |}.

(** ** The interface methods *)

Definition GetLastScaleUp (m : InMemoryScalerState) (region : string) : option Z := lastScaleUp m !! region.
Definition SetLastScaleUp (region : string) (t : Z) := upd_lastScaleUp (insert region t).

Definition GetPendingLaunches (m : InMemoryScalerState) (region : string) : list pendingLaunch :=
  default [] (pending m !! region).
Definition AddPendingLaunch (region : string) (p : pendingLaunch) (m : InMemoryScalerState) :=
  upd_pending (insert region (GetPendingLaunches m region ++ [p])) m.
Definition RemovePendingLaunch (region machineID : string) (m : InMemoryScalerState) :=
  upd_pending (insert region
    (List.filter (fun p => negb (String.eqb (MachineID p) machineID)) (GetPendingLaunches m region))) m.
Definition SetPendingLaunches (region : string) (l : list pendingLaunch) := upd_pending (insert region l).

Definition GetDraining (m : InMemoryScalerState) (machineID : string) : option drainState := draining m !! machineID.
Definition SetDraining (machineID : string) (d : drainState) := upd_draining (insert machineID d).
Definition RemoveDraining (machineID : string) := upd_draining (delete machineID).
Definition IsDraining (m : InMemoryScalerState) (machineID : string) : bool := bool_decide (is_Some (draining m !! machineID)).
Definition AllDraining (m : InMemoryScalerState) : list (string * drainState) := map_to_list (draining m).

Definition GetLastEvacuation (m : InMemoryScalerState) (workerID : string) : option Z := lastEvacuation m !! workerID.
Definition SetLastEvacuation (workerID : string) (t : Z) := upd_lastEvacuation (insert workerID t).

(** [sync.Map.LoadOrStore]: true when the caller got the lock. *)
Definition acquire (k : string) (m : InMemoryScalerState) : InMemoryScalerState * bool :=
  (upd_migrating (fun s => {[k]} ∪ s) m, bool_decide (k ∉ migrating m)).
Definition release (k : string) : InMemoryScalerState -> InMemoryScalerState := upd_migrating (fun s => s ∖ {[k]}).

Definition AcquireMigrationLock (sandboxID : string) := acquire sandboxID.
Definition ReleaseMigrationLock (sandboxID : string) := release sandboxID.
Definition TryAcquireEvacuationLock := acquire "__evacuation__".
Definition ReleaseEvacuationLock := release "__evacuation__".
Definition TryAcquireReplacingLock := acquire "__replacing__".
Definition ReleaseReplacingLock := release "__replacing__".

Definition GetInFlight (m : InMemoryScalerState) (workerID : string) : Z := default 0 (inFlight m !! workerID).
Definition IncrInFlight (workerID : string) (m : InMemoryScalerState) :=
  upd_inFlight (insert workerID (GetInFlight m workerID + 1)) m.
Definition DecrInFlight (workerID : string) (m : InMemoryScalerState) :=
  let n := GetInFlight m workerID - 1 in
  if n <=? 0 then upd_inFlight (delete workerID) m else upd_inFlight (insert workerID n) m.

Definition GetLastSandboxCount (m : InMemoryScalerState) (region : string) : option Z := sandboxCount m !! region.
Definition SetLastSandboxCount (region : string) (n : Z) := upd_sandboxCount (insert region n).

Definition IncrCreationFailures (region : string) (m : InMemoryScalerState) : InMemoryScalerState * Z :=
  let n := default 0 (createFailures m !! region) + 1 in
  (upd_createFailures (insert region n) m, n).
Definition ResetCreationFailures (region : string) (m : InMemoryScalerState) :=
  upd_createBackoff (delete region) (upd_createFailures (delete region) m).
(** [now] is the store's own reading of the clock. *)
Definition GetCreationBackoffUntil (m : InMemoryScalerState) (now : Z) (region : string) : option Z :=
  match createBackoff m !! region with
  | Some t => if t <? now then None else Some t
  | None => None
  end.
Definition SetCreationBackoffUntil (region : string) (until : Z) := upd_createBackoff (insert region until).

(** ** The scaler monad *)

(** What the scaler does to the outside world. [Launch] and the other [Go...]
    effects start a goroutine. *)
Inductive effect :=
| Launch (region placeholder : string)
| GoHibernateBatch (worker : string) (count : nat)
| GoEvacuateBatch (worker : string) (count : nat)
| GoDrainWorker (worker machine region : string)
| GoReplaceOneStale (region worker machine : string) (moreStale : bool)
| DestroyMachine (machine : string)
| GoDestroyDrained (machine : string).

Record world := { st : InMemoryScalerState; reads : nat; log : list effect }.

Definition M (A : Type) : Type := world -> world * A.

Definition ret {A} (a : A) : M A := fun w => (w, a).
Definition bind {A B} (p : M A) (k : A -> M B) : M B := fun w => let '(w, a) := p w in k a w.

Declare Scope scaler_scope.
Notation "'do' x <- p ; q" := (bind p (fun x => q))
  (at level 200, x name, p at level 100, q at level 200) : scaler_scope.

Definition get : M InMemoryScalerState := fun w => (w, st w).
Definition modify (f : InMemoryScalerState -> InMemoryScalerState) : M unit :=
  fun w => ({| st := f (st w); reads := reads w; log := log w |}, tt).
(** An operation of the store that returns a value. *)
Definition update {A} (f : InMemoryScalerState -> InMemoryScalerState * A) : M A :=
  fun w => let '(m, a) := f (st w) in ({| st := m; reads := reads w; log := log w |}, a).
Definition emit (e : effect) : M unit :=
  fun w => ({| st := st w; reads := reads w; log := log w ++ [e] |}, tt).
(** [time.Now()] *)
Definition now (clock : nat -> Z) : M Z :=
  fun w => ({| st := st w; reads := S (reads w); log := log w |}, clock (reads w)).

Fixpoint for_each {A} (l : list A) (body : A -> M unit) : M unit :=
  match l with
  | [] => ret tt
  | a :: l => bind (body a) (fun _ => for_each l body)
  end.

Definition when (b : bool) (p : M unit) : M unit := if b then p else ret tt.

(** ** Facts about the store *)

Lemma InFlight_incr_decr m w : 0 <= GetInFlight m w ->
  GetInFlight (DecrInFlight w (IncrInFlight w m)) w = GetInFlight m w.
Proof.
  unfold DecrInFlight, IncrInFlight, GetInFlight. cbn. rewrite lookup_insert_eq. cbn. intros H.
  destruct (_ <=? 0) eqn:E; bool_to_prop; cbn.
  - rewrite lookup_delete_eq. cbn. lia.
  - rewrite lookup_insert_eq. cbn. lia.
Qed.

Lemma InFlight_frame m w w' : w <> w' ->
  GetInFlight (DecrInFlight w (IncrInFlight w m)) w' = GetInFlight m w'.
Proof.
  intros Hne. unfold DecrInFlight, IncrInFlight, GetInFlight. cbn. rewrite lookup_insert_eq. cbn.
  destruct (_ <=? 0); cbn.
  - by rewrite lookup_delete_ne, lookup_insert_ne.
  - by rewrite !lookup_insert_ne.
Qed.

Lemma acquire_spec k m : (acquire k m).2 = true <-> k ∉ migrating m.
Proof. cbn. by rewrite bool_decide_eq_true. Qed.

Lemma acquire_held k m : k ∈ migrating (acquire k m).1.
Proof. cbn. set_solver. Qed.

Lemma release_acquire k m : k ∉ migrating m -> migrating (release k (acquire k m).1) = migrating m.
Proof. cbn. set_solver. Qed.

Lemma IsDraining_true m k : IsDraining m k = true <-> is_Some (draining m !! k).
Proof. unfold IsDraining. by rewrite bool_decide_eq_true. Qed.

Lemma AddPendingLaunch_length region p m :
  length (GetPendingLaunches (AddPendingLaunch region p m) region) = S (length (GetPendingLaunches m region)).
Proof.
  unfold AddPendingLaunch, GetPendingLaunches. cbn. rewrite lookup_insert_eq. cbn.
  rewrite length_app. cbn. lia.
Qed.

#[export] Hint Rewrite AddPendingLaunch_length : oc.

(** ** Relations every step of a computation keeps *)

Definition pres {A} (R : relation world) (p : M A) : Prop := forall w, R w (p w).1.

Section Pres.
Context (R : relation world) `{!PreOrder R}.

Lemma pres_ret {A} (a : A) : pres R (ret a).
Proof. intros w. cbn. reflexivity. Qed.

Lemma pres_bind {A B} (p : M A) (k : A -> M B) : pres R p -> (forall a, pres R (k a)) -> pres R (bind p k).
Proof.
  intros Hp Hk w. unfold bind. specialize (Hp w). destruct (p w) as [w1 a]. cbn in Hp.
  etrans; [exact Hp|apply Hk].
Qed.

Lemma pres_get : pres R get.
Proof. intros w. cbn. reflexivity. Qed.

Lemma pres_for_each {A} (l : list A) body : (forall a, pres R (body a)) -> pres R (for_each l body).
Proof. intros H. induction l; [apply pres_ret|]. by apply pres_bind. Qed.

Lemma pres_when b p : pres R p -> pres R (when b p).
Proof. intros H. destruct b; [done|apply pres_ret]. Qed.

End Pres.

(** Walk through a computation, leaving the state changes and effects. *)
Ltac walk :=
  repeat first
  [ apply pres_ret; exact _
  | apply pres_get; exact _
  | apply pres_bind; [exact _| |intros ?]
  | apply pres_for_each; [exact _|intros ?]
  | apply pres_when; [exact _|]
  | match goal with |- pres _ (if ?b then _ else _) => destruct b end
  | match goal with |- pres _ (match ?x with _ => _ end) => destruct x end ].

End ScalerState.
