(* ===== verification/Scaler.v ===== *)
(** * The fleet scaler

    src/internal/controlplane/scaler.go: one evaluation of a region (expiry of
    pending launches, emergency hibernation, drain progress, evacuation, the
    scale-up and scale-down decisions, rolling replacement), machine creation
    with size fallback and exponential backoff, and the choice of migration
    targets. The registry's answers are fixed during one evaluation; goroutines
    the code starts are effects, their bodies are modelled here
    ([launch_goroutine], [hibernateBatch]) or in [Migration]. *)

From S2P Require Import Prelude GoFloat ScalerState.
Import GoFloat ScalerState.
#[local] Open Scope Z_scope.
#[local] Open Scope scaler_scope.

Module Scaler.

(** [WorkerInfo] of worker_registry.go: the fields the scaler reads. *)
Record WorkerInfo := {
  wID : string; wMachineID : string; wRegion : string;
  Capacity : Z; Current : Z;
  CPUPct : float64; MemPct : float64; DiskPct : float64;
  TotalMemoryMB : Z; GoldenVersion : string; WorkerVersion : string
}.

(** ** Constants *)

Definition second : Z := 1000000000.
Definition minute : Z := 60 * second.
Definition scaleUpThreshold : float64 := of_frac 50 100.
Definition scaleDownThreshold : float64 := of_frac 20 100.
Definition maxWorkersPerRegion : Z := 10.
Definition pendingWorkerTTL : Z := 10 * minute.
Definition resourceCPUThreshold : float64 := of_int 70.
Definition resourceMemThreshold : float64 := of_int 70.
Definition resourceDiskThreshold : float64 := of_int 60.
Definition evacuationCPUThreshold : float64 := of_int 80.
Definition evacuationMemThreshold : float64 := of_int 80.
Definition evacuationDiskThreshold : float64 := of_int 70.
Definition emergencyCPUThreshold : float64 := of_int 95.
Definition emergencyMemThreshold : float64 := of_int 95.
Definition emergencyDiskThreshold : float64 := of_int 90.
Definition evacuationBatchSize : nat := 3.
Definition evacuationCooldown : Z := 60 * second.
Definition drainTimeout : Z := 6 * 60 * minute.
Definition creationFailureThreshold : Z := 3.
Definition creationBackoffMin : Z := 1 * minute.
Definition creationBackoffMax : Z := 10 * minute.
(** capacity_reporter.go *)
Definition memPressureThresholdPct : float64 := of_int 85.

(** ** Configuration *)

Record ScalerConfig := {
  c_MinWorkers : Z; c_MaxWorkers : Z; c_IdleReserve : Z; c_Cooldown : Z; c_Interval : Z;
  c_MachineSizes : list string
}.

(** The scaler's own fields; [targetWorkerVersion] is set by image refreshes. *)
Record Config := {
  minWorkers : Z; maxWorkers : Z; idleReserve : Z; cooldown : Z; interval : Z;
  machineSizes : list string; targetWorkerVersion : string
}.

Definition NewScaler (cfg : ScalerConfig) : Config := {|
  interval := if c_Interval cfg <=? 0 then 30 * second else c_Interval cfg;
  cooldown := if c_Cooldown cfg <=? 0 then 5 * minute else c_Cooldown cfg;
  minWorkers := if c_MinWorkers cfg <=? 0 then 1 else c_MinWorkers cfg;
  maxWorkers := if c_MaxWorkers cfg <=? 0 then maxWorkersPerRegion else c_MaxWorkers cfg;
  idleReserve := if c_IdleReserve cfg <? 0 then 0 else c_IdleReserve cfg;
  machineSizes := c_MachineSizes cfg;
  targetWorkerVersion := "" |}.

(** [ScalerRegistry], as it answers during one evaluation, and the database's
    count of unfinished checkpoint uploads ([None]: the query failed;
    [no_store]: no database is configured). *)
Record Env := {
  Regions : list string;
  GetWorkersByRegion : string -> list WorkerInfo;
  RegionUtilization : string -> float64;
  RegionResourcePressure : string -> float64 * float64 * float64;
  no_store : bool;
  CountPendingHibernationUploads : string -> option Z;
  clock : nat -> Z
}.

(** ** Decisions that do not touch the state *)

(** Machines the autoscaler created and may destroy. *)
Definition managed (w : WorkerInfo) : bool :=
  negb (String.eqb (wMachineID w) "") && String.prefix "osb-worker-" (wMachineID w) &&
  negb (String.eqb (wMachineID w) "osb-worker-1").

Definition count_if {A} (f : A -> bool) (l : list A) : Z := Z.of_nat (length (List.filter f l)).

Definition sum (f : WorkerInfo -> Z) (l : list WorkerInfo) : Z := fold_right (fun w n => f w + n) 0 l.

(** [remaining / growthRate] truncates, as in Go. *)
Definition growing_fast (prevSandboxes currentSandboxes totalCapacity : Z) : bool :=
  let growthRate := currentSandboxes - prevSandboxes in
  let remaining := totalCapacity - currentSandboxes in
  (0 <? growthRate) && (0 <? totalCapacity) && (0 <? remaining) && (Z.quot remaining growthRate <=? 6).

(** The [needsScaleUp] cascade of [evaluateRegion]. *)
Definition needs_scale_up (util cpu mem disk : float64) (prev cur cap : Z) : bool :=
  fgt util scaleUpThreshold || fgt cpu resourceCPUThreshold || fgt mem resourceMemThreshold ||
  fgt disk resourceDiskThreshold || growing_fast prev cur cap.

(** Insertion by [Current], as [sort.Slice] does on short slices. *)
Fixpoint insert_by_current (w : WorkerInfo) (l : list WorkerInfo) : list WorkerInfo :=
  match l with
  | [] => [w]
  | x :: l' => if Current w <? Current x then w :: x :: l' else x :: insert_by_current w l'
  end.
Definition sort_by_current (l : list WorkerInfo) : list WorkerInfo :=
  fold_left (fun acc w => insert_by_current w acc) l [].

(** The first worker with the smallest load, as the selection loops find it. *)
Definition lightest (l : list WorkerInfo) : option WorkerInfo :=
  fold_left (fun best w =>
    match best with
    | None => Some w
    | Some b => if Current w <? Current b then Some w else Some b
    end) l None.

(** [findMigrationTarget]: eligibility, then the best score. *)
Definition eligible (m : InMemoryScalerState) (exclude : string) (requiredMemMB : Z) (w : WorkerInfo) : bool :=
  let remaining := Capacity w - Current w in
  negb (String.eqb (wID w) exclude) &&
  negb (IsDraining m (wMachineID w)) &&
  negb (0 <? GetInFlight m (wID w)) &&
  negb ((remaining <=? 0) || fgt (CPUPct w) (of_int 85) || fgt (MemPct w) (of_int 85) ||
        fgt (DiskPct w) (of_int 85)) &&
  negb ((0 <? requiredMemMB) && (0 <? TotalMemoryMB w) &&
        (let actualUsedMB := to_int (fdiv (fmul (MemPct w) (of_int (TotalMemoryMB w))) (of_int 100)) in
         let reserveMB := Z.quot (TotalMemoryMB w) 10 in
         TotalMemoryMB w - actualUsedMB - reserveMB <? requiredMemMB)).

(** Go evaluates [a / 100 * b / 100 * c / 100] from the left. *)
Definition migration_score (w : WorkerInfo) : float64 :=
  let h := of_int 100 in
  let free x := fsub h x in
  fmul (of_int (Capacity w - Current w))
    (fdiv (fmul (fdiv (fmul (fdiv (free (CPUPct w)) h) (free (MemPct w))) h) (free (DiskPct w))) h).

Fixpoint target_loop (ok : WorkerInfo -> bool) (workers : list WorkerInfo) (best : option WorkerInfo)
    (bestScore : float64) : option WorkerInfo :=
  match workers with
  | [] => best
  | w :: rest =>
      if negb (ok w) then target_loop ok rest best bestScore
      else if fgt (migration_score w) bestScore then target_loop ok rest (Some w) (migration_score w)
      else target_loop ok rest best bestScore
  end.

Definition findMigrationTarget (env : Env) (m : InMemoryScalerState) (region exclude : string)
    (requiredMemMB : Z) : option WorkerInfo :=
  target_loop (eligible m exclude requiredMemMB) (GetWorkersByRegion env region) None (of_int (-1)).

(** ** Machine creation *)

(** 64-bit two's complement, for [time.Duration]. *)
Definition wrap64 (n : Z) : Z := (n + 2 ^ 63) mod 2 ^ 64 - 2 ^ 63.

(** [creationBackoffMin * time.Duration(1 << (failures - threshold))], capped. *)
Definition creation_backoff (failures : Z) : Z :=
  let k := failures - creationFailureThreshold in
  let factor := if 64 <=? k then 0 else wrap64 (2 ^ k) in
  let backoff := wrap64 (creationBackoffMin * factor) in
  if creationBackoffMax <? backoff then creationBackoffMax else backoff.

(** Errors of the compute pool: quota or capacity errors may fall through. *)
Inductive pool_error := QuotaExceeded | OtherError.

(** [createMachineWithFallback]: the machine and the size used. *)
Fixpoint create_loop (create : string -> result pool_error string) (sizes : list string) :
  result pool_error (string * string) :=
  match sizes with
  | [] => Err QuotaExceeded
  | size :: rest =>
      match create size with
      | Ok machine => Ok (machine, size)
      | Err OtherError => Err OtherError
      | Err QuotaExceeded => create_loop create rest
      end
  end.

Definition createMachineWithFallback (cfg : Config) (create : string -> result pool_error string) :
  result pool_error (string * string) :=
  create_loop create (match machineSizes cfg with [] => [""%string] | l => l end).

Section Evaluate.
Context (cfg : Config) (env : Env).

Definition time_now : M Z := now (clock env).

(** [s.state.GetCreationBackoffUntil(region)] *)
Definition backoff_active (region : string) : M bool :=
  do t <- time_now;
  do m <- get;
  ret (bool_decide (is_Some (GetCreationBackoffUntil m t region))).

Definition placeholder (t : Z) : string := str (raw "osb-worker-pending-" ++ itoa (Z.to_N t)).

(** [scaleUp] up to the [go] statement. *)
Definition scaleUp (region : string) : M unit :=
  do blocked <- backoff_active region;
  if blocked then ret tt
  else
    do t <- time_now;
    do _ <- modify (SetLastScaleUp region t);
    do t <- time_now;
    let placeholderID := placeholder t in
    do t <- time_now;
    do _ <- modify (AddPendingLaunch region {| MachineID := placeholderID; LaunchedAt := t |});
    emit (Launch region placeholderID).

(** The goroutine [scaleUp] starts, once the pool has answered. *)
Definition launch_goroutine (create : string -> result pool_error string) (region placeholderID : string) : M unit :=
  match createMachineWithFallback cfg create with
  | Err _ =>
      do _ <- modify (RemovePendingLaunch region placeholderID);
      do failures <- update (IncrCreationFailures region);
      if creationFailureThreshold <=? failures then
        do t <- time_now;
        modify (SetCreationBackoffUntil region (t + creation_backoff failures))
      else ret tt
  | Ok (machine, _) =>
      do _ <- modify (RemovePendingLaunch region placeholderID);
      do t <- time_now;
      do _ <- modify (AddPendingLaunch region {| MachineID := machine; LaunchedAt := t |});
      modify (ResetCreationFailures region)
  end.

(** ** Pending launches *)

Definition registered (region : string) (machineID : string) : bool :=
  existsb (fun w => negb (String.eqb (wMachineID w) "") && String.eqb (wMachineID w) machineID)
    (GetWorkersByRegion env region).

Fixpoint expire_loop (region : string) (l remaining : list pendingLaunch) : M (list pendingLaunch) :=
  match l with
  | [] => ret remaining
  | p :: l =>
      if registered region (MachineID p) then expire_loop region l remaining
      else
        do t <- time_now;
        if pendingWorkerTTL <? t - LaunchedAt p then
          do _ <- emit (DestroyMachine (MachineID p));
          expire_loop region l remaining
        else expire_loop region l (remaining ++ [p])
  end.

Definition expirePending (region : string) : M unit :=
  do m <- get;
  match GetPendingLaunches m region with
  | [] => ret tt
  | l =>
      do remaining <- expire_loop region l [];
      modify (SetPendingLaunches region remaining)
  end.

(** ** Emergency hibernation *)

(** [last, ok := ...; ok && time.Since(last) < evacuationCooldown] *)
Definition evacuated_recently (workerID : string) : M bool :=
  do m <- get;
  match GetLastEvacuation m workerID with
  | Some last => do t <- time_now; ret (t - last <? evacuationCooldown)
  | None => ret false
  end.

Definition emergencyHibernate (workers : list WorkerInfo) : M unit :=
  for_each workers (fun w =>
    if flt (CPUPct w) emergencyCPUThreshold && flt (MemPct w) emergencyMemThreshold &&
       flt (DiskPct w) emergencyDiskThreshold then ret tt
    else
      do recent <- evacuated_recently (wID w);
      if recent then ret tt
      else
        do t <- time_now;
        do _ <- modify (SetLastEvacuation (wID w) t);
        emit (GoHibernateBatch (wID w) evacuationBatchSize)).

(** ** Drain progress *)

Definition getDrainingWorkerSandboxCount (workerID : string) : Z :=
  match List.find (fun w => String.eqb (wID w) workerID) (flat_map (GetWorkersByRegion env) (Regions env)) with
  | Some w => Current w
  | None => -1
  end.

Definition hibernationUploadsSettled (workerID : string) : bool :=
  if no_store env then true
  else match CountPendingHibernationUploads env workerID with
       | Some n => n =? 0
       | None => false
       end.

(** The scan over the region's workers: the first with this machine and no
    sandbox decides. *)
Definition drained_worker (region machineID : string) : option WorkerInfo :=
  List.find (fun w => String.eqb (wMachineID w) machineID && (Current w =? 0)) (GetWorkersByRegion env region).

Definition checkDrainingWorkers (region : string) : M unit :=
  do m <- get;
  for_each (AllDraining m) (fun '(machineID, d) =>
    if negb (String.eqb (d_Region d) region) then ret tt
    else
      do t <- time_now;
      if drainTimeout <? t - d_StartedAt d then
        if (getDrainingWorkerSandboxCount (d_WorkerID d) =? 0) && hibernationUploadsSettled (d_WorkerID d) then
          do _ <- emit (GoDestroyDrained machineID);
          modify (RemoveDraining machineID)
        else modify (RemoveDraining machineID)
      else
        match drained_worker region machineID with
        | Some _ =>
            if hibernationUploadsSettled (d_WorkerID d) then
              do _ <- emit (GoDestroyDrained machineID);
              modify (RemoveDraining machineID)
            else ret tt
        | None => ret tt
        end).

(** ** Evacuation *)

Fixpoint collect_hot (workers hot : list WorkerInfo) : M (list WorkerInfo) :=
  match workers with
  | [] => ret hot
  | w :: rest =>
      if flt (CPUPct w) evacuationCPUThreshold && flt (MemPct w) evacuationMemThreshold &&
         flt (DiskPct w) evacuationDiskThreshold then collect_hot rest hot
      else
        do m <- get;
        if IsDraining m (wMachineID w) then collect_hot rest hot
        else
          do recent <- evacuated_recently (wID w);
          if recent then collect_hot rest hot else collect_hot rest (hot ++ [w])
  end.

(** The lock stays held for the goroutine when one is started. *)
Definition evacuateHotWorkers (region : string) (workers : list WorkerInfo) : M unit :=
  do got <- update TryAcquireEvacuationLock;
  if negb got then ret tt
  else
    do hot <- collect_hot workers [];
    match sort_by_current hot with
    | [] => modify ReleaseEvacuationLock
    | src :: _ =>
        do m <- get;
        match findMigrationTarget env m region (wID src) 0 with
        | None => modify ReleaseEvacuationLock
        | Some _ =>
            do t <- time_now;
            do _ <- modify (SetLastEvacuation (wID src) t);
            emit (GoEvacuateBatch (wID src) evacuationBatchSize)
        end
    end.

(** ** Scale-down *)

Definition drain_of (w : WorkerInfo) (region : string) (t : Z) : drainState :=
  {| d_WorkerID := wID w; d_MachineID := wMachineID w; d_Region := region; d_StartedAt := t |}.

(** The version guard: a fleet that is, or may be, mid-roll is not shrunk. *)
Definition versions_settled (workers : list WorkerInfo) : bool :=
  if String.eqb (targetWorkerVersion cfg) ""
  then forallb (fun w => String.eqb (WorkerVersion w) "") workers
  else forallb (fun w => String.eqb (WorkerVersion w) (targetWorkerVersion cfg) ||
                         String.eqb (WorkerVersion w) "") workers.

Definition smartScaleDown (region : string) (workers : list WorkerInfo) : M unit :=
  do m <- get;
  match GetPendingLaunches m region with
  | _ :: _ => ret tt
  | [] =>
      if negb (versions_settled workers) then ret tt
      else
        match lightest (List.filter (fun w => managed w && negb (IsDraining m (wMachineID w))) workers) with
        | None => ret tt
        | Some target =>
            let availableAfter := count_if (fun w =>
              negb (String.eqb (wMachineID w) (wMachineID target)) && negb (IsDraining m (wMachineID w)) &&
              flt (MemPct w) memPressureThresholdPct) workers in
            if availableAfter <? 1 then ret tt
            else
              do t <- time_now;
              do _ <- modify (SetDraining (wMachineID target) (drain_of target region t));
              emit (GoDrainWorker (wID target) (wMachineID target) region)
        end
  end.

(** ** Rolling replacement *)

Definition rollingReplace (region : string) (workers : list WorkerInfo) : M unit :=
  if String.eqb (targetWorkerVersion cfg) "" then ret tt
  else
    do m <- get;
    let mine := List.filter (fun w => negb (IsDraining m (wMachineID w)) && managed w) workers in
    let current := List.filter (fun w => String.eqb (WorkerVersion w) (targetWorkerVersion cfg)) mine in
    let stale := List.filter (fun w => negb (String.eqb (WorkerVersion w) (targetWorkerVersion cfg))) mine in
    match lightest stale with
    | None => ret tt
    | Some target =>
        do got <- update TryAcquireReplacingLock;
        if negb got then ret tt
        else
          match current with
          | [] =>
              do m <- get;
              do _ <- (match GetPendingLaunches m region with
                       | _ :: _ => ret tt
                       | [] => scaleUp region
                       end);
              modify ReleaseReplacingLock
          | _ :: _ =>
              do t <- time_now;
              do _ <- modify (SetDraining (wMachineID target) (drain_of target region t));
              emit (GoReplaceOneStale region (wID target) (wMachineID target) (Nat.ltb 1 (length stale)))
          end
    end.

(** ** One evaluation of a region *)

Fixpoint launch_n (n : nat) (region : string) : M unit :=
  match n with
  | O => ret tt
  | S n => do _ <- scaleUp region; launch_n n region
  end.

(** The guarded scale-up of phase 3. *)
Definition guarded_scale_up (region : string) (workers : list WorkerInfo) : M unit :=
  do m <- get;
  do cooling <- (match GetLastScaleUp m region with
                 | Some last => do t <- time_now; ret (t - last <? cooldown cfg)
                 | None => ret false
                 end);
  if cooling then ret tt
  else match GetPendingLaunches m region with
       | _ :: _ => ret tt
       | [] =>
           let effectiveWorkers := count_if (fun w => negb (IsDraining m (wMachineID w))) workers in
           if maxWorkers cfg <=? effectiveWorkers + Z.of_nat (length (GetPendingLaunches m region)) then ret tt
           else scaleUp region
       end.

(** Phases 3 to 5, for a region that has its minimum of workers. *)
Definition scale_region (region : string) (workers : list WorkerInfo) (needsScaleUp : bool) : M unit :=
  do m <- get;
  let pendingCount := Z.of_nat (length (GetPendingLaunches m region)) in
  let totalWorkers := Z.of_nat (length workers) + pendingCount in
  let idleWorkers := count_if (fun w => negb (IsDraining m (wMachineID w)) && (Current w =? 0)) workers in
  do _ <- when ((idleWorkers + pendingCount <? idleReserve cfg) && (totalWorkers + pendingCount <? maxWorkers cfg))
            (scaleUp region);
  do _ <- (if needsScaleUp then guarded_scale_up region workers
           else when (flt (RegionUtilization env region) scaleDownThreshold &&
                      (minWorkers cfg <? Z.of_nat (length workers))) (smartScaleDown region workers));
  rollingReplace region workers.

Definition evaluateRegion (region : string) : M unit :=
  let workers := GetWorkersByRegion env region in
  let '(maxCPU, maxMem, maxDisk) := RegionResourcePressure env region in
  do _ <- expirePending region;
  do _ <- emergencyHibernate workers;
  do _ <- checkDrainingWorkers region;
  do _ <- evacuateHotWorkers region workers;
  do m <- get;
  let currentSandboxes := sum Current workers in
  let totalCapacity := sum Capacity workers in
  let prevSandboxes := default 0 (GetLastSandboxCount m region) in
  let needsScaleUp := needs_scale_up (RegionUtilization env region) maxCPU maxMem maxDisk
                        prevSandboxes currentSandboxes totalCapacity in
  do _ <- modify (SetLastSandboxCount region currentSandboxes);
  let totalWorkers := Z.of_nat (length workers) + Z.of_nat (length (GetPendingLaunches m region)) in
  if totalWorkers <? minWorkers cfg then
    do blocked <- backoff_active region;
    if blocked then ret tt
    else launch_n (Z.to_nat (minWorkers cfg - totalWorkers)) region
  else scale_region region workers needsScaleUp.

End Evaluate.

(** [evaluate]: refresh of the target version on the first and every second
    tick, then every region in turn; [refresh] is the pool's answer ([None]
    when the pool cannot refresh). *)
Definition refreshed (cfg : Config) (refreshCount : Z) (refresh : option (result unit string)) : Config :=
  if (refreshCount =? 1) || (Z.rem refreshCount 2 =? 0) then
    match refresh with
    | Some (Ok version) =>
        if negb (String.eqb version "") && negb (String.eqb version (targetWorkerVersion cfg)) then
          {| minWorkers := minWorkers cfg; maxWorkers := maxWorkers cfg; idleReserve := idleReserve cfg;
             cooldown := cooldown cfg; interval := interval cfg; machineSizes := machineSizes cfg;
             targetWorkerVersion := version |}
        else cfg
    | _ => cfg
    end
  else cfg.

Definition evaluate (cfg : Config) (env : Env) (refreshCount : Z) (refresh : option (result unit string))
    (poolRegions : option (list string)) : M Config :=
  let cfg := refreshed cfg refreshCount refresh in
  let regions := match Regions env with
                 | [] => default [] poolRegions
                 | l => l
                 end in
  do _ <- for_each regions (evaluateRegion cfg env);
  ret cfg.

(** ** Emergency hibernation, the goroutine *)

(** A sandbox as the worker lists it. *)
Record Sandbox := { SandboxId : string; Status : string }.

(** One pass of [hibernateBatch] over the listing for status [want]; [hib] is
    the outcome of the worker call. Returns the sandboxes attempted and the
    number hibernated so far. *)
Fixpoint hibernate_pass (hib : string -> bool) (want : string) (count : nat) (sandboxes : list Sandbox)
    (hibernated : nat) : list string * nat :=
  match sandboxes with
  | [] => ([], hibernated)
  | sb :: rest =>
      if Nat.leb count hibernated then ([], hibernated)
      else if negb (String.eqb (Status sb) want) then hibernate_pass hib want count rest hibernated
      else
        let '(l, n) := hibernate_pass hib want count rest
                         (if hib (SandboxId sb) then S hibernated else hibernated) in
        (SandboxId sb :: l, n)
  end.

(** The listing is [None] when the worker cannot be reached. *)
Definition hibernateBatch (listing : option (list Sandbox)) (hib : string -> bool) (count : nat) : list string * nat :=
  match listing with
  | None => ([], 0%nat)
  | Some sandboxes =>
      let '(l1, n1) := if Nat.leb count 0 then ([], 0%nat)
                       else hibernate_pass hib "paused" count sandboxes 0 in
      if Nat.leb count n1 then (l1, n1)
      else let '(l2, n2) := hibernate_pass hib "running" count sandboxes n1 in (l1 ++ l2, n2)
  end.

(** ** Choice of a migration target *)

Lemma target_loop_spec ok workers best bs seen :
  (forall w, In w seen -> ok w = true -> fgt (migration_score w) bs = false) ->
  (match best with
   | Some b => In b seen /\ ok b = true /\ bs = migration_score b
   | None => True
   end) ->
  match target_loop ok workers best bs with
  | Some b => In b (seen ++ workers) /\ ok b = true /\
      (forall w, In w (seen ++ workers) -> ok w = true -> fgt (migration_score w) (migration_score b) = false)
  | None => best = None /\
      (forall w, In w (seen ++ workers) -> ok w = true -> fgt (migration_score w) bs = false)
  end.
Proof.
  revert best bs seen; induction workers as [|w rest IH]; intros best bs seen Hs Hb; cbn [target_loop].
  { rewrite app_nil_r. destruct best as [b|]; [|auto]. destruct Hb as (? & ? & ->). auto. }
  replace (seen ++ w :: rest) with ((seen ++ [w]) ++ rest) by by rewrite <- app_assoc.
  destruct (ok w) eqn:Eok; cbn [negb].
  2: { apply IH.
       - intros v Hv Ho. apply in_app_iff in Hv as [Hv|[<-|[]]]; [auto|congruence].
       - destruct best; [|done]. rewrite in_app_iff. tauto. }
  destruct (fgt (migration_score w) bs) eqn:Eg.
  - specialize (IH (Some w) (migration_score w) (seen ++ [w])). destruct (target_loop _ _ _ _) eqn:E.
    + apply IH.
      * intros v Hv Ho. apply in_app_iff in Hv as [Hv|[<-|[]]]; [|apply flt_irrefl].
        destruct (fgt (migration_score v) (migration_score w)) eqn:E2; [|done].
        rewrite <- (Hs v Hv Ho). symmetry. by eapply flt_trans.
      * rewrite in_app_iff. cbn. auto.
    + destruct IH as [? _]; [| |done].
      * intros v Hv Ho. apply in_app_iff in Hv as [Hv|[<-|[]]]; [|apply flt_irrefl].
        destruct (fgt (migration_score v) (migration_score w)) eqn:E2; [|done].
        rewrite <- (Hs v Hv Ho). symmetry. by eapply flt_trans.
      * rewrite in_app_iff. cbn. auto.
  - apply IH.
    + intros v Hv Ho. apply in_app_iff in Hv as [Hv|[<-|[]]]; auto.
    + destruct best; [|done]. rewrite in_app_iff. tauto.
Qed.

(** [findMigrationTarget] returns an eligible worker of the region (not the
    source, not draining, no migration in flight towards it, free slots, every
    resource at most 85%, real memory for the sandbox plus a tenth in reserve)
    such that no eligible worker scores higher; it returns nothing only when no
    eligible worker scores above the initial -1. *)
Theorem findMigrationTarget_best env m region exclude mem :
  let workers := GetWorkersByRegion env region in
  match findMigrationTarget env m region exclude mem with
  | Some b => In b workers /\ eligible m exclude mem b = true /\
      forall w, In w workers -> eligible m exclude mem w = true ->
        fgt (migration_score w) (migration_score b) = false
  | None => forall w, In w workers -> eligible m exclude mem w = true ->
        fgt (migration_score w) (of_int (-1)) = false
  end.
Proof.
  intros workers. unfold findMigrationTarget. fold workers.
  pose proof (target_loop_spec (eligible m exclude mem) workers None (of_int (-1)) []) as H.
  destruct (target_loop _ _ _ _); apply H; done.
Qed.

(** ** Machine creation *)

Lemma wrap64_small n : - 2 ^ 63 <= n < 2 ^ 63 -> wrap64 n = n.
Proof. intros H. unfold wrap64. rewrite Z.mod_small by lia. lia. Qed.

(** After [f] consecutive failures the creation backoff is one minute doubled
    [f - 3] times and capped at ten minutes, for every count from the threshold
    up to 30. *)
Theorem creation_backoff_doubles f :
  3 <= f <= 30 -> creation_backoff f = Z.min creationBackoffMax (creationBackoffMin * 2 ^ (f - 3)).
Proof.
  intros Hf. unfold creation_backoff, creationFailureThreshold.
  assert (Hp : 1 <= 2 ^ (f - 3) <= 2 ^ 27).
  { split; [by apply (Z.pow_le_mono_r 2 0); lia|]. apply Z.pow_le_mono_r; lia. }
  replace (64 <=? f - 3) with false by (symmetry; apply Z.leb_gt; lia).
  assert (creationBackoffMin = 60000000000) as -> by reflexivity.
  assert (creationBackoffMax = 600000000000) as -> by reflexivity.
  assert (E27 : 2 ^ 27 = 134217728) by reflexivity.
  assert (E63 : 2 ^ 63 = 9223372036854775808) by reflexivity.
  rewrite (wrap64_small (2 ^ (f - 3))) by lia. rewrite wrap64_small by lia.
  destruct (_ <? _) eqn:E; bool_to_prop; lia.
Qed.

Lemma creation_backoff_doubles_witness :
  3 <= 5 <= 30 /\ creation_backoff 5 = Z.min creationBackoffMax (creationBackoffMin * 2 ^ (5 - 3)).
Proof. split; [lia|]. apply (creation_backoff_doubles 5). lia. Defined.

(** [createMachineWithFallback] tries the sizes in order. *)
Lemma create_loop_spec create sizes :
  match create_loop create sizes with
  | Ok (machine, size) => exists pre post, sizes = pre ++ size :: post /\ create size = Ok machine /\
      Forall (fun s => create s = Err QuotaExceeded) pre
  | Err OtherError => exists pre size post, sizes = pre ++ size :: post /\ create size = Err OtherError /\
      Forall (fun s => create s = Err QuotaExceeded) pre
  | Err QuotaExceeded => Forall (fun s => create s = Err QuotaExceeded) sizes
  end.
Proof.
  induction sizes as [|s rest IH]; cbn [create_loop]; [constructor|].
  destruct (create s) as [machine|[]] eqn:E.
  - exists [], rest. auto.
  - destruct (create_loop create rest) as [[machine size]|[]].
    + destruct IH as (pre & post & -> & ? & ?). exists (s :: pre), post. auto.
    + auto.
    + destruct IH as (pre & size & post & -> & ? & ?). exists (s :: pre), size, post. auto.
  - exists [], s, rest. auto.
Qed.

(** With the counter at 31 or more the doubling has overflowed a 64-bit
    duration: the computed backoff is not capped at ten minutes but already over
    when it is recorded, or zero, so a region whose creations keep failing is not
    backed off at all: after the thirty-first consecutive failure the very next
    reading of the clock finds no backoff. *)
Theorem creation_backoff_lost cfg env create region ph w :
  createMachineWithFallback cfg create = Err QuotaExceeded ->
  createFailures (st w) !! region = Some 30 ->
  let w' := (launch_goroutine cfg env create region ph w).1 in
  createFailures (st w') !! region = Some 31 /\
  forall t, clock env (reads w) <= t -> GetCreationBackoffUntil (st w') t region = None.
Proof.
  intros Hc Hf. unfold launch_goroutine. rewrite Hc. cbn -[creation_backoff]. rewrite Hf.
  cbn -[creation_backoff]. change (creationFailureThreshold <=? 30 + 1) with true. change (30 + 1) with 31.
  cbn -[creation_backoff]. split; [by rewrite lookup_insert_eq|]. intros t Ht.
  unfold GetCreationBackoffUntil. cbn -[creation_backoff]. rewrite lookup_insert_eq.
  assert (creation_backoff 31 < 0) as Hneg by (vm_compute; reflexivity).
  replace (_ <? t) with true; [done|]. symmetry. apply Z.ltb_lt. lia.
Qed.

(** ** The launches of one evaluation *)

Definition is_launch (e : effect) : bool := match e with Launch _ _ => true | _ => false end.
Definition launches (w : world) : Z := count_if is_launch (log w).
Definition pend (region : string) (w : world) : Z := Z.of_nat (length (GetPendingLaunches (st w) region)).

(** Steps that neither launch, nor change what is pending, nor the backoff. *)
Definition calm (region : string) (w w' : world) : Prop :=
  launches w' = launches w /\ GetPendingLaunches (st w') region = GetPendingLaunches (st w) region /\
  createBackoff (st w') = createBackoff (st w).

#[export] Instance calm_preorder region : PreOrder (calm region).
Proof.
  split; [by intros w|]. intros w1 w2 w3 (? & ? & ?) (? & ? & ?). split_and!; congruence.
Qed.

Lemma calm_emit region e : is_launch e = false -> pres (calm region) (emit e).
Proof.
  intros He w. split_and!; [|done|done]. unfold launches, count_if. cbn.
  rewrite List.filter_app. cbn. rewrite He. by rewrite app_nil_r.
Qed.

Lemma calm_now region c : pres (calm region) (now c).
Proof. by intros w. Qed.

Lemma calm_modify region f :
  (forall m, pending (f m) = pending m /\ createBackoff (f m) = createBackoff m) -> pres (calm region) (modify f).
Proof.
  intros H w. destruct (H (st w)) as [Hp Hb]. split_and!; [done| |done]. unfold GetPendingLaunches. cbn. by rewrite Hp.
Qed.

Lemma calm_acquire region k : pres (calm region) (update (acquire k)).
Proof. by intros w. Qed.

(** Close the leaves [walk] leaves behind. *)
Ltac calm_leaf :=
  first [ by apply calm_emit | apply calm_now | apply calm_acquire | by apply calm_modify ].
Ltac calm := walk; try calm_leaf.

Section Launches.
Context (cfg : Config) (env : Env) (region : string).

Lemma calm_recently id : pres (calm region) (evacuated_recently env id).
Proof. unfold evacuated_recently, time_now. calm. Qed.

Lemma calm_emergency workers : pres (calm region) (emergencyHibernate env workers).
Proof. unfold emergencyHibernate, time_now. calm. Qed.

Lemma calm_check : pres (calm region) (checkDrainingWorkers env region).
Proof. unfold checkDrainingWorkers, time_now. calm. Qed.

Lemma calm_hot workers hot : pres (calm region) (collect_hot env workers hot).
Proof.
  revert hot; induction workers as [|w rest IH]; intros hot; cbn [collect_hot]; calm;
    first [apply calm_recently|apply IH].
Qed.

Lemma calm_evacuate workers : pres (calm region) (evacuateHotWorkers env region workers).
Proof. unfold evacuateHotWorkers, time_now. calm. apply calm_hot. Qed.

Lemma calm_smart workers : pres (calm region) (smartScaleDown cfg env region workers).
Proof. unfold smartScaleDown, time_now. calm. Qed.

(** [scaleUp]: nothing under a backoff, one launch and one pending otherwise. *)
Lemma scaleUp_spec w :
  let w' := (scaleUp env region w).1 in
  calm region w w' \/
  (launches w' = launches w + 1 /\ pend region w' = pend region w + 1 /\
   createBackoff (st w') = createBackoff (st w) /\
   GetCreationBackoffUntil (st w) (clock env (reads w)) region = None).
Proof.
  unfold scaleUp, bind, backoff_active, time_now, now, get, ret. cbn.
  destruct (GetCreationBackoffUntil _ _ _) eqn:E; [rewrite bool_decide_true by eauto; by left|].
  rewrite bool_decide_false by (by intros [? ?]). right. cbn. split_and!; [| |done|done].
  - unfold launches, count_if. cbn. rewrite List.filter_app, length_app. cbn. lia.
  - unfold pend, GetPendingLaunches. cbn. rewrite lookup_insert_eq. cbn. rewrite length_app. cbn.
    unfold GetPendingLaunches. cbn. lia.
Qed.

(** A launch, or the store as it was. *)
Lemma scaleUp_store w : let w' := (scaleUp env region w).1 in
  st w' = st w /\ launches w' = launches w \/ launches w' = launches w + 1 /\ 0 < pend region w'.
Proof.
  destruct (scaleUp_spec w) as [Hc|(H1 & H2 & _)].
  - left. split; [|apply Hc]. destruct Hc as [Hl _]. revert Hl. unfold scaleUp, bind, backoff_active, time_now, now, get, ret. cbn.
    destruct (GetCreationBackoffUntil _ _ _) eqn:E; [by rewrite bool_decide_true by eauto|].
    rewrite bool_decide_false by (by intros [? ?]). cbn. unfold launches, count_if. cbn. rewrite List.filter_app, length_app. cbn. lia.
  - right. split; [done|]. rewrite H2. unfold pend. lia.
Qed.

(** What a phase may do when the region has its minimum: at most one launch. *)
Definition one_launch (w w' : world) : Prop :=
  createBackoff (st w') = createBackoff (st w) /\
  launches w' - launches w = pend region w' - pend region w /\
  (launches w' = launches w \/ launches w' = launches w + 1).

Lemma calm_pend w w' : calm region w w' -> pend region w' = pend region w /\ launches w' = launches w.
Proof. intros (? & Hp & _). unfold pend. by rewrite Hp. Qed.

Lemma pend_nonneg w : 0 <= pend region w.
Proof. unfold pend. lia. Qed.

(** A computation that launches at most once, and never when something is
    already pending. *)
Definition careful {A} (p : M A) : Prop :=
  forall w, let w' := (p w).1 in
    createBackoff (st w') = createBackoff (st w) /\
    launches w' - launches w = pend region w' - pend region w /\
    (launches w' = launches w \/ (launches w' = launches w + 1 /\ pend region w = 0)).

Lemma calm_careful {A} (p : M A) : pres (calm region) p -> careful p.
Proof.
  intros H w. pose proof (H w) as Hc. destruct (calm_pend _ _ Hc) as [Hp Hl]. cbn zeta.
  split_and!; [apply Hc|lia|by left].
Qed.

Lemma careful_bind {A B} (p : M A) (k : A -> M B) : careful p -> (forall a, careful (k a)) -> careful (bind p k).
Proof.
  intros Hp Hk w. unfold bind. specialize (Hp w). destruct (p w) as [w1 a]. cbn zeta in Hp. cbn [fst] in Hp.
  specialize (Hk a w1). cbn zeta in Hk. destruct (k a w1) as [w2 b]. cbn [fst] in *.
  destruct Hp as (B1 & L1 & C1), Hk as (B2 & L2 & C2). pose proof (pend_nonneg w). pose proof (pend_nonneg w1).
  split_and!; [congruence|lia|lia].
Qed.

Lemma scaleUp_careful w :
  pend region w = 0 -> let w' := (scaleUp env region w).1 in
  createBackoff (st w') = createBackoff (st w) /\
  launches w' - launches w = pend region w' - pend region w /\
  (launches w' = launches w \/ (launches w' = launches w + 1 /\ pend region w = 0)).
Proof.
  intros Hp. cbn zeta. destruct (scaleUp_spec w) as [Hc|(H1 & H2 & H3 & _)].
  - destruct (calm_pend _ _ Hc) as [-> ->]. split_and!; [apply Hc|lia|by left].
  - split_and!; [done|lia|by right].
Qed.

Lemma pend_nil w : GetPendingLaunches (st w) region = [] -> pend region w = 0.
Proof. unfold pend. by intros ->. Qed.

(** Nothing but the number of clock readings changed. *)
Ltac stay := split_and!; [done|unfold pend, launches; cbn; lia|by left].

Lemma careful_guarded workers : careful (guarded_scale_up cfg env region workers).
Proof.
  intros w. unfold guarded_scale_up, bind, get, time_now, now, ret.
  destruct (GetLastScaleUp (st w) region) as [last|]; cbn [fst].
  - destruct (_ <? _); [stay|].
    destruct (GetPendingLaunches (st w) region) eqn:Ep; [|stay].
    destruct (_ <=? _); [stay|].
    apply (scaleUp_careful {| st := st w; reads := S (reads w); log := log w |}). by apply pend_nil.
  - destruct (GetPendingLaunches (st w) region) eqn:Ep; [|stay].
    destruct (_ <=? _); [stay|].
    apply scaleUp_careful. by apply pend_nil.
Qed.

Lemma careful_pick : careful (fun w =>
  (match GetPendingLaunches (st w) region with _ :: _ => ret tt | [] => scaleUp env region end) w).
Proof.
  intros w. cbn beta. destruct (GetPendingLaunches (st w) region) eqn:Ep; [|stay].
  apply scaleUp_careful. by apply pend_nil.
Qed.

Lemma careful_rolling workers : careful (rollingReplace cfg env region workers).
Proof.
  unfold rollingReplace. destruct (String.eqb _ _); [by apply calm_careful, pres_ret; exact _|].
  apply careful_bind; [by apply calm_careful, pres_get; exact _|intros m].
  destruct (lightest _) as [target|]; [|by apply calm_careful, pres_ret; exact _].
  apply careful_bind; [apply calm_careful, calm_acquire|intros got].
  destruct got; [|by apply calm_careful, pres_ret; exact _]. cbn [negb].
  destruct (List.filter _ (List.filter _ workers)) as [|c cs].
  - apply (careful_bind (fun w => (match GetPendingLaunches (st w) region with
      _ :: _ => ret tt | [] => scaleUp env region end) w) (fun _ => modify ReleaseReplacingLock)).
    + apply careful_pick.
    + intros _. apply calm_careful. by apply calm_modify.
  - apply calm_careful. unfold time_now. calm.
Qed.

(** The part of [scale_region] after the idle reserve. *)
Definition scale_tail (workers : list WorkerInfo) (needs : bool) : M unit :=
  do _ <- (if needs then guarded_scale_up cfg env region workers
           else when (flt (RegionUtilization env region) scaleDownThreshold &&
                      (minWorkers cfg <? Z.of_nat (length workers))) (smartScaleDown cfg env region workers));
  rollingReplace cfg env region workers.

Lemma careful_scale_tail workers needs : careful (scale_tail workers needs).
Proof.
  apply careful_bind; [|intros _; apply careful_rolling]. destruct needs; [apply careful_guarded|].
  apply calm_careful. apply pres_when; [exact _|apply calm_smart].
Qed.

Definition reserve_low (workers : list WorkerInfo) (w : world) : bool :=
  (count_if (fun x => negb (IsDraining (st w) (wMachineID x)) && (Current x =? 0)) workers + pend region w
     <? idleReserve cfg) &&
  (Z.of_nat (length workers) + pend region w + pend region w <? maxWorkers cfg).

Lemma scale_region_eq workers needs w :
  scale_region cfg env region workers needs w =
  let '(w1, _) := when (reserve_low workers w) (scaleUp env region) w in scale_tail workers needs w1.
Proof. reflexivity. Qed.

(** With the region at its minimum, one evaluation launches at most one
    machine, and only if nothing is pending or the maximum leaves room. *)
Definition modest (workers : list WorkerInfo) (w w' : world) : Prop :=
  createBackoff (st w') = createBackoff (st w) /\
  launches w' - launches w = pend region w' - pend region w /\
  (launches w' = launches w \/
   (launches w' = launches w + 1 /\
    (pend region w = 0 \/ Z.of_nat (length workers) + pend region w + pend region w < maxWorkers cfg))).

Lemma scale_region_spec workers needs w : modest workers w (scale_region cfg env region workers needs w).1.
Proof.
  rewrite scale_region_eq. unfold modest. pose proof (pend_nonneg w) as Hp.
  destruct (reserve_low workers w) eqn:Eb; cbn [when].
  - apply andb_true_iff in Eb as [_ Hmax]. apply Z.ltb_lt in Hmax.
    pose proof (scaleUp_spec w) as Hs. cbn zeta in Hs. destruct (scaleUp env region w) as [w1 []].
    destruct (careful_scale_tail workers needs w1) as (B2 & L2 & C2). cbn [fst] in *.
    pose proof (pend_nonneg w1). destruct Hs as [Hc|(H1 & H2 & H3 & _)].
    + destruct (calm_pend _ _ Hc) as [P1 L1]. destruct Hc as (_ & _ & B1). split_and!; [congruence|lia|].
      destruct C2 as [C2|[C2 C2']]; [left; lia|]. right. split; [lia|]. left. lia.
    + split_and!; [congruence|lia|]. destruct C2 as [C2|[C2 C2']]; [|lia]. right. split; [lia|]. right. lia.
  - destruct (careful_scale_tail workers needs w) as (B2 & L2 & C2). cbn [ret fst] in *.
    split_and!; [done|done|]. destruct C2 as [C2|[C2 C2']]; [by left|]. right. split; [done|]. by left.
Qed.

(** Under an active backoff nothing launches. *)
Lemma scaleUp_blocked w t : createBackoff (st w) !! region = Some t -> (forall n, clock env n <= t) ->
  calm region w (scaleUp env region w).1.
Proof.
  intros Hb Hc. destruct (scaleUp_spec w) as [H|(_ & _ & _ & H)]; [done|].
  unfold GetCreationBackoffUntil in H. rewrite Hb in H. specialize (Hc (reads w)).
  destruct (t <? clock env (reads w)) eqn:E; [|done]. apply Z.ltb_lt in E. lia.
Qed.

Lemma launch_n_spec n w : let w' := (launch_n env n region w).1 in
  createBackoff (st w') = createBackoff (st w) /\
  launches w' - launches w = pend region w' - pend region w /\
  launches w <= launches w' <= launches w + Z.of_nat n.
Proof.
  revert w; induction n as [|n IH]; intros w; cbn zeta; [cbn; split_and!; [done|lia|lia|lia]|].
  cbn [launch_n]. unfold bind. pose proof (scaleUp_spec w) as Hs. cbn zeta in Hs.
  destruct (scaleUp env region w) as [w1 []]. cbn [fst] in Hs. specialize (IH w1). cbn zeta in IH.
  destruct IH as (B2 & L2 & C2). destruct Hs as [Hc|(H1 & H2 & H3 & _)].
  - destruct (calm_pend _ _ Hc) as [P1 L1]. destruct Hc as (_ & _ & B1). split_and!; [congruence|lia|lia|lia].
  - split_and!; [congruence|lia|lia|lia].
Qed.

(** *** Expiry of pending launches *)

(** Why a pending launch leaves the list, or stays, at clock reading [t]. *)
Lemma expire_loop_spec l acc w :
  exists kept killed n,
    expire_loop env region l acc w =
      ({| st := st w; reads := n; log := log w ++ map (fun p => DestroyMachine (MachineID p)) killed |}, acc ++ kept) /\
    (length kept <= length l)%nat /\
    (forall p, In p l -> registered env region (MachineID p) = true \/ In p kept \/ In p killed) /\
    (forall p, In p kept -> In p l /\ registered env region (MachineID p) = false /\
       exists k, clock env k - LaunchedAt p <= pendingWorkerTTL) /\
    (forall p, In p killed -> In p l /\ registered env region (MachineID p) = false /\
       exists k, pendingWorkerTTL < clock env k - LaunchedAt p).
Proof.
  revert acc w; induction l as [|p l IH]; intros acc w; cbn [expire_loop].
  { exists [], [], (reads w). cbn. rewrite !app_nil_r. split_and!; try done. by destruct w. }
  destruct (registered env region (MachineID p)) eqn:Er.
  { destruct (IH acc w) as (kept & killed & n & Heq & Hl & H1 & H2 & H3).
    exists kept, killed, n. split_and!; [done|cbn; lia| | |].
    - intros q [<-|Hq]; auto.
    - intros q Hq. destruct (H2 q Hq) as (? & ? & ?). split_and!; [by right|done|done].
    - intros q Hq. destruct (H3 q Hq) as (? & ? & ?). split_and!; [by right|done|done]. }
  unfold bind at 1, time_now, now. destruct (pendingWorkerTTL <? _) eqn:Et; bool_to_prop.
  - unfold bind, emit.
    edestruct (IH acc) as (kept & killed & n & Heq & Hl & H1 & H2 & H3). rewrite Heq. cbn [st log].
    exists kept, (p :: killed), n. cbn [map]. rewrite <- app_assoc. split_and!; [done|cbn; lia| | |].
    + intros q [<-|Hq]; [right; right; by left|]. destruct (H1 q Hq) as [?|[?|?]]; cbn; auto.
    + intros q Hq. destruct (H2 q Hq) as (? & ? & ?). split_and!; [by right|done|done].
    + intros q [<-|Hq]; [split_and!; [by left|done|eauto]|].
      destruct (H3 q Hq) as (? & ? & ?). split_and!; [by right|done|done].
  - edestruct (IH (acc ++ [p])) as (kept & killed & n & Heq & Hl & H1 & H2 & H3). rewrite Heq. cbn [st log].
    exists (p :: kept), killed, n. rewrite <- app_assoc. split_and!; [done|cbn; lia| | |].
    + intros q [<-|Hq]; [right; left; by left|]. destruct (H1 q Hq) as [?|[?|?]]; cbn; auto.
    + intros q [<-|Hq]; [split_and!; [by left|done|eauto]|].
      destruct (H2 q Hq) as (? & ? & ?). split_and!; [by right|done|done].
    + intros q Hq. destruct (H3 q Hq) as (? & ? & ?). split_and!; [by right|done|done].
Qed.

Lemma launches_app w l : count_if is_launch (log w ++ l) = launches w + count_if is_launch l.
Proof. unfold launches, count_if. rewrite List.filter_app, length_app. lia. Qed.

Lemma no_launch_destroys (l : list pendingLaunch) :
  count_if is_launch (map (fun p => DestroyMachine (MachineID p)) l) = 0.
Proof. unfold count_if. by induction l. Qed.

Lemma expirePending_eq w :
  expirePending env region w =
  match GetPendingLaunches (st w) region with
  | [] => (w, tt)
  | l => let '(w1, r) := expire_loop env region l [] w in modify (SetPendingLaunches region r) w1
  end.
Proof. unfold expirePending, bind, get, ret. by destruct (GetPendingLaunches (st w) region). Qed.

Lemma expirePending_pend w : let w' := (expirePending env region w).1 in
  createBackoff (st w') = createBackoff (st w) /\ launches w' = launches w /\ pend region w' <= pend region w.
Proof.
  cbn zeta. rewrite expirePending_eq.
  destruct (GetPendingLaunches (st w) region) as [|p l] eqn:Ep; [split_and!; [done|done|cbn [fst]; lia]|].
  destruct (expire_loop_spec (p :: l) [] w) as (kept & killed & n & -> & Hl & _).
  cbn [modify st fst app]. split_and!; [done| |].
  - unfold launches at 1. cbn [log]. rewrite launches_app, no_launch_destroys. lia.
  - unfold pend. cbn. unfold GetPendingLaunches at 1. cbn. rewrite lookup_insert_eq, Ep. cbn. cbn in Hl. lia.
Qed.

(** *** The whole evaluation *)

(** Phases 0 to 2: what is done before the region decides about launches. *)
Definition first_phases : M unit :=
  let workers := GetWorkersByRegion env region in
  do _ <- expirePending env region;
  do _ <- emergencyHibernate env workers;
  do _ <- checkDrainingWorkers env region;
  evacuateHotWorkers env region workers.

(** Whether the load asks for another worker, in a state of the store. *)
Definition wants_more (m : InMemoryScalerState) : bool :=
  let workers := GetWorkersByRegion env region in
  let '(maxCPU, maxMem, maxDisk) := RegionResourcePressure env region in
  needs_scale_up (RegionUtilization env region) maxCPU maxMem maxDisk
    (default 0 (GetLastSandboxCount m region)) (sum Current workers) (sum Capacity workers).

Lemma evaluateRegion_eq w :
  let workers := GetWorkersByRegion env region in
  let w0 := (first_phases w).1 in
  let w1 := (modify (SetLastSandboxCount region (sum Current workers)) w0).1 in
  let needs := wants_more (st w0) in
    calm region (expirePending env region w).1 w1 /\
    evaluateRegion cfg env region w =
      if Z.of_nat (length workers) + pend region w1 <? minWorkers cfg
      then (do blocked <- backoff_active env region;
            if blocked then ret tt
            else launch_n env (Z.to_nat (minWorkers cfg - (Z.of_nat (length workers) + pend region w1))) region) w1
      else scale_region cfg env region workers needs w1.
Proof.
  intros workers w0 w1 needs.
  assert (evaluateRegion cfg env region w = (if Z.of_nat (length workers) + pend region w1 <? minWorkers cfg
      then (do blocked <- backoff_active env region;
            if blocked then ret tt
            else launch_n env (Z.to_nat (minWorkers cfg - (Z.of_nat (length workers) + pend region w1))) region)
      else scale_region cfg env region workers needs) w1 /\ calm region (expirePending env region w).1 w0) as [E Hc].
  { unfold evaluateRegion. fold workers. unfold needs, wants_more, w1, w0, first_phases. fold workers.
    destruct (RegionResourcePressure env region) as [[cpu mem] disk].
    unfold bind. destruct (expirePending env region w) as [wa []]. cbn [fst].
    pose proof (calm_emergency workers wa) as H1. destruct (emergencyHibernate env workers wa) as [wb []].
    pose proof (calm_check wb) as H2. destruct (checkDrainingWorkers env region wb) as [wc []].
    pose proof (calm_evacuate workers wc) as H3. destruct (evacuateHotWorkers env region workers wc) as [wd []]. cbn [fst] in *.
    split; [|etrans; [exact H1|]; by etrans]. cbn [get modify fst]. unfold pend. cbn [st].
    unfold GetPendingLaunches, SetLastSandboxCount. cbn [pending upd_sandboxCount]. by destruct (_ <? _). }
  split; [|rewrite E; by destruct (_ <? _)].
  etrans; [exact Hc|]. by apply (calm_modify region (SetLastSandboxCount region (sum Current workers))).
Qed.

(** Nothing launches while a backoff covers every reading of the clock. *)
Definition halted (t : Z) (w w' : world) : Prop :=
  createBackoff (st w) !! region = Some t ->
  createBackoff (st w') !! region = Some t /\ launches w' = launches w.

#[export] Instance halted_preorder t : PreOrder (halted t).
Proof.
  split; [by intros w|]. intros w1 w2 w3 H1 H2 H. destruct (H1 H) as [H' ?]. destruct (H2 H') as [? ?].
  split; [done|congruence].
Qed.

Lemma calm_halted {A} t (p : M A) : pres (calm region) p -> pres (halted t) p.
Proof. intros H w Hb. destruct (H w) as (Hl & _ & Hc). by rewrite Hc, Hl. Qed.

Lemma scaleUp_halted t : (forall n, clock env n <= t) -> pres (halted t) (scaleUp env region).
Proof. intros Hc w Hb. destruct (scaleUp_blocked w t Hb Hc) as (Hl & _ & Hc'). by rewrite Hc', Hl. Qed.

#[local] Opaque scaleUp.

Lemma scale_tail_halted t workers needs :
  (forall n, clock env n <= t) -> pres (halted t) (scale_tail workers needs).
Proof.
  intros Hc. pose proof (scaleUp_halted t Hc) as Hs. unfold scale_tail.
  apply pres_bind; [exact _| |intros _].
  - destruct needs.
    + unfold guarded_scale_up, time_now. walk; first [exact Hs | apply calm_halted; calm_leaf].
    + apply calm_halted. apply pres_when; [exact _|apply calm_smart].
  - unfold rollingReplace, time_now. walk; first [exact Hs | apply calm_halted; calm_leaf].
Qed.

#[local] Transparent scaleUp.

Lemma launch_n_halted t n : (forall n, clock env n <= t) -> pres (halted t) (launch_n env n region).
Proof.
  intros Hc. induction n as [|n IH]; cbn [launch_n]; [apply pres_ret; exact _|].
  apply pres_bind; [exact _|by apply scaleUp_halted|done].
Qed.

Lemma evaluateRegion_halted w t :
  createBackoff (st w) !! region = Some t -> (forall n, clock env n <= t) ->
  launches (evaluateRegion cfg env region w).1 = launches w.
Proof.
  intros Hb Hc. destruct (evaluateRegion_eq w) as (Hcalm & ->). set (needs := wants_more _) in *. set (w1 := (modify _ _).1) in *.
  destruct (expirePending_pend w) as (B0 & L0 & _). destruct Hcalm as (L1 & _ & B1).
  assert (Hb1 : createBackoff (st w1) !! region = Some t) by congruence.
  rewrite <- L0, <- L1. destruct (_ <? _).
  - assert (pres (halted t) (do blocked <- backoff_active env region;
      if blocked then ret tt
      else launch_n env (Z.to_nat (minWorkers cfg - (Z.of_nat (length (GetWorkersByRegion env region)) + pend region w1))) region)) as H.
    { apply pres_bind; [exact _| |intros []; [apply pres_ret; exact _|by apply launch_n_halted]].
      apply calm_halted. unfold backoff_active, time_now. calm. }
    by apply H.
  - rewrite scale_region_eq.
    assert (pres (halted t) (when (reserve_low (GetWorkersByRegion env region) w1) (scaleUp env region))) as H0
      by (apply pres_when; [exact _|by apply scaleUp_halted]).
    specialize (H0 w1). destruct (when _ _ w1) as [w2 []]. destruct (H0 Hb1) as [Hb2 L2]. cbn [fst] in *.
    rewrite <- L2. by apply scale_tail_halted with (t := t).
Qed.

End Launches.

(** ** Guards on taking workers away *)

Lemma lightest_from l b0 :
  match fold_left (fun best w => match best with None => Some w
                     | Some b => if Current w <? Current b then Some w else Some b end) l b0 with
  | Some b => (In b l \/ b0 = Some b) /\ (forall w, In w l -> Current b <= Current w) /\
      (forall w, b0 = Some w -> Current b <= Current w)
  | None => l = [] /\ b0 = None
  end.
Proof.
  revert b0; induction l as [|w l IH]; intros b0; cbn [fold_left].
  { destruct b0 as [b|]; [|done]. split_and!; [by right|done|]. intros w [= ->]. lia. }
  set (b1 := match b0 with None => _ | Some b => _ end). specialize (IH b1).
  destruct (fold_left _ l b1) as [b|].
  - destruct IH as (H1 & H2 & H3).
    assert (exists x, b1 = Some x /\ (x = w \/ b0 = Some x) /\ Current x <= Current w /\
      forall y, b0 = Some y -> Current x <= Current y) as (x & Hx & Hor & Hle & Hy).
    { subst b1. destruct b0 as [b0|]; [destruct (Current w <? Current b0) eqn:E; bool_to_prop|].
      - exists w. split_and!; auto; [lia|]. intros y [= <-]. lia.
      - exists b0. split_and!; auto. intros y [= <-]. lia.
      - exists w. split_and!; auto; [lia|done]. }
    specialize (H3 x Hx). split_and!.
    + destruct H1 as [?|H1]; [left; by right|]. assert (b = x) as -> by congruence.
      destruct Hor as [->|?]; [left; by left|by right].
    + intros v [<-|Hv]; [lia|auto].
    + intros y Hy0. specialize (Hy y Hy0). lia.
  - destruct IH as [_ H]. subst b1. destruct b0 as [b0|]; [by destruct (_ <? _)|done].
Qed.

Lemma lightest_spec l :
  match lightest l with
  | Some b => In b l /\ forall w, In w l -> Current b <= Current w
  | None => l = []
  end.
Proof.
  pose proof (lightest_from l None) as H. unfold lightest.
  destruct (fold_left _ l None) as [b|]; [|by destruct H].
  destruct H as ([?|?] & ? & _); [done|discriminate].
Qed.

Lemma count_if_pos {A} (f : A -> bool) l : 1 <= count_if f l -> exists a, In a l /\ f a = true.
Proof.
  unfold count_if. destruct (List.filter f l) as [|a r] eqn:E; cbn [length]; [lia|]. intros _.
  exists a. apply List.filter_In. rewrite E. by left.
Qed.

Section Guards.
Context (cfg : Config) (env : Env) (region : string).

(** [smartScaleDown] either does nothing, or starts the drain of exactly one
    worker and records it as draining; and then nothing is pending, no worker of
    the fleet is on another version than the target, the drained machine is one
    the autoscaler created and not draining yet, no other such machine is less
    loaded, and at least one other worker that is not draining stays below the
    memory pressure line, so that the region keeps placement room. *)
Theorem smartScaleDown_guarded workers w :
  let w' := (smartScaleDown cfg env region workers w).1 in
  w' = w \/
  exists target t,
    st w' = SetDraining (wMachineID target) (drain_of target region t) (st w) /\
    log w' = log w ++ [GoDrainWorker (wID target) (wMachineID target) region] /\
    GetPendingLaunches (st w) region = [] /\ versions_settled cfg workers = true /\
    In target workers /\ managed target = true /\ IsDraining (st w) (wMachineID target) = false /\
    (forall v, In v workers -> managed v = true -> IsDraining (st w) (wMachineID v) = false ->
       Current target <= Current v) /\
    exists other, In other workers /\ wMachineID other <> wMachineID target /\
      IsDraining (st w) (wMachineID other) = false /\ flt (MemPct other) memPressureThresholdPct = true.
Proof.
  cbn zeta. unfold smartScaleDown, bind, get.
  destruct (GetPendingLaunches (st w) region) as [|p l] eqn:Ep; [|by left].
  destruct (versions_settled cfg workers) eqn:Ev; cbn [negb]; [|by left].
  set (cand := List.filter _ workers). pose proof (lightest_spec cand) as Hl.
  destruct (lightest cand) as [target|]; [|by left].
  destruct (_ <? 1) eqn:Ea; [by left|]. right. exists target, (clock env (reads w)).
  bool_to_prop. destruct Hl as [Hin Hmin]. apply List.filter_In in Hin as [Hin Hm]. bool_to_prop.
  apply count_if_pos in Ea as (other & Ho & Hf). bool_to_prop.
  split_and!; try done.
  - intros v Hv Hvm Hvd. apply Hmin. apply List.filter_In. by rewrite Hvm, Hvd.
  - exists other. split_and!; try done. by apply String.eqb_neq.
Qed.

Lemma scaleUp_frame w : let w' := (scaleUp env region w).1 in
  migrating (st w') = migrating (st w) /\ draining (st w') = draining (st w) /\
  (log w' = log w \/ exists ph, log w' = log w ++ [Launch region ph]).
Proof.
  cbn zeta. unfold scaleUp, bind, backoff_active, time_now, now, get, ret. cbn.
  destruct (bool_decide _); cbn; split_and!; eauto.
Qed.

(** [rollingReplace] starts at most one replacement, and only when the
    replacing lock was free (it then stays held for the replacement): the machine
    it drains is a managed worker on another version than the target, not draining
    yet, and no such worker is less loaded; at least one managed worker already
    runs the target version. In every other case the lock is as before, and at
    most one machine is launched, with every managed worker stale and nothing
    pending. *)
Theorem rollingReplace_guarded workers w :
  let target := targetWorkerVersion cfg in
  let mine v := In v workers /\ managed v = true /\ IsDraining (st w) (wMachineID v) = false in
  let w' := (rollingReplace cfg env region workers w).1 in
  (migrating (st w') = migrating (st w) /\ draining (st w') = draining (st w) /\
   (log w' = log w \/
    (GetPendingLaunches (st w) region = [] /\ (forall v, mine v -> WorkerVersion v <> target) /\
     exists ph, log w' = log w ++ [Launch region ph]))) \/
  (exists victim more t, mine victim /\ WorkerVersion victim <> target /\
     "__replacing__"%string ∉ migrating (st w) /\ "__replacing__"%string ∈ migrating (st w') /\
     log w' = log w ++ [GoReplaceOneStale region (wID victim) (wMachineID victim) more] /\
     draining (st w') = <[wMachineID victim := drain_of victim region t]> (draining (st w)) /\
     (forall v, mine v -> WorkerVersion v <> target -> Current victim <= Current v) /\
     exists v, mine v /\ WorkerVersion v = target).
Proof.
  cbn zeta. remember (rollingReplace cfg env region workers w) as r eqn:Hr. unfold rollingReplace in Hr.
  destruct (String.eqb (targetWorkerVersion cfg) "") eqn:E0; [subst r; left; auto|].
  unfold bind at 1 in Hr. cbn [get] in Hr. set (mine := List.filter _ workers) in Hr.
  assert (Hmine : forall v, In v mine <-> In v workers /\ managed v = true /\ IsDraining (st w) (wMachineID v) = false).
  { intros v. subst mine. rewrite List.filter_In, andb_true_iff, negb_true_iff. tauto. }
  set (stale := List.filter (fun w0 => negb _) mine) in Hr. pose proof (lightest_spec stale) as Hl.
  destruct (lightest stale) as [victim|]; [|subst r; left; auto]. destruct Hl as [Hv Hmin].
  unfold bind at 1, update in Hr. cbn [TryAcquireReplacingLock acquire] in Hr.
  destruct (bool_decide _) eqn:Eb; cbn [negb] in Hr; bool_to_prop.
  2: { subst r. left. cbn. split_and!; [|done|by left]. apply dec_stable in Eb. set_solver. }
  destruct (List.filter (fun w0 => String.eqb (WorkerVersion w0) (targetWorkerVersion cfg)) mine)
    as [|c cs] eqn:Ec.
  - left. unfold bind at 1 in Hr. cbn [get] in Hr. unfold bind in Hr.
    set (w1 := Build_world _ _ _) in Hr.
    replace (GetPendingLaunches _ region) with (GetPendingLaunches (st w) region) in Hr by done. destruct (GetPendingLaunches (st w) region) as [|p ps] eqn:Ep.
    + pose proof (scaleUp_frame w1) as (F1 & F2 & F3). destruct (scaleUp env region w1) as [w2 []].
      subst r. cbn in F1, F2, F3 |- *.
      split_and!; [rewrite F1; set_solver|by rewrite F2|].
      destruct F3 as [F3|F3]; [by left|]. right. split_and!; [done| |done].
      intros v Hvm. apply Hmine in Hvm. intros Hver. assert (In v []) as []. rewrite <- Ec.
      apply List.filter_In. split; [done|]. by apply String.eqb_eq.
    + subst r. cbn. split_and!; [set_solver|done|by left].
  - right. apply List.filter_In in Hv as [Hv Hver]. bool_to_prop. apply String.eqb_neq in Hver.
    exists victim, (Nat.ltb 1 (length stale)), (clock env (reads w)).
    destruct (proj1 (Hmine victim) Hv) as (? & ? & ?).
    subst r. cbn. split_and!; try done; [set_solver| |].
    + intros v Hvm Hne. apply Hmin. apply List.filter_In. split; [by apply Hmine|].
      apply negb_true_iff. by apply String.eqb_neq.
    + exists c. assert (In c (c :: cs)) as Hc by by left. rewrite <- Ec in Hc.
      apply List.filter_In in Hc as [Hc1 Hc2]. split; [by apply Hmine|]. by apply String.eqb_eq.
Qed.

Lemma for_each_log {A} (P : effect -> Prop) (l : list A) body :
  (forall a, In a l -> forall w, exists es, log (body a w).1 = log w ++ es /\ Forall P es) ->
  forall w, exists es, log (for_each l body w).1 = log w ++ es /\ Forall P es.
Proof.
  induction l as [|a l IH]; intros H w; cbn [for_each].
  { exists []. cbn. by rewrite app_nil_r. }
  unfold bind. destruct (H a (or_introl eq_refl) w) as (es1 & E1 & F1).
  destruct (body a w) as [w1 []]. cbn [fst] in E1.
  destruct (IH (fun b Hb => H b (or_intror Hb)) w1) as (es2 & E2 & F2).
  exists (es1 ++ es2). rewrite E2, E1, app_assoc. split; [done|]. by apply Forall_app.
Qed.

(** When a drained machine may go: it was draining in this region, its
    checkpoint uploads are settled, and its worker reports no sandbox. *)
Definition may_destroy (m : InMemoryScalerState) (e : effect) : Prop :=
  exists machine d, e = GoDestroyDrained machine /\ draining m !! machine = Some d /\ d_Region d = region /\
    hibernationUploadsSettled env (d_WorkerID d) = true /\
    (getDrainingWorkerSandboxCount env (d_WorkerID d) = 0 \/
     exists v, In v (GetWorkersByRegion env region) /\ wMachineID v = machine /\ Current v = 0).

(** [checkDrainingWorkers] only ever destroys machines that were draining in
    its region, whose worker reports no sandbox and whose checkpoint uploads have
    all settled (a failed query counts as unsettled); it has no other effect. *)
Theorem checkDrainingWorkers_safe w :
  exists es, log (checkDrainingWorkers env region w).1 = log w ++ es /\ Forall (may_destroy (st w)) es.
Proof.
  unfold checkDrainingWorkers. unfold bind at 1. cbn [get]. apply for_each_log.
  intros [machine d] Hin w1. apply list_elem_of_In, elem_of_map_to_list in Hin.
  assert (Hnil : exists es, log w1 = log w1 ++ es /\ Forall (may_destroy (st w)) es)
    by (exists []; by rewrite app_nil_r).
  destruct (String.eqb_spec (d_Region d) region) as [Hr|Hr]; cbn [negb]; [|done].
  unfold bind at 1, time_now, now. destruct (drainTimeout <? _).
  - destruct (_ && _) eqn:Ec; cbn; [|done]. apply andb_true_iff in Ec as [Hz Hs]. bool_to_prop.
    exists [GoDestroyDrained machine]. split; [done|]. repeat constructor. exists machine, d. auto 6.
  - destruct (drained_worker env region machine) as [v|] eqn:Ev; [|done].
    destruct (hibernationUploadsSettled env (d_WorkerID d)) eqn:Hs; [|done]. cbn.
    exists [GoDestroyDrained machine]. split; [done|]. repeat constructor.
    apply List.find_some in Ev as [Hv Hf]. apply andb_true_iff in Hf as [Hf Hz]. bool_to_prop.
    apply String.eqb_eq in Hf.
    exists machine, d. split_and!; try done. right. by exists v.
Qed.

(** *** Evacuation *)

Definition is_hot (v : WorkerInfo) : bool :=
  negb (flt (CPUPct v) evacuationCPUThreshold && flt (MemPct v) evacuationMemThreshold &&
        flt (DiskPct v) evacuationDiskThreshold).

Lemma recently_frame id w : st (evacuated_recently env id w).1 = st w /\ log (evacuated_recently env id w).1 = log w.
Proof.
  unfold evacuated_recently, bind, get, time_now, now, ret. by destruct (GetLastEvacuation (st w) id).
Qed.

Lemma collect_hot_spec workers hot w :
  let r := collect_hot env workers hot w in
  st r.1 = st w /\ log r.1 = log w /\
  forall v, In v r.2 -> In v hot \/ (In v workers /\ is_hot v = true /\ IsDraining (st w) (wMachineID v) = false).
Proof.
  revert hot w; induction workers as [|x rest IH]; intros hot w; cbn zeta; [cbn; auto|]. cbn [collect_hot].
  assert (Hskip : forall w1, st w1 = st w -> log w1 = log w ->
    let r := collect_hot env rest hot w1 in st r.1 = st w /\ log r.1 = log w /\
    forall v, In v r.2 -> In v hot \/ (In v (x :: rest) /\ is_hot v = true /\ IsDraining (st w) (wMachineID v) = false)).
  { intros w1 Hst Hlog. cbn zeta. destruct (IH hot w1) as (I1 & I2 & I3). rewrite Hst in *.
    split_and!; [congruence|congruence|]. intros v Hv. destruct (I3 v Hv) as [?|(? & ? & ?)]; [auto|].
    right. split_and!; try done. by right. }
  destruct (_ && _) eqn:Eh; [by apply Hskip|]. unfold bind, get.
  destruct (IsDraining (st w) (wMachineID x)) eqn:Ed; [by apply Hskip|].
  pose proof (recently_frame (wID x) w) as [F1 F2]. destruct (evacuated_recently env (wID x) w) as [w1 recent].
  cbn [fst] in F1, F2. destruct recent; [by apply Hskip|].
  destruct (IH (hot ++ [x]) w1) as (I1 & I2 & I3). rewrite F1 in *. split_and!; [congruence|congruence|].
  intros v Hv. destruct (I3 v Hv) as [Hh|(? & ? & ?)].
  - apply in_app_iff in Hh as [?|[<-|[]]]; [auto|]. right. split_and!; [by left| |done]. unfold is_hot. by rewrite Eh.
  - right. split_and!; try done. by right.
Qed.

Lemma insert_by_current_spec x l : forall v, In v (insert_by_current x l) <-> v = x \/ In v l.
Proof.
  induction l as [|y l IH]; intros v; cbn; [intuition|]. destruct (_ <? _); cbn; [intuition|].
  rewrite IH. intuition.
Qed.

(** The head of a list is its smallest load. *)
Definition head_min (l : list WorkerInfo) : Prop :=
  match l with
  | [] => True
  | b :: r => forall v, In v r -> Current b <= Current v
  end.

Lemma insert_by_current_min x l : head_min l -> head_min (insert_by_current x l).
Proof.
  destruct l as [|y l]; cbn; [done|]. intros H. destruct (_ <? _) eqn:E; bool_to_prop; cbn.
  - intros v [<-|Hv]; [lia|]. specialize (H v Hv). lia.
  - intros v Hv. apply insert_by_current_spec in Hv as [->|Hv]; [lia|auto].
Qed.

Lemma sort_by_current_spec l : head_min (sort_by_current l) /\ forall v, In v (sort_by_current l) <-> In v l.
Proof.
  unfold sort_by_current. assert (H : forall acc, head_min acc ->
    head_min (fold_left (fun acc w => insert_by_current w acc) l acc) /\
    forall v, In v (fold_left (fun acc w => insert_by_current w acc) l acc) <-> In v acc \/ In v l).
  { induction l as [|x l IH]; intros acc Ha; cbn; [split; [done|intuition]|].
    destruct (IH (insert_by_current x acc)) as [I1 I2]; [by apply insert_by_current_min|].
    split; [done|]. intros v. rewrite I2, insert_by_current_spec. intuition. }
  destruct (H [] I) as [H1 H2]. split; [done|]. intros v. rewrite H2. cbn. intuition.
Qed.

(** [evacuateHotWorkers] is serialized by its lock: if the lock is held
    nothing happens; otherwise either the lock is free again and nothing was
    started, or exactly one evacuation was started, the lock stays held for it,
    its source is over an evacuation threshold, not draining, and no heavier than
    the other candidates, and a migration target existed. *)
Theorem evacuateHotWorkers_serial workers w :
  let w' := (evacuateHotWorkers env region workers w).1 in
  migrating (st w') = migrating (st w) /\ log w' = log w \/
  ("__evacuation__"%string ∉ migrating (st w) /\ "__evacuation__"%string ∈ migrating (st w') /\
   exists src hot m target, log w' = log w ++ [GoEvacuateBatch (wID src) evacuationBatchSize] /\
     In src hot /\
     (forall v, In v hot -> In v workers /\ is_hot v = true /\ IsDraining (st w) (wMachineID v) = false /\
        Current src <= Current v) /\
     findMigrationTarget env m region (wID src) 0 = Some target).
Proof.
  cbn zeta. remember (evacuateHotWorkers env region workers w) as r eqn:Hr. unfold evacuateHotWorkers in Hr.
  unfold bind at 1, update in Hr. cbn [TryAcquireEvacuationLock acquire] in Hr.
  set (w0 := Build_world _ _ _) in Hr. destruct (bool_decide _) eqn:Eb; cbn [negb] in Hr; bool_to_prop.
  2: { subst r. left. cbn. split; [|done]. apply dec_stable in Eb. set_solver. }
  unfold bind at 1 in Hr. pose proof (collect_hot_spec workers [] w0) as Hc. cbn zeta in Hc.
  destruct (collect_hot env workers [] w0) as [w1 hot]. cbn [fst snd] in Hc. destruct Hc as (C1 & C2 & C3).
  destruct (sort_by_current_spec hot) as [Hmin Hin].
  destruct (sort_by_current hot) as [|src rest] eqn:Es.
  { left. subst r. cbn. rewrite C1, C2. cbn. split; [set_solver|done]. }
  unfold bind at 1 in Hr. cbn [get] in Hr.
  destruct (findMigrationTarget env (st w1) region (wID src) 0) as [target|] eqn:Et.
  2: { left. subst r. cbn. rewrite C1, C2. cbn. split; [set_solver|done]. }
  right. split; [done|]. subst r. cbn. rewrite C1, C2. cbn. split; [set_solver|].
  exists src, hot, (st w1), target. split_and!; [done|apply Hin; by left| |done].
  intros v Hv. destruct (C3 v Hv) as [[]|(V1 & V2 & V3)]. split_and!; try done.
  apply Hin in Hv as [->|Hv]; [lia|]. by apply Hmin.
Qed.

End Guards.

(** ** Why a region launches *)

Section Reasons.
Context (cfg : Config) (env : Env) (region : string).

(** The load asks for it: no launch is pending, the workers that are not draining are below
    the maximum, and the last scale-up is a cooldown ago. *)
Definition by_load (workers : list WorkerInfo) (w : world) : Prop :=
  pend region w = 0 /\
  count_if (fun x => negb (IsDraining (st w) (wMachineID x))) workers < maxWorkers cfg /\
  forall last, GetLastScaleUp (st w) region = Some last -> exists k, cooldown cfg <= clock env k - last.

(** A roll asks for it: every worker of the pool that is not draining is of another version
    than the one wanted, and there is such a worker. *)
Definition by_roll (workers : list WorkerInfo) (w : world) : Prop :=
  let mine x := In x workers /\ managed x = true /\ IsDraining (st w) (wMachineID x) = false in
  targetWorkerVersion cfg <> ""%string /\ (exists x, mine x) /\ forall x, mine x -> WorkerVersion x <> targetWorkerVersion cfg.

Lemma guarded_reason workers w :
  launches (guarded_scale_up cfg env region workers w).1 = launches w \/ by_load workers w.
Proof.
  unfold guarded_scale_up, bind, get, time_now, now, ret.
  assert (forall w', st w' = st w -> launches w' = launches w -> (forall last, GetLastScaleUp (st w) region = Some last -> exists k, cooldown cfg <= clock env k - last) ->
    launches (match GetPendingLaunches (st w) region with
       | _ :: _ => fun w => (w, tt)
       | [] => if maxWorkers cfg <=? count_if (fun x => negb (IsDraining (st w) (wMachineID x))) workers + Z.of_nat (length (GetPendingLaunches (st w) region))
               then fun w => (w, tt) else scaleUp env region end w').1 = launches w \/ by_load workers w) as H.
  { intros w' Hs Hl Hc. destruct (GetPendingLaunches (st w) region) eqn:Ep; [|by left]. destruct (_ <=? _) eqn:Em; bool_to_prop; [by left|].
    right. split_and!; [by apply pend_nil|cbn in Em; lia|done]. }
  destruct (GetLastScaleUp (st w) region) as [last|] eqn:El; cbn [fst].
  - destruct (_ <? _) eqn:Ec; bool_to_prop; [by left|]. apply H; [done|done|]. intros l [= <-]. by exists (reads w).
  - by apply H.
Qed.

Lemma rolling_reason workers w : let w' := (rollingReplace cfg env region workers w).1 in
  launches w' = launches w \/ by_roll workers w'.
Proof.
  cbn zeta. remember (rollingReplace cfg env region workers w) as r eqn:Hr. unfold rollingReplace in Hr.
  destruct (String.eqb_spec (targetWorkerVersion cfg) "") as [_|Hv]; [subst r; by left|].
  unfold bind at 1 in Hr. cbn [get] in Hr. set (mine := List.filter _ workers) in Hr. set (stale := List.filter (fun x => negb _) mine) in Hr.
  pose proof (lightest_spec stale) as Hl. destruct (lightest stale) as [target|]; [|subst r; by left]. destruct Hl as [Ht _].
  unfold bind at 1, update in Hr. cbn [TryAcquireReplacingLock acquire] in Hr. destruct (bool_decide _); cbn [negb] in Hr; [|subst r; by left].
  destruct (List.filter (fun x => String.eqb (WorkerVersion x) (targetWorkerVersion cfg)) mine) as [|c cs] eqn:Ec.
  - unfold bind at 1 in Hr. cbn [get] in Hr. unfold bind in Hr. set (w1 := Build_world _ _ _) in Hr.
    destruct (GetPendingLaunches (st w1) region) in Hr; [|subst r; by left].
    pose proof (scaleUp_frame env region w1) as (_ & Hd & _). destruct (scaleUp env region w1) as [w2 []]. cbn [fst] in Hd. subst r.
    right. assert (forall x, In x mine <-> In x workers /\ managed x = true /\ bool_decide (is_Some (draining (st w2) !! wMachineID x)) = false) as Hm.
    { intros x. rewrite Hd. unfold mine. rewrite List.filter_In, andb_true_iff, negb_true_iff. unfold IsDraining. cbn. tauto. }
    apply List.filter_In in Ht as [Ht _]. split_and!; [done|exists target; exact (proj1 (Hm target) Ht)|].
    intros x Hx E. apply (proj2 (Hm x)) in Hx. assert (In x []) as []. rewrite <- Ec. apply List.filter_In. split; [exact Hx|]. by apply String.eqb_eq.
  - left. subst r. unfold bind, time_now, now, launches, count_if. cbn. by rewrite List.filter_app, app_nil_r.
Qed.

Lemma tail_reason workers needs w : let w' := (scale_tail cfg env region workers needs w).1 in
  launches w' = launches w \/ (needs = true /\ by_load workers w) \/ by_roll workers w'.
Proof.
  cbn zeta. unfold scale_tail, bind. destruct needs.
  - pose proof (guarded_reason workers w) as Hg. destruct (guarded_scale_up cfg env region workers w) as [w1 []].
    pose proof (rolling_reason workers w1) as Hr. cbn [fst] in *. destruct Hg as [<-|Hg]; [|by right; left]. tauto.
  - assert (pres (calm region) (when (flt (RegionUtilization env region) scaleDownThreshold &&
      (minWorkers cfg <? Z.of_nat (length workers))) (smartScaleDown cfg env region workers))) as Hc by (apply pres_when; [exact _|apply calm_smart]).
    specialize (Hc w). destruct (when _ _ w) as [w1 []]. pose proof (rolling_reason workers w1) as Hr.
    destruct Hc as [Hc _]. cbn [fst] in *. rewrite <- Hc. tauto.
Qed.

Lemma region_reason workers needs w : let w' := (scale_region cfg env region workers needs w).1 in
  launches w' = launches w \/ reserve_low cfg region workers w = true \/ (needs = true /\ by_load workers w) \/ by_roll workers w'.
Proof.
  cbn zeta. rewrite scale_region_eq. destruct (reserve_low cfg region workers w) eqn:E; [by right; left|]. cbn [when ret].
  destruct (tail_reason workers needs w) as [H|H]; [by left|by right; right].
Qed.

(** C31. One evaluation of a region launches only what its limits allow. Pending launches
    that registered or timed out are dropped, and each machine launched adds one. A region
    below its minimum launches at most what is missing, whatever its cooldown. At or above
    the minimum at most one machine is launched, and for one of three reasons, judged in
    the state that the phases before leave: the idle reserve is short and the maximum leaves
    room for the workers and twice the pending launches; the load asks for it, nothing is
    pending, fewer workers than the maximum are not draining, and the last scale-up is a
    cooldown ago; or a roll has nothing pending and no worker of the wanted version to move
    to. Nothing is launched while a creation backoff is active. *)
Theorem evaluateRegion_launches w :
  let workers := GetWorkersByRegion env region in
  let total := Z.of_nat (length workers) in
  let w0 := (first_phases env region w).1 in
  let w' := (evaluateRegion cfg env region w).1 in
  let survivors := pend region w0 in
  let new := launches w' - launches w in
  0 <= survivors <= pend region w /\ pend region w' = survivors + new /\ 0 <= new /\
  (total + survivors < minWorkers cfg -> new <= minWorkers cfg - (total + survivors)) /\
  (minWorkers cfg <= total + survivors -> new <= 1 /\
     (new = 1 -> reserve_low cfg region workers w0 = true \/ (wants_more env region (st w0) = true /\ by_load workers w0) \/
                 (survivors = 0 /\ by_roll workers w'))) /\
  (forall t, createBackoff (st w) !! region = Some t -> (forall n, clock env n <= t) -> new = 0).
Proof.
  cbn zeta. pose proof (evaluateRegion_halted cfg env region w) as Hhalt.
  destruct (evaluateRegion_eq cfg env region w) as (Hcalm & Heq). rewrite Heq in Hhalt |- *. clear Heq.
  set (w0 := (first_phases env region w).1) in *. set (w1 := (modify _ w0).1) in *. set (needs := wants_more env region (st w0)) in *.
  destruct (expirePending_pend env region w) as (_ & L0 & P0). destruct (calm_pend _ _ _ Hcalm) as [P1 L1].
  pose proof (pend_nonneg region w1). change (pend region w0) with (pend region w1).
  change (reserve_low cfg region (GetWorkersByRegion env region) w0) with (reserve_low cfg region (GetWorkersByRegion env region) w1).
  change (by_load (GetWorkersByRegion env region) w0) with (by_load (GetWorkersByRegion env region) w1).
  split; [lia|]. destruct (_ <? minWorkers cfg) eqn:Emin; bool_to_prop.
  - unfold bind in *. pose proof (calm_now region (clock env) w1) as Hn.
    unfold backoff_active, bind, time_now in *. destruct (now (clock env) w1) as [w2 tt2]. cbn [get ret fst] in *.
    destruct (calm_pend _ _ _ Hn) as [P2 L2].
    destruct (bool_decide _); cbn [ret fst] in *.
    + split_and!; lia.
    + destruct (launch_n_spec env region (Z.to_nat (minWorkers cfg - (Z.of_nat (length (GetWorkersByRegion env region)) + pend region w1))) w2)
        as (B3 & L3 & C3). split_and!; try lia. intros t Hb Hc. specialize (Hhalt t Hb Hc). lia.
  - destruct (scale_region_spec cfg env region (GetWorkersByRegion env region) needs w1) as (B3 & L3 & C3).
    pose proof (region_reason (GetWorkersByRegion env region) needs w1) as Hr. cbn zeta in Hr.
    split_and!; try lia.
    + intros _. split; [lia|]. intros Hnew. destruct Hr as [Hr|[Hr|[Hr|Hr]]]; [lia|by left|by right; left|].
      destruct (reserve_low cfg region (GetWorkersByRegion env region) w1) eqn:El; [by left|]. right; right. split; [|done].
      pose proof (careful_scale_tail cfg env region (GetWorkersByRegion env region) needs w1) as (_ & _ & Hone).
      rewrite scale_region_eq, El in Hnew. cbn [when ret] in Hnew. lia.
    + intros t Hb Hc. specialize (Hhalt t Hb Hc). lia.
Qed.

End Reasons.

(** ** The emergency batch *)

Lemma hibernate_pass_spec hib want count l n :
  (n <= count)%nat ->
  let '(att, n') := hibernate_pass hib want count l n in
  (n <= n' <= count)%nat /\ n' = (n + length (List.filter hib att))%nat /\
  Forall (fun i => exists sb, In sb l /\ SandboxId sb = i /\ Status sb = want) att /\
  ((n' < count)%nat -> forall sb, In sb l -> Status sb = want -> In (SandboxId sb) att).
Proof.
  revert n; induction l as [|sb l IH]; intros n Hn; cbn [hibernate_pass].
  { cbn. split_and!; (lia || constructor || done). }
  destruct (Nat.leb count n) eqn:Ec; bool_to_prop.
  { cbn. split_and!; try lia; constructor. }
  destruct (String.eqb_spec (Status sb) want) as [Hw|Hw]; cbn [negb].
  - specialize (IH (if hib (SandboxId sb) then S n else n)).
    destruct (hibernate_pass hib want count l _) as [att n'].
    destruct IH as (H1 & H2 & H3 & H4); [destruct (hib _); lia|]. split_and!.
    + destruct (hib _); lia.
    + destruct (hib (SandboxId sb)); lia.
    + cbn. destruct (hib (SandboxId sb)); cbn; lia.
    + constructor; [exists sb; split_and!; [by left|done|done]|].
      eapply Forall_impl; [exact H3|]. intros i (x & ? & ? & ?). exists x. split_and!; [by right|done|done].
    + intros Hlt x [<-|Hx] Hs; [by left|]. right. by apply H4.
  - specialize (IH n Hn). destruct (hibernate_pass hib want count l n) as [att n'].
    destruct IH as (H1 & H2 & H3 & H4). split_and!; try lia.
    + eapply Forall_impl; [exact H3|]. intros i (x & ? & ? & ?). exists x. split_and!; [by right|done|done].
    + intros Hlt x [<-|Hx] Hs; [done|]. by apply H4.
Qed.

(** An emergency batch hibernates at most [count] sandboxes of the worker's
    listing, paused ones first: the number it reports is the number of calls that
    succeeded; a running sandbox is touched only when every paused one has been
    tried and fewer than [count] succeeded; and it stops short of [count] only
    after trying every paused and running sandbox. *)
Theorem hibernateBatch_spec l hib count :
  exists paused running n, hibernateBatch (Some l) hib count = (paused ++ running, n) /\
    (n <= count)%nat /\ n = length (List.filter hib (paused ++ running)) /\
    Forall (fun i => exists sb, In sb l /\ SandboxId sb = i /\ Status sb = "paused"%string) paused /\
    Forall (fun i => exists sb, In sb l /\ SandboxId sb = i /\ Status sb = "running"%string) running /\
    (running <> [] -> (length (List.filter hib paused) < count)%nat /\
       forall sb, In sb l -> Status sb = "paused"%string -> In (SandboxId sb) paused) /\
    ((n < count)%nat -> forall sb, In sb l -> Status sb = "paused"%string \/ Status sb = "running"%string ->
       In (SandboxId sb) (paused ++ running)).
Proof.
  unfold hibernateBatch. destruct count as [|c].
  { cbn. exists [], [], 0%nat. split_and!; try done; try lia; constructor. }
  change (Nat.leb (S c) 0) with false. cbn iota. pose proof (hibernate_pass_spec hib "paused" (S c) l 0 ltac:(lia)) as H1.
  destruct (hibernate_pass hib "paused" (S c) l 0) as [p n1]. destruct H1 as (A1 & A2 & A3 & A4). cbn in A2.
  destruct (Nat.leb (S c) n1) eqn:Ec; bool_to_prop.
  { exists p, [], n1. rewrite app_nil_r. split_and!; try done; try lia; constructor. }
  pose proof (hibernate_pass_spec hib "running" (S c) l n1 ltac:(lia)) as H2.
  destruct (hibernate_pass hib "running" (S c) l n1) as [r n2]. destruct H2 as (B1 & B2 & B3 & B4).
  exists p, r, n2. rewrite List.filter_app, length_app. split_and!; try done; try lia.
  - intros _. split; [lia|]. by apply A4.
  - intros Hlt sb Hsb [Hs|Hs]; apply in_app_iff; [left; apply A4; auto; lia|right; by apply B4].
Qed.

(** ** Witnesses *)

Definition w_cfg : Config := NewScaler
  {| c_MinWorkers := 0; c_MaxWorkers := 0; c_IdleReserve := 0; c_Cooldown := 0; c_Interval := 0; c_MachineSizes := [] |}.
Definition w_env : Env := {|
  Regions := []; GetWorkersByRegion := fun _ => []; RegionUtilization := fun _ => f0;
  RegionResourcePressure := fun _ => (f0, f0, f0); no_store := true;
  CountPendingHibernationUploads := fun _ => None; clock := fun n => Z.of_nat n |}.
Definition w_failing : world :=
  {| st := upd_createFailures (insert "eastus2"%string 30) NewInMemoryScalerState; reads := 0; log := [] |}.

Lemma creation_backoff_lost_witness :
  let w' := (launch_goroutine w_cfg w_env (fun _ => Err QuotaExceeded) "eastus2" "p" w_failing).1 in
  createFailures (st w') !! "eastus2"%string = Some 31 /\
  forall t, 0 <= t -> GetCreationBackoffUntil (st w') t "eastus2" = None.
Proof.
  exact (creation_backoff_lost w_cfg w_env (fun _ => Err QuotaExceeded) "eastus2" "p" w_failing eq_refl eq_refl).
Defined.

End Scaler.
