(* ===== verification/SessionStore.v ===== *)
(** * Sessions, billing periods, checkpoints and lifecycle events in the database

    src/internal/db/store.go (sessions, migrations, hibernations), pause.go,
    pool.go, webhooks.go and the scale events of usage.go: every statement as a
    function on lists of rows. A transaction is one function: it commits as a
    whole, or the caller keeps the old database. [now] is the clock the statement
    reads. [sandbox_id] has no unique index, so an [UPDATE] touches every row that
    matches. Where a query without a total order picks one row, the model takes
    the first in table order. *)

From stdpp Require Import sorting.
From S2P Require Import Prelude.
#[local] Open Scope Z_scope.

Module SessionStore.

(** ** Rows *)

(** The columns of [sandbox_sessions] the modelled statements read or write;
    [agent_id] is [metadata->>'agent_id']. *)
Record session := {
  sandbox_id : string; org_id : string; template : string; region : string; worker_id : string;
  status : string; agent_id : option string; started_at : Z; stopped_at : option Z;
  error_msg : option string; migrating_to_worker : string; hibernation_mode : option string;
  paused_at : option Z; updated_at : Z
}.

Record ScaleEvent := {
  se_SandboxID : string; se_OrgID : string; se_MemoryMB : Z; se_CPUPct : Z; se_DiskMB : Z;
  se_StartedAt : Z; se_EndedAt : option Z
}.

Record SandboxHibernation := {
  h_SandboxID : string; h_OrgID : string; h_Key : string; h_SizeBytes : Z; h_Region : string;
  h_Template : string; h_At : Z; h_RestoredAt : option Z; h_ExpiredAt : option Z;
  h_UploadedAt : option Z; h_UploadError : option string
}.

Inductive event_data := NoData | Reason (r : string) | Template (t : string).

Record LifecycleEvent := {
  ev_ID : string; ev_OrgID : string; ev_SandboxID : string; ev_Type : string; ev_Data : event_data; ev_Ts : Z
}.

(** An agent's subscription: organisation, agent, status. *)
Record subscription := { sub_org : string; sub_agent : string; sub_status : string }.

(** [outbox] is in the order of its sequence numbers. *)
Record db := {
  sessions : list session; scale_events : list ScaleEvent; hibernations : list SandboxHibernation;
  outbox : list LifecycleEvent; subscriptions : list subscription
}.

Definition with_sessions (f : list session -> list session) (d : db) : db :=
  {| sessions := f (sessions d); scale_events := scale_events d; hibernations := hibernations d;
     outbox := outbox d; subscriptions := subscriptions d |}.
Definition with_events (f : list ScaleEvent -> list ScaleEvent) (d : db) : db :=
  {| sessions := sessions d; scale_events := f (scale_events d); hibernations := hibernations d;
     outbox := outbox d; subscriptions := subscriptions d |}.
Definition with_hibernations (f : list SandboxHibernation -> list SandboxHibernation) (d : db) : db :=
  {| sessions := sessions d; scale_events := scale_events d; hibernations := f (hibernations d);
     outbox := outbox d; subscriptions := subscriptions d |}.
Definition with_outbox (f : list LifecycleEvent -> list LifecycleEvent) (d : db) : db :=
  {| sessions := sessions d; scale_events := scale_events d; hibernations := hibernations d;
     outbox := f (outbox d); subscriptions := subscriptions d |}.

(** [UPDATE ... SET ... WHERE ...] *)
Definition UPDATE {A} (where_ : A -> bool) (set : A -> A) (l : list A) : list A :=
  map (fun r => if where_ r then set r else r) l.

Definition is_null {A} (o : option A) : bool := match o with None => true | Some _ => false end.
Definition same (x y : string) : bool := String.eqb x y.
Definition is_in (x : string) (l : list string) : bool := existsb (String.eqb x) l.
Definition uuid_nil : string := "00000000-0000-0000-0000-000000000000".

(** *** Columns

    [set_updated_at] is the [BEFORE UPDATE] trigger: every update of a session
    row stamps [updated_at]. *)
Section Columns.
Context (now : Z).

Definition set_row (r : session) (st wk mig : string) (stop : option Z) (msg mode : option string)
    (paused : option Z) : session :=
  {| sandbox_id := sandbox_id r; org_id := org_id r; template := template r; region := region r;
     worker_id := wk; status := st; agent_id := agent_id r; started_at := started_at r;
     stopped_at := stop; error_msg := msg; migrating_to_worker := mig; hibernation_mode := mode;
     paused_at := paused; updated_at := now |}.

Definition set_status (s : string) (r : session) : session :=
  set_row r s (worker_id r) (migrating_to_worker r) (stopped_at r) (error_msg r) (hibernation_mode r) (paused_at r).
Definition set_stopped (t : option Z) (r : session) : session :=
  set_row r (status r) (worker_id r) (migrating_to_worker r) t (error_msg r) (hibernation_mode r) (paused_at r).
Definition set_error (m : option string) (r : session) : session :=
  set_row r (status r) (worker_id r) (migrating_to_worker r) (stopped_at r) m (hibernation_mode r) (paused_at r).
Definition set_worker (w : string) (r : session) : session :=
  set_row r (status r) w (migrating_to_worker r) (stopped_at r) (error_msg r) (hibernation_mode r) (paused_at r).
Definition set_migrating_to (w : string) (r : session) : session :=
  set_row r (status r) (worker_id r) w (stopped_at r) (error_msg r) (hibernation_mode r) (paused_at r).
Definition set_mode (m : option string) (p : option Z) (r : session) : session :=
  set_row r (status r) (worker_id r) (migrating_to_worker r) (stopped_at r) (error_msg r) m p.

(** Status, [stopped_at = now()] and an error message. *)
Definition finish (s : string) (m : option string) (r : session) : session :=
  set_error m (set_stopped (Some now) (set_status s r)).

End Columns.

(** ** Lifecycle events *)

(** [ON CONFLICT (id) DO NOTHING] *)
Definition recordLifecycleEvent (ev : LifecycleEvent) (l : list LifecycleEvent) : list LifecycleEvent :=
  if existsb (fun e => same (ev_ID e) (ev_ID ev)) l then l else l ++ [ev].

Definition lifecycle (now : Z) (id org sandbox type : string) (data : event_data) : LifecycleEvent :=
  {| ev_ID := id; ev_OrgID := org; ev_SandboxID := sandbox; ev_Type := type; ev_Data := data; ev_Ts := now |}.

Definition DrainLifecycleOutbox (d : db) (batch : nat) : list LifecycleEvent := take batch (outbox d).

Definition DeleteLifecycleOutbox (ids : list string) : db -> db :=
  with_outbox (List.filter (fun e => negb (is_in (ev_ID e) ids))).

(** ** Scale events *)

Definition is_open (e : ScaleEvent) : bool := is_null (se_EndedAt e).

Definition end_event (now : Z) (e : ScaleEvent) : ScaleEvent :=
  {| se_SandboxID := se_SandboxID e; se_OrgID := se_OrgID e; se_MemoryMB := se_MemoryMB e;
     se_CPUPct := se_CPUPct e; se_DiskMB := se_DiskMB e; se_StartedAt := se_StartedAt e; se_EndedAt := Some now |}.

(** [UPDATE sandbox_scale_events SET ended_at = now() WHERE sandbox_id = ANY
    ($1) AND ended_at IS NULL] *)
Definition closeOpenScaleEventsForSandboxes (now : Z) (ids : list string) : list ScaleEvent -> list ScaleEvent :=
  UPDATE (fun e => is_in (se_SandboxID e) ids && is_open e) (end_event now).

Definition EndScaleEvent (now : Z) (d : db) (id : string) : db :=
  with_events (closeOpenScaleEventsForSandboxes now [id]) d.

(** The row with the greatest key. *)
Fixpoint latest {A} (key : A -> Z) (l : list A) : option A :=
  match l with
  | [] => None
  | x :: l =>
      match latest key l with
      | Some y => if key x <? key y then Some y else Some x
      | None => Some x
      end
  end.

Definition default_disk_mb : Z := 20480.

Definition RecordScaleEvent (now : Z) (d : db) (id org : string) (memoryMB cpuPct diskMB : Z) : db :=
  let diskMB :=
    if diskMB <=? 0 then
      match latest se_StartedAt (List.filter (fun e => same (se_SandboxID e) id) (scale_events d)) with
      | Some e => if 0 <? se_DiskMB e then se_DiskMB e else default_disk_mb
      | None => default_disk_mb
      end
    else diskMB in
  with_events (fun l => closeOpenScaleEventsForSandboxes now [id] l ++
    [{| se_SandboxID := id; se_OrgID := org; se_MemoryMB := memoryMB; se_CPUPct := cpuPct; se_DiskMB := diskMB;
        se_StartedAt := now; se_EndedAt := None |}]) d.

(** ** Creating sessions *)

Definition new_session (now : Z) (id org tmpl rg wk st : string) (agent : option string) : session :=
  {| sandbox_id := id; org_id := org; template := tmpl; region := rg; worker_id := wk; status := st;
     agent_id := agent; started_at := now; stopped_at := None; error_msg := None;
     migrating_to_worker := ""; hibernation_mode := None; paused_at := None; updated_at := now |}.

Definition CreateSandboxSessionWithStatus (now : Z) (d : db) (id org tmpl rg wk st : string)
    (agent : option string) : db * session :=
  let s := new_session now id org tmpl rg wk st agent in
  let d := with_sessions (fun l => l ++ [s]) d in
  (if negb (same st "pending")
   then with_outbox (recordLifecycleEvent
          (lifecycle now (id ++ ":sandbox.created")%string org id "sandbox.created" (Template tmpl))) d
   else d, s).

Definition CreateSandboxSession (now : Z) (d : db) (id org tmpl rg wk : string) (agent : option string) : db * session :=
  CreateSandboxSessionWithStatus now d id org tmpl rg wk "running" agent.

(** ** Status changes *)

Definition isTerminalSessionStatus (s : string) : bool :=
  same s "stopped" || same s "error" || same s "failed" || same s "terminated".

(** The statement [updateSandboxSessionStatus] chooses: which rows, and how. *)
Definition status_where (id st : string) (r : session) : bool :=
  same (sandbox_id r) id &&
  (if same st "stopped" || same st "error" then is_in (status r) ["running"; "edge_reserved"; "pending"]%string
   else if same st "failed" then same (status r) "pending"
   else if same st "running" then is_in (status r) ["running"; "pending"]%string
   else same (status r) "running").

Definition status_set (now : Z) (st : string) (errorMsg : option string) (r : session) : session :=
  if same st "stopped" || same st "error" || same st "failed" then finish now st errorMsg r else set_status now st r.

(** The events recorded for a transition of sandbox [id] to [st]. *)
Definition status_events (now : Z) (d : db) (id org tmpl st reason : string) : list LifecycleEvent :=
  let stopped r := [lifecycle now (id ++ ":sandbox.stopped")%string org id "sandbox.stopped" (Reason r)] in
  if same st "stopped" then stopped (if negb (same reason "expired") && negb (same reason "crash") then "user_requested"%string else reason)
  else if same st "error" then stopped "crash"%string
  else if same st "hibernated" then
    let n := length (List.filter (fun h => same (h_SandboxID h) id) (hibernations d)) in
    [lifecycle now (id ++ ":sandbox.hibernated:" ++ str (itoa (N.of_nat n)))%string org id "sandbox.hibernated" NoData]
  else if same st "running" then
    [lifecycle now (id ++ ":sandbox.created")%string org id "sandbox.created" (Template tmpl);
     lifecycle now (id ++ ":sandbox.ready")%string org id "sandbox.ready" NoData]
  else [].

(** What the terminal hook is called with: sandbox, organisation, status, reason. *)
Record hook := { hk_sandbox : string; hk_org : string; hk_status : string; hk_reason : string }.

Definition updateSandboxSessionStatus (now : Z) (d : db) (id st : string) (errorMsg : option string)
    (reason : string) : db * option hook :=
  let terminal := isTerminalSessionStatus st in
  let affected := existsb (status_where id st) (sessions d) in
  let d := with_sessions (UPDATE (status_where id st) (status_set now st errorMsg)) d in
  let d := if affected && (terminal || same st "hibernated")
           then with_events (closeOpenScaleEventsForSandboxes now [id]) d else d in
  let recorded := affected && (terminal || same st "hibernated" || same st "running") in
  let found := if recorded then List.find (fun r => same (sandbox_id r) id) (sessions d) else None in
  let org := match found with Some r => org_id r | None => uuid_nil end in
  let d := match found with
           | Some r =>
               if same (org_id r) uuid_nil then d
               else with_outbox (fun l => fold_left (fun l e => recordLifecycleEvent e l)
                      (status_events now d id (org_id r) (template r) st reason) l) d
           | None => d
           end in
  (d, if terminal && affected
      then Some {| hk_sandbox := id; hk_org := org; hk_status := st; hk_reason := ("session_terminal:" ++ st)%string |}
      else None).

Definition UpdateSandboxSessionStatus (now : Z) (d : db) (id st : string) (errorMsg : option string) : db * option hook :=
  updateSandboxSessionStatus now d id st errorMsg "".
Definition UpdateSandboxSessionStatusReason (now : Z) (d : db) (id st : string) (errorMsg : option string)
    (reason : string) : db * option hook :=
  updateSandboxSessionStatus now d id st errorMsg reason.

(** ** Migrations *)

Definition SetMigrating (now : Z) (d : db) (id target : string) : db :=
  with_sessions (UPDATE (fun r => same (sandbox_id r) id && same (status r) "running")
    (fun r => set_migrating_to now target (set_status now "migrating" r))) d.

Definition complete_where (id : string) (r : session) : bool :=
  same (sandbox_id r) id && is_in (status r) ["migrating"; "running"; "stopped"]%string.

(** [None] is the error for a session in none of the three states. *)
Definition CompleteMigration (now : Z) (d : db) (id worker : string) : option db :=
  match List.find (complete_where id) (sessions d) with
  | None => None
  | Some r =>
      let d := with_sessions (UPDATE (complete_where id) (fun r =>
                 set_error now None (set_stopped now None (set_migrating_to now ""
                   (set_worker now worker (set_status now "running" r)))))) d in
      Some (with_outbox (recordLifecycleEvent
        (lifecycle now (id ++ ":sandbox.migrated:" ++ worker)%string (org_id r) id "sandbox.migrated" NoData)) d)
  end.

Definition FailMigration (now : Z) (d : db) (id : string) : db :=
  with_sessions (UPDATE (fun r => same (sandbox_id r) id && same (status r) "migrating")
    (fun r => set_migrating_to now "" (set_status now "running" r))) d.

Record OrphanedSandbox := { or_SandboxID : string; or_OrgID : string; or_WorkerID : string }.

Definition orphan (r : session) : OrphanedSandbox :=
  {| or_SandboxID := sandbox_id r; or_OrgID := org_id r; or_WorkerID := worker_id r |}.

Definition recordOrphanStoppedTx (now : Z) (os : list OrphanedSandbox) (l : list LifecycleEvent) : list LifecycleEvent :=
  fold_left (fun l o =>
    if same (or_OrgID o) uuid_nil || same (or_SandboxID o) "" then l
    else recordLifecycleEvent (lifecycle now (or_SandboxID o ++ ":sandbox.stopped")%string (or_OrgID o) (or_SandboxID o)
           "sandbox.stopped" (Reason "crash")) l) os l.

Definition FailMigrationPostQMP (now : Z) (d : db) (id errorMsg : string) : db :=
  let hit r := same (sandbox_id r) id && same (status r) "migrating" in
  match List.find hit (sessions d) with
  | None => d
  | Some r =>
      let d := with_sessions (UPDATE hit (fun r => set_migrating_to now "" (finish now "error" (Some errorMsg) r))) d in
      let d := with_events (closeOpenScaleEventsForSandboxes now [id]) d in
      with_outbox (recordOrphanStoppedTx now [{| or_SandboxID := id; or_OrgID := org_id r; or_WorkerID := "" |}]) d
  end.

(** Worker-bound: running, or paused in the worker's memory. *)
Definition paused_row (r : session) : bool :=
  same (status r) "hibernated" && bool_decide (hibernation_mode r = Some "paused"%string).

(** Mark rows as dead, close their billing and record that they stopped. *)
Definition reap (now : Z) (hit : session -> bool) (set : session -> session) (d : db) : db * list OrphanedSandbox :=
  let os := map orphan (List.filter hit (sessions d)) in
  let d := with_sessions (UPDATE hit set) d in
  let d := with_events (closeOpenScaleEventsForSandboxes now (map or_SandboxID os)) d in
  (with_outbox (recordOrphanStoppedTx now os) d, os).

Definition MarkOrphanedOnWorker (now : Z) (d : db) (worker errorMsg : string) : db * list OrphanedSandbox :=
  reap now (fun r => same (worker_id r) worker && (is_in (status r) ["running"; "migrating"]%string || paused_row r))
    (fun r => set_migrating_to now "" (finish now "error" (Some errorMsg) r)) d.

(** [maxAge] is compared with the age of the session. *)
Definition RecoverStaleMigrations (now : Z) (d : db) (maxAge : Z) : db :=
  with_sessions (UPDATE (fun r => same (status r) "migrating" && (started_at r <? now - maxAge))
    (fun r => set_migrating_to now "" (set_status now "running" r))) d.

Definition lost_row (worker : string) (r : session) : bool :=
  same (worker_id r) worker && (is_in (status r) ["running"; "pending"]%string || paused_row r).

(** One transaction per dead worker; [fails] are the workers whose transaction
    does not commit. *)
Definition MarkOrphanedSandboxes (now : Z) (d : db) (liveWorkers : string -> bool) (fails : string -> bool) :
  db * list OrphanedSandbox :=
  let candidates := List.filter (fun r => is_in (status r) ["running"; "pending"]%string || paused_row r) (sessions d) in
  let deadWorkers := List.filter (fun w => negb (liveWorkers w)) (remove_dups (map worker_id candidates)) in
  fold_left (fun '(d, os) w =>
    if fails w then (d, os)
    else let '(d, batch) := reap now (lost_row w) (finish now "error" (Some "worker lost"%string)) d in (d, os ++ batch))
    deadWorkers (d, []).

Definition ReapStalePendingSessions (now : Z) (d : db) (olderThan : Z) : db * list OrphanedSandbox :=
  let hit r := same (status r) "pending" && (started_at r <? now - olderThan) in
  let os := map orphan (List.filter hit (sessions d)) in
  let d := with_sessions (UPDATE hit (finish now "failed" (Some "stale_pending"%string))) d in
  (with_events (closeOpenScaleEventsForSandboxes now (map or_SandboxID os)) d, os).

(** A row as [GetSandboxSession] scans it: [migrating_to_worker] is not among the columns it
    selects, so the field of the struct is empty. *)
Definition scan (r : session) : session :=
  set_row (updated_at r) r (status r) (worker_id r) "" (stopped_at r) (error_msg r) (hibernation_mode r) (paused_at r).

Definition latest_session (d : db) (id : string) : option session :=
  latest started_at (List.filter (fun r => same (sandbox_id r) id) (sessions d)).

Definition GetSandboxSession (d : db) (id : string) : option session := option_map scan (latest_session d id).

Definition by_start_desc (a b : session) : Prop := started_at b <= started_at a.
#[export] Instance by_start_desc_dec : RelDecision by_start_desc.
Proof. intros a b. unfold by_start_desc. apply _. Defined.

Definition ListSandboxSessions (d : db) (org st : string) (limit offset : nat) : list session :=
  take limit (drop offset (merge_sort by_start_desc
    (List.filter (fun r => same (org_id r) org && (same st "" || same (status r) st)) (sessions d)))).

(** ** The pause tier *)

(** Whether a row changed. *)
Definition SetSandboxPaused (now : Z) (d : db) (id : string) : db * bool :=
  let hit r := same (sandbox_id r) id && same (status r) "running" in
  let changed := existsb hit (sessions d) in
  let d := with_sessions (UPDATE hit (fun r => set_mode now (Some "paused"%string) (Some now) (set_status now "hibernated" r))) d in
  (if changed then with_events (closeOpenScaleEventsForSandboxes now [id]) d else d, changed).

Definition SetSandboxResumed (now : Z) (d : db) (id : string) : db :=
  with_sessions (UPDATE (fun r => same (sandbox_id r) id)
    (fun r => set_mode now None None (set_status now "running" r))) d.

Definition SetSandboxDeep (now : Z) (d : db) (id : string) : db * bool :=
  let hit r := same (sandbox_id r) id && bool_decide (hibernation_mode r = Some "paused"%string) in
  (with_sessions (UPDATE hit (set_mode now (Some "deep"%string) None)) d, existsb hit (sessions d)).

(** ** Checkpoints *)

(** [restored_at IS NULL AND expired_at IS NULL] *)
Definition active (id : string) (h : SandboxHibernation) : bool :=
  same (h_SandboxID h) id && is_null (h_RestoredAt h) && is_null (h_ExpiredAt h).

Definition set_hib (h : SandboxHibernation) (size : Z) (restored expired uploaded : option Z) (err : option string) :
  SandboxHibernation :=
  {| h_SandboxID := h_SandboxID h; h_OrgID := h_OrgID h; h_Key := h_Key h; h_SizeBytes := size;
     h_Region := h_Region h; h_Template := h_Template h; h_At := h_At h; h_RestoredAt := restored;
     h_ExpiredAt := expired; h_UploadedAt := uploaded; h_UploadError := err |}.

Definition expire (now : Z) (h : SandboxHibernation) : SandboxHibernation :=
  set_hib h (h_SizeBytes h) (h_RestoredAt h) (Some now) (h_UploadedAt h) (h_UploadError h).
Definition restore (now : Z) (h : SandboxHibernation) : SandboxHibernation :=
  set_hib h (h_SizeBytes h) (Some now) (h_ExpiredAt h) (h_UploadedAt h) (h_UploadError h).

(** The new row and the key it supersedes ([""] for none). *)
Definition CreateHibernation (now : Z) (d : db) (id org key : string) (size : Z) (rg tmpl : string) : db * string :=
  let superseded := match List.find (active id) (hibernations d) with Some h => h_Key h | None => ""%string end in
  (with_hibernations (fun l => UPDATE (active id) (expire now) l ++
     [{| h_SandboxID := id; h_OrgID := org; h_Key := key; h_SizeBytes := size; h_Region := rg; h_Template := tmpl;
         h_At := now; h_RestoredAt := None; h_ExpiredAt := None; h_UploadedAt := None; h_UploadError := None |}]) d,
   superseded).

Definition GetActiveHibernation (d : db) (id : string) : option SandboxHibernation :=
  List.find (active id) (hibernations d).

Definition MarkHibernationRestored (now : Z) (d : db) (id : string) : db :=
  with_hibernations (UPDATE (active id) (restore now)) d.

Definition MarkHibernationUploaded (now : Z) (d : db) (key : string) (size : Z) : db :=
  with_hibernations (UPDATE (fun h => same (h_Key h) key)
    (fun h => set_hib h size (h_RestoredAt h) (h_ExpiredAt h) (Some now) None)) d.

Definition MarkHibernationUploadFailed (d : db) (key msg : string) : db :=
  with_hibernations (UPDATE (fun h => same (h_Key h) key)
    (fun h => set_hib h (h_SizeBytes h) (h_RestoredAt h) (h_ExpiredAt h) (h_UploadedAt h) (Some msg))) d.

(** Neither uploaded nor failed. *)
Definition upload_pending (h : SandboxHibernation) : bool := is_null (h_UploadedAt h) && is_null (h_UploadError h).

(** The rows of the join of the worker's hibernated sessions with their
    pending checkpoints. *)
Definition CountPendingHibernationUploads (d : db) (worker : string) : Z :=
  Z.of_nat (length (flat_map (fun s =>
    List.filter (fun h => active (sandbox_id s) h && upload_pending h) (hibernations d))
    (List.filter (fun s => same (worker_id s) worker && same (status s) "hibernated") (sessions d)))).

Definition stuck (olderThan : Z) (h : SandboxHibernation) : bool :=
  upload_pending h && is_null (h_ExpiredAt h) && (h_At h <? olderThan).

Definition by_age (a b : SandboxHibernation) : Prop := h_At a <= h_At b.
#[export] Instance by_age_dec : RelDecision by_age.
Proof. intros a b. unfold by_age. apply _. Defined.

Definition ListStuckHibernationUploads (d : db) (olderThan : Z) (limit : nat) : list SandboxHibernation :=
  take limit (merge_sort by_age (List.filter (stuck olderThan) (hibernations d))).

(** [uid] is the fresh identifier of the event. *)
Definition UpdateSandboxSessionForWake (now : Z) (d : db) (id worker uid : string) : db :=
  let hit r := same (sandbox_id r) id && same (status r) "hibernated" in
  match List.find hit (sessions d) with
  | None => d
  | Some r =>
      let d := with_sessions (UPDATE hit (fun r => set_stopped now None (set_worker now worker (set_status now "running" r)))) d in
      with_outbox (recordLifecycleEvent (lifecycle now (id ++ ":sandbox.resumed:" ++ uid)%string (org_id r) id "sandbox.resumed" NoData)) d
  end.

(** ** Worker restarts *)

(** [nano id]: the clock reading in the event id of sandbox [id]. *)
Definition ReconcileWorkerSessions (now : Z) (nano : string -> string) (d : db) (worker : string) :
  db * (list OrphanedSandbox * list OrphanedSandbox) :=
  let checkpointed r := existsb (active (sandbox_id r)) (hibernations d) in
  let hit1 r := same (worker_id r) worker && same (status r) "running" && checkpointed r in
  let hibernated := map orphan (List.filter hit1 (sessions d)) in
  let d := with_sessions (UPDATE hit1 (set_status now "hibernated")) d in
  let hit2 r := same (worker_id r) worker && same (status r) "running" in
  let stopped := map orphan (List.filter hit2 (sessions d)) in
  let d := with_sessions (UPDATE hit2 (finish now "stopped" (Some "worker restarted"%string))) d in
  let hit3 r := same (worker_id r) worker && same (status r) "pooled" in
  let d := with_sessions (UPDATE hit3 (finish now "stopped" (Some "worker restarted (pooled)"%string))) d in
  let gone := map sandbox_id (List.filter (fun r => same (worker_id r) worker && is_in (status r) ["hibernated"; "stopped"]%string) (sessions d)) in
  let d := with_events (closeOpenScaleEventsForSandboxes now gone) d in
  let record kind data os l := fold_left (fun l o => recordLifecycleEvent
    (lifecycle now (or_SandboxID o ++ ":" ++ kind ++ ":reconcile:" ++ nano (or_SandboxID o))%string
       (or_OrgID o) (or_SandboxID o) kind data) l) os l in
  (with_outbox (fun l => record "sandbox.stopped"%string (Reason "crash") stopped
                           (record "sandbox.hibernated"%string NoData hibernated l)) d, (hibernated, stopped)).

Definition ReconcileWorkerReconnect (now : Z) (d : db) (worker : string) (running : list string) :
  db * list OrphanedSandbox :=
  let hit r := same (worker_id r) worker && same (status r) "error" && is_in (sandbox_id r) running in
  (with_sessions (UPDATE hit (fun r => set_error now None (set_status now "running" r))) d,
   map orphan (List.filter hit (sessions d))).

(** ** The warm pool *)

Definition PoolOrgID : string := "00000000-0000-4000-8000-000000000001".

Definition CreatePooledSession (now : Z) (d : db) (id tmpl rg wk : string) : db :=
  with_sessions (fun l => l ++ [new_session now id PoolOrgID tmpl rg wk "pooled" None]) d.

Record ClaimedBox := { cb_SandboxID : string; cb_WorkerID : string }.
Definition box (r : session) : ClaimedBox := {| cb_SandboxID := sandbox_id r; cb_WorkerID := worker_id r |}.

Definition by_start (a b : session) : Prop := started_at a <= started_at b.
#[export] Instance by_start_dec : RelDecision by_start.
Proof. intros a b. unfold by_start. apply _. Defined.

(** The oldest [n] parked boxes that no concurrent claim has locked. *)
Definition pick_pooled (d : db) (locked : string -> bool) (rg tmpl : string) (n : nat) : list session :=
  take n (merge_sort by_start (List.filter (fun r =>
    same (status r) "pooled" && same (region r) rg && same (template r) tmpl && negb (locked (sandbox_id r))) (sessions d))).

(** Bind a row to its customer. *)
Definition claim_row (now : Z) (org : string) (agent : option string) (r : session) : session :=
  let r := set_mode now None None (set_status now "pending" r) in
  {| sandbox_id := sandbox_id r; org_id := org; template := template r; region := region r;
     worker_id := worker_id r; status := status r; agent_id := agent; started_at := started_at r;
     stopped_at := stopped_at r; error_msg := error_msg r; migrating_to_worker := migrating_to_worker r;
     hibernation_mode := hibernation_mode r; paused_at := paused_at r; updated_at := updated_at r |}.

(** [None] is [ErrPoolEmpty]. *)
Definition ClaimPooledSession (now : Z) (d : db) (locked : string -> bool) (org rg tmpl : string)
    (agent : option string) : db * option ClaimedBox :=
  match pick_pooled d locked rg tmpl 1 with
  | [] => (d, None)
  | r :: _ => (with_sessions (UPDATE (fun x => same (sandbox_id x) (sandbox_id r)) (claim_row now org agent)) d, Some (box r))
  end.

Definition CountPooled (d : db) (rg tmpl : string) : Z :=
  Z.of_nat (length (List.filter (fun r => same (status r) "pooled" && same (region r) rg && same (template r) tmpl) (sessions d))).

Definition parked (r : session) : bool := is_in (status r) ["pooled"; "edge_reserved"]%string.

Definition CountPooledOnWorker (d : db) (worker tmpl : string) : Z :=
  Z.of_nat (length (List.filter (fun r => parked r && same (worker_id r) worker && same (template r) tmpl) (sessions d))).

Definition ListPooledOnWorker (d : db) (worker : string) : list string :=
  map sandbox_id (List.filter (fun r => parked r && same (worker_id r) worker) (sessions d)).

Definition WipePooled (now : Z) (d : db) (id : string) : db :=
  with_sessions (UPDATE (fun r => same (sandbox_id r) id && parked r)
    (fun r => set_mode now None (paused_at r) (set_stopped now (Some now) (set_status now "stopped" r)))) d.

Definition ReservePooledForEdge (now : Z) (d : db) (locked : string -> bool) (rg tmpl : string) (n : nat) :
  db * list ClaimedBox :=
  let ids := map sandbox_id (pick_pooled d locked rg tmpl n) in
  (with_sessions (UPDATE (fun r => is_in (sandbox_id r) ids) (set_status now "edge_reserved")) d,
   map box (List.filter (fun r => is_in (sandbox_id r) ids) (sessions d))).

Definition ClaimReservedSession (now : Z) (d : db) (id org : string) (agent : option string) : db * option ClaimedBox :=
  let hit r := same (sandbox_id r) id && same (status r) "edge_reserved" in
  (with_sessions (UPDATE hit (claim_row now org agent)) d, option_map box (List.find hit (sessions d))).

Definition ReleaseEdgeReservations (now : Z) (d : db) (ids : list string) : db * Z :=
  let hit r := is_in (sandbox_id r) ids && same (status r) "edge_reserved" in
  (with_sessions (UPDATE hit (set_status now "pooled")) d, Z.of_nat (length (List.filter hit (sessions d)))).

Definition ListStaleEdgeReservations (now : Z) (d : db) (ttl : Z) : list ClaimedBox :=
  map box (List.filter (fun r => same (status r) "edge_reserved" && (updated_at r <? now - ttl)) (sessions d)).

(** ** Usage *)

Record OrgUsageSummary := { u_MemoryMB : Z; u_CPUPercent : Z; u_DiskMB : Z; u_Total : Z }.

(** The sandbox backs an agent with a subscription that covers its compute. *)
Definition covered (d : db) (id : string) : bool :=
  existsb (fun s => same (sandbox_id s) id &&
    match agent_id s with
    | Some a => existsb (fun b => same (sub_org b) (org_id s) && same (sub_agent b) a &&
                  is_in (sub_status b) ["active"; "trialing"; "past_due"; "incomplete"]%string) (subscriptions d)
    | None => false
    end) (sessions d).

(** [started_at < $3 AND (ended_at IS NULL OR ended_at > $2)] *)
Definition overlaps (from to : Z) (e : ScaleEvent) : bool :=
  (se_StartedAt e <? to) && match se_EndedAt e with None => true | Some t => from <? t end.

(** [LEAST(COALESCE(ended_at, now()), $3) - GREATEST(started_at, $2)], in the
    clock's unit. *)
Definition clipped (now from to : Z) (e : ScaleEvent) : Z :=
  Z.min (default now (se_EndedAt e)) to - Z.max (se_StartedAt e) from.

Definition tier_of (e : ScaleEvent) : Z * Z * Z := (se_MemoryMB e, se_CPUPct e, se_DiskMB e).
Definition total (now from to : Z) (l : list ScaleEvent) : Z := foldr (fun e acc => clipped now from to e + acc) 0 l.

Definition billed (d : db) (org : string) (from to : Z) (e : ScaleEvent) : bool :=
  same (se_OrgID e) org && overlaps from to e && negb (covered d (se_SandboxID e)).

(** [ORDER BY memory_mb, disk_mb] *)
Definition by_tier (a b : OrgUsageSummary) : Prop :=
  u_MemoryMB a < u_MemoryMB b \/ (u_MemoryMB a = u_MemoryMB b /\ u_DiskMB a <= u_DiskMB b).
#[export] Instance by_tier_dec : RelDecision by_tier.
Proof. intros a b. unfold by_tier. apply _. Defined.

(** One row per tier that occurs. *)
Definition GetOrgUsage (now : Z) (d : db) (org : string) (from to : Z) : list OrgUsageSummary :=
  let rows := List.filter (billed d org from to) (scale_events d) in
  merge_sort by_tier (map (fun k => let '(mem, cpu, disk) := k in
    {| u_MemoryMB := mem; u_CPUPercent := cpu; u_DiskMB := disk;
       u_Total := total now from to (List.filter (fun e => bool_decide (tier_of e = k)) rows) |})
    (remove_dups (map tier_of rows))).

Definition GetSandboxOrgID (d : db) (id : string) : option string := option_map org_id (GetSandboxSession d id).

(** The organisations with a period that overlaps the window. *)
Definition ListOrgIDsWithScaleEvents (d : db) (from to : Z) : list string :=
  remove_dups (map se_OrgID (List.filter (overlaps from to) (scale_events d))).

(** ** Destroying a sandbox

    The session part of [killSandboxRemote] (src/internal/api/sandbox.go): the
    row is marked stopped before and after the best-effort call to the worker.
    [None] is the 404. *)
Definition killSandboxRemote (now : Z) (d : db) (id : string) (reachable : bool) : option db :=
  match GetSandboxSession d id with
  | None => None
  | Some _ =>
      let d := fst (UpdateSandboxSessionStatus now d id "stopped" None) in
      Some (if reachable then fst (UpdateSandboxSessionStatus now d id "stopped" None) else d)
  end.

End SessionStore.
