(* ===== verification/SessionFacts.v ===== *)
(** * What the session tables promise

    Theorems on SessionStore.v. [op] is one committed statement or transaction
    with its arguments, [step] runs it, and a history is a sequence of them with
    the clock each reads: any interleaving of the control plane, the workers and
    the edge. [moves] is the state machine of a session's status; every operation
    is shown to refine it. On top of that: billing periods, the exclusivity of
    pool claims, checkpoints, the event outbox and usage. *)

From stdpp Require Import sorting.
From S2P Require Import Prelude SessionStore.
#[local] Open Scope Z_scope.

Module SessionFacts.
Export SessionStore.

(** ** Histories *)

Inductive op :=
| Create (id org tmpl rg wk st : string) (agent : option string)
| Status (id st : string) (msg : option string) (reason : string)
| Migrate (id target : string) | Complete (id wk : string) | FailPre (id : string) | FailPost (id msg : string)
| OrphansOn (wk msg : string) | RecoverStale (age : Z) | Orphans (live fails : string -> bool) | ReapPending (age : Z)
| Pause (id : string) | Resume (id : string) | Deep (id : string)
| Checkpoint (id org key : string) (size : Z) (rg tmpl : string) | Restored (id : string)
| Uploaded (key : string) (size : Z) | UploadFailed (key msg : string) | Wake (id wk uid : string)
| Restart (nano : string -> string) (wk : string) | Reconnect (wk : string) (running : list string)
| Pool (id tmpl rg wk : string) | Claim (locked : string -> bool) (org rg tmpl : string) (agent : option string)
| Wipe (id : string) | Reserve (locked : string -> bool) (rg tmpl : string) (n : nat)
| ClaimReserved (id org : string) (agent : option string) | Release (ids : list string)
| Scale (id org : string) (mem cpu disk : Z) | EndScale (id : string) | Delivered (ids : list string).

Definition step (now : Z) (o : op) (d : db) : db :=
  match o with
  | Create id org tmpl rg wk st agent => fst (CreateSandboxSessionWithStatus now d id org tmpl rg wk st agent)
  | Status id st msg reason => fst (updateSandboxSessionStatus now d id st msg reason)
  | Migrate id target => SetMigrating now d id target
  | Complete id wk => default d (CompleteMigration now d id wk)
  | FailPre id => FailMigration now d id
  | FailPost id msg => FailMigrationPostQMP now d id msg
  | OrphansOn wk msg => fst (MarkOrphanedOnWorker now d wk msg)
  | RecoverStale age => RecoverStaleMigrations now d age
  | Orphans live fails => fst (MarkOrphanedSandboxes now d live fails)
  | ReapPending age => fst (ReapStalePendingSessions now d age)
  | Pause id => fst (SetSandboxPaused now d id)
  | Resume id => SetSandboxResumed now d id
  | Deep id => fst (SetSandboxDeep now d id)
  | Checkpoint id org key size rg tmpl => fst (CreateHibernation now d id org key size rg tmpl)
  | Restored id => MarkHibernationRestored now d id
  | Uploaded key size => MarkHibernationUploaded now d key size
  | UploadFailed key msg => MarkHibernationUploadFailed d key msg
  | Wake id wk uid => UpdateSandboxSessionForWake now d id wk uid
  | Restart nano wk => fst (ReconcileWorkerSessions now nano d wk)
  | Reconnect wk running => fst (ReconcileWorkerReconnect now d wk running)
  | Pool id tmpl rg wk => CreatePooledSession now d id tmpl rg wk
  | Claim locked org rg tmpl agent => fst (ClaimPooledSession now d locked org rg tmpl agent)
  | Wipe id => WipePooled now d id
  | Reserve locked rg tmpl n => fst (ReservePooledForEdge now d locked rg tmpl n)
  | ClaimReserved id org agent => fst (ClaimReservedSession now d id org agent)
  | Release ids => fst (ReleaseEdgeReservations now d ids)
  | Scale id org mem cpu disk => RecordScaleEvent now d id org mem cpu disk
  | EndScale id => EndScaleEvent now d id
  | Delivered ids => DeleteLifecycleOutbox ids d
  end.

Definition ids (d : db) : list string := map sandbox_id (sessions d).

(** The statuses whose periods are billed. *)
Definition billable (s : string) : bool := is_in s ["running"; "pending"; "migrating"]%string.

(** A sandbox with a billable row. *)
Definition runs (d : db) (id : string) : bool :=
  existsb (fun r => same (sandbox_id r) id && billable (status r)) (sessions d).

(** What the callers respect: a new sandbox has a new name and starts running
    or pending; a status change is to one of the five statuses the code passes. *)
Definition allowed (d : db) (o : op) : bool :=
  match o with
  | Create id _ _ _ _ st _ => negb (is_in id (ids d)) && is_in st ["running"; "pending"]%string
  | Pool id _ _ _ => negb (is_in id (ids d))
  | Status _ st _ _ => is_in st ["running"; "hibernated"; "stopped"; "error"; "failed"]%string
  | _ => true
  end.

(** A history: the clock and the operation of each step, every step allowed
    and the clock never going back. *)
Fixpoint history (clock : Z) (d : db) (h : list (Z * op)) : bool :=
  match h with
  | [] => true
  | (now, o) :: h => (clock <=? now) && allowed d o && history now (step now o d) h
  end.

Definition run (d : db) (h : list (Z * op)) : db := fold_left (fun d '(now, o) => step now o d) h d.

Definition empty_db (subs : list subscription) : db :=
  {| sessions := []; scale_events := []; hibernations := []; outbox := []; subscriptions := subs |}.

(** ** The state machine of a status *)

Definition all_statuses : list string :=
  ["pooled"; "edge_reserved"; "pending"; "running"; "migrating"; "hibernated"; "stopped"; "error"; "failed"]%string.

(** The moves an operation can make. *)
Definition moves (o : op) : list (string * string) :=
  match o with
  | Status _ st _ _ =>
      if same st "stopped" || same st "error" then [("running", st); ("edge_reserved", st); ("pending", st)]%string
      else if same st "failed" then [("pending", st)]%string
      else if same st "running" then [("pending", st)]%string
      else [("running", st)]%string
  | Migrate _ _ => [("running", "migrating")]%string
  | Complete _ _ => [("migrating", "running"); ("stopped", "running")]%string
  | FailPre _ | RecoverStale _ => [("migrating", "running")]%string
  | FailPost _ _ => [("migrating", "error")]%string
  | OrphansOn _ _ => [("running", "error"); ("migrating", "error"); ("hibernated", "error")]%string
  | Orphans _ _ => [("running", "error"); ("pending", "error"); ("hibernated", "error")]%string
  | ReapPending _ => [("pending", "failed")]%string
  | Pause _ => [("running", "hibernated")]%string
  | Resume _ => map (fun s => (s, "running"%string)) all_statuses
  | Wake _ _ _ => [("hibernated", "running")]%string
  | Restart _ _ => [("running", "hibernated"); ("running", "stopped"); ("pooled", "stopped")]%string
  | Reconnect _ _ => [("error", "running")]%string
  | Claim _ _ _ _ _ => [("pooled", "pending")]%string
  | Wipe _ => [("pooled", "stopped"); ("edge_reserved", "stopped")]%string
  | Reserve _ _ _ _ => [("pooled", "edge_reserved")]%string
  | ClaimReserved _ _ _ => [("edge_reserved", "pending")]%string
  | Release _ => [("edge_reserved", "pooled")]%string
  | _ => []
  end.

Definition moved (o : op) (a b : string) : Prop := a = b \/ In (a, b) (moves o).

(** ** Effects

    What an update of existing rows does: each row keeps its name, its status
    moves along [R], and if it stops being billable its sandbox is among those
    whose periods the transaction closes. *)

Definition row_ok (R : string -> string -> Prop) (closed : list string) (r r' : session) : Prop :=
  sandbox_id r' = sandbox_id r /\ R (status r) (status r') /\ (is_in (status r) all_statuses = true -> is_in (status r') all_statuses = true) /\
  (billable (status r) = true -> billable (status r') = true \/ In (sandbox_id r) closed).

Record effect (R : string -> string -> Prop) (now : Z) (closed : list string) (d d' : db) : Prop := {
  ef_rows : Forall2 (row_ok R closed) (sessions d) (sessions d');
  ef_events : scale_events d' = closeOpenScaleEventsForSandboxes now closed (scale_events d)
}.

Lemma same_true x y : same x y = true <-> x = y.
Proof. apply String.eqb_eq. Qed.

Lemma is_in_true x l : is_in x l = true <-> In x l.
Proof.
  unfold is_in. rewrite existsb_exists. split.
  - intros (y & Hy & Heq). apply String.eqb_eq in Heq. by subst.
  - intros H. exists x. by rewrite String.eqb_refl.
Qed.

Lemma is_in_false x l : is_in x l = false <-> ~ In x l.
Proof. rewrite <- is_in_true. by destruct (is_in x l). Qed.

Lemma UPDATE_cons {A} w (s : A -> A) r l : UPDATE w s (r :: l) = (if w r then s r else r) :: UPDATE w s l.
Proof. done. Qed.

Lemma UPDATE_none {A} w (s : A -> A) l : existsb w l = false -> UPDATE w s l = l.
Proof.
  induction l as [|r l IH]; [done|]. cbn [existsb]. intros [Hr Hl]%orb_false_iff.
  by rewrite UPDATE_cons, Hr, IH.
Qed.

Lemma existsb_false {A} (p : A -> bool) l : (forall x, In x l -> p x = false) -> existsb p l = false.
Proof. intros H. destruct (existsb p l) eqn:E; [|done]. apply existsb_exists in E as (x & Hx & E). by rewrite H in E. Qed.

Lemma filter_UPDATE {A} (p hit : A -> bool) set l :
  (forall r, p (set r) = p r) -> List.filter p (UPDATE hit set l) = UPDATE hit set (List.filter p l).
Proof.
  intros Hp. induction l as [|r l IH]; [done|]. rewrite UPDATE_cons. cbn [List.filter].
  assert (p (if hit r then set r else r) = p r) as -> by (destruct (hit r); [apply Hp|done]).
  rewrite IH. by destruct (p r).
Qed.

(** Updates that keep names and start times keep which row is the latest. *)
Lemma latest_map {A} (key : A -> Z) (f : A -> A) l : (forall x, key (f x) = key x) -> latest key (map f l) = option_map f (latest key l).
Proof.
  intros Hk. induction l as [|x l IH]; [done|]. cbn [map latest]. rewrite IH. destruct (latest key l) as [y|]; cbn; [|done].
  rewrite !Hk. by destruct (key x <? key y).
Qed.

Lemma filter_map_same {A} (p : A -> bool) (f : A -> A) l : (forall x, p (f x) = p x) -> List.filter p (map f l) = map f (List.filter p l).
Proof. intros Hp. induction l as [|x l IH]; [done|]. cbn. rewrite Hp. destruct (p x); cbn; by rewrite IH. Qed.

Lemma latest_In {A} (key : A -> Z) l x : latest key l = Some x -> In x l.
Proof.
  revert x. induction l as [|y l IH]; intros x; cbn [latest In]; [done|]. destruct (latest key l) as [z|]; [|intros; left; congruence].
  destruct (key y <? key z); intros H; simplify_eq; auto.
Qed.

Lemma UPDATE_length {A} w (s : A -> A) l : length (UPDATE w s l) = length l.
Proof. apply length_map. Qed.

Lemma close_nil now l : closeOpenScaleEventsForSandboxes now [] l = l.
Proof. apply UPDATE_none. induction l as [|e l IH]; [done|]. exact IH. Qed.

Lemma close_app now c1 c2 l :
  closeOpenScaleEventsForSandboxes now c2 (closeOpenScaleEventsForSandboxes now c1 l) =
  closeOpenScaleEventsForSandboxes now (c1 ++ c2) l.
Proof.
  unfold closeOpenScaleEventsForSandboxes, UPDATE. rewrite map_map. apply map_ext. intros e.
  assert (is_in (se_SandboxID e) (c1 ++ c2) = is_in (se_SandboxID e) c1 || is_in (se_SandboxID e) c2) as ->
    by apply existsb_app.
  destruct (is_in (se_SandboxID e) c1) eqn:H1, (is_open e) eqn:Ho; cbn; rewrite ?H1, ?Ho, ?andb_false_r; try done.
Qed.

Lemma row_ok_refl (R : string -> string -> Prop) closed r : (forall s, R s s) -> row_ok R closed r r.
Proof. intros HR. split_and!; auto. Qed.

Lemma row_ok_mono R c1 c2 r r' : (forall x, In x c1 -> In x c2) -> row_ok R c1 r r' -> row_ok R c2 r r'.
Proof. intros Hc (? & ? & ? & Hb). split_and!; [done|done|done|]. intros Hr. destruct (Hb Hr); auto. Qed.

Lemma update_rows (R : string -> string -> Prop) closed w s l :
  (forall x, R x x) -> (forall r, In r l -> w r = true -> row_ok R closed r (s r)) -> Forall2 (row_ok R closed) l (UPDATE w s l).
Proof.
  intros HR. induction l as [|r l IH]; intros H; [constructor|]. rewrite UPDATE_cons. constructor.
  - destruct (w r) eqn:E; [apply H; [by left|done]|by apply row_ok_refl].
  - apply IH. intros x Hx. apply H. by right.
Qed.

Lemma rows_refl (R : string -> string -> Prop) closed l : (forall s, R s s) -> Forall2 (row_ok R closed) l l.
Proof. intros HR. induction l; [constructor|]. constructor; [by apply row_ok_refl|done]. Qed.

Lemma effect_refl (R : string -> string -> Prop) now d : (forall s, R s s) -> effect R now [] d d.
Proof.
  intros HR. split; [by apply rows_refl|by rewrite close_nil].
Qed.

Lemma Forall2_compose {A} (P Q S : A -> A -> Prop) l1 l2 l3 :
  (forall x y z, P x y -> Q y z -> S x z) -> Forall2 P l1 l2 -> Forall2 Q l2 l3 -> Forall2 S l1 l3.
Proof.
  intros H H1. revert l3. induction H1 as [|x y l1 l2 Hxy H1 IH]; intros l3 H2; inversion H2; subst; constructor; eauto.
Qed.

Lemma rows_trans (R : string -> string -> Prop) closed l1 l2 l3 :
  (forall x y z, R x y -> R y z -> R x z) ->
  Forall2 (row_ok R closed) l1 l2 -> Forall2 (row_ok R closed) l2 l3 -> Forall2 (row_ok R closed) l1 l3.
Proof.
  intros HR. apply Forall2_compose.
  intros x y z (Hi & HRx & Ha & Hb) (Hi' & HRy & Ha' & Hb'). split_and!; [congruence|eauto|auto|].
  intros Hx. destruct (Hb Hx) as [Hy|]; [|auto]. destruct (Hb' Hy); [auto|]. right. congruence.
Qed.

Lemma effect_trans (R : string -> string -> Prop) now c1 c2 d1 d2 d3 :
  (forall x y z, R x y -> R y z -> R x z) ->
  effect R now c1 d1 d2 -> effect R now c2 d2 d3 -> effect R now (c1 ++ c2) d1 d3.
Proof.
  intros HR [Hr1 He1] [Hr2 He2]. split; [|by rewrite He2, He1, close_app].
  apply (rows_trans _ _ _ (sessions d2)); [done| |].
  - eapply Forall2_impl; [exact Hr1|]. intros r r'. apply row_ok_mono. intros x. rewrite in_app_iff. auto.
  - eapply Forall2_impl; [exact Hr2|]. intros r r'. apply row_ok_mono. intros x. rewrite in_app_iff. auto.
Qed.

(** Read the conditions of a [WHERE] clause off the hypotheses. *)
Ltac where_hyps :=
  repeat match goal with
  | H : _ && _ = true |- _ => apply andb_true_iff in H; destruct H
  | H : _ || _ = true |- _ => apply orb_true_iff in H; destruct H
  | H : same _ _ = true |- _ => apply same_true in H
  | H : is_in _ _ = true |- _ => apply is_in_true in H; cbn [In] in H
  | H : _ \/ _ |- _ => destruct H
  | H : False |- _ => destruct H
  | H : _ = status _ |- _ => symmetry in H
  end.

(** A matched row moves as [moves] says. *)
Ltac row_move r Hw :=
  cbv beta in Hw; unfold lost_row, paused_row, complete_where, parked in Hw; where_hyps;
  match goal with Hs : status r = _ |- _ =>
    unfold row_ok, moved; rewrite !Hs; cbn -[In is_in billable];
    split_and!; [done | cbn [moves In]; auto 12 | done | try done; auto]
  end.
Ltac row_hit :=
  let r := fresh "r" in let Hin := fresh "Hin" in let Hw := fresh "Hw" in
  intros r Hin Hw; row_move r Hw.

Lemma moved_refl o s : moved o s s.
Proof. by left. Qed.

(** No move of [o] starts where another ends. *)
Definition one_shot (o : op) : bool :=
  forallb (fun '(_, b) => forallb (fun '(a, _) => negb (same a b)) (moves o)) (moves o).

Lemma moved_trans o x y z : one_shot o = true -> moved o x y -> moved o y z -> moved o x z.
Proof.
  unfold one_shot. rewrite forallb_forall. intros Ho [->|H1]; [done|]. intros [<-|H2]; [by right|].
  specialize (Ho _ H1). cbn in Ho. rewrite forallb_forall in Ho. specialize (Ho _ H2). cbn in Ho.
  unfold same in Ho. by rewrite String.eqb_refl in Ho.
Qed.

(** One [UPDATE] of sessions that closes the periods of [closed]. *)
Lemma effect_update o now closed w s d d' :
  sessions d' = UPDATE w s (sessions d) ->
  scale_events d' = closeOpenScaleEventsForSandboxes now closed (scale_events d) ->
  (forall r, In r (sessions d) -> w r = true -> row_ok (moved o) closed r (s r)) ->
  effect (moved o) now closed d d'.
Proof. intros Hs He H. split; [|done]. rewrite Hs. apply update_rows; [apply moved_refl|done]. Qed.

(** The same, when no period needs closing. *)
Lemma effect_update' o now w s d d' :
  sessions d' = UPDATE w s (sessions d) -> scale_events d' = scale_events d ->
  (forall r, In r (sessions d) -> w r = true -> row_ok (moved o) [] r (s r)) ->
  exists closed, effect (moved o) now closed d d'.
Proof. intros Hs He H. exists []. eapply effect_update; [exact Hs|by rewrite close_nil|done]. Qed.

(** Operations that do not touch sessions or periods. *)
Lemma effect_none o now d d' :
  sessions d' = sessions d -> scale_events d' = scale_events d -> exists closed, effect (moved o) now closed d d'.
Proof.
  intros Hs He. exists []. split; [|by rewrite close_nil]. rewrite Hs. apply rows_refl, moved_refl.
Qed.

Lemma in_singleton (x y : string) : x = y -> In x [y].
Proof. intros ->. by left. Qed.
#[local] Hint Resolve in_singleton : core.

Lemma status_effect now d id st msg reason :
  allowed d (Status id st msg reason) = true ->
  exists closed, effect (moved (Status id st msg reason)) now closed d (step now (Status id st msg reason) d).
Proof.
  cbn [allowed step]. intros Hst. unfold updateSandboxSessionStatus.
  destruct (existsb (status_where id st) (sessions d)) eqn:Ha; cbn [andb]; cycle 1.
  { apply effect_none; [|done]. rewrite andb_false_r. cbn. by apply UPDATE_none. }
  set (d1 := with_sessions _ d).
  set (closes := isTerminalSessionStatus st || same st "hibernated").
  exists (if closes then [id] else []).
  apply (effect_update _ _ _ (status_where id st) (status_set now st msg)).
  - destruct closes; case_goal; try case_goal; done.
  - destruct closes; case_goal; try case_goal; cbn; rewrite ?close_nil; done.
  - intros r Hin Hw. unfold status_where in Hw. unfold closes. clear d1 closes Ha.
    apply is_in_true in Hst. cbn [In] in Hst. destruct_or! Hst; subst st; cbn -[is_in] in Hw |- *; where_hyps;
    match goal with Hs : status r = _ |- _ =>
      unfold row_ok, moved; rewrite !Hs; cbn -[In is_in billable];
      split_and!; [done | cbn [moves In]; auto 12 | done | try done; auto]
    end.
Qed.

Lemma reap_effect o now hit set d :
  (forall r, In r (sessions d) -> hit r = true -> row_ok (moved o) (map or_SandboxID (map orphan (List.filter hit (sessions d)))) r (set r)) ->
  exists closed, effect (moved o) now closed d (fst (reap now hit set d)).
Proof. intros H. eexists. by eapply effect_update with (w := hit) (s := set). Qed.

Lemma reaped_id hit r l : In r l -> hit r = true -> In (sandbox_id r) (map or_SandboxID (map orphan (List.filter hit l))).
Proof. intros Hin Hh. rewrite map_map. apply in_map_iff. exists r. split; [done|]. by apply filter_In. Qed.

Lemma orphans_effect now live fails d :
  exists closed, effect (moved (Orphans live fails)) now closed d (step now (Orphans live fails) d).
Proof.
  cbn [step]. unfold MarkOrphanedSandboxes. generalize (@nil OrphanedSandbox) as os.
  match goal with |- context [fold_left ?f ?l _] => set (step1 := f); generalize l as ws end.
  assert (forall ws os d0, (exists c, effect (moved (Orphans live fails)) now c d d0) ->
            exists c, effect (moved (Orphans live fails)) now c d (fst (fold_left step1 ws (d0, os)))) as H;
    [|intros ws os; apply H; exists []; apply effect_refl, moved_refl].
  induction ws as [|w ws IH]; intros os d0 [c Hc]; [by exists c|]. cbn [fold_left]. unfold step1 at 2.
  destruct (fails w); [apply IH; by exists c|].
  destruct (reap now (lost_row w) (finish now "error" (Some "worker lost"%string)) d0) as [d1 batch] eqn:E. apply IH.
  destruct (reap_effect (Orphans live fails) now (lost_row w) (finish now "error" (Some "worker lost"%string)) d0) as [c' Hc'].
  { intros r Hin Hw. pose proof (reaped_id (lost_row w) r _ Hin Hw) as Hid. row_move r Hw. }
  rewrite E in Hc'. exists (c ++ c'). refine (effect_trans _ _ _ _ _ _ _ _ Hc Hc').
  intros x y z. by apply moved_trans.
Qed.

Lemma UPDATE_hit {A} w (s : A -> A) r l : In r l -> w r = true -> In (s r) (UPDATE w s l).
Proof. intros Hin Hw. apply in_map_iff. exists r. by rewrite Hw. Qed.

Lemma UPDATE_miss {A} w (s : A -> A) r l : In r l -> w r = false -> In r (UPDATE w s l).
Proof. intros Hin Hw. apply in_map_iff. exists r. by rewrite Hw. Qed.

Lemma restart_rows now nano wk (checkpointed : session -> bool) (l : list session) :
  let hit2 r := same (worker_id r) wk && same (status r) "running" in
  let hit3 r := same (worker_id r) wk && same (status r) "pooled" in
  let l1 := UPDATE (fun r => hit2 r && checkpointed r) (set_status now "hibernated") l in
  let l2 := UPDATE hit2 (finish now "stopped" (Some "worker restarted"%string)) l1 in
  let l3 := UPDATE hit3 (finish now "stopped" (Some "worker restarted (pooled)"%string)) l2 in
  let gone := map sandbox_id (List.filter (fun r => same (worker_id r) wk && is_in (status r) ["hibernated"; "stopped"]%string) l3) in
  Forall2 (row_ok (moved (Restart nano wk)) gone) l l3.
Proof.
  intros hit2 hit3 l1 l2 l3 gone.
  assert (forall r, In r l3 -> worker_id r = wk -> is_in (status r) ["hibernated"; "stopped"]%string = true -> In (sandbox_id r) gone) as Hgone.
  { intros r Hin Hw Hs. apply in_map, filter_In. split; [done|]. rewrite Hs, andb_true_r. by apply same_true. }
  apply (rows_trans _ _ _ l1); [intros x y z; by apply moved_trans| |];
    [|apply (rows_trans _ _ _ l2); [intros x y z; by apply moved_trans| |]].
  - apply update_rows; [apply moved_refl|]. intros r Hin Hw.
    assert (In (sandbox_id r) gone).
    { pose proof (UPDATE_hit (fun r => hit2 r && checkpointed r) (set_status now "hibernated") r l Hin Hw) as H1. fold l1 in H1. unfold hit2 in Hw.
      where_hyps. apply (Hgone (set_status now "hibernated" r)); [|done|done].
      apply UPDATE_miss; [apply UPDATE_miss; [done|]|]; apply andb_false_r. }
    unfold hit2 in Hw. row_move r Hw.
  - apply update_rows; [apply moved_refl|]. intros r Hin Hw.
    assert (In (sandbox_id r) gone).
    { pose proof (UPDATE_hit hit2 (finish now "stopped" (Some "worker restarted"%string)) r l1 Hin Hw) as H1. fold l2 in H1.
      unfold hit2 in Hw. where_hyps. apply (Hgone (finish now "stopped" (Some "worker restarted"%string) r)); [|done|done].
      apply UPDATE_miss; [done|]. apply andb_false_r. }
    unfold hit2 in Hw. row_move r Hw.
  - apply update_rows; [apply moved_refl|]. unfold hit3. row_hit.
Qed.

Lemma restart_effect now nano wk d :
  exists closed, effect (moved (Restart nano wk)) now closed d (step now (Restart nano wk) d).
Proof. eexists. split; [|reflexivity]. apply restart_rows. Qed.

(** *** Names are unique *)

Lemma row_unique d r r' : NoDup (ids d) -> In r (sessions d) -> In r' (sessions d) -> sandbox_id r = sandbox_id r' -> r = r'.
Proof.
  unfold ids. induction (sessions d) as [|x l IH]; cbn [map In]; [done|]. intros Hnd. inversion Hnd as [|? ? Hx Hl]; subst.
  rewrite list_elem_of_In in Hx. intros [->|Hr] [->|Hr'] Heq; [done| | |auto].
  - destruct Hx. rewrite Heq. by apply in_map.
  - destruct Hx. rewrite <- Heq. by apply in_map.
Qed.

Lemma picked d locked rg tmpl n r :
  In r (pick_pooled d locked rg tmpl n) ->
  In r (sessions d) /\ status r = "pooled"%string /\ region r = rg /\ template r = tmpl /\ locked (sandbox_id r) = false.
Proof.
  intros Hin. apply list_elem_of_In in Hin. apply elem_of_take in Hin as (i & Hi & _). apply list_elem_of_lookup_2 in Hi.
  rewrite merge_sort_Permutation, list_elem_of_In, filter_In in Hi. destruct Hi as [Hin Hw]. split; [done|]. where_hyps.
  bool_to_prop. done.
Qed.

(** An update by the names of pooled rows hits pooled rows only. *)
Lemma pooled_only d w x :
  NoDup (ids d) -> In x (sessions d) -> (exists r, In r (sessions d) /\ status r = w /\ sandbox_id x = sandbox_id r) -> status x = w.
Proof. intros Hnd Hx (r & Hr & Hs & Heq). by rewrite (row_unique d x r Hnd Hx Hr Heq). Qed.

Lemma claim_effect now locked org rg tmpl agent d :
  NoDup (ids d) -> exists closed, effect (moved (Claim locked org rg tmpl agent)) now closed d (step now (Claim locked org rg tmpl agent) d).
Proof.
  intros Hnd. cbn [step]. unfold ClaimPooledSession. destruct (pick_pooled d locked rg tmpl 1) as [|r rest] eqn:E; [by apply effect_none|].
  assert (In r (pick_pooled d locked rg tmpl 1)) as Hr by (rewrite E; by left). apply picked in Hr as (Hin & Hs & _).
  eapply effect_update'; [reflexivity|reflexivity|]. intros x Hx Hw. apply same_true in Hw.
  assert (status x = "pooled"%string) as Hx' by (apply (pooled_only d); eauto).
  unfold row_ok, moved. rewrite Hx'. cbn -[In is_in billable]. split_and!; [done|cbn [moves In]; auto|done|done].
Qed.

Lemma reserve_effect now locked rg tmpl n d :
  NoDup (ids d) -> exists closed, effect (moved (Reserve locked rg tmpl n)) now closed d (step now (Reserve locked rg tmpl n) d).
Proof.
  intros Hnd. cbn [step ReservePooledForEdge fst]. eapply effect_update'; [reflexivity|reflexivity|].
  intros x Hx Hw. apply is_in_true, in_map_iff in Hw as (r & Heq & Hr). apply picked in Hr as (Hin & Hs & _).
  assert (status x = "pooled"%string) as Hx' by (apply (pooled_only d); eauto).
  unfold row_ok, moved. rewrite Hx'. cbn -[In is_in billable]. split_and!; [done|cbn [moves In]; auto|done|done].
Qed.

(** Operations that add a row or open a period. *)
Definition adds (o : op) : bool :=
  match o with Create _ _ _ _ _ _ _ | Pool _ _ _ _ | Scale _ _ _ _ _ => true | _ => false end.

Definition well_stated (d : db) : Prop := forall r, In r (sessions d) -> is_in (status r) all_statuses = true.

Lemma resume_effect now id d :
  well_stated d -> exists closed, effect (moved (Resume id)) now closed d (step now (Resume id) d).
Proof.
  intros Hws. eapply effect_update'; [reflexivity|reflexivity|]. intros r Hin _. specialize (Hws r Hin).
  unfold row_ok, moved. cbn -[In is_in billable moves]. split_and!; [done| |done|auto].
  right. change (In (status r, "running"%string) (map (fun s => (s, "running"%string)) all_statuses)).
  apply in_map_iff. exists (status r). split; [done|]. by apply is_in_true.
Qed.

Lemma step_effect now o d :
  NoDup (ids d) -> well_stated d -> allowed d o = true -> adds o = false ->
  exists closed, effect (moved o) now closed d (step now o d).
Proof.
  intros Hnd Hws Hal Hadd. destruct o; try discriminate Hadd; clear Hadd;
    try (by apply status_effect); try (by apply orphans_effect); try (by apply restart_effect);
    try (by apply claim_effect); try (by apply reserve_effect); try (by apply resume_effect);
    try (by apply effect_none);
    try (eapply effect_update'; [reflexivity|reflexivity|row_hit]; fail).
  - cbn [step]. unfold CompleteMigration. destruct (List.find (complete_where id) (sessions d)); [|by apply effect_none].
    cbn [default]. eapply effect_update'; [reflexivity|reflexivity|row_hit].
  - cbn [step]. unfold FailMigrationPostQMP. case_goal; [|by apply effect_none].
    exists [id]. eapply effect_update; [reflexivity|reflexivity|row_hit].
  - apply reap_effect. intros r Hin Hw.
    match goal with |- row_ok _ (map _ (map _ (List.filter ?h _))) _ _ => pose proof (reaped_id h r _ Hin Hw) end.
    row_move r Hw.
  - eexists. eapply effect_update; [reflexivity|reflexivity|]. intros r Hin Hw.
    match goal with |- row_ok _ (map _ (map _ (List.filter ?h _))) _ _ => pose proof (reaped_id h r _ Hin Hw) end.
    row_move r Hw.
  - cbn [step]. unfold SetSandboxPaused. case_goal; cbn [fst].
    + exists [id]. eapply effect_update; [reflexivity|reflexivity|row_hit].
    + apply effect_none; [by apply UPDATE_none|done].
  - eapply effect_update'; [reflexivity|reflexivity|]. intros r _ _. unfold row_ok, moved. cbn -[is_in billable]. auto.
  - cbn [step]. unfold UpdateSandboxSessionForWake. case_goal; [|by apply effect_none].
    eapply effect_update'; [reflexivity|reflexivity|row_hit].
  - exists [id]. split; [|done]. apply rows_refl, moved_refl.
Qed.

(** ** Billing periods *)

(** Two periods of a sandbox do not overlap: the earlier one has ended when
    the later one starts. *)
Definition before (e e' : ScaleEvent) : Prop :=
  se_SandboxID e = se_SandboxID e' -> exists t, se_EndedAt e = Some t /\ t <= se_StartedAt e'.

(** A period lies in the past of the clock. *)
Definition timely (clock : Z) (e : ScaleEvent) : Prop :=
  se_StartedAt e <= clock /\ match se_EndedAt e with Some t => se_StartedAt e <= t <= clock | None => True end.

Record consistent (clock : Z) (d : db) : Prop := {
  c_names : NoDup (ids d);
  c_status : well_stated d;
  c_periods : ForallOrdPairs before (scale_events d);
  c_clock : Forall (timely clock) (scale_events d)
}.

Lemma runs_true d id : runs d id = true <-> exists r, In r (sessions d) /\ sandbox_id r = id /\ billable (status r) = true.
Proof.
  unfold runs. rewrite existsb_exists. split.
  - intros (r & Hr & Hw). apply andb_true_iff in Hw as [Hi Hb]. apply same_true in Hi. eauto.
  - intros (r & Hr & Hi & Hb). exists r. split; [done|]. rewrite Hb, andb_true_r. by apply same_true.
Qed.

Lemma close_In now closed e l :
  In e (closeOpenScaleEventsForSandboxes now closed l) ->
  exists e0, In e0 l /\ (e = e0 \/ (is_open e0 = true /\ e = end_event now e0)) /\
    (is_open e = true -> e = e0 /\ ~ In (se_SandboxID e) closed).
Proof.
  intros (e0 & He & Hin)%in_map_iff. exists e0. split; [done|]. destruct (_ && _) eqn:E; subst e.
  - apply andb_true_iff in E as [Hc Ho]. split; [right; done|]. done.
  - split; [by left|]. intros Ho. split; [done|]. rewrite Ho, andb_true_r in E. by apply is_in_false.
Qed.

Lemma close_before now closed l :
  ForallOrdPairs before l -> ForallOrdPairs before (closeOpenScaleEventsForSandboxes now closed l).
Proof.
  induction 1 as [|e l Hel Hl IH]; [constructor|]. unfold closeOpenScaleEventsForSandboxes. rewrite UPDATE_cons.
  constructor; [|exact IH]. apply Forall_forall. intros x Hx.
  rewrite list_elem_of_In in Hx. apply close_In in Hx as (x0 & Hx0 & Hx & _).
  rewrite Forall_forall in Hel. specialize (Hel x0). rewrite list_elem_of_In in Hel. specialize (Hel Hx0).
  assert (se_SandboxID x = se_SandboxID x0 /\ se_StartedAt x = se_StartedAt x0) as [Hid Hst] by (destruct Hx as [->|[_ ->]]; done).
  intros Heq. rewrite Hst. destruct Hel as (t & Ht & Hle).
  { rewrite <- Hid, <- Heq. by destruct (_ && _). }
  exists t. split; [|done]. unfold is_open. rewrite Ht. cbn. by rewrite andb_false_r.
Qed.

Lemma close_timely clock now closed l :
  clock <= now -> Forall (timely clock) l -> Forall (timely now) (closeOpenScaleEventsForSandboxes now closed l).
Proof.
  intros Hle Hl. rewrite Forall_forall in Hl |- *. intros e He. rewrite list_elem_of_In in He.
  apply close_In in He as (e0 & He0 & He & _). specialize (Hl e0). rewrite list_elem_of_In in Hl.
  destruct (Hl He0) as [Hs Ht]. unfold timely. destruct He as [->|[_ ->]]; cbn; [|lia]. destruct (se_EndedAt e0); lia.
Qed.

Lemma effect_ids R now closed d d' : effect R now closed d d' -> ids d' = ids d.
Proof. intros [Hr _]. unfold ids. induction Hr as [|r r' l l' (Hi & _) Hr IH]; cbn; [done|]. by rewrite Hi, IH. Qed.

Lemma effect_consistent R clock now closed d d' :
  clock <= now -> effect R now closed d d' -> consistent clock d -> consistent now d'.
Proof.
  intros Hle He [Hn Hs Hp Hc]. pose proof (effect_ids _ _ _ _ _ He) as Hids. destruct He as [Hr He]. split.
  - by rewrite Hids.
  - intros r' Hr'. rewrite <- list_elem_of_In in Hr'. apply list_elem_of_lookup in Hr' as [i Hi].
    destruct (Forall2_lookup_r _ _ _ _ _ Hr Hi) as (r & Hir & _ & _ & Hall & _). apply Hall, Hs.
    rewrite <- list_elem_of_In. by eapply list_elem_of_lookup_2.
  - rewrite He. by apply close_before.
  - rewrite He. by apply (close_timely clock).
Qed.

(** A new row with a new name keeps the tables consistent. *)
Lemma insert_consistent clock now d d' s :
  clock <= now -> sessions d' = sessions d ++ [s] -> scale_events d' = scale_events d ->
  ~ In (sandbox_id s) (ids d) -> is_in (status s) all_statuses = true -> consistent clock d -> consistent now d'.
Proof.
  intros Hle Hs He Hnew Hst [Hn Hw Hp Hc]. split.
  - unfold ids. rewrite Hs, map_app. apply NoDup_app. split_and!; [done| |apply NoDup_singleton].
    intros x Hx Hx'. rewrite list_elem_of_In in Hx. apply list_elem_of_singleton in Hx'. by subst.
  - intros r. rewrite Hs, in_app_iff. intros [Hr|[<-|[]]]; auto.
  - by rewrite He.
  - rewrite He. eapply Forall_impl; [exact Hc|]. intros e [? Ht]. split; [lia|]. destruct (se_EndedAt e); lia.
Qed.

Lemma scale_consistent clock now d id org mem cpu disk :
  clock <= now -> consistent clock d -> consistent now (RecordScaleEvent now d id org mem cpu disk).
Proof.
  intros Hle Hd.
  assert (consistent now (EndScaleEvent now d id)) as [Hn Hw Hp Hc].
  { apply (effect_consistent eq clock now [id] d); [done| |done]. split; [|done]. by apply rows_refl. }
  unfold RecordScaleEvent. set (disk' := if disk <=? 0 then _ else disk).
  cbn [EndScaleEvent with_events scale_events sessions] in *. split; cbn [with_events scale_events sessions]; try done.
  - clear -Hc Hp Hle. set (l := closeOpenScaleEventsForSandboxes now [id] (scale_events d)) in *.
    assert (forall e, In e l -> se_SandboxID e = id -> is_open e = false) as Hcl.
    { intros e (e0 & _ & _ & Ho)%close_In Hid. destruct (is_open e) eqn:E; [|done]. destruct (Ho eq_refl) as [_ Hn].
      destruct Hn. by left. }
    clearbody l. induction Hp as [|e l Hel Hp IH]; cbn; [constructor; constructor|]. inversion Hc as [|? ? [He1 He2] Hc']; subst.
    constructor; [|apply IH; [done|]; intros x Hx; apply Hcl; by right].
    apply Forall_app. split; [done|]. constructor; [|constructor]. intros Hid. cbn in Hid.
    specialize (Hcl e (or_introl eq_refl) Hid). unfold is_open in Hcl. destruct (se_EndedAt e) as [t|]; [|done].
    exists t. cbn. split; [done|lia].
  - apply Forall_app. split; [done|]. constructor; [|constructor]. unfold timely. cbn. lia.
Qed.

Lemma step_consistent clock now o d :
  clock <= now -> allowed d o = true -> consistent clock d -> consistent now (step now o d).
Proof.
  intros Hle Hal Hd. destruct (adds o) eqn:Ha.
  - destruct o; try discriminate Ha; cbn [step allowed] in *.
    + apply andb_true_iff in Hal as [Hf Hst]. apply negb_true_iff, is_in_false in Hf.
      apply (insert_consistent clock now d _ (new_session now id org tmpl rg wk st agent)); try done;
        try (unfold CreateSandboxSessionWithStatus; case_goal; done).
      cbn [new_session status]. where_hyps; by subst.
    + apply negb_true_iff, is_in_false in Hal.
      by apply (insert_consistent clock now d _ (new_session now id PoolOrgID tmpl rg wk "pooled" None)).
    + by apply (scale_consistent clock).
  - destruct (step_effect now o d) as [closed He]; [apply Hd|apply Hd|done|done|]. by eapply effect_consistent.
Qed.

(** The clock when a history ends. *)
Definition clock_after (clock : Z) (h : list (Z * op)) : Z := fold_left (fun _ x => fst x) h clock.

Lemma run_consistent clock d h :
  history clock d h = true -> consistent clock d -> consistent (clock_after clock h) (run d h).
Proof.
  revert clock d. induction h as [|[now o] h IH]; intros clock d Hh Hd; [done|]. cbn [history] in Hh. bool_to_prop.
  apply IH; [done|]. by apply (step_consistent clock).
Qed.

Lemma empty_consistent clock subs : consistent clock (empty_db subs).
Proof. split; cbn; [constructor|by intros ? ?|constructor|constructor]. Qed.

Lemma history_consistent subs h :
  history 0 (empty_db subs) h = true -> consistent (clock_after 0 h) (run (empty_db subs) h).
Proof. intros Hh. by apply run_consistent, empty_consistent. Qed.

(** The open periods of a sandbox. *)
Definition open_periods (d : db) (id : string) : list ScaleEvent :=
  List.filter (fun e => same (se_SandboxID e) id && is_open e) (scale_events d).

Lemma before_one_open l id : ForallOrdPairs before l -> (length (List.filter (fun e => same (se_SandboxID e) id && is_open e) l) <= 1)%nat.
Proof.
  induction 1 as [|e l Hel Hl IH]; [cbn; lia|]. cbn [List.filter]. destruct (_ && _) eqn:E; [|done].
  apply andb_true_iff in E as [Hi Ho]. apply same_true in Hi. rewrite (List.filter_ext_in _ (fun _ => false)).
  - assert (List.filter (fun _ => false) l = []) as -> by (clear; by induction l). done.
  - intros x Hx. apply andb_false_iff. left. destruct (same (se_SandboxID x) id) eqn:Ex; [|done]. apply same_true in Ex.
    rewrite Forall_forall in Hel. specialize (Hel x). rewrite list_elem_of_In in Hel.
    destruct (Hel Hx) as (t & Ht & _); [congruence|]. unfold is_open in Ho. by rewrite Ht in Ho.
Qed.

Lemma closed_not_open now closed id l :
  In id closed -> List.filter (fun e => same (se_SandboxID e) id && is_open e) (closeOpenScaleEventsForSandboxes now closed l) = [].
Proof.
  intros Hc. destruct (List.filter _ _) as [|e k] eqn:E; [done|].
  assert (In e (e :: k)) as He by by left. rewrite <- E in He. apply filter_In in He as [He Hw].
  apply andb_true_iff in Hw as [Hi Ho]. apply same_true in Hi. apply close_In in He as (e0 & _ & _ & Hn).
  destruct (Hn Ho) as [_ Hnc]. by rewrite Hi in Hnc.
Qed.

(** *** Billing and running *)

(** Every period is opened for a sandbox that runs. *)
Fixpoint opened_running (d : db) (h : list (Z * op)) : bool :=
  match h with
  | [] => true
  | (now, o) :: h => match o with Scale id _ _ _ _ => runs d id | _ => true end && opened_running (step now o d) h
  end.

Definition billed_run (d : db) : Prop := forall e, In e (scale_events d) -> is_open e = true -> runs d (se_SandboxID e) = true.

Lemma effect_row R now closed d d' i r :
  effect R now closed d d' -> sessions d !! i = Some r ->
  exists r', sessions d' !! i = Some r' /\ sandbox_id r' = sandbox_id r /\
    (billable (status r) = true -> billable (status r') = true \/ In (sandbox_id r) closed).
Proof.
  intros [Hr _] Hi. destruct (Forall2_lookup_l _ _ _ _ _ Hr Hi) as (r' & Hi' & Hid & _ & _ & Hb). exists r'.
  split_and!; [done..|]. intros Ht. destruct (Hb Ht) as [|Hc]; [by left|by right].
Qed.

Lemma runs_lookup d id : runs d id = true <-> exists i r, sessions d !! i = Some r /\ sandbox_id r = id /\ billable (status r) = true.
Proof.
  rewrite runs_true. split.
  - intros (r & Hr & H). rewrite <- list_elem_of_In in Hr. apply list_elem_of_lookup in Hr as [i Hi]. eauto.
  - intros (i & r & Hi & H). exists r. split; [|done]. rewrite <- list_elem_of_In. by eapply list_elem_of_lookup_2.
Qed.

(** What a statement does to a sandbox that runs: it runs on, or its open period ends. *)
Lemma step_runs clock now o d id :
  consistent clock d -> allowed d o = true -> runs d id = true ->
  runs (step now o d) id = true \/ open_periods (step now o d) id = [].
Proof.
  intros Hd Hal (i & r & Hi & Hid & Hb)%runs_lookup. destruct (adds o) eqn:Ha.
  - left. apply runs_lookup. exists i, r. split; [|done]. destruct o; try discriminate Ha; cbn [step]; [| |exact Hi].
    + unfold CreateSandboxSessionWithStatus. case_goal; by apply lookup_app_l_Some.
    + by apply lookup_app_l_Some.
  - destruct (step_effect now o d) as [closed He]; [apply Hd|apply Hd|done|done|].
    destruct (effect_row _ _ _ _ _ _ _ He Hi) as (r' & Hi' & Hid' & Hb'). destruct (Hb' Hb) as [Hr|Hc].
    + left. apply runs_lookup. exists i, r'. split_and!; [done|congruence|done].
    + right. destruct He as [_ He]. unfold open_periods. rewrite He. apply closed_not_open. by rewrite <- Hid.
Qed.

(** An open period was open before, or is opened by this statement. *)
Lemma step_open clock now o d id :
  consistent clock d -> allowed d o = true -> open_periods (step now o d) id <> [] ->
  open_periods d id <> [] \/ exists org mem cpu disk, o = Scale id org mem cpu disk.
Proof.
  intros Hd Hal Hne.
  assert (forall closed, open_periods d id = [] ->
    List.filter (fun e => same (se_SandboxID e) id && is_open e) (closeOpenScaleEventsForSandboxes now closed (scale_events d)) = []) as Hcl.
  { intros closed Hno. destruct (List.filter _ _) as [|e k] eqn:E; [done|]. assert (In e (e :: k)) as He by by left.
    rewrite <- E in He. apply filter_In in He as [He Hw]. pose proof Hw as Hw'. apply andb_true_iff in Hw as [_ Ho].
    apply close_In in He as (e0 & He0 & _ & Hn). destruct (Hn Ho) as [-> _].
    assert (In e0 (open_periods d id)) as Hin by (unfold open_periods; by apply filter_In). by rewrite Hno in Hin. }
  destruct (open_periods d id) eqn:Eo; [right|by left]. destruct (adds o) eqn:Ha.
  - destruct o as [| | | | | | | | | | | | | | | | | | | | | | | | | |id' org mem cpu disk| |]; try discriminate Ha; cbn [step] in Hne.
    + destruct Hne. unfold CreateSandboxSessionWithStatus, open_periods in *. by case_goal.
    + by destruct Hne.
    + destruct (decide (id' = id)) as [->|Hid]; [by eexists _, _, _, _|]. destruct Hne. unfold open_periods, RecordScaleEvent.
      cbn [EndScaleEvent with_events scale_events sessions]. rewrite List.filter_app, Hcl by done. cbn -[same].
      destruct (same id' id) eqn:Es; [by apply same_true in Es|done].
  - destruct (step_effect now o d) as [closed [_ He]]; [apply Hd|apply Hd|done|done|]. destruct Hne. unfold open_periods. rewrite He. by apply Hcl.
Qed.

Lemma open_runs clock d h :
  history clock d h = true -> consistent clock d -> opened_running d h = true ->
  (forall id, open_periods d id <> [] -> runs d id = true) ->
  forall id, open_periods (run d h) id <> [] -> runs (run d h) id = true.
Proof.
  revert clock d. induction h as [|[now o] h IH]; intros clock d Hh Hd Ho Hb; [done|]. cbn [history opened_running] in Hh, Ho.
  bool_to_prop. apply (IH now); [done|by apply (step_consistent clock)|done|]. intros id Hne.
  destruct (step_open clock now o d id) as [Hop|(org & mem & cpu & disk & ->)]; [done|done|done| |done].
  destruct (step_runs clock now o d id) as [Hr|Hr]; [done|done|by apply Hb|done|done].
Qed.

Lemma history_app clock d h1 h2 : history clock d (h1 ++ h2) = history clock d h1 && history (clock_after clock h1) (run d h1) h2.
Proof.
  revert clock d. induction h1 as [|[now o] h1 IH]; intros clock d; [done|]. cbn [app history run fold_left clock_after fst].
  rewrite IH. by rewrite !andb_assoc.
Qed.

(** C19. In every history of the session tables (creations, status changes,
    migrations, pauses, checkpoints, worker losses and restarts, pool claims,
    scale events, in any order and by any party, with a clock that does not go
    back): two billing periods of one sandbox never overlap, and at most one of
    them is open; the statement after which a sandbox no longer has a row that is
    running, pending or migrating leaves it without an open period; and if periods
    were opened only for sandboxes that had such a row, so does every sandbox with
    an open period. So a sandbox is never billed twice for the same time, and
    billing stops when it stops. *)
Theorem billing_periods_sound subs h :
  history 0 (empty_db subs) h = true ->
  let d := run (empty_db subs) h in
  ForallOrdPairs before (scale_events d) /\
  (forall id, (length (open_periods d id) <= 1)%nat) /\
  (forall h1 now o h2 id, h = h1 ++ (now, o) :: h2 -> let d1 := run (empty_db subs) h1 in
     runs d1 id = true -> runs (step now o d1) id = false -> open_periods (step now o d1) id = []) /\
  (opened_running (empty_db subs) h = true -> forall id, open_periods d id <> [] -> runs d id = true).
Proof.
  intros Hh. destruct (history_consistent subs h Hh) as [_ _ Hp _]. split_and!; [done| | |].
  - intros id. by apply before_one_open.
  - intros h1 now o h2 id -> d1 Hr Hs. rewrite history_app in Hh. cbn [history] in Hh. bool_to_prop.
    destruct (step_runs (clock_after 0 h1) now o d1 id) as [Hr'|]; [by apply history_consistent|done|done|congruence|done].
  - intros Ho. eapply open_runs; [done|apply empty_consistent|done|]. intros id Hne. by destruct Hne.
Qed.

(** A wake records the period before the row leaves hibernated: if the control
    plane never gets to mark the row, a hibernated sandbox is billed on. *)
Lemma unmarked_wake_bills :
  let h := [(1, Create "sb" "org" "base" "eu" "w1" "running" None); (1, Scale "sb" "org" 1024 100 0);
            (5, Status "sb" "hibernated" None ""); (9, Scale "sb" "org" 1024 100 0)]%string in
  let d := run (empty_db []) h in
  history 0 (empty_db []) h = true /\ map status (sessions d) = ["hibernated"]%string /\
  map (fun e => (se_StartedAt e, se_EndedAt e)) (scale_events d) = [(1, Some 5); (9, None)].
Proof. vm_compute. done. Qed.

(** A sandbox that is created, scaled twice, paused, resumed, billed again,
    migrated and lost with its worker. *)
Definition sample_history : list (Z * op) :=
  [(1, Create "sb" "org" "base" "eu" "w1" "running" None); (1, Scale "sb" "org" 1024 100 0);
   (5, Scale "sb" "org" 4096 100 0); (7, Pause "sb"); (9, Resume "sb"); (9, Scale "sb" "org" 4096 100 0);
   (11, Migrate "sb" "w2"); (12, Complete "sb" "w2"); (20, Orphans (fun _ => false) (fun _ => false))]%string.

Lemma billing_periods_sound_witness :
  history 0 (empty_db []) sample_history = true /\
  map (fun e => (se_StartedAt e, se_EndedAt e)) (scale_events (run (empty_db []) sample_history)) =
    [(1, Some 5); (5, Some 7); (9, Some 20)] /\
  ForallOrdPairs before (scale_events (run (empty_db []) sample_history)) /\
  open_periods (run (empty_db []) (take 4 sample_history)) "sb" = [] /\
  (forall id, open_periods (run (empty_db []) sample_history) id <> [] -> runs (run (empty_db []) sample_history) id = true).
Proof.
  split; [vm_compute; reflexivity|]. split; [vm_compute; reflexivity|].
  destruct (billing_periods_sound [] sample_history ltac:(vm_compute; reflexivity)) as (H1 & _ & H3 & H4). split; [exact H1|]. split.
  - exact (H3 (take 3 sample_history) 7 (Pause "sb"%string) (drop 4 sample_history) "sb"%string
      ltac:(reflexivity) ltac:(vm_compute; reflexivity) ltac:(vm_compute; reflexivity)).
  - exact (H4 ltac:(vm_compute; reflexivity)).
Defined.

(** *** What is billed *)

Lemma billed_total_app now from to l k : total now from to (l ++ k) = total now from to l + total now from to k.
Proof. unfold total. induction l as [|e l IH]; cbn [app foldr]; lia. Qed.

Lemma total_bound now from to id l :
  from <= to -> ForallOrdPairs before l -> Forall (fun e => se_SandboxID e = id /\ overlaps from to e = true) l ->
  total now from to l <= match l with [] => 0 | e :: _ => to - Z.max from (se_StartedAt e) end.
Proof.
  intros Hle. induction 1 as [|e l Hel Hl IH]; intros Hall; [done|]. inversion Hall as [|? ? [Hid Hov] Hall']; subst.
  cbn [total foldr]. fold (total now from to l). specialize (IH Hall'). unfold clipped.
  destruct l as [|e' l]; [unfold total; cbn [foldr]; lia|].
  inversion Hel as [|? ? He' _]; subst. inversion Hall' as [|? ? [Hid' _] _]; subst.
  destruct He' as (t & Ht & Hts); [done|]. rewrite Ht. change (default now (Some t)) with t. lia.
Qed.

Lemma ForallOrdPairs_filter {A} (R : A -> A -> Prop) f (l : list A) : ForallOrdPairs R l -> ForallOrdPairs R (List.filter f l).
Proof.
  induction 1 as [|x l Hx Hl IH]; cbn; [constructor|]. destruct (f x); [|done]. constructor; [|done].
  rewrite Forall_forall in Hx |- *. intros y Hy. apply Hx. rewrite list_elem_of_In in Hy |- *. apply filter_In in Hy. tauto.
Qed.

(** The time a sandbox is billed for in a window. *)
Definition billed_time (now : Z) (d : db) (id : string) (from to : Z) : Z :=
  total now from to (List.filter (fun e => same (se_SandboxID e) id && overlaps from to e) (scale_events d)).

(** The time for which a sandbox is billed in a window, summed over all its
    periods and tiers as [GetOrgUsage] clips them, is at most the length of the
    window, in every history of the session tables. *)
Theorem billed_at_most_window subs h now id from to :
  history 0 (empty_db subs) h = true -> from <= to ->
  billed_time now (run (empty_db subs) h) id from to <= to - from.
Proof.
  intros Hh Hle. destruct (history_consistent subs h Hh) as [_ _ Hp _]. unfold billed_time.
  set (l := List.filter _ _).
  assert (total now from to l <= match l with [] => 0 | e :: _ => to - Z.max from (se_StartedAt e) end) as Hb.
  { apply (total_bound now from to id); [done|by apply ForallOrdPairs_filter|].
    apply Forall_forall. intros e He. rewrite list_elem_of_In in He. apply filter_In in He as [_ Hw].
    apply andb_true_iff in Hw as [Hi Ho]. by apply same_true in Hi. }
  destruct l; lia.
Qed.

Lemma billed_at_most_window_witness :
  history 0 (empty_db []) sample_history = true /\ billed_time 30 (run (empty_db []) sample_history) "sb" 3 25 = 15 /\
  billed_time 30 (run (empty_db []) sample_history) "sb" 3 25 <= 25 - 3.
Proof.
  split; [vm_compute; reflexivity|]. split; [vm_compute; reflexivity|].
  apply (billed_at_most_window [] sample_history 30 "sb" 3 25); [vm_compute; reflexivity|lia].
Defined.

(** The sum of the rows [GetOrgUsage] returns. *)
Definition usage_total (l : list OrgUsageSummary) : Z := foldr (fun u acc => u_Total u + acc) 0 l.

#[export] Instance usage_total_Proper : Proper (Permutation ==> eq) usage_total.
Proof. intros l k H. unfold usage_total. induction H; cbn [foldr]; lia. Qed.

Lemma total_split now from to f l :
  total now from to l = total now from to (List.filter f l) + total now from to (List.filter (fun e => negb (f e)) l).
Proof.
  unfold total. induction l as [|e l IH]; [done|]. cbn [List.filter foldr]. rewrite IH. destruct (f e); cbn [negb foldr]; lia.
Qed.

Lemma filter_filter' {A} (f g : A -> bool) l : List.filter f (List.filter g l) = List.filter (fun x => g x && f x) l.
Proof. induction l as [|x l IH]; [done|]. cbn. destruct (g x); cbn; [destruct (f x); by rewrite IH|done]. Qed.

(** Grouping loses nothing: summing per key over the keys that occur. *)
Lemma group_total now from to (ks : list (Z * Z * Z)) l :
  NoDup ks -> (forall e, In e l -> In (tier_of e) ks) ->
  foldr (fun k acc => total now from to (List.filter (fun e => bool_decide (tier_of e = k)) l) + acc) 0 ks = total now from to l.
Proof.
  intros Hnd. revert l. induction Hnd as [|k ks Hk Hnd IH]; intros l Hin; cbn [foldr].
  - destruct l as [|e l]; [done|]. by destruct (Hin e (or_introl eq_refl)).
  - rewrite (total_split now from to (fun e => bool_decide (tier_of e = k)) l). f_equal.
    rewrite <- (IH (List.filter (fun e => negb (bool_decide (tier_of e = k))) l)).
    + clear IH. assert (forall k', In k' ks -> k' <> k) as Hne.
      { intros k' Hk' ->. apply Hk. by apply list_elem_of_In. }
      clear Hk Hnd Hin. induction ks as [|k' ks IH]; [done|]. cbn [foldr]. rewrite IH by (intros; apply Hne; by right).
      f_equal. f_equal. rewrite filter_filter'. apply List.filter_ext_in. intros e _.
      specialize (Hne k' (or_introl eq_refl)). repeat case_bool_decide; subst; done.
    + intros e He. apply filter_In in He as [He Hb]. apply negb_true_iff, bool_decide_eq_false in Hb.
      destruct (Hin e He); [by subst|done].
Qed.

Lemma usage_total_map now from to rows ks :
  usage_total (map (fun k => let '(mem, cpu, disk) := k in
    {| u_MemoryMB := mem; u_CPUPercent := cpu; u_DiskMB := disk;
       u_Total := total now from to (List.filter (fun e => bool_decide (tier_of e = k)) rows) |}) ks) =
  foldr (fun k acc => total now from to (List.filter (fun e => bool_decide (tier_of e = k)) rows) + acc) 0 ks.
Proof. induction ks as [|[[m c] dk] ks IH]; [done|]. unfold usage_total in *. cbn [map foldr u_Total]. by f_equal. Qed.

Lemma GetOrgUsage_total now d org from to :
  usage_total (GetOrgUsage now d org from to) = total now from to (List.filter (billed d org from to) (scale_events d)).
Proof.
  unfold GetOrgUsage. rewrite merge_sort_Permutation, usage_total_map. apply group_total; [apply NoDup_remove_dups|].
  intros e He. rewrite <- list_elem_of_In, elem_of_remove_dups, list_elem_of_In. by apply in_map.
Qed.

Definition share (now from to : Z) (e : ScaleEvent) : Z := if overlaps from to e then clipped now from to e else 0.

Lemma share_split now from mid to e :
  from <= mid -> mid <= to -> to <= now -> timely now e -> share now from to e = share now from mid e + share now mid to e.
Proof.
  intros H1 H2 H3 [Hs Ht]. unfold share, overlaps, clipped. destruct (se_EndedAt e) as [t|]; cbn [default from_option id] in *;
    repeat match goal with |- context [?a <? ?b] => destruct (Z.ltb_spec a b) end; cbn [andb]; lia.
Qed.

Lemma total_share now d org from to l :
  total now from to (List.filter (billed d org from to) l) =
  foldr (fun e acc => (if same (se_OrgID e) org && negb (covered d (se_SandboxID e)) then share now from to e else 0) + acc) 0 l.
Proof.
  unfold total. induction l as [|e l IH]; [done|]. cbn [List.filter foldr]. rewrite <- IH. unfold billed at 1, share.
  destruct (same (se_OrgID e) org), (overlaps from to e), (covered d (se_SandboxID e)); cbn [andb negb foldr]; lia.
Qed.

(** Usage is additive: in every history, what [GetOrgUsage] reports for a
    window that has passed is exactly the sum of what it reports for the two
    windows it is split into, over all tiers, so consecutive billing windows
    neither lose nor repeat time. *)
Theorem usage_additive subs h now org from mid to :
  history 0 (empty_db subs) h = true -> clock_after 0 h <= now -> from <= mid -> mid <= to -> to <= now ->
  let d := run (empty_db subs) h in
  usage_total (GetOrgUsage now d org from to) =
  usage_total (GetOrgUsage now d org from mid) + usage_total (GetOrgUsage now d org mid to).
Proof.
  intros Hh Hnow H1 H2 H3 d. destruct (history_consistent subs h Hh) as [_ _ _ Hc]. fold d in Hc.
  rewrite !GetOrgUsage_total, !total_share. induction Hc as [|e l [He Ht] Hc IH]; [done|]. cbn [foldr]. rewrite IH.
  rewrite (share_split now from mid to e); [|done|done|done|].
  - destruct (_ && _); lia.
  - split; [lia|]. destruct (se_EndedAt e); lia.
Qed.

Lemma usage_additive_witness :
  let d := run (empty_db []) sample_history in
  usage_total (GetOrgUsage 30 d "org" 2 25) = usage_total (GetOrgUsage 30 d "org" 2 8) + usage_total (GetOrgUsage 30 d "org" 8 25).
Proof.
  apply (usage_additive [] sample_history 30 "org" 2 8 25); [vm_compute; reflexivity|vm_compute; discriminate|lia|lia|lia].
Defined.

(** ** The state machine *)

(** Every row stays, and its status moves along [moves]. *)
Lemma row_step clock now o d i r :
  consistent clock d -> allowed d o = true -> sessions d !! i = Some r ->
  exists r', sessions (step now o d) !! i = Some r' /\ sandbox_id r' = sandbox_id r /\ moved o (status r) (status r').
Proof.
  intros Hd Hal Hi. destruct (adds o) eqn:Ha.
  - exists r. split_and!; [|done|by left]. destruct o; try discriminate Ha; [| |exact Hi]; cbn [step].
    + assert (sessions (fst (CreateSandboxSessionWithStatus now d id org tmpl rg wk st agent)) =
        sessions d ++ [new_session now id org tmpl rg wk st agent]) as ->
        by (unfold CreateSandboxSessionWithStatus; case_goal; done). by apply lookup_app_l_Some.
    + by apply lookup_app_l_Some.
  - destruct (step_effect now o d) as [closed [Hr _]]; [apply Hd|apply Hd|done|done|].
    destruct (Forall2_lookup_l _ _ _ _ _ Hr Hi) as (r' & ? & ? & ? & _). by exists r'.
Qed.

(** C27. The status of a session is a state machine: in a consistent database an
    operation that callers may issue keeps every row and its sandbox, and moves
    its status only along [moves]. In particular a terminal row changes only by
    [CompleteMigration] (from stopped), by [ReconcileWorkerReconnect] (from
    error) or by [SetSandboxResumed]. *)
Theorem status_machine clock now o d i r :
  consistent clock d -> allowed d o = true -> sessions d !! i = Some r ->
  exists r', sessions (step now o d) !! i = Some r' /\ sandbox_id r' = sandbox_id r /\ moved o (status r) (status r') /\
    (isTerminalSessionStatus (status r) = true -> status r' <> status r ->
      match o with
      | Complete _ _ => status r = "stopped"%string
      | Reconnect _ _ => status r = "error"%string
      | Resume _ => True
      | _ => False
      end).
Proof.
  intros Hd Hal Hi. destruct (row_step clock now o d i r Hd Hal Hi) as (r' & Hi' & Hid & Hm).
  exists r'. split_and!; [done|done|done|]. intros Ht Hne. destruct Hm as [Heq|Hm]; [by rewrite Heq in Hne|].
  unfold isTerminalSessionStatus in Ht. rewrite !orb_true_iff, !same_true in Ht.
  destruct o; cbn [moves In] in Hm; try done; cbn [allowed] in Hal;
    try (destruct_or? Ht; destruct_or? Hm; simplify_eq; congruence);
    try (apply is_in_true in Hal; cbn [In] in Hal; destruct_or! Hal; subst; cbn in Hm;
         destruct_or? Ht; destruct_or? Hm; simplify_eq; congruence).
Qed.

Lemma status_machine_witness :
  let d := run (empty_db []) [(1, Create "sb" "org" "base" "eu" "w1" "running" None); (2, Status "sb" "stopped" None "")]%string in
  match sessions d !! 0%nat with
  | Some r => exists r', sessions (step 3 (Complete "sb" "w2") d) !! 0%nat = Some r' /\ status r' = "running"%string /\
      moved (Complete "sb" "w2") (status r) (status r')
  | None => False
  end.
Proof.
  cbv zeta. set (d := run _ _). vm_compute (sessions d !! 0%nat).
  destruct (status_machine 2 3 (Complete "sb" "w2") d 0%nat
    {| sandbox_id := "sb"; org_id := "org"; template := "base"; region := "eu"; worker_id := "w1"; status := "stopped";
       agent_id := None; started_at := 1; stopped_at := Some 2; error_msg := None; migrating_to_worker := "";
       hibernation_mode := None; paused_at := None; updated_at := 2 |}) as (r' & Hr & _ & Hm & _).
  - exact (history_consistent [] [(1, Create "sb" "org" "base" "eu" "w1" "running" None); (2, Status "sb" "stopped" None "")]%string
      ltac:(vm_compute; reflexivity)).
  - reflexivity.
  - vm_compute. reflexivity.
  - exists r'. split; [exact Hr|]. split; [|exact Hm]. vm_compute in Hr. by injection Hr as <-.
Defined.

(** ** Claims of pool boxes *)

(** The boxes an operation hands to a customer. *)
Definition claimed (now : Z) (o : op) (d : db) : list string :=
  match o with
  | Claim locked org rg tmpl agent =>
      match snd (ClaimPooledSession now d locked org rg tmpl agent) with Some b => [cb_SandboxID b] | None => [] end
  | ClaimReserved id org agent =>
      match snd (ClaimReservedSession now d id org agent) with Some b => [cb_SandboxID b] | None => [] end
  | _ => []
  end.

Fixpoint claims (d : db) (h : list (Z * op)) : list string :=
  match h with
  | [] => []
  | (now, o) :: h => claimed now o d ++ claims (step now o d) h
  end.

Definition is_parked (s : string) : bool := is_in s ["pooled"; "edge_reserved"]%string.

(** A sandbox that is known and not parked. *)
Definition taken (d : db) (id : string) : Prop :=
  exists r, In r (sessions d) /\ sandbox_id r = id /\ is_parked (status r) = false.

Lemma moves_to_parked d o a b : allowed d o = true -> moved o a b -> is_parked b = true -> is_parked a = true.
Proof.
  intros Hal [<-|Hm] Hb; [done|]. unfold is_parked in Hb. apply is_in_true in Hb. cbn [In] in Hb.
  destruct o; cbn [moves In] in Hm; try done; cbn [allowed] in Hal;
    try (by destruct_or? Hm; simplify_eq; destruct_or? Hb);
    try (apply is_in_true in Hal; cbn [In] in Hal; destruct_or! Hal; subst; cbn in Hm; by destruct_or? Hm; simplify_eq; destruct_or? Hb).
  - apply in_map_iff in Hm as (s & Heq & _). simplify_eq. by destruct_or? Hb.
Qed.

Lemma taken_step clock now o d id : consistent clock d -> allowed d o = true -> taken d id -> taken (step now o d) id.
Proof.
  intros Hd Hal (r & Hr & Hid & Hp). rewrite <- list_elem_of_In in Hr. apply list_elem_of_lookup in Hr as [i Hi].
  destruct (row_step clock now o d i r Hd Hal Hi) as (r' & Hi' & Hid' & Hm). exists r'.
  split; [rewrite <- list_elem_of_In; by eapply list_elem_of_lookup_2|]. split; [congruence|].
  destruct (is_parked (status r')) eqn:E; [|done]. by rewrite (moves_to_parked d o _ _ Hal Hm E) in Hp.
Qed.

(** A claimed box was parked, and is taken afterwards. *)
Lemma claimed_spec clock now o d id :
  consistent clock d -> In id (claimed now o d) ->
  (exists r, In r (sessions d) /\ sandbox_id r = id /\ is_parked (status r) = true) /\ taken (step now o d) id.
Proof.
  intros Hd. destruct o; try done; cbn [claimed step].
  - unfold ClaimPooledSession. destruct (pick_pooled d locked rg tmpl 1) as [|r rest] eqn:E; [done|]. cbn [snd fst box cb_SandboxID].
    intros [<-|[]]. assert (In r (pick_pooled d locked rg tmpl 1)) as Hr by (rewrite E; by left).
    apply picked in Hr as (Hin & Hs & _). split; [exists r; by rewrite Hs|].
    exists (claim_row now org agent r). split; [|done]. cbn [sessions with_sessions].
    apply (UPDATE_hit (fun x => same (sandbox_id x) (sandbox_id r)) (claim_row now org agent)); [done|]. apply String.eqb_refl.
  - unfold ClaimReservedSession. cbn [snd fst].
    destruct (List.find _ _) as [r|] eqn:E; [|done]. cbn [option_map box cb_SandboxID]. intros [<-|[]].
    pose proof (List.find_some _ _ E) as [Hin Hw]. cbv beta in Hw. where_hyps.
    split; [exists r; split_and!; try done; match goal with H : status r = _ |- _ => by rewrite H end|].
    exists (claim_row now org agent r). split; [|done]. cbn [sessions with_sessions].
    apply (UPDATE_hit (fun x => same (sandbox_id x) _ && same (status x) "edge_reserved") (claim_row now org agent)); [done|].
    apply List.find_some in E as [_ E]. exact E.
Qed.

Lemma taken_not_parked d id r :
  NoDup (ids d) -> taken d id -> In r (sessions d) -> sandbox_id r = id -> is_parked (status r) = false.
Proof. intros Hnd (r' & Hr' & Hid & Hp) Hr Hid'. by rewrite (row_unique d r r' Hnd Hr Hr') by congruence. Qed.

Lemma claimed_length now o d : (length (claimed now o d) <= 1)%nat.
Proof. destruct o; cbn [claimed]; try (cbn; lia); destruct (snd _); cbn; lia. Qed.

Lemma claims_exclusive clock d h (S : list string) :
  history clock d h = true -> consistent clock d -> NoDup S -> (forall id, In id S -> taken d id) -> NoDup (S ++ claims d h).
Proof.
  revert clock d S. induction h as [|[now o] h IH]; intros clock d S Hh Hd Hnd HS; cbn [claims]; [by rewrite app_nil_r|].
  cbn [history] in Hh. apply andb_true_iff in Hh as [Hh Hrest]. apply andb_true_iff in Hh as [Hle Hal]. apply Z.leb_le in Hle.
  rewrite app_assoc. apply (IH now); [done|by apply (step_consistent clock)| |].
  - apply NoDup_app. split_and!; [done| |].
    + intros id Hin Hc. rewrite list_elem_of_In in Hin, Hc. destruct (claimed_spec clock now o d id Hd Hc) as [(r & Hr & Hid & Hp) _].
      by rewrite (taken_not_parked d id r) in Hp by (apply Hd || auto).
    + pose proof (claimed_length now o d). destruct (claimed now o d) as [|x [|y l]]; [constructor|apply NoDup_singleton|cbn in *; lia].
  - intros id. rewrite in_app_iff. intros [Hin|Hin]; [by apply (taken_step clock); auto|].
    by apply (claimed_spec clock now o d id Hd).
Qed.

(** C23. A pre-warmed box is handed out at most once: in every history of the
    session tables, over claims by the control plane ([ClaimPooledSession],
    whatever rows other claims hold locked) and claims that finalise an edge
    reservation ([ClaimReservedSession]), no sandbox is claimed twice, however
    reservations, releases, wipes, restarts and destroys interleave. *)
Theorem pool_claims_exclusive subs h :
  history 0 (empty_db subs) h = true -> NoDup (claims (empty_db subs) h).
Proof. intros Hh. apply (claims_exclusive 0 _ h []); [done|apply empty_consistent|constructor|done]. Qed.

(** Two boxes; one is reserved for the edge, released, reserved again and
    claimed there, the other claimed directly; a third claim finds nothing. *)
Definition pool_history : list (Z * op) :=
  [(1, Pool "p1" "base" "eu" "w1"); (2, Pool "p2" "base" "eu" "w1"); (3, Reserve (fun _ => false) "eu" "base" 1);
   (4, Release ["p1"]); (5, Reserve (fun _ => false) "eu" "base" 1); (6, Claim (fun _ => false) "orgA" "eu" "base" None);
   (7, ClaimReserved "p1" "orgB" None); (8, Claim (fun _ => false) "orgC" "eu" "base" None);
   (9, ClaimReserved "p1" "orgC" None)]%string.

Lemma pool_claims_exclusive_witness :
  history 0 (empty_db []) pool_history = true /\ claims (empty_db []) pool_history = ["p2"; "p1"]%string /\
  NoDup (claims (empty_db []) pool_history).
Proof.
  split; [vm_compute; reflexivity|]. split; [vm_compute; reflexivity|].
  apply (pool_claims_exclusive [] pool_history). vm_compute. reflexivity.
Defined.

Lemma status_sessions now d id st msg :
  sessions (fst (UpdateSandboxSessionStatus now d id st msg)) = UPDATE (status_where id st) (status_set now st msg) (sessions d).
Proof. unfold UpdateSandboxSessionStatus, updateSandboxSessionStatus. cbn [fst]. repeat case_goal; done. Qed.

(** ** Destroying a sandbox that is not running *)

Definition all_with (id st : string) (d : db) : bool :=
  forallb (fun r => negb (same (sandbox_id r) id) || same (status r) st) (sessions d).

Lemma stop_misses now d id st :
  all_with id st d = true -> is_in st ["hibernated"; "migrating"]%string = true ->
  updateSandboxSessionStatus now d id "stopped" None "" = (d, None).
Proof.
  intros Ha Hst. unfold updateSandboxSessionStatus.
  assert (existsb (status_where id "stopped") (sessions d) = false) as E.
  { destruct (existsb _ _) eqn:E; [|done]. apply existsb_exists in E as (r & Hr & Hw).
    unfold all_with in Ha. rewrite forallb_forall in Ha. specialize (Ha r Hr).
    unfold status_where in Hw. destruct (same (sandbox_id r) id); [|done]. cbn in Ha. apply same_true in Ha.
    apply is_in_true in Hst. destruct Hst as [<-|[<-|[]]]; by rewrite Ha in Hw. }
  rewrite E. cbn [andb]. rewrite andb_false_r. unfold with_sessions. rewrite (UPDATE_none _ _ _ E). by destruct d.
Qed.

(** Destroying a hibernated or migrating sandbox changes nothing in the
    database: [killSandboxRemote] answers success, but its [UPDATE] matches
    running, edge-reserved and pending rows only, so every table is as before,
    and a later wake of the hibernated sandbox runs it again. *)
Theorem kill_hibernated_noop now d id reachable worker uid :
  all_with id "hibernated" d = true -> GetSandboxSession d id <> None ->
  killSandboxRemote now d id reachable = Some d /\
  all_with id "running" (UpdateSandboxSessionForWake now d id worker uid) = true.
Proof.
  intros Ha Hs. split.
  - unfold killSandboxRemote, UpdateSandboxSessionStatus. destruct (GetSandboxSession d id); [|done].
    rewrite !(stop_misses now d id "hibernated") by done. cbn [fst]. rewrite (stop_misses now d id "hibernated") by done.
    by destruct reachable.
  - unfold all_with, UpdateSandboxSessionForWake in *. rewrite forallb_forall in Ha.
    destruct (List.find _ _) as [x|] eqn:E; apply forallb_forall; intros r Hr.
    + cbn [sessions with_outbox with_sessions] in Hr. apply in_map_iff in Hr as (r0 & <- & Hr0). specialize (Ha r0 Hr0).
      destruct (same (sandbox_id r0) id) eqn:Ei; cbn [andb] in *; [|by rewrite Ei]. cbn in Ha. rewrite Ha. cbn. apply orb_true_r.
    + specialize (Ha r Hr). pose proof (List.find_none _ _ E r Hr) as Hn. cbv beta in Hn.
      destruct (same (sandbox_id r) id); [|done]. cbn in Ha, Hn. by rewrite Ha in Hn.
Qed.

Lemma kill_hibernated_noop_witness :
  let d := run (empty_db []) [(1, Create "sb" "org" "base" "eu" "w1" "running" None); (2, Status "sb" "hibernated" None "")]%string in
  killSandboxRemote 3 d "sb" true = Some d /\ all_with "sb" "running" (UpdateSandboxSessionForWake 3 d "sb" "w2" "u") = true.
Proof. apply (kill_hibernated_noop 3 _ "sb" true "w2" "u"); vm_compute; [reflexivity|discriminate]. Defined.

(** ** Checkpoints *)

Definition active_count (d : db) (id : string) : nat := length (List.filter (active id) (hibernations d)).

Lemma active_update id w s l :
  (forall h, active id (s h) = true -> active id h = true) ->
  (length (List.filter (active id) (UPDATE w s l)) <= length (List.filter (active id) l))%nat.
Proof.
  intros Hs. induction l as [|h l IH]; [done|]. rewrite UPDATE_cons. cbn [List.filter].
  destruct (w h); [|destruct (active id h); cbn; lia].
  destruct (active id (s h)) eqn:E; [rewrite (Hs h E); cbn; lia|]. destruct (active id h); cbn; lia.
Qed.

Lemma active_expired id now l : List.filter (active id) (UPDATE (active id) (expire now) l) = [].
Proof.
  induction l as [|h l IH]; [done|]. rewrite UPDATE_cons. cbn [List.filter]. destruct (active id h) eqn:E.
  - assert (active id (expire now h) = false) as -> by (unfold active; cbn; by rewrite andb_false_r). done.
  - by rewrite E.
Qed.

Lemma active_count_step now o d id :
  (active_count d id <= 1)%nat -> (active_count (step now o d) id <= 1)%nat.
Proof.
  intros H.
  assert (hibernations (step now o d) = hibernations d -> (active_count (step now o d) id <= 1)%nat) as Hsame
    by (intros E; unfold active_count; by rewrite E).
  destruct o; try (apply Hsame; reflexivity); cbn [step] in *.
  - apply Hsame. unfold CreateSandboxSessionWithStatus. by case_goal.
  - apply Hsame. unfold updateSandboxSessionStatus. cbn [fst]. repeat case_goal; done.
  - apply Hsame. unfold CompleteMigration. by case_goal.
  - apply Hsame. unfold FailMigrationPostQMP. by case_goal.
  - apply Hsame. unfold MarkOrphanedSandboxes. generalize (@nil OrphanedSandbox) as os.
    match goal with |- context [fold_left ?f ?l _] => set (step1 := f); generalize l as ws end. intros ws os.
    assert (forall d0, hibernations d0 = hibernations d -> hibernations (fst (fold_left step1 ws (d0, os))) = hibernations d) as Hf;
      [|by apply Hf].
    revert os. induction ws as [|w ws IH]; intros os d0 H0; [done|]. cbn [fold_left]. unfold step1 at 2. destruct (fails w); by apply IH.
  - apply Hsame. unfold SetSandboxPaused. by case_goal.
  - unfold active_count, CreateHibernation. cbn [fst hibernations with_hibernations].
    rewrite List.filter_app, length_app. cbn [List.filter].
    match goal with |- context [if active id ?n then _ else _] => change (active id n) with (same id0 id && true && true) end.
    rewrite !andb_true_r. destruct (same id0 id) eqn:E; cbn [length].
    + apply same_true in E. subst. rewrite active_expired. done.
    + pose proof (active_update id (active id0) (expire now) (hibernations d)) as Hu. unfold active_count in H.
      rewrite Nat.add_0_r. etransitivity; [apply Hu|done]. intros h. unfold active. cbn. by rewrite andb_false_r.
  - etransitivity; [apply active_update|exact H]. intros h. unfold active. cbn. by rewrite andb_false_r.
  - etransitivity; [apply active_update|exact H]. done.
  - etransitivity; [apply active_update|exact H]. done.
  - apply Hsame. unfold UpdateSandboxSessionForWake. by case_goal.
  - apply Hsame. unfold ClaimPooledSession. by case_goal.
Qed.

Lemma create_active d now id org key size rg tmpl :
  let (d', superseded) := CreateHibernation now d id org key size rg tmpl in
  option_map h_Key (GetActiveHibernation d' id) = Some key /\
  superseded = default ""%string (option_map h_Key (GetActiveHibernation d id)).
Proof.
  unfold CreateHibernation, GetActiveHibernation. cbn [hibernations with_hibernations].
  split; [|by destruct (List.find _ _)].
  assert (forall l k, List.filter (active id) l = [] -> List.find (active id) (l ++ k) = List.find (active id) k) as Hf.
  { intros l k. induction l as [|h0 l IH]; [done|]. cbn. destruct (active id h0); [done|auto]. }
  rewrite Hf by apply active_expired. cbn [List.find]. unfold active at 1. cbn. unfold same. by rewrite String.eqb_refl.
Qed.

(** In every history a sandbox has at most one active checkpoint, so
    [GetActiveHibernation] has no choice to make; and creating one makes it the
    active one and reports the key of the one it replaces, which it expires. *)
Theorem one_active_checkpoint subs h id :
  (active_count (run (empty_db subs) h) id <= 1)%nat /\
  (forall d now org key size rg tmpl,
    let (d', superseded) := CreateHibernation now d id org key size rg tmpl in
    option_map h_Key (GetActiveHibernation d' id) = Some key /\
    superseded = default ""%string (option_map h_Key (GetActiveHibernation d id))).
Proof.
  split.
  - assert (forall d, (active_count d id <= 1)%nat -> (active_count (run d h) id <= 1)%nat) as H.
    { induction h as [|[now o] h IH]; intros d Hd; [done|]. by apply IH, active_count_step. }
    apply H. cbn. lia.
  - intros d now org key size rg tmpl. apply create_active.
Qed.

(** ** Worker restarts *)

(** What a restart of [worker] makes of a row. *)
Definition restarted (d : db) (worker : string) (r : session) : string :=
  if same (worker_id r) worker then
    if same (status r) "running" then
      (if existsb (active (sandbox_id r)) (hibernations d) then "hibernated" else "stopped")%string
    else if same (status r) "pooled" then "stopped"%string else status r
  else status r.

Lemma restarted_rows now d worker :
  map status (UPDATE (fun r => same (worker_id r) worker && same (status r) "pooled")
                (finish now "stopped" (Some "worker restarted (pooled)"%string))
     (UPDATE (fun r => same (worker_id r) worker && same (status r) "running") (finish now "stopped" (Some "worker restarted"%string))
       (UPDATE (fun r => same (worker_id r) worker && same (status r) "running" && existsb (active (sandbox_id r)) (hibernations d))
          (set_status now "hibernated") (sessions d)))) = map (restarted d worker) (sessions d).
Proof.
  unfold UPDATE. rewrite !map_map. apply map_ext. intros r. unfold restarted.
  destruct (same (worker_id r) worker) eqn:Ew; cbn [andb]; [|by repeat (rewrite Ew; cbn [andb])].
  destruct (same (status r) "running") eqn:Er; cbn [andb].
  - assert (forall k, same (worker_id (set_status now "hibernated" r)) worker && same "hibernated" k = same "hibernated" k) as H1
      by (intros k; cbn [set_status set_row worker_id]; by rewrite Ew).
    assert (forall k, same (worker_id (finish now "stopped" (Some "worker restarted"%string) r)) worker && same "stopped" k = same "stopped" k)
      as H2 by (intros k; cbn [finish set_error set_stopped set_status set_row worker_id]; by rewrite Ew).
    destruct (existsb _ _).
    + change (status (set_status now "hibernated" r)) with "hibernated"%string. rewrite !H1. cbn [same String.eqb Ascii.eqb Bool.eqb].
      change (status (set_status now "hibernated" r)) with "hibernated"%string. done.
    + rewrite Ew, Er. cbn [andb].
      change (status (finish now "stopped" (Some "worker restarted"%string) r)) with "stopped"%string. by rewrite H2.
  - rewrite Ew, Er. cbn [andb]. rewrite Ew. cbn [andb]. by destruct (same (status r) "pooled").
Qed.

Lemma restarted_stopped now d worker :
  map or_SandboxID (map orphan (List.filter (fun r => same (worker_id r) worker && same (status r) "running")
    (UPDATE (fun r => same (worker_id r) worker && same (status r) "running" && existsb (active (sandbox_id r)) (hibernations d))
       (set_status now "hibernated") (sessions d)))) =
  map sandbox_id (List.filter (fun r => same (worker_id r) worker && same (status r) "running" &&
    negb (existsb (active (sandbox_id r)) (hibernations d))) (sessions d)).
Proof.
  rewrite map_map. induction (sessions d) as [|r l IH]; [done|]. rewrite UPDATE_cons. cbn [List.filter].
  destruct (same (worker_id r) worker && same (status r) "running") eqn:E; cbn [andb].
  - destruct (existsb _ _); cbn [negb]; [|rewrite E; cbn; by f_equal].
    assert (same (worker_id (set_status now "hibernated" r)) worker && same (status (set_status now "hibernated" r)) "running" = false)
      as -> by apply andb_false_r. done.
  - rewrite E. done.
Qed.

(** When a worker restarts, [ReconcileWorkerSessions] makes each of its
    running rows hibernated if the sandbox has an active checkpoint and stopped
    otherwise, stops its pooled rows, leaves every other row's status alone,
    ends the billing of every sandbox it took off running, and returns exactly
    the sandboxes it hibernated and the ones it stopped. *)
Theorem ReconcileWorkerSessions_spec now nano d worker :
  let '(d', (hibernated, stopped)) := ReconcileWorkerSessions now nano d worker in
  map status (sessions d') = map (restarted d worker) (sessions d) /\
  hibernated = map orphan (List.filter (fun r => same (worker_id r) worker && same (status r) "running" &&
                                         existsb (active (sandbox_id r)) (hibernations d)) (sessions d)) /\
  map or_SandboxID stopped = map sandbox_id (List.filter (fun r => same (worker_id r) worker && same (status r) "running" &&
                                         negb (existsb (active (sandbox_id r)) (hibernations d))) (sessions d)) /\
  (forall o, In o (hibernated ++ stopped) -> open_periods d' (or_SandboxID o) = []).
Proof.
  unfold ReconcileWorkerSessions. cbv zeta. cbn [sessions with_outbox with_events with_sessions hibernations].
  split_and!; [apply restarted_rows|done|apply restarted_stopped|].
  intros o Ho. assert (exists r, In r (sessions d) /\ worker_id r = worker /\ status r = "running"%string /\ sandbox_id r = or_SandboxID o)
    as (r & Hr & Hwk & Hst & Hid).
  { rewrite in_app_iff in Ho. destruct Ho as [Ho|Ho].
    - apply in_map_iff in Ho as (r & <- & Hr). apply filter_In in Hr as [Hr Hw]. where_hyps. by exists r.
    - apply (in_map or_SandboxID) in Ho. rewrite restarted_stopped in Ho. apply in_map_iff in Ho as (r & Hid & Hr).
      apply filter_In in Hr as [Hr Hw]. where_hyps. by exists r. }
  unfold open_periods. cbn [scale_events with_events with_outbox]. apply closed_not_open. rewrite <- Hid.
  rewrite <- list_elem_of_In in Hr. apply list_elem_of_lookup in Hr as [i Hi].
  pose proof (restart_rows now nano worker (fun r => existsb (active (sandbox_id r)) (hibernations d)) (sessions d)) as Hrows.
  destruct (Forall2_lookup_l _ _ _ _ _ Hrows Hi) as (r' & Hi' & _ & _ & _ & Hbill).
  rewrite Hst in Hbill. destruct (Hbill eq_refl) as [Hb|Hin]; [|exact Hin]. exfalso.
  pose proof (f_equal (fun l => l !! i) (restarted_rows now d worker)) as Hs. cbv beta in Hs.
  rewrite !list_lookup_fmap, Hi in Hs. rewrite Hi' in Hs. cbn in Hs. injection Hs as Hs.
  rewrite Hs in Hb. unfold restarted in Hb. rewrite Hst, Hwk in Hb. unfold same at 1 in Hb. rewrite String.eqb_refl in Hb.
  cbn -[billable] in Hb. by destruct (existsb _ _) in Hb.
Qed.

(** The row of a sandbox after an update. *)
Lemma latest_updated hit f d id r :
  (forall r, sandbox_id (f r) = sandbox_id r /\ started_at (f r) = started_at r) ->
  latest_session d id = Some r -> hit r = true -> latest_session (with_sessions (UPDATE hit f) d) id = Some (f r).
Proof.
  intros Hf Hr Hh. unfold latest_session, UPDATE in *. cbn [sessions with_sessions].
  rewrite filter_map_same, latest_map; [|intros x; destruct (Hf x) as [H1 H2]; destruct (hit x); by rewrite ?H1, ?H2..].
  rewrite Hr. cbn. by rewrite Hh.
Qed.

Lemma latest_running d id r : latest_session d id = Some r -> status r = "running"%string ->
  same (sandbox_id r) id && same (status r) "running" = true.
Proof. intros Hr Hs. apply latest_In, filter_In in Hr as [_ Hr]. by rewrite Hr, Hs. Qed.

End SessionFacts.
