(* ===== verification/Migration.v ===== *)
(** * Live migration and worker drains

    src/internal/controlplane/scaler.go, second half: live migration of one
    sandbox between workers, the drain of a worker, and one cycle of the rolling
    replacement. The code talks to workers over gRPC, to the database, to the
    registry and to the compute pool; each such call is an operation with its own
    answer type, and programs are sequences of calls and of operations on the
    scaler's state store. Loops that end with a context run on fuel: a fuel of
    [n] is a context that expires after [n] rounds. *)

From S2P Require Import Prelude GoFloat ScalerState Scaler SessionStore SessionFacts.
Import ScalerState Scaler.
#[local] Open Scope Z_scope.

Module Migration.

(** ** Calls *)

(** The fields of [PreCopyDrivesResponse] the scaler uses. *)
Record PreCopy := {
  pc_GoldenVersion : string; pc_BaseCpuCount : Z; pc_BaseMemoryMb : Z; pc_ActualMemoryMb : Z
}.

(** The fields of a session row the scaler uses. *)
Record Session := { s_Status : string; s_Template : string; s_GoldenVersion : option string }.

(** Calls to the outside, indexed by the type of their answer. A [bool] answer
    is success, an [option] is [None] on error. *)
Inductive call : Type -> Type :=
(* registry *)
| GetWorkerClient (worker : string) : call bool
| Workers (region : string) : call (list WorkerInfo)
| WorkerByID (worker : string) : call (option WorkerInfo)
| RegistrySetDraining (worker : string) : call unit
(* worker RPCs *)
| ListSandboxes (worker : string) : call (option (list Sandbox))
| PreCopyDrives (worker sandbox : string) : call (option PreCopy)
| PrepareMigrationIncoming (worker sandbox golden template : string) (cpu mem actual : Z) (arrivePaused : bool) : call bool
| LiveMigrate (worker sandbox : string) : call bool
| CompleteMigrationIncoming (worker sandbox : string) : call bool
| PauseAfterMigration (worker sandbox : string) : call bool
| ResumeUnbilled (worker sandbox : string) : call bool
| HibernateSandbox (worker sandbox : string) : call bool
| DestroySandbox (worker sandbox : string) : call bool
(* database *)
| GetSandboxSession (sandbox : string) : call (option Session)
| SetMigrating (sandbox target : string) : call bool
| CompleteMigration (sandbox target : string) : call bool
| FailMigration (sandbox : string) : call bool
| FailMigrationPostQMP (sandbox : string) : call bool
| SetSandboxGoldenVersion (sandbox golden : string) : call bool
| SetSandboxPaused (sandbox : string) : call bool
| SetSandboxResumed (sandbox : string) : call bool
| UpdateSandboxSessionStatus (sandbox status : string) : call bool
| WipePooled (sandbox : string) : call bool
| MarkOrphanedOnWorker (worker : string) : call (option (list string))
| PendingUploads (worker : string) : call (option Z)
(* events and pool *)
| PublishMigrated (sandbox worker : string) : call unit
| PublishStopped (sandbox worker reason : string) : call unit
| PublishPaused (sandbox worker : string) : call unit
| PoolDestroyMachine (machine : string) : call bool
| PoolDrainMachine (machine : string) : call bool
| ScaleUp (region : string) : call unit
| Sleep : call unit.

(** A call with its answer: one entry of a trace. *)
Inductive event :=
| Ev {R : Type} (c : call R) (answer : R).

Inductive prog (A : Type) : Type :=
| Ret (a : A)
| Do {B : Type} (f : InMemoryScalerState -> InMemoryScalerState * B) (k : B -> prog A)
| Call {R : Type} (c : call R) (k : R -> prog A).
Arguments Ret {A} a.
Arguments Do {A B} f k.
Arguments Call {A R} c k.

Fixpoint bind {A B} (p : prog A) (k : A -> prog B) : prog B :=
  match p with
  | Ret a => k a
  | Do f k' => Do f (fun b => bind (k' b) k)
  | Call c k' => Call c (fun r => bind (k' r) k)
  end.

#[local] Notation "'let!' x := p 'in' q" := (bind p (fun x => q))
  (at level 200, x name, p at level 100, q at level 200).

Definition ask {R} (c : call R) : prog R := Call c Ret.
Definition do_ {R} (c : call R) : prog unit := Call c (fun _ => Ret tt).
Definition modify (f : InMemoryScalerState -> InMemoryScalerState) : prog unit := Do (fun m => (f m, tt)) Ret.
Definition read {B} (f : InMemoryScalerState -> B) : prog B := Do (fun m => (m, f m)) Ret.
Definition when (b : bool) (p : prog unit) : prog unit := if b then p else Ret tt.

Fixpoint for_each {A} (l : list A) (body : A -> prog unit) : prog unit :=
  match l with
  | [] => Ret tt
  | a :: l => bind (body a) (fun _ => for_each l body)
  end.

Inductive migrate_error :=
| AlreadyInProgress | SourceUnreachable | PreCopyFailed | NoGoldenVersion | SourceNotInRegistry
| NoTarget | TargetUnreachable | PrepareFailed | LiveMigrateFailed | CompleteFailed | ResumeFailed.

Abbreviation err := (option migrate_error).

(** ** Live migration *)

Section Migrate.
(** [has_store]: a database is configured. *)
Context (has_store : bool).

(** [findMigrationTarget] on a fresh registry snapshot. *)
Definition find_target (region exclude : string) (requiredMemMB : Z) : prog (option WorkerInfo) :=
  let! ws := ask (Workers region) in
  read (fun m => target_loop (eligible m exclude requiredMemMB) ws None (GoFloat.of_int (-1))).

(** [waitForMigrationTarget]: [polls] is how many polls the context allows. *)
Fixpoint wait_target (polls : nat) (region exclude : string) (requiredMemMB : Z) : prog (option WorkerInfo) :=
  let! t := find_target region exclude requiredMemMB in
  match t, polls with
  | Some w, _ => Ret (Some w)
  | None, O => Ret None
  | None, S polls =>
      let! _ := do_ Sleep in
      wait_target polls region exclude requiredMemMB
  end.

Definition nonempty (s : string) : bool := negb (String.eqb s "").

(** The three-tier fallback for the source's golden version. *)
Definition resolve_golden (pc : PreCopy) (sandbox source : string) : prog (option string) :=
  if nonempty (pc_GoldenVersion pc) then Ret (Some (pc_GoldenVersion pc))
  else
    let! from_db :=
      (if has_store then
         let! s := ask (GetSandboxSession sandbox) in
         Ret (match s with
              | Some s => match s_GoldenVersion s with
                          | Some g => if nonempty g then Some g else None
                          | None => None
                          end
              | None => None
              end)
       else Ret None) in
    match from_db with
    | Some g => Ret (Some g)
    | None =>
        let! w := ask (WorkerByID source) in
        Ret (match w with
             | Some w => if nonempty (GoldenVersion w) then Some (GoldenVersion w) else None
             | None => None
             end)
    end.

(** The session's template, or the default. *)
Definition resolve_template (sandbox : string) : prog string :=
  if has_store then
    let! s := ask (GetSandboxSession sandbox) in
    Ret (match s with
         | Some s => if nonempty (s_Template s) then s_Template s else "default"%string
         | None => "default"%string
         end)
  else Ret "default"%string.

(** Real memory to land on the target. *)
Definition actual_memory (pc : PreCopy) (memoryMB : Z) : Z :=
  let a := if pc_ActualMemoryMb pc =? 0 then memoryMB else pc_ActualMemoryMb pc in
  if a <? 256 then 256 else a.

(** A target worker, unless the caller named one. *)
Definition pick_target (polls : nat) (source target : string) (actual : Z) : prog (result migrate_error string) :=
  if nonempty target then Ret (Ok target)
  else
    let! src := ask (WorkerByID source) in
    match src with
    | None => Ret (Err SourceNotInRegistry)
    | Some src =>
        let! t := wait_target polls (wRegion src) source actual in
        Ret (match t with Some w => Ok (wID w) | None => Err NoTarget end)
    end.

(** What a transfer reports to the deferred recovery. *)
Record outcome := { o_err : err; o_qmp : bool; o_completed : bool }.

(** After the target has the sandbox: database, events, re-pause. *)
Definition finish_migration (sandbox target : string) (keepPaused : bool) : prog unit :=
  let! _ := (if has_store then
       let! _ := do_ (CompleteMigration sandbox target) in
       let! w := ask (WorkerByID target) in
       let! _ := (match w with
                  | Some w => when (nonempty (GoldenVersion w)) (do_ (SetSandboxGoldenVersion sandbox (GoldenVersion w)))
                  | None => Ret tt
                  end) in
       do_ (GetSandboxSession sandbox)
     else Ret tt) in
  let! _ := do_ (PublishMigrated sandbox target) in
  if keepPaused then
    let! _ := do_ (PauseAfterMigration target sandbox) in
    let! _ := when has_store (do_ (SetSandboxPaused sandbox)) in
    do_ (PublishPaused sandbox target)
  else Ret tt.

(** Prepare, QMP transfer, completion: the part under the in-flight count. *)
Definition transfer (sandbox source target golden template : string) (cpu mem actual : Z) (keepPaused : bool) : prog outcome :=
  let! prepared := ask (PrepareMigrationIncoming target sandbox golden template cpu mem actual keepPaused) in
  if negb prepared then Ret {| o_err := Some PrepareFailed; o_qmp := false; o_completed := false |}
  else
    let! moved := ask (LiveMigrate source sandbox) in
    if negb moved then Ret {| o_err := Some LiveMigrateFailed; o_qmp := false; o_completed := false |}
    else
      let! completed := ask (CompleteMigrationIncoming target sandbox) in
      if negb completed then Ret {| o_err := Some CompleteFailed; o_qmp := true; o_completed := false |}
      else
        let! _ := finish_migration sandbox target keepPaused in
        Ret {| o_err := None; o_qmp := true; o_completed := true |}.

Definition abortIncomingOnTarget (target sandbox : string) : prog unit :=
  if negb (nonempty target) then Ret tt
  else
    let! reachable := ask (GetWorkerClient target) in
    when reachable (do_ (DestroySandbox target sandbox)).

(** The deferred recovery, installed only with a database. *)
Definition recover (sandbox source target : string) (o : outcome) : prog unit :=
  if o_completed o then Ret tt
  else
    let! _ := (if o_qmp o then
         let! _ := do_ (FailMigrationPostQMP sandbox) in
         let! _ := do_ (GetSandboxSession sandbox) in
         do_ (PublishStopped sandbox source "migration_post_qmp_failed")
       else do_ (FailMigration sandbox)) in
    abortIncomingOnTarget target sandbox.

(** Everything under the per-sandbox migration lock. Deferred calls run in
    reverse order: the in-flight count drops before the recovery. *)
Definition migrate_locked (polls : nat) (sandbox source target : string) (keepPaused : bool) : prog err :=
  let! reachable := ask (GetWorkerClient source) in
  if negb reachable then Ret (Some SourceUnreachable)
  else
    let! pc := ask (PreCopyDrives source sandbox) in
    match pc with
    | None => Ret (Some PreCopyFailed)
    | Some pc =>
        let! golden := resolve_golden pc sandbox source in
        match golden with
        | None => Ret (Some NoGoldenVersion)
        | Some golden =>
            let cpu := if pc_BaseCpuCount pc =? 0 then 2 else pc_BaseCpuCount pc in
            let mem := if pc_BaseMemoryMb pc =? 0 then 1024 else pc_BaseMemoryMb pc in
            let! template := resolve_template sandbox in
            let actual := actual_memory pc mem in
            let! picked := pick_target polls source target actual in
            match picked with
            | Err e => Ret (Some e)
            | Ok target =>
                let! reachable := ask (GetWorkerClient target) in
                if negb reachable then Ret (Some TargetUnreachable)
                else
                  let! _ := when has_store (do_ (SetMigrating sandbox target)) in
                  let! _ := modify (IncrInFlight target) in
                  let! o := transfer sandbox source target golden template cpu mem actual keepPaused in
                  let! _ := modify (DecrInFlight target) in
                  let! _ := when has_store (recover sandbox source target o) in
                  Ret (o_err o)
            end
        end
    end.

Definition liveMigrateSandbox (polls : nat) (sandbox source target : string) (keepPaused : bool) : prog err :=
  let! got := Do (AcquireMigrationLock sandbox) Ret in
  if negb got then Ret (Some AlreadyInProgress)
  else
    let! e := migrate_locked polls sandbox source target keepPaused in
    let! _ := modify (ReleaseMigrationLock sandbox) in
    Ret e.

Definition migratePausedUnbilled (polls : nat) (sandbox source : string) : prog err :=
  let! resumed := ask (ResumeUnbilled source sandbox) in
  if negb resumed then Ret (Some ResumeFailed)
  else
    let! _ := when has_store (do_ (SetSandboxResumed sandbox)) in
    liveMigrateSandbox polls sandbox source "" true.

(** ** Draining a worker *)

(** [db.IsTerminalSessionStatus] *)
Definition IsTerminalSessionStatus (s : string) : bool :=
  String.eqb s "stopped" || String.eqb s "error" || String.eqb s "failed" || String.eqb s "terminated".

Definition statusb (want : string) (sb : Sandbox) : bool := String.eqb (Status sb) want.

(** Hibernate a box on its worker and record it. *)
Definition deep_hibernate (worker sandbox : string) : prog unit :=
  let! ok := ask (HibernateSandbox worker sandbox) in
  when (ok && has_store) (do_ (UpdateSandboxSessionStatus sandbox "hibernated")).

Definition session_of (sandbox : string) : prog (option Session) :=
  if has_store then ask (GetSandboxSession sandbox) else Ret None.

Definition session_is (f : string -> bool) (s : option Session) : bool :=
  match s with Some s => f (s_Status s) | None => false end.

(** One listed sandbox: what is left for migration. *)
Definition drain_one (polls : nat) (worker : string) (sb : Sandbox) : prog (list string) :=
  let! sess := session_of (SandboxId sb) in
  if session_is (String.eqb "pooled") sess then
    let! _ := do_ (DestroySandbox worker (SandboxId sb)) in
    let! _ := do_ (WipePooled (SandboxId sb)) in
    Ret []
  else if statusb "paused" sb then
    let! e := migratePausedUnbilled polls (SandboxId sb) worker in
    let! _ := (match e with
               | Some _ => deep_hibernate worker (SandboxId sb)
               | None => Ret tt
               end) in
    Ret []
  else if negb (statusb "running" sb) then Ret []
  else
    let! sess := session_of (SandboxId sb) in
    if session_is IsTerminalSessionStatus sess then
      let! ok := ask (DestroySandbox worker (SandboxId sb)) in
      let! _ := when ok (do_ (PublishStopped (SandboxId sb) worker "drain_zombie_reap")) in
      Ret []
    else Ret [SandboxId sb].

Fixpoint drain_scan (polls : nat) (worker : string) (l : list Sandbox) : prog (list string) :=
  match l with
  | [] => Ret []
  | sb :: l =>
      let! a := drain_one polls worker sb in
      let! b := drain_scan polls worker l in
      Ret (a ++ b)
  end.

(** The terminal sweep of a drained worker. *)
Definition orphan_sweep (worker : string) : prog unit :=
  if has_store then
    let! orphans := ask (MarkOrphanedOnWorker worker) in
    for_each (default [] orphans) (fun sb => do_ (PublishStopped sb worker "drain_orphan_sweep"))
  else Ret tt.

(** [getDrainingWorkerSandboxCount] *)
Definition sandbox_count (worker : string) : prog Z :=
  let! w := ask (WorkerByID worker) in
  Ret (match w with Some w => Current w | None => -1 end).

Fixpoint waitForNaturalDrain (fuel : nat) (worker : string) : prog unit :=
  match fuel with
  | O => Ret tt
  | S fuel =>
      let! _ := do_ Sleep in
      let! n := sandbox_count worker in
      if n <=? 0 then Ret tt else waitForNaturalDrain fuel worker
  end.

(** Goroutines joined by a [WaitGroup]: [sched] picks whose step comes next;
    when it is used up, the remaining steps run in order. *)
Fixpoint run_all (ts : list (prog err)) : prog (list err) :=
  match ts with
  | [] => Ret []
  | t :: ts =>
      let! e := t in
      let! es := run_all ts in
      Ret (e :: es)
  end.

Fixpoint wait_group (sched : list nat) (ts : list (prog err)) : prog (list err) :=
  match sched with
  | [] => run_all ts
  | i :: sched =>
      match ts !! i with
      | Some (Do f k) => Do f (fun b => wait_group sched (<[i := k b]> ts))
      | Some (Call c k) => Call c (fun r => wait_group sched (<[i := k r]> ts))
      | Some (Ret _) | None => wait_group sched ts
      end
  end.

(** Migrate a batch concurrently; the number of failures. *)
Definition migrate_batch (sched : list nat) (polls : nat) (worker : string) (l : list string) : prog Z :=
  let! es := wait_group sched (map (fun sb => liveMigrateSandbox polls sb worker "" false) l) in
  Ret (count_if (fun e : err => match e with Some _ => true | None => false end) es).

Definition maxMigrationFailures : Z := 3.
Definition maxBackoffRounds : Z := 2.

(** The loop of [drainWorker]; [fuel] is the number of rounds the drain context
    allows, [maxWorkers] the scaler's cap, [sched fuel] the schedule of that
    round's batch. *)
Fixpoint drain_loop (sched : nat -> list nat) (fuel polls : nat) (maxWorkers : Z) (worker region : string)
    (migrationFailures backoffRounds : Z) : prog unit :=
  match fuel with
  | O => Ret tt
  | S fuel =>
      let! listing := ask (ListSandboxes worker) in
      match listing with
      | None => waitForNaturalDrain fuel worker
      | Some l =>
          let! running := drain_scan polls worker l in
          match running with
          | [] => orphan_sweep worker
          | _ :: _ =>
              if maxMigrationFailures <=? migrationFailures then
                if maxBackoffRounds <=? backoffRounds + 1 then
                  let! _ := for_each running (deep_hibernate worker) in
                  drain_loop sched fuel polls maxWorkers worker region 0 0
                else
                  let! _ := do_ Sleep in
                  drain_loop sched fuel polls maxWorkers worker region 0 (backoffRounds + 1)
              else
                let! probe := find_target region worker 0 in
                match probe with
                | None =>
                    let! ws := ask (Workers region) in
                    let! room := read (fun m =>
                      count_if (fun w => negb (IsDraining m (wMachineID w))) ws +
                      Z.of_nat (length (GetPendingLaunches m region)) <? maxWorkers) in
                    if room : bool then
                      let! _ := do_ (ScaleUp region) in
                      let! _ := do_ Sleep in
                      drain_loop sched fuel polls maxWorkers worker region migrationFailures backoffRounds
                    else waitForNaturalDrain fuel worker
                | Some _ =>
                    let! failed := migrate_batch (sched fuel) polls worker (take evacuationBatchSize running) in
                    let! _ := do_ Sleep in
                    drain_loop sched fuel polls maxWorkers worker region (migrationFailures + failed) backoffRounds
                end
          end
      end
  end.

Definition drainWorker (sched : nat -> list nat) (fuel polls : nat) (maxWorkers : Z) (worker region : string) : prog unit :=
  let! _ := do_ (RegistrySetDraining worker) in
  let! reachable := ask (GetWorkerClient worker) in
  if reachable then drain_loop sched fuel polls maxWorkers worker region 0 0
  else waitForNaturalDrain fuel worker.

(** ** Evacuation batch *)

Fixpoint evacuate_loop (polls : nat) (worker : string) (count migrated : nat) (l : list Sandbox) : prog nat :=
  match l with
  | [] => Ret migrated
  | sb :: l =>
      if Nat.leb count migrated then Ret migrated
      else if statusb "paused" sb then
        let! ok := ask (HibernateSandbox worker (SandboxId sb)) in
        evacuate_loop polls worker count (if ok then S migrated else migrated) l
      else if negb (statusb "running" sb) then evacuate_loop polls worker count migrated l
      else
        let! e := liveMigrateSandbox polls (SandboxId sb) worker "" false in
        evacuate_loop polls worker count (match e with None => S migrated | Some _ => migrated end) l
  end.

Definition evacuateBatch (polls : nat) (worker : string) (count : nat) : prog nat :=
  let! reachable := ask (GetWorkerClient worker) in
  if negb reachable then Ret 0%nat
  else
    let! listing := ask (ListSandboxes worker) in
    match listing with
    | None => Ret 0%nat
    | Some l => evacuate_loop polls worker count 0 l
    end.

(** ** One cycle of the rolling replacement *)

(** Running sandboxes the worker reports; -1 when it cannot be reached. *)
Definition countSandboxesOnWorker (worker : string) : prog Z :=
  let! reachable := ask (GetWorkerClient worker) in
  if negb reachable then Ret (-1)
  else
    let! listing := ask (ListSandboxes worker) in
    Ret (match listing with
         | None => -1
         | Some l => count_if (statusb "running") l
         end).

Definition hibernateAllOnWorker (worker : string) : prog unit :=
  let! reachable := ask (GetWorkerClient worker) in
  if negb reachable then Ret tt
  else
    let! listing := ask (ListSandboxes worker) in
    match listing with
    | None => Ret tt
    | Some l => for_each (List.filter (statusb "running") l) (fun sb => do_ (HibernateSandbox worker (SandboxId sb)))
    end.

Definition uploads_settled (worker : string) : prog bool :=
  if has_store then
    let! n := ask (PendingUploads worker) in
    Ret (match n with Some n => n =? 0 | None => false end)
  else Ret true.

(** [fuel]: the number of checks before the deadline. *)
Fixpoint waitForHibernationUploads (fuel : nat) (worker : string) : prog bool :=
  let! ok := uploads_settled worker in
  if ok then Ret true
  else match fuel with
       | O => Ret false
       | S fuel => let! _ := do_ Sleep in waitForHibernationUploads fuel worker
       end.

(** The end of [replaceOneStale], once the count has been taken. *)
Definition terminate_drained (fuel : nat) (worker machine region : string) (moreStaleAfter : bool) : prog unit :=
  let! settled := waitForHibernationUploads fuel worker in
  if negb settled then Ret tt
  else
    let! _ := when (nonempty machine) (do_ (PoolDestroyMachine machine)) in
    when moreStaleAfter (do_ (ScaleUp region)).

Definition replaceOneStale (sched : nat -> list nat) (fuel polls : nat) (maxWorkers : Z) (region worker machine : string)
    (moreStaleAfter : bool) : prog unit :=
  let! _ := drainWorker sched fuel polls maxWorkers worker region in
  let! leftover := countSandboxesOnWorker worker in
  if 0 <? leftover then
    let! _ := hibernateAllOnWorker worker in
    let! leftover := countSandboxesOnWorker worker in
    if 0 <? leftover then Ret tt
    else if leftover <? 0 then Ret tt
    else terminate_drained fuel worker machine region moreStaleAfter
  else if leftover <? 0 then Ret tt
  else terminate_drained fuel worker machine region moreStaleAfter.

Definition destroyDrainedMachine (machine : string) : prog unit :=
  let! _ := do_ (PoolDrainMachine machine) in
  do_ (PoolDestroyMachine machine).

End Migrate.

(** ** Semantics *)

(** Answers may differ from call to call: [o n] answers the [n]-th one. *)
Definition oracle : Type := nat -> forall R, call R -> R.

Fixpoint run {A} (o : oracle) (n : nat) (m : InMemoryScalerState) (p : prog A) :
  InMemoryScalerState * nat * A * list event :=
  match p with
  | Ret a => (m, n, a, [])
  | Do f k => let '(m, b) := f m in run o n m (k b)
  | Call c k =>
      let r := o n _ c in
      let '(m, n, a, l) := run o (S n) m (k r) in
      (m, n, a, Ev c r :: l)
  end.

(** Several goroutines over one store: a list of thread ids is a schedule,
    each entry one step of that thread. *)
Definition step (o : oracle) (n : nat) (m : InMemoryScalerState) (p : prog err) : InMemoryScalerState * prog err :=
  match p with
  | Ret a => (m, Ret a)
  | Do f k => let '(m, b) := f m in (m, k b)
  | Call c k => (m, k (o n _ c))
  end.

Fixpoint schedule (o : oracle) (n : nat) (m : InMemoryScalerState) (ts : list (prog err)) (s : list nat) :
  InMemoryScalerState * list (prog err) :=
  match s with
  | [] => (m, ts)
  | t :: s =>
      match ts !! t with
      | Some p => let '(m, p) := step o n m p in schedule o (S n) m (<[t := p]> ts) s
      | None => schedule o n m ts s
      end
  end.

Lemma exec_bind {A B} o n m (p : prog A) (k : A -> prog B) :
  run o n m (bind p k) =
  let '(m1, n1, a, l1) := run o n m p in
  let '(m2, n2, b, l2) := run o n1 m1 (k a) in (m2, n2, b, l1 ++ l2).
Proof.
  revert n m; induction p as [a|C f k' IH|R c k' IH]; intros n m; cbn [bind run].
  - by destruct (run o n m (k a)) as [[[? ?] ?] ?].
  - destruct (f m) as [m' b]. apply IH.
  - rewrite IH. destruct (run o (S n) m (k' _)) as [[[m1 n1] a] l1].
    by destruct (run o n1 m1 (k a)) as [[[? ?] ?] ?].
Qed.

(** ** What a migration writes *)

(** The statements on the session row, whatever they answer. *)
Inductive transition :=
| TMigrating (sandbox target : string)
| TCompleted (sandbox target : string)
| TFailed (sandbox : string)
| TFailedPostQMP (sandbox : string).

Definition call_transition {R} (c : call R) : list transition :=
  match c with
  | SetMigrating sb t => [TMigrating sb t]
  | CompleteMigration sb t => [TCompleted sb t]
  | FailMigration sb => [TFailed sb]
  | FailMigrationPostQMP sb => [TFailedPostQMP sb]
  | _ => []
  end.

(** The source VM has moved: a QMP transfer that succeeded. *)
Definition call_moved {R} (c : call R) : R -> bool :=
  match c in call R return R -> bool with
  | LiveMigrate _ _ => fun ok => ok
  | _ => fun _ => false
  end.

Definition transitions (l : list event) : list transition :=
  flat_map (fun '(Ev c _) => call_transition c) l.
Definition moved (l : list event) : bool := existsb (fun '(Ev c r) => call_moved c r) l.

Lemma transitions_cons {R} (c : call R) r l : transitions (Ev c r :: l) = call_transition c ++ transitions l.
Proof. done. Qed.

Lemma moved_cons {R} (c : call R) r l : moved (Ev c r :: l) = call_moved c r || moved l.
Proof. done. Qed.

Lemma transitions_app l1 l2 : transitions (l1 ++ l2) = transitions l1 ++ transitions l2.
Proof. apply flat_map_app. Qed.

Lemma moved_app l1 l2 : moved (l1 ++ l2) = moved l1 || moved l2.
Proof. apply existsb_app. Qed.

(** [emits p ts]: whatever the answers, [p] leaves the store alone, makes the
    row transitions [ts] and does not move the VM. *)
Definition emits {A} (p : prog A) (ts : list transition) : Prop :=
  forall o n m, let '(m', _, _, l) := run o n m p in m' = m /\ transitions l = ts /\ moved l = false.

Lemma emits_bind {A B} (p : prog A) (k : A -> prog B) t1 t2 :
  emits p t1 -> (forall a, emits (k a) t2) -> emits (bind p k) (t1 ++ t2).
Proof.
  intros Hp Hk o n m. rewrite exec_bind. specialize (Hp o n m). destruct (run o n m p) as [[[m1 n1] a] l1].
  destruct Hp as (-> & T1 & V1). specialize (Hk a o n1 m). destruct (run o n1 m (k a)) as [[[m2 n2] b] l2].
  destruct Hk as (-> & T2 & V2). rewrite transitions_app, moved_app, T1, T2, V1, V2. done.
Qed.

(** Programs that leave the store alone and touch neither the row nor the VM. *)
Fixpoint still {A} (p : prog A) : Prop :=
  match p with
  | Ret _ => True
  | Do f k => (forall m, (f m).1 = m) /\ forall b, still (k b)
  | Call c k => (call_transition c = [] /\ forall r, call_moved c r = false) /\ forall r, still (k r)
  end.

Lemma still_bind {A B} (p : prog A) (k : A -> prog B) : still p -> (forall a, still (k a)) -> still (bind p k).
Proof.
  intros Hp Hk. induction p as [a|C f k' IH|R c k' IH]; cbn [bind still] in *; [auto| |].
  - destruct Hp as [? H]. split; [done|]. intros b. by apply IH.
  - destruct Hp as [? H]. split; [done|]. intros b. by apply IH.
Qed.

Lemma still_ret {A} (a : A) : still (Ret a).
Proof. done. Qed.

Lemma still_emits {A} (p : prog A) : still p -> emits p [].
Proof.
  intros Hp o n m. revert n m Hp; induction p as [a|C f k IH|R c k IH]; intros n m Hp; cbn [run still] in *; [done| |].
  - destruct Hp as [Hf Hk]. specialize (Hf m). destruct (f m) as [m' b]. cbn in Hf. subst m'. apply IH, Hk.
  - destruct Hp as [[Hc Hr] Hk]. specialize (IH (o n R c) (S n) m (Hk _)).
    destruct (run o (S n) m _) as [[[m' n'] a] l]. destruct IH as (-> & Ht & Hm). split_and!; [done| |].
    + by rewrite transitions_cons, Hc, Ht.
    + by rewrite moved_cons, Hr, Hm.
Qed.

(** Show a program [still] by walking through it. *)
Ltac still :=
  repeat first
  [ apply still_ret
  | apply still_bind; [|intros ?]
  | match goal with
    | |- still (ask _) => split; [split; [reflexivity|reflexivity]|intros ?; apply still_ret]
    | |- still (do_ _) => split; [split; [reflexivity|reflexivity]|intros ?; apply still_ret]
    | |- still (read _) => split; [reflexivity|intros ?; apply still_ret]
    | |- still (when ?b _) => destruct b; cbn [when]
    | |- still (if ?b then _ else _) => destruct b
    | |- still (match ?x with _ => _ end) => destruct x
    end ].

Section Facts.
Context (has_store : bool).

Lemma still_find region ex mem : still (find_target region ex mem).
Proof. unfold find_target. still. Qed.

Lemma still_wait polls region ex mem : still (wait_target polls region ex mem).
Proof. induction polls as [|polls IH]; cbn [wait_target]; still; try apply still_find; apply IH. Qed.

Lemma still_golden pc sb src : still (resolve_golden has_store pc sb src).
Proof. unfold resolve_golden. still. Qed.

Lemma still_template sb : still (resolve_template has_store sb).
Proof. unfold resolve_template. still. Qed.

Lemma still_pick polls src tgt a : still (pick_target polls src tgt a).
Proof. unfold pick_target. still. apply still_wait. Qed.

Lemma still_abort tgt sb : still (abortIncomingOnTarget tgt sb).
Proof. unfold abortIncomingOnTarget. still. Qed.

Lemma emits_do {R} (c : call R) : (forall r, call_moved c r = false) -> emits (do_ c) (call_transition c).
Proof. intros H o n m. cbn [do_ run]. rewrite transitions_cons, moved_cons, H. by rewrite app_nil_r. Qed.

(** The end of a successful transfer writes the completion, if anything. *)
Lemma finish_emits sb tgt keep :
  emits (finish_migration has_store sb tgt keep) (if has_store then [TCompleted sb tgt] else []).
Proof.
  unfold finish_migration.
  replace (if has_store then [TCompleted sb tgt] else []) with
    ((if has_store then [TCompleted sb tgt] else []) ++ [] : list transition) by by rewrite app_nil_r.
  apply emits_bind; [|intros _; apply still_emits; destruct keep; still].
  destruct has_store; [|by apply still_emits].
  apply (emits_bind _ _ [TCompleted sb tgt] []); [by apply (emits_do (CompleteMigration sb tgt))|].
  intros _. apply still_emits. still.
Qed.

(** The transfer: which failure, what was moved, what was written. *)
Lemma transfer_run o n m sb src tgt g t cpu mem act keep :
  let '(m', _, r, l) := run o n m (transfer has_store sb src tgt g t cpu mem act keep) in
  m' = m /\ moved l = o_qmp r /\
  transitions l = (if o_completed r && has_store then [TCompleted sb tgt] else []) /\
  (o_completed r = true -> o_err r = None /\ o_qmp r = true) /\
  (o_completed r = false ->
     (o_qmp r = false /\ (o_err r = Some PrepareFailed \/ o_err r = Some LiveMigrateFailed)) \/
     (o_qmp r = true /\ o_err r = Some CompleteFailed)).
Proof.
  unfold transfer. cbn [bind ask run].
  set (r1 := o n _ (PrepareMigrationIncoming _ _ _ _ _ _ _ _)). destruct r1; cbn [negb run bind].
  2: { cbn. split_and!; try done; auto. }
  set (r2 := o (S n) _ (LiveMigrate _ _)). destruct r2; cbn [negb run bind].
  2: { cbn. split_and!; try done; auto. }
  set (r3 := o (S (S n)) _ (CompleteMigrationIncoming _ _)). destruct r3; cbn [negb run bind].
  2: { cbn. split_and!; try done; auto. }
  rewrite exec_bind. pose proof (finish_emits sb tgt keep o (S (S (S n))) m) as Hf.
  destruct (run o (S (S (S n))) m (finish_migration _ _ _ _)) as [[[m1 n1] a] l1].
  destruct Hf as (-> & T & V). cbn [run]. rewrite app_nil_r, !transitions_cons, !moved_cons, T, V. cbn. split_and!; done.
Qed.

Lemma recover_emits sb src tgt r :
  emits (recover sb src tgt r)
    (if o_completed r then [] else if o_qmp r then [TFailedPostQMP sb] else [TFailed sb]).
Proof.
  unfold recover. destruct (o_completed r); [by apply still_emits|].
  destruct (o_qmp r).
  - apply (emits_bind _ _ [TFailedPostQMP sb] []); [|intros _; apply still_emits, still_abort].
    apply (emits_bind _ _ [TFailedPostQMP sb] []); [by apply (emits_do (FailMigrationPostQMP sb))|].
    intros _. apply still_emits. still.
  - apply (emits_bind _ _ [TFailed sb] []); [|intros _; apply still_emits, still_abort].
    by apply (emits_do (FailMigration sb)).
Qed.

(** The row transitions and the VM of one migration, by its result. *)
Definition protocol (sb : string) (e : err) (l : list event) : Prop :=
  match e with
  | None => exists t, transitions l = (if has_store then [TMigrating sb t; TCompleted sb t] else []) /\ moved l = true
  | Some CompleteFailed =>
      exists t, transitions l = (if has_store then [TMigrating sb t; TFailedPostQMP sb] else []) /\ moved l = true
  | Some PrepareFailed | Some LiveMigrateFailed =>
      exists t, transitions l = (if has_store then [TMigrating sb t; TFailed sb] else []) /\ moved l = false
  | Some _ => transitions l = [] /\ moved l = false
  end.

(** Changes to the store that a migration undoes. *)
Definition restored (m m' : InMemoryScalerState) : Prop :=
  m' = m \/ exists t, m' = DecrInFlight t (IncrInFlight t m).

Lemma protocol_prefix sb e l1 l2 :
  transitions l1 = [] -> moved l1 = false -> protocol sb e l2 -> protocol sb e (l1 ++ l2).
Proof.
  intros T V. unfold protocol. rewrite transitions_app, moved_app, T, V. done.
Qed.

Definition before_transfer (e : migrate_error) : Prop :=
  match e with PrepareFailed | LiveMigrateFailed | CompleteFailed => False | _ => True end.

Lemma pick_run o n m polls src tgt a :
  let '(_, _, r, _) := run o n m (pick_target polls src tgt a) in
  match r with Ok _ => True | Err e => before_transfer e end.
Proof.
  unfold pick_target. destruct (nonempty tgt); [done|]. cbn [bind ask run].
  destruct (o n _ (WorkerByID src)) as [w|]; [|done]. rewrite exec_bind.
  destruct (run o (S n) m (wait_target _ _ _ _)) as [[[m1 n1] t] l1]. cbn. by destruct t.
Qed.

(** From the row marked as migrating to the recovery. *)
Lemma transfer_phase o n m sb src tgt g t cpu mem act keep :
  let '(m', _, e, l) := run o n m
    (bind (when has_store (do_ (SetMigrating sb tgt))) (fun _ =>
     bind (modify (IncrInFlight tgt)) (fun _ =>
     bind (transfer has_store sb src tgt g t cpu mem act keep) (fun r =>
     bind (modify (DecrInFlight tgt)) (fun _ =>
     bind (when has_store (recover sb src tgt r)) (fun _ => Ret (o_err r))))))) in
  restored m m' /\ protocol sb e l.
Proof.
  rewrite exec_bind.
  assert (emits (when has_store (do_ (SetMigrating sb tgt))) (if has_store then [TMigrating sb tgt] else [])) as H0.
  { destruct has_store; [by apply (emits_do (SetMigrating sb tgt))|by apply still_emits]. }
  specialize (H0 o n m). destruct (run o n m (when _ _)) as [[[m0 n0] a0] l0]. destruct H0 as (-> & T0 & V0).
  cbn [modify bind run]. rewrite exec_bind.
  pose proof (transfer_run o n0 (IncrInFlight tgt m) sb src tgt g t cpu mem act keep) as H1.
  destruct (run o n0 _ (transfer _ _ _ _ _ _ _ _ _ _)) as [[[m1 n1] r] l1].
  destruct H1 as (-> & V1 & T1 & Hc & Hf). cbn [modify bind run]. rewrite exec_bind.
  set (m2 := DecrInFlight tgt (IncrInFlight tgt m)).
  assert (emits (when has_store (recover sb src tgt r)) (if has_store && negb (o_completed r) then
    (if o_qmp r then [TFailedPostQMP sb] else [TFailed sb]) else [])) as H2.
  { pose proof (recover_emits sb src tgt r) as Hr. destruct has_store; [|by apply still_emits].
    destruct (o_completed r); cbn; exact Hr. }
  specialize (H2 o n1 m2). destruct (run o n1 m2 (when _ _)) as [[[m3 n3] a3] l3]. destruct H2 as (-> & T3 & V3).
  cbn [run]. split; [right; by exists tgt|].
  rewrite app_nil_r. unfold protocol. rewrite !transitions_app, !moved_app, T0, T1, T3, V0, V1, V3, orb_false_r. cbn [orb].
  destruct (o_completed r) eqn:Ec; cbn [andb negb].
  - destruct (Hc eq_refl) as [-> ->]. exists tgt. rewrite andb_false_r. by destruct has_store.
  - rewrite andb_true_r. destruct (Hf eq_refl) as [[-> [-> | ->]]|[-> ->]]; exists tgt; by destruct has_store.
Qed.

(** Run a [still] prefix of a migration and go on with the rest; [Q] is what
    is known of the prefix's result. *)
Lemma still_then {A} (p : prog A) (k : A -> prog err) (Q : A -> Prop) o n m sb :
  still p -> (let '(_, _, a, _) := run o n m p in Q a) ->
  (forall a n1, Q a -> let '(m', _, e, l) := run o n1 m (k a) in restored m m' /\ protocol sb e l) ->
  let '(m', _, e, l) := run o n m (bind p k) in restored m m' /\ protocol sb e l.
Proof.
  intros Hp HQ Hk. rewrite exec_bind. pose proof (still_emits p Hp o n m) as H.
  destruct (run o n m p) as [[[m1 n1] a] l1]. destruct H as (-> & T & V). specialize (Hk a n1 HQ).
  destruct (run o n1 m (k a)) as [[[m2 n2] e] l2]. destruct Hk as [? ?]. split; [done|].
  by apply protocol_prefix.
Qed.

Lemma any_result {A} o n m (p : prog A) : let '(_, _, _, _) := run o n m p in True.
Proof. by destruct (run o n m p) as [[[? ?] ?] ?]. Qed.

Lemma locked_run o n m polls sb src tgt keep :
  let '(m', _, e, l) := run o n m (migrate_locked has_store polls sb src tgt keep) in
  restored m m' /\ protocol sb e l.
Proof.
  assert (Hret : forall e n1, before_transfer e ->
    let '(m', _, e, l) := run o n1 m (Ret (Some e)) in restored m m' /\ protocol sb e l).
  { intros e n1 He. cbn. split; [by left|]. by destruct e. }
  unfold migrate_locked.
  eapply still_then with (Q := fun _ => True); [still|apply any_result|intros reachable n1 _].
  destruct reachable; [|by apply Hret].
  eapply still_then with (Q := fun _ => True); [still|apply any_result|intros pc n2 _].
  destruct pc as [pc|]; [|by apply Hret].
  eapply still_then with (Q := fun _ => True); [apply still_golden|apply any_result|intros golden n3 _].
  destruct golden as [golden|]; [|by apply Hret].
  eapply still_then with (Q := fun _ => True); [apply still_template|apply any_result|intros template n4 _].
  eapply still_then; [apply still_pick|apply pick_run|intros picked n5 Hp]. destruct picked as [t|e]; [|by apply Hret].
  eapply still_then with (Q := fun _ => True); [still|apply any_result|intros reachable n6 _].
  destruct reachable; [|by apply Hret]. apply transfer_phase.
Qed.

(** However its calls turn out, a live migration gives back what it took:
    when it returns, the per-sandbox lock and every in-flight count are what they
    were, and pending launches and draining machines are untouched. *)
Theorem liveMigrate_releases o n m polls sb src tgt keep :
  (forall w, 0 <= GetInFlight m w) ->
  let '(m', _, _, _) := run o n m (liveMigrateSandbox has_store polls sb src tgt keep) in
  migrating m' = migrating m /\ (forall w, GetInFlight m' w = GetInFlight m w) /\
  pending m' = pending m /\ draining m' = draining m.
Proof.
  intros Hnn. unfold liveMigrateSandbox. cbn [bind run AcquireMigrationLock acquire].
  destruct (bool_decide _) eqn:Eb; bool_to_prop; cbn [negb].
  2: { cbn. apply dec_stable in Eb. split_and!; [set_solver|done|done|done]. }
  set (m1 := upd_migrating _ m). rewrite exec_bind. pose proof (locked_run o n m1 polls sb src tgt keep) as H.
  destruct (run o n m1 _) as [[[m2 n2] e] l2]. destruct H as [Hr _]. cbn.
  assert (Hm1 : forall w, GetInFlight m1 w = GetInFlight m w) by done.
  destruct Hr as [->|(t & ->)].
  - cbn. split_and!; [set_solver|done|done|done].
  - split_and!.
    + unfold DecrInFlight. destruct (_ <=? 0); cbn; set_solver.
    + intros w. transitivity (GetInFlight (DecrInFlight t (IncrInFlight t m1)) w); [done|].
      destruct (decide (w = t)) as [->|Hne]; [rewrite InFlight_incr_decr; [done|by rewrite Hm1]|].
      by rewrite InFlight_frame.
    + unfold DecrInFlight. by destruct (_ <=? 0).
    + unfold DecrInFlight. by destruct (_ <=? 0).
Qed.

(** *** The session row *)

(** Whether a statement on the row succeeded; the code logs a failure and goes on. *)
Definition call_ok {R} (c : call R) : R -> bool :=
  match c in call R return R -> bool with
  | SetMigrating _ _ | CompleteMigration _ _ | FailMigration _ | FailMigrationPostQMP _ => fun ok => ok
  | _ => fun _ => true
  end.

Definition statements_ok (l : list event) : bool := forallb (fun '(Ev c r) => call_ok c r) l.

(** What a statement does to the database. *)
Definition apply_transition (now : Z) (d : SessionStore.db) (t : transition) : SessionStore.db :=
  match t with
  | TMigrating sb t => SessionStore.SetMigrating now d sb t
  | TCompleted sb t => default d (SessionStore.CompleteMigration now d sb t)
  | TFailed sb => SessionStore.FailMigration now d sb
  | TFailedPostQMP sb => SessionStore.FailMigrationPostQMP now d sb "migration failed after QMP transfer; source VM gone, target failed to complete"
  end.

(** The database after a trace: the statements that succeeded took effect. *)
Definition replay (now : Z) (l : list event) (d : SessionStore.db) : SessionStore.db :=
  fold_left (fun d '(Ev c r) => if call_ok c r then fold_left (apply_transition now) (call_transition c) d else d) l d.

Lemma replay_ok now l d : statements_ok l = true -> replay now l d = fold_left (apply_transition now) (transitions l) d.
Proof.
  unfold replay. revert d; induction l as [|[R c r] l IH]; intros d; [done|]. cbn [statements_ok forallb fold_left].
  intros [Hc Hl]%andb_true_iff. rewrite Hc, transitions_cons, fold_left_app. by apply IH.
Qed.

Section Row.
Import SessionStore SessionFacts.
Context (now : Z) (d : db) (sb : string) (r : session).
Hypothesis latest : latest_session d sb = Some r.
Hypothesis runs_there : status r = "running"%string.

Let migrating_row (t : string) := set_migrating_to now t (set_status now "migrating" r).

Lemma row_migrating t : latest_session (SetMigrating now d sb t) sb = Some (migrating_row t).
Proof. apply (latest_updated _ (fun r => set_migrating_to now t (set_status now "migrating" r))); [done|exact latest|]. exact (latest_running d sb r latest runs_there). Qed.

Lemma row_id : same (sandbox_id r) sb = true.
Proof. by pose proof (latest_running d sb r latest runs_there) as [? _]%andb_true_iff. Qed.

Lemma row_completed t : exists r', latest_session (default (SetMigrating now d sb t) (CompleteMigration now (SetMigrating now d sb t) sb t)) sb = Some r' /\
  status r' = "running"%string /\ worker_id r' = t.
Proof.
  pose proof (row_migrating t) as Hr. assert (complete_where sb (migrating_row t) = true) as Hc by (unfold complete_where; change (sandbox_id (migrating_row t)) with (sandbox_id r); by rewrite row_id).
  unfold CompleteMigration. destruct (List.find _ _) as [x|] eqn:Ef.
  - set (g := fun r => set_error now None (set_stopped now None (set_migrating_to now "" (set_worker now t (set_status now "running" r))))).
    exists (g (migrating_row t)). split; [|by split].
    by apply (latest_updated _ g (SetMigrating now d sb t) sb (migrating_row t)).
  - exfalso. assert (In (migrating_row t) (sessions (SetMigrating now d sb t))) as Hin by (by apply latest_In, filter_In in Hr as [? _]).
    apply (List.find_none _ _ Ef) in Hin. by rewrite Hc in Hin.
Qed.

Lemma row_failed t : exists r', latest_session (FailMigration now (SetMigrating now d sb t) sb) sb = Some r' /\
  status r' = "running"%string /\ worker_id r' = worker_id r.
Proof.
  set (g := fun r => set_migrating_to now "" (set_status now "running" r)). exists (g (migrating_row t)). split; [|by split].
  apply (latest_updated _ g _ sb (migrating_row t)); [done|apply row_migrating|].
  change (sandbox_id (migrating_row t)) with (sandbox_id r). by rewrite row_id.
Qed.

Lemma row_lost t e : exists r', latest_session (FailMigrationPostQMP now (SetMigrating now d sb t) sb e) sb = Some r' /\ status r' = "error"%string.
Proof.
  pose proof (row_migrating t) as Hr. assert (same (sandbox_id (migrating_row t)) sb && same (status (migrating_row t)) "migrating" = true) as Hc by (change (sandbox_id (migrating_row t)) with (sandbox_id r); by rewrite row_id).
  unfold FailMigrationPostQMP. destruct (List.find _ _) as [x|] eqn:Ef.
  - set (g := fun r => set_migrating_to now "" (finish now "error" (Some e) r)). exists (g (migrating_row t)). split; [|done].
    by apply (latest_updated _ g (SetMigrating now d sb t) sb (migrating_row t)).
  - exfalso. assert (In (migrating_row t) (sessions (SetMigrating now d sb t))) as Hin by (by apply latest_In, filter_In in Hr as [? _]).
    apply (List.find_none _ _ Ef) in Hin. by rewrite Hc in Hin.
Qed.

End Row.


End Facts.

(** ** Concurrent batches *)

(** What a migration of a sandbox holds: its lock, and a place in a target's
    in-flight count. *)
Abbreviation hold := (bool * option string)%type.
Definition idle : hold := (false, None).

(** One operation on the store by a migration of [sb] that goes from holding
    [h] to holding [h']. *)
Inductive move (sb : string) : hold -> hold -> InMemoryScalerState -> InMemoryScalerState -> Prop :=
| mv_none h m : move sb h h m m
| mv_take m : sb ∉ migrating m -> move sb idle (true, None) m (AcquireMigrationLock sb m).1
| mv_busy m : sb ∈ migrating m -> move sb idle idle m (AcquireMigrationLock sb m).1
| mv_incr w m : move sb (true, None) (true, Some w) m (IncrInFlight w m)
| mv_decr w m : move sb (true, Some w) (true, None) m (DecrInFlight w m)
| mv_free m : move sb (true, None) idle m (ReleaseMigrationLock sb m).

(** A program of a migration of [sb] that starts with [h] and ends with [hf],
    whatever the answers and whatever others do to the store in between. *)
Fixpoint obeys {A} (sb : string) (p : prog A) (h hf : hold) : Prop :=
  match p with
  | Ret _ => h = hf
  | Do f k => forall m, exists h', move sb h h' m (f m).1 /\ obeys sb (k (f m).2) h' hf
  | Call c k => forall r, obeys sb (k r) h hf
  end.

Lemma obeys_bind {A B} sb (p : prog A) (k : A -> prog B) h h1 hf :
  obeys sb p h h1 -> (forall a, obeys sb (k a) h1 hf) -> obeys sb (bind p k) h hf.
Proof.
  intros Hp Hk. revert h Hp; induction p as [a|C f k' IH|R c k' IH]; intros h Hp; cbn [bind obeys] in *.
  - by subst h1.
  - intros m. destruct (Hp m) as (h' & Hm & H). eauto.
  - eauto.
Qed.

Lemma obeys_ret {A} sb (a : A) h : obeys sb (Ret a) h h.
Proof. done. Qed.

(** Walk through a program that only reads the store. *)
Ltac obeys :=
  repeat first
  [ apply obeys_ret
  | eapply obeys_bind; [|intros ?]
  | match goal with
    | |- obeys _ (ask _) _ _ => intros ?; apply obeys_ret
    | |- obeys _ (do_ _) _ _ => intros ?; apply obeys_ret
    | |- obeys _ (read _) _ _ => intros ?; eexists; split; [apply mv_none|apply obeys_ret]
    | |- obeys _ (modify _) _ _ => intros ?; eexists; split; [constructor|apply obeys_ret]
    | |- obeys _ (when ?b _) _ _ => destruct b; cbn [when]
    | |- obeys _ (if ?b then _ else _) _ _ => destruct b
    | |- obeys _ (match ?x with _ => _ end) _ _ => destruct x
    end ].

Section Batch.
Context (has_store : bool).

Lemma obeys_wait sb h polls region ex mem : obeys sb (wait_target polls region ex mem) h h.
Proof. induction polls as [|polls IH]; cbn [wait_target]; unfold find_target; obeys; apply IH. Qed.

Lemma obeys_transfer sb h src tgt g t cpu mem act keep :
  obeys sb (transfer has_store sb src tgt g t cpu mem act keep) h h.
Proof. unfold transfer, finish_migration. obeys. Qed.

Lemma obeys_recover sb h src tgt r : obeys sb (recover sb src tgt r) h h.
Proof. unfold recover, abortIncomingOnTarget. obeys. Qed.

Lemma obeys_golden sb h pc src : obeys sb (resolve_golden has_store pc sb src) h h.
Proof. unfold resolve_golden. destruct has_store; obeys. Qed.

Lemma obeys_template sb h : obeys sb (resolve_template has_store sb) h h.
Proof. unfold resolve_template. obeys. Qed.

Lemma obeys_pick sb h polls src tgt act : obeys sb (pick_target polls src tgt act) h h.
Proof. unfold pick_target. obeys. apply obeys_wait. Qed.

Lemma obeys_when sb h b p : obeys sb p h h -> obeys sb (when b p) h h.
Proof. by destruct b. Qed.

Lemma obeys_locked sb polls src tgt keep :
  obeys sb (migrate_locked has_store polls sb src tgt keep) (true, None) (true, None).
Proof.
  unfold migrate_locked. eapply obeys_bind; [obeys|intros r1]. destruct r1; cbn [negb]; [|obeys].
  eapply obeys_bind; [obeys|intros [pc|]]; [|obeys].
  eapply obeys_bind; [apply obeys_golden|intros [g|]]; [|obeys].
  eapply obeys_bind; [apply obeys_template|intros t].
  eapply obeys_bind; [apply obeys_pick|intros [w|e]]; [|obeys].
  eapply obeys_bind; [obeys|intros r2]. destruct r2; cbn [negb]; [|obeys].
  eapply obeys_bind; [apply obeys_when; obeys|intros _].
  eapply obeys_bind; [intros m; eexists; split; [apply (mv_incr sb w)|apply obeys_ret]|intros _].
  eapply obeys_bind; [apply obeys_transfer|intros r].
  eapply obeys_bind; [intros m; eexists; split; [apply (mv_decr sb w)|apply obeys_ret]|intros _].
  eapply obeys_bind; [apply obeys_when, obeys_recover|intros _]. obeys.
Qed.

Lemma obeys_migrate sb polls src tgt keep :
  obeys sb (liveMigrateSandbox has_store polls sb src tgt keep) idle idle.
Proof.
  unfold liveMigrateSandbox. intros m. cbn [AcquireMigrationLock acquire snd bind].
  destruct (bool_decide _) eqn:Eb; bool_to_prop; cbn [negb].
  - exists (true, None). split; [by apply mv_take|]. eapply obeys_bind; [apply obeys_locked|intros e]. obeys.
  - exists idle. split; [apply mv_busy; by apply dec_stable|]. obeys.
Qed.

End Batch.

(** The store of a batch: what the migrations hold, over the store [m0] the
    batch started with. *)
Abbreviation ghost := (string * hold)%type.
Definition held (m : InMemoryScalerState) (s : string) : Z := if bool_decide (s ∈ migrating m) then 1 else 0.
Definition locks (s : string) (gs : list ghost) : Z := count_if (fun g => g.2.1 && String.eqb g.1 s) gs.
Definition uses (w : string) (gs : list ghost) : Z :=
  count_if (fun g => match g.2.2 with Some w' => String.eqb w' w | None => false end) gs.

Record holds (m0 m : InMemoryScalerState) (gs : list ghost) : Prop := {
  holds_locks : forall s, held m s = held m0 s + locks s gs;
  holds_uses : forall w, GetInFlight m w = GetInFlight m0 w + uses w gs;
  holds_pending : pending m = pending m0;
  holds_draining : draining m = draining m0
}.

Lemma count_if_cons {A} (f : A -> bool) x l : count_if f (x :: l) = (if f x then 1 else 0) + count_if f l.
Proof. unfold count_if. cbn. destruct (f x); cbn [length]; lia. Qed.

Lemma count_if_nonneg {A} (f : A -> bool) l : 0 <= count_if f l.
Proof. unfold count_if. lia. Qed.

#[export] Instance count_if_perm {A} (f : A -> bool) : Proper (Permutation ==> eq) (count_if f).
Proof. induction 1; rewrite ?count_if_cons in *; lia. Qed.

#[export] Instance holds_perm m0 m : Proper (Permutation ==> iff) (holds m0 m).
Proof.
  intros gs gs' Hp. assert (forall gs gs', gs ≡ₚ gs' -> holds m0 m gs -> holds m0 m gs') as H.
  { clear. intros gs gs' Hp [H1 H2 H3 H4]. unfold locks, uses in *. split; [| |done|done]; intros s.
    - by rewrite <- Hp.
    - by rewrite <- Hp. }
  split; by apply H.
Qed.

Lemma locks_cons s sb h gs : locks s ((sb, h) :: gs) = (if h.1 && String.eqb sb s then 1 else 0) + locks s gs.
Proof. unfold locks, uses. by rewrite count_if_cons. Qed.

Lemma uses_cons w sb (h : hold) gs :
  uses w ((sb, h) :: gs) = (if match h.2 with Some w' => String.eqb w' w | None => false end then 1 else 0) + uses w gs.
Proof. unfold locks, uses. by rewrite count_if_cons. Qed.

Lemma holds_idle m0 m sb gs : holds m0 m ((sb, idle) :: gs) <-> holds m0 m gs.
Proof.
  split; intros [H1 H2 H3 H4]; (split; [| |done|done]); intros s;
    [rewrite H1|rewrite H2|rewrite H1|rewrite H2]; by rewrite ?locks_cons, ?uses_cons.
Qed.

Lemma GetInFlight_incr m w w' : GetInFlight (IncrInFlight w m) w' = GetInFlight m w' + (if String.eqb w w' then 1 else 0).
Proof.
  unfold IncrInFlight, GetInFlight. cbn. destruct (String.eqb_spec w w') as [->|].
  - by rewrite lookup_insert_eq.
  - rewrite lookup_insert_ne by done. lia.
Qed.

Lemma GetInFlight_decr m w w' : 1 <= GetInFlight m w ->
  GetInFlight (DecrInFlight w m) w' = GetInFlight m w' - (if String.eqb w w' then 1 else 0).
Proof.
  intros Hpos. unfold DecrInFlight. destruct (_ <=? 0) eqn:E; bool_to_prop; unfold GetInFlight in *; cbn;
    (destruct (String.eqb_spec w w') as [->|]).
  - rewrite lookup_delete_eq. cbn. lia.
  - rewrite lookup_delete_ne by done. lia.
  - by rewrite lookup_insert_eq.
  - rewrite lookup_insert_ne by done. lia.
Qed.

Lemma held_range m s : 0 <= held m s <= 1.
Proof. unfold held. destruct (bool_decide _); lia. Qed.

Lemma held_take sb m s : sb ∉ migrating m ->
  held (AcquireMigrationLock sb m).1 s = held m s + (if String.eqb sb s then 1 else 0).
Proof.
  intros Hsb. unfold held. cbn. destruct (String.eqb_spec sb s) as [->|].
  - rewrite bool_decide_true by set_solver. by rewrite bool_decide_false.
  - rewrite (bool_decide_ext (s ∈ {[sb]} ∪ migrating m) (s ∈ migrating m)) by set_solver. lia.
Qed.

Lemma held_free sb m s : held m sb = 1 ->
  held (ReleaseMigrationLock sb m) s = held m s - (if String.eqb sb s then 1 else 0).
Proof.
  unfold held. intros H. cbn. destruct (String.eqb_spec sb s) as [->|].
  - rewrite bool_decide_false by set_solver. lia.
  - rewrite (bool_decide_ext (s ∈ migrating m ∖ {[sb]}) (s ∈ migrating m)) by set_solver. lia.
Qed.

(** One step of one migration keeps the accounts of the batch. *)
Lemma move_holds m0 m m' sb h h' gs : (forall w, 0 <= GetInFlight m0 w) ->
  move sb h h' m m' -> holds m0 m ((sb, h) :: gs) -> holds m0 m' ((sb, h') :: gs).
Proof.
  intros Hnn Hm [H1 H2 H3 H4]. setoid_rewrite locks_cons in H1. setoid_rewrite uses_cons in H2.
  assert (held_decr : forall w s, held (DecrInFlight w m) s = held m s)
    by (intros w s; unfold DecrInFlight; by destruct (_ <=? 0)).
  assert (forall s, 0 <= locks s gs) as Hl by (intros; apply count_if_nonneg).
  assert (forall w, 0 <= uses w gs) as Hu by (intros; apply count_if_nonneg).
  destruct Hm as [h m|m Hsb|m Hsb|w m|w m|m]; cbn [fst snd idle andb] in H1, H2;
    pose proof H1 as H1a; pose proof H2 as H2a.
  all: split; [intros s; rewrite locks_cons; specialize (H1 s)|intros w'; rewrite uses_cons; specialize (H2 w')| |];
    try done.
  - rewrite held_take by done. cbn [fst snd andb]. lia.
  - cbn [fst snd idle andb]. rewrite <- H1. unfold held. cbn.
    by rewrite (bool_decide_ext (s ∈ {[sb]} ∪ migrating m) (s ∈ migrating m)) by set_solver.
  - rewrite GetInFlight_incr. cbn [fst snd]. lia.
  - by rewrite held_decr.
  - rewrite GetInFlight_decr; cbn [fst snd]; [lia|].
    specialize (Hnn w). specialize (Hu w). pose proof (H2a w) as E. rewrite String.eqb_refl in E. lia.
  - unfold DecrInFlight. by destruct (_ <=? 0).
  - unfold DecrInFlight. by destruct (_ <=? 0).
  - rewrite held_free; cbn [fst snd idle andb]; [lia|].
    specialize (Hl sb). pose proof (held_range m0 sb). pose proof (held_range m sb). pose proof (H1a sb) as E.
    rewrite String.eqb_refl in E. lia.
Qed.

(** One migration run to its end while others hold [gs]. *)
Lemma obeys_run {A} (p : prog A) sb h hf o n m m0 gs : (forall w, 0 <= GetInFlight m0 w) ->
  obeys sb p h hf -> holds m0 m ((sb, h) :: gs) ->
  let '(m', _, _, _) := run o n m p in holds m0 m' ((sb, hf) :: gs).
Proof.
  intros Hnn. revert h n m; induction p as [a|C f k IH|R c k IH]; intros h n m Ho Hh; cbn [obeys run] in *.
  - by subst h.
  - destruct (Ho m) as (h' & Hm & Hk). destruct (f m) as [m' b]. eapply IH; [exact Hk|]. by eapply move_holds.
  - specialize (IH (o n R c) h (S n) m (Ho _) Hh). by destruct (run o (S n) m _) as [[[m' n'] a] l].
Qed.

Abbreviation owned := (fun (t : prog err) (g : ghost) => obeys g.1 t g.2 idle).

Lemma run_all_holds ts gs o n m m0 : (forall w, 0 <= GetInFlight m0 w) ->
  Forall2 owned ts gs -> holds m0 m gs -> let '(m', _, _, _) := run o n m (run_all ts) in holds m0 m' [].
Proof.
  intros Hnn Ho. revert n m; induction Ho as [|t [sb h] ts gs Ht _ IH]; intros n m Hh; [done|].
  cbn [run_all]. rewrite exec_bind. pose proof (obeys_run t sb h idle o n m m0 gs Hnn Ht Hh) as H.
  destruct (run o n m t) as [[[m1 n1] e] l1]. rewrite holds_idle in H. rewrite exec_bind.
  specialize (IH n1 m1 H). by destruct (run o n1 m1 (run_all ts)) as [[[m2 n2] es] l2].
Qed.

Lemma wait_group_holds sched ts gs o n m m0 : (forall w, 0 <= GetInFlight m0 w) ->
  Forall2 owned ts gs -> holds m0 m gs -> let '(m', _, _, _) := run o n m (wait_group sched ts) in holds m0 m' [].
Proof.
  intros Hnn. revert ts gs n m; induction sched as [|i sched IH]; intros ts gs n m Ho Hh; cbn [wait_group];
    [by eapply run_all_holds|].
  destruct (ts !! i) as [t|] eqn:Et; [|by eapply IH].
  destruct (Forall2_lookup_l _ _ _ _ _ Ho Et) as ([sb h] & Eg & Ht). cbn in Ht.
  destruct t as [a|C f k|R c k]; [by eapply IH| |]; cbn [run obeys] in *.
  - destruct (Ht m) as (h' & Hm & Hk). destruct (f m) as [m' b].
    apply (IH _ (<[i := (sb, h')]> gs)); [by apply Forall2_insert|].
    rewrite insert_take_drop by (by eapply lookup_lt_Some). rewrite <- Permutation_middle.
    eapply move_holds; [done|exact Hm|]. rewrite Permutation_middle. by rewrite take_drop_middle.
  - specialize (IH (<[i := k (o n R c)]> ts) gs (S n) m).
    destruct (run o (S n) m _) as [[[m' n'] a] l]. apply IH; [|done].
    rewrite <- (list_insert_id gs i (sb, h)) by done. apply Forall2_insert; [done|]. apply Ht.
Qed.

(** A batch of concurrent migrations, interleaved in any order of their
    steps and whatever their calls answer, gives back everything it took: when
    the batch has been waited for, no lock of its sandboxes is left behind and
    none of others was dropped, every target's in-flight count is what it was,
    and pending launches and draining machines are untouched. *)
Theorem migrate_batch_releases has_store o n m sched polls worker l :
  (forall w, 0 <= GetInFlight m w) ->
  let '(m', _, _, _) := run o n m (migrate_batch has_store sched polls worker l) in
  migrating m' = migrating m /\ (forall w, GetInFlight m' w = GetInFlight m w) /\
  pending m' = pending m /\ draining m' = draining m.
Proof.
  intros Hnn. unfold migrate_batch. rewrite exec_bind.
  set (ts := map _ l). set (gs := map (fun sb => (sb, idle)) l : list ghost).
  assert (Ho : Forall2 owned ts gs).
  { apply Forall2_fmap_l, Forall2_fmap_r, Forall_Forall2_diag, Forall_true. intros sb. apply obeys_migrate. }
  assert (Hh : holds m m gs).
  { clear Ho. subst gs. clear ts. induction l as [|sb l IH]; [|by apply holds_idle].
    split; try done; intros; unfold locks, uses, count_if; cbn; lia. }
  pose proof (wait_group_holds sched ts gs o n m m Hnn Ho Hh) as H.
  destruct (run o n m (wait_group sched ts)) as [[[m' n'] es] ll]. cbn.
  destruct H as [H1 H2 H3 H4]. split_and!; [|intros w|done|done].
  - apply set_eq. intros s. specialize (H1 s). unfold held, locks, count_if in H1. cbn in H1.
    destruct (bool_decide (s ∈ migrating m')) eqn:E1, (bool_decide (s ∈ migrating m)) eqn:E2; bool_to_prop; (tauto || lia).
  - rewrite H2. unfold uses, count_if. cbn. lia.
Qed.

(** ** Terminating a drained worker *)

Definition is_destroy (e : event) : bool :=
  let '(Ev c _) := e in match c with PoolDestroyMachine _ => true | _ => false end.

(** Programs that never terminate a machine. *)
Fixpoint gentle {A} (p : prog A) : Prop :=
  match p with
  | Ret _ => True
  | Do f k => forall b, gentle (k b)
  | Call c k => (match c with PoolDestroyMachine _ => False | _ => True end) /\ forall r, gentle (k r)
  end.

Lemma gentle_bind {A B} (p : prog A) (k : A -> prog B) : gentle p -> (forall a, gentle (k a)) -> gentle (bind p k).
Proof.
  intros Hp Hk. induction p as [a|C f k' IH|R c k' IH]; cbn [bind gentle] in *; [auto| |].
  - intros b. by apply IH.
  - destruct Hp as [? H]. split; [done|]. intros b. by apply IH.
Qed.

Lemma gentle_run {A} (p : prog A) o n m : gentle p ->
  let '(_, _, _, l) := run o n m p in Forall (fun e => is_destroy e = false) l.
Proof.
  revert n m; induction p as [a|C f k IH|R c k IH]; intros n m Hp; cbn [run gentle] in *; [constructor| |].
  - destruct (f m) as [m' b]. apply IH, Hp.
  - destruct Hp as [Hc Hk]. specialize (IH (o n R c) (S n) m (Hk _)).
    destruct (run o (S n) m _) as [[[m' n'] a] l]. constructor; [|done]. by destruct c.
Qed.

Lemma gentle_ret {A} (a : A) : gentle (Ret a).
Proof. done. Qed.

Lemma gentle_for_each {A} (l : list A) body : (forall a, gentle (body a)) -> gentle (for_each l body).
Proof. intros H. induction l; [done|]. by apply gentle_bind. Qed.

Ltac gentle :=
  repeat first
  [ apply gentle_ret
  | apply gentle_bind; [|intros ?]
  | apply gentle_for_each; intros ?
  | match goal with
    | |- gentle (ask _) => split; [exact I|intros ?; apply gentle_ret]
    | |- gentle (do_ _) => split; [exact I|intros ?; apply gentle_ret]
    | |- gentle (read _) => intros ?; apply gentle_ret
    | |- gentle (modify _) => intros ?; apply gentle_ret
    | |- gentle (Do _ Ret) => intros ?; apply gentle_ret
    | |- gentle (when ?b _) => destruct b; cbn [when]
    | |- gentle (if ?b then _ else _) => destruct b
    | |- gentle (match ?x with _ => _ end) => destruct x
    end ].

Section Terminate.
Context (has_store : bool).

Lemma gentle_find region ex mem : gentle (find_target region ex mem).
Proof. unfold find_target. gentle. Qed.

Lemma gentle_wait polls region ex mem : gentle (wait_target polls region ex mem).
Proof. induction polls as [|polls IH]; cbn [wait_target]; gentle; first [apply gentle_find|apply IH]. Qed.

Lemma gentle_migrate polls sb src tgt keep : gentle (liveMigrateSandbox has_store polls sb src tgt keep).
Proof.
  unfold liveMigrateSandbox, migrate_locked, resolve_golden, resolve_template, pick_target, transfer,
    finish_migration, recover, abortIncomingOnTarget. gentle. apply gentle_wait.
Qed.
#[local] Opaque liveMigrateSandbox.

Lemma gentle_paused polls sb src : gentle (migratePausedUnbilled has_store polls sb src).
Proof. unfold migratePausedUnbilled. gentle. apply gentle_migrate. Qed.
#[local] Opaque migratePausedUnbilled.

Lemma gentle_scan polls worker l : gentle (drain_scan has_store polls worker l).
Proof.
  induction l as [|sb l IH]; cbn [drain_scan]; [done|]. apply gentle_bind; [|intros ?; gentle; apply IH].
  unfold drain_one, session_of, deep_hibernate. gentle; apply gentle_paused.
Qed.

Lemma gentle_run_all ts : Forall gentle ts -> gentle (run_all ts).
Proof. induction 1 as [|t ts Ht _ IH]; cbn [run_all]; gentle; [apply Ht|apply IH]. Qed.

Lemma gentle_wait_group sched ts : Forall gentle ts -> gentle (wait_group sched ts).
Proof.
  revert ts; induction sched as [|i sched IH]; intros ts Hts; cbn [wait_group]; [by apply gentle_run_all|].
  destruct (ts !! i) as [t|] eqn:E; [|by apply IH].
  assert (gentle t) as Ht by (by eapply Forall_lookup_1).
  destruct t as [a|C f k|R c k]; cbn [gentle] in Ht |- *; [by apply IH|intros b|destruct Ht as [? Ht]; split; [done|intros r]];
    apply IH, Forall_insert; auto.
Qed.

Lemma gentle_batch sched polls worker l : gentle (migrate_batch has_store sched polls worker l).
Proof.
  unfold migrate_batch. gentle. apply gentle_wait_group, Forall_map, Forall_true. intros sb. apply gentle_migrate.
Qed.

Lemma gentle_natural fuel worker : gentle (waitForNaturalDrain fuel worker).
Proof. induction fuel as [|fuel IH]; cbn [waitForNaturalDrain]; unfold sandbox_count; gentle. apply IH. Qed.
#[local] Opaque waitForNaturalDrain.

Lemma gentle_loop sched fuel polls maxW worker region f b : gentle (drain_loop has_store sched fuel polls maxW worker region f b).
Proof.
  revert f b; induction fuel as [|fuel IH]; intros f b; cbn [drain_loop]; [done|].
  apply gentle_bind; [gentle|intros listing]. destruct listing as [l|]; [|apply gentle_natural].
  apply gentle_bind; [apply gentle_scan|intros running].
  destruct running as [|r0 rs]; [unfold orphan_sweep; gentle|].
  destruct (_ <=? f).
  - destruct (_ <=? b + 1); (apply gentle_bind; [unfold deep_hibernate; gentle|intros ?; apply IH]).
  - apply gentle_bind; [apply gentle_find|intros probe]. destruct probe as [w|].
    + apply gentle_bind; [apply gentle_batch|intros ?]. apply gentle_bind; [gentle|intros ?; apply IH].
    + apply gentle_bind; [gentle|intros ?]. apply gentle_bind; [gentle|intros room].
      destruct room; [|apply gentle_natural].
      apply gentle_bind; [gentle|intros ?]. apply gentle_bind; [gentle|intros ?; apply IH].
Qed.

Lemma gentle_drain sched fuel polls maxW worker region : gentle (drainWorker has_store sched fuel polls maxW worker region).
Proof. unfold drainWorker. gentle; [apply gentle_loop|apply gentle_natural]. Qed.

#[local] Transparent liveMigrateSandbox migratePausedUnbilled waitForNaturalDrain.

(** *** The count and the upload check *)

Lemma count_zero o n m worker :
  let '(_, _, c, l) := run o n m (countSandboxesOnWorker worker) in
  c = 0 -> exists listing, l = [Ev (GetWorkerClient worker) true; Ev (ListSandboxes worker) (Some listing)] /\
    count_if (statusb "running") listing = 0.
Proof.
  unfold countSandboxesOnWorker. cbn [bind ask run]. set (b := o n _ (GetWorkerClient worker)).
  destruct b; cbn [negb run bind]; [|done].
  set (r := o (S n) _ (ListSandboxes worker)). destruct r as [listing|]; cbn; [|done]. eauto.
Qed.

Definition upload_check (worker : string) (e : event) : Prop :=
  (exists r, e = Ev (PendingUploads worker) r) \/ (exists r, e = Ev Sleep r).

Lemma uploads_run o n m fuel worker :
  let '(_, _, ok, l) := run o n m (waitForHibernationUploads has_store fuel worker) in
  Forall (upload_check worker) l /\
  (ok = true -> has_store = true -> In (Ev (PendingUploads worker) (Some 0)) l).
Proof.
  revert n m; induction fuel as [|fuel IH]; intros n m; cbn [waitForHibernationUploads]; unfold uploads_settled;
    (destruct has_store; [|by cbn]); cbn [bind ask run].
  - set (r := o n _ (PendingUploads worker)). destruct r as [k|]; [destruct (k =? 0) eqn:Ek|]; bool_to_prop; cbn.
    + subst k. split; [apply Forall_cons_2; [left; by eexists|constructor]|by left].
    + split; [apply Forall_cons_2; [left; by eexists|constructor]|done].
    + split; [apply Forall_cons_2; [left; by eexists|constructor]|done].
  - set (r := o n _ (PendingUploads worker)).
    assert (Hrec : let '(_, _, ok, l) := run o (S n) m (bind (do_ Sleep) (fun _ =>
        waitForHibernationUploads true fuel worker)) in
      Forall (upload_check worker) l /\ (ok = true -> true = true -> In (Ev (PendingUploads worker) (Some 0)) l)).
    { cbn [do_ bind run]. specialize (IH (S (S n)) m).
      destruct (run o (S (S n)) m _) as [[[m1 n1] ok] l1]. destruct IH as [I1 I2].
      split; [apply Forall_cons_2; [right; by eexists|done]|]. intros H1 H2. right. by apply I2. }
    destruct r as [k|]; [destruct (k =? 0) eqn:Ek|]; bool_to_prop; cbn [run].
    + subst k. split; [apply Forall_cons_2; [left; by eexists|constructor]|by left].
    + destruct (run o (S n) m _) as [[[m1 n1] ok] l1]. destruct Hrec as [I1 I2].
      split; [apply Forall_cons_2; [left; by eexists|done]|]. intros H1 H2. right. by apply I2.
    + destruct (run o (S n) m _) as [[[m1 n1] ok] l1]. destruct Hrec as [I1 I2].
      split; [apply Forall_cons_2; [left; by eexists|done]|]. intros H1 H2. right. by apply I2.
Qed.

(** A termination in [pre ++ l] lies in [l] when [pre] holds none. *)
Lemma destroy_after (pre l l1 l2 : list event) e :
  Forall (fun e => is_destroy e = false) pre -> is_destroy e = true -> pre ++ l = l1 ++ e :: l2 ->
  exists l1', l1 = pre ++ l1' /\ l = l1' ++ e :: l2.
Proof.
  intros Hp He. revert l1; induction Hp as [|x pre Hx Hp IH]; intros l1 Heq; cbn in *; [by exists l1|].
  destruct l1 as [|y l1]; cbn in Heq; simplify_eq; [congruence|].
  destruct (IH l1 H0) as (l1' & -> & ->). by exists l1'.
Qed.

(** What must precede a termination: an answer of the worker with no running
    sandbox, then only upload checks, one of which found none pending. *)
Definition cleared (worker : string) (l1 : list event) : Prop :=
  exists pre listing post, l1 = pre ++ Ev (ListSandboxes worker) (Some listing) :: post /\
    count_if (statusb "running") listing = 0 /\ Forall (upload_check worker) post /\
    (has_store = true -> In (Ev (PendingUploads worker) (Some 0)) post).

Lemma upload_no_destroy worker l : Forall (upload_check worker) l -> Forall (fun e => is_destroy e = false) l.
Proof. intros H. eapply Forall_impl; [exact H|]. intros e [[r ->]|[r ->]]; done. Qed.

Lemma terminate_cleared o n m fuel worker machine region more pre listing l1 e l2 :
  Forall (fun e => is_destroy e = false) pre -> count_if (statusb "running") listing = 0 -> is_destroy e = true ->
  (let '(_, _, _, l) := run o n m (terminate_drained has_store fuel worker machine region more) in
   (pre ++ [Ev (GetWorkerClient worker) true; Ev (ListSandboxes worker) (Some listing)]) ++ l = l1 ++ e :: l2) ->
  cleared worker l1.
Proof.
  intros Hpre Hcount He. unfold terminate_drained. rewrite exec_bind.
  pose proof (uploads_run o n m fuel worker) as Hu.
  destruct (run o n m (waitForHibernationUploads has_store fuel worker)) as [[[m1 n1] ok] lu]. destruct Hu as [Hu Hok].
  set (rest := run o n1 m1 _). destruct rest as [[[m2 n2] u] lr] eqn:Er. intros Heq.
  set (head := pre ++ [_; _]) in Heq. rewrite app_assoc in Heq.
  apply destroy_after in Heq as (l1' & -> & Hlr); [| |done].
  2: { apply Forall_app. split; [|by eapply upload_no_destroy]. apply Forall_app. split; [done|by repeat constructor]. }
  subst rest. destruct ok; cbn [negb] in Er; [|cbn in Er; simplify_eq; by destruct l1'].
  destruct (nonempty machine); cbn [when bind do_ run] in Er.
  - destruct (run o (S n1) m1 (when more (do_ (ScaleUp region)))) as [[[m3 n3] u3] l3] eqn:E3.
    injection Er as _ _ _ <-. destruct l1' as [|x l1']; cbn in Hlr; injection Hlr as Hx Hl3.
    + exists (pre ++ [Ev (GetWorkerClient worker) true]), listing, lu. subst head.
      rewrite app_nil_r, <- !app_assoc. cbn. split_and!; auto.
    + exfalso. assert (Forall (fun e => is_destroy e = false) l3) as Hno.
      { pose proof (gentle_run (when more (do_ (ScaleUp region))) o (S n1) m1) as Hg. rewrite E3 in Hg.
        apply Hg. gentle. }
      rewrite Hl3 in Hno. apply Forall_app in Hno as [_ Hno]. apply Forall_cons in Hno as [Hno _]. congruence.
  - exfalso. assert (Forall (fun e => is_destroy e = false) lr) as Hno.
    { pose proof (gentle_run (when more (do_ (ScaleUp region))) o n1 m1) as Hg. rewrite Er in Hg. apply Hg. gentle. }
    rewrite Hlr in Hno. apply Forall_app in Hno as [_ Hno]. apply Forall_cons in Hno as [Hno _]. congruence.
Qed.

Lemma gentle_count worker : gentle (countSandboxesOnWorker worker).
Proof. unfold countSandboxesOnWorker. gentle. Qed.

Lemma gentle_hibernate_all worker : gentle (hibernateAllOnWorker worker).
Proof. unfold hibernateAllOnWorker. gentle. Qed.

(** A count followed by the termination it guards. *)
Lemma count_then_terminate o n m fuel worker machine region more pre l1 e l2 (k : Z -> prog unit) :
  Forall (fun e => is_destroy e = false) pre -> is_destroy e = true ->
  (forall c, c <> 0 -> forall o n m pre l1, Forall (fun e => is_destroy e = false) pre ->
     (let '(_, _, _, l) := run o n m (k c) in pre ++ l = l1 ++ e :: l2) -> cleared worker l1) ->
  k 0 = terminate_drained has_store fuel worker machine region more ->
  (let '(_, _, _, l) := run o n m (bind (countSandboxesOnWorker worker) k) in pre ++ l = l1 ++ e :: l2) ->
  cleared worker l1.
Proof.
  intros Hpre He Hother H0. rewrite exec_bind.
  pose proof (count_zero o n m worker) as Hz. pose proof (gentle_run _ o n m (gentle_count worker)) as Hg.
  destruct (run o n m (countSandboxesOnWorker worker)) as [[[m1 n1] c] lc].
  destruct (decide (c = 0)) as [->|Hc].
  - destruct (Hz eq_refl) as (listing & -> & Hcount). rewrite H0. intros Heq.
    eapply (terminate_cleared o n1 m1 fuel worker machine region more pre listing l1 e l2); try done.
    destruct (run o n1 m1 _) as [[[m2 n2] u] l]. by rewrite <- app_assoc.
  - intros Heq. eapply (Hother c Hc o n1 m1 (pre ++ lc) l1); [by apply Forall_app|].
    destruct (run o n1 m1 (k c)) as [[[m2 n2] u] l]. by rewrite <- app_assoc.
Qed.

(** [replaceOneStale] terminates a machine only after the worker itself
    answered that no sandbox is running on it, later than the drain and later
    than any hibernation fallback, and (with a database) after a check that found
    no checkpoint upload pending; between that answer and the termination it does
    nothing but wait for uploads. An unreachable worker is never terminated. *)
Theorem replaceOneStale_safe o n m sched fuel polls maxW region worker machine more l1 e l2 :
  (run o n m (replaceOneStale has_store sched fuel polls maxW region worker machine more)).2 = l1 ++ e :: l2 ->
  is_destroy e = true -> cleared worker l1.
Proof.
  intros Hrun He. unfold replaceOneStale in Hrun. rewrite exec_bind in Hrun.
  pose proof (gentle_run _ o n m (gentle_drain sched fuel polls maxW worker region)) as Hd.
  destruct (run o n m (drainWorker has_store sched fuel polls maxW worker region)) as [[[m1 n1] u1] ld].
  assert (Hret : forall o n m pre l1, Forall (fun e => is_destroy e = false) pre ->
    (let '(_, _, _, l) := run o n m (Ret tt) in pre ++ l = l1 ++ e :: l2) -> cleared worker l1).
  { clear -He. intros o n m pre l1 Hpre Heq. cbn in Heq. rewrite app_nil_r in Heq. subst pre.
    apply Forall_app in Hpre as [_ H]. apply Forall_cons in H as [H _]. congruence. }
  lazymatch type of Hrun with context [run o n1 m1 (bind _ ?k)] =>
    apply (count_then_terminate o n1 m1 fuel worker machine region more ld l1 e l2 k); try done end.
  2: { destruct (run o n1 m1 _) as [[[m2 n2] u2] l]. exact Hrun. }
  intros c Hc o' n' m' pre l1' Hpre. cbn beta. destruct (0 <? c) eqn:E1.
  - rewrite exec_bind. pose proof (gentle_run _ o' n' m' (gentle_hibernate_all worker)) as Hg.
    destruct (run o' n' m' (hibernateAllOnWorker worker)) as [[[m3 n3] u3] lh]. intros Heq.
    lazymatch type of Heq with context [run o' n3 m3 (bind _ ?k)] =>
      apply (count_then_terminate o' n3 m3 fuel worker machine region more (pre ++ lh) l1' e l2 k);
        [by apply Forall_app|done| |done|] end.
    2: { destruct (run o' n3 m3 _) as [[[m4 n4] u4] l4]. rewrite <- app_assoc. exact Heq. }
    intros c2 Hc2 o2 n2 m2 pre2 l12 Hpre2. destruct (0 <? c2) eqn:E2; [by apply Hret|].
    destruct (c2 <? 0) eqn:E3; [by apply Hret|]. bool_to_prop. lia.
  - destruct (c <? 0) eqn:E2; [by apply Hret|]. bool_to_prop. lia.
Qed.

End Terminate.

(** ** Schedules and answers that go wrong *)

(** A worker with free slots and no load. *)
Definition idle_worker (id : string) : WorkerInfo :=
  {| wID := id; wMachineID := (id ++ "-m")%string; wRegion := "r"; Capacity := 10; Current := 0;
     CPUPct := GoFloat.f0; MemPct := GoFloat.f0; DiskPct := GoFloat.f0; TotalMemoryMB := 0;
     GoldenVersion := "g"; WorkerVersion := "v" |}.

(** Every call succeeds; [src] and [dst] are the region's workers. *)
Definition all_well : oracle := fun _ R c =>
  match c in call R return R with
  | GetWorkerClient _ => true
  | Workers _ => [idle_worker "src"; idle_worker "dst"]
  | WorkerByID w => Some (idle_worker w)
  | RegistrySetDraining _ => tt
  | ListSandboxes _ => Some []
  | PreCopyDrives _ _ => Some {| pc_GoldenVersion := "g"; pc_BaseCpuCount := 1; pc_BaseMemoryMb := 1024; pc_ActualMemoryMb := 512 |}
  | GetSandboxSession _ => None
  | MarkOrphanedOnWorker _ => Some []
  | PendingUploads _ => Some 0
  | PublishMigrated _ _ => tt | PublishStopped _ _ _ => tt | PublishPaused _ _ => tt
  | ScaleUp _ => tt | Sleep => tt
  | _ => true
  end.

(** Both migrations look for a target before either is counted. *)
Definition race : list nat := replicate 8 0%nat ++ replicate 8 1%nat ++ replicate 2 0%nat ++ replicate 2 1%nat.

(** The one-migration-per-target limit is checked when the target is chosen
    and recorded only later: two migrations of one drain batch that run
    concurrently can both choose the same target and bring its in-flight count to
    two, although every call succeeds. *)
Theorem in_flight_limit_races :
  exists s m ts,
    schedule all_well 0 NewInMemoryScalerState
      [liveMigrateSandbox true 1 "sb-a" "src" "" false; liveMigrateSandbox true 1 "sb-b" "src" "" false] s = (m, ts) /\
    GetInFlight m "dst" = 2.
Proof.
  exists race.
  destruct (schedule all_well 0 NewInMemoryScalerState _ race) as [m ts] eqn:E. exists m, ts. split; [done|].
  transitivity (GetInFlight (schedule all_well 0 NewInMemoryScalerState
    [liveMigrateSandbox true 1 "sb-a" "src" "" false; liveMigrateSandbox true 1 "sb-b" "src" "" false] race).1 "dst");
    [by rewrite E|]. clear E. vm_compute. reflexivity.
Qed.

(** One paused sandbox that can be neither resumed nor hibernated. *)
Definition paused_stuck : oracle := fun n R c =>
  match c in call R return R with
  | ListSandboxes _ => Some [{| SandboxId := "sb"; Status := "paused" |}]
  | ResumeUnbilled _ _ => false
  | HibernateSandbox _ _ => false
  | c => all_well n _ c
  end.

Definition hibernate_failed (e : event) : bool :=
  let '(Ev c r) := e in
  (match c in call R return R -> bool with HibernateSandbox _ _ => negb | _ => fun _ => false end) r.

(** A paused sandbox, which exists only in the worker's memory, can be lost
    with its worker: the drain ignores a failed hibernation of a paused box, the
    counts taken before the termination only look at running sandboxes, and so
    the machine is terminated while the worker still reports the paused box. *)
Theorem paused_box_lost :
  let l := (run paused_stuck 0 NewInMemoryScalerState (replaceOneStale true (fun _ => []) 3 1 10 "r" "src" "src-m" false)).2 in
  existsb is_destroy l = true /\ existsb hibernate_failed l = true.
Proof. vm_compute. split; reflexivity. Qed.

(** ** Witnesses *)

Lemma liveMigrate_releases_witness :
  let '(m', _, e, _) := run all_well 0 NewInMemoryScalerState (liveMigrateSandbox true 1 "sb" "src" "" false) in
  migrating m' = ∅ /\ (forall w, GetInFlight m' w = 0).
Proof.
  assert (forall w, 0 <= GetInFlight NewInMemoryScalerState w) as Hnn.
  { intros w. unfold GetInFlight. cbn. rewrite lookup_empty. reflexivity. }
  pose proof (liveMigrate_releases true all_well 0 NewInMemoryScalerState 1 "sb" "src" "" false Hnn) as H.
  destruct (run all_well 0 NewInMemoryScalerState _) as [[[m' n'] e] l]. destruct H as (H1 & H2 & _).
  split; [exact H1|]. intros w. rewrite H2. unfold GetInFlight. cbn. rewrite lookup_empty. reflexivity.
Defined.

(** The interleaving in which both migrations choose the same target. *)
Lemma migrate_batch_releases_witness :
  let '(m', _, _, _) := run all_well 0 NewInMemoryScalerState (migrate_batch true race 1 "src" ["sb-a"; "sb-b"]%string) in
  migrating m' = ∅ /\ (forall w, GetInFlight m' w = 0).
Proof.
  assert (forall w, 0 <= GetInFlight NewInMemoryScalerState w) as Hnn.
  { intros w. unfold GetInFlight. cbn. rewrite lookup_empty. reflexivity. }
  pose proof (migrate_batch_releases true all_well 0 NewInMemoryScalerState race 1 "src" ["sb-a"; "sb-b"]%string Hnn) as H.
  destruct (run all_well 0 NewInMemoryScalerState _) as [[[m' n'] e] l]. destruct H as (H1 & H2 & _).
  split; [exact H1|]. intros w. rewrite H2. unfold GetInFlight. cbn. rewrite lookup_empty. reflexivity.
Defined.

(** The termination of an empty worker. *)
Lemma replaceOneStale_safe_witness :
  exists l1 e l2,
    (run all_well 0 NewInMemoryScalerState (replaceOneStale true (fun _ => []) 3 1 10 "r" "src" "src-m" false)).2 = l1 ++ e :: l2 /\
    is_destroy e = true /\ cleared true "src" l1.
Proof.
  set (l := (run all_well 0 NewInMemoryScalerState (replaceOneStale true (fun _ => []) 3 1 10 "r" "src" "src-m" false)).2).
  assert (Hsplit : exists e, l = take 7 l ++ e :: drop 8 l /\ is_destroy e = true).
  { vm_compute. eexists. split; reflexivity. }
  destruct Hsplit as (e & Hl & He). exists (take 7 l), e, (drop 8 l). split; [exact Hl|]. split; [exact He|].
  apply (replaceOneStale_safe true all_well 0 NewInMemoryScalerState (fun _ => []) 3 1 10 "r" "src" "src-m" false (take 7 l) e (drop 8 l));
    [exact Hl|exact He].
Defined.

(** A running sandbox in the database. *)
Definition one_running : SessionStore.db :=
  {| SessionStore.sessions := [SessionStore.new_session 0 "sb" "org" "base" "iad" "src" "running" None];
     SessionStore.scale_events := []; SessionStore.hibernations := []; SessionStore.outbox := []; SessionStore.subscriptions := [] |}.

Definition row_place (d : SessionStore.db) : option (string * string) :=
  option_map (fun r => (SessionStore.status r, SessionStore.worker_id r)) (SessionStore.latest_session d "sb").


(** The completion of the row fails: the migration still returns success, and the row stays
    with the source, whose VM is gone. *)
Definition completion_unwritten : oracle := fun n R c =>
  match c in call R return R with
  | CompleteMigration _ _ => false
  | c => all_well n _ c
  end.

Lemma unwritten_completion_misplaces :
  let '(_, _, e, l) := run completion_unwritten 0 NewInMemoryScalerState (liveMigrateSandbox true 1 "sb" "src" "" false) in
  e = None /\ moved l = true /\ row_place (replay 1 l one_running) = Some ("migrating", "src")%string.
Proof. vm_compute. split_and!; reflexivity. Qed.

End Migration.
