(* ===== verification/OutboxRelay.v ===== *)
(** * The lifecycle outbox relay

    src/internal/controlplane/lifecycle_outbox_relay.go on the outbox of
    SessionStore.v. A tick runs [drainSafe]: read a batch, publish its events in
    order, delete the published ones, and go on while batches are full. What the
    relay cannot control is a [world]: which publishes succeed, which reads and
    deletes fail (the tick's one-minute context makes them fail once it
    expires) and which events other transactions record in between. *)

From S2P Require Import Prelude SessionStore.

Module OutboxRelay.
Export SessionStore.

Record world := {
  w_publish : nat -> bool;                       (* the n-th publish of the tick succeeds *)
  w_drain_ok : nat -> bool;                      (* the read of iteration i succeeds *)
  w_delete_ok : nat -> bool;                     (* the delete of iteration i succeeds *)
  w_recorded : nat -> list LifecycleEvent        (* recorded before iteration i *)
}.

(** Publish attempts, oldest first, with their outcome. *)
Abbreviation log := (list (LifecycleEvent * bool)).

(** The inner loop: publish each row; the ids that went out. *)
Fixpoint publish (w : world) (n : nat) (rows : list LifecycleEvent) : list string * log :=
  match rows with
  | [] => ([], [])
  | e :: rows =>
      let (sent, lg) := publish w (S n) rows in
      if w_publish w n then (ev_ID e :: sent, (e, true) :: lg) else (sent, (e, false) :: lg)
  end.

Definition record_all (evs l : list LifecycleEvent) : list LifecycleEvent :=
  fold_left (fun l e => recordLifecycleEvent e l) evs l.

(** The database, the log so far, and whether the function returned: it is
    still looping when the fuel [k] is used up. [i] counts iterations, [n]
    publishes. *)
Fixpoint drainSafe (k : nat) (w : world) (batch : nat) (i n : nat) (d : db) (lg : log) : db * log * bool :=
  match k with
  | O => (d, lg, false)
  | S k =>
      let d := with_outbox (record_all (w_recorded w i)) d in
      if w_drain_ok w i then
        let rows := DrainLifecycleOutbox d batch in
        match rows with
        | [] => (d, lg, true)
        | _ =>
            let (sent, lg1) := publish w n rows in
            let lg := lg ++ lg1 in
            match sent with
            | [] => if (length rows <? batch)%nat then (d, lg, true) else drainSafe k w batch (S i) (n + length rows) d lg
            | _ =>
                if w_delete_ok w i then
                  let d := DeleteLifecycleOutbox sent d in
                  if (length rows <? batch)%nat then (d, lg, true) else drainSafe k w batch (S i) (n + length rows) d lg
                else (d, lg, true)
            end
        end
      else (d, lg, true)
  end.

(** The relay's [batch]. *)
Definition relay_batch : nat := 100.

(** Ticks, each with its world and the iterations it runs for. *)
Definition ticks (batch : nat) (ws : list (world * nat)) (d : db) (lg : log) : db * log :=
  fold_left (fun '(d, lg) '(w, k) => fst (drainSafe k w batch 0 0 d lg)) ws (d, lg).

(** ** Facts *)

Definition out_ids (d : db) : list string := map ev_ID (outbox d).

(** The ids that were published. *)
Definition published (lg : log) : list string := map (fun x => ev_ID (fst x)) (List.filter snd lg).

Lemma published_app l k : published (l ++ k) = published l ++ published k.
Proof. unfold published. by rewrite List.filter_app, map_app. Qed.

Lemma record_ids e l : (forall x, In x (map ev_ID (recordLifecycleEvent e l)) <-> In x (map ev_ID l) \/ x = ev_ID e) /\
  (NoDup (map ev_ID l) -> NoDup (map ev_ID (recordLifecycleEvent e l))).
Proof.
  unfold recordLifecycleEvent. destruct (existsb _ l) eqn:E.
  - split; [|done]. intros x. split; [auto|]. intros [H| ->]; [done|].
    apply existsb_exists in E as (y & Hy & Heq). apply String.eqb_eq in Heq. rewrite <- Heq. by apply in_map.
  - rewrite map_app. split.
    + intros x. rewrite in_app_iff. cbn. intuition congruence.
    + intros Hnd. apply NoDup_app. split_and!; [done| |apply NoDup_singleton].
      intros x Hx Hx'. apply list_elem_of_singleton in Hx'. subst x. rewrite list_elem_of_In in Hx.
      apply in_map_iff in Hx as (y & Hy & Hin).
      assert (existsb (fun e0 => same (ev_ID e0) (ev_ID e)) l = true) as E'; [|by rewrite E in E'].
      apply existsb_exists. exists y. split; [done|]. by apply String.eqb_eq.
Qed.

Lemma record_all_ids evs l :
  (forall x, In x (map ev_ID (record_all evs l)) <-> In x (map ev_ID l) \/ In x (map ev_ID evs)) /\
  (NoDup (map ev_ID l) -> NoDup (map ev_ID (record_all evs l))).
Proof.
  unfold record_all. revert l. induction evs as [|e evs IH]; intros l; cbn [fold_left map In]; [split; [tauto|done]|].
  destruct (IH (recordLifecycleEvent e l)) as [H1 H2]. destruct (record_ids e l) as [H3 H4]. split; [|auto].
  intros x. rewrite H1, H3. intuition congruence.
Qed.

Lemma publish_spec w n rows sent lg :
  publish w n rows = (sent, lg) -> map fst lg = rows /\ sent = published lg.
Proof.
  revert n sent lg. induction rows as [|e rows IH]; intros n sent lg H; cbn [publish] in H; [by simplify_eq|].
  destruct (publish w (S n) rows) as [s l] eqn:E. destruct (IH _ _ _ E) as [<- ->].
  destruct (w_publish w n); simplify_eq; done.
Qed.

(** Every id of [S] is waiting or has been published. *)
Definition accounted (S : list string) (d : db) (lg : log) : Prop :=
  forall x, In x S -> In x (out_ids d) \/ In x (published lg).

Lemma delete_ids sent d x : In x (out_ids (DeleteLifecycleOutbox sent d)) <-> In x (out_ids d) /\ ~ In x sent.
Proof.
  unfold out_ids, DeleteLifecycleOutbox. cbn. rewrite !in_map_iff. split.
  - intros (e & <- & He). apply filter_In in He as [He Hn]. apply negb_true_iff in Hn. split; [eauto|].
    intros Hs. assert (is_in (ev_ID e) sent = true) as Hi; [|by rewrite Hi in Hn].
    apply existsb_exists. exists (ev_ID e). by rewrite String.eqb_refl.
  - intros [(e & <- & He) Hn]. exists e. split; [done|]. apply filter_In. split; [done|]. apply negb_true_iff.
    destruct (is_in (ev_ID e) sent) eqn:E; [|done]. apply existsb_exists in E as (y & Hy & Heq). apply String.eqb_eq in Heq. by subst.
Qed.

Lemma accounted_record S evs d lg : accounted S d lg -> accounted S (with_outbox (record_all evs) d) lg.
Proof.
  intros H x Hx. destruct (H x Hx) as [|]; [|auto]. left. unfold out_ids. cbn. apply (record_all_ids evs (outbox d)). by left.
Qed.

(** A tick never loses an event: what leaves the outbox was published. *)
Lemma drainSafe_accounted k w batch i n d lg d' lg' b S :
  drainSafe k w batch i n d lg = (d', lg', b) -> accounted S d lg -> accounted S d' lg'.
Proof.
  revert i n d lg. induction k as [|k IH]; intros i n d lg H HS; cbn [drainSafe] in H; [by simplify_eq|].
  apply (accounted_record _ (w_recorded w i)) in HS. revert H. set (d1 := with_outbox (record_all (w_recorded w i)) d) in *.
  destruct (w_drain_ok w i); [|intros; by simplify_eq].
  destruct (DrainLifecycleOutbox d1 batch) as [|e rows] eqn:Er; [intros; by simplify_eq|]. rewrite <- Er.
  destruct (publish w n (DrainLifecycleOutbox d1 batch)) as [sent lg1] eqn:Ep. apply publish_spec in Ep as [_ Hs].
  assert (accounted S d1 (lg ++ lg1)) as HS1.
  { intros x Hx. rewrite published_app, in_app_iff. destruct (HS x Hx); auto. }
  assert (accounted S (DeleteLifecycleOutbox sent d1) (lg ++ lg1)) as HS2.
  { intros x Hx. destruct (HS1 x Hx); [|auto]. destruct (in_dec String.string_dec x sent) as [Hin|Hn].
    - right. rewrite published_app, in_app_iff. right. by rewrite <- Hs.
    - left. by apply delete_ids. }
  destruct sent as [|s sent]; [|destruct (w_delete_ok w i); [|intros; by simplify_eq]];
    (destruct (_ <? _)%nat; [intros; by simplify_eq|eauto]).
Qed.

Lemma delete_unique sent d : NoDup (out_ids d) -> NoDup (out_ids (DeleteLifecycleOutbox sent d)).
Proof.
  unfold out_ids. cbn [outbox DeleteLifecycleOutbox with_outbox]. induction (outbox d) as [|e l IHl]; [done|]. cbn [map List.filter].
  intros Hnd. inversion Hnd as [|? ? Hx Hl]; subst. destruct (negb _); [|auto]. cbn. constructor; [|auto].
  intros Hin. apply Hx. rewrite list_elem_of_In in Hin |- *. apply in_map_iff in Hin as (y & <- & Hy). apply filter_In in Hy as [Hy _].
  by apply in_map.
Qed.

Lemma drainSafe_unique k w batch i n d lg d' lg' b :
  drainSafe k w batch i n d lg = (d', lg', b) -> NoDup (out_ids d) -> NoDup (out_ids d').
Proof.
  revert i n d lg. induction k as [|k IH]; intros i n d lg H Hnd; cbn [drainSafe] in H; [by simplify_eq|].
  assert (NoDup (out_ids (with_outbox (record_all (w_recorded w i)) d))) as Hnd1 by by apply record_all_ids.
  revert H. set (d1 := with_outbox (record_all (w_recorded w i)) d) in *.
  assert (forall sent, NoDup (out_ids (DeleteLifecycleOutbox sent d1))) as Hnd2 by (intros; by apply delete_unique).
  repeat case_goal; intros H'; simplify_eq; eauto.
Qed.

(** A world in which everything works and nothing new arrives. *)
Definition good (w : world) : Prop :=
  forall i, w_publish w i = true /\ w_drain_ok w i = true /\ w_delete_ok w i = true /\ w_recorded w i = [].

Lemma publish_good w n rows : good w -> publish w n rows = (map ev_ID rows, map (fun e => (e, true)) rows).
Proof.
  intros Hw. revert n. induction rows as [|e rows IH]; intros n; [done|]. cbn [publish map]. rewrite IH.
  by destruct (Hw n) as [-> _].
Qed.

Lemma filter_none {A} (P : A -> bool) l : (forall e, In e l -> P e = false) -> List.filter P l = [].
Proof. intros H. induction l as [|e l IH]; [done|]. cbn. rewrite (H e (or_introl eq_refl)). apply IH. intros; apply H; by right. Qed.

Lemma filter_all {A} (P : A -> bool) l : (forall e, In e l -> P e = true) -> List.filter P l = l.
Proof.
  intros H. induction l as [|e l IH]; [done|]. cbn. rewrite (H e (or_introl eq_refl)). f_equal. apply IH. intros; apply H; by right.
Qed.

Lemma delete_batch batch d :
  NoDup (out_ids d) -> outbox (DeleteLifecycleOutbox (map ev_ID (take batch (outbox d))) d) = drop batch (outbox d).
Proof.
  intros Hnd. unfold out_ids in Hnd. cbn [outbox DeleteLifecycleOutbox with_outbox].
  rewrite <- (take_drop batch (outbox d)) in Hnd. rewrite map_app in Hnd. apply NoDup_app in Hnd as (_ & Hdisj & _).
  set (P := fun e => negb (is_in (ev_ID e) _)).
  assert (List.filter P (take batch (outbox d) ++ drop batch (outbox d)) = drop batch (outbox d)) as H;
    [|by rewrite take_drop in H].
  rewrite List.filter_app, filter_none, filter_all; [done| |].
  - intros e He. apply negb_true_iff. destruct (is_in _ _) eqn:E; [|done]. exfalso.
    apply existsb_exists in E as (y & Hy & Heq). apply String.eqb_eq in Heq. subst y.
    apply (Hdisj (ev_ID e)); rewrite list_elem_of_In; [done|by apply in_map].
  - intros e He. apply negb_false_iff. apply existsb_exists. exists (ev_ID e). split; [by apply in_map|apply String.eqb_refl].
Qed.

Lemma drain_all k w batch i n d lg :
  good w -> NoDup (out_ids d) -> (0 < batch)%nat -> (length (outbox d) < k)%nat ->
  exists d', drainSafe k w batch i n d lg = (d', lg ++ map (fun e => (e, true)) (outbox d), true) /\ outbox d' = [].
Proof.
  intros Hw. revert i n d lg. induction k as [|k IH]; intros i n d lg Hnd Hb Hk; [lia|]. cbn [drainSafe].
  destruct (Hw i) as (_ & -> & -> & ->).
  assert (with_outbox (record_all []) d = d) as -> by (by destruct d).
  unfold DrainLifecycleOutbox. destruct (take batch (outbox d)) as [|e rows] eqn:Er.
  - exists d. destruct (outbox d) as [|x l] eqn:Ex; [by rewrite app_nil_r|]. destruct batch; [lia|done].
  - rewrite <- Er, publish_good by done. rewrite Er. cbn [map].
    change (ev_ID e :: map ev_ID rows) with (map ev_ID (e :: rows)).
    change ((e, true) :: map (fun e => (e, true)) rows) with (map (fun e => (e, true)) (e :: rows)). rewrite <- Er.
    pose proof (delete_batch batch d Hnd) as Hdel. set (d1 := DeleteLifecycleOutbox _ d) in *.
    assert (length (take batch (outbox d)) <> 0%nat) as Hlen by (by rewrite Er).
    destruct (Nat.ltb_spec (length (take batch (outbox d))) batch) as [Hlt|Hge].
    + exists d1. rewrite length_take in Hlt. rewrite take_ge by lia. split; [done|]. rewrite Hdel. apply drop_ge. lia.
    + destruct (IH (S i) (n + length (take batch (outbox d)))%nat d1 (lg ++ map (fun e => (e, true)) (take batch (outbox d))))
        as (d' & Hd' & Ho).
      * by apply delete_unique.
      * done.
      * rewrite Hdel, length_drop. rewrite length_take in *. lia.
      * exists d'. rewrite Hd', Hdel. split; [|done]. by rewrite <- app_assoc, <- map_app, take_drop.
Qed.

(** C38. The relay loses nothing and eventually delivers: whatever happened in any
    earlier ticks (publishes that failed, reads and deletes that failed, ticks cut
    short, events recorded in between), after one tick in which the database and
    the stream work, the outbox is empty and every event that was in it before
    those ticks has been published; and that tick's [drainSafe] returns, having published what it
    found in the order of the outbox. *)
Theorem relay_delivers batch ws w k d lg :
  good w -> (0 < batch)%nat -> NoDup (out_ids d) ->
  let '(d1, lg1) := ticks batch ws d lg in
  (length (outbox d1) < k)%nat ->
  exists d', drainSafe k w batch 0 0 d1 lg1 = (d', lg1 ++ map (fun e => (e, true)) (outbox d1), true) /\ outbox d' = [] /\
    (forall x, In x (out_ids d) -> In x (published (lg1 ++ map (fun e => (e, true)) (outbox d1)))).
Proof.
  intros Hw Hb Hnd.
  assert (forall ws d0 lg0, NoDup (out_ids d0) -> accounted (out_ids d) d0 lg0 ->
    NoDup (out_ids (fst (ticks batch ws d0 lg0))) /\ accounted (out_ids d) (fst (ticks batch ws d0 lg0)) (snd (ticks batch ws d0 lg0))) as Hticks.
  { clear -Hb. induction ws as [|[w k] ws IH]; intros d0 lg0 Hn Ha; [done|]. unfold ticks. cbn [fold_left].
    destruct (drainSafe k w batch 0 0 d0 lg0) as [[d1 lg1] b] eqn:E. cbn [fst].
    apply IH; [by eapply drainSafe_unique|by eapply drainSafe_accounted]. }
  destruct (Hticks ws d lg Hnd) as [Hn Ha]; [by intros x Hx; left|].
  destruct (ticks batch ws d lg) as [d1 lg1]. cbn [fst snd] in *. intros Hk.
  destruct (drain_all k w batch 0 0 d1 lg1) as (d' & Hd & Ho); try done. exists d'. split_and!; [done|done|].
  intros x Hx. pose proof (drainSafe_accounted _ _ _ _ _ _ _ _ _ _ _ Hd Ha x Hx) as [Hin|]; [|done].
  unfold out_ids in Hin. by rewrite Ho in Hin.
Qed.

Definition ev (id : string) : LifecycleEvent :=
  {| ev_ID := id; ev_OrgID := "org"; ev_SandboxID := "sb"; ev_Type := "sandbox.stopped"; ev_Data := NoData; ev_Ts := 1 |}.

(** Two events; in the first tick only the second publish succeeds, and a third
    event arrives. *)
Lemma relay_delivers_witness :
  let d := {| sessions := []; scale_events := []; hibernations := []; outbox := [ev "a"; ev "b"]; subscriptions := [] |} in
  let bad := {| w_publish := fun n => (n =? 1)%nat; w_drain_ok := fun _ => true; w_delete_ok := fun _ => true;
                w_recorded := fun i => if (i =? 1)%nat then [ev "c"] else [] |} in
  let w := {| w_publish := fun _ => true; w_drain_ok := fun _ => true; w_delete_ok := fun _ => true; w_recorded := fun _ => [] |} in
  match ticks 2 [(bad, 2%nat)] d [] with
  | (d1, lg1) => exists d', drainSafe 3 w 2 0 0 d1 lg1 = (d', lg1 ++ map (fun e => (e, true)) (outbox d1), true) /\ outbox d' = [] /\
      map ev_ID (outbox d1) = ["a"; "c"]%string
  end.
Proof.
  intros d bad w. pose proof (relay_delivers 2 [(bad, 2%nat)] w 3 d []) as H.
  destruct (ticks 2 [(bad, 2%nat)] d []) as [d1 lg1] eqn:E. vm_compute in E. injection E as <- <-.
  destruct H as (d' & H1 & H2 & _); [by intros i|lia| |cbn; lia|].
  - vm_compute. repeat constructor; intros H; inversion H; subst; by match goal with H : _ ∈ _ |- _ => inversion H end.
  - exists d'. split; [exact H1|]. split; [exact H2|]. reflexivity.
Defined.

(** When the stream is down and a full batch is waiting, [drainSafe] does not
    leave the events to the next tick: it publishes the same batch again and
    again, and never returns while the reads succeed. *)
Theorem relay_spins k w batch d lg :
  (forall i, w_publish w i = false) -> (forall i, w_drain_ok w i = true) -> (forall i, w_recorded w i = []) ->
  (0 < batch)%nat -> (batch <= length (outbox d))%nat ->
  let '(d', lg', returned) := drainSafe k w batch 0 0 d lg in
  d' = d /\ returned = false /\ length lg' = (length lg + k * batch)%nat.
Proof.
  intros Hp Hr Hn Hb Hlen.
  assert (forall n rows, publish w n rows = ([], map (fun e => (e, false)) rows)) as Hpub.
  { intros n rows. revert n. induction rows as [|e rows IH]; intros n; [done|]. cbn [publish map]. by rewrite IH, Hp. }
  assert (forall i n lg, let '(d', lg', returned) := drainSafe k w batch i n d lg in
    d' = d /\ returned = false /\ length lg' = (length lg + k * batch)%nat) as H; [|apply H].
  induction k as [|k IH]; intros i n lg0; cbn [drainSafe]; [split_and!; [done|done|lia]|].
  rewrite Hr, Hn. assert (with_outbox (record_all []) d = d) as -> by (by destruct d).
  unfold DrainLifecycleOutbox. destruct (take batch (outbox d)) as [|e rows] eqn:Et.
  { apply (f_equal length) in Et. rewrite length_take in Et. cbn in Et. lia. }
  rewrite <- Et, Hpub. assert (length (take batch (outbox d)) = batch) as -> by (rewrite length_take; lia).
  rewrite Nat.ltb_irrefl. specialize (IH (S i) (n + batch)%nat (lg0 ++ map (fun e => (e, false)) (take batch (outbox d)))).
  destruct (drainSafe _ _ _ _ _ _ _) as [[d' lg'] r]. destruct IH as (-> & -> & ->). split_and!; [done|done|].
  rewrite length_app, length_map, length_take. lia.
Qed.

Lemma relay_spins_witness :
  let d := {| sessions := []; scale_events := []; hibernations := []; outbox := [ev "a"; ev "b"]; subscriptions := [] |} in
  let w := {| w_publish := fun _ => false; w_drain_ok := fun _ => true; w_delete_ok := fun _ => true; w_recorded := fun _ => [] |} in
  match drainSafe 1000 w 2 0 0 d [] with (d', lg', returned) => d' = d /\ returned = false /\ length lg' = (length (@nil (LifecycleEvent * bool)) + 1000 * 2)%nat end.
Proof. intros d w. apply (relay_spins 1000 w 2 d []); [done|done|done|lia|cbn; lia]. Defined.

End OutboxRelay.
