(* ===== verification/Registry.v ===== *)
(** * The worker registry

    src/internal/controlplane/redis_registry.go and capacity_reporter.go. Each
    control plane caches the workers' heartbeats; what the control planes share
    is in Redis: the drain markers, the placement counters and the round-robin
    counter. A gRPC connection is the address it was dialled to; its state, and
    whether dialling works, are inputs. Go's map iteration order is an input
    too ([order]). *)

From S2P Require Import Prelude GoFloat Scaler.
From Stdlib Require Import SpecFloat.
Import GoFloat.
#[local] Open Scope Z_scope.

Module Registry.

Record SandboxStats := { MemUsage : Z; MemLimit : Z; s_MemPct : float64; s_CPUPct : float64 }.

Record WorkerEntry := {
  ID : string; MachineID : string; Region : string; GRPCAddr : string; HTTPAddr : string;
  Capacity : Z; Current : Z; CPUPct : float64; MemPct : float64; DiskPct : float64;
  TotalMemoryMB : Z; CommittedMemoryMB : Z; GoldenVersion : string; WorkerVersion : string;
  Draining : bool; Sandboxes : gmap string SandboxStats
}.

(** [conns] and [clients] always have the same keys; a connection is known by
    the address it was dialled to. [rejoined]: the callbacks fired. *)
Record RedisWorkerRegistry := {
  workers : gmap string WorkerEntry; conns : gmap string string;
  sandboxStats : gmap string SandboxStats; sandboxOnWorker : gmap string string;
  rejoined : list string
}.

Inductive connectivity := Idle | Connecting | Ready | TransientFailure | Shutdown.

Definition is_dead (c : connectivity) : bool := match c with TransientFailure | Shutdown => true | _ => false end.
Definition is_idle (c : connectivity) : bool := match c with Idle => true | _ => false end.

Definition routingHardCapPct : float64 := of_int 85.

(** ** Heartbeats *)

Definition keep (new old : string) : string := if String.eqb new "" then old else new.

(** The fields of an existing entry a heartbeat overwrites. *)
Definition refresh (existing entry : WorkerEntry) (drainOverride : bool) : WorkerEntry :=
  {| ID := ID existing; MachineID := keep (MachineID entry) (MachineID existing); Region := Region existing;
     GRPCAddr := keep (GRPCAddr entry) (GRPCAddr existing); HTTPAddr := keep (HTTPAddr entry) (HTTPAddr existing);
     Capacity := Capacity entry; Current := Current entry; CPUPct := CPUPct entry; MemPct := MemPct entry;
     DiskPct := DiskPct entry; TotalMemoryMB := TotalMemoryMB entry; CommittedMemoryMB := CommittedMemoryMB entry;
     GoldenVersion := keep (GoldenVersion entry) (GoldenVersion existing);
     WorkerVersion := keep (WorkerVersion entry) (WorkerVersion existing); Draining := drainOverride;
     Sandboxes := Sandboxes existing |}.

Definition set_draining (w : WorkerEntry) (b : bool) : WorkerEntry :=
  {| ID := ID w; MachineID := MachineID w; Region := Region w; GRPCAddr := GRPCAddr w; HTTPAddr := HTTPAddr w;
     Capacity := Capacity w; Current := Current w; CPUPct := CPUPct w; MemPct := MemPct w; DiskPct := DiskPct w;
     TotalMemoryMB := TotalMemoryMB w; CommittedMemoryMB := CommittedMemoryMB w; GoldenVersion := GoldenVersion w;
     WorkerVersion := WorkerVersion w; Draining := b; Sandboxes := Sandboxes w |}.

Definition set_current (w : WorkerEntry) (n : Z) : WorkerEntry :=
  {| ID := ID w; MachineID := MachineID w; Region := Region w; GRPCAddr := GRPCAddr w; HTTPAddr := HTTPAddr w;
     Capacity := Capacity w; Current := n; CPUPct := CPUPct w; MemPct := MemPct w; DiskPct := DiskPct w;
     TotalMemoryMB := TotalMemoryMB w; CommittedMemoryMB := CommittedMemoryMB w; GoldenVersion := GoldenVersion w;
     WorkerVersion := WorkerVersion w; Draining := Draining w; Sandboxes := Sandboxes w |}.

(** The per-sandbox index: add what the heartbeat carries, forget what it no
    longer does. *)
Definition index_owner (entry : WorkerEntry) (own : gmap string string) : gmap string string :=
  let own := (const (ID entry) <$> Sandboxes entry) ∪ own in
  filter (fun kv => ~ (snd kv = ID entry /\ Sandboxes entry !! fst kv = None)) own.

Definition index_stats (entry : WorkerEntry) (own : gmap string string) (stats : gmap string SandboxStats) :
  gmap string SandboxStats :=
  let own := (const (ID entry) <$> Sandboxes entry) ∪ own in
  let stats := Sandboxes entry ∪ stats in
  filter (fun kv => ~ (own !! fst kv = Some (ID entry) /\ Sandboxes entry !! fst kv = None)) stats.

(** [dialWorkerLocked]; [dial_ok]: credentials load and the client is made. *)
Definition dialWorkerLocked (dial_ok : bool) (id addr : string) (c : gmap string string) : gmap string string :=
  if dial_ok then <[id := addr]> c else c.

(** The connection step. [existing] is the entry as the update left it: a
    pointer into the map, so its address is already the heartbeat's. *)
Definition ensure_conn (existing : option WorkerEntry) (entry : WorkerEntry) (state : connectivity) (dial_ok : bool)
    (c : gmap string string) : gmap string string :=
  if String.eqb (GRPCAddr entry) "" then c
  else
    match c !! ID entry with
    | Some _ =>
        let addrChanged := match existing with Some e => negb (String.eqb (GRPCAddr e) (GRPCAddr entry)) | None => false end in
        let isNewWorker := match existing with None => true | Some _ => false end in
        if addrChanged || is_dead state || (is_idle state && isNewWorker)
        then dialWorkerLocked dial_ok (ID entry) (GRPCAddr entry) (delete (ID entry) c)
        else c
    | None => dialWorkerLocked dial_ok (ID entry) (GRPCAddr entry) c
    end.

(** [drainOverride]: the drain marker exists in Redis ([false] also when the
    read fails); [state]: of the connection there is. *)
Definition handleHeartbeat (r : RedisWorkerRegistry) (entry : WorkerEntry) (drainOverride : bool)
    (state : connectivity) (dial_ok : bool) : RedisWorkerRegistry :=
  let existing := option_map (fun e => refresh e entry drainOverride) (workers r !! ID entry) in
  {| workers := <[ID entry := default (set_draining entry drainOverride) existing]> (workers r);
     conns := ensure_conn existing entry state dial_ok (conns r);
     sandboxStats := index_stats entry (sandboxOnWorker r) (sandboxStats r);
     sandboxOnWorker := index_owner entry (sandboxOnWorker r);
     rejoined := match existing with None => rejoined r ++ [ID entry] | Some _ => rejoined r end |}.

(** Redis as a scan finds it: the heartbeats stored under [worker:*], and the
    outcome of the scan. *)
Record scan := { sc_entries : list (WorkerEntry * (bool * connectivity * bool)); sc_ok : bool }.

(** A scan that fails on a later page has already applied the earlier ones,
    and prunes nothing. *)
Definition reconcileAndPrune (r : RedisWorkerRegistry) (s : scan) : RedisWorkerRegistry :=
  let r := fold_left (fun r '(e, (drain, state, dial)) => handleHeartbeat r e drain state dial) (sc_entries s) r in
  if sc_ok s then
    let seen := map (fun x => ID (fst x)) (sc_entries s) in
    {| workers := filter (fun kv => fst kv ∈ seen) (workers r);
       conns := filter (fun kv => is_Some (workers r !! fst kv) -> fst kv ∈ seen) (conns r);
       sandboxStats := sandboxStats r; sandboxOnWorker := sandboxOnWorker r; rejoined := rejoined r |}
  else r.

Definition GetSandboxStats (r : RedisWorkerRegistry) (sb : string) : option (SandboxStats * string) :=
  match sandboxStats r !! sb with
  | Some s => Some (s, default ""%string (sandboxOnWorker r !! sb))
  | None => None
  end.

Definition GetWorker (r : RedisWorkerRegistry) (id : string) : option WorkerEntry := workers r !! id.

Definition GetAllWorkers (r : RedisWorkerRegistry) : list WorkerEntry := map snd (map_to_list (workers r)).

(** The client found, as the address it talks to, and the connections left. *)
Definition GetWorkerClient (r : RedisWorkerRegistry) (id : string) (state : connectivity) (dial_ok : bool) :
  option string * RedisWorkerRegistry :=
  match conns r !! id with
  | None => (None, r)
  | Some addr =>
      if is_dead state then
        let grpcAddr := match workers r !! id with Some w => GRPCAddr w | None => ""%string end in
        if String.eqb grpcAddr "" then (None, r)
        else
          let c := dialWorkerLocked dial_ok id grpcAddr (delete id (conns r)) in
          (c !! id, {| workers := workers r; conns := c; sandboxStats := sandboxStats r;
                       sandboxOnWorker := sandboxOnWorker r; rejoined := rejoined r |})
      else (Some addr, r)
  end.

(** The marker in Redis is [SetDraining_key]'s; [ok]: the write succeeds. *)
Definition SetDraining_key (keys : gset string) (id : string) (draining ok : bool) : gset string :=
  if ok then (if draining then {[id]} ∪ keys else keys ∖ {[id]}) else keys.

Definition SetDraining (r : RedisWorkerRegistry) (id : string) (draining : bool) : RedisWorkerRegistry :=
  {| workers := match workers r !! id with Some w => <[id := set_draining w draining]> (workers r) | None => workers r end;
     conns := conns r; sandboxStats := sandboxStats r; sandboxOnWorker := sandboxOnWorker r; rejoined := rejoined r |}.

Definition Stop (r : RedisWorkerRegistry) : RedisWorkerRegistry :=
  {| workers := workers r; conns := ∅; sandboxStats := sandboxStats r; sandboxOnWorker := sandboxOnWorker r;
     rejoined := rejoined r |}.

(** ** Placement *)

Definition eligible (region : string) (anyRegion : bool) (w : WorkerEntry) : bool :=
  negb (negb anyRegion && negb (String.eqb region "") && negb (String.eqb (Region w) region)) &&
  negb (Draining w) &&
  negb (fge (CPUPct w) routingHardCapPct || fge (MemPct w) routingHardCapPct || fge (DiskPct w) routingHardCapPct) &&
  negb (Capacity w <=? 0).

Section Placement.
Context (order : list WorkerEntry -> list WorkerEntry).

Definition collectEligibleLocked (r : RedisWorkerRegistry) (region : string) (anyRegion : bool) : list WorkerEntry :=
  List.filter (eligible region anyRegion) (order (GetAllWorkers r)).

Definition scoreWorker (w : WorkerEntry) : float64 :=
  fadd (fdiv (of_int (Current w)) (of_int (Capacity w))) (fdiv (MemPct w) (of_int 100)).

(** [1e-9], correctly rounded. *)
Definition tieEpsilon : float64 := of_frac 1 1000000000.

Definition minScore (ws : list WorkerEntry) (first : WorkerEntry) : float64 :=
  fold_left (fun m w => if flt (scoreWorker w) m then scoreWorker w else m) ws (scoreWorker first).

Definition tied (ws : list WorkerEntry) (first : WorkerEntry) : list WorkerEntry :=
  List.filter (fun w => flt (fsub (scoreWorker w) (minScore ws first)) tieEpsilon) ws.

(** The placement counters in Redis; [None] when the read fails or there is
    none. *)
Definition apply_count (counts : string -> option Z) (w : WorkerEntry) : WorkerEntry :=
  match counts (ID w) with
  | Some c => if Current w <? c then set_current w c else w
  | None => w
  end.

(** The workers a placement in [region] chooses among: the eligible ones of the
    region, or of any region when it has none. *)
Definition candidates (r : RedisWorkerRegistry) (region : string) : list WorkerEntry :=
  match collectEligibleLocked r region false with
  | [] => if String.eqb region "" then [] else collectEligibleLocked r region true
  | ws => ws
  end.

(** [rr]: what incrementing the round-robin counter returned (0 on an error).
    [None] is an error; the registry keeps the counts it read, since the
    candidates are pointers into it. *)
Definition GetLeastLoadedWorker (r : RedisWorkerRegistry) (region : string) (counts : string -> option Z) (rr : Z) :
  option (WorkerEntry * string) * RedisWorkerRegistry :=
  match map (apply_count counts) (candidates r region) with
  | [] => (None, r)
  | (first :: _) as ws =>
      let r1 := {| workers := fold_left (fun m w => <[ID w := w]> m) ws (workers r); conns := conns r;
                   sandboxStats := sandboxStats r; sandboxOnWorker := sandboxOnWorker r; rejoined := rejoined r |} in
      match tied ws first !! Z.to_nat (rr mod Z.of_nat (length (tied ws first))) with
      | None => (None, r1)
      | Some best =>
          match conns r !! ID best with
          | None => (None, r1)
          | Some addr =>
              let best := set_current best (Current best + 1) in
              (Some (best, addr), {| workers := <[ID best := best]> (workers r1); conns := conns r;
                 sandboxStats := sandboxStats r; sandboxOnWorker := sandboxOnWorker r; rejoined := rejoined r |})
          end
      end
  end.

(** ** What the scaler reads *)

Definition Regions (r : RedisWorkerRegistry) : list string := remove_dups (map Region (order (GetAllWorkers r))).

Definition info (w : WorkerEntry) : Scaler.WorkerInfo :=
  {| Scaler.wID := ID w; Scaler.wMachineID := MachineID w; Scaler.wRegion := Region w;
     Scaler.Capacity := Capacity w; Scaler.Current := Current w; Scaler.CPUPct := CPUPct w; Scaler.MemPct := MemPct w;
     Scaler.DiskPct := DiskPct w; Scaler.TotalMemoryMB := TotalMemoryMB w; Scaler.GoldenVersion := GoldenVersion w;
     Scaler.WorkerVersion := WorkerVersion w |}.

Definition GetWorkersByRegion (r : RedisWorkerRegistry) (region : string) : list Scaler.WorkerInfo :=
  map info (List.filter (fun w => String.eqb (Region w) region) (order (GetAllWorkers r))).

Definition fmax (a b : float64) : float64 := if fgt b a then b else a.

Definition RegionResourcePressure (r : RedisWorkerRegistry) (region : string) : float64 * float64 * float64 :=
  fold_left (fun '(c, m, d) w => (fmax c (Scaler.CPUPct w), fmax m (Scaler.MemPct w), fmax d (Scaler.DiskPct w)))
    (GetWorkersByRegion r region) (f0, f0, f0).

Definition RegionUtilization (r : RedisWorkerRegistry) (region : string) : float64 :=
  let ws := GetWorkersByRegion r region in
  let cap := foldr (fun w acc => Scaler.Capacity w + acc) 0 ws in
  let cur := foldr (fun w acc => Scaler.Current w + acc) 0 ws in
  match ws with [] => f0 | _ => if cap =? 0 then f0 else fdiv (of_int cur) (of_int cap) end.

(** ** The capacity report *)

Record capacityPayload := { HealthyWorkers : Z; AvailableWorkers : Z; RunningSandboxes : Z }.

Definition emit (r : RedisWorkerRegistry) : capacityPayload :=
  fold_left (fun p w =>
    if Draining w then p
    else {| HealthyWorkers := HealthyWorkers p + 1; RunningSandboxes := RunningSandboxes p + Current w;
            AvailableWorkers := AvailableWorkers p + (if flt (MemPct w) Scaler.memPressureThresholdPct then 1 else 0) |})
    (order (GetAllWorkers r)) {| HealthyWorkers := 0; AvailableWorkers := 0; RunningSandboxes := 0 |}.

End Placement.

(** ** Well-formed registries *)

Record wf (r : RedisWorkerRegistry) : Prop := {
  wf_ids : forall id w, workers r !! id = Some w -> ID w = id;
  wf_stats : forall sb, sandboxStats r !! sb = None <-> sandboxOnWorker r !! sb = None
}.

Definition new_registry : RedisWorkerRegistry :=
  {| workers := ∅; conns := ∅; sandboxStats := ∅; sandboxOnWorker := ∅; rejoined := [] |}.

Lemma new_wf : wf new_registry.
Proof. split; [done|]. done. Qed.

Lemma owner_lookup entry own sb :
  index_owner entry own !! sb =
  match Sandboxes entry !! sb with
  | Some _ => Some (ID entry)
  | None => match own !! sb with Some w => if bool_decide (w = ID entry) then None else Some w | None => None end
  end.
Proof.
  unfold index_owner. rewrite map_lookup_filter, lookup_union, lookup_fmap.
  destruct (Sandboxes entry !! sb) as [s|] eqn:E; cbn.
  - destruct (own !! sb); cbn; by rewrite option_guard_True by (cbn; rewrite E; by intros [_ ?]).
  - destruct (own !! sb) as [w|]; cbn; [|done]. case_bool_decide.
    + rewrite option_guard_False; [done|]. cbn. by intros [].
    + rewrite option_guard_True; [done|]. cbn. by intros [].
Qed.

Lemma stats_lookup entry own stats sb :
  index_stats entry own stats !! sb =
  match Sandboxes entry !! sb with
  | Some s => Some s
  | None => if bool_decide (own !! sb = Some (ID entry)) then None else stats !! sb
  end.
Proof.
  unfold index_stats. rewrite map_lookup_filter, lookup_union.
  destruct (Sandboxes entry !! sb) as [s|] eqn:E; cbn.
  - destruct (stats !! sb); cbn; by rewrite option_guard_True by (cbn; rewrite E; by intros [_ ?]).
  - destruct (stats !! sb) as [s|]; cbn; [|by case_bool_decide].
    rewrite lookup_union, lookup_fmap, E. cbn. replace (None ∪ own !! sb) with (own !! sb) by (by destruct (own !! sb)). case_bool_decide.
    + rewrite option_guard_False; [done|]. by intros [].
    + rewrite option_guard_True; [done|]. by intros [].
Qed.

Lemma heartbeat_wf r e drain state dial : wf r -> wf (handleHeartbeat r e drain state dial).
Proof.
  intros [Hid Hst]. split; cbn [workers handleHeartbeat sandboxStats sandboxOnWorker].
  - intros id w. rewrite lookup_insert_Some. intros [[<- <-]|[_ Hw]]; [|by apply Hid].
    destruct (workers r !! ID e) as [x|] eqn:E; cbn; [by apply Hid|done].
  - intros sb. rewrite stats_lookup, owner_lookup. destruct (Sandboxes e !! sb); [done|]. specialize (Hst sb).
    destruct (sandboxOnWorker r !! sb) as [w|] eqn:E.
    + repeat case_bool_decide; simplify_eq; try done.
    + rewrite bool_decide_false by done. done.
Qed.

Lemma reconcile_wf r s : wf r -> wf (reconcileAndPrune r s).
Proof.
  intros Hr. unfold reconcileAndPrune.
  assert (forall l r, wf r -> wf (fold_left (fun r '(e, (drain, state, dial)) => handleHeartbeat r e drain state dial) l r)) as Hf.
  { induction l as [|[e [[drain state] dial]] l IH]; intros r0 H0; [done|]. apply IH. by apply heartbeat_wf. }
  specialize (Hf (sc_entries s) r Hr). destruct (sc_ok s); [|done]. destruct Hf as [Hid Hst]. split; [|done].
  intros id w. cbn [workers]. rewrite map_lookup_filter_Some. intros [Hw _]. by apply Hid.
Qed.

Lemma SetDraining_wf r id b : wf r -> wf (SetDraining r id b).
Proof.
  intros [Hid Hst]. split; [|done]. intros i w. cbn [workers SetDraining]. destruct (workers r !! id) as [x|] eqn:E; [|apply Hid].
  rewrite lookup_insert_Some. intros [[<- <-]|[_ Hw]]; [exact (Hid _ _ E)|by apply Hid].
Qed.

(** The index of per-sandbox statistics follows the heartbeats: after one, a
    sandbox it carries is reported with its statistics on that worker, a sandbox
    the index had on that worker and the heartbeat no longer carries is
    forgotten, and every other sandbox is reported as before. The registry is
    well formed throughout (entries under their own name, the two indexes with
    the same keys). *)
Theorem heartbeat_indexes r e drain state dial sb :
  wf r ->
  let r' := handleHeartbeat r e drain state dial in
  wf r' /\
  GetSandboxStats r' sb =
  match Sandboxes e !! sb with
  | Some s => Some (s, ID e)
  | None => if bool_decide (sandboxOnWorker r !! sb = Some (ID e)) then None else GetSandboxStats r sb
  end.
Proof.
  intros Hr r'. split; [by apply heartbeat_wf|]. destruct Hr as [_ Hst]. specialize (Hst sb). unfold GetSandboxStats.
  cbn [r' handleHeartbeat sandboxStats sandboxOnWorker]. rewrite stats_lookup, owner_lookup.
  destruct (Sandboxes e !! sb); [done|]. case_bool_decide as E; [done|].
  destruct (sandboxStats r !! sb); [|done]. destruct (sandboxOnWorker r !! sb) as [w|]; [|done].
  rewrite bool_decide_false; [done|]. by intros ->.
Qed.

Definition entry0 (id addr : string) (sbs : gmap string SandboxStats) : WorkerEntry :=
  {| ID := id; MachineID := ""; Region := "eu"; GRPCAddr := addr; HTTPAddr := ""; Capacity := 10; Current := 1;
     CPUPct := of_int 5; MemPct := of_int 10; DiskPct := of_int 5; TotalMemoryMB := 0; CommittedMemoryMB := 0;
     GoldenVersion := ""; WorkerVersion := ""; Draining := false; Sandboxes := sbs |}.

Definition stats0 : SandboxStats := {| MemUsage := 1; MemLimit := 2; s_MemPct := of_int 50; s_CPUPct := of_int 1 |}.

Lemma heartbeat_indexes_witness :
  let r := handleHeartbeat new_registry (entry0 "w1" "a:1" {["sb" := stats0]}) false Ready true in
  wf (handleHeartbeat r (entry0 "w1" "a:1" ∅) false Ready true) /\
  GetSandboxStats r "sb" = Some (stats0, "w1"%string) /\
  GetSandboxStats (handleHeartbeat r (entry0 "w1" "a:1" ∅) false Ready true) "sb" = None.
Proof.
  intros r. assert (wf r) as Hr by apply heartbeat_wf, new_wf.
  split; [|split]; [|vm_compute; reflexivity|].
  - exact (proj1 (heartbeat_indexes r (entry0 "w1" "a:1" ∅) false Ready true "sb" Hr)).
  - rewrite (proj2 (heartbeat_indexes r (entry0 "w1" "a:1" ∅) false Ready true "sb" Hr)). vm_compute. reflexivity.
Defined.

(** *** Two faults *)

(** A new address is not dialled while the old connection looks alive: the
    entry was updated through the pointer before the comparison. *)
Lemma address_change_not_dialled r e old addr drain state dial :
  workers r !! ID e = Some old -> conns r !! ID e = Some addr -> GRPCAddr e <> ""%string -> is_dead state = false ->
  let r' := handleHeartbeat r e drain state dial in
  option_map GRPCAddr (GetWorker r' (ID e)) = Some (GRPCAddr e) /\
  fst (GetWorkerClient r' (ID e) state dial) = Some addr.
Proof.
  intros Hw Hc Ha Hs r'. unfold GetWorker, GetWorkerClient, r'. cbn [workers conns handleHeartbeat]. rewrite Hw, lookup_insert_eq.
  unfold ensure_conn. rewrite (proj2 (String.eqb_neq _ _) Ha), Hc. cbn [option_map].
  assert (GRPCAddr (refresh old e drain) = GRPCAddr e) as Hg.
  { cbn. unfold keep. by rewrite (proj2 (String.eqb_neq _ _) Ha). }
  rewrite Hg, String.eqb_refl, Hs, andb_false_r. cbn [negb orb]. rewrite Hc, ?Hs. change (default (set_draining e drain) (Some (refresh old e drain))) with (refresh old e drain). rewrite Hg. by destruct (is_idle state).
Qed.

(** Statistics outlive their worker: a scan that prunes a worker leaves what it
    last reported. *)
Lemma stats_outlive_worker r sb : GetSandboxStats (reconcileAndPrune r {| sc_entries := []; sc_ok := true |}) sb = GetSandboxStats r sb /\
  GetAllWorkers (reconcileAndPrune r {| sc_entries := []; sc_ok := true |}) = [].
Proof.
  split; [done|]. unfold GetAllWorkers, reconcileAndPrune. cbn [sc_entries sc_ok fold_left workers map].
  assert (filter (fun kv : string * WorkerEntry => fst kv ∈ []) (workers r) = ∅) as ->.
  { apply map_empty. intros i. apply map_lookup_filter_None. right. intros x _ H. by apply elem_of_nil in H. }
  by rewrite map_to_list_empty.
Qed.

(** ** Placement *)

Lemma minScore_aux ws m0 :
  let m := fold_left (fun m w => if flt (scoreWorker w) m then scoreWorker w else m) ws m0 in
  (m = m0 \/ (flt m m0 = true /\ exists w, In w ws /\ m = scoreWorker w)) /\ (forall w, In w ws -> flt (scoreWorker w) m = false).
Proof.
  revert m0. induction ws as [|w ws IH]; intros m0; cbn [fold_left In]; [split; [by left|done]|].
  destruct (flt (scoreWorker w) m0) eqn:E.
  - destruct (IH (scoreWorker w)) as [Hm Hall]. set (m := fold_left _ _ _) in *. split.
    + right. destruct Hm as [->|(Hlt & v & Hv & ->)]; [by eauto|]. split; [by eapply flt_trans|eauto].
    + intros u [<-|Hu]; [|auto]. destruct Hm as [->|[Hlt _]]; [apply flt_irrefl|by apply flt_asym].
  - destruct (IH m0) as [Hm Hall]. set (m := fold_left _ _ _) in *. split.
    + destruct Hm as [->|(Hlt & v & Hv & ->)]; [by left|right; eauto].
    + intros u [<-|Hu]; [|auto]. destruct Hm as [->|[Hlt _]]; [done|].
      destruct (flt (scoreWorker w) m) eqn:E'; [|done]. by rewrite (flt_trans _ _ _ E' Hlt) in E.
Qed.

(** The minimum is the score of a candidate, and no candidate scores less. *)
Lemma minScore_spec first ws :
  (exists w, In w (first :: ws) /\ minScore (first :: ws) first = scoreWorker w) /\
  (forall w, In w (first :: ws) -> flt (scoreWorker w) (minScore (first :: ws) first) = false).
Proof.
  unfold minScore. destruct (minScore_aux (first :: ws) (scoreWorker first)) as [Hm Hall]. split; [|done].
  destruct Hm as [->|(_ & w & Hw & ->)]; [exists first; split; [by left|done]|eauto].
Qed.

Lemma tied_nonempty first ws :
  (forall w, In w (first :: ws) -> finite (scoreWorker w) = true) -> tied (first :: ws) first <> [].
Proof.
  intros Hf. destruct (minScore_spec first ws) as [(w & Hw & Hm) _]. intros Ht.
  assert (In w (tied (first :: ws) first)) as Hin; [|by rewrite Ht in Hin].
  apply filter_In. split; [done|]. rewrite Hm. destruct (fsub_diag _ (Hf w Hw)) as [s ->]. by destruct s.
Qed.

Lemma candidates_eligible order r region w :
  (forall l, order l ≡ₚ l) -> In w (candidates order r region) ->
  In w (GetAllWorkers r) /\ eligible region true w = true /\
  ((exists v, In v (GetAllWorkers r) /\ eligible region false v = true) -> eligible region false w = true).
Proof.
  intros Ho. assert (forall b x, In x (collectEligibleLocked order r region b) <-> In x (GetAllWorkers r) /\ eligible region b x = true) as Hc.
  { intros b x. unfold collectEligibleLocked. rewrite filter_In, <- !list_elem_of_In, Ho. done. }
  assert (forall x, eligible region false x = true -> eligible region true x = true) as Hweak.
  { intros x. unfold eligible. rewrite !andb_true_iff. cbn [negb andb]. tauto. }
  unfold candidates. destruct (collectEligibleLocked order r region false) as [|v vs] eqn:E.
  - destruct (String.eqb region ""); [done|]. rewrite Hc. intros [Hw He]. split_and!; [done|done|].
    intros (x & Hx & Hx'). assert (In x (collectEligibleLocked order r region false)) as Hin by by apply Hc. by rewrite E in Hin.
  - rewrite <- E, Hc. intros [Hw He]. split_and!; auto.
Qed.

(** Placement: with finite loads reported, [GetLeastLoadedWorker] fails only
    when there is no candidate or the chosen one has no connection; the worker it
    returns is a candidate (known, not draining, below the hard cap on CPU,
    memory and disk, with a reported capacity; of the region if any worker of
    the region is), its score is within [tieEpsilon] of the least, whatever the
    iteration order of the map and the round-robin counter, and its count goes
    up by one. *)
Theorem GetLeastLoadedWorker_spec order r region counts rr :
  (forall l, order l ≡ₚ l) -> (forall w, In w (candidates order r region) -> finite (scoreWorker (apply_count counts w)) = true) ->
  match fst (GetLeastLoadedWorker order r region counts rr) with
  | Some (best, addr) =>
      exists w m, In w (candidates order r region) /\ best = set_current w (Current (apply_count counts w) + 1) /\
        conns r !! ID w = Some addr /\ Draining w = false /\ eligible region true w = true /\
        ((exists v, In v (GetAllWorkers r) /\ eligible region false v = true) -> eligible region false w = true) /\
        flt (fsub (scoreWorker (apply_count counts w)) m) tieEpsilon = true /\
        (exists v, In v (candidates order r region) /\ m = scoreWorker (apply_count counts v)) /\
        (forall v, In v (candidates order r region) -> flt (scoreWorker (apply_count counts v)) m = false)
  | None => candidates order r region = [] \/ exists w, In w (candidates order r region) /\ conns r !! ID w = None
  end.
Proof.
  intros Ho Hfin. pose proof (fun w => candidates_eligible order r region w Ho) as Hcand. unfold GetLeastLoadedWorker.
  set (cs := candidates order r region) in *.
  destruct (map (apply_count counts) cs) as [|first ws] eqn:E.
  { left. by destruct cs. }
  assert (forall w, In w (first :: ws) <-> exists v, In v cs /\ w = apply_count counts v) as Hin.
  { intros w. rewrite <- E, in_map_iff. split; intros (v & ? & ?); eauto. }
  match goal with |- context [tied (first :: ws) first !! ?n] => destruct (tied (first :: ws) first !! n) as [best|] eqn:Eb end; cycle 1.
  { exfalso. apply lookup_ge_None in Eb. destruct (tied_nonempty first ws).
    - intros w (v & Hv & ->)%Hin. by apply Hfin.
    - apply nil_length_inv. destruct (length (tied (first :: ws) first)) as [|n]; [done|].
      pose proof (Z.mod_pos_bound rr (Z.of_nat (S n))). lia. }
  apply list_elem_of_lookup_2, list_elem_of_In, filter_In in Eb as [Hbest Htie]. apply Hin in Hbest as (w & Hw & ->).
  assert (forall v, ID (apply_count counts v) = ID v) as Hid by (intros v; unfold apply_count; repeat case_goal; done).
  rewrite Hid. destruct (conns r !! ID w) as [addr|] eqn:Ec; cbn [fst]; [|right; by exists w].
  destruct (Hcand w Hw) as (Hall & Hel & Hreg). destruct (minScore_spec first ws) as [(u & Hu & Hm) Hmin].
  exists w, (minScore (first :: ws) first). split_and!; try done.
  - unfold apply_count. repeat case_goal; done.
  - unfold eligible in Hel. rewrite !andb_true_iff, !negb_true_iff in Hel. tauto.
  - apply Hin in Hu as (v & Hv & ->). eauto.
  - intros v Hv. apply Hmin, Hin. eauto.
Qed.

Lemma GetLeastLoadedWorker_spec_witness :
  let r := handleHeartbeat (handleHeartbeat new_registry (entry0 "w1" "a:1" ∅) false Ready true) (entry0 "w2" "a:2" ∅) true Ready true in
  exists w, In w (candidates id r "eu") /\ ID w = "w1"%string /\
    option_map snd (fst (GetLeastLoadedWorker id r "eu" (fun _ => Some 3) 7)) = Some "a:1"%string.
Proof.
  intros r. pose proof (GetLeastLoadedWorker_spec id r "eu" (fun _ => Some 3) 7 ltac:(done)) as H.
  destruct (GetLeastLoadedWorker id r "eu" (fun _ => Some 3) 7) as [res r'] eqn:E. vm_compute in E. injection E as <- <-. cbn in H.
  destruct H as (w & m & Hw & Hb & _).
  - intros w Hw. vm_compute in Hw. destruct Hw as [<-|[]]. vm_compute. reflexivity.
  - exists w. split; [exact Hw|]. split; [|reflexivity]. apply (f_equal ID) in Hb. cbn in Hb. by rewrite Hb.
Defined.

(** ** Drains across control planes *)

(** One heartbeat as a control plane applies it; it reads the drain marker. *)
Definition beat (keys : gset string) (r : RedisWorkerRegistry) (x : WorkerEntry * (connectivity * bool)) : RedisWorkerRegistry :=
  handleHeartbeat r (fst x) (bool_decide (ID (fst x) ∈ keys)) (fst (snd x)) (snd (snd x)).

(** What is known of [id] says draining. *)
Definition drains (r : RedisWorkerRegistry) (id : string) : Prop :=
  match workers r !! id with Some w => Draining w = true | None => True end.

Lemma beat_drains keys r x id : id ∈ keys -> drains r id -> drains (beat keys r x) id.
Proof.
  unfold drains, beat. intros Hk Hd. cbn [workers handleHeartbeat]. destruct (decide (ID (fst x) = id)) as [<-|Hne].
  - rewrite lookup_insert_eq, bool_decide_true by done. by destruct (workers r !! ID (fst x)).
  - by rewrite lookup_insert_ne.
Qed.

Lemma beat_marks keys r x : ID (fst x) ∈ keys -> drains (beat keys r x) (ID (fst x)).
Proof.
  unfold drains, beat. intros Hk. cbn [workers handleHeartbeat]. rewrite lookup_insert_eq, bool_decide_true by done.
  by destruct (workers r !! ID (fst x)).
Qed.

Lemma draining_not_placed order r region counts rr id best addr :
  (forall l, order l ≡ₚ l) -> wf r -> drains r id ->
  fst (GetLeastLoadedWorker order r region counts rr) = Some (best, addr) -> ID best <> id.
Proof.
  intros Ho [Hids _] Hd H. unfold GetLeastLoadedWorker in H.
  destruct (map (apply_count counts) (candidates order r region)) as [|first ws] eqn:E; [done|].
  match type of H with context [tied (first :: ws) first !! ?n] => destruct (tied (first :: ws) first !! n) as [b|] eqn:Eb end; [|done].
  destruct (conns r !! ID b); [|done]. cbn [fst] in H. injection H as <- _. cbn [ID set_current].
  apply list_elem_of_lookup_2, list_elem_of_In, filter_In in Eb as [Hb _]. rewrite <- E in Hb.
  apply in_map_iff in Hb as (w & <- & Hw). destruct (candidates_eligible order r region w Ho Hw) as (Hall & Hel & _).
  assert (ID (apply_count counts w) = ID w) as -> by (unfold apply_count; repeat case_goal; done).
  intros <-. unfold GetAllWorkers in Hall. apply in_map_iff in Hall as ([i x] & Hx & Hin). cbn in Hx. subst x.
  rewrite <- list_elem_of_In in Hin. apply elem_of_map_to_list in Hin. pose proof (Hids _ _ Hin). subst i.
  unfold drains in Hd. rewrite Hin in Hd. unfold eligible in Hel. rewrite Hd in Hel. rewrite !andb_false_r in Hel. done.
Qed.

(** Draining is a fact of the whole fleet: once [SetDraining] has written the
    marker to Redis, the control plane that called it, and every other control
    plane from the first heartbeat of the worker it processes, never places a
    sandbox on the worker, whatever heartbeats follow, until the marker goes. *)
Theorem drain_excludes order keys r beats region counts rr id best addr :
  (forall l, order l ≡ₚ l) -> wf r ->
  let keys' := SetDraining_key keys id true true in
  (exists r0, r = SetDraining r0 id true) \/ In id (map (fun x => ID (fst x)) beats) ->
  fst (GetLeastLoadedWorker order (fold_left (beat keys') beats r) region counts rr) = Some (best, addr) -> ID best <> id.
Proof.
  intros Ho Hr keys' Hstart. assert (id ∈ keys') as Hk by (unfold keys', SetDraining_key; set_solver).
  assert (forall l r, wf r -> wf (fold_left (beat keys') l r)) as Hwf.
  { induction l as [|x l IH]; intros r1 H1; [done|]. apply IH. by apply heartbeat_wf. }
  assert (forall l r, drains r id -> drains (fold_left (beat keys') l r) id) as Hdr.
  { induction l as [|x l IH]; intros r1 H1; [done|]. by apply IH, beat_drains. }
  apply draining_not_placed; [done|by apply Hwf|]. destruct Hstart as [[r0 ->]|Hin].
  - apply Hdr. unfold drains, SetDraining. cbn [workers]. destruct (workers r0 !! id) as [w|] eqn:E; [|by rewrite E].
    by rewrite lookup_insert_eq.
  - apply in_map_iff in Hin as (x & <- & Hx). apply in_split in Hx as (l1 & l2 & ->). rewrite fold_left_app. cbn [fold_left].
    by apply Hdr, beat_marks.
Qed.

Lemma drain_excludes_witness :
  let r := handleHeartbeat (handleHeartbeat new_registry (entry0 "w1" "a:1" ∅) false Ready true) (entry0 "w2" "a:2" ∅) false Ready true in
  match fst (GetLeastLoadedWorker id (fold_left (beat (SetDraining_key ∅ "w1" true true)) [(entry0 "w1" "a:1" ∅, (Ready, true))] r) "eu" (fun _ => None) 0) with
  | Some (best, addr) => ID best <> "w1"%string
  | None => False
  end.
Proof.
  intros r. pose proof (drain_excludes id ∅ r [(entry0 "w1" "a:1" ∅, (Ready, true))] "eu" (fun _ => None) 0 "w1") as H.
  destruct (fst (GetLeastLoadedWorker id _ "eu" (fun _ => None) 0)) as [[best addr]|] eqn:E; [|by vm_compute in E].
  apply (H best addr); [done|by apply heartbeat_wf, heartbeat_wf, new_wf|right; by left|exact E].
Defined.

(** ** The capacity report *)

(** A cell that can place a sandbox reports an available worker, and never more
    available workers than healthy ones. *)
Lemma emit_available order r region w :
  (forall l, order l ≡ₚ l) -> In w (candidates order r region) -> finite (MemPct w) = true ->
  0 < AvailableWorkers (emit order r) <= HealthyWorkers (emit order r).
Proof.
  intros Ho Hw Hfin. destruct (candidates_eligible order r region w Ho Hw) as (Hall & Hel & _).
  rewrite <- list_elem_of_In, <- (Ho (GetAllWorkers r)), list_elem_of_In in Hall.
  assert (Draining w = false /\ flt (MemPct w) Scaler.memPressureThresholdPct = true) as [Hd Hm].
  { unfold eligible in Hel. rewrite !andb_true_iff, !negb_true_iff, !orb_false_iff in Hel. destruct Hel as [[[_ Hd] [[_ Hm] _]] _].
    split; [done|]. by apply fge_false. }
  unfold emit. set (f := fun p w => _).
  assert (forall l p, AvailableWorkers p <= AvailableWorkers (fold_left f l p) /\
     HealthyWorkers p - AvailableWorkers p <= HealthyWorkers (fold_left f l p) - AvailableWorkers (fold_left f l p)) as Hmono.
  { induction l as [|x l IH]; intros p; cbn [fold_left]; [lia|]. destruct (IH (f p x)) as [H1 H2]. unfold f in *.
    destruct (Draining x); [lia|]. cbn [AvailableWorkers HealthyWorkers] in *. destruct (flt (MemPct x) _); lia. }
  assert (forall p, AvailableWorkers (f p w) = AvailableWorkers p + 1 /\ HealthyWorkers (f p w) = HealthyWorkers p + 1) as Hf
    by (intros p; unfold f; by rewrite Hd, Hm).
  apply in_split in Hall as (l1 & l2 & ->). rewrite fold_left_app. cbn [fold_left].
  set (p0 := {| HealthyWorkers := 0; AvailableWorkers := 0; RunningSandboxes := 0 |}).
  destruct (Hmono l1 p0) as [H1 H2], (Hmono l2 (f (fold_left f l1 p0) w)) as [H3 H4], (Hf (fold_left f l1 p0)) as [H5 H6].
  change (AvailableWorkers p0) with 0 in *. change (HealthyWorkers p0) with 0 in *. lia.
Qed.

End Registry.
