(* ===== verification/Hibernate.v ===== *)
(** * Hibernating and waking

    The flows over SessionStore.v and Registry.v that put a sandbox to sleep and
    bring it back: the worker's [HibernateSandbox], [WakeSandbox] and
    [DestroySandbox] handlers (src/internal/worker/grpc_server.go), the control
    plane's [hibernateSandboxRemote], [hibernateDeepFallback],
    [internalDeepHibernate] and [wakeSandboxRemote] (src/internal/api/sandbox.go),
    [hibernateForHalt] and [wakeForResume] (src/internal/api/admin_org.go), the
    worker's shutdown and recovery (src/cmd/worker/main.go), the credit enforcer
    (src/internal/billing/enforcer.go) and the upload reconciler
    (src/internal/controlplane/hibernation_upload_reconciler.go).

    A [cell] is the database and the keys in the checkpoint store. The archive of
    a hibernation is uploaded in the background: [upload_done] may happen at any
    point between two calls, which the flows take as a parameter ([between]).
    What a call to the hypervisor, the store or a worker returns is an input. *)

From S2P Require Import Prelude GoFloat SessionStore Registry.
From stdpp Require Import sorting.
#[local] Open Scope Z_scope.

Module Hibernate.
Export SessionStore.

Record cell := { cdb : db; blobs : gset string }.

Definition on_db (f : db -> db) (c : cell) : cell := {| cdb := f (cdb c); blobs := blobs c |}.

(** Calls that fail, their error logged while the flow goes on: on billing
    periods, on the pause tier, reading the session, on checkpoint rows, on blobs,
    on the session's status. *)
Record faults := { f_end : bool; f_deep : bool; f_get : bool; f_create : bool; f_delete : bool; f_status : bool }.
Definition no_faults : faults :=
  {| f_end := false; f_deep := false; f_get := false; f_create := false; f_delete := false; f_status := false |}.

Definition is_local (key : string) : bool := String.prefix "local://" key.

(** [deleteSupersededHibernation], and [deleteOldHibernation] of the worker. *)
Definition deleteSupersededHibernation (fails : bool) (key : string) (c : cell) : cell :=
  if String.eqb key "" || is_local key || fails then c else {| cdb := cdb c; blobs := blobs c ∖ {[key]} |}.

Definition create_hibernation (now : Z) (f : faults) (id org key : string) (size : Z) (rg tmpl : string) (c : cell) : cell * string :=
  if f_create f then (c, ""%string)
  else let '(d, superseded) := CreateHibernation now (cdb c) id org key size rg tmpl in
       ({| cdb := d; blobs := blobs c |}, superseded).

Definition mark_status (now : Z) (f : faults) (id st : string) (msg : option string) (c : cell) : cell :=
  if f_status f then c else on_db (fun d => fst (UpdateSandboxSessionStatus now d id st msg)) c.

(** ** The worker *)

(** [res]: what the hypervisor's [Hibernate] returns, a key and a size. *)
Definition HibernateSandbox (now : Z) (configured : bool) (res : option (string * Z)) (f : faults) (id : string) (c : cell) :
  cell * option (string * Z) :=
  if negb configured then (c, None)
  else
    let c := if f_end f then c else on_db (fun d => EndScaleEvent now d id) c in
    match res with
    | None => (c, None)
    | Some (key, size) =>
        let c := if f_deep f then c else on_db (fun d => fst (SetSandboxDeep now d id)) c in
        let c :=
          match (if f_get f then None else GetSandboxSession (cdb c) id) with
          | Some sess =>
              let '(c, superseded) := create_hibernation now f id (org_id sess) key size (region sess) (template sess) c in
              deleteSupersededHibernation (f_delete f) superseded c
          | None => c
          end in
        (c, Some (key, size))
    end.

(** [sb_mem]: the memory of the restored sandbox, [None] when the hypervisor
    fails. *)
Definition WakeSandbox (now : Z) (configured : bool) (sb_mem : option Z) (f : faults) (id : string) (c : cell) : cell * bool :=
  if negb configured then (c, false)
  else
    match sb_mem with
    | None => (c, false)
    | Some mem =>
        let memMB := if mem <=? 0 then 1024 else mem in
        let cpuPct := Z.max 100 (memMB * 100 / 1024) in
        (match GetSandboxOrgID (cdb c) id with
         | Some org => if String.eqb org "" || f_end f then c
                       else on_db (fun d => RecordScaleEvent now d id org memMB cpuPct 0) c
         | None => c
         end, true)
    end.

Definition DestroySandbox (now : Z) (kill_ok : bool) (f : faults) (id : string) (c : cell) : cell * bool :=
  (if f_end f then c else on_db (fun d => EndScaleEvent now d id) c, kill_ok).

(** The archive reaches the store and the worker's callback records it. *)
Definition upload_done (now : Z) (key : string) (size : Z) (c : cell) : cell :=
  {| cdb := MarkHibernationUploaded now (cdb c) key size; blobs := {[key]} ∪ blobs c |}.

(** [OnHibernate], after the idle timeout. *)
Definition OnHibernate (now : Z) (f : faults) (key : string) (size : Z) (id : string) (c : cell) : cell :=
  let c :=
    match (if f_get f then None else GetSandboxSession (cdb c) id) with
    | Some sess =>
        let '(c, superseded) := create_hibernation now f id (org_id sess) key size (region sess) (template sess) c in
        deleteSupersededHibernation (f_delete f) superseded c
    | None => c
    end in
  mark_status now f id "hibernated" None c.

(** Shutdown: each sandbox's result is a key or an error. *)
Definition processHibernateResults (now : Z) (f : faults) (results : list (string * (string + string))) (c : cell) : cell :=
  fold_left (fun c '(id, r) =>
    match r with
    | inr err => mark_status now f id "stopped" (Some ("hibernate failed on shutdown: " ++ err)%string) c
    | inl key =>
        match (if f_get f then None else GetSandboxSession (cdb c) id) with
        | Some sess =>
            let '(c, superseded) := create_hibernation now f id (org_id sess) key 0 (region sess) (template sess) c in
            mark_status now f id "hibernated" None (deleteSupersededHibernation (f_delete f) superseded c)
        | None => c
        end
    end) results c.

(** Start-up: the sandboxes found on the local disk. *)
Definition recoverLocalQEMU (now : Z) (f : faults) (recoveries : list string) (c : cell) : cell :=
  fold_left (fun c id =>
    match (if f_get f then None else GetSandboxSession (cdb c) id) with
    | Some sess =>
        mark_status now f id "hibernated" None
          (fst (create_hibernation now f id (org_id sess) ("local://" ++ id)%string 0 (region sess) (template sess) c))
    | None => c
    end) recoveries c.

(** ** The control plane *)

(** The worker as the control plane sees it: is there a client, is its store
    configured, what does its hypervisor return, which of its calls fail. *)
Record remote := { client : bool; configured : bool; result : option (string * Z); w_faults : faults }.

Definition call_hibernate (now : Z) (w : remote) (id : string) (c : cell) : cell * option (string * Z) :=
  HibernateSandbox now (configured w) (result w) (w_faults w) id c.

(** [between]: what happens between the worker's reply and the next call. *)
Definition hibernateForHalt (now : Z) (w : remote) (f : faults) (between : cell -> cell) (id org rg tmpl : string) (c : cell) :
  cell * bool :=
  if negb (client w) then (c, false)
  else
    let '(c, r) := call_hibernate now w id c in
    match r with
    | None => (c, false)
    | Some (key, size) =>
        let '(c, superseded) := create_hibernation now f id org key size rg tmpl (between c) in
        (mark_status now f id "hibernated" None (deleteSupersededHibernation (f_delete f) superseded c), true)
    end.

(** The HTTP status. *)
Definition hibernateDeepFallback (now : Z) (w : remote) (f : faults) (between : cell -> cell) (id : string) (c : cell) : cell * Z :=
  if negb (client w) then (c, 503)
  else
    let '(c, r) := call_hibernate now w id c in
    match r with
    | None => (c, 500)
    | Some _ => (mark_status now f id "hibernated" None (between c), 200)
    end.

Inductive pause_reply := PauseOK | PauseUnimplemented | PauseError.

Definition hibernateSandboxRemote (now : Z) (w : remote) (reply : pause_reply) (f : faults) (between : cell -> cell)
    (id : string) (c : cell) : cell * Z :=
  match GetSandboxSession (cdb c) id with
  | None => (c, 404)
  | Some sess =>
      if negb (same (status sess) "running") then (c, if same (status sess) "hibernated" then 200 else 400)
      else if negb (client w) then (c, 503)
      else
        match reply with
        | PauseOK => (if f_status f then c else on_db (fun d => fst (SetSandboxPaused now d id)) c, 200)
        | PauseUnimplemented => hibernateDeepFallback now w f between id c
        | PauseError => (c, 500)
        end
  end.

Definition internalDeepHibernate (now : Z) (w : remote) (id : string) (c : cell) : cell * Z :=
  match GetSandboxSession (cdb c) id with
  | None => (c, 404)
  | Some sess =>
      if negb (bool_decide (hibernation_mode sess = Some "paused"%string)) then (c, 200)
      else if negb (client w) then (c, 503)
      else let '(c, r) := call_hibernate now w id c in (c, match r with Some _ => 200 | None => 500 end)
  end.

(** *** Waking *)

Section Wake.
Context (order : list Registry.WorkerEntry -> list Registry.WorkerEntry).

(** A source worker that can take the sandbox back. *)
Definition source_fit (w : Registry.WorkerEntry) : bool :=
  negb (Registry.Draining w) && GoFloat.flt (Registry.CPUPct w) (GoFloat.of_int 90) &&
  GoFloat.flt (Registry.MemPct w) (GoFloat.of_int 90) && GoFloat.flt (Registry.DiskPct w) (GoFloat.of_int 90).

(** The choice both [wakeSandboxRemote] and [wakeForResume] make. [inl] is the
    error: [true] when the upload is not complete. *)
Definition wake_worker (r : Registry.RedisWorkerRegistry) (conn : Registry.connectivity) (dial_ok : bool)
    (counts : string -> option Z) (rr : Z) (sess : session) (h : SandboxHibernation) : bool + Registry.WorkerEntry :=
  let src :=
    if same (worker_id sess) "" then None
    else match Registry.GetWorker r (worker_id sess) with
         | Some w => if source_fit w then
                       match fst (Registry.GetWorkerClient r (worker_id sess) conn dial_ok) with Some _ => Some w | None => None end
                     else None
         | None => None
         end in
  match src with
  | Some w => inr w
  | None =>
      if is_null (h_UploadedAt h) then inl true
      else match fst (Registry.GetLeastLoadedWorker order r (h_Region h) counts rr) with
           | Some (w, _) => inr w
           | None => inl false
           end
  end.

(** After the worker has woken it. *)
Definition woken (now : Z) (f : faults) (id worker uid : string) (c : cell) : cell :=
  let c := if f_create f then c else on_db (fun d => MarkHibernationRestored now d id) c in
  if f_status f then c else on_db (fun d => UpdateSandboxSessionForWake now d id worker uid) c.

(** [resume_ok]: the reply of [ResumeSandbox], for the paused tier. *)
Definition wakeSandboxRemote (now : Z) (r : Registry.RedisWorkerRegistry) (conn : Registry.connectivity) (dial_ok : bool)
    (counts : string -> option Z) (rr : Z) (cfg : bool) (sb_mem : option Z) (resume_ok : bool) (f : faults) (id uid : string)
    (c : cell) : cell * Z :=
  match GetSandboxSession (cdb c) id with
  | None => (c, 404)
  | Some sess =>
      if bool_decide (hibernation_mode sess = Some "paused"%string) then
        if same (status sess) "running" then (c, 200)
        else match fst (Registry.GetWorkerClient r (worker_id sess) conn dial_ok) with
             | None => (c, 503)
             | Some _ => if resume_ok then (on_db (fun d => SetSandboxResumed now d id) c, 200) else (c, 500)
             end
      else
        match GetActiveHibernation (cdb c) id with
        | None => (c, 404)
        | Some h =>
            if negb (same (status sess) "hibernated") then (c, 400)
            else match wake_worker r conn dial_ok counts rr sess h with
                 | inl _ => (c, 503)
                 | inr w =>
                     let '(c, ok) := WakeSandbox now cfg sb_mem f id c in
                     if ok then (woken now f id (Registry.ID w) uid c, 200) else (c, 500)
                 end
        end
  end.

Definition wakeForResume (now : Z) (r : Registry.RedisWorkerRegistry) (conn : Registry.connectivity) (dial_ok : bool)
    (counts : string -> option Z) (rr : Z) (cfg : bool) (sb_mem : option Z) (f : faults) (id uid : string)
    (c : cell) : cell * bool :=
  match GetActiveHibernation (cdb c) id with
  | None => (c, false)
  | Some h =>
      match GetSandboxSession (cdb c) id with
      | None => (c, false)
      | Some sess =>
          if negb (same (status sess) "hibernated") then (c, false)
          else match wake_worker r conn dial_ok counts rr sess h with
               | inl _ => (c, false)
               | inr w =>
                   let '(c, ok) := WakeSandbox now cfg sb_mem f id c in
                   if ok then (woken now f id (Registry.ID w) uid c, true) else (c, false)
               end
      end
  end.

End Wake.

(** ** The credit enforcer *)

(** [remotes]: the worker of each sandbox as the enforcer finds it. *)
Definition EnforceCreditExhaustion (now : Z) (remotes : string -> remote) (f : faults) (org : string) (c : cell) : cell * Z :=
  fold_left (fun '(c, n) sess =>
    let id := sandbox_id sess in
    if same (worker_id sess) "" || negb (client (remotes id)) then (c, n)
    else
      let '(c, r) := call_hibernate now (remotes id) id c in
      match r with
      | None => (c, n)
      | Some (key, size) =>
          let c := if f_end f then c else on_db (fun d => EndScaleEvent now d id) c in
          let c := mark_status now f id "hibernated" None c in
          let c := if String.eqb key "" then c
                   else fst (create_hibernation now f id org key size (region sess) (template sess) c) in
          (c, n + 1)
      end) (ListSandboxSessions (cdb c) org "running" 500 0) (c, 0).

(** ** The upload reconciler *)

(** [stat]: [None] on an error, otherwise the size if the blob is there.
    [write_ok]: the update succeeds. [cancelled]: the loop is stopped before the
    i-th row. *)
Fixpoint reconcile_rows (now : Z) (stat : string -> option (option Z)) (write_ok : string -> bool) (cancelled : nat -> bool)
    (i : nat) (rows : list SandboxHibernation) (d : db) : db :=
  match rows with
  | [] => d
  | h :: rows =>
      if cancelled i then d
      else
        let d :=
          match stat (h_Key h) with
          | None => d
          | Some (Some size) => if write_ok (h_Key h) then MarkHibernationUploaded now d (h_Key h) size else d
          | Some None =>
              if write_ok (h_Key h)
              then MarkHibernationUploadFailed d (h_Key h) "reconciler: checkpoint blob absent after grace window; upload never completed"
              else d
          end in
        reconcile_rows now stat write_ok cancelled (S i) rows d
  end.

Definition reconciler_grace : Z := 15 * 60.
Definition reconciler_batch : nat := 200.

Definition tick (now : Z) (stat : string -> option (option Z)) (write_ok : string -> bool) (cancelled : nat -> bool) (d : db) : db :=
  reconcile_rows now stat write_ok cancelled 0 (ListStuckHibernationUploads d (now - reconciler_grace) reconciler_batch) d.

End Hibernate.
