(* ===== verification/HibernateFacts.v ===== *)
(** * What hibernating and waking promise

    Theorems on Hibernate.v, with the lemmas of SessionFacts.v. *)

From stdpp Require Import sorting.
From S2P Require Import Prelude SessionStore SessionFacts Registry Hibernate.
#[local] Open Scope Z_scope.

Module HibernateFacts.
Export SessionFacts Hibernate.

(** ** The checkpoint *)

Definition active_key (c : cell) (id : string) : option string := option_map h_Key (GetActiveHibernation (cdb c) id).

Lemma find_map_active id (f : SandboxHibernation -> SandboxHibernation) l :
  (forall h, active id (f h) = active id h /\ h_Key (f h) = h_Key h) ->
  option_map h_Key (List.find (active id) (map f l)) = option_map h_Key (List.find (active id) l).
Proof.
  intros Hf. induction l as [|h l IH]; [done|]. cbn. destruct (Hf h) as [-> Hk]. destruct (active id h); [cbn; by rewrite Hk|done].
Qed.

Lemma upload_active now key size id c : active_key (upload_done now key size c) id = active_key c id.
Proof.
  unfold active_key, upload_done, GetActiveHibernation, MarkHibernationUploaded. cbn.
  apply find_map_active. intros h. by destruct (same (h_Key h) key).
Qed.

(** Sessions, periods and checkpoints change independently. *)
Lemma status_hibernations now d id st msg : hibernations (fst (UpdateSandboxSessionStatus now d id st msg)) = hibernations d.
Proof. unfold UpdateSandboxSessionStatus, updateSandboxSessionStatus. cbn [fst]. repeat case_goal; done. Qed.

Lemma mark_status_active now f id st msg c x : active_key (mark_status now f id st msg c) x = active_key c x.
Proof.
  unfold mark_status, active_key, GetActiveHibernation. destruct (f_status f); [done|]. cbn [cdb on_db]. by rewrite status_hibernations.
Qed.

Lemma mark_status_blobs now f id st msg c : blobs (mark_status now f id st msg c) = blobs c.
Proof. unfold mark_status. by destruct (f_status f). Qed.

Lemma GetSandboxSession_update w s d id :
  (forall r, sandbox_id (s r) = sandbox_id r /\ started_at (s r) = started_at r) ->
  (forall r, w (scan r) = w r /\ scan (s r) = s (scan r)) ->
  GetSandboxSession (with_sessions (UPDATE w s) d) id = option_map (fun r => if w r then s r else r) (GetSandboxSession d id).
Proof.
  intros Hs Hc. unfold GetSandboxSession, latest_session, UPDATE. cbn [sessions with_sessions].
  rewrite filter_map_same, latest_map; [|intros r; destruct (Hs r) as [H1 H2]; destruct (w r); by rewrite ?H1, ?H2..].
  destruct (latest _ _) as [r|]; [|done]. cbn. destruct (Hc r) as [-> Hr]. destruct (w r); [by rewrite Hr|done].
Qed.

Lemma GetSandboxSession_deep now d id x :
  exists g, GetSandboxSession (fst (SetSandboxDeep now d id)) x = option_map g (GetSandboxSession d x) /\
    forall r, sandbox_id (g r) = sandbox_id r /\ org_id (g r) = org_id r /\ status (g r) = status r.
Proof.
  eexists. split; [by apply GetSandboxSession_update|]. intros r. cbv beta. by destruct (_ && _).
Qed.

(** What a successful [HibernateSandbox] leaves. *)
Lemma HibernateSandbox_active now key size id c c' r :
  GetSandboxSession (cdb c) id <> None ->
  HibernateSandbox now true (Some (key, size)) no_faults id c = (c', r) ->
  r = Some (key, size) /\ active_key c' id = Some key /\
  blobs c' = blobs (deleteSupersededHibernation false (default ""%string (active_key c id)) c).
Proof.
  intros Hs H. unfold HibernateSandbox in H. cbn [negb no_faults f_end f_deep f_get f_create f_delete cdb on_db] in H.
  destruct (GetSandboxSession_deep now (EndScaleEvent now (cdb c) id) id id) as (g & Hg & _). rewrite Hg in H.
  change (GetSandboxSession (EndScaleEvent now (cdb c) id) id) with (GetSandboxSession (cdb c) id) in H.
  destruct (GetSandboxSession (cdb c) id) as [sess|]; [|done]. cbn [option_map] in H.
  unfold create_hibernation in H. cbn [no_faults f_create] in H. rewrite surjective_pairing in H at 1.
  match type of H with context [CreateHibernation ?n ?d ?i ?o ?k ?s ?r ?t] => pose proof (create_active d n i o k s r t) as Hc;
    destruct (CreateHibernation n d i o k s r t) as [d1 sup] end.
  destruct Hc as [Hact Hsup]. injection H as <- <-. split; [done|].
  match type of Hsup with context [GetActiveHibernation ?d id] => change (GetActiveHibernation d id) with (GetActiveHibernation (cdb c) id) in Hsup end.
  cbn [fst snd]. unfold active_key. rewrite <- Hsup. unfold deleteSupersededHibernation. by destruct (_ || _).
Qed.

Definition status_of (c : cell) (id : string) : option string := option_map status (GetSandboxSession (cdb c) id).

Lemma session_id d id r : GetSandboxSession d id = Some r -> (exists r0, r = scan r0 /\ In r0 (sessions d)) /\ sandbox_id r = id.
Proof.
  unfold GetSandboxSession, latest_session. destruct (latest _ _) as [r0|] eqn:E; [|done]. intros [= <-].
  apply latest_In, filter_In in E as [Hin Hs]. split; [by exists r0|]. by apply same_true in Hs.
Qed.

Lemma mark_hibernated now f id c :
  f_status f = false -> status_of c id = Some "running"%string -> status_of (mark_status now f id "hibernated" None c) id = Some "hibernated"%string.
Proof.
  intros Hf. unfold status_of, mark_status. rewrite Hf. cbn [cdb on_db].
  assert (GetSandboxSession (fst (UpdateSandboxSessionStatus now (cdb c) id "hibernated" None)) id =
    GetSandboxSession (with_sessions (UPDATE (status_where id "hibernated") (status_set now "hibernated" None)) (cdb c)) id) as ->
    by (unfold GetSandboxSession, latest_session; by rewrite status_sessions).
  rewrite GetSandboxSession_update by done.
  destruct (GetSandboxSession (cdb c) id) as [r|] eqn:E; [|done]. cbn. intros [= Hr].
  destruct (session_id _ _ _ E) as [_ Hid]. unfold status_where. rewrite Hr. subst id. unfold same at 1. by rewrite String.eqb_refl.
Qed.

(** It touches the session's tier at most. *)
Lemma HibernateSandbox_sessions now cfg res f id c c' r :
  HibernateSandbox now cfg res f id c = (c', r) ->
  sessions (cdb c') = sessions (cdb c) \/ sessions (cdb c') = sessions (fst (SetSandboxDeep now (cdb c) id)).
Proof.
  unfold HibernateSandbox. destruct (negb cfg); [intros; left; by simplify_eq|].
  set (c1 := if f_end f then c else _). assert (sessions (cdb c1) = sessions (cdb c)) as H1 by (unfold c1; by destruct (f_end f)).
  destruct res as [[key size]|]; [|intros; left; by simplify_eq].
  set (c2 := if f_deep f then c1 else _).
  assert (sessions (cdb c2) = sessions (cdb c) \/ sessions (cdb c2) = sessions (fst (SetSandboxDeep now (cdb c) id))) as H2.
  { unfold c2. destruct (f_deep f); [by left|]. right. cbn [cdb on_db]. unfold SetSandboxDeep. cbn [fst sessions with_sessions]. by rewrite H1. }
  destruct (if f_get f then None else _); [|intros; by simplify_eq]. unfold create_hibernation, deleteSupersededHibernation.
  destruct (f_create f); [|destruct (CreateHibernation _ _ _ _ _ _ _ _) as [d1 sup] eqn:E;
    unfold CreateHibernation in E; injection E as <- _]; destruct (_ || _); intros; simplify_eq; done.
Qed.

Lemma GetSandboxSession_sessions d d' id : sessions d = sessions d' -> GetSandboxSession d id = GetSandboxSession d' id.
Proof. unfold GetSandboxSession, latest_session. by intros ->. Qed.

Lemma HibernateSandbox_status now cfg res f id c c' r x :
  HibernateSandbox now cfg res f id c = (c', r) -> status_of c' x = status_of c x.
Proof.
  intros H. unfold status_of. destruct (HibernateSandbox_sessions _ _ _ _ _ _ _ _ H) as [Hs|Hs].
  - by rewrite (GetSandboxSession_sessions _ _ x Hs).
  - rewrite (GetSandboxSession_sessions _ _ x Hs). destruct (GetSandboxSession_deep now (cdb c) id x) as (g & -> & Hg).
    destruct (GetSandboxSession (cdb c) x); [|done]. cbn. f_equal. apply Hg.
Qed.

(** A sandbox that is not paused keeps its row. *)
Lemma HibernateSandbox_unpaused now cfg res f id c c' r :
  HibernateSandbox now cfg res f id c = (c', r) ->
  option_map hibernation_mode (GetSandboxSession (cdb c) id) <> Some (Some "paused"%string) ->
  GetSandboxSession (cdb c') id = GetSandboxSession (cdb c) id.
Proof.
  intros H Hm. destruct (HibernateSandbox_sessions _ _ _ _ _ _ _ _ H) as [Hs|Hs]; rewrite (GetSandboxSession_sessions _ _ id Hs); [done|].
  unfold SetSandboxDeep. cbn [fst]. rewrite GetSandboxSession_update by done. destruct (GetSandboxSession (cdb c) id) as [x|]; [|done].
  cbn in *. rewrite bool_decide_false, andb_false_r; [done|]. intros Heq. apply Hm. by rewrite Heq.
Qed.

(** Halting an organisation can destroy the checkpoint it has just taken.
    [hibernateForHalt] records the hibernation a second time under the key the
    worker has already recorded, gets that key back as the superseded one and
    deletes its blob: when the upload finishes before that call, the sandbox is
    left hibernated with an active, uploaded checkpoint whose blob is gone.
    [hibernateDeepFallback], in the same situation, keeps the blob. *)
Theorem hibernateForHalt_deletes_checkpoint now id org rg tmpl key size c f :
  status_of c id = Some "running"%string -> key <> ""%string -> is_local key = false ->
  let w := {| client := true; configured := true; result := Some (key, size); w_faults := no_faults |} in
  let (c', ok) := hibernateForHalt now w no_faults (upload_done now key f) id org rg tmpl c in
  let (c'', code) := hibernateDeepFallback now w no_faults (upload_done now key f) id c in
  (ok = true /\ status_of c' id = Some "hibernated"%string /\ active_key c' id = Some key /\ key ∉ blobs c') /\
  (code = 200 /\ status_of c'' id = Some "hibernated"%string /\ active_key c'' id = Some key /\ key ∈ blobs c'').
Proof.
  intros Hst Hne Hl w. unfold hibernateForHalt, hibernateDeepFallback, call_hibernate. cbn [w client configured result w_faults negb].
  destruct (HibernateSandbox now true (Some (key, size)) no_faults id c) as [c1 r] eqn:E.
  pose proof (HibernateSandbox_status _ _ _ _ _ _ _ _ id E) as Hst1. rewrite Hst in Hst1.
  apply HibernateSandbox_active in E as (-> & Hact & Hbl); [|unfold status_of in Hst; by destruct (GetSandboxSession (cdb c) id)].
  assert (status_of (upload_done now key f c1) id = Some "running"%string) as Hst2 by done.
  pose proof (upload_active now key f id c1) as Hup. rewrite Hact in Hup.
  unfold create_hibernation. cbn [no_faults f_create].
  pose proof (create_active (cdb (upload_done now key f c1)) now id org key size rg tmpl) as Hc.
  destruct (CreateHibernation now (cdb (upload_done now key f c1)) id org key size rg tmpl) as [d1 sup] eqn:Ed.
  destruct Hc as [Hact' Hsup]. unfold active_key in Hup. rewrite Hup in Hsup. cbn in Hsup. subst sup. split; split_and!; try done.
  - apply mark_hibernated; [done|]. unfold deleteSupersededHibernation. cbn [f_delete no_faults].
    unfold CreateHibernation in Ed. injection Ed as <- _. by destruct (_ || _).
  - rewrite mark_status_active. unfold deleteSupersededHibernation. by destruct (_ || _).
  - rewrite mark_status_blobs. unfold deleteSupersededHibernation. rewrite (proj2 (String.eqb_neq _ _) Hne), Hl. cbn. set_solver.
  - by apply mark_hibernated.
  - by rewrite mark_status_active, upload_active.
  - rewrite mark_status_blobs. cbn. set_solver.
Qed.

Definition one_box : cell :=
  {| cdb := run (empty_db []) [(1, Create "sb" "org" "base" "eu" "w1" "running" None); (1, Scale "sb" "org" 1024 100 0)]%string; blobs := ∅ |}.

Lemma hibernateForHalt_deletes_checkpoint_witness :
  let w := {| client := true; configured := true; result := Some ("checkpoints/sb/5.tar.zst"%string, 0); w_faults := no_faults |} in
  match hibernateForHalt 5 w no_faults (upload_done 5 "checkpoints/sb/5.tar.zst" 9) "sb" "org" "eu" "base" one_box with
  | (c', ok) => ok = true /\ active_key c' "sb" = Some "checkpoints/sb/5.tar.zst"%string /\ ("checkpoints/sb/5.tar.zst"%string : string) ∉ blobs c'
  end.
Proof.
  intros w. pose proof (hibernateForHalt_deletes_checkpoint 5 "sb" "org" "eu" "base" "checkpoints/sb/5.tar.zst" 0 one_box 9) as H.
  cbv zeta in H. fold w in H. destruct (hibernateForHalt 5 w _ _ _ _ _ _ one_box) as [c' ok], (hibernateDeepFallback 5 w _ _ _ one_box) as [c'' code].
  destruct H as [(H1 & _ & H2 & H3) _]; [vm_compute; reflexivity|discriminate|reflexivity|]. done.
Defined.

(** A hibernation that fails stops the billing of a sandbox that goes on
    running: [HibernateSandbox] ends the open period before it calls the
    hypervisor and does not open another when the call fails, so the session is
    running, with no open period. *)
Theorem failed_hibernate_unbilled now id c :
  let (c', r) := HibernateSandbox now true None no_faults id c in
  r = None /\ status_of c' id = status_of c id /\ runs (cdb c') id = runs (cdb c) id /\ open_periods (cdb c') id = [].
Proof.
  cbn [HibernateSandbox negb no_faults f_end]. split_and!; try done.
  unfold open_periods, EndScaleEvent. cbn [cdb on_db scale_events with_events]. apply closed_not_open. by left.
Qed.

(** Resuming a paused sandbox does not reopen its billing: pausing closes the
    period, [SetSandboxResumed] makes the row running again, and no period is
    open until something records a scale event. *)
Theorem resumed_unbilled now now' d id :
  snd (SetSandboxPaused now d id) = true ->
  let d' := SetSandboxResumed now' (fst (SetSandboxPaused now d id)) id in
  runs d' id = true /\ open_periods d' id = [].
Proof.
  intros Hc. unfold SetSandboxPaused in *. cbn [snd fst] in *. rewrite Hc.
  match goal with |- runs ?x id = true /\ _ => set (d' := x) end. split.
  - apply existsb_exists in Hc as (r & Hr & Hw). apply andb_true_iff in Hw as [Hid Hst]. apply same_true in Hid, Hst.
    apply runs_true. unfold d', SetSandboxResumed. cbn [sessions with_sessions with_events].
    set (set1 := fun r => set_mode now (Some "paused"%string) (Some now) (set_status now "hibernated" r)).
    exists (set_mode now' None None (set_status now' "running" (set1 r))). split; [|done].
    apply (UPDATE_hit (fun r => same (sandbox_id r) id) (fun r => set_mode now' None None (set_status now' "running" r))).
    + apply (UPDATE_hit (fun r => same (sandbox_id r) id && same (status r) "running") set1); [done|]. rewrite Hst. cbn. rewrite andb_true_r. by apply same_true.
    + by apply same_true.
  - unfold open_periods, d'. cbn [scale_events with_sessions with_events SetSandboxResumed]. apply closed_not_open. by left.
Qed.

Lemma resumed_unbilled_witness :
  let d := cdb one_box in
  snd (SetSandboxPaused 5 d "sb") = true /\ length (open_periods d "sb") = 1%nat /\
  open_periods (SetSandboxResumed 6 (fst (SetSandboxPaused 5 d "sb")) "sb") "sb" = [].
Proof.
  split; [vm_compute; reflexivity|]. split; [vm_compute; reflexivity|].
  exact (proj2 (resumed_unbilled 5 6 (cdb one_box) "sb" ltac:(vm_compute; reflexivity))).
Defined.

(** ** Waking *)

(** A wake goes where the checkpoint is: the worker chosen is the one that
    took it (known, not draining, below 90% on CPU, memory and disk, and
    reachable), or the upload is complete and the worker is one placement offers
    in the checkpoint's region; without either the wake is refused. *)
Theorem wake_worker_safe order r conn dial counts rr sess h :
  match wake_worker order r conn dial counts rr sess h with
  | inr w =>
      (Registry.GetWorker r (worker_id sess) = Some w /\ source_fit w = true /\
        fst (Registry.GetWorkerClient r (worker_id sess) conn dial) <> None) \/
      (h_UploadedAt h <> None /\
        option_map fst (fst (Registry.GetLeastLoadedWorker order r (h_Region h) counts rr)) = Some w)
  | inl pending => (pending = true <-> h_UploadedAt h = None)
  end.
Proof.
  unfold wake_worker. set (src := if same (worker_id sess) "" then None else _).
  assert (forall w, src = Some w -> Registry.GetWorker r (worker_id sess) = Some w /\ source_fit w = true /\
    fst (Registry.GetWorkerClient r (worker_id sess) conn dial) <> None) as Hsrc.
  { intros w. unfold src. destruct (same (worker_id sess) ""); [done|]. destruct (Registry.GetWorker r (worker_id sess)) as [x|]; [|done].
    destruct (source_fit x) eqn:Ef; [|done]. destruct (fst _) eqn:Ec; [|done]. intros [= <-]. done. }
  destruct src as [w|]; [left; by apply Hsrc|]. destruct (h_UploadedAt h) as [t|]; cbn [is_null]; [|done].
  destruct (fst (Registry.GetLeastLoadedWorker _ _ _ _ _)) as [[w a]|]; [by right|done].
Qed.

Lemma mark_restored_none now d id : GetActiveHibernation (MarkHibernationRestored now d id) id = None.
Proof.
  unfold GetActiveHibernation, MarkHibernationRestored. cbn. induction (hibernations d) as [|h l IH]; [done|].
  rewrite UPDATE_cons. cbn [List.find]. destruct (active id h) eqn:E; [|by rewrite E].
  assert (active id (restore now h) = false) as ->; [|done]. unfold active. cbn. by rewrite andb_false_r.
Qed.

Lemma record_one_open now d id org mem cpu disk : length (open_periods (RecordScaleEvent now d id org mem cpu disk) id) = 1%nat.
Proof.
  unfold open_periods, RecordScaleEvent. cbn [scale_events with_events]. rewrite List.filter_app, closed_not_open by by left.
  cbn. unfold same. by rewrite String.eqb_refl.
Qed.

Lemma wake_session now d id wk uid r :
  GetSandboxSession d id = Some r -> status r = "hibernated"%string ->
  exists r', GetSandboxSession (UpdateSandboxSessionForWake now d id wk uid) id = Some r' /\ status r' = "running"%string /\ worker_id r' = wk.
Proof.
  intros Hr Hst. destruct (session_id _ _ _ Hr) as [(r0 & E0 & Hin) Hid]. unfold UpdateSandboxSessionForWake.
  set (hit := fun r => same (sandbox_id r) id && same (status r) "hibernated").
  assert (hit r = true) as Hhit by (unfold hit; rewrite Hst; subst id; unfold same; by rewrite String.eqb_refl).
  destruct (List.find hit (sessions d)) as [x|] eqn:E; [|pose proof (List.find_none _ _ E r0 Hin) as Hn; rewrite E0 in Hhit; unfold hit in Hhit, Hn; cbn [scan set_row sandbox_id status] in Hhit; congruence].
  set (set1 := fun r => set_stopped now None (set_worker now wk (set_status now "running" r))).
  exists (set1 r). split; [|done].
  change (GetSandboxSession (with_sessions (UPDATE hit set1) d) id = Some (set1 r)).
  rewrite GetSandboxSession_update, Hr by done. cbn. by rewrite Hhit.
Qed.

(** The cell after a successful [hibernateDeepFallback] whose upload is done. *)
Lemma deep_fallback_state now t id key size n org c c1 code :
  status_of c id = Some "running"%string -> option_map org_id (GetSandboxSession (cdb c) id) = Some org ->
  option_map hibernation_mode (GetSandboxSession (cdb c) id) <> Some (Some "paused"%string) ->
  hibernateDeepFallback now {| client := true; configured := true; result := Some (key, size); w_faults := no_faults |} no_faults
    (upload_done t key n) id c = (c1, code) ->
  code = 200 /\ key ∈ blobs c1 /\ status_of c1 id = Some "hibernated"%string /\
  (exists sess, GetSandboxSession (cdb c1) id = Some sess /\ status sess = "hibernated"%string /\ org_id sess = org /\
    hibernation_mode sess <> Some "paused"%string) /\
  (exists h, GetActiveHibernation (cdb c1) id = Some h /\ h_Key h = key).
Proof.
  intros Hst Horg Hmode H. unfold hibernateDeepFallback, call_hibernate in H. cbn [client configured result w_faults negb] in H.
  destruct (HibernateSandbox now true (Some (key, size)) no_faults id c) as [c0 r0] eqn:E.
  pose proof (HibernateSandbox_status _ _ _ _ _ _ _ _ id E) as Hst1. rewrite Hst in Hst1.
  pose proof (HibernateSandbox_unpaused _ _ _ _ _ _ _ _ E Hmode) as Hkeep.
  apply HibernateSandbox_active in E as (-> & Hact & _); [|unfold status_of in Hst; by destruct (GetSandboxSession (cdb c) id)].
  injection H as H <-. rename c1 into c1'. set (c1 := mark_status now no_faults id "hibernated" None (upload_done t key n c0)) in *. subst c1'.
  assert (status_of c1 id = Some "hibernated"%string) as Hst2 by by apply mark_hibernated.
  assert (active_key c1 id = Some key) as Hact1 by (unfold c1; by rewrite mark_status_active, upload_active).
  assert (key ∈ blobs c1) as Hblob by (unfold c1; rewrite mark_status_blobs; cbn; set_solver).
  assert (exists sess, GetSandboxSession (cdb c1) id = Some sess /\ status sess = "hibernated"%string /\ org_id sess = org /\
    hibernation_mode sess <> Some "paused"%string) as Hsess.
  { unfold status_of in Hst2. destruct (GetSandboxSession (cdb c1) id) as [sess|] eqn:Es; [|done]. exists sess. injection Hst2 as Hst2.
    split_and!; [done|done| |]; revert Es; unfold c1, mark_status; cbn [no_faults f_status cdb on_db upload_done];
      match goal with |- GetSandboxSession (fst (UpdateSandboxSessionStatus _ ?d _ _ _)) _ = _ -> _ =>
        rewrite (GetSandboxSession_sessions _ _ id (status_sessions now d id "hibernated" None : _ = sessions (with_sessions _ d))) end;
      rewrite GetSandboxSession_update by done;
      change (GetSandboxSession (MarkHibernationUploaded t (cdb c0) key n) id) with (GetSandboxSession (cdb c0) id); rewrite Hkeep;
      (destruct (GetSandboxSession (cdb c) id) as [x|]; [|done]); cbn in Horg, Hmode |- *; intros [= <-]; destruct (status_where _ _ _); cbn; congruence. }
  split_and!; [done|done|done|done|].
  unfold active_key in Hact1. destruct (GetActiveHibernation (cdb c1) id) as [h|]; [|done]. exists h. cbn in Hact1. by simplify_eq.
Qed.

(** C32. Hibernating deeply and waking is a round trip when nothing fails: from a running
    sandbox (not one marked paused), [hibernateDeepFallback] on a worker that writes the
    checkpoint, with the upload finished and no statement failing, succeeds and leaves the
    sandbox hibernated; then [wakeSandboxRemote], with a worker that restores it, either
    finds no worker and changes nothing, or leaves the session running on the chosen
    worker with no checkpoint active, exactly one billing period open, and the
    checkpoint it was restored from still in the store. *)
Theorem hibernate_wake_roundtrip now t now' order r conn dial counts rr id uid key size n mem org c :
  status_of c id = Some "running"%string ->
  option_map org_id (GetSandboxSession (cdb c) id) = Some org -> org <> ""%string ->
  option_map hibernation_mode (GetSandboxSession (cdb c) id) <> Some (Some "paused"%string) ->
  let w := {| client := true; configured := true; result := Some (key, size); w_faults := no_faults |} in
  let (c1, code1) := hibernateDeepFallback now w no_faults (upload_done t key n) id c in
  let (c2, code2) := wakeSandboxRemote order now' r conn dial counts rr true (Some mem) true no_faults id uid c1 in
  code1 = 200 /\ status_of c1 id = Some "hibernated"%string /\ key ∈ blobs c1 /\
  ((code2 = 503 /\ c2 = c1) \/
   (code2 = 200 /\ status_of c2 id = Some "running"%string /\ active_key c2 id = None /\
    length (open_periods (cdb c2) id) = 1%nat /\ key ∈ blobs c2 /\
    exists sess h wk, GetSandboxSession (cdb c1) id = Some sess /\ GetActiveHibernation (cdb c1) id = Some h /\ h_Key h = key /\
      wake_worker order r conn dial counts rr sess h = inr wk /\
      option_map worker_id (GetSandboxSession (cdb c2) id) = Some (Registry.ID wk))).
Proof.
  intros Hst Horg Hne Hmode w. destruct (hibernateDeepFallback now w no_faults (upload_done t key n) id c) as [c1 code1] eqn:E1.
  destruct (deep_fallback_state _ _ _ _ _ _ _ _ _ _ Hst Horg Hmode E1) as (-> & Hblob & Hst2 & (sess & Hsess & Hss & Hso & Hsm) & (h & Hh & Hkey)).
  destruct (wakeSandboxRemote _ _ _ _ _ _ _ _ _ _ _ _ _ c1) as [c2 code2] eqn:Ew. split_and!; [done|done|done|].
  unfold wakeSandboxRemote in Ew. rewrite Hsess, bool_decide_false, Hh, Hss in Ew by done. change (negb (same "hibernated" "hibernated")) with false in Ew. cbv iota in Ew.
  destruct (wake_worker order r conn dial counts rr sess h) as [p|wk] eqn:Ek; [left; by simplify_eq|]. right.
  unfold WakeSandbox, GetSandboxOrgID in Ew. cbn [negb] in Ew. rewrite Hsess in Ew. cbn [option_map no_faults f_end] in Ew.
  rewrite Hso, (proj2 (String.eqb_neq _ _) Hne) in Ew. cbn [orb] in Ew. injection Ew as <- <-. unfold woken. cbn [no_faults f_create f_status].
  unfold status_of, active_key. cbn [cdb on_db blobs].
  match goal with |- context [RecordScaleEvent now' ?d id org ?m ?p 0] => set (d3 := RecordScaleEvent now' d id org m p 0);
    pose proof (record_one_open now' d id org m p 0) as Hopen; fold d3 in Hopen end.
  destruct (wake_session now' (MarkHibernationRestored now' d3 id) id (Registry.ID wk) uid sess) as (r' & Hr' & Hrs & Hrw); [done|done|].
  rewrite Hr'. cbn [option_map]. split_and!; [done|by rewrite Hrs| | |done|exists sess, h, wk; by rewrite Hrw].
  - assert (hibernations (UpdateSandboxSessionForWake now' (MarkHibernationRestored now' d3 id) id (Registry.ID wk) uid) =
      hibernations (MarkHibernationRestored now' d3 id)) as Hhib by (unfold UpdateSandboxSessionForWake; by case_goal).
    pose proof (mark_restored_none now' d3 id) as Hnone. unfold GetActiveHibernation in *. by rewrite Hhib, Hnone.
  - assert (scale_events (UpdateSandboxSessionForWake now' (MarkHibernationRestored now' d3 id) id (Registry.ID wk) uid) = scale_events d3)
      as Hev by (unfold UpdateSandboxSessionForWake; by case_goal). unfold open_periods in *. by rewrite Hev.
Qed.

Lemma hibernate_wake_roundtrip_witness :
  let w := {| client := true; configured := true; result := Some ("checkpoints/sb/5.tar.zst"%string, 0); w_faults := no_faults |} in
  let r := Registry.handleHeartbeat Registry.new_registry (Registry.entry0 "w2" "a:2" ∅) false Registry.Ready true in
  match hibernateDeepFallback 5 w no_faults (upload_done 6 "checkpoints/sb/5.tar.zst" 9) "sb" one_box with
  | (c1, code1) =>
      match wakeSandboxRemote id 8 r Registry.Ready true (fun _ => None) 0 true (Some 2048) true no_faults "sb" "u" c1 with
      | (c2, code2) => code1 = 200 /\ status_of c1 "sb" = Some "hibernated"%string /\ code2 = 200 /\ status_of c2 "sb" = Some "running"%string /\
          length (open_periods (cdb c2) "sb") = 1%nat
      end
  end.
Proof.
  intros w r.
  pose proof (hibernate_wake_roundtrip 5 6 8 id r Registry.Ready true (fun _ => None) 0 "sb" "u" "checkpoints/sb/5.tar.zst" 0 9 2048 "org" one_box
    ltac:(vm_compute; reflexivity) ltac:(vm_compute; reflexivity) ltac:(discriminate) ltac:(vm_compute; discriminate)) as H.
  cbv zeta in H. fold w in H. destruct (hibernateDeepFallback 5 w _ _ _ one_box) as [c1 code1] eqn:E1.
  destruct (wakeSandboxRemote id 8 r _ _ _ _ _ _ _ _ _ _ c1) as [c2 code2] eqn:E2.
  destruct H as (H1 & H2 & _ & [[H3 _]|(H3 & H4 & _ & H5 & _)]); [exfalso|done].
  vm_compute in E1. injection E1 as <- <-. vm_compute in E2. injection E2 as _ <-. discriminate.
Defined.

(** ** The upload reconciler *)

Definition lost_message : string := "reconciler: checkpoint blob absent after grace window; upload never completed".

(** What a definite answer of the store makes of a row. *)
Definition resolve (now : Z) (stat : string -> option (option Z)) (h : SandboxHibernation) : SandboxHibernation :=
  match stat (h_Key h) with
  | Some (Some size) => set_hib h size (h_RestoredAt h) (h_ExpiredAt h) (Some now) None
  | Some None => set_hib h (h_SizeBytes h) (h_RestoredAt h) (h_ExpiredAt h) (h_UploadedAt h) (Some lost_message)
  | None => h
  end.

Lemma resolve_idem now stat h : resolve now stat (resolve now stat h) = resolve now stat h.
Proof. unfold resolve at 2 3. destruct (stat (h_Key h)) as [[size|]|] eqn:E; unfold resolve; cbn; by rewrite E. Qed.

Lemma resolve_key now stat h : h_Key (resolve now stat h) = h_Key h.
Proof. unfold resolve. by destruct (stat (h_Key h)) as [[size|]|]. Qed.

Lemma reconcile_rows_spec now stat i rows d :
  hibernations (reconcile_rows now stat (fun _ => true) (fun _ => false) i rows d) =
  map (fun h => if is_in (h_Key h) (map h_Key rows) then resolve now stat h else h) (hibernations d).
Proof.
  revert i d. induction rows as [|x rows IH]; intros i d; cbn [reconcile_rows map].
  - symmetry. apply map_id.
  - rewrite IH. set (d1 := match stat (h_Key x) with Some (Some _) => _ | Some None => _ | None => d end).
    assert (hibernations d1 = map (fun h => if same (h_Key h) (h_Key x) then resolve now stat h else h) (hibernations d)) as ->.
    { unfold d1. destruct (stat (h_Key x)) as [[size|]|] eqn:E; cbn; unfold UPDATE.
      - apply map_ext. intros h. destruct (same (h_Key h) (h_Key x)) eqn:Es; [|done]. apply same_true in Es. unfold resolve. by rewrite Es, E.
      - apply map_ext. intros h. destruct (same (h_Key h) (h_Key x)) eqn:Es; [|done]. apply same_true in Es. unfold resolve. by rewrite Es, E.
      - rewrite <- (map_id (hibernations d)) at 1. apply map_ext. intros h. destruct (same (h_Key h) (h_Key x)) eqn:Es; [|done].
        apply same_true in Es. unfold resolve. by rewrite Es, E. }
    rewrite map_map. apply map_ext. intros h. unfold is_in. cbn [existsb]. fold (is_in (h_Key h) (map h_Key rows)). unfold same.
    destruct (String.eqb (h_Key h) (h_Key x)) eqn:Es; cbn [orb]; [|done]. rewrite resolve_key.
    destruct (existsb _ _); [apply resolve_idem|done].
Qed.

Lemma filter_map_resolved cutoff now stat ks l :
  (forall key, stat key <> None) ->
  length (List.filter (stuck cutoff) (map (fun h => if is_in (h_Key h) ks then resolve now stat h else h) l)) =
  length (List.filter (fun h => negb (is_in (h_Key h) ks)) (List.filter (stuck cutoff) l)).
Proof.
  intros Hd. induction l as [|h l IH]; [done|]. cbn [map List.filter]. destruct (is_in (h_Key h) ks) eqn:E.
  - assert (stuck cutoff (resolve now stat h) = false) as ->.
    { unfold stuck, upload_pending, resolve. destruct (stat (h_Key h)) as [[size|]|] eqn:Es; [done| |by destruct (Hd (h_Key h))].
      cbn. by rewrite andb_false_r. }
    rewrite IH. destruct (stuck cutoff h); cbn; by rewrite ?E.
  - destruct (stuck cutoff h); cbn; rewrite ?E; cbn; by rewrite ?IH.
Qed.

Lemma filter_perm_length {A} (f : A -> bool) l k : l ≡ₚ k -> length (List.filter f l) = length (List.filter f k).
Proof.
  induction 1 as [|x l k H IH|x y l|l k m H1 IH1 H2 IH2]; cbn; [done|destruct (f x); cbn; by rewrite IH|by destruct (f x), (f y)|congruence].
Qed.

Lemma filter_out_prefix {A} (f : A -> bool) n l :
  (forall x, In x (take n l) -> f x = false) -> (length (List.filter f l) <= length l - n)%nat.
Proof.
  intros Hf. rewrite <- (take_drop n l) at 1. rewrite List.filter_app, length_app, <- length_drop.
  assert (List.filter f (take n l) = []) as ->.
  { induction (take n l) as [|x k IH]; [done|]. cbn. rewrite (Hf x (or_introl eq_refl)). apply IH. intros y Hy. apply Hf. by right. }
  apply filter_length_le.
Qed.

(** The upload reconciler makes progress and tells the truth: when the store
    answers and the writes succeed, a tick leaves at most as many stuck rows as
    there were beyond its batch (none, if they fitted in one), each row it lists
    becomes uploaded with the blob's size if the blob is there and failed if it is
    not, and no row with another key changes. So a lost completion cannot block
    the teardown of a worker for ever. *)
Theorem tick_resolves now stat d :
  (forall key, stat key <> None) ->
  let d' := tick now stat (fun _ => true) (fun _ => false) d in
  let listed := ListStuckHibernationUploads d (now - reconciler_grace) reconciler_batch in
  (length (List.filter (stuck (now - reconciler_grace)) (hibernations d')) <=
   length (List.filter (stuck (now - reconciler_grace)) (hibernations d)) - reconciler_batch)%nat /\
  (forall i h, hibernations d !! i = Some h ->
    hibernations d' !! i = Some (if is_in (h_Key h) (map h_Key listed) then resolve now stat h else h)) /\
  sessions d' = sessions d.
Proof.
  intros Hdef d' listed.
  assert (hibernations d' = map (fun h => if is_in (h_Key h) (map h_Key listed) then resolve now stat h else h) (hibernations d)) as Hs
    by apply reconcile_rows_spec.
  split_and!.
  - rewrite Hs, filter_map_resolved by done. unfold listed, ListStuckHibernationUploads.
    set (S := List.filter (stuck (now - reconciler_grace)) (hibernations d)).
    rewrite <- (filter_perm_length _ (merge_sort by_age S) S) by apply merge_sort_Permutation.
    rewrite <- (Permutation_length (merge_sort_Permutation by_age S)). set (P := merge_sort by_age S).
    apply filter_out_prefix. intros h Hh. apply negb_false_iff, is_in_true. by apply in_map.
  - intros i h Hi. rewrite Hs, list_lookup_fmap, Hi. done.
  - unfold d', tick. generalize 0%nat as j. generalize (ListStuckHibernationUploads d (now - reconciler_grace) reconciler_batch) as l.
    clear. induction l as [|x l IH] in d |- *; intros j; [done|]. cbn [reconcile_rows]. rewrite IH. by destruct (stat (h_Key x)) as [[|]|].
Qed.

Lemma tick_resolves_witness :
  let d := fst (CreateHibernation 10 (fst (CreateHibernation 5 (cdb one_box) "sb" "org" "k1" 0 "eu" "base")) "sb2" "org" "k2" 0 "eu" "base") in
  let stat := fun k => Some (if String.eqb k "k1" then Some 77 else None) in
  let d' := tick 2000 stat (fun _ => true) (fun _ => false) d in
  List.filter (stuck (2000 - reconciler_grace)) (hibernations d') = [] /\
  map (fun h => (h_Key h, h_UploadedAt h, h_UploadError h)) (hibernations d') =
    [("k1"%string, Some 2000, None); ("k2"%string, None, Some lost_message)].
Proof.
  intros d stat d'. destruct (tick_resolves 2000 stat d ltac:(done)) as (H & _ & _). fold d' in H. split; [|vm_compute; reflexivity].
  apply nil_length_inv. change (length (List.filter (stuck (2000 - reconciler_grace)) (hibernations d))) with 2%nat in H.
  unfold reconciler_batch in H. lia.
Defined.

End HibernateFacts.
