(* ===== verification/Maintenance.v ===== *)
(** * Background maintenance

    The control plane's loops over the session tables: the maintenance loop of
    src/cmd/server/main.go and the two sweeps of
    src/internal/controlplane/reconcile.go. *)

From stdpp Require Import sorting.
From S2P Require Import Prelude SessionStore SessionFacts.
#[local] Open Scope Z_scope.

Module Maintenance.
Export SessionFacts.

(** Seconds, the unit of the clock. *)
Definition stale_migration_age : Z := 60.
Definition stale_pending_age : Z := 15 * 60.

(** The errors of the three statements; each is independent of the others. *)
Record tick_faults := { t_recover : bool; t_reap : bool; t_orphans : bool }.

(** One tick of the maintenance loop. [live]: the workers the registry knows;
    [fails]: the dead workers whose transaction does not commit. The second
    component is what is published as stopped. *)
Definition maintenance (now : Z) (live fails : string -> bool) (f : tick_faults) (d : db) : db * list OrphanedSandbox :=
  let d := if t_recover f then d else RecoverStaleMigrations now d stale_migration_age in
  let '(d, stale) := if t_reap f then (d, []) else ReapStalePendingSessions now d stale_pending_age in
  let '(d, orphans) := if t_orphans f then (d, []) else MarkOrphanedSandboxes now d live fails in
  (d, stale ++ orphans).

(** ** The sweeps *)

Definition ListSandboxesByWorkerStatus (d : db) (worker st : string) : list session :=
  take 1000 (merge_sort by_start_desc
    (List.filter (fun r => same (worker_id r) worker && same (status r) st) (sessions d))).

Definition by_stop_desc (a b : session) : Prop := default 0 (stopped_at b) <= default 0 (stopped_at a).
#[export] Instance by_stop_desc_dec : RelDecision by_stop_desc.
Proof. intros a b. unfold by_stop_desc. apply _. Defined.

Definition ListSandboxIDsByWorkerStatus (now : Z) (d : db) (worker st : string) : list string :=
  map sandbox_id (take 1000 (merge_sort by_stop_desc
    (List.filter (fun r => same (worker_id r) worker && same (status r) st &&
       match stopped_at r with Some t => now - 24 * 3600 <? t | None => false end) (sessions d)))).

(** The sandboxes a rejoined worker is asked to destroy; [client]: there is a
    connection. *)
Definition ReconcileStoppedOnWorker (now : Z) (d : db) (worker : string) (client : bool) : list string :=
  match ListSandboxIDsByWorkerStatus now d worker "stopped" with
  | [] => []
  | ids => if client then ids else []
  end.

(** [has]: the sandboxes the worker lists, [None] when there is no client or the
    call fails. [between]: what other parties do between the query and the
    updates. [fails]: status updates that fail. *)
Definition ReconcileRunningOnWorker (now : Z) (worker : string) (has : option (list string)) (between : db -> db)
    (fails : string -> bool) (d : db) : db :=
  match ListSandboxesByWorkerStatus d worker "running" with
  | [] => d
  | cellRunning =>
      match has with
      | None => d
      | Some workerHas =>
          fold_left (fun d ref =>
            if is_in (sandbox_id ref) workerHas || fails (sandbox_id ref) then d
            else EndScaleEvent now (fst (UpdateSandboxSessionStatus now d (sandbox_id ref) "stopped"
                   (Some "reverse_reconcile_worker_lost_session"%string))) (sandbox_id ref))
            cellRunning (between d)
      end
  end.

(** ** Dead workers *)

(** Bound to its worker: running, being created, or paused in its memory. *)
Definition bound (r : session) : bool := is_in (status r) ["running"; "pending"]%string || paused_row r.

Lemma lost_row_bound w r : lost_row w r = same (worker_id r) w && bound r.
Proof. done. Qed.

Lemma finish_not_bound now m r : bound (finish now "error" m r) = false.
Proof. done. Qed.

Definition lose (now : Z) (ws : list string) (r : session) : session :=
  if is_in (worker_id r) ws && bound r then finish now "error" (Some "worker lost"%string) r else r.

Lemma orphans_rows now ws d os :
  sessions (fst (fold_left (fun '(d, os) w =>
    let '(d, batch) := reap now (lost_row w) (finish now "error" (Some "worker lost"%string)) d in (d, os ++ batch)) ws (d, os))) =
  map (lose now ws) (sessions d).
Proof.
  revert d os. induction ws as [|w ws IH]; intros d os; cbn [fold_left].
  - symmetry. apply map_id.
  - unfold reap. cbn [fst snd]. rewrite IH. cbn [sessions with_outbox with_events with_sessions]. unfold UPDATE. rewrite map_map.
    apply map_ext. intros r. rewrite lost_row_bound. unfold lose, is_in at 2. cbn [existsb]. fold (is_in (worker_id r) ws). unfold same.
    destruct (String.eqb (worker_id r) w), (bound r) eqn:Eb; cbn [andb orb];
      rewrite ?finish_not_bound, ?Eb, ?andb_false_r; done.
Qed.

Lemma MarkOrphanedSandboxes_rows now d live :
  exists ws, (forall w, In w ws <-> live w = false /\ exists r, In r (sessions d) /\ worker_id r = w /\ bound r = true) /\
    sessions (fst (MarkOrphanedSandboxes now d live (fun _ => false))) = map (lose now ws) (sessions d).
Proof.
  eexists. split; [|unfold MarkOrphanedSandboxes; apply orphans_rows].
  intros w. rewrite filter_In, negb_true_iff, <- list_elem_of_In, elem_of_remove_dups, list_elem_of_In, in_map_iff. split.
  - intros [(r & Hw & Hr) Hl]. apply filter_In in Hr as [Hr Hb]. split; [done|]. exists r. done.
  - intros [Hl (r & Hr & Hw & Hb)]. split; [|done]. exists r. split; [done|]. by apply filter_In.
Qed.

(** After a maintenance tick whose statements commit, no sandbox is left
    bound to a dead worker: every row that is running, pending or paused in
    memory is on a worker the registry knows; and no row that was on a known
    worker is marked lost. *)
Theorem maintenance_no_orphans now live d :
  let d' := fst (maintenance now live (fun _ => false) {| t_recover := false; t_reap := false; t_orphans := false |} d) in
  (forall r, In r (sessions d') -> bound r = true -> live (worker_id r) = true) /\
  (forall i r r', sessions d !! i = Some r -> sessions d' !! i = Some r' -> live (worker_id r) = true ->
    status r <> "error"%string -> status r' <> "error"%string).
Proof.
  unfold maintenance. cbn [t_recover t_reap t_orphans]. destruct (ReapStalePendingSessions _ _ _) as [d2 stale] eqn:E2.
  destruct (MarkOrphanedSandboxes now d2 live (fun _ => false)) as [d3 orphans] eqn:E3. cbn [fst].
  destruct (MarkOrphanedSandboxes_rows now d2 live) as (ws & Hws & Hrows). rewrite E3 in Hrows. cbn [fst] in Hrows. split.
  - intros r Hr Hb. rewrite Hrows in Hr. apply in_map_iff in Hr as (r0 & <- & Hr0). unfold lose in *.
    destruct (is_in (worker_id r0) ws && bound r0) eqn:E; [by rewrite finish_not_bound in Hb|].
    rewrite Hb, andb_true_r in E. apply is_in_false in E. destruct (live (worker_id r0)) eqn:El; [done|].
    destruct E. apply Hws. split; [done|]. by exists r0.
  - intros i r r' Hi Hi' Hl Hne. rewrite Hrows in Hi'. unfold ReapStalePendingSessions in E2. injection E2 as <- _.
    cbn [sessions with_events with_sessions RecoverStaleMigrations] in *. unfold UPDATE in *.
    rewrite !list_lookup_fmap, Hi in Hi'. cbn in Hi'. injection Hi' as <-.
    set (r1 := if same (status r) "migrating" && _ then _ else r).
    assert (worker_id r1 = worker_id r /\ status r1 <> "error"%string) as [Hw1 Hs1] by (unfold r1; destruct (_ && _); cbn; done).
    set (r2 := if same (status r1) "pending" && _ then _ else r1).
    assert (worker_id r2 = worker_id r /\ status r2 <> "error"%string) as [Hw2 Hs2] by (unfold r2; clearbody r1; destruct (_ && _); [split; [exact Hw1|discriminate]|done]).
    unfold lose. destruct (is_in (worker_id r2) ws && bound r2) eqn:E; [|done].
    apply andb_true_iff in E as [E _]. apply is_in_true, Hws in E as [E _]. by rewrite Hw2, Hl in E.
Qed.

(** The recovery of stale migrations compares the age of the session, not of
    the migration: a migration that has just begun, of a sandbox created more
    than a minute ago, is reverted to running on its source at the next tick;
    when it then fails after the transfer, [FailMigrationPostQMP] finds no
    migrating row and does nothing, and the row stays running on a worker that
    no longer has the sandbox. *)
Theorem stale_recovery_reverts_live_migration now started id target msg d :
  (forall r, In r (sessions d) -> sandbox_id r = id -> status r = "running"%string /\ started_at r < now - stale_migration_age) ->
  let d' := RecoverStaleMigrations now (SetMigrating started d id target) stale_migration_age in
  (forall r, In r (sessions d') -> sandbox_id r = id -> status r = "running"%string /\ migrating_to_worker r = ""%string /\
     exists r0, In r0 (sessions d) /\ sandbox_id r0 = id /\ worker_id r = worker_id r0) /\
  FailMigrationPostQMP now d' id msg = d'.
Proof.
  intros Hd d'.
  assert (forall r, In r (sessions d') -> sandbox_id r = id -> status r = "running"%string /\ migrating_to_worker r = ""%string /\
     exists r0, In r0 (sessions d) /\ sandbox_id r0 = id /\ worker_id r = worker_id r0) as Hall.
  { intros r Hr Hid. unfold d', RecoverStaleMigrations, SetMigrating in Hr. cbn [sessions with_sessions] in Hr. unfold UPDATE in Hr.
    rewrite map_map in Hr. apply in_map_iff in Hr as (r0 & <- & Hr0). revert Hid.
    destruct (same (sandbox_id r0) id && same (status r0) "running") eqn:E.
    - apply andb_true_iff in E as [Ei Es]. apply same_true in Ei. destruct (Hd r0 Hr0 Ei) as [_ Ha]. cbn.
      rewrite (proj2 (Z.ltb_lt _ _) Ha). cbn. intros _. split_and!; try done. by exists r0.
    - destruct (same (status r0) "migrating" && (started_at r0 <? now - stale_migration_age)); cbn; intros Hid;
        destruct (Hd r0 Hr0 Hid) as [Hs _]; rewrite Hs in E; unfold same in E; subst id; by rewrite !String.eqb_refl in E. }
  split; [done|]. unfold FailMigrationPostQMP.
  destruct (List.find _ (sessions d')) as [r|] eqn:E; [|done]. apply List.find_some in E as [Hr Hw].
  apply andb_true_iff in Hw as [Hi Hs]. apply same_true in Hi, Hs. destruct (Hall r Hr Hi) as [Hrun _]. congruence.
Qed.

Lemma stale_recovery_reverts_live_migration_witness :
  let d := run (empty_db []) [(1, Create "sb" "org" "base" "eu" "w1" "running" None)]%string in
  let d' := RecoverStaleMigrations 500 (SetMigrating 499 d "sb" "w2") stale_migration_age in
  map (fun r => (status r, worker_id r)) (sessions d') = [("running", "w1")]%string /\ FailMigrationPostQMP 500 d' "sb" "agent lost" = d'.
Proof.
  intros d d'. split; [vm_compute; reflexivity|].
  apply (stale_recovery_reverts_live_migration 500 499 "sb" "w2" "agent lost" d).
  intros r [<-|[]] _. split; [reflexivity|vm_compute; reflexivity].
Defined.

(** What the sweep makes of a row: names and workers stay; a running row is
    stopped if its sandbox is among those the worker does not list. *)
Definition swept (gone : list string) (r r' : session) : Prop :=
  sandbox_id r' = sandbox_id r /\ worker_id r' = worker_id r /\
  (status r = "running"%string -> status r' = if is_in (sandbox_id r) gone then "stopped"%string else "running"%string) /\
  (is_in (status r) ["running"; "edge_reserved"; "pending"]%string = false -> status r' = status r).

Lemma swept_nil r : swept [] r r.
Proof. by split_and!. Qed.

(** One update composed with the rest of the sweep. *)
Lemma swept_cons now id gone r r' m :
  swept gone (if status_where id "stopped" r then status_set now "stopped" m r else r) r' -> swept (id :: gone) r r'.
Proof.
  unfold swept, status_where. change (same "stopped" "stopped" || same "stopped" "error") with true. cbv iota.
  assert (is_in (sandbox_id r) (id :: gone) = String.eqb (sandbox_id r) id || is_in (sandbox_id r) gone) as -> by done. unfold same.
  destruct (String.eqb (sandbox_id r) id) eqn:Ei; cbn [andb orb].
  - destruct (is_in (status r) ["running"; "edge_reserved"; "pending"]%string) eqn:Es; intros (H1 & H2 & H3 & H4).
    + split_and!; [done|done| |done]. intros _. exact (H4 eq_refl).
    + split_and!; [done|done|intros Hr; by rewrite Hr in Es|auto].
  - intros (H1 & H2 & H3 & H4). split_and!; try done.
Qed.

Lemma Forall2_map_l {A} (R : A -> A -> Prop) (f : A -> A) (l k : list A) : Forall2 R (map f l) k -> Forall2 (fun x y => R (f x) y) l k.
Proof. revert k. induction l as [|x l IH]; intros k H; inversion H; subst; constructor; auto. Qed.

Lemma sweep_rows now has refs d :
  Forall2 (swept (map sandbox_id (List.filter (fun r => negb (is_in (sandbox_id r) has)) refs))) (sessions d)
    (sessions (fold_left (fun d ref =>
      if is_in (sandbox_id ref) has || false then d
      else EndScaleEvent now (fst (UpdateSandboxSessionStatus now d (sandbox_id ref) "stopped"
             (Some "reverse_reconcile_worker_lost_session"%string))) (sandbox_id ref)) refs d)).
Proof.
  revert d. induction refs as [|ref refs IH]; intros d; cbn [fold_left List.filter map].
  - induction (sessions d); constructor; [apply swept_nil|done].
  - rewrite orb_false_r. destruct (is_in (sandbox_id ref) has); cbn [negb map]; [apply IH|].
    specialize (IH (EndScaleEvent now (fst (UpdateSandboxSessionStatus now d (sandbox_id ref) "stopped"
      (Some "reverse_reconcile_worker_lost_session"%string))) (sandbox_id ref))).
    cbn [EndScaleEvent sessions with_events] in IH. rewrite status_sessions in IH. unfold UPDATE in IH.
    apply Forall2_map_l in IH. eapply Forall2_impl; [exact IH|]. intros r r'. apply swept_cons.
Qed.

(** The reverse sweep stops a sandbox by its name alone: whatever happens
    between its query for the worker's rows and the worker's answer, a listed
    sandbox that the worker does not have ends up stopped if it is running then.
    In particular a sandbox whose migration off the worker completed in between
    is marked stopped while it runs on its new worker. *)
Theorem reverse_sweep_stops_migrated now worker has between d ref target :
  In ref (ListSandboxesByWorkerStatus d worker "running") -> ~ In (sandbox_id ref) has ->
  (forall r, In r (sessions (between d)) -> sandbox_id r = sandbox_id ref -> status r = "running"%string /\ worker_id r = target) ->
  forall r, In r (sessions (ReconcileRunningOnWorker now worker (Some has) between (fun _ => false) d)) -> sandbox_id r = sandbox_id ref ->
    status r = "stopped"%string /\ worker_id r = target.
Proof.
  intros Href Hhas Hrun r Hr Hid. unfold ReconcileRunningOnWorker in Hr.
  destruct (ListSandboxesByWorkerStatus d worker "running") as [|x l] eqn:E; [done|]. rewrite <- E in Hr, Href.
  pose proof (sweep_rows now has (ListSandboxesByWorkerStatus d worker "running") (between d)) as Hs.
  rewrite <- list_elem_of_In in Hr. apply list_elem_of_lookup in Hr as [i Hi].
  destruct (Forall2_lookup_r _ _ _ _ _ Hs Hi) as (r0 & Hi0 & H1 & H2 & H3 & _).
  destruct (Hrun r0) as [Hst Hw]; [rewrite <- list_elem_of_In; by eapply list_elem_of_lookup_2|congruence|].
  split; [|congruence]. rewrite H3 by done. assert (is_in (sandbox_id r0) (map sandbox_id (List.filter (fun r => negb (is_in (sandbox_id r) has))
    (ListSandboxesByWorkerStatus d worker "running"))) = true) as ->; [|done].
  apply is_in_true. replace (sandbox_id r0) with (sandbox_id ref) by congruence. apply in_map, filter_In. split; [done|].
  by apply negb_true_iff, is_in_false.
Qed.

Lemma reverse_sweep_stops_migrated_witness :
  let d := run (empty_db []) [(1, Create "sb" "org" "base" "eu" "w1" "running" None)]%string in
  let moves d := default d (CompleteMigration 9 (SetMigrating 8 d "sb" "w2") "sb" "w2") in
  map (fun r => (status r, worker_id r)) (sessions (moves d)) = [("running", "w2")]%string /\
  match sessions (ReconcileRunningOnWorker 9 "w1" (Some []) moves (fun _ => false) d) with
  | [r] => status r = "stopped"%string /\ worker_id r = "w2"%string
  | _ => False
  end.
Proof.
  intros d moves. split; [vm_compute; reflexivity|].
  destruct (sessions d) as [|ref rest] eqn:Ed; [discriminate|].
  pose proof (reverse_sweep_stops_migrated 9 "w1" [] moves d ref "w2") as H.
  destruct (sessions (ReconcileRunningOnWorker 9 "w1" (Some []) moves (fun _ => false) d)) as [|r [|]] eqn:E;
    [discriminate| |discriminate]. vm_compute in Ed. injection Ed as <- <-.
  assert (sandbox_id r = "sb"%string) as Hid by (vm_compute in E; by injection E as <-).
  apply H; [vm_compute; by left|intros []| |by left|exact Hid].
  intros x Hx _. vm_compute in Hx. destruct Hx as [<-|[]]. done.
Defined.

End Maintenance.
