(* ===== verification/RollHealth.v ===== *)
(** * Detecting a stuck roll

    src/internal/controlplane/roll_health.go: the monitor that alerts when a
    rolling replacement stops making progress (workers on an old version, or
    creation in backoff, for longer than a deadline). Times are in nanoseconds;
    an alert is known by its deduplication key and the time its condition began. *)

From stdpp Require Import sorting.
From S2P Require Import Prelude GoFloat Scaler.
#[local] Open Scope Z_scope.

Module RollHealth.

Record monitor := { deadline : Z; grace : Z; firstSeen : gmap string Z; lastSeen : gmap string Z }.

Definition newRollHealthMonitor (dl cg : Z) : monitor :=
  {| deadline := if dl <=? 0 then 90 * Scaler.minute else dl; grace := if cg <=? 0 then 3 * Scaler.minute else cg;
     firstSeen := ∅; lastSeen := ∅ |}.

Record rollFleetSnapshot := {
  region : string; targetVersion : string; workers : list Scaler.WorkerInfo; backoffActive : bool
}.

Definition staleWorkers (s : rollFleetSnapshot) : list Scaler.WorkerInfo :=
  if String.eqb (targetVersion s) "" then []
  else List.filter (fun w => negb (String.eqb (Scaler.WorkerVersion w) "") &&
                             negb (String.eqb (Scaler.WorkerVersion w) (targetVersion s))) (workers s).

(** The condition's start, and whether it has lasted past the deadline. *)
Definition track (m : monitor) (key : string) (now : Z) : monitor * (Z * bool) :=
  let first := default now (firstSeen m !! key) in
  ({| deadline := deadline m; grace := grace m; firstSeen := <[key := first]> (firstSeen m);
      lastSeen := <[key := now]> (lastSeen m) |}, (first, deadline m <=? now - first)).

Definition reset (m : monitor) (key : string) (now : Z) : monitor :=
  match lastSeen m !! key with
  | None => m
  | Some last =>
      if grace m <=? now - last
      then {| deadline := deadline m; grace := grace m; firstSeen := delete key (firstSeen m);
              lastSeen := delete key (lastSeen m) |}
      else m
  end.

Record alert := { dedupKey : string; since : Z }.

(** One condition of a tick. *)
Definition check (m : monitor) (key : string) (now : Z) (holds : bool) : monitor * list alert :=
  if holds then
    let '(m, (first, firing)) := track m key now in
    (m, if firing then [{| dedupKey := key; since := first |}] else [])
  else (reset m key now, []).

Definition skewKey (r : string) : string := "roll_skew:" ++ r.
Definition backoffKey (r : string) : string := "roll_backoff:" ++ r.
Definition skewed (s : rollFleetSnapshot) : bool := match staleWorkers s with [] => false | _ => true end.

Definition observe (m : monitor) (now : Z) (s : rollFleetSnapshot) : monitor * list alert :=
  let '(m, a1) := check m (skewKey (region s)) now (skewed s) in
  let '(m, a2) := check m (backoffKey (region s)) now (backoffActive s) in
  (m, a1 ++ a2).

(** ** Facts *)

(** What a condition's key says after a sequence of ticks of one region, newest
    first, by the observations alone: the start of the current episode and the
    last time it held. An episode ends at a tick that finds the condition false
    when it last held at least [g] before. *)
Fixpoint episode (g : Z) (h : list (Z * bool)) : option (Z * Z) :=
  match h with
  | [] => None
  | (now, true) :: h => match episode g h with Some (first, _) => Some (first, now) | None => Some (now, now) end
  | (now, false) :: h =>
      match episode g h with Some (first, last) => if g <=? now - last then None else Some (first, last) | None => None end
  end.

(** A monitor agrees with an episode on [key]. *)
Definition agrees (m : monitor) (key : string) (e : option (Z * Z)) : Prop :=
  firstSeen m !! key = option_map fst e /\ lastSeen m !! key = option_map snd e.

Lemma check_agrees m key now b h :
  agrees m key (episode (grace m) h) ->
  agrees (fst (check m key now b)) key (episode (grace m) ((now, b) :: h)) /\
  grace (fst (check m key now b)) = grace m /\ deadline (fst (check m key now b)) = deadline m /\
  snd (check m key now b) =
    match episode (grace m) ((now, b) :: h) with
    | Some (first, _) => if b && (deadline m <=? now - first) then [{| dedupKey := key; since := first |}] else []
    | None => []
    end.
Proof.
  intros [Hf Hl]. unfold agrees, check. destruct b; cbn [episode].
  - unfold track. cbn [fst snd firstSeen lastSeen grace deadline]. rewrite Hf.
    destruct (episode (grace m) h) as [[f l]|]; cbn; rewrite !lookup_insert_eq; done.
  - unfold reset. rewrite Hl. destruct (episode (grace m) h) as [[f l]|]; cbn [option_map fst snd] in *; [|done].
    destruct (grace m <=? now - l); cbn; [by rewrite !lookup_delete_eq|done].
Qed.

Lemma check_other m key now b key' :
  key <> key' -> firstSeen (fst (check m key now b)) !! key' = firstSeen m !! key' /\ lastSeen (fst (check m key now b)) !! key' = lastSeen m !! key'.
Proof.
  intros Hne. unfold check. destruct b; [cbn; by rewrite !lookup_insert_ne|]. unfold reset. destruct (lastSeen m !! key); [|done].
  destruct (grace m <=? now - z); [cbn; by rewrite !lookup_delete_ne|done].
Qed.

Lemma keys_differ r r' : skewKey r <> backoffKey r'.
Proof. discriminate. Qed.

(** A condition that held at [t0] and at least once in every window of [g] since
    is an episode that began no later than [t0]. [h] is newest first. *)
Lemma episode_lasts g h t0 :
  (forall now b h1 h2, h = h1 ++ (now, b) :: h2 -> b = false -> t0 <= now -> exists t, In (t, true) h2 /\ now - t < g) ->
  StronglySorted (fun x y => fst y <= fst x) h -> In (t0, true) h ->
  exists first last, episode g h = Some (first, last) /\ first <= t0 <= last /\ (forall t, In (t, true) h -> t <= last).
Proof.
  induction h as [|[now b] h IH]; intros Hgap Hsort Hin; [done|]. apply StronglySorted_inv in Hsort as [Hsort Hle].
  assert (forall t c, In (t, c) h -> t <= now) as Hbelow.
  { intros t c Ht. rewrite Forall_forall in Hle. apply (Hle (t, c)). by apply list_elem_of_In. }
  assert (forall now' b' h1 h2, h = h1 ++ (now', b') :: h2 -> b' = false -> t0 <= now' -> exists t, In (t, true) h2 /\ now' - t < g) as Hgap'.
  { intros now' b' h1 h2 -> Hb Ht. by apply (Hgap now' b' ((now, b) :: h1) h2). }
  destruct b; cbn [episode].
  - destruct Hin as [Heq|Hin].
    + simplify_eq. destruct (episode g h) as [[f l]|] eqn:E.
      * exists f, t0. split_and!; [done| |lia|].
        -- clear -E Hbelow. revert f l E Hbelow. induction h as [|[n c] h IHh]; intros f l E Hb; [done|]. cbn [episode] in E.
           assert (n <= t0) by (apply (Hb n c); by left). assert (forall t d, In (t, d) h -> t <= t0) as Hb' by (intros t d Ht; apply (Hb t d); by right).
           destruct c; destruct (episode g h) as [[f' l']|] eqn:E'; try (by simplify_eq).
           ++ simplify_eq. by apply (IHh f l').
           ++ case_match; simplify_eq. by apply (IHh f l).
        -- intros t [Heq|Ht]; [by simplify_eq|by apply (Hbelow t true)].
      * exists t0, t0. split_and!; [done|lia|lia|]. intros t [Heq|Ht]; [by simplify_eq|by apply (Hbelow t true)].
    + destruct (IH Hgap' Hsort Hin) as (f & l & -> & Hfl & Hlast). exists f, now. split_and!; [done|lia| |].
      * by apply (Hbelow t0 true).
      * intros t [Heq|Ht]; [by simplify_eq|by apply (Hbelow t true)].
  - destruct Hin as [|Hin]; [by simplify_eq|]. destruct (IH Hgap' Hsort Hin) as (f & l & -> & Hfl & Hlast).
    destruct (Hgap now false [] h eq_refl eq_refl) as (t & Ht & Hlt); [by apply (Hbelow t0 true)|].
    specialize (Hlast t Ht) as Htl. destruct (Z.leb_spec g (now - l)); [lia|]. exists f, l. split_and!; [done|lia|lia|].
    intros t' [Heq|Ht']; [by simplify_eq|auto].
Qed.

Lemma episode_start g h f l : episode g h = Some (f, l) -> In (f, true) h.
Proof.
  revert f l. induction h as [|[n c] h IH]; intros f l; cbn [episode]; [done|].
  destruct c; destruct (episode g h) as [[f' l']|] eqn:E; intros H; simplify_eq; [right; by eapply IH|by left|].
  case_match; simplify_eq. right. by eapply IH.
Qed.

(** The observations of the skew of a region, newest first. *)
Definition skews (h : list (Z * rollFleetSnapshot)) : list (Z * bool) := map (fun x => (fst x, skewed (snd x))) h.

Definition after (m : monitor) (h : list (Z * rollFleetSnapshot)) : monitor :=
  fold_left (fun m x => fst (observe m (fst x) (snd x))) (rev h) m.

Lemma observe_fst m now s :
  fst (observe m now s) = fst (check (fst (check m (skewKey (region s)) now (skewed s))) (backoffKey (region s)) now (backoffActive s)).
Proof. unfold observe. by do 2 destruct (check _ _ _ _). Qed.

Lemma after_agrees m r h :
  firstSeen m = ∅ -> lastSeen m = ∅ -> Forall (fun x => region (snd x) = r) h ->
  agrees (after m h) (skewKey r) (episode (grace m) (skews h)) /\ grace (after m h) = grace m /\ deadline (after m h) = deadline m.
Proof.
  intros Hf Hl. induction h as [|[now s] h IH]; intros Hr; [unfold after, agrees; cbn; by rewrite Hf, Hl|].
  inversion Hr as [|? ? Hrs Hrh]; subst. destruct (IH Hrh) as (Ha & Hg & Hd). unfold after. cbn [rev skews map fst snd] in *.
  rewrite fold_left_app. fold (after m h). cbn [fold_left fst snd]. rewrite observe_fst.
  destruct (check_agrees (after m h) (skewKey (region s)) now (skewed s) (skews h)) as (Ha' & Hg' & Hd' & _); [by rewrite Hg|].
  set (m1 := fst (check (after m h) (skewKey (region s)) now (skewed s))) in *.
  destruct (check_other m1 (backoffKey (region s)) now (backoffActive s) (skewKey (region s))) as [H1 H2]; [by apply not_eq_sym, keys_differ|].
  unfold agrees in *. rewrite H1, H2. rewrite Hg in Ha'. split; [exact Ha'|].
  assert (forall m k b, grace (fst (check m k now b)) = grace m /\ deadline (fst (check m k now b)) = deadline m) as Hcfg.
  { intros m0 k b. unfold check, track, reset. destruct b; [done|]. repeat case_goal; done. }
  destruct (Hcfg m1 (backoffKey (region s)) (backoffActive s)) as [-> ->]. by rewrite Hg', Hd'.
Qed.

(** The stuck-roll monitor, over any sequence of ticks of a region in the
    order of time (given newest first). Liveness: if some worker has been on an
    old version since [t0], never unseen for as long as the grace period, then a
    tick that still sees one when the deadline has passed raises the alert.
    Safety: every alert names as its start a tick that did see one, at least the
    deadline before. *)
Theorem roll_stuck_alert dl cg r now s h t0 :
  let m := newRollHealthMonitor dl cg in
  Forall (fun x => region (snd x) = r) ((now, s) :: h) -> StronglySorted (fun x y => fst y <= fst x) ((now, s) :: h) ->
  let alerts := List.filter (fun a => String.eqb (dedupKey a) (skewKey r)) (snd (observe (after m h) now s)) in
  (skewed s = true -> In (t0, true) (skews ((now, s) :: h)) -> deadline m <= now - t0 ->
   (forall t b h1 h2, skews ((now, s) :: h) = h1 ++ (t, b) :: h2 -> b = false -> t0 <= t -> exists t', In (t', true) h2 /\ t - t' < grace m) ->
   exists first, alerts = [{| dedupKey := skewKey r; since := first |}] /\ first <= t0) /\
  (forall a, In a alerts -> In (since a, true) (skews ((now, s) :: h)) /\ deadline m <= now - since a /\ skewed s = true).
Proof.
  intros m Hr Hs alerts. inversion Hr as [|? ? Hrs Hrh]; subst. cbn [snd] in *.
  destruct (after_agrees m (region s) h eq_refl eq_refl Hrh) as (Ha & Hg & Hd).
  destruct (check_agrees (after m h) (skewKey (region s)) now (skewed s) (skews h)) as (_ & _ & _ & Hal); [by rewrite Hg|].
  rewrite Hg, Hd in Hal. change ((now, skewed s) :: skews h) with (skews ((now, s) :: h)) in Hal.
  assert (alerts = snd (check (after m h) (skewKey (region s)) now (skewed s))) as ->.
  { unfold alerts, observe. destruct (check (after m h) _ _ _) as [m1 a1] eqn:E1, (check m1 _ _ _) as [m2 a2] eqn:E2. cbn [snd] in *.
    rewrite List.filter_app.
    assert (List.filter (fun a => String.eqb (dedupKey a) (skewKey (region s))) a1 = a1) as ->.
    { rewrite Hal. destruct (episode (grace m) (skews ((now, s) :: h))) as [[f l]|]; [|done].
      destruct (skewed s && (deadline m <=? now - f)); [cbn [List.filter dedupKey]; by rewrite String.eqb_refl|done]. }
    assert (List.filter (fun a => String.eqb (dedupKey a) (skewKey (region s))) a2 = []) as ->; [|apply app_nil_r].
    unfold check in E2. destruct (backoffActive s); [|by injection E2 as _ <-]. unfold track in E2. injection E2 as _ <-.
    destruct (_ <=? _); [|done]. cbn [List.filter dedupKey]. by rewrite (proj2 (String.eqb_neq _ _) (not_eq_sym (keys_differ _ _))). }
  rewrite Hal. split.
  - intros Hsk Hin Hdl Hgap. destruct (episode_lasts (grace m) (skews ((now, s) :: h)) t0 Hgap) as (f & l & -> & Hfl & _); [|done|].
    + clear -Hs. induction Hs as [|x l Hl IH Hx]; [constructor|]. cbn [skews map]. constructor; [exact IH|].
      rewrite List.Forall_forall in Hx |- *. intros y Hy. apply in_map_iff in Hy as (z & <- & Hz). cbn. by apply Hx.
    + exists f. rewrite Hsk, (proj2 (Z.leb_le _ _)) by lia. split; [done|lia].
  - intros a. destruct (episode (grace m) (skews ((now, s) :: h))) as [[f l]|] eqn:E; [|done].
    destruct (skewed s && (deadline m <=? now - f)) eqn:Eb; [|done]. intros [<-|[]]. cbn [since].
    apply andb_true_iff in Eb as [-> Eb%Z.leb_le]. by apply episode_start in E.
Qed.

Definition old_worker : Scaler.WorkerInfo :=
  {| Scaler.wID := "w"; Scaler.wMachineID := "m"; Scaler.wRegion := "eu"; Scaler.Capacity := 1; Scaler.Current := 0;
     Scaler.CPUPct := GoFloat.f0; Scaler.MemPct := GoFloat.f0; Scaler.DiskPct := GoFloat.f0; Scaler.TotalMemoryMB := 0;
     Scaler.GoldenVersion := ""; Scaler.WorkerVersion := "v1" |}.

Definition snap (ws : list Scaler.WorkerInfo) : rollFleetSnapshot :=
  {| region := "eu"; targetVersion := "v2"; workers := ws; backoffActive := false |}.

(** A deadline of 10 and a grace of 3: seen at 0 and 4, not at 5, seen at 11. *)
Lemma roll_stuck_alert_witness :
  let h := [(5, snap []); (4, snap [old_worker]); (0, snap [old_worker])] in
  exists first, List.filter (fun a => String.eqb (dedupKey a) (skewKey "eu"))
    (snd (observe (after (newRollHealthMonitor 10 3) h) 11 (snap [old_worker]))) = [{| dedupKey := skewKey "eu"; since := first |}] /\ first <= 0.
Proof.
  intros h. destruct (roll_stuck_alert 10 3 "eu" 11 (snap [old_worker]) h 0) as [H _].
  - repeat constructor.
  - unfold h. repeat constructor; cbn; lia.
  - apply H; [reflexivity|cbn; auto 6|cbn; lia|].
    intros t b h1 h2 Heq Hb Ht. destruct h1 as [|x [|y [|z [|u h1]]]]; cbn in Heq; simplify_eq; cbn; try (exists 4; split; [auto|lia]).
    by destruct h1.
Defined.

End RollHealth.
