(* ===== verification/Leader.v ===== *)
(** * Leader election

    src/internal/controlplane/leader.go: control planes compete for one Redis key
    with a time to live; the holder runs the scaler. Every command to Redis is a
    step of its own, so the instances interleave between commands; a command may
    fail. An expired key is gone. *)

From S2P Require Import Prelude.
#[local] Open Scope Z_scope.

Module Leader.

Definition leaderTTL : Z := 15.
Definition leaderRefresh : Z := 5.

(** Where an instance is: before [SET NX]; after a [SET NX] that did not win;
    after a [GET] that named it, before [EXPIRE]; in [release] before its [DEL];
    stopped. *)
Inductive pc := Ready | Refused | Owned | Releasing | Stopped.

Inductive event := Became (i : string) | Lost (i : string).

(** The key: its owner and when it expires. [fired]: the callbacks, in order. *)
Record state := { key : option (string * Z); leading : gmap string unit; pcs : gmap string pc; fired : list event }.

Definition owner (s : state) (now : Z) : option string :=
  match key s with Some (o, e) => if now <? e then Some o else None | None => None end.

Definition IsLeader (s : state) (i : string) : bool := match leading s !! i with Some _ => true | None => false end.
Definition pc_of (s : state) (i : string) : pc := default Ready (pcs s !! i).

Definition goto (i : string) (p : pc) (s : state) : state :=
  {| key := key s; leading := leading s; pcs := <[i := p]> (pcs s); fired := fired s |}.
Definition set_key (k : option (string * Z)) (s : state) : state :=
  {| key := k; leading := leading s; pcs := pcs s; fired := fired s |}.

Definition become (i : string) (s : state) : state :=
  if IsLeader s i then s
  else {| key := key s; leading := <[i := tt]> (leading s); pcs := pcs s; fired := fired s ++ [Became i] |}.
Definition lose (i : string) (s : state) : state :=
  if IsLeader s i then {| key := key s; leading := delete i (leading s); pcs := pcs s; fired := fired s ++ [Lost i] |}
  else s.

(** The next command of instance [i] at time [now]; [ok]: Redis answers.
    [stop]: the loop's next turn is [release] instead of [tryAcquire]. *)
Definition step (i : string) (now : Z) (ok stop : bool) (s : state) : state :=
  match pc_of s i with
  | Ready =>
      if stop then
        (* release: GET *)
        match (if ok then owner s now else None) with
        | Some o => if String.eqb o i then goto i Releasing s else goto i Stopped (lose i s)
        | None => goto i Stopped (lose i s)
        end
      else
        (* SET key i NX EX 15 *)
        match (if ok then owner s now else Some ""%string) with
        | None => become i (set_key (Some (i, now + leaderTTL)) s)
        | Some _ => goto i Refused s
        end
  | Refused =>
      (* GET *)
      match (if ok then owner s now else None) with
      | None => goto i Ready s
      | Some o => if String.eqb o i then goto i Owned s else goto i Ready (lose i s)
      end
  | Owned =>
      (* EXPIRE, whoever holds the key now *)
      let s := match key s with
               | Some (o, e) => if ok && (now <? e) then set_key (Some (o, now + leaderTTL)) s else s
               | None => s
               end in
      goto i Ready (become i s)
  | Releasing =>
      (* DEL *)
      goto i Stopped (lose i (if ok then set_key None s else s))
  | Stopped => s
  end.

(** One command: instance, time, answered, stopping. *)
Record cmd := { c_i : string; c_now : Z; c_ok : bool; c_stop : bool }.

Definition exec (c : cmd) (s : state) : state := step (c_i c) (c_now c) (c_ok c) (c_stop c) s.
Definition run (s : state) (cs : list cmd) : state := fold_left (fun s c => exec c s) cs s.

Definition init : state := {| key := None; leading := ∅; pcs := ∅; fired := [] |}.

(** ** Facts *)

Lemma leader_become s i j : IsLeader (become i s) j = if bool_decide (i = j) then true else IsLeader s j.
Proof.
  unfold become. destruct (IsLeader s i) eqn:E; case_bool_decide; subst; try done.
  - unfold IsLeader. cbn. by rewrite lookup_insert_eq.
  - unfold IsLeader. cbn. by rewrite lookup_insert_ne.
Qed.

Lemma leader_lose s i j : IsLeader (lose i s) j = if bool_decide (i = j) then false else IsLeader s j.
Proof.
  unfold lose. destruct (IsLeader s i) eqn:E; case_bool_decide; subst; try done.
  - unfold IsLeader. cbn. by rewrite lookup_delete_eq.
  - unfold IsLeader. cbn. by rewrite lookup_delete_ne.
Qed.

Lemma leader_goto s i p j : IsLeader (goto i p s) j = IsLeader s j.
Proof. done. Qed.

Lemma pc_goto s i p j : pc_of (goto i p s) j = if bool_decide (i = j) then p else pc_of s j.
Proof.
  unfold pc_of, goto. cbn. case_bool_decide; subst; [by rewrite lookup_insert_eq|by rewrite lookup_insert_ne].
Qed.

Lemma pc_become s i j : pc_of (become i s) j = pc_of s j.
Proof. unfold become. by destruct (IsLeader s i). Qed.
Lemma pc_lose s i j : pc_of (lose i s) j = pc_of s j.
Proof. unfold lose. by destruct (IsLeader s i). Qed.
Lemma key_become s i : key (become i s) = key s.
Proof. unfold become. by destruct (IsLeader s i). Qed.
Lemma key_lose s i : key (lose i s) = key s.
Proof. unfold lose. by destruct (IsLeader s i). Qed.
Lemma leader_set_key s k j : IsLeader (set_key k s) j = IsLeader s j.
Proof. done. Qed.
Lemma pc_set_key s k j : pc_of (set_key k s) j = pc_of s j.
Proof. done. Qed.
#[local] Hint Rewrite leader_set_key pc_set_key leader_become leader_lose leader_goto pc_goto pc_become pc_lose key_become key_lose : leader.

(** The commands an instance still needs before its flag says whether it is the
    holder [o], while [o] keeps the key. *)
Definition need (o : string) (s : state) (i : string) : nat :=
  if String.eqb i o then
    (if IsLeader s i then 0 else match pc_of s i with Owned => 1 | Refused => 2 | _ => 3 end)%nat
  else match pc_of s i with
       | Owned => 3
       | Refused => if IsLeader s i then 1 else 0
       | _ => if IsLeader s i then 2 else 0
       end%nat.

(** [o] holds the key until [e] at least, and nobody is releasing it. *)
Definition held (o : string) (e : Z) (s : state) : Prop :=
  (exists e', key s = Some (o, e') /\ e <= e') /\ (forall i, pc_of s i <> Releasing /\ pc_of s i <> Stopped).

(** A command while [o] holds the key, with Redis answering. *)
Lemma step_settles o e i now s :
  held o e s -> now < e -> e <= now + leaderTTL ->
  held o e (step i now true false s) /\ (need o (step i now true false s) i <= need o s i - 1)%nat /\
  (forall j, j <> i -> need o (step i now true false s) j = need o s j).
Proof.
  intros [(e' & Hk & He') Hpc] Hnow Hext. destruct (Hpc i) as [Hr Hs].
  assert (owner s now = Some o) as Ho by (unfold owner; rewrite Hk, (proj2 (Z.ltb_lt _ _)) by lia; done).
  assert (forall j, j <> i -> bool_decide (i = j) = false) as Hne by (intros j Hj; apply bool_decide_eq_false; congruence).
  unfold step. destruct (pc_of s i) eqn:Ep; try done; rewrite ?Ho; cbn [andb].
  - split_and!.
    + split; [by exists e'|]. intros j. autorewrite with leader. by case_bool_decide.
    + unfold need. autorewrite with leader. rewrite bool_decide_true, Ep by done. destruct (String.eqb i o), (IsLeader s i); lia.
    + intros j Hj. unfold need. autorewrite with leader. by rewrite Hne.
  - destruct (String.eqb o i) eqn:Eo.
    + split_and!.
      * split; [by exists e'|]. intros j. autorewrite with leader. by case_bool_decide.
      * apply String.eqb_eq in Eo. subst o. unfold need. autorewrite with leader. rewrite bool_decide_true, Ep, String.eqb_refl by done.
        destruct (IsLeader s i); lia.
      * intros j Hj. unfold need. autorewrite with leader. by rewrite Hne.
    + split_and!.
      * split; [exists e'; cbn [goto key]; by rewrite key_lose|]. intros j. autorewrite with leader. by case_bool_decide.
      * unfold need. autorewrite with leader. rewrite !bool_decide_true by done. rewrite String.eqb_sym, Eo. lia.
      * intros j Hj. unfold need. autorewrite with leader. by rewrite !Hne.
  - rewrite Hk, (proj2 (Z.ltb_lt _ _)) by lia. split_and!.
    + split; [exists (now + leaderTTL); cbn [goto key]; by rewrite key_become|]. intros j. autorewrite with leader.
      by case_bool_decide.
    + unfold need. autorewrite with leader. rewrite !bool_decide_true by done. rewrite Ep. destruct (String.eqb i o); lia.
    + intros j Hj. unfold need. autorewrite with leader. by rewrite !Hne.
Qed.

(** Commands of one instance in a schedule. *)
Definition turns (i : string) (cs : list cmd) : nat := length (List.filter (fun c => String.eqb (c_i c) i) cs).

(** [c] is answered, comes before [e] and within a lease of it, and does not stop
    its instance. *)
Definition answered (e : Z) (c : cmd) : Prop :=
  c_ok c = true /\ c_stop c = false /\ c_now c < e /\ e <= c_now c + leaderTTL.

Lemma run_settles o e cs s :
  held o e s -> Forall (answered e) cs ->
  held o e (run s cs) /\ (forall i, (need o (run s cs) i <= need o s i - turns i cs)%nat).
Proof.
  revert s. induction cs as [|c cs IH]; intros s Hh Hcs.
  - split; [done|]. intros i. cbn. lia.
  - inversion Hcs as [|? ? (Hok & Hst & Hlt & Hle) Hcs']; subst.
    destruct (step_settles o e (c_i c) (c_now c) s Hh Hlt Hle) as (Hh' & Hd & Hother).
    cbn [run fold_left]. unfold exec at 2. unfold run in IH. unfold exec at 3. rewrite Hok, Hst.
    destruct (IH _ Hh' Hcs') as [Hh'' Hn]. split; [done|]. intros i. specialize (Hn i).
    unfold turns in *. cbn [List.filter]. destruct (String.eqb (c_i c) i) eqn:Ei; cbn [length].
    + apply String.eqb_eq in Ei. subst i. lia.
    + rewrite <- (Hother i); [lia|]. intros ->. by rewrite String.eqb_refl in Ei.
Qed.

Lemma need_zero o s i : (forall j, pc_of s j <> Releasing /\ pc_of s j <> Stopped) -> need o s i = 0%nat -> IsLeader s i = String.eqb i o.
Proof.
  intros Hpc. unfold need. destruct (String.eqb i o); [destruct (IsLeader s i); [done|]; destruct (pc_of s i); lia|].
  destruct (pc_of s i), (IsLeader s i); try done; lia.
Qed.

Lemma need_bound o s i : (need o s i <= 3)%nat.
Proof. unfold need. destruct (String.eqb i o), (IsLeader s i), (pc_of s i); lia. Qed.

(** While Redis answers, the flags agree with the key: if [o] holds the key
    for the next lease and nobody is shutting down, then after any interleaving of
    the instances' commands every instance that has issued three commands reports
    leadership exactly when it is [o]; so at most one of them leads, and [o] still
    holds the key. *)
Theorem leader_settles o e cs s :
  held o e s -> Forall (answered e) cs ->
  (exists e', key (run s cs) = Some (o, e') /\ e <= e') /\
  (forall i, (3 <= turns i cs)%nat -> IsLeader (run s cs) i = String.eqb i o).
Proof.
  intros Hh Hcs. destruct (run_settles o e cs s Hh Hcs) as [[Hk Hpc] Hn]. split; [done|].
  intros i Hi. apply need_zero; [done|]. specialize (Hn i). pose proof (need_bound o s i). lia.
Qed.

Definition go (i : string) (t : Z) : cmd := {| c_i := i; c_now := t; c_ok := true; c_stop := false |}.

(** [b] was the leader; [a] has taken the expired key. *)
Definition taken_over : state :=
  run init [go "b" 0; go "a" 20].

Lemma leader_settles_witness :
  let cs := [go "b" 21; go "a" 21; go "b" 22; go "a" 22; go "b" 26; go "a" 23] in
  IsLeader taken_over "b" = true /\ IsLeader (run taken_over cs) "b" = false /\ IsLeader (run taken_over cs) "a" = true.
Proof.
  intros cs. destruct (leader_settles "a" 35 cs taken_over) as [_ H].
  - split; [exists 35; split; [reflexivity|lia]|]. intros i.
    assert (pcs taken_over = ∅) as Hp by (vm_compute; reflexivity). unfold pc_of. rewrite Hp, lookup_empty. by split.
  - repeat constructor; cbn; unfold leaderTTL; lia.
  - split; [vm_compute; reflexivity|]. split; [apply (H "b"%string)|apply (H "a"%string)]; vm_compute; lia.
Defined.

Lemma step_cut i t stop s : stop = false -> pc_of s i = Ready \/ pc_of s i = Refused ->
  IsLeader (step i t false stop s) i = IsLeader s i /\
  (pc_of (step i t false stop s) i = Ready \/ pc_of (step i t false stop s) i = Refused).
Proof.
  intros -> [Hp|Hp]; unfold step; rewrite Hp; rewrite pc_goto, bool_decide_true by done; auto.
Qed.

(** A leader that Redis stops answering never steps down: the error branch
    keeps the current state, so however many refreshes fail and however long ago
    its lease ran out, it still reports leadership, and once another instance has
    taken the expired key two instances lead. *)
Theorem partitioned_leader_persists i cs s :
  IsLeader s i = true -> pc_of s i = Ready ->
  Forall (fun c => c_i c = i /\ c_ok c = false /\ c_stop c = false) cs ->
  IsLeader (run s cs) i = true /\ key (run s cs) = key s /\
  (forall j t, j <> i -> pc_of s j = Ready -> owner s t = None ->
     let s' := exec (go j t) (run s cs) in
     IsLeader s' i = true /\ IsLeader s' j = true /\ owner s' t = Some j).
Proof.
  intros Hl Hp Hcs.
  assert (IsLeader (run s cs) i = true /\ key (run s cs) = key s /\ (forall j, j <> i -> pc_of (run s cs) j = pc_of s j)) as (Hl' & Hk & Ho).
  { assert (pc_of s i = Ready \/ pc_of s i = Refused) as Hp' by auto. clear Hp. revert s Hl Hp'.
    induction Hcs as [|c cs (Hc & Hok & Hst) Hcs IH]; intros s Hl Hp; [done|]. cbn [run fold_left].
    unfold exec at 2 4 6. rewrite Hc, Hok, Hst. destruct (step_cut i (c_now c) false s eq_refl Hp) as [H1 H2].
    rewrite Hl in H1. destruct (IH _ H1 H2) as (H3 & H4 & H5). unfold run in *. split; [done|]. split.
    - rewrite H4. unfold step. by destruct Hp as [-> | ->].
    - intros j Hj. rewrite H5 by done. unfold step. destruct Hp as [-> | ->]; rewrite pc_goto, bool_decide_false by done; done. }
  split_and!; [done..|]. intros j t Hj Hpj Hnone. unfold exec, go, step. cbn. rewrite Ho, Hpj by done.
  unfold owner in Hnone |- *. rewrite Hk, Hnone, !leader_become. cbn. rewrite key_become. cbn.
  rewrite bool_decide_false, bool_decide_true, (proj2 (Z.ltb_lt _ _)) by (unfold leaderTTL; lia || done). done.
Qed.

Lemma partitioned_leader_persists_witness :
  let s := run init [go "a" 0] in
  let cut t := {| c_i := "a"; c_now := t; c_ok := false; c_stop := false |} in
  let s' := exec (go "b" 20) (run s [cut 5; cut 6; cut 10; cut 11; cut 15; cut 16]) in
  IsLeader s' "a" = true /\ IsLeader s' "b" = true.
Proof.
  intros s cut s'.
  destruct (partitioned_leader_persists "a" [cut 5; cut 6; cut 10; cut 11; cut 15; cut 16] s) as (_ & _ & H).
  - reflexivity.
  - reflexivity.
  - repeat constructor.
  - destruct (H "b"%string 20) as (H1 & H2 & _); [discriminate|reflexivity|reflexivity|]. split; [exact H1|exact H2].
Defined.

(** [release] reads the key and deletes it in two commands: a key that expires in
    between and is taken by another instance is deleted from under it. *)
Lemma release_deletes_successor :
  let halt t := {| c_i := "a"; c_now := t; c_ok := true; c_stop := true |} in
  let s := run init [go "a" 0; halt 14; go "b" 15; halt 15] in
  key s = None /\ IsLeader s "b" = true /\ IsLeader s "a" = false /\
  IsLeader (exec (go "c" 17) s) "c" = true.
Proof. vm_compute. done. Qed.

End Leader.
