(* ===== verification/Capacity.v ===== *)
(** * Reserved capacity

    src/internal/db/capacity.go and src/internal/api/capacity.go: organisations
    reserve memory for 15-minute intervals. A request is validated, looked up
    under its idempotency key, and written in a transaction that takes one
    advisory lock per interval. Every statement is a step of its own, so requests
    interleave between statements (read committed); a statement may fail, which
    rolls the transaction back. Times are in nanoseconds. *)

From stdpp Require Import sorting.
From S2P Require Import Prelude.
#[local] Open Scope Z_scope.

Module Capacity.

(** ** Time *)

Definition minute : Z := 60 * 10 ^ 9.
Definition quarter : Z := 15 * minute.

(** [t.Truncate(15 * time.Minute)] *)
Definition Truncate15 (t : Z) : Z := t - t mod quarter.
Definition isAligned15 (t : Z) : bool := t =? Truncate15 t.
Definition alignUp15 (t : Z) : Z := if Truncate15 t =? t then Truncate15 t else Truncate15 t + quarter.
Definition max0 (n : Z) : Z := if n <? 0 then 0 else n.

(** ** Requests *)

Record CapacityInterval := { StartsAt : Z; EndsAt : Z; CapacityGB : Z }.

(** An interval of the body: its two times as [time.Parse] reads them. *)
Record reservationIntervalBody := { ib_StartsAt : option Z; ib_EndsAt : option Z; ib_CapacityGB : Z }.

Definition capacityMinLeadTime : Z := 30 * minute.
Definition capacityMaxIntervalsPerPost : nat := 672.

Inductive invalid :=
| InvalidJSON | NoIntervals | TooManyIntervals
| BadStartsAt (i : nat) | BadEndsAt (i : nat) | NotAligned (i : nat) | NotQuarter (i : nat)
| BadCapacity (i : nat) | InsideLeadTime (i : nat) | Duplicate (i : nat).

(** The loop of [parseAndValidateReservationBody]. *)
Fixpoint validate_loop (earliest : Z) (i : nat) (seen : list Z) (l : list reservationIntervalBody) :
  result invalid (list CapacityInterval) :=
  match l with
  | [] => Ok []
  | iv :: l =>
      match ib_StartsAt iv with
      | None => Err (BadStartsAt i)
      | Some startsAt =>
          match ib_EndsAt iv with
          | None => Err (BadEndsAt i)
          | Some endsAt =>
              if negb (isAligned15 startsAt) then Err (NotAligned i)
              else if negb (endsAt =? startsAt + quarter) then Err (NotQuarter i)
              else if (ib_CapacityGB iv <=? 0) || negb (Z.rem (ib_CapacityGB iv) 4 =? 0) then Err (BadCapacity i)
              else if startsAt <? earliest then Err (InsideLeadTime i)
              else if existsb (Z.eqb startsAt) seen then Err (Duplicate i)
              else let? out := validate_loop earliest (S i) (startsAt :: seen) l in
                   Ok ({| StartsAt := startsAt; EndsAt := endsAt; CapacityGB := ib_CapacityGB iv |} :: out)
          end
      end
  end.

(** [body]: the intervals, if the body is JSON of the expected form. *)
Definition parseAndValidateReservationBody (now : Z) (body : option (list reservationIntervalBody)) :
  result invalid (list CapacityInterval) :=
  match body with
  | None => Err InvalidJSON
  | Some l =>
      if (length l =? 0)%nat then Err NoIntervals
      else if (capacityMaxIntervalsPerPost <? length l)%nat then Err TooManyIntervals
      else validate_loop (alignUp15 (now + capacityMinLeadTime)) 0 [] l
  end.

Record CreateReservationRequest := {
  OrgID : string; IdempotencyKey : string; RequestBodyHash : string; Intervals : list CapacityInterval
}.

(** ** Tables *)

(** A row of [capacity_reservation_intervals]. *)
Record row := { r_id : string; r_org : string; r_startsAt : Z; r_endsAt : Z; r_gb : Z; r_created : Z }.

Record IntervalCapacityShortfall := { sf_StartsAt : Z; sf_RequestedGB : Z; sf_ReservableGB : Z; sf_Reason : string }.

(** The JSON bodies the handler answers with and caches. *)
Inductive response :=
| Reserved (id : string) (createdAt : Z) (intervals : list CapacityInterval)
| NotAvailable (intervals : list IntervalCapacityShortfall).

(** A row of [capacity_idempotency_keys], of this endpoint. *)
Record idem_row := { k_org : string; k_key : string; k_hash : string; k_code : Z; k_body : response; k_expires : Z }.

(** [SELECT COALESCE(SUM(capacity_gb), 0)] of one organisation and bucket; also
    [GetReservedGBForBucket]. *)
Definition GetReservedGBForBucket (l : list row) (org : string) (start : Z) : Z :=
  foldr (fun r acc => (if String.eqb (r_org r) org && (r_startsAt r =? start) then r_gb r else 0) + acc) 0 l.

(** [generate_series] of the buckets of [[from, to)]. *)
Definition buckets (from to : Z) : list Z :=
  map (fun i => from + Z.of_nat i * quarter) (seq 0 (Z.to_nat ((to - from) / quarter))).

Record CalendarBucket := { cb_StartsAt : Z; cb_EndsAt : Z; cb_ReservedGB : Z }.

Definition GetCapacityCalendar (l : list row) (org : string) (from to : Z) : list CalendarBucket :=
  map (fun t => {| cb_StartsAt := t; cb_EndsAt := t + quarter; cb_ReservedGB := GetReservedGBForBucket l org t |})
    (buckets from to).

(** ** Advisory locks *)

(** 64-bit FNV-1a over the 16 bytes of the organisation, a zero, the resource, a
    zero, and the eight bytes of the time in seconds, least significant first. *)
Definition ResourceMemoryGB : string := "memory_gb".
Definition fnv_offset : Z := 14695981039346656037.
Definition fnv_prime : Z := 1099511628211.
Definition fnv_byte (h b : Z) : Z := Z.modulo (Z.lxor h b * fnv_prime) (2 ^ 64).
Definition byte_vals (s : string) : list Z := map (fun c => Z.of_N (Ascii.N_of_ascii c)) (raw s).
Definition int64 (n : Z) : Z := if n <? 2 ^ 63 then n else n - 2 ^ 64.

Definition advisoryLockKey (org : string) (startsAt : Z) : Z :=
  let t := startsAt / 10 ^ 9 in
  let ts := map (fun i => Z.modulo (Z.shiftr t (Z.of_nat i * 8)) 256) (seq 0 8) in
  int64 (fold_left fnv_byte (byte_vals org ++ [0] ++ byte_vals ResourceMemoryGB ++ [0] ++ ts) fnv_offset).

(** ** Requests in flight *)

Inductive reply := Answer (code : Z) (body : response) | Conflict | Failed.

Inductive pc :=
| Lookup                                                        (* idempotency lookup *)
| ReadLimit                                                     (* [getOrgMaxMemoryGB] *)
| Locking (max : Z) (todo : list CapacityInterval)              (* advisory locks, in order *)
| Reading (max : Z) (todo : list CapacityInterval) (short : list IntervalCapacityShortfall)
| Writing                                                       (* inserts and commit *)
| Saving (code : Z) (body : response)                           (* [SaveIdempotencyResult] *)
| Replied (r : reply).

Record txn := { t_req : CreateReservationRequest; t_pc : pc }.

(** [locks]: which transaction holds an advisory lock. *)
Record state := { ledger : list row; idem : list idem_row; locks : gmap Z nat; txns : gmap nat txn }.

Section Requests.
(** [orgs.max_memory_gb], and the lock key of an organisation's bucket. *)
Variable limit : string -> option Z.
Variable key : string -> Z -> Z.

Definition goto (t : nat) (p : pc) (s : state) : state :=
  {| ledger := ledger s; idem := idem s; locks := locks s;
     txns := alter (fun x => {| t_req := t_req x; t_pc := p |}) t (txns s) |}.

(** Advisory locks are released when the transaction ends. *)
Definition release (t : nat) (s : state) : state :=
  {| ledger := ledger s; idem := idem s; locks := filter (fun kv => kv.2 <> t) (locks s); txns := txns s |}.

Definition lock (k : Z) (t : nat) (s : state) : state :=
  {| ledger := ledger s; idem := idem s; locks := <[k := t]> (locks s); txns := txns s |}.

Definition insert_rows (rs : list row) (s : state) : state :=
  {| ledger := ledger s ++ rs; idem := idem s; locks := locks s; txns := txns s |}.

(** The live cached answer for a key. *)
Definition cached (now : Z) (req : CreateReservationRequest) (l : list idem_row) : option idem_row :=
  List.find (fun r => String.eqb (k_org r) (OrgID req) && String.eqb (k_key r) (IdempotencyKey req) && (now <? k_expires r)) l.

Definition SaveIdempotencyResult (now : Z) (req : CreateReservationRequest) (code : Z) (body : response) (s : state) : state :=
  if String.eqb (IdempotencyKey req) "" then s
  else if existsb (fun r => String.eqb (k_org r) (OrgID req) && String.eqb (k_key r) (IdempotencyKey req)) (idem s) then s
  else {| ledger := ledger s; locks := locks s; txns := txns s;
          idem := idem s ++ [{| k_org := OrgID req; k_key := IdempotencyKey req; k_hash := RequestBodyHash req;
                                k_code := code; k_body := body; k_expires := now + 24 * 60 * minute |}] |}.

Definition rows_of (id : string) (now : Z) (req : CreateReservationRequest) : list row :=
  map (fun iv => {| r_id := id; r_org := OrgID req; r_startsAt := StartsAt iv; r_endsAt := EndsAt iv;
                    r_gb := CapacityGB iv; r_created := now |}) (Intervals req).

(** The interval whose insert violates the primary key, if any. *)
Definition collision (id : string) (req : CreateReservationRequest) (l : list row) : option CapacityInterval :=
  List.find (fun iv => existsb (fun r => String.eqb (r_id r) id && (r_startsAt r =? StartsAt iv)) l) (Intervals req).

Definition shortfall (max existing : Z) (iv : CapacityInterval) : list IntervalCapacityShortfall :=
  let reservable := max0 (max - existing) in
  if reservable <? CapacityGB iv
  then [{| sf_StartsAt := StartsAt iv; sf_RequestedGB := CapacityGB iv; sf_ReservableGB := reservable;
           sf_Reason := "insufficient_capacity" |}]
  else [].

Definition fail_tx (t : nat) (s : state) : state := goto t (Replied Failed) (release t s).

(** The next statement of request [t] at time [now]; [ok]: it succeeds; [id]: the
    identifier [uuid.New] returns. [None]: the request waits for a lock, or has
    been answered. *)
Definition step (t : nat) (now : Z) (id : string) (ok : bool) (s : state) : option state :=
  match txns s !! t with
  | None => None
  | Some x =>
      let req := t_req x in
      match t_pc x with
      | Lookup =>
          if String.eqb (IdempotencyKey req) "" then Some (goto t ReadLimit s)
          else if negb ok then Some (goto t (Replied Failed) s)
          else match cached now req (idem s) with
               | Some r =>
                   if String.eqb (k_hash r) (RequestBodyHash req)
                   then Some (goto t (Replied (Answer (k_code r) (k_body r))) s)
                   else Some (goto t (Replied Conflict) s)
               | None => Some (goto t ReadLimit s)
               end
      | ReadLimit =>
          match (if ok then limit (OrgID req) else None) with
          | Some max => Some (goto t (Locking max (Intervals req)) s)
          | None => Some (goto t (Replied Failed) s)
          end
      | Locking max [] => Some (goto t (Reading max (Intervals req) []) s)
      | Locking max (iv :: todo) =>
          if negb ok then Some (fail_tx t s)
          else let k := key (OrgID req) (StartsAt iv) in
               match locks s !! k with
               | Some t' => if (t' =? t)%nat then Some (goto t (Locking max todo) s) else None
               | None => Some (goto t (Locking max todo) (lock k t s))
               end
      | Reading max [] short =>
          match short with
          | [] => Some (goto t Writing s)
          | _ => Some (goto t (Saving 409 (NotAvailable short)) (release t s))
          end
      | Reading max (iv :: todo) short =>
          if negb ok then Some (fail_tx t s)
          else let existing := GetReservedGBForBucket (ledger s) (OrgID req) (StartsAt iv) in
               Some (goto t (Reading max todo (short ++ shortfall max existing iv)) s)
      | Writing =>
          if negb ok then Some (fail_tx t s)
          else match collision id req (ledger s) with
               | Some iv =>
                   let sf := {| sf_StartsAt := StartsAt iv; sf_RequestedGB := CapacityGB iv; sf_ReservableGB := 0;
                                sf_Reason := "concurrent_write" |} in
                   Some (goto t (Saving 409 (NotAvailable [sf])) (release t s))
               | None =>
                   Some (goto t (Saving 200 (Reserved id now (Intervals req)))
                          (release t (insert_rows (rows_of id now req) s)))
               end
      | Saving code body =>
          Some (goto t (Replied (Answer code body)) (if ok then SaveIdempotencyResult now req code body s else s))
      | Replied _ => None
      end
  end.

(** A request arrives under a new number and is validated. *)
Definition arrive (t : nat) (now : Z) (org ikey hash : string) (body : option (list reservationIntervalBody)) (s : state) : state :=
  match txns s !! t, parseAndValidateReservationBody now body with
  | None, Ok ivs =>
      {| ledger := ledger s; idem := idem s; locks := locks s;
         txns := <[t := {| t_req := {| OrgID := org; IdempotencyKey := ikey; RequestBodyHash := hash; Intervals := ivs |};
                           t_pc := Lookup |}]> (txns s) |}
  | _, _ => s
  end.

Inductive event :=
| Arrive (t : nat) (now : Z) (org ikey hash : string) (body : option (list reservationIntervalBody))
| Step (t : nat) (now : Z) (id : string) (ok : bool).

(** A step that cannot be taken leaves the state as it is. *)
Definition exec (e : event) (s : state) : state :=
  match e with
  | Arrive t now org ikey hash body => arrive t now org ikey hash body s
  | Step t now id ok => default s (step t now id ok s)
  end.

Definition run (s : state) (es : list event) : state := fold_left (fun s e => exec e s) es s.

End Requests.

Definition init : state := {| ledger := []; idem := []; locks := ∅; txns := ∅ |}.

End Capacity.
