(* ===== verification/CapacityFacts.v ===== *)
(** * Reserved capacity: the ledger under concurrent requests

    Facts about [Capacity]: validation, the ledger's limit in every interleaving,
    replays under an idempotency key, and when requests can deadlock. *)

From stdpp Require Import sorting.
From S2P Require Import Prelude Capacity.
#[local] Open Scope Z_scope.

Module CapacityFacts.
Import Capacity.

(** ** Validation *)

Definition valid_interval (earliest : Z) (iv : CapacityInterval) : Prop :=
  isAligned15 (StartsAt iv) = true /\ EndsAt iv = StartsAt iv + quarter /\ 0 < CapacityGB iv /\
  Z.rem (CapacityGB iv) 4 = 0 /\ earliest <= StartsAt iv.

Lemma validate_loop_sound earliest i seen l out :
  validate_loop earliest i seen l = Ok out ->
  Forall (valid_interval earliest) out /\ NoDup (map StartsAt out) /\
  Forall (fun iv => ~ In (StartsAt iv) seen) out /\ length out = length l.
Proof.
  revert i seen out. induction l as [|iv l IH]; intros i seen out H; cbn in H.
  { simplify_eq. repeat split; constructor. }
  destruct (ib_StartsAt iv) as [st|]; [|done]. destruct (ib_EndsAt iv) as [en|]; [|done].
  repeat match type of H with (if ?b then _ else _) = _ => destruct b eqn:?; [done|] end.
  destruct (validate_loop earliest (S i) (st :: seen) l) as [out'|] eqn:E; simplify_eq.
  destruct (IH _ _ _ E) as (Hv & Hnd & Hsn & Hlen). bool_to_prop.
  assert (~ In st seen) as Hns.
  { intros Hin. match goal with Hx : existsb _ seen = false |- _ => apply not_true_iff_false in Hx; apply Hx end.
    apply existsb_exists. exists st. by rewrite Z.eqb_refl. }
  split_and!.
  - constructor; [|done]. unfold valid_interval. cbn. split_and!; try done; lia.
  - cbn. constructor; [|done]. intros Hin%list_elem_of_In%in_map_iff. destruct Hin as (iv' & He & Hin).
    rewrite List.Forall_forall in Hsn. apply (Hsn _ Hin). left. by rewrite He.
  - constructor; [done|]. eapply List.Forall_impl; [|exact Hsn]. cbn. tauto.
  - cbn. lia.
Qed.

Lemma validated_intervals now body ivs :
  parseAndValidateReservationBody now body = Ok ivs ->
  Forall (valid_interval (alignUp15 (now + capacityMinLeadTime))) ivs /\ NoDup (map StartsAt ivs) /\ ivs <> [].
Proof.
  unfold parseAndValidateReservationBody. destruct body as [l|]; [|done].
  destruct (length l =? 0)%nat eqn:E0; [done|]. destruct (capacityMaxIntervalsPerPost <? length l)%nat; [done|].
  intros H. destruct (validate_loop_sound _ _ _ _ _ H) as (Hv & Hnd & _ & Hlen). split_and!; try done.
  intros ->. cbn in Hlen. apply Nat.eqb_neq in E0. lia.
Qed.

(** ** The ledger *)

Lemma reserved_app l k org st :
  GetReservedGBForBucket (l ++ k) org st = GetReservedGBForBucket l org st + GetReservedGBForBucket k org st.
Proof. unfold GetReservedGBForBucket. induction l as [|r l IH]; cbn; [done|]. rewrite IH. lia. Qed.

Lemma reserved_rows_of id now req org st :
  NoDup (map StartsAt (Intervals req)) ->
  GetReservedGBForBucket (rows_of id now req) org st =
  if String.eqb (OrgID req) org
  then match List.find (fun iv => StartsAt iv =? st) (Intervals req) with Some iv => CapacityGB iv | None => 0 end
  else 0.
Proof.
  unfold rows_of. induction (Intervals req) as [|iv l IH]; intros Hnd; [by destruct (String.eqb _ _)|].
  cbn [map] in Hnd. apply NoDup_cons in Hnd as [Hni Hnd]. specialize (IH Hnd).
  cbn [map GetReservedGBForBucket foldr List.find r_org r_startsAt r_gb]. unfold GetReservedGBForBucket in IH. rewrite IH.
  destruct (String.eqb (OrgID req) org); cbn [andb]; [|lia]. destruct (StartsAt iv =? st) eqn:E; [|lia].
  apply Z.eqb_eq in E. subst st. destruct (List.find _ l) as [iv'|] eqn:F; [|lia].
  apply List.find_some in F as [Hin He]. apply Z.eqb_eq in He. exfalso. apply Hni. rewrite list_elem_of_In.
  rewrite <- He. by apply in_map.
Qed.

Section Requests.
Variable limit : string -> option Z.
Variable key : string -> Z -> Z.

(** ** Invariant *)

(** Transaction [t] holds the locks of these intervals. *)
Definition holds (s : state) (t : nat) (org : string) (ivs : list CapacityInterval) : Prop :=
  forall iv, In iv ivs -> locks s !! key org (StartsAt iv) = Some t.

Definition fits (s : state) (org : string) (max : Z) (iv : CapacityInterval) : Prop :=
  GetReservedGBForBucket (ledger s) org (StartsAt iv) + CapacityGB iv <= max.

Definition good_pc (s : state) (t : nat) (req : CreateReservationRequest) (p : pc) : Prop :=
  match p with
  | Locking max todo =>
      limit (OrgID req) = Some max /\ exists done_, Intervals req = done_ ++ todo /\ holds s t (OrgID req) done_
  | Reading max todo short =>
      limit (OrgID req) = Some max /\ holds s t (OrgID req) (Intervals req) /\
      exists done_, Intervals req = done_ ++ todo /\ (short = [] -> forall iv, In iv done_ -> fits s (OrgID req) max iv)
  | Writing =>
      holds s t (OrgID req) (Intervals req) /\
      exists max, limit (OrgID req) = Some max /\ forall iv, In iv (Intervals req) -> fits s (OrgID req) max iv
  | _ => True
  end.

Definition good_req (req : CreateReservationRequest) : Prop :=
  NoDup (map StartsAt (Intervals req)) /\ Forall (fun iv => 0 < CapacityGB iv) (Intervals req).

Record inv (s : state) : Prop := {
  inv_txns t x : txns s !! t = Some x -> good_req (t_req x) /\ good_pc s t (t_req x) (t_pc x);
  inv_ledger org st : GetReservedGBForBucket (ledger s) org st <= Z.max 0 (default 0 (limit org))
}.

(** What the other transactions see of a step: they keep their locks, and the
    buckets they have locked keep their sums. *)
Lemma txn_good_frame s s' t req p :
  (forall k, locks s !! k = Some t -> locks s' !! k = Some t) ->
  (forall org st, locks s !! key org st = Some t ->
     GetReservedGBForBucket (ledger s') org st = GetReservedGBForBucket (ledger s) org st) ->
  good_pc s t req p -> good_pc s' t req p.
Proof.
  intros Hl Hr. assert (forall ivs, holds s t (OrgID req) ivs -> holds s' t (OrgID req) ivs) as Hh
    by (intros ivs H iv Hin; by apply Hl, H).
  assert (forall max ivs iv, holds s t (OrgID req) ivs -> In iv ivs -> fits s (OrgID req) max iv -> fits s' (OrgID req) max iv) as Hf
    by (intros max ivs iv H Hin; unfold fits; by rewrite Hr by by apply H).
  destruct p as [| |max todo|max todo short| |code body|r]; cbn; try done.
  - intros (Hm & dn & He & Hd). split; [done|]. exists dn. by auto.
  - intros (Hm & Ha & dn & He & Hd). split_and!; [done|by auto|]. exists dn. split; [done|].
    intros Hs iv Hin. apply (Hf _ (Intervals req)); [done|rewrite He; apply in_or_app; by left|by apply Hd].
  - intros (Ha & max & Hm & Hd). split; [by auto|]. exists max. split; [done|]. intros iv Hin. by apply (Hf _ (Intervals req)); auto.
Qed.

Lemma txns_goto s t p t' :
  txns (goto t p s) !! t' = if bool_decide (t = t') then (fun x => {| t_req := t_req x; t_pc := p |}) <$> txns s !! t
                            else txns s !! t'.
Proof. cbn. case_bool_decide; [subst; by rewrite lookup_alter_eq|by rewrite lookup_alter_ne]. Qed.

(** A step of [t]: [s1] is the state with the tables and locks it leaves. *)
Lemma inv_step s s1 t x p :
  inv s -> txns s !! t = Some x -> txns s1 = txns s -> good_pc s1 t (t_req x) p ->
  (forall t' k, t' <> t -> locks s !! k = Some t' -> locks s1 !! k = Some t') ->
  (forall t' org st, t' <> t -> locks s !! key org st = Some t' ->
     GetReservedGBForBucket (ledger s1) org st = GetReservedGBForBucket (ledger s) org st) ->
  (forall org st, GetReservedGBForBucket (ledger s1) org st <= Z.max 0 (default 0 (limit org))) ->
  inv (goto t p s1).
Proof.
  intros [Ht _] Hx Htx Hg Hl Hr Hled. split; [|done]. intros t' x' Hx'. rewrite txns_goto, Htx in Hx'. case_bool_decide.
  - subst t'. rewrite Hx in Hx'. cbn in Hx'. simplify_eq/=. split; [by apply (Ht _ _ Hx)|].
    by destruct p.
  - destruct (Ht _ _ Hx') as [Hq Hp]. split; [done|]. apply (txn_good_frame s); [|by intros; apply (Hr t'); auto|done].
    intros k. cbn. by apply Hl.
Qed.

(** The same for a step that changes neither locks nor ledger. *)
Lemma inv_goto s t x p : inv s -> txns s !! t = Some x -> good_pc s t (t_req x) p -> inv (goto t p s).
Proof. intros Hi Hx Hg. apply (inv_step s s t x); try done. apply Hi. Qed.

Lemma locks_release s t t' k : t' <> t -> locks s !! k = Some t' -> locks (release t s) !! k = Some t'.
Proof. intros Hne Hk. cbn. by apply map_lookup_filter_Some. Qed.

Lemma inv_release s t x p :
  inv s -> txns s !! t = Some x -> (forall s', good_pc s' t (t_req x) p) -> inv (goto t p (release t s)).
Proof.
  intros Hi Hx Hg. apply (inv_step s (release t s) t x); try done; [|apply Hi].
  intros t' k Hne Hk. by apply locks_release.
Qed.

Lemma inv_fail s t x : inv s -> txns s !! t = Some x -> inv (fail_tx t s).
Proof. intros Hi Hx. by apply (inv_release s t x). Qed.

Lemma holds_app s t org l k : holds s t org l -> holds s t org k -> holds s t org (l ++ k).
Proof. intros H1 H2 iv [H|H]%in_app_or; auto. Qed.

Lemma inv_locking s t x max iv todo :
  inv s -> txns s !! t = Some x -> t_pc x = Locking max (iv :: todo) ->
  locks s !! key (OrgID (t_req x)) (StartsAt iv) = None ->
  inv (goto t (Locking max todo) (lock (key (OrgID (t_req x)) (StartsAt iv)) t s)).
Proof.
  intros Hi Hx Hp Hk. destruct (inv_txns _ Hi _ _ Hx) as [_ Hg]. rewrite Hp in Hg. destruct Hg as (Hm & dn & He & Hd).
  apply (inv_step s _ t x); try done; [| |apply Hi].
  - split; [done|]. exists (dn ++ [iv]). rewrite <- app_assoc. split; [done|]. apply holds_app.
    + intros iv' Hin. cbn. destruct (decide (key (OrgID (t_req x)) (StartsAt iv') = key (OrgID (t_req x)) (StartsAt iv))) as [->|Hne];
        [by rewrite lookup_insert_eq|]. rewrite lookup_insert_ne by done. by apply Hd.
    + intros iv' [<-|[]]. cbn. by rewrite lookup_insert_eq.
  - intros t' k Hne Hk'. cbn. rewrite lookup_insert_ne; [done|]. intros <-. congruence.
Qed.

Lemma shortfall_nil max existing iv :
  0 < CapacityGB iv -> shortfall max existing iv = [] -> existing + CapacityGB iv <= max.
Proof. unfold shortfall, max0. intros Hc. destruct (max - existing <? 0) eqn:E1, (_ <? CapacityGB iv) eqn:E2; bool_to_prop; done || lia. Qed.

Lemma inv_reading s t x max iv todo short :
  inv s -> txns s !! t = Some x -> t_pc x = Reading max (iv :: todo) short ->
  inv (goto t (Reading max todo
    (short ++ shortfall max (GetReservedGBForBucket (ledger s) (OrgID (t_req x)) (StartsAt iv)) iv)) s).
Proof.
  intros Hi Hx Hp. destruct (inv_txns _ Hi _ _ Hx) as [[_ Hc] Hg]. rewrite Hp in Hg. destruct Hg as (Hm & Hh & dn & He & Hd).
  apply (inv_goto s t x); [done..|]. split_and!; [done..|]. exists (dn ++ [iv]). rewrite <- app_assoc. split; [done|].
  intros [Hs1 Hs2]%app_nil iv' [Hin|[<-|[]]]%in_app_or; [by apply Hd|]. unfold fits. apply shortfall_nil; [|done].
  rewrite List.Forall_forall in Hc. apply Hc. rewrite He. apply in_or_app. right. by left.
Qed.

Lemma inv_writing s t x id now :
  inv s -> txns s !! t = Some x -> t_pc x = Writing ->
  inv (goto t (Saving 200 (Reserved id now (Intervals (t_req x)))) (release t (insert_rows (rows_of id now (t_req x)) s))).
Proof.
  intros Hi Hx Hp. destruct (inv_txns _ Hi _ _ Hx) as [[Hnd Hc] Hg]. rewrite Hp in Hg. destruct Hg as (Hh & max & Hm & Hf).
  apply (inv_step s _ t x); try done.
  - intros t' k Hne Hk. by apply locks_release.
  - intros t' org st Hne Hk. cbn [release insert_rows ledger]. rewrite reserved_app, reserved_rows_of by done.
    destruct (String.eqb (OrgID (t_req x)) org) eqn:Eo; [|lia]. apply String.eqb_eq in Eo.
    destruct (List.find _ _) as [iv|] eqn:F; [|lia]. apply List.find_some in F as [Hin He]. apply Z.eqb_eq in He.
    specialize (Hh iv Hin). rewrite Eo, He in Hh. congruence.
  - intros org st. cbn [release insert_rows ledger]. rewrite reserved_app, reserved_rows_of by done. pose proof (inv_ledger _ Hi org st) as Hl.
    destruct (String.eqb (OrgID (t_req x)) org) eqn:Eo; [|lia]. apply String.eqb_eq in Eo. subst org.
    destruct (List.find _ _) as [iv|] eqn:F; [|lia]. apply List.find_some in F as [Hin He]. apply Z.eqb_eq in He. subst st.
    specialize (Hf iv Hin). unfold fits in Hf. rewrite Hm. cbn. lia.
Qed.

(** ** Every interleaving *)

Lemma inv_save s t x now code body ok :
  inv s -> txns s !! t = Some x ->
  inv (goto t (Replied (Answer code body)) (if ok : bool then SaveIdempotencyResult now (t_req x) code body s else s)).
Proof.
  intros Hi Hx. destruct ok; [|by apply (inv_goto s t x)].
  apply (inv_step s _ t x); unfold SaveIdempotencyResult; repeat case_goal; try done; apply Hi.
Qed.

Lemma step_inv t now id ok s s' : inv s -> step limit key t now id ok s = Some s' -> inv s'.
Proof.
  intros Hi. unfold step. destruct (txns s !! t) as [x|] eqn:Hx; [|done].
  destruct (inv_txns _ Hi _ _ Hx) as [Hq Hg].
  destruct (t_pc x) as [| |max [|iv todo]|max [|iv todo] short| |code body|r] eqn:Hp; intros H.
  - repeat case_hyp H; simplify_eq; by apply (inv_goto s t x).
  - destruct (if ok then limit (OrgID (t_req x)) else None) as [max|] eqn:E; simplify_eq; [|by apply (inv_goto s t x)].
    destruct ok; [|done]. apply (inv_goto s t x); [done..|]. split; [done|]. exists []. split; [done|by intros iv []].
  - simplify_eq. destruct Hg as (Hm & dn & He & Hd). rewrite app_nil_r in He. apply (inv_goto s t x); [done..|].
    split_and!; [done|by rewrite He|]. exists []. split; [done|by intros _ iv []].
  - destruct ok; cbn [negb] in H; [|simplify_eq; by apply (inv_fail s t x)].
    destruct (locks s !! key (OrgID (t_req x)) (StartsAt iv)) as [t'|] eqn:El; [|simplify_eq; by apply (inv_locking s t x)].
    destruct (t' =? t)%nat eqn:Et; simplify_eq. apply Nat.eqb_eq in Et. subst t'. destruct Hg as (Hm & dn & He & Hd).
    apply (inv_goto s t x); [done..|]. split; [done|]. exists (dn ++ [iv]). rewrite <- app_assoc. split; [done|].
    apply holds_app; [done|]. by intros iv' [<-|[]].
  - destruct short as [|sf short]; simplify_eq; [|by apply (inv_release s t x)].
    destruct Hg as (Hm & Hh & dn & He & Hd). rewrite app_nil_r in He. subst dn.
    apply (inv_goto s t x); [done..|]. split; [done|]. exists max. auto.
  - destruct ok; cbn [negb] in H; simplify_eq; [by apply (inv_reading s t x)|by apply (inv_fail s t x)].
  - destruct ok; cbn [negb] in H; [|simplify_eq; by apply (inv_fail s t x)].
    destruct (collision _ _ _); simplify_eq; [by apply (inv_release s t x)|by apply inv_writing].
  - simplify_eq. by apply inv_save.
  - done.
Qed.

Lemma arrive_inv t now org ikey hash body s : inv s -> inv (arrive t now org ikey hash body s).
Proof.
  intros Hi. unfold arrive. destruct (txns s !! t) eqn:Ht; [done|].
  destruct (parseAndValidateReservationBody now body) as [ivs|] eqn:E; [|done].
  destruct (validated_intervals _ _ _ E) as (Hv & Hnd & _). split; [|apply Hi].
  cbn. intros t' x'. destruct (decide (t = t')) as [<-|Hne].
  - rewrite lookup_insert_eq. intros [= <-]. cbn. split; [|done]. split; [done|]. cbn.
    eapply List.Forall_impl; [|exact Hv]. intros iv (_ & _ & Hc & _). done.
  - rewrite lookup_insert_ne by done. intros Hx. destruct (inv_txns _ Hi _ _ Hx) as [Hq Hg]. split; [done|].
    by apply (txn_good_frame s).
Qed.

Lemma run_inv es s : inv s -> inv (run limit key s es).
Proof.
  revert s. induction es as [|e es IH]; intros s Hi; [done|]. cbn. apply IH. destruct e as [t now org ikey hash body|t now id ok]; cbn.
  - by apply arrive_inv.
  - destruct (step limit key t now id ok s) eqn:E; [|done]. by apply (step_inv t now id ok s).
Qed.

Lemma inv_init : inv init.
Proof. split; [intros t x; cbn [init txns]; by rewrite lookup_empty|]. intros org st. cbn. lia. Qed.

(** C24. Reservations never exceed the organisation's limit: whatever requests
    arrive and however their statements interleave or fail, the memory reserved in
    the ledger for any bucket is at most [max_memory_gb], provided the limit is not
    changed. This holds for any lock keys, also ones that collide. *)
Theorem ledger_within_limit es org st :
  GetReservedGBForBucket (ledger (run limit key init es)) org st <= Z.max 0 (default 0 (limit org)).
Proof. apply inv_ledger, run_inv, inv_init. Qed.

(** ** Who holds the locks *)

(** The intervals a transaction has locked. *)
Definition acquired (x : txn) : list CapacityInterval :=
  let ivs := Intervals (t_req x) in
  match t_pc x with
  | Locking _ todo => take (length ivs - length todo) ivs
  | Reading _ _ _ | Writing => ivs
  | _ => []
  end.

Definition lock_inv (s : state) : Prop :=
  forall k t, locks s !! k = Some t ->
  exists x iv, txns s !! t = Some x /\ In iv (acquired x) /\ k = key (OrgID (t_req x)) (StartsAt iv).

Lemma lock_inv_step s s1 t x p :
  lock_inv s -> txns s !! t = Some x -> txns s1 = txns s ->
  (forall t' k, t' <> t -> locks s1 !! k = Some t' -> locks s !! k = Some t') ->
  (forall k, locks s1 !! k = Some t ->
     exists iv, In iv (acquired {| t_req := t_req x; t_pc := p |}) /\ k = key (OrgID (t_req x)) (StartsAt iv)) ->
  lock_inv (goto t p s1).
Proof.
  intros Hi Hx Htx Hl Ht k t' Hk. rewrite txns_goto, Htx. change (locks s1 !! k = Some t') in Hk. case_bool_decide.
  - subst t'. rewrite Hx. cbn. destruct (Ht k Hk) as (iv & Hin & Hkey). by exists {| t_req := t_req x; t_pc := p |}, iv.
  - by apply Hi, Hl.
Qed.

Lemma lock_inv_goto s s1 t x p :
  lock_inv s -> txns s !! t = Some x -> txns s1 = txns s -> locks s1 = locks s ->
  incl (acquired x) (acquired {| t_req := t_req x; t_pc := p |}) -> lock_inv (goto t p s1).
Proof.
  intros Hi Hx Htx Hlk Hinc. apply (lock_inv_step s s1 t x); rewrite ?Hlk; try done.
  intros k Hk. destruct (Hi k t Hk) as (x' & iv & Hx' & Hin & ->). rewrite Hx in Hx'. simplify_eq. exists iv. auto.
Qed.

Lemma lock_inv_release s s1 t x p :
  lock_inv s -> txns s !! t = Some x -> txns s1 = txns s -> locks s1 = locks s -> lock_inv (goto t p (release t s1)).
Proof.
  intros Hi Hx Htx Hlk. apply (lock_inv_step s (release t s1) t x); try done; cbn; rewrite Hlk.
  - intros t' k Hne Hk. by apply map_lookup_filter_Some in Hk as [Hk _].
  - intros k Hk. apply map_lookup_filter_Some in Hk as [_ Hk]. by cbn in Hk.
Qed.

Lemma acquired_incl x iv : In iv (acquired x) -> In iv (Intervals (t_req x)).
Proof.
  unfold acquired. destruct (t_pc x); try done. intros H. rewrite <- (take_drop (length (Intervals (t_req x)) - length todo)).
  apply in_or_app. by left.
Qed.

Lemma acquired_locking req max dn todo :
  Intervals req = dn ++ todo -> acquired {| t_req := req; t_pc := Locking max todo |} = dn.
Proof.
  intros He. unfold acquired. cbn. rewrite He, length_app. replace (length dn + length todo - length todo)%nat with (length dn) by lia.
  by rewrite take_app_length.
Qed.

Ltac keeps H := eapply H; first [eassumption | done | apply incl_nil_l | apply incl_refl].

Lemma step_lock_inv t now id ok s s' :
  inv s -> lock_inv s -> step limit key t now id ok s = Some s' -> lock_inv s'.
Proof.
  intros Hi Hl. unfold step. destruct (txns s !! t) as [x|] eqn:Hx; [|done].
  destruct (inv_txns _ Hi _ _ Hx) as [_ Hg]. pose proof (lock_inv_goto s s t x) as Hgo.
  destruct x as [req p]. cbn [t_req t_pc] in *.
  destruct p as [| |max [|iv todo]|max [|iv todo] short| |code body|r] eqn:Hp; intros H.
  - repeat case_hyp H; simplify_eq; keeps Hgo.
  - destruct (if ok then limit (OrgID req) else None); simplify_eq; keeps Hgo.
  - simplify_eq. destruct Hg as (_ & dn & He & _). apply Hgo; try done. rewrite (acquired_locking _ _ dn) by done. cbn.
    rewrite He, app_nil_r. apply incl_refl.
  - destruct ok; cbn [negb] in H; [|simplify_eq; by apply (lock_inv_release s s t {| t_req := req; t_pc := Locking max (iv :: todo) |})].
    destruct Hg as (_ & dn & He & _). assert (Intervals req = (dn ++ [iv]) ++ todo) as He' by (by rewrite <- app_assoc).
    destruct (locks s !! key (OrgID req) (StartsAt iv)) as [t'|] eqn:El.
    + destruct (t' =? t)%nat; simplify_eq. apply Hgo; try done.
      rewrite (acquired_locking _ _ dn), (acquired_locking _ _ (dn ++ [iv])) by done. by apply incl_appl, incl_refl.
    + simplify_eq. apply (lock_inv_step s _ t {| t_req := req; t_pc := Locking max (iv :: todo) |}); try done; cbn [lock locks].
      * intros t' k Hne. destruct (decide (key (OrgID req) (StartsAt iv) = k)) as [<-|]; [rewrite lookup_insert_eq; congruence|].
        by rewrite lookup_insert_ne.
      * intros k. cbn [t_req]. rewrite (acquired_locking _ _ (dn ++ [iv])) by done.
        destruct (decide (key (OrgID req) (StartsAt iv) = k)) as [<-|]; [exists iv; split; [apply in_or_app; right; by left|done]|].
        rewrite lookup_insert_ne by done. intros Hk. destruct (Hl k t Hk) as (x' & iv' & Hx' & Hin & ->). rewrite Hx in Hx'. simplify_eq.
        rewrite (acquired_locking _ _ dn) in Hin by done. exists iv'. split; [apply in_or_app; by left|done].
  - destruct short; simplify_eq; [keeps Hgo|by apply (lock_inv_release s s t {| t_req := req; t_pc := Reading max [] (i :: short) |})].
  - destruct ok; cbn [negb] in H; simplify_eq; [keeps Hgo|].
    by apply (lock_inv_release s s t {| t_req := req; t_pc := Reading max (iv :: todo) short |}).
  - destruct ok; cbn [negb] in H; [|simplify_eq; by apply (lock_inv_release s s t {| t_req := req; t_pc := Writing |})].
    destruct (collision _ _ _); simplify_eq; by eapply (lock_inv_release s _ t {| t_req := req; t_pc := Writing |}).
  - simplify_eq. destruct ok; [|keeps Hgo]. unfold SaveIdempotencyResult.
    repeat case_goal; try (keeps Hgo); keeps (lock_inv_goto s {| ledger := ledger s; locks := locks s; txns := txns s; idem := idem s ++ [_] |} t {| t_req := req; t_pc := Saving code body |}).
  - done.
Qed.

Lemma run_lock_inv es s : inv s -> lock_inv s -> lock_inv (run limit key s es).
Proof.
  revert s. induction es as [|e es IH]; intros s Hi Hl; [done|]. cbn. destruct e as [t now org ikey hash body|t now id ok]; cbn.
  - apply IH; [by apply arrive_inv|]. unfold arrive. destruct (txns s !! t) eqn:Ht; [done|].
    destruct (parseAndValidateReservationBody now body); [|done]. intros k t' Hk. destruct (Hl k t' Hk) as (x & iv & Hx & Hrest).
    exists x, iv. split; [|done]. cbn. rewrite lookup_insert_ne; [done|congruence].
  - destruct (step limit key t now id ok s) eqn:E; [|by apply IH]. cbn. apply IH; [by apply (step_inv t now id ok s)|].
    by apply (step_lock_inv t now id ok s).
Qed.

(** ** Progress *)

Definition replied (x : txn) : bool := match t_pc x with Replied _ => true | _ => false end.

(** A request that cannot move waits for a lock another one holds. *)
Lemma stuck_waits s t x now id :
  txns s !! t = Some x -> replied x = false -> step limit key t now id true s = None ->
  exists max iv todo t', t_pc x = Locking max (iv :: todo) /\ locks s !! key (OrgID (t_req x)) (StartsAt iv) = Some t' /\ t' <> t.
Proof.
  intros Hx Hr. unfold step, replied in *. rewrite Hx. cbn [negb].
  destruct (t_pc x) as [| |max [|iv todo]|max [|iv todo] [|]| |code body|r]; try done; intros H.
  - by repeat case_hyp H.
  - by destruct (limit _).
  - destruct (locks s !! _) as [t'|] eqn:El; [|done]. destruct (t' =? t)%nat eqn:Et; [done|]. apply Nat.eqb_neq in Et.
    by exists max, iv, todo, t'.
  - by destruct (collision _ _ _).
Qed.

(** Whether a request can move does not depend on the clock or the identifier. *)
Lemma moves_any s t x s' :
  txns s !! t = Some x -> replied x = false -> step limit key t 0 ""%string true s = Some s' ->
  forall now id, step limit key t now id true s <> None.
Proof.
  intros Hx Hr Es now id Hno. destruct (stuck_waits s t x now id Hx Hr Hno) as (max & iv & todo & t' & Hp & Hk & Hne).
  unfold step in Es. rewrite Hx, Hp in Es. cbn [negb] in Es. rewrite Hk in Es. apply Nat.eqb_neq in Hne. by rewrite Hne in Es.
Qed.

(** The bucket a request waits for, if it is at a lock. *)
Definition at_lock (x : txn) : Z := match t_pc x with Locking _ (iv :: _) => StartsAt iv | _ => 0 end.

Lemma at_lock_bound (m : gmap nat txn) : exists M, forall t x, m !! t = Some x -> at_lock x <= M.
Proof.
  induction m as [|t x m Hm [M IH]] using map_ind; [exists 0; intros t x; by rewrite lookup_empty|].
  exists (Z.max M (at_lock x)). intros t' x'. destruct (decide (t = t')) as [<-|Hne].
  - rewrite lookup_insert_eq. intros [= <-]. lia.
  - rewrite lookup_insert_ne by done. intros H. specialize (IH _ _ H). lia.
Qed.

Lemma sorted_before (dn : list CapacityInterval) iv todo iv0 :
  StronglySorted Z.lt (map StartsAt (dn ++ iv :: todo)) -> In iv0 dn -> StartsAt iv0 < StartsAt iv.
Proof.
  induction dn as [|a dn IH]; intros Hs Hin; [done|]. cbn in Hs. inversion Hs as [|? ? Hs' Ha]; subst.
  destruct Hin as [<-|Hin]; [|by apply IH]. rewrite List.Forall_forall in Ha. apply Ha. rewrite map_app. apply in_or_app. right. by left.
Qed.

(** No two buckets with different starts, among those the requests of [s] name,
    have the same lock key. *)
Definition keys_apart (s : state) : Prop :=
  forall t x t' x' iv iv',
    txns s !! t = Some x -> txns s !! t' = Some x' -> In iv (Intervals (t_req x)) -> In iv' (Intervals (t_req x')) ->
    key (OrgID (t_req x)) (StartsAt iv) = key (OrgID (t_req x')) (StartsAt iv') -> StartsAt iv = StartsAt iv'.

(** C37. Requests whose intervals are in ascending order cannot deadlock: as long
    as the lock keys of the buckets these requests name (for the code's 64-bit
    hash, see the witness) collide at most between buckets of one start, in every
    reachable state in which some request has not been answered, some unanswered
    request can take its next step. *)
Theorem sorted_requests_progress es :
  let s := run limit key init es in
  keys_apart s ->
  (forall t x, txns s !! t = Some x -> StronglySorted Z.lt (map StartsAt (Intervals (t_req x)))) ->
  (exists t x, txns s !! t = Some x /\ replied x = false) ->
  exists t x, txns s !! t = Some x /\ replied x = false /\ forall now id, step limit key t now id true s <> None.
Proof.
  intros s Hinj Hsort (t0 & x0 & Hx0 & Hr0).
  assert (inv s) as Hi by apply run_inv, inv_init.
  assert (lock_inv s) as Hl.
  { apply run_lock_inv; [apply inv_init|]. intros k t. cbn [init locks]. by rewrite lookup_empty. }
  destruct (at_lock_bound (txns s)) as [M HM].
  remember (Z.to_nat (M - at_lock x0)) as n eqn:Hn. revert t0 x0 Hx0 Hr0 Hn.
  induction n as [n IH] using lt_wf_ind; intros t x Hx Hr Hn.
  destruct (step limit key t 0 ""%string true s) as [s'|] eqn:Es.
  - exists t, x. split_and!; [done..|]. by apply (moves_any s t x s').
  - destruct (stuck_waits s t x 0 ""%string Hx Hr Es) as (max & iv & todo & t' & Hp & Hk & Hne).
    destruct (Hl _ _ Hk) as (x' & iv' & Hx' & Hin & Hkey). destruct (inv_txns _ Hi _ _ Hx) as [_ Hgx].
    rewrite Hp in Hgx. destruct Hgx as (_ & dnx & Hex & _).
    assert (In iv' (Intervals (t_req x'))) as Hiv' by (by apply acquired_incl).
    apply (Hinj t x t' x' iv iv') in Hkey as Hst; [|done..|rewrite Hex; apply in_or_app; right; by left|done].
    assert (replied x' = false) as Hr' by (unfold replied; unfold acquired in Hin; by destruct (t_pc x')).
    destruct (step limit key t' 0 ""%string true s) as [s'|] eqn:Es'.
    + exists t', x'. split_and!; [done..|]. by apply (moves_any s t' x' s').
    + destruct (stuck_waits s t' x' 0 ""%string Hx' Hr' Es') as (max' & iv2 & todo' & t2 & Hp' & _ & _).
      destruct (inv_txns _ Hi _ _ Hx') as [_ Hg]. rewrite Hp' in Hg. destruct Hg as (_ & dn & He & _).
      destruct x' as [req' p']. cbn [t_req t_pc] in *. subst p'. rewrite (acquired_locking _ _ dn) in Hin by done.
      pose proof (Hsort _ _ Hx') as Hs. cbn [t_req] in Hs. rewrite He in Hs. pose proof (sorted_before _ _ _ _ Hs Hin) as Hlt.
      pose proof (HM _ _ Hx') as Hb. assert (at_lock x = StartsAt iv) as Ha by (unfold at_lock; by rewrite Hp).
      cbn [at_lock t_pc] in Hb. apply (IH (Z.to_nat (M - StartsAt iv2)) ltac:(lia) t' _ Hx' Hr' eq_refl).
Qed.

End Requests.

(** ** Concrete requests *)

Definition hour : Z := 60 * minute.
Definition slot (t : Z) (gb : Z) : reservationIntervalBody :=
  {| ib_StartsAt := Some t; ib_EndsAt := Some (t + quarter); ib_CapacityGB := gb |}.
Definition acme : string := "0123456789abcdef".
Definition limit64 : string -> option Z := fun _ => Some 64.

(** [n] statements of request [t], all of which succeed. *)
Definition steps (t n : nat) (id : string) : list event := repeat (Step t 0 id true) n.

Lemma sorted_requests_progress_witness :
  let es := [Arrive 0 0 acme "" "h" (Some [slot hour 8; slot (hour + quarter) 8]);
             Arrive 1 0 acme "" "h" (Some [slot hour 8; slot (hour + quarter) 8])] ++ steps 0 3 "a" ++ steps 1 3 "b" in
  let s := run limit64 advisoryLockKey init es in
  step limit64 advisoryLockKey 1 0 "b" true s = None /\
  exists t x, txns s !! t = Some x /\ replied x = false /\ forall now id, step limit64 advisoryLockKey t now id true s <> None.
Proof.
  intros es s. split; [vm_compute; reflexivity|].
  assert (map_Forall (fun _ x => OrgID (t_req x) = acme /\ map StartsAt (Intervals (t_req x)) = [hour; hour + quarter]) (txns s)) as H
    by (refine (proj1 (bool_decide_eq_true _) _); vm_compute; reflexivity).
  apply (sorted_requests_progress limit64 advisoryLockKey es).
  - assert (forall t x iv, txns s !! t = Some x -> In iv (Intervals (t_req x)) ->
      OrgID (t_req x) = acme /\ (StartsAt iv = hour \/ StartsAt iv = hour + quarter)) as Hs.
    { intros t x iv Hx Hiv. destruct (H t x Hx) as [Ho Hm]. split; [exact Ho|]. apply (in_map StartsAt) in Hiv. rewrite Hm in Hiv.
      destruct Hiv as [<-|[<-|[]]]; auto. }
    intros t x t' x' iv iv' Hx Hx' Hiv Hiv'. destruct (Hs _ _ _ Hx Hiv) as [-> Hv], (Hs _ _ _ Hx' Hiv') as [-> Hv'].
    destruct Hv as [-> | ->], Hv' as [-> | ->]; vm_compute; congruence.
  - intros t x Hx. destruct (H t x Hx) as [_ ->]. repeat constructor; unfold hour, quarter, minute; lia.
  - exists 0%nat. eexists. split; vm_compute; reflexivity.
Defined.

(** The locks are not taken in a fixed order: [CreateReservation] takes them in
    the order of the request, and validation does not sort, so two valid requests
    of one organisation for the same two buckets in opposite orders can each hold
    one lock and wait for the other; neither can move until its statement fails. *)
Theorem unsorted_requests_deadlock :
  exists es, let s := run limit64 advisoryLockKey init es in
  (exists x, txns s !! 0%nat = Some x /\ replied x = false) /\
  (exists x, txns s !! 1%nat = Some x /\ replied x = false) /\
  (forall now id, step limit64 advisoryLockKey 0 now id true s = None) /\
  (forall now id, step limit64 advisoryLockKey 1 now id true s = None) /\
  dom (txns s) = {[0%nat; 1%nat]}.
Proof.
  exists ([Arrive 0 0 acme "" "h" (Some [slot hour 8; slot (hour + quarter) 8]);
           Arrive 1 0 acme "" "h" (Some [slot (hour + quarter) 8; slot hour 8])] ++ steps 0 3 "a" ++ steps 1 3 "b").
  intros s. split_and!; [eexists; split; vm_compute; reflexivity..| | |by vm_compute];
    intros now id; vm_compute; reflexivity.
Qed.

(** A retry sent while the first request is still running is not recognised: both
    look up the key before either has cached its answer, and both reserve. *)
Lemma idempotency_race :
  let body := Some [slot hour 8] in
  let s := run limit64 advisoryLockKey init
    ([Arrive 0 0 acme "k" "h" body; Arrive 1 0 acme "k" "h" body] ++ steps 0 1 "a" ++ steps 1 1 "b" ++ steps 0 9 "a" ++ steps 1 9 "b") in
  GetReservedGBForBucket (ledger s) acme hour = 16 /\ length (idem s) = 1%nat.
Proof. vm_compute. done. Qed.

(** A key used again after its answer expired is never cached again: the expired
    row is still there, and the insert does nothing, so a retry of the second
    request reserves once more. *)
Lemma expired_key_not_cached :
  let body := Some [slot (100 * hour) 8] in
  let at_ t n now := repeat (Step t now (if (t =? 1)%nat then "b" else "c")%string true) n in
  let s := run limit64 advisoryLockKey init
    ([Arrive 0 0 acme "k" "g" (Some [slot hour 4])] ++ steps 0 9 "a" ++
     [Arrive 1 (25 * hour) acme "k" "h" body] ++ at_ 1%nat 9%nat (25 * hour) ++
     [Arrive 2 (25 * hour) acme "k" "h" body] ++ at_ 2%nat 9%nat (25 * hour)) in
  GetReservedGBForBucket (ledger s) acme (100 * hour) = 16.
Proof. vm_compute. done. Qed.

End CapacityFacts.
