(* ===== verification/GoNum.v ===== *)
(** * Number systems for metering

    The meters compute with [float64]. Their definitions are written once, over an
    interface [Num], with two instances: [float64] as the code computes, and exact
    rationals, for the laws that rounding only approximates. *)

From Stdlib Require Import QArith Qcanon.
From S2P Require Import Prelude GoFloat.
#[local] Open Scope Z_scope.

Module GoNum.

(** What the meters use of a number type: conversion from integers, the four
    operations, comparison and the conversion to [int] (toward zero). *)
Class Num (N : Type) := {
  of_Z : Z -> N;
  nadd : N -> N -> N;
  nsub : N -> N -> N;
  nmul : N -> N -> N;
  ndiv : N -> N -> N;
  nlt : N -> N -> bool;
  nle : N -> N -> bool;
  ntrunc : N -> Z
}.

#[export] Instance float_num : Num GoFloat.float64 := {
  of_Z := GoFloat.of_int; nadd := GoFloat.fadd; nsub := GoFloat.fsub; nmul := GoFloat.fmul; ndiv := GoFloat.fdiv;
  nlt := GoFloat.flt; nle := GoFloat.fle; ntrunc := GoFloat.to_int
}.

#[export] Instance exact_num : Num Qc := {
  of_Z := Qc_of_Z; nadd := Qcplus; nsub := Qcminus; nmul := Qcmult; ndiv := Qcdiv;
  nlt x y := bool_decide (x < y)%Qc; nle x y := bool_decide (x <= y)%Qc; ntrunc x := Z.quot (Qnum x) (QDen x)
}.

(** [math.Ceil], as an integer. *)
Definition nceil {N} `{Num N} (x : N) : Z := if nlt (of_Z (ntrunc x)) x then ntrunc x + 1 else ntrunc x.

(** [time.Duration.Seconds] on nanoseconds. *)
Definition second : Z := 10 ^ 9.
Definition Seconds {N} `{Num N} (d : Z) : N :=
  nadd (of_Z (Z.quot d second)) (ndiv (of_Z (Z.rem d second)) (of_Z second)).

(** ** The exact instance *)

Lemma Qc_second_nonzero : Qc_of_Z second <> 0%Qc.
Proof. intros H. apply (f_equal this) in H. by vm_compute in H. Qed.

Lemma Seconds_exact d : Seconds (N := Qc) d = (Qc_of_Z d / Qc_of_Z second)%Qc.
Proof.
  unfold Seconds. cbn [nadd of_Z ndiv exact_num]. rewrite (Z.quot_rem' d second) at 3.
  rewrite Z2Qc_inj_add, Z2Qc_inj_mul. field. apply Qc_second_nonzero.
Qed.

Lemma Seconds_nonneg d : 0 <= d -> (0 <= Seconds (N := Qc) d)%Qc.
Proof.
  intros Hd. rewrite Seconds_exact. unfold Qcdiv.
  apply (Qcmult_lt_0_le_reg_r _ _ (Qc_of_Z second)).
  - rewrite <- Z2Qc_inj_0. by apply Z2Qc_inj_lt.
  - rewrite <- Qcmult_assoc, Qcmult_inv_l by apply Qc_second_nonzero. rewrite Qcmult_1_r, Qcmult_0_l, <- Z2Qc_inj_0.
    by rewrite <- Z2Qc_inj_le.
Qed.

(** Truncation is the integer part of a non-negative number. *)
Lemma ntrunc_exact (x : Qc) : (0 <= x)%Qc -> (Qc_of_Z (ntrunc x) <= x)%Qc /\ (x < Qc_of_Z (ntrunc x) + 1)%Qc /\ 0 <= ntrunc x.
Proof.
  intros Hx. destruct x as [[n d] Hc]. cbn [ntrunc exact_num this Qnum Qden].
  assert (0 <= n) as Hn by (unfold Qcle, Qle in Hx; cbn [this Qnum Qden Q2Qc Qred] in Hx; cbn in Hx; rewrite Z.mul_1_r in Hx; exact Hx).
  pose proof (Z.quot_rem' n (Z.pos d)) as Hqr. pose proof (Z.rem_bound_pos n (Z.pos d) Hn ltac:(lia)) as Hb.
  split_and!.
  - unfold Qcle, Qle. cbn. lia.
  - rewrite <- Z2Qc_inj_1, <- Z2Qc_inj_add. unfold Qclt, Qlt. cbn. lia.
  - by apply Z.quot_pos.
Qed.

End GoNum.
