(* ===== verification/Allocator.v ===== *)
(** * The capacity allocator

    src/internal/billing/capacity_reconciler.go and the outbox of
    src/internal/db/billable_events.go: every settled 15-minute bucket of an
    organisation is integrated over its running sandboxes, split into the reserved
    floor and the overage above it, and written to [billable_events], from where
    src/internal/billing/billable_events_sender.go ships it. Times are in
    nanoseconds; amounts are over [Num]. *)

From stdpp Require Import sorting.
From Stdlib Require Import QArith Qcanon.
From S2P Require Import Prelude GoFloat GoNum SessionStore Capacity.
#[local] Open Scope Z_scope.

Module Allocator.
Import GoNum.
Export SessionStore.
Abbreviation quarter := Capacity.quarter.

(** ** Integration of a bucket *)

Record clippedEvent := { From : Z; To : Z; TierMB : Z; DiskMB : Z }.

Definition clipEvent (e : ScaleEvent) (bucketStart bucketEnd : Z) : option clippedEvent :=
  let from := if se_StartedAt e <? bucketStart then bucketStart else se_StartedAt e in
  let to := match se_EndedAt e with Some t => if t <? bucketEnd then t else bucketEnd | None => bucketEnd end in
  if to <=? from then None else Some {| From := from; To := to; TierMB := se_MemoryMB e; DiskMB := se_DiskMB e |}.

(** A boundary not seen yet is appended. *)
Definition add_boundary (t : Z) (out : list Z) : list Z := if existsb (Z.eqb t) out then out else out ++ [t].

Definition collectBoundaries (events : list clippedEvent) (bucketStart bucketEnd : Z) : list Z :=
  merge_sort Z.le (fold_left (fun out e => add_boundary (To e) (add_boundary (From e) out)) events [bucketStart; bucketEnd]).

Record segment := { sg_From : Z; sg_To : Z; RunningByTier : gmap Z Z; DiskOverageMB : Z }.

(** [e.From <= from && e.To >= to] *)
Definition covers (from to : Z) (e : clippedEvent) : bool := (From e <=? from) && (to <=? To e).

Definition disk_over (e : clippedEvent) : Z := if 20480 <? DiskMB e then DiskMB e - 20480 else 0.

Definition running (from to : Z) (events : list clippedEvent) : gmap Z Z :=
  fold_left (fun m e => if covers from to e then <[TierMB e := default 0 (m !! TierMB e) + Z.quot (TierMB e) 1024]> m else m)
    events ∅.

Definition disk_overage (from to : Z) (events : list clippedEvent) : Z :=
  fold_left (fun n e => if covers from to e then n + disk_over e else n) events 0.

Fixpoint walkSegments (boundaries : list Z) (events : list clippedEvent) : list segment :=
  match boundaries with
  | from :: ((to :: _) as rest) =>
      if to <=? from then walkSegments rest events
      else {| sg_From := from; sg_To := to; RunningByTier := running from to events;
              DiskOverageMB := disk_overage from to events |} :: walkSegments rest events
  | _ => []
  end.

Section Amounts.
Context {N : Type} `{Num N}.

Record BucketTotals := {
  OverageGBSecondsByTier : gmap Z N; DiskOverageGBSeconds : N; ReservedFloorGBSeconds : N
}.

Definition tier_add (tier : Z) (x : N) (m : gmap Z N) : gmap Z N :=
  <[tier := match m !! tier with Some y => nadd y x | None => nadd (of_Z 0) x end]> m.

Definition segment_usage (s : segment) : Z := map_fold (fun _ gb acc => gb + acc) 0 (RunningByTier s).

(** The body of the loop of [integrateSegments]. *)
Definition integrate_segment (reservedGB : Z) (out : BucketTotals) (s : segment) : BucketTotals :=
  let secs := Seconds (sg_To s - sg_From s) in
  let usage := segment_usage s in
  let '(over, floor) :=
    if reservedGB <? usage then
      let spike := of_Z (usage - reservedGB) in
      (map_fold (fun tier gb m => let share := ndiv (of_Z gb) (of_Z usage) in tier_add tier (nmul (nmul spike share) secs) m)
         (OverageGBSecondsByTier out) (RunningByTier s),
       nadd (ReservedFloorGBSeconds out) (nmul (of_Z reservedGB) secs))
    else (OverageGBSecondsByTier out, nadd (ReservedFloorGBSeconds out) (nmul (of_Z usage) secs)) in
  let disk :=
    if 0 <? DiskOverageMB s
    then nadd (DiskOverageGBSeconds out) (nmul (ndiv (of_Z (DiskOverageMB s)) (of_Z 1024)) secs)
    else DiskOverageGBSeconds out in
  {| OverageGBSecondsByTier := over; DiskOverageGBSeconds := disk; ReservedFloorGBSeconds := floor |}.

Definition no_totals : BucketTotals :=
  {| OverageGBSecondsByTier := ∅; DiskOverageGBSeconds := of_Z 0; ReservedFloorGBSeconds := of_Z 0 |}.

Definition integrateSegments (segs : list segment) (reservedGB : Z) : BucketTotals :=
  fold_left (integrate_segment reservedGB) segs no_totals.

Definition clip_all (bucketStart bucketEnd : Z) (events : list ScaleEvent) : list clippedEvent :=
  omap (fun e => clipEvent e bucketStart bucketEnd) events.

Definition IntegrateBucket (bucketStart bucketEnd reservedGB : Z) (events : list ScaleEvent) : BucketTotals :=
  let clipped := clip_all bucketStart bucketEnd events in
  integrateSegments (walkSegments (collectBoundaries clipped bucketStart bucketEnd) clipped) reservedGB.

(** ** The outbox *)

Record BillableEvent := {
  be_ID : string; be_OrgID : string; be_EventType : string; be_MemoryMB : Z; be_GBSeconds : N;
  be_BucketStart : Z; be_BucketEnd : Z; be_DeliveryState : string; be_StripeEventID : option string
}.

(** The columns of the unique constraint. *)
Definition same_row (a b : BillableEvent) : bool :=
  String.eqb (be_OrgID a) (be_OrgID b) && String.eqb (be_EventType a) (be_EventType b) &&
  (be_MemoryMB a =? be_MemoryMB b) && (be_BucketStart a =? be_BucketStart b).

(** The new table, or an error; [ok]: the statement succeeds. *)
Definition UpsertBillableEvent (ok : bool) (ev : BillableEvent) (l : list BillableEvent) : option (list BillableEvent) :=
  if nle (be_GBSeconds ev) (of_Z 0) then None
  else if negb (be_BucketEnd ev - be_BucketStart ev =? quarter) then None
  else if negb ok then None
  else if existsb (same_row ev) l then Some l else Some (l ++ [ev]).

(** The identifier the database generates for the row with these columns. *)
Variable row_id : string -> string -> Z -> Z -> string.

Definition billable (org type : string) (mem : Z) (gbs : N) (bucketStart bucketEnd : Z) : BillableEvent :=
  {| be_ID := row_id org type mem bucketStart; be_OrgID := org; be_EventType := type;
     be_MemoryMB := mem; be_GBSeconds := gbs; be_BucketStart := bucketStart; be_BucketEnd := bucketEnd;
     be_DeliveryState := "pending"; be_StripeEventID := None |}.

(** The rows [emitBucket] writes, in order; [order] is the iteration order of the
    map of tiers. *)
Definition bucket_rows (order : list (Z * N) -> list (Z * N)) (org : string) (bucketStart bucketEnd reservedGB : Z)
    (totals : BucketTotals) : list BillableEvent :=
  (if 0 <? reservedGB
   then [billable org "reserved_usage" 0 (nmul (of_Z reservedGB) (of_Z 900)) bucketStart bucketEnd] else []) ++
  omap (fun '(tier, gbs) =>
    if nle gbs (of_Z 0) then None else Some (billable org "overage_usage" tier gbs bucketStart bucketEnd))
    (order (map_to_list (OverageGBSecondsByTier totals))) ++
  (if nlt (of_Z 0) (DiskOverageGBSeconds totals)
   then [billable org "disk_overage_usage" 0 (DiskOverageGBSeconds totals) bucketStart bucketEnd] else []).

(** Rows are written one by one; the first error ends the emission, and the rows
    before it stay. [ok n]: the n-th statement succeeds. *)
Fixpoint emit_rows (ok : nat -> bool) (n : nat) (rows : list BillableEvent) (l : list BillableEvent) : list BillableEvent * bool :=
  match rows with
  | [] => (l, true)
  | ev :: rows =>
      match UpsertBillableEvent (ok n) ev l with
      | Some l => emit_rows ok (S n) rows l
      | None => (l, false)
      end
  end.

Definition emitBucket (order : list (Z * N) -> list (Z * N)) (ok : nat -> bool) (org : string)
    (bucketStart bucketEnd reservedGB : Z) (totals : BucketTotals) (l : list BillableEvent) : list BillableEvent * bool :=
  emit_rows ok 0 (bucket_rows order org bucketStart bucketEnd reservedGB totals) l.

(** ** The allocator's tick *)

Definition by_started (a b : ScaleEvent) : Prop := se_StartedAt a <= se_StartedAt b.
#[local] Instance by_started_dec a b : Decision (by_started a b) := Z_le_dec _ _.

Definition GetScaleEventsForBucket (d : db) (org : string) (bucketStart bucketEnd : Z) : list ScaleEvent :=
  merge_sort by_started
    (List.filter (fun e => String.eqb (se_OrgID e) org && (se_StartedAt e <? bucketEnd) &&
       match se_EndedAt e with None => true | Some t => bucketStart <? t end && negb (covered d (se_SandboxID e)))
       (scale_events d)).

(** Buckets an event touches between the two times: [date_bin] to [date_bin]. *)
Definition event_buckets (lookbackStart cutoff : Z) (e : ScaleEvent) : list Z :=
  let last := Z.min (default cutoff (se_EndedAt e)) cutoff in
  if (se_StartedAt e <? cutoff) && (lookbackStart <? default cutoff (se_EndedAt e))
  then Capacity.buckets (Capacity.Truncate15 (Z.max (se_StartedAt e) lookbackStart)) (Capacity.Truncate15 (last - 1000) + quarter)
  else [].

Definition candidate_before (a b : string * Z) : Prop :=
  snd a < snd b \/ (snd a = snd b /\ String.le (fst a) (fst b)).
#[local] Instance candidate_before_dec a b : Decision (candidate_before a b).
Proof. unfold candidate_before. apply _. Defined.

(** [eligible]: organisations with [plan = 'pro'] and [billing_mode = 'unified']. *)
Definition ListAllocatorCandidates (eligible : string -> bool) (d : db) (ledger : list Capacity.row) (l : list BillableEvent)
    (lookbackStart cutoff : Z) (limit : nat) : list (string * Z) :=
  let reservation_buckets :=
    map (fun r => (Capacity.r_org r, Capacity.r_startsAt r))
      (List.filter (fun r => (lookbackStart <=? Capacity.r_startsAt r) && (Capacity.r_startsAt r <? cutoff) && eligible (Capacity.r_org r)) ledger) in
  let scale_buckets :=
    flat_map (fun e => map (fun b => (se_OrgID e, b)) (event_buckets lookbackStart cutoff e))
      (List.filter (fun e => eligible (se_OrgID e)) (scale_events d)) in
  take limit (merge_sort candidate_before
    (List.filter (fun c => negb (existsb (fun ev => String.eqb (be_OrgID ev) (fst c) && (be_BucketStart ev =? snd c)) l))
      (remove_dups (reservation_buckets ++ scale_buckets)))).

Definition processBucket (order : list (Z * N) -> list (Z * N)) (ok : nat -> bool) (d : db) (ledger : list Capacity.row)
    (org : string) (bucketStart : Z) (l : list BillableEvent) : list BillableEvent * bool :=
  let bucketEnd := bucketStart + quarter in
  let reservedGB := Capacity.GetReservedGBForBucket ledger org bucketStart in
  let events := GetScaleEventsForBucket d org bucketStart bucketEnd in
  emitBucket order ok org bucketStart bucketEnd reservedGB (IntegrateBucket bucketStart bucketEnd reservedGB events) l.

Definition settle : Z := 30 * Capacity.minute.
Definition lookback : Z := 24 * 60 * Capacity.minute.
Definition tick_limit : nat := 500.

(** [ok c n]: the n-th insert for candidate [c] succeeds. *)
Definition tick (order : list (Z * N) -> list (Z * N)) (ok : string * Z -> nat -> bool) (eligible : string -> bool) (now : Z)
    (d : db) (ledger : list Capacity.row) (l : list BillableEvent) : list BillableEvent :=
  let cutoff := Capacity.Truncate15 (now - settle) in
  fold_left (fun l c => fst (processBucket order (ok c) d ledger (fst c) (snd c) l))
    (ListAllocatorCandidates eligible d ledger l (cutoff - lookback) cutoff tick_limit) l.

(** ** The sender *)

Definition mark_sent (stripeID : string) (ev : BillableEvent) : BillableEvent :=
  {| be_ID := be_ID ev; be_OrgID := be_OrgID ev; be_EventType := be_EventType ev; be_MemoryMB := be_MemoryMB ev;
     be_GBSeconds := be_GBSeconds ev; be_BucketStart := be_BucketStart ev; be_BucketEnd := be_BucketEnd ev;
     be_DeliveryState := "sent"; be_StripeEventID := Some stripeID |}.

Definition MarkBillableEventSent (id stripeID : string) (l : list BillableEvent) : list BillableEvent :=
  UPDATE (fun ev => String.eqb (be_ID ev) id) (mark_sent stripeID) l.

(** [customer]: the Stripe customer of an organisation billed in unified mode by
    Stripe. Rows are in the order of their creation. *)
Definition ListPendingBillableEventsForSender (customer : string -> option string) (limit : nat) (l : list BillableEvent) :
  list (BillableEvent * string) :=
  take limit (omap (fun ev => if String.eqb (be_DeliveryState ev) "pending" then (fun c => (ev, c)) <$> customer (be_OrgID ev) else None) l).

(** Names of the meters; an empty one is not provisioned. *)
Record meters := { ReservedMeter : string; OverageMeter : string; DiskOverageMeter : string }.

Definition meterEventNameFor (m : meters) (eventType : string) : option string :=
  let name s := if String.eqb s "" then None else Some s in
  if String.eqb eventType "reserved_usage" then name (ReservedMeter m)
  else if String.eqb eventType "overage_usage" then name (OverageMeter m)
  else if String.eqb eventType "disk_overage_usage" then name (DiskOverageMeter m)
  else None.

(** A meter event as Stripe receives it: meter, customer, amount, identifier,
    time. *)
Record meter_event := { m_name : string; m_customer : string; m_value : N; m_identifier : string; m_timestamp : Z }.

(** [report]: Stripe accepts (and names) the event; [saved]: the row is updated. *)
Definition shipOne (m : meters) (report : option string) (saved : bool) (ev : BillableEvent) (customer : string)
    (st : list BillableEvent * list meter_event) : list BillableEvent * list meter_event :=
  match meterEventNameFor m (be_EventType ev), report with
  | Some name, Some stripeID =>
      let sent := snd st ++ [{| m_name := name; m_customer := customer; m_value := be_GBSeconds ev; m_identifier := be_ID ev;
                                m_timestamp := Z.quot (be_BucketEnd ev) second |}] in
      (if saved then MarkBillableEventSent (be_ID ev) stripeID (fst st) else fst st, sent)
  | _, _ => st
  end.

Definition send_batch : nat := 200.

Definition sender_tick (m : meters) (customer : string -> option string) (report : string -> option string) (saved : string -> bool)
    (st : list BillableEvent * list meter_event) : list BillableEvent * list meter_event :=
  fold_left (fun st '(ev, c) => shipOne m (report (be_ID ev)) (saved (be_ID ev)) ev c st)
    (ListPendingBillableEventsForSender customer send_batch (fst st)) st.

End Amounts.
Arguments BucketTotals : clear implicits.
Arguments BillableEvent : clear implicits.

End Allocator.
