(* ===== verification/AllocatorFacts.v ===== *)
(** * The capacity allocator: what it meters

    [IntegrateBucket] against a metering of every instant, in exact arithmetic;
    the uniqueness of the outbox, replays, and what a partial emission loses. *)

From stdpp Require Import sorting.
From Stdlib Require Import QArith Qcanon.
From S2P Require Import Prelude GoFloat GoNum SessionStore Capacity Allocator.
#[local] Open Scope Z_scope.

Module AllocatorFacts.
Import GoNum Allocator.

(** ** Metering by instants *)

(** What runs at an instant, read off the scale events. *)
Definition active_at (t : Z) (e : ScaleEvent) : bool :=
  (se_StartedAt e <=? t) && match se_EndedAt e with Some u => t <? u | None => true end.

Definition running_at (events : list ScaleEvent) (t : Z) : gmap Z Z :=
  fold_left (fun m e => if active_at t e then <[se_MemoryMB e := default 0 (m !! se_MemoryMB e) + Z.quot (se_MemoryMB e) 1024]> m else m)
    events ∅.

Definition disk_at (events : list ScaleEvent) (t : Z) : Z :=
  fold_left (fun n e => if active_at t e then n + (if 20480 <? se_DiskMB e then se_DiskMB e - 20480 else 0) else n) events 0.

Definition usage (m : gmap Z Z) : Z := map_fold (fun _ gb acc => gb + acc) 0 m.

(** Gigabytes of a tier above the reservation: the excess, shared among the tiers
    in proportion to what each runs. *)
Definition over_gb (reservedGB : Z) (m : gmap Z Z) (tier : Z) : Qc :=
  if reservedGB <? usage m
  then (Qc_of_Z (usage m - reservedGB) * (Qc_of_Z (default 0%Z (m !! tier)) / Qc_of_Z (usage m)))%Qc else 0%Qc.

Definition floor_gb (reservedGB : Z) (m : gmap Z Z) : Qc := Qc_of_Z (Z.min reservedGB (usage m)).

Definition qsum {A} (f : A -> Qc) (l : list A) : Qc := foldr (fun a acc => f a + acc)%Qc 0%Qc l.

(** Gigabyte-seconds over a window: one nanosecond at each of its instants. *)
Definition gb_seconds (from to : Z) (f : Z -> Qc) : Qc := (qsum f (seqZ from (to - from)) / Qc_of_Z second)%Qc.

(** ** Sums *)

Lemma qsum_app {A} (f : A -> Qc) l k : qsum f (l ++ k) = (qsum f l + qsum f k)%Qc.
Proof. unfold qsum. induction l as [|a l IH]; cbn [foldr app]; [ring|]. rewrite IH. ring. Qed.

Lemma qsum_ext {A} (f g : A -> Qc) l : (forall a, In a l -> f a = g a) -> qsum f l = qsum g l.
Proof.
  unfold qsum. induction l as [|a l IH]; intros H; cbn [foldr]; [done|]. rewrite (H a) by (by left). rewrite IH; [done|].
  intros b Hb. apply H. by right.
Qed.

Lemma qsum_const {A} (c : Qc) (l : list A) : qsum (fun _ => c) l = (c * Qc_of_Z (Z.of_nat (length l)))%Qc.
Proof.
  unfold qsum. induction l as [|a l IH]; cbn [foldr length]; [change (Z.of_nat 0) with 0; rewrite Z2Qc_inj_0; ring|]. rewrite IH.
  rewrite Nat2Z.inj_succ, <- Z.add_1_r, Z2Qc_inj_add, Z2Qc_inj_1. ring.
Qed.

(** A function constant on the instants of an interval. *)
Lemma qsum_interval (f : Z -> Qc) c from len :
  0 <= len -> (forall t, from <= t < from + len -> f t = c) -> qsum f (seqZ from len) = (c * Qc_of_Z len)%Qc.
Proof.
  intros Hl Hf. rewrite (qsum_ext f (fun _ => c)).
  - rewrite qsum_const, length_seqZ, Z2Nat.id by done. done.
  - intros t Ht. apply Hf. apply list_elem_of_In, elem_of_seqZ in Ht. lia.
Qed.

(** ** Segments *)

(** What a clipped event list runs at an instant. *)
Definition c_active (t : Z) (e : clippedEvent) : bool := (From e <=? t) && (t <? To e).
Definition c_running (evs : list clippedEvent) (t : Z) : gmap Z Z :=
  fold_left (fun m e => if c_active t e then <[TierMB e := default 0 (m !! TierMB e) + Z.quot (TierMB e) 1024]> m else m) evs ∅.
Definition c_disk (evs : list clippedEvent) (t : Z) : Z :=
  fold_left (fun n e => if c_active t e then n + disk_over e else n) evs 0.

Lemma fold_cond {A B} (p q : B -> bool) (f : A -> B -> A) l a :
  (forall b, In b l -> p b = q b) ->
  fold_left (fun a b => if p b then f a b else a) l a = fold_left (fun a b => if q b then f a b else a) l a.
Proof.
  revert a. induction l as [|b l IH]; intros a H; [done|]. cbn. rewrite (H b) by (by left). apply IH. intros c Hc. apply H. by right.
Qed.

(** An instant of a bucket sees an event exactly when it sees its clipped form. *)
Lemma active_clip bs be t e :
  bs <= t < be -> active_at t e = match clipEvent e bs be with Some c => c_active t c | None => false end.
Proof.
  intros Ht. unfold active_at, clipEvent, c_active.
  destruct (se_EndedAt e) as [u|]; [destruct (Z.ltb_spec u be)|]; destruct (Z.ltb_spec (se_StartedAt e) bs);
    repeat (match goal with |- context [?a <=? ?b] => destruct (Z.leb_spec a b) | |- context [?a <? ?b] => destruct (Z.ltb_spec a b) end;
            cbn [From To andb] in *); try done; lia.
Qed.

Lemma clip_fields e bs be c : clipEvent e bs be = Some c ->
  TierMB c = se_MemoryMB e /\ DiskMB c = se_DiskMB e /\ (bs <= be -> bs <= From c <= be /\ bs <= To c <= be).
Proof.
  unfold clipEvent. destruct (_ <=? _) eqn:E; [done|]. intros [= <-]. cbn. split_and!; [done..|]. intros Hb. revert E.
  destruct (se_EndedAt e) as [u|]; [destruct (u <? be) eqn:Eu|]; destruct (se_StartedAt e <? bs) eqn:Es; intros; bool_to_prop; lia.
Qed.

Lemma running_clip events bs be t : bs <= t < be -> c_running (clip_all bs be events) t = running_at events t.
Proof.
  intros Ht. unfold c_running, running_at, clip_all. generalize (∅ : gmap Z Z).
  induction events as [|e l IH]; intros m; [done|]. cbn. rewrite (active_clip bs be) by done.
  destruct (clipEvent e bs be) as [c|] eqn:E; [|apply IH]. cbn. destruct (clip_fields _ _ _ _ E) as (-> & _). apply IH.
Qed.

Lemma disk_clip events bs be t : bs <= t < be -> c_disk (clip_all bs be events) t = disk_at events t.
Proof.
  intros Ht. unfold c_disk, disk_at, clip_all.
  match goal with |- fold_left ?f ?l 0 = fold_left ?g ?k 0 => enough (forall n, fold_left f l n = fold_left g k n) as H by apply H end.
  induction events as [|e l IH]; intros m; [done|]. cbn. rewrite (active_clip bs be) by done.
  destruct (clipEvent e bs be) as [c|] eqn:E; [|apply IH]. cbn. unfold disk_over at 2. destruct (clip_fields _ _ _ _ E) as (_ & -> & _). apply IH.
Qed.

(** Every endpoint is at or before the head, or further on in the list. *)
Definition ends_in (evs : list clippedEvent) (h : Z) (l : list Z) : Prop :=
  forall c, In c evs -> (From c <= h \/ In (From c) l) /\ (To c <= h \/ In (To c) l).

(** No endpoint lies inside a segment, so an event covers it iff it is active at
    any of its instants. *)
Lemma covers_active evs h n l t c :
  StronglySorted Z.le (h :: n :: l) -> ends_in evs h (n :: l) -> In c evs -> h <= t < n -> covers h n c = c_active t c.
Proof.
  intros Hs He Hc Ht. inversion Hs as [|? ? Hs' _]; subst. inversion Hs' as [|? ? _ Hn]; subst. rewrite List.Forall_forall in Hn.
  assert (forall x, x <= h \/ In x (n :: l) -> x <= h \/ n <= x) as Hx by (intros x [?|[<-|Hin]]; [by left|right; lia|right; by apply Hn]).
  destruct (He c Hc) as [HF HT]. apply Hx in HF, HT. unfold covers, c_active.
  destruct (Z.leb_spec (From c) h), (Z.leb_spec n (To c)), (Z.leb_spec (From c) t), (Z.ltb_spec t (To c)); cbn; try done; lia.
Qed.

Lemma last_cons_default (l : list Z) n h : List.last (n :: l) h = List.last l n.
Proof. revert n h. induction l as [|a l IH]; intros n h; [done|]. rewrite (IH a n). apply (IH a h). Qed.

Lemma last_In (l : list Z) d : l <> [] -> In (List.last l d) l.
Proof.
  revert d. induction l as [|a l IH]; intros d Hne; [done|]. rewrite last_cons_default. destruct l as [|b l]; [by left|].
  right. by apply IH.
Qed.

(** The sum over the segments is the sum over the instants. *)
Lemma walk_instants (F : gmap Z Z -> Z -> Qc) evs l h :
  StronglySorted Z.le (h :: l) -> ends_in evs h l ->
  qsum (fun s => F (RunningByTier s) (DiskOverageMB s) * Qc_of_Z (sg_To s - sg_From s))%Qc (walkSegments (h :: l) evs) =
  qsum (fun t => F (c_running evs t) (c_disk evs t)) (seqZ h (List.last l h - h)).
Proof.
  revert h. induction l as [|n l IH]; intros h Hs He; [cbn [List.last]; by rewrite Z.sub_diag|].
  inversion Hs as [|? ? Hs' Hh]; subst. assert (h <= n) as Hle by (rewrite List.Forall_forall in Hh; apply Hh; by left).
  pose proof (last_cons_default l n h) as Hlast.
  assert (ends_in evs n l) as He' by (intros c Hc; destruct (He c Hc) as [[?|[<-|?]] [?|[<-|?]]]; split; (left; lia) || by right).
  specialize (IH n Hs' He'). cbn [walkSegments]. destruct (n <=? h) eqn:E; bool_to_prop.
  - assert (n = h) as -> by lia. rewrite Hlast. apply IH.
  - rewrite Hlast. assert (n <= List.last l n) as Hll.
    { destruct l as [|a l]; [done|]. inversion Hs' as [|? ? _ Hn]; subst. rewrite List.Forall_forall in Hn. apply Hn, last_In; done. }
    replace (List.last l n - h) with ((n - h) + (List.last l n - n)) by lia. rewrite seqZ_app by lia.
    rewrite qsum_app. replace (h + (n - h)) with n by lia. rewrite <- IH. cbn [qsum foldr sg_From sg_To RunningByTier DiskOverageMB]. f_equal.
    symmetry. apply qsum_interval; [lia|]. intros t Ht.
    assert (forall c, In c evs -> c_active t c = covers h n c) as Hc by (intros c Hc; symmetry; apply (covers_active evs h n l); done || lia).
    f_equal; unfold c_running, c_disk, running, disk_overage; by apply fold_cond.
Qed.

(** ** Boundaries *)

Lemma in_add_boundary t out x : In x (add_boundary t out) <-> x = t \/ In x out.
Proof.
  unfold add_boundary. destruct (existsb (Z.eqb t) out) eqn:E.
  - apply existsb_exists in E as (y & Hy & He). apply Z.eqb_eq in He. subst y. naive_solver.
  - rewrite in_app_iff. cbn. naive_solver.
Qed.

Lemma in_boundaries evs bs be x :
  In x (collectBoundaries evs bs be) <-> x = bs \/ x = be \/ exists c, In c evs /\ (x = From c \/ x = To c).
Proof.
  unfold collectBoundaries. rewrite <- list_elem_of_In, merge_sort_Permutation, list_elem_of_In.
  assert (forall l out, In x (fold_left (fun out e => add_boundary (To e) (add_boundary (From e) out)) l out) <->
    In x out \/ exists c, In c l /\ (x = From c \/ x = To c)) as H.
  { induction l as [|c l IH]; intros out; cbn; [naive_solver|]. rewrite IH, !in_add_boundary. naive_solver. }
  rewrite H. cbn. naive_solver.
Qed.

(** The boundaries of a bucket start at its start, end at its end, are sorted, and
    include every endpoint. *)
Lemma boundaries_spec events bs be :
  bs <= be -> let evs := clip_all bs be events in
  exists l, collectBoundaries evs bs be = bs :: l /\ StronglySorted Z.le (bs :: l) /\ ends_in evs bs l /\ List.last l bs = be.
Proof.
  intros Hb evs. assert (forall c, In c evs -> bs <= From c <= be /\ bs <= To c <= be) as Hc.
  { intros c. unfold evs, clip_all. rewrite <- list_elem_of_In, list_elem_of_omap. intros (e & _ & He).
    by apply (clip_fields _ _ _ _ He). }
  assert (forall x, In x (collectBoundaries evs bs be) -> bs <= x <= be) as Hin.
  { intros x. rewrite in_boundaries. intros [->|[->|(c & Hin & [->| ->])]]; [lia..| |]; by apply Hc. }
  assert (StronglySorted Z.le (collectBoundaries evs bs be)) as Hs by (apply StronglySorted_merge_sort; apply _).
  assert (In bs (collectBoundaries evs bs be)) as Hbs by (apply in_boundaries; by left).
  assert (In be (collectBoundaries evs bs be)) as Hbe by (apply in_boundaries; right; by left).
  pose proof (fun c H => proj2 (in_boundaries evs bs be (From c)) (or_intror (or_intror (ex_intro _ c (conj H (or_introl eq_refl)))))) as HF.
  pose proof (fun c H => proj2 (in_boundaries evs bs be (To c)) (or_intror (or_intror (ex_intro _ c (conj H (or_intror eq_refl)))))) as HT.
  destruct (collectBoundaries evs bs be) as [|h l]; [done|].
  inversion Hs as [|? ? Hs' Hh]; subst. rewrite List.Forall_forall in Hh.
  assert (h = bs) as -> by (destruct Hbs as [->|Hbs]; [done|]; pose proof (Hh _ Hbs); pose proof (Hin h (or_introl eq_refl)); lia).
  exists l. split_and!; [done..| |].
  - intros c Hc'. destruct (HF c Hc') as [<-|?], (HT c Hc') as [<-|?]; split; (left; lia) || by right.
  - rewrite <- (last_cons_default l bs bs). pose proof (last_In (bs :: l) bs ltac:(done)) as Hl. pose proof (Hin _ Hl).
    assert (be <= List.last (bs :: l) bs); [|lia]. clear - Hs Hbe. revert Hs Hbe. generalize bs at 1 2 3. generalize bs.
    induction l as [|a l IH]; intros d h Hs Hbe; [destruct Hbe as [->|[]]; done|].
    inversion Hs as [|? ? Hs' Hh]; subst. rewrite List.Forall_forall in Hh.
    rewrite last_cons_default. destruct Hbe as [->|Hbe]; [by apply Hh, last_In|]. by apply (IH h a).
Qed.

(** ** The walk *)

Lemma default_tier_add k (x : Qc) m tier :
  default 0%Qc (tier_add k x m !! tier) = (default 0%Qc (m !! tier) + (if decide (k = tier) then x else 0))%Qc.
Proof.
  unfold tier_add. destruct (decide (k = tier)) as [<-|Hne].
  - rewrite lookup_insert_eq. destruct (m !! k); cbn [default from_option id nadd of_Z exact_num]; [done|]. by rewrite Z2Qc_inj_0.
  - rewrite lookup_insert_ne by done. ring.
Qed.

(** Adding the share of every tier. *)
Lemma shares_added (g : Z -> Qc) (r : gmap Z Z) (m : gmap Z Qc) tier :
  default 0%Qc (map_fold (fun k gb acc => tier_add k (g gb) acc) m r !! tier) =
  (default 0%Qc (m !! tier) + match r !! tier with Some gb => g gb | None => 0 end)%Qc.
Proof.
  apply (map_fold_weak_ind (fun (res : gmap Z Qc) (r : gmap Z Z) => default 0%Qc (res !! tier) =
    (default 0%Qc (m !! tier) + match r !! tier with Some gb => g gb | None => 0 end)%Qc)).
  - rewrite lookup_empty. ring.
  - intros k gb r' res Hk IH. rewrite default_tier_add, IH. destruct (decide (k = tier)) as [->|Hne].
    + rewrite Hk, lookup_insert_eq. ring.
    + rewrite lookup_insert_ne by done. ring.
Qed.

(** What one segment adds. *)
Lemma integrate_segment_adds R out s tier :
  let t := integrate_segment (N := Qc) R out s in
  let secs := Seconds (N := Qc) (sg_To s - sg_From s) in
  default 0%Qc (OverageGBSecondsByTier t !! tier) =
    (default 0%Qc (OverageGBSecondsByTier out !! tier) + over_gb R (RunningByTier s) tier * secs)%Qc /\
  ReservedFloorGBSeconds t = (ReservedFloorGBSeconds out + floor_gb R (RunningByTier s) * secs)%Qc /\
  DiskOverageGBSeconds t = (DiskOverageGBSeconds out + Qc_of_Z (Z.max 0 (DiskOverageMB s)) / Qc_of_Z 1024 * secs)%Qc.
Proof.
  unfold integrate_segment, over_gb, floor_gb. change (segment_usage s) with (usage (RunningByTier s)).
  set (secs := Seconds _). split_and!.
  - destruct (R <? usage (RunningByTier s)) eqn:E; cbn [OverageGBSecondsByTier]; [|ring].
    rewrite (shares_added (fun gb => nmul (nmul (of_Z (usage (RunningByTier s) - R)) (ndiv (of_Z gb) (of_Z (usage (RunningByTier s))))) secs)).
    cbn [nmul ndiv of_Z exact_num]. destruct (RunningByTier s !! tier); cbn [default from_option id]; [done|]. rewrite Z2Qc_inj_0. unfold Qcdiv. ring.
  - destruct (R <? usage (RunningByTier s)) eqn:E; cbn [ReservedFloorGBSeconds nadd nmul of_Z exact_num]; bool_to_prop.
    + by rewrite Z.min_l by lia.
    + by rewrite Z.min_r by lia.
  - cbn [DiskOverageGBSeconds]. destruct (R <? usage (RunningByTier s)); cbn [DiskOverageGBSeconds];
      (destruct (0 <? DiskOverageMB s) eqn:E; cbn [nadd nmul ndiv of_Z exact_num]; bool_to_prop;
       [by rewrite Z.max_r by lia|rewrite Z.max_l, Z2Qc_inj_0 by lia; unfold Qcdiv; ring]).
Qed.

Lemma integrate_adds R segs out tier :
  let t := fold_left (integrate_segment (N := Qc) R) segs out in
  let over f := qsum (fun s => f s * Qc_of_Z (sg_To s - sg_From s))%Qc segs in
  default 0%Qc (OverageGBSecondsByTier t !! tier) =
    (default 0%Qc (OverageGBSecondsByTier out !! tier) + over (fun s => over_gb R (RunningByTier s) tier) / Qc_of_Z second)%Qc /\
  ReservedFloorGBSeconds t = (ReservedFloorGBSeconds out + over (fun s => floor_gb R (RunningByTier s)) / Qc_of_Z second)%Qc /\
  DiskOverageGBSeconds t =
    (DiskOverageGBSeconds out + over (fun s => Qc_of_Z (Z.max 0 (DiskOverageMB s)) / Qc_of_Z 1024) / Qc_of_Z second)%Qc.
Proof.
  revert out. induction segs as [|s segs IH]; intros out t over.
  - unfold t, over. cbn [fold_left qsum foldr]. unfold Qcdiv. split_and!; ring.
  - destruct (integrate_segment_adds R out s tier) as (H1 & H2 & H3). rewrite Seconds_exact in H1, H2, H3.
    destruct (IH (integrate_segment R out s)) as (I1 & I2 & I3). unfold t, over in *. cbn [fold_left qsum foldr].
    rewrite I1, I2, I3, H1, H2, H3. unfold qsum, Qcdiv. split_and!; ring.
Qed.

(** ** Equivalence *)

(** C25. In exact arithmetic the allocator meters every instant of the bucket: its
    overage of each tier is the sum over all instants of the excess of the running
    memory over the reservation, shared in proportion to the tiers; its reserved
    floor is the sum of the running memory up to the reservation; its disk overage
    is the sum of the disk above 20 GB. Clipping, boundaries and segments lose and
    repeat nothing. *)
Theorem IntegrateBucket_meters bs be R events :
  bs <= be ->
  let t := IntegrateBucket (N := Qc) bs be R events in
  (forall tier, default 0%Qc (OverageGBSecondsByTier t !! tier) = gb_seconds bs be (fun i => over_gb R (running_at events i) tier)) /\
  ReservedFloorGBSeconds t = gb_seconds bs be (fun i => floor_gb R (running_at events i)) /\
  DiskOverageGBSeconds t = gb_seconds bs be (fun i => Qc_of_Z (Z.max 0 (disk_at events i)) / Qc_of_Z 1024)%Qc.
Proof.
  intros Hb t. destruct (boundaries_spec events bs be Hb) as (l & Hl & Hs & He & Hlast).
  assert (forall F : gmap Z Z -> Z -> Qc,
    qsum (fun s => F (RunningByTier s) (DiskOverageMB s) * Qc_of_Z (sg_To s - sg_From s))%Qc
      (walkSegments (collectBoundaries (clip_all bs be events) bs be) (clip_all bs be events)) =
    qsum (fun i => F (running_at events i) (disk_at events i)) (seqZ bs (be - bs))) as HF.
  { intros F. rewrite Hl, (walk_instants F) by done. rewrite Hlast. apply qsum_ext. intros i Hi.
    apply list_elem_of_In, elem_of_seqZ in Hi. rewrite running_clip, disk_clip by lia. done. }
  unfold t, IntegrateBucket, integrateSegments, gb_seconds. split_and!; [intros tier| |].
  - destruct (integrate_adds R (walkSegments (collectBoundaries (clip_all bs be events) bs be) (clip_all bs be events)) no_totals tier)
      as (-> & _ & _). cbn [no_totals OverageGBSecondsByTier]. rewrite lookup_empty. cbn [default from_option].
    rewrite (HF (fun m _ => over_gb R m tier)). ring.
  - destruct (integrate_adds R (walkSegments (collectBoundaries (clip_all bs be events) bs be) (clip_all bs be events)) no_totals 0)
      as (_ & -> & _). cbn [no_totals ReservedFloorGBSeconds of_Z exact_num]. rewrite Z2Qc_inj_0, (HF (fun m _ => floor_gb R m)). ring.
  - destruct (integrate_adds R (walkSegments (collectBoundaries (clip_all bs be events) bs be) (clip_all bs be events)) no_totals 0)
      as (_ & _ & ->). cbn [no_totals DiskOverageGBSeconds of_Z exact_num].
    rewrite Z2Qc_inj_0, (HF (fun _ d => Qc_of_Z (Z.max 0 d) / Qc_of_Z 1024)%Qc). ring.
Qed.

Definition scale (tier start : Z) (end_ : option Z) : ScaleEvent :=
  {| se_SandboxID := "s"; se_OrgID := "o"; se_MemoryMB := tier; se_CPUPct := 100; se_DiskMB := 20480;
     se_StartedAt := start; se_EndedAt := end_ |}.

(** Two sandboxes of 8 GB, the second for the last five minutes, over a
    reservation of 8 GB: 8 GB for 300 seconds are overage. *)
Lemma IntegrateBucket_meters_witness :
  let events := [scale 8192 (-5) None; scale 8192 (10 * Capacity.minute) None] in
  let t := IntegrateBucket (N := Qc) 0 quarter 8 events in
  gb_seconds 0 quarter (fun i => over_gb 8 (running_at events i) 8192) = Qc_of_Z 2400 /\
  gb_seconds 0 quarter (fun i => floor_gb 8 (running_at events i)) = Qc_of_Z 7200.
Proof.
  intros events t. destruct (IntegrateBucket_meters 0 quarter 8 events ltac:(by vm_compute)) as (H1 & H2 & _).
  rewrite <- H1, <- H2. split; apply Qc_is_canon; vm_compute; reflexivity.
Defined.

(** ** The outbox *)

Section Outbox.
Context {N : Type} `{Num N}.
Variable row_id : string -> string -> Z -> Z -> string.
Implicit Types l rows : list (BillableEvent N).

Lemma same_row_refl (ev : BillableEvent N) : same_row ev ev = true.
Proof. unfold same_row. by rewrite !String.eqb_refl, !Z.eqb_refl. Qed.

Lemma upsert_some ok (ev : BillableEvent N) l l' :
  UpsertBillableEvent ok ev l = Some l' ->
  exists k, l' = l ++ k /\ existsb (same_row ev) l' = true /\
    (forall ok', ok' = true -> forall k', UpsertBillableEvent ok' ev (l' ++ k') = Some (l' ++ k')).
Proof.
  unfold UpsertBillableEvent. destruct (nle _ _) eqn:E1; [done|]. destruct (negb (_ =? _)) eqn:E2; [done|]. destruct ok; [cbn [negb]|done].
  destruct (existsb (same_row ev) l) eqn:E; intros [= <-].
  - exists []. rewrite app_nil_r. split_and!; [done..|]. intros ok' -> k'. cbn [negb]. by rewrite existsb_app, E.
  - exists [ev]. split_and!; [done|by rewrite existsb_app; cbn; rewrite same_row_refl, orb_true_r|].
    intros ok' -> k'. cbn [negb]. rewrite existsb_app. rewrite existsb_app. cbn. by rewrite same_row_refl, !orb_true_r.
Qed.

(** Rows are only appended. *)
Lemma emit_rows_app ok n rows l l' b : emit_rows ok n rows l = (l', b) -> exists k, l' = l ++ k.
Proof.
  revert n l. induction rows as [|ev rows IH]; intros n l; cbn; [intros [= <- <-]; exists []; by rewrite app_nil_r|].
  destruct (UpsertBillableEvent (ok n) ev l) as [l1|] eqn:E; [|intros [= <- <-]; exists []; by rewrite app_nil_r].
  intros He. destruct (upsert_some _ _ _ _ E) as (k & -> & _). destruct (IH _ _ He) as [k' ->]. exists (k ++ k'). by rewrite app_assoc.
Qed.

(** A bucket whose emission went through can be emitted again, in any later table,
    without changing it: the allocator may repeat a bucket. *)
Lemma emit_rows_replay ok n rows l l' k ok' m :
  emit_rows ok n rows l = (l', true) -> (forall i, ok' i = true) -> emit_rows ok' m rows (l' ++ k) = (l' ++ k, true).
Proof.
  intros He Hok. revert n l m He. induction rows as [|ev rows IH]; intros n l m; cbn; [done|].
  destruct (UpsertBillableEvent (ok n) ev l) as [l1|] eqn:E; [|done]. intros He.
  destruct (upsert_some _ _ _ _ E) as (k1 & _ & _ & Hrep). destruct (emit_rows_app _ _ _ _ _ _ He) as [k2 ->].
  rewrite <- app_assoc. rewrite Hrep by done. rewrite app_assoc. by apply (IH (S n) l1).
Qed.

(** No two rows agree on the columns of the unique constraint. *)
Definition unique l : Prop := ForallOrdPairs (fun a b => same_row b a = false) l.

Lemma unique_snoc l ev : unique l -> existsb (same_row ev) l = false -> unique (l ++ [ev]).
Proof.
  unfold unique. induction l as [|a l IH]; cbn; intros Hu Hx; [repeat constructor|].
  inversion Hu as [|? ? Ha Hu']; subst. apply orb_false_iff in Hx as [Hx1 Hx2]. constructor; [|by apply IH].
  apply List.Forall_app. split; [done|]. by repeat constructor.
Qed.

Lemma emit_rows_unique ok n rows l : unique l -> unique (fst (emit_rows ok n rows l)).
Proof.
  revert n l. induction rows as [|ev rows IH]; intros n l Hu; [done|]. cbn. unfold UpsertBillableEvent.
  destruct (nle _ _); [done|]. destruct (negb _); [done|]. destruct (negb (ok n)); [done|].
  destruct (existsb (same_row ev) l) eqn:E; apply IH; [done|]. by apply unique_snoc.
Qed.

(** Every row of an emission is of its organisation and bucket. *)
Definition of_bucket (org : string) (bs : Z) (ev : BillableEvent N) : bool :=
  String.eqb (be_OrgID ev) org && (be_BucketStart ev =? bs).

Lemma bucket_rows_of order org bs be R t ev :
  In ev (bucket_rows row_id order org bs be R t) -> of_bucket org bs ev = true.
Proof.
  assert (forall type mem x, of_bucket org bs (billable row_id org type mem x bs be) = true) as Hb
    by (intros; unfold of_bucket; cbn; by rewrite String.eqb_refl, Z.eqb_refl).
  unfold bucket_rows. rewrite !in_app_iff. intros [Hin|[Hin|Hin]].
  - destruct (0 <? R); [|done]. by destruct Hin as [<-|[]].
  - apply list_elem_of_In, list_elem_of_omap in Hin as ([tier gbs] & _ & He). destruct (nle _ _); simplify_eq. apply Hb.
  - destruct (nlt _ _); [|done]. by destruct Hin as [<-|[]].
Qed.

(** An emission appends some of its rows. *)
Lemma emit_rows_appends ok n rows l : exists k, fst (emit_rows ok n rows l) = l ++ k /\ incl k rows.
Proof.
  revert n l. induction rows as [|ev rows IH]; intros n l; cbn; [exists []; rewrite app_nil_r; split; [done|apply incl_refl]|].
  assert (exists k, l = l ++ k /\ incl k (ev :: rows)) as Hnone by (exists []; rewrite app_nil_r; split; [done|apply incl_nil_l]).
  unfold UpsertBillableEvent. destruct (nle _ _); [done|]. destruct (negb _); [done|]. destruct (negb _); [done|].
  destruct (existsb _ _).
  - destruct (IH (S n) l) as (k & -> & Hk). exists k. split; [done|by apply incl_tl].
  - destruct (IH (S n) (l ++ [ev])) as (k & -> & Hk). exists (ev :: k). rewrite <- app_assoc. split; [done|].
    by apply incl_cons; [left|apply incl_tl].
Qed.

(** The bucket of one candidate is left alone by the emission of another. *)
Lemma process_other order ok d ledger org' bs' org bs l :
  (org', bs') <> (org, bs) ->
  List.filter (of_bucket org bs) (fst (processBucket row_id order ok d ledger org' bs' l)) = List.filter (of_bucket org bs) l.
Proof.
  intros Hne. unfold processBucket, emitBucket. set (rows := bucket_rows _ _ _ _ _ _ _).
  destruct (emit_rows_appends ok 0 rows l) as (k & -> & Hk). rewrite List.filter_app.
  assert (List.filter (of_bucket org bs) k = []) as ->; [|by rewrite app_nil_r].
  induction k as [|ev k IH]; [done|]. cbn. rewrite IH by (intros x Hx; apply Hk; by right).
  destruct (of_bucket org bs ev) eqn:E; [|done]. exfalso. apply Hne.
  pose proof (bucket_rows_of _ _ _ _ _ _ ev (Hk ev ltac:(by left))) as E'. unfold of_bucket in E, E'.
  apply andb_true_iff in E as [E1%String.eqb_eq E2%Z.eqb_eq], E' as [E1'%String.eqb_eq E2'%Z.eqb_eq]. congruence.
Qed.

Lemma candidates_fresh eligible d ledger l from cutoff n org bs :
  existsb (of_bucket org bs) l = true -> ~ In (org, bs) (ListAllocatorCandidates eligible d ledger l from cutoff n).
Proof.
  intros Hb Hin. unfold ListAllocatorCandidates in Hin. apply list_elem_of_In, elem_of_take in Hin as (i & Hi & _).
  apply list_elem_of_lookup_2 in Hi. rewrite merge_sort_Permutation, list_elem_of_In, filter_In in Hi. destruct Hi as [_ Hi].
  cbn [fst snd] in Hi. apply negb_true_iff in Hi. change (existsb (of_bucket org bs) l = false) in Hi. congruence.
Qed.

(** What may happen to the outbox: a tick of the allocator, with whatever the tables hold
    at the time, and a row that the sender has shipped. *)
Inductive action :=
| Tick (order : list (Z * N) -> list (Z * N)) (ok : string * Z -> nat -> bool) (eligible : string -> bool) (now : Z) (d : db) (ledger : list Capacity.row)
| Sent (id stripeID : string).

Definition act (l : list (BillableEvent N)) (a : action) : list (BillableEvent N) :=
  match a with
  | Tick order ok eligible now d ledger => tick row_id order ok eligible now d ledger l
  | Sent id stripeID => MarkBillableEventSent id stripeID l
  end.

(** What a row charges. *)
Definition charge (ev : BillableEvent N) : string * string * Z * N * Z :=
  (be_OrgID ev, be_EventType ev, be_MemoryMB ev, be_GBSeconds ev, be_BucketStart ev).

Definition charges (org : string) (bs : Z) l := map charge (List.filter (of_bucket org bs) l).

Lemma tick_unique order ok eligible now d ledger l : unique l -> unique (tick row_id order ok eligible now d ledger l).
Proof.
  unfold tick. generalize (ListAllocatorCandidates eligible d ledger l (Capacity.Truncate15 (now - settle) - lookback)
    (Capacity.Truncate15 (now - settle)) tick_limit). intros cs. revert l.
  induction cs as [|c cs IH]; intros l Hu; [done|]. cbn. apply IH. unfold processBucket, emitBucket. by apply emit_rows_unique.
Qed.

Lemma tick_keeps order ok eligible now d ledger l org bs :
  existsb (of_bucket org bs) l = true ->
  List.filter (of_bucket org bs) (tick row_id order ok eligible now d ledger l) = List.filter (of_bucket org bs) l.
Proof.
  intros Hb. unfold tick. pose proof (candidates_fresh eligible d ledger l (Capacity.Truncate15 (now - settle) - lookback)
    (Capacity.Truncate15 (now - settle)) tick_limit org bs Hb) as Hn. revert Hn.
  generalize (ListAllocatorCandidates eligible d ledger l (Capacity.Truncate15 (now - settle) - lookback)
    (Capacity.Truncate15 (now - settle)) tick_limit). intros cs. clear Hb. revert l.
  induction cs as [|c cs IH]; intros l Hn; [done|]. cbn. rewrite IH by (intros Hin; apply Hn; by right).
  apply process_other. intros He. apply Hn. left. by destruct c.
Qed.

Lemma mark_charges id stripeID l org bs :
  charges org bs (MarkBillableEventSent id stripeID l) = charges org bs l /\
  existsb (of_bucket org bs) (MarkBillableEventSent id stripeID l) = existsb (of_bucket org bs) l.
Proof.
  unfold charges, MarkBillableEventSent, UPDATE. induction l as [|ev l [IH1 IH2]]; [done|]. cbn [map List.filter existsb].
  assert (of_bucket org bs (if String.eqb (be_ID ev) id then mark_sent stripeID ev else ev) = of_bucket org bs ev) as -> by by case_goal.
  split; [|by rewrite IH2]. destruct (of_bucket org bs ev); [|done]. cbn [map]. rewrite IH1. by case_goal.
Qed.

Lemma mark_unique id stripeID l : unique l -> unique (MarkBillableEventSent id stripeID l).
Proof.
  unfold unique, MarkBillableEventSent, UPDATE. induction 1 as [|ev l Hev Hl IH]; [constructor|]. cbn [map]. constructor; [|done].
  apply List.Forall_forall. intros x (y & <- & Hy)%in_map_iff. rewrite List.Forall_forall in Hev. specialize (Hev y Hy).
  rewrite <- Hev. unfold same_row. by repeat case_goal.
Qed.

Lemma charged l org bs : existsb (of_bucket org bs) l = true <-> charges org bs l <> [].
Proof.
  unfold charges. induction l as [|ev l IH]; [done|]. cbn. by destruct (of_bucket org bs ev).
Qed.

Lemma emit_rows_present ok n rows l : Forall (fun ev => existsb (same_row ev) l = true) rows -> fst (emit_rows ok n rows l) = l.
Proof.
  intros Hr. revert n. induction Hr as [|ev rows Hev Hr IH]; intros n; [done|]. cbn. unfold UpsertBillableEvent.
  destruct (nle _ _); [done|]. destruct (negb _); [done|]. destruct (negb _); [done|]. by rewrite Hev.
Qed.

(** C36. The allocator bills a bucket once. Over any sequence of its ticks, each with any
    tables, any map order and any failures, and of rows marked as shipped: the outbox has
    at most one row per organisation, type, tier and bucket; and from the end of the tick
    that wrote a bucket's first row, the rows of that bucket and what they charge never
    change again. Rows of those keys that are emitted once more, in any order and with any
    amounts, change nothing. *)
Theorem allocator_bills_once acts l :
  unique l ->
  let l' := fold_left act acts l in
  unique l' /\
  (forall org bs, charges org bs l <> [] -> charges org bs l' = charges org bs l) /\
  (forall ok rows, Forall (fun ev => existsb (same_row ev) l' = true) rows -> fst (emit_rows ok 0 rows l') = l').
Proof.
  intros Hu l'. split; [|split]; [| |intros ok rows; apply emit_rows_present]; unfold l'; clear l'; revert l Hu;
    induction acts as [|a acts IH]; intros l Hu; try done; cbn [fold_left].
  - apply IH. destruct a; [by apply tick_unique|by apply mark_unique].
  - intros org bs Hne. assert (charges org bs (act l a) = charges org bs l) as E.
    { destruct a as [order ok eligible now d ledger|id stripeID]; [|apply mark_charges]. unfold charges. cbn [act].
      rewrite tick_keeps; [done|]. by apply charged. }
    rewrite IH, E; [done| |by rewrite E]. destruct a; [by apply tick_unique|by apply mark_unique].
Qed.

(** A bucket whose emission fails after its first row is never finished: a
    bucket with a row is no candidate any more, so in every later tick, whatever
    the tables hold, the rows that were not written are not written either. The
    overage of a reserved bucket is lost when the statement after the reserved row
    fails. *)
Theorem partial_emission_lost order ok org bs be R t l l' :
  emitBucket row_id order ok org bs be R t l = (l', false) -> l' <> l ->
  forall k eligible d ledger lookbackStart cutoff limit,
  ~ In (org, bs) (ListAllocatorCandidates eligible d ledger (l' ++ k) lookbackStart cutoff limit).
Proof.
  intros He Hne k eligible d ledger lb cutoff limit Hin.
  assert (existsb (of_bucket org bs) l' = true) as Hx.
  { unfold emitBucket in He. pose proof (fun ev => bucket_rows_of order org bs be R t ev) as Hrows.
    revert He Hrows Hne. generalize (bucket_rows row_id order org bs be R t) as rows. generalize 0%nat as n. intros n rows. revert n l.
    induction rows as [|ev rows IH]; intros n l; cbn; [done|]. unfold UpsertBillableEvent.
    destruct (nle _ _); [intros; congruence|]. destruct (negb (be_BucketEnd ev - _ =? _)); [intros; congruence|].
    destruct (negb (ok n)); [intros; congruence|]. destruct (existsb (same_row ev) l) eqn:E; intros He Hrows Hne.
    - apply (IH (S n) l); auto.
    - destruct (emit_rows_app _ _ _ _ _ _ He) as [k' ->]. rewrite !existsb_app. cbn. rewrite (Hrows ev) by auto. by rewrite orb_true_r. }
  unfold ListAllocatorCandidates in Hin. apply list_elem_of_In, elem_of_take in Hin as (i & Hi & _).
  apply list_elem_of_lookup_2 in Hi. rewrite merge_sort_Permutation, list_elem_of_In, filter_In in Hi. destruct Hi as [_ Hi].
  cbn [fst snd] in Hi. apply negb_true_iff in Hi. rewrite existsb_app in Hi. apply orb_false_iff in Hi as [Hi _].
  change (existsb (of_bucket org bs) l' = false) in Hi. congruence.
Qed.

(** ** The sender *)

(** Rows with one of these identifiers are sent. *)
Definition all_sent (ids : list string) l : Prop :=
  forall ev, In ev l -> In (be_ID ev) ids -> be_DeliveryState ev = "sent"%string.

Lemma all_sent_mark id stripeID ids l : all_sent ids l -> all_sent (id :: ids) (MarkBillableEventSent id stripeID l).
Proof.
  intros Ha ev Hin. unfold MarkBillableEventSent, UPDATE in Hin. apply in_map_iff in Hin as (ev0 & <- & Hin).
  destruct (String.eqb (be_ID ev0) id) eqn:E; [done|]. intros [Hid|Hid]; [by rewrite Hid, String.eqb_refl in E|]. by apply Ha.
Qed.

(** When Stripe accepts every event and every row is saved, a tick ships each
    pending row it lists once, under its own identifier and with its own amount,
    and no later tick lists it again. *)
Lemma sender_delivers m customer report saved l sent :
  (forall ev, In ev l -> meterEventNameFor m (be_EventType ev) <> None) -> (forall id, report id <> None) -> (forall id, saved id = true) ->
  let listed := ListPendingBillableEventsForSender customer send_batch l in
  let '(l', sent') := sender_tick m customer report saved (l, sent) in
  map (fun e => (m_identifier e, m_value e)) sent' =
    map (fun e => (m_identifier e, m_value e)) sent ++ map (fun '(ev, _) => (be_ID ev, be_GBSeconds ev)) listed /\
  (forall n ev c ev0 c0, In (ev, c) (ListPendingBillableEventsForSender customer n l') -> In (ev0, c0) listed -> be_ID ev <> be_ID ev0).
Proof.
  intros Hm Hr Hs listed. assert (forall p, In p listed -> In (fst p) l) as Hlisted.
  { intros [ev c] Hin. unfold listed, ListPendingBillableEventsForSender in Hin. apply list_elem_of_In, elem_of_take in Hin as (i & Hi & _).
    apply list_elem_of_lookup_2, list_elem_of_omap in Hi as (ev' & Hev & He). destruct (String.eqb _ _); [|done].
    destruct (customer (be_OrgID ev')); cbn in He; simplify_eq. by apply list_elem_of_In. }
  unfold sender_tick. change (fst (l, sent)) with l. fold listed.
  assert (forall ps done_ l1 sent1, (forall p, In p ps -> In (fst p) l) -> all_sent done_ l1 ->
    let st := fold_left (fun st '(ev, c) => shipOne m (report (be_ID ev)) (saved (be_ID ev)) ev c st) ps (l1, sent1) in
    map (fun e => (m_identifier e, m_value e)) (snd st) =
      map (fun e => (m_identifier e, m_value e)) sent1 ++ map (fun '(ev, _) => (be_ID ev, be_GBSeconds ev)) ps /\
    all_sent (rev (map (fun p => be_ID (fst p)) ps) ++ done_) (fst st)) as Hfold.
  { induction ps as [|[ev c] ps IH]; intros dn l1 sent1 Hps Ha; [cbn; by rewrite app_nil_r|]. cbn [fold_left].
    unfold shipOne at 2 4. destruct (meterEventNameFor m (be_EventType ev)) as [name|] eqn:E; [|exfalso; apply (Hm ev); [apply (Hps (ev, c)); by left|done]].
    destruct (report (be_ID ev)) as [sid|] eqn:Er; [|exfalso; by apply (Hr (be_ID ev))]. rewrite Hs. cbn [fst snd].
    destruct (IH (be_ID ev :: dn) (MarkBillableEventSent (be_ID ev) sid l1)
      (sent1 ++ [{| m_name := name; m_customer := c; m_value := be_GBSeconds ev; m_identifier := be_ID ev;
                    m_timestamp := Z.quot (be_BucketEnd ev) second |}])) as [I1 I2].
    - intros p Hp. apply Hps. by right.
    - by apply all_sent_mark.
    - split; [rewrite I1, map_app, <- app_assoc; done|]. cbn [map rev fst]. by rewrite <- app_assoc. }
  destruct (Hfold listed [] l sent Hlisted ltac:(by intros ev _ [])) as [H1 H2].
  destruct (fold_left _ listed (l, sent)) as [l' sent'] eqn:E. cbn [fst snd] in *. split; [done|].
  intros n ev c ev0 c0 Hin Hin0 Heq. unfold ListPendingBillableEventsForSender in Hin.
  apply list_elem_of_In, elem_of_take in Hin as (i & Hi & _). apply list_elem_of_lookup_2, list_elem_of_omap in Hi as (ev' & Hev & He).
  destruct (String.eqb (be_DeliveryState ev') "pending") eqn:Ep; [|done]. destruct (customer (be_OrgID ev')); cbn in He; simplify_eq.
  apply String.eqb_eq in Ep. rewrite (H2 ev) in Ep; [done|by apply list_elem_of_In|]. rewrite app_nil_r, <- in_rev, Heq.
  apply in_map_iff. by exists (ev0, c0).
Qed.

End Outbox.

(** A reserved bucket with overage, of which only the reserved row is written. *)
Definition cut_short : list (BillableEvent Qc) * bool :=
  let t := IntegrateBucket (N := Qc) 0 quarter 8 [scale 16384 0 None] in
  emitBucket (fun o ty _ _ => o ++ ty)%string (fun x => x) (fun n => (n <? 1)%nat) "o" 0 quarter 8 t [].

Lemma partial_emission_lost_witness :
  let d := {| sessions := []; scale_events := [scale 16384 0 None]; hibernations := []; outbox := []; subscriptions := [] |} in
  ListAllocatorCandidates (N := Qc) (fun _ => true) d [] [] 0 quarter 500 = [("o"%string, 0)] /\
  map be_EventType (fst cut_short) = ["reserved_usage"%string] /\
  ~ In ("o"%string, 0) (ListAllocatorCandidates (fun _ => true) d [] (fst cut_short) 0 quarter 500).
Proof.
  split_and!; [vm_compute; reflexivity|vm_compute; reflexivity|]. rewrite <- (app_nil_r (fst cut_short)).
  apply (partial_emission_lost (fun o ty _ _ => o ++ ty)%string (fun x => x) (fun n => (n <? 1)%nat) "o" 0 quarter 8
    (IntegrateBucket (N := Qc) 0 quarter 8 [scale 16384 0 None]) [] (fst cut_short)).
  - unfold cut_short. destruct (emitBucket _ _ _ _ _ _ _ _) as [l b] eqn:E. apply (f_equal snd) in E. vm_compute in E. by subst b.
  - vm_compute. discriminate.
Defined.

Lemma allocator_bills_once_witness :
  let d := {| sessions := []; scale_events := [scale 16384 0 None]; hibernations := []; outbox := []; subscriptions := [] |} in
  let t := Tick (N := Qc) (fun x => x) (fun _ _ => true) (fun _ => true) (3 * quarter) d [] in
  let l := act (fun o ty _ _ => o ++ ty)%string [] t in
  let l' := fold_left (act (fun o ty _ _ => o ++ ty)%string) [Sent "ooverage_usage" "ev_1"; t; t] l in
  length (charges "o" 0 l) = 1%nat /\ unique l' /\ charges "o" 0 l' = charges "o" 0 l.
Proof.
  intros d t l l'. split; [vm_compute; reflexivity|].
  assert (unique l) as Hu by (apply tick_unique; constructor).
  destruct (allocator_bills_once (N := Qc) (fun o ty _ _ => o ++ ty)%string [Sent "ooverage_usage" "ev_1"; t; t] l Hu) as (H1 & H2 & _).
  split; [exact H1|]. apply H2. vm_compute. discriminate.
Defined.

End AllocatorFacts.
