(* ===== verification/UsageTicker.v ===== *)
(** * The usage ticker

    src/internal/worker/usage_ticker.go: on every tick the worker writes one
    [usage_tick] event per running sandbox, carrying the seconds since the last
    one; lifecycle hooks write the slice up to a change of size, a pause or a
    destroy. Times are in nanoseconds; the seconds and the carried fraction are
    over [Num]. *)

From Stdlib Require Import QArith Qcanon.
From S2P Require Import Prelude GoFloat GoNum.
#[local] Open Scope Z_scope.

Module UsageTicker.
Import GoNum.

(** What the ticker reads of a listed sandbox. [StartedAt] is absent when it is
    the zero time. *)
Record Sandbox := { ID : string; StartedAt : option Z; MemoryMB : Z; CpuCount : Z; Paused : bool; BillingSuppressed : bool }.

(** A [usage_tick] event. *)
Record usage_tick := { u_sandbox : string; u_cost : Z; u_interval : Z; u_memory : Z; u_cpu : Z }.

Section Ticker.
Context {N : Type} `{Num N}.

Record UsageTicker := { lastSeen : gmap string Z; fracRemainder : gmap string N }.

Definition NewUsageTicker : UsageTicker := {| lastSeen := ∅; fracRemainder := ∅ |}.

(** The configured interval and the cents of a full one. *)
Variable interval : Z.
Variable costPerTickCs : Z.

Definition intervalSecondsFor (t : UsageTicker) (sb : Sandbox) (now : Z) : Z * N :=
  let '(elapsed, capped, carried) :=
    match lastSeen t !! ID sb with
    | None =>
        match StartedAt sb with
        | None => (interval, true, of_Z 0)
        | Some st => if interval <? now - st then (interval, true, of_Z 0) else (now - st, false, of_Z 0)
        end
    | Some last =>
        let carried := default (of_Z 0) (fracRemainder t !! ID sb) in
        if 2 * interval <? now - last then (2 * interval, true, carried) else (now - last, false, carried)
    end in
  if elapsed <? 0 then (0, of_Z 0)
  else
    let carried := if capped : bool then of_Z 0 else carried in
    let totalSecs := nadd (Seconds elapsed) carried in
    let emitSecs := ntrunc totalSecs in
    (emitSecs, nsub totalSecs (of_Z emitSecs)).

(** [None]: the division by the whole seconds of the interval panics. *)
Definition scaledCost (intervalSec : Z) : option Z :=
  if interval <=? 0 then Some costPerTickCs
  else let secs := ntrunc (Seconds (N := N) interval) in
       if secs =? 0 then None else Some (Z.quot (costPerTickCs * intervalSec) secs).

Definition markEmitted (id : string) (when : Z) (remainder : N) (t : UsageTicker) : UsageTicker :=
  {| lastSeen := <[id := when]> (lastSeen t); fracRemainder := <[id := remainder]> (fracRemainder t) |}.

Definition dropState (id : string) (t : UsageTicker) : UsageTicker :=
  {| lastSeen := delete id (lastSeen t); fracRemainder := delete id (fracRemainder t) |}.

(** Entries of [lastSeen] that are not kept go, with their remainders. *)
Definition pruneStateNotIn (keep : list string) (t : UsageTicker) : UsageTicker :=
  {| lastSeen := filter (fun kv => kv.1 ∈ keep) (lastSeen t);
     fracRemainder := filter (fun kv => kv.1 ∈ keep \/ lastSeen t !! kv.1 = None) (fracRemainder t) |}.

(** One listed sandbox: [alive]: the answer of [IsSandboxAlive], if it answers;
    [opened], [logged]: its database opens, and takes the event. *)
Record listed := { l_sb : Sandbox; l_alive : option bool; l_opened : bool; l_logged : bool }.

(** The loop's state: the ticker, the events written, the sandboxes seen alive. *)
#[local] Abbreviation loop := (UsageTicker * list usage_tick * list string)%type.

Definition tick_one (now : Z) (x : listed) (s : loop) : option loop :=
  let '(t, evs, alive) := s in
  let sb := l_sb x in
  match l_alive x with
  | None => Some s
  | Some false => Some (dropState (ID sb) t, evs, alive)
  | Some true =>
      if Paused sb then Some (dropState (ID sb) t, evs, alive)
      else if BillingSuppressed sb then Some (dropState (ID sb) t, evs, alive)
      else
        let alive := alive ++ [ID sb] in
        let '(intervalSec, newRemainder) := intervalSecondsFor t sb now in
        if intervalSec <=? 0 then Some (markEmitted (ID sb) now newRemainder t, evs, alive)
        else if negb (l_opened x) then Some (t, evs, alive)
        else match scaledCost intervalSec with
             | None => None
             | Some cost =>
                 if negb (l_logged x) then Some (t, evs, alive)
                 else Some (markEmitted (ID sb) now newRemainder t,
                       evs ++ [{| u_sandbox := ID sb; u_cost := cost; u_interval := intervalSec; u_memory := MemoryMB sb; u_cpu := CpuCount sb |}],
                       alive)
             end
  end.

Definition tick_loop (now : Z) (l : list listed) (s : loop) : option loop :=
  fold_left (fun o x => o ≫= tick_one now x) l (Some s).

(** [None]: [scaledCost] panicked. An empty list only prunes. *)
Definition tick (now : Z) (l : list listed) (t : UsageTicker) : option (UsageTicker * list usage_tick) :=
  match tick_loop now l (t, [], []) with
  | Some (t, evs, alive) => Some (pruneStateNotIn alive t, evs)
  | None => None
  end.

(** ** Lifecycle hooks *)

Definition flushSlice (now : Z) (id : string) (memoryMB cpuCount : Z) (startedAt : option Z) (drop_ opened logged : bool) (t : UsageTicker) :
  option (UsageTicker * list usage_tick) :=
  let t' := {| lastSeen := if drop_ then delete id (lastSeen t) else <[id := now]> (lastSeen t); fracRemainder := fracRemainder t |} in
  match (match lastSeen t !! id with Some last => Some (now - last) | None => option_map (fun st => now - st) startedAt end) with
  | None => Some (t', [])
  | Some elapsed =>
      if elapsed <=? 0 then Some (t', [])
      else
        let elapsed := if 2 * interval <? elapsed then 2 * interval else elapsed in
        let intervalSec := ntrunc (Seconds (N := N) elapsed) in
        if intervalSec <=? 0 then Some (t', [])
        else if negb opened then Some (t', [])
        else match scaledCost intervalSec with
             | None => None
             | Some cost => Some (t', if negb logged then [] else [{| u_sandbox := id; u_cost := cost; u_interval := intervalSec; u_memory := memoryMB; u_cpu := cpuCount |}])
             end
  end.

Definition OnSandboxScale (now : Z) (sb : Sandbox) (opened logged : bool) (t : UsageTicker) : option (UsageTicker * list usage_tick) :=
  flushSlice now (ID sb) (MemoryMB sb) (CpuCount sb) (StartedAt sb) false opened logged t.
Definition OnSandboxDestroy (now : Z) (sb : Sandbox) (opened logged : bool) (t : UsageTicker) : option (UsageTicker * list usage_tick) :=
  flushSlice now (ID sb) (MemoryMB sb) (CpuCount sb) (StartedAt sb) true opened logged t.
Definition OnSandboxHibernate (now : Z) (sb : Sandbox) (opened logged : bool) (t : UsageTicker) : option (UsageTicker * list usage_tick) :=
  flushSlice now (ID sb) (MemoryMB sb) (CpuCount sb) (StartedAt sb) true opened logged t.
Definition OnSandboxWake (now : Z) (id : string) (t : UsageTicker) : UsageTicker := markEmitted id now (of_Z 0) t.

End Ticker.
Arguments UsageTicker : clear implicits.

End UsageTicker.
