(* ===== verification/UsageTickerFacts.v ===== *)
(** * The usage ticker: what it bills

    In exact arithmetic: over the life of a sandbox (ticks, resizes, pauses and
    resumes up to its end, with the databases failing at will) the seconds billed never
    exceed the time it ran, as long as resizes and the end come while it runs and between
    ticks; otherwise they may. With ticks that are on time and succeed they are that time,
    to the second. *)

From Stdlib Require Import QArith Qcanon.
From S2P Require Import Prelude GoFloat GoNum UsageTicker.
#[local] Open Scope Z_scope.

Module UsageTickerFacts.
Import GoNum UsageTicker.

(** ** Rationals *)

Definition secs (d : Z) : Qc := (Qc_of_Z d / Qc_of_Z second)%Qc.

Lemma Seconds_secs d : Seconds (N := Qc) d = secs d.
Proof. apply Seconds_exact. Qed.

Lemma secs_add a b : secs (a + b) = (secs a + secs b)%Qc.
Proof. unfold secs, Qcdiv. rewrite Z2Qc_inj_add. ring. Qed.
Lemma secs_0 : secs 0 = 0%Qc.
Proof. unfold secs, Qcdiv. rewrite Z2Qc_inj_0. ring. Qed.

Lemma secs_le a b : a <= b -> (secs a <= secs b)%Qc.
Proof.
  intros Hab. unfold secs, Qcdiv. apply Qcmult_le_compat_r; [by rewrite <- Z2Qc_inj_le|].
  pose proof (Seconds_nonneg 1 ltac:(lia)) as Hs. rewrite Seconds_exact in Hs. unfold Qcdiv in Hs. rewrite Z2Qc_inj_1, Qcmult_1_l in Hs. done.
Qed.

(** Whole seconds below a duration. *)
Lemma secs_whole k d : (Qc_of_Z k <= secs d)%Qc -> k * second <= d.
Proof.
  intros Hk. rewrite Z2Qc_inj_le, Z2Qc_inj_mul. apply (Qcmult_le_compat_r _ _ (Qc_of_Z second)) in Hk.
  - etrans; [exact Hk|]. unfold secs, Qcdiv. rewrite <- Qcmult_assoc, Qcmult_inv_l by apply Qc_second_nonzero. rewrite Qcmult_1_r. reflexivity.
  - rewrite <- Z2Qc_inj_0, <- Z2Qc_inj_le. by vm_compute.
Qed.

(** A total split into its whole seconds and the rest. *)
Lemma split_total (x : Qc) :
  (0 <= x)%Qc -> let k := ntrunc x in let r := (x - Qc_of_Z k)%Qc in
  0 <= k /\ (0 <= r)%Qc /\ (r < 1)%Qc /\ (Qc_of_Z k + r)%Qc = x.
Proof.
  intros Hx k r. destruct (ntrunc_exact x Hx) as (H1 & H2 & H3). fold k in H1, H2, H3. unfold r. split_and!; [done| | |ring].
  - by apply (proj1 (Qcle_minus_iff _ _)) in H1.
  - apply Qclt_minus_iff in H2. apply Qclt_minus_iff. replace (1 + - (x - Qc_of_Z k))%Qc with (Qc_of_Z k + 1 + - x)%Qc by ring. done.
Qed.

Section Life.
Variable interval cost : Z.
Hypothesis interval_secs : second <= interval.

Lemma scaledCost_total k : scaledCost (N := Qc) interval cost k <> None.
Proof.
  unfold scaledCost. assert (interval <=? 0 = false) as -> by (apply Z.leb_gt; unfold second in *; lia).
  assert (0 < ntrunc (Seconds (N := Qc) interval)) as Hp.
  { rewrite Seconds_secs. destruct (split_total (secs interval)) as (_ & _ & Hr & Hsum); [rewrite <- secs_0; apply secs_le; unfold second in *; lia|].
    pose proof (secs_le _ _ interval_secs) as Hle. assert (secs second = 1%Qc) as H1 by (apply Qc_is_canon; by vm_compute). rewrite H1 in Hle.
    rewrite Z2Qc_inj_lt, Z2Qc_inj_0. apply Qcnot_le_lt. intros Hneg. apply (Qclt_not_le _ _ Hr).
    etrans; [exact Hle|]. rewrite <- Hsum at 1. rewrite <- (Qcplus_0_l (secs interval - _)%Qc) at 2. by apply Qcplus_le_compat. }
  destruct (_ =? 0) eqn:E; [apply Z.eqb_eq in E; lia|done].
Qed.

(** ** The view of one sandbox *)

Definition view (id : string) (t : UsageTicker Qc) : option Z * option Qc := (lastSeen t !! id, fracRemainder t !! id).

(** The seconds billed to a sandbox. *)
Definition billed (id : string) (evs : list usage_tick) : Z :=
  foldr (fun e acc => (if String.eqb (u_sandbox e) id then u_interval e else 0) + acc) 0 evs.

Lemma billed_app id l k : billed id (l ++ k) = billed id l + billed id k.
Proof. unfold billed. induction l as [|e l IH]; cbn; [done|]. rewrite IH. lia. Qed.

(** The interval as a function of the view. *)
Definition interval_view (v : option Z * option Qc) (st : option Z) (now : Z) : Z * Qc :=
  intervalSecondsFor interval
    {| lastSeen := match fst v with Some z => {[""%string := z]} | None => ∅ end;
       fracRemainder := match snd v with Some r => {[""%string := r]} | None => ∅ end |}
    {| ID := ""; StartedAt := st; MemoryMB := 0; CpuCount := 0; Paused := false; BillingSuppressed := false |} now.

Lemma interval_view_eq t sb now : intervalSecondsFor interval t sb now = interval_view (view (ID sb) t) (StartedAt sb) now.
Proof.
  unfold interval_view, intervalSecondsFor, view. cbn [fst snd lastSeen fracRemainder ID StartedAt].
  destruct (lastSeen t !! ID sb) as [z|]; [rewrite lookup_singleton_eq|by rewrite lookup_empty].
  destruct (fracRemainder t !! ID sb) as [r|]; [by rewrite lookup_singleton_eq|by rewrite lookup_empty].
Qed.

(** What a tick does to the view of a running sandbox, and what it bills it. *)
Definition tick_view (v : option Z * option Qc) (st : option Z) (now : Z) (ok : bool) : (option Z * option Qc) * Z :=
  let '(k, r) := interval_view v st now in
  if k <=? 0 then ((Some now, Some r), 0) else if ok then ((Some now, Some r), k) else (v, 0).

Definition others (id : string) (l : list (listed)) : Prop := Forall (fun x => ID (l_sb x) <> id) l.

Lemma view_mark id now r t : view id (markEmitted id now r t) = (Some now, Some r).
Proof. unfold view. cbn. by rewrite !lookup_insert_eq. Qed.
Lemma view_mark_ne id id' now r t : id' <> id -> view id (markEmitted id' now r t) = view id t.
Proof. intros Hne. unfold view. cbn. by rewrite !lookup_insert_ne. Qed.
Lemma view_drop id t : view id (dropState id t) = (None, None).
Proof. unfold view. cbn. by rewrite !lookup_delete_eq. Qed.
Lemma view_drop_ne id id' t : id' <> id -> view id (dropState id' t) = view id t.
Proof. intros Hne. unfold view. cbn. by rewrite !lookup_delete_ne. Qed.

(** Another sandbox's turn changes neither the view nor the bill. *)
Lemma tick_one_other id now x t evs al :
  ID (l_sb x) <> id ->
  exists t' evs' al', tick_one interval cost now x (t, evs, al) = Some (t', evs', al') /\ view id t' = view id t /\
    billed id evs' = billed id evs /\ (id ∈ al' <-> id ∈ al).
Proof.
  intros Hne. unfold tick_one. assert (id ∈ al ++ [ID (l_sb x)] <-> id ∈ al) as Hal by set_solver.
  destruct (l_alive x) as [[]|]; [|by do 3 eexists; split_and!; [done|by apply view_drop_ne|..]|by do 3 eexists].
  destruct (Paused (l_sb x)); [by do 3 eexists; split_and!; [done|by apply view_drop_ne|..]|].
  destruct (BillingSuppressed (l_sb x)); [by do 3 eexists; split_and!; [done|by apply view_drop_ne|..]|].
  destruct (intervalSecondsFor interval t (l_sb x) now) as [k r].
  destruct (k <=? 0); [by do 3 eexists; split_and!; [done|by apply view_mark_ne|..]|].
  destruct (negb (l_opened x)); [by do 3 eexists|].
  destruct (scaledCost interval cost k) as [c|] eqn:E; [|by apply scaledCost_total in E].
  destruct (negb (l_logged x)); [by do 3 eexists|]. do 3 eexists. split_and!; [done|by apply view_mark_ne| |apply Hal].
  rewrite billed_app. cbn. destruct (String.eqb_spec (ID (l_sb x)) id); [done|lia].
Qed.

Lemma tick_loop_other id now l t evs al :
  others id l ->
  exists t' evs' al', tick_loop interval cost now l (t, evs, al) = Some (t', evs', al') /\ view id t' = view id t /\
    billed id evs' = billed id evs /\ (id ∈ al' <-> id ∈ al).
Proof.
  intros Hl. revert t evs al. induction Hl as [|x l Hx Hl IH]; intros t evs al; [by do 3 eexists|].
  destruct (tick_one_other id now x t evs al Hx) as (t1 & evs1 & al1 & E1 & V1 & B1 & A1).
  destruct (IH t1 evs1 al1) as (t2 & evs2 & al2 & E2 & V2 & B2 & A2). exists t2, evs2, al2.
  unfold tick_loop in *. cbn [fold_left]. change (Some (t, evs, al) ≫= tick_one interval cost now x) with (tick_one interval cost now x (t, evs, al)).
  rewrite E1. rewrite E2. split_and!; [done|congruence|lia|tauto].
Qed.

Lemma tick_loop_app now l k s : tick_loop (N := Qc) interval cost now (l ++ k) s =
  tick_loop interval cost now l s ≫= tick_loop interval cost now k.
Proof.
  unfold tick_loop. rewrite fold_left_app. destruct (fold_left _ l (Some s)) as [s'|]; [done|]. cbn.
  induction k as [|x k IH]; [done|]. cbn. apply IH.
Qed.

Lemma view_prune id al t : id ∈ al -> view id (pruneStateNotIn al t) = view id t.
Proof.
  intros Hin. unfold view, pruneStateNotIn. cbn. f_equal.
  - destruct (lastSeen t !! id) eqn:E; [by apply map_lookup_filter_Some|]. apply map_lookup_filter_None. by left.
  - destruct (fracRemainder t !! id) eqn:E; [apply map_lookup_filter_Some; cbn; auto|]. apply map_lookup_filter_None. by left.
Qed.

Lemma view_prune_none id al t : view id t = (None, None) -> view id (pruneStateNotIn al t) = (None, None).
Proof.
  unfold view, pruneStateNotIn. cbn. intros [= H1 H2]. f_equal; apply map_lookup_filter_None; by left.
Qed.

(** A tick over a list with one running entry of the sandbox. *)
Lemma tick_running id now l1 x l2 t :
  others id l1 -> others id l2 -> ID (l_sb x) = id -> l_alive x = Some true -> Paused (l_sb x) = false -> BillingSuppressed (l_sb x) = false ->
  exists t' evs, tick interval cost now (l1 ++ x :: l2) t = Some (t', evs) /\
    let '(v, k) := tick_view (view id t) (StartedAt (l_sb x)) now (l_opened x && l_logged x) in view id t' = v /\ billed id evs = k.
Proof.
  intros Hl1 Hl2 Hid Ha Hp Hb. unfold tick. rewrite tick_loop_app. destruct (tick_loop_other id now l1 t [] [] Hl1) as (t1 & evs1 & al1 & -> & V1 & B1 & A1).
  cbn [option_bind mbind].
  assert (exists t2 evs2, tick_one interval cost now x (t1, evs1, al1) = Some (t2, evs2, al1 ++ [id]) /\
    let '(v, k) := tick_view (view id t) (StartedAt (l_sb x)) now (l_opened x && l_logged x) in view id t2 = v /\ billed id evs2 = k)
    as (t2 & evs2 & E2 & V2).
  { unfold tick_one, tick_view. rewrite Ha, Hp, Hb, interval_view_eq, Hid, V1. destruct (interval_view _ _ _) as [k r]. cbn in B1.
    destruct (k <=? 0); [do 2 eexists; split; [done|]; by rewrite view_mark|].
    destruct (l_opened x); cbn [negb andb]; [|do 2 eexists; split; [done|]; by rewrite V1].
    destruct (scaledCost interval cost k) as [c|] eqn:E; [|by apply scaledCost_total in E].
    destruct (l_logged x); cbn [negb]; [|do 2 eexists; split; [done|]; by rewrite V1].
    do 2 eexists. split; [done|]. rewrite view_mark, billed_app, B1. cbn. rewrite String.eqb_refl. split; [done|lia]. }
  unfold tick_loop. cbn [fold_left]. change (Some (t1, evs1, al1) ≫= tick_one interval cost now x) with (tick_one interval cost now x (t1, evs1, al1)).
  rewrite E2. destruct (tick_loop_other id now l2 t2 evs2 (al1 ++ [id]) Hl2) as (t3 & evs3 & al3 & E3 & V3 & B3 & A3).
  unfold tick_loop in E3. rewrite E3. do 2 eexists. split; [done|]. rewrite view_prune, V3, B3; [done|]. apply A3. set_solver.
Qed.

(** ** Intervals *)

Lemma interval_pos : 0 < interval.
Proof. unfold second in *. lia. Qed.

Lemma secs_nonneg d : 0 <= d -> (0 <= secs d)%Qc.
Proof. intros Hd. rewrite <- secs_0. by apply secs_le. Qed.

(** The split of a time, no longer than [d], and a carried fraction. *)
Lemma split_elapsed e c d :
  0 <= e -> e <= d -> (0 <= c)%Qc ->
  let total := (Seconds (N := Qc) e + c)%Qc in let k := ntrunc total in let r := (total - Qc_of_Z k)%Qc in
  0 <= k /\ (0 <= r)%Qc /\ (r < 1)%Qc /\ (Qc_of_Z k + r <= secs d + c)%Qc /\ (e = d -> (Qc_of_Z k + r)%Qc = (secs d + c)%Qc).
Proof.
  intros He Hd Hc. rewrite Seconds_secs. intros total k r.
  destruct (split_total (secs e + c)%Qc) as (Hk & Hr0 & Hr1 & Hsum).
  { rewrite <- (Qcplus_0_l 0). apply Qcplus_le_compat; [by apply secs_nonneg|done]. }
  change (0 <= k) in Hk. change (0 <= r)%Qc in Hr0. change (r < 1)%Qc in Hr1. change (Qc_of_Z k + r = total)%Qc in Hsum. split_and!; [done..| |].
  - rewrite Hsum. apply Qcplus_le_compat; [by apply secs_le|apply Qcle_refl].
  - by intros ->.
Qed.

Lemma interval_seen last fr st now :
  last <= now -> (0 <= default 0%Qc fr)%Qc ->
  let '(k, r) := interval_view (Some last, fr) st now in
  0 <= k /\ (0 <= r)%Qc /\ (r < 1)%Qc /\ (Qc_of_Z k + r <= secs (now - last) + default 0 fr)%Qc /\
  (now - last <= 2 * interval -> (Qc_of_Z k + r)%Qc = (secs (now - last) + default 0 fr)%Qc).
Proof.
  intros Hl Hfr. unfold interval_view, intervalSecondsFor. cbn [fst snd lastSeen fracRemainder ID of_Z nadd nsub exact_num].
  rewrite lookup_singleton_eq. pose proof interval_pos.
  assert (default (Qc_of_Z 0) ((match fr with Some r => {[""%string := r]} | None => ∅ end : gmap string Qc) !! ""%string) = default 0%Qc fr) as ->
    by (destruct fr; [by rewrite lookup_singleton_eq|rewrite lookup_empty; cbn; by rewrite Z2Qc_inj_0]).
  destruct (Z.ltb_spec (2 * interval) (now - last)).
  - assert (2 * interval <? 0 = false) as -> by (apply Z.ltb_ge; lia). rewrite Z2Qc_inj_0.
    destruct (split_elapsed (2 * interval) 0 (now - last)) as (H1 & H2 & H3 & H4 & _); [lia..|apply Qcle_refl|]. split_and!; [done..| |lia].
    etrans; [exact H4|]. by apply Qcplus_le_compat; [apply Qcle_refl|].
  - assert (now - last <? 0 = false) as -> by (apply Z.ltb_ge; lia).
    destruct (split_elapsed (now - last) (default 0%Qc fr) (now - last)) as (H1 & H2 & H3 & H4 & H5); [lia..|done|]. split_and!; auto.
Qed.

Lemma interval_first fr st now :
  st <= now ->
  let '(k, r) := interval_view (None, fr) (Some st) now in
  0 <= k /\ (0 <= r)%Qc /\ (r < 1)%Qc /\ (Qc_of_Z k + r <= secs (now - st))%Qc /\
  (now - st <= interval -> (Qc_of_Z k + r)%Qc = secs (now - st)).
Proof.
  intros Hl. unfold interval_view, intervalSecondsFor. cbn [fst snd lastSeen fracRemainder ID StartedAt of_Z nadd nsub exact_num].
  rewrite lookup_empty, Z2Qc_inj_0. pose proof interval_pos. destruct (Z.ltb_spec interval (now - st)).
  - assert (interval <? 0 = false) as -> by (apply Z.ltb_ge; lia).
    destruct (split_elapsed interval 0 (now - st)) as (H1 & H2 & H3 & H4 & _); [lia..|apply Qcle_refl|].
    rewrite (Qcplus_0_r (secs _)) in H4. split_and!; [done..|lia].
  - assert (now - st <? 0 = false) as -> by (apply Z.ltb_ge; lia).
    destruct (split_elapsed (now - st) 0 (now - st)) as (H1 & H2 & H3 & H4 & H5); [lia..|apply Qcle_refl|].
    rewrite (Qcplus_0_r (secs _)) in H4, H5. split_and!; auto.
Qed.

(** ** The life of a sandbox *)

(** A tick that lists the sandbox, alive, among others; a resize; a pause and a resume,
    whose hooks are not called for a sandbox already paused or running; and its end. *)
Inductive event :=
| Tick (before after : list listed) (opened logged : bool)
| Scale (opened logged : bool)
| Pause (opened logged : bool)
| Resume
| Destroy (opened logged : bool).

(** [up]: it runs; [ran]: the time it has run, up to [clock]. *)
Record life := { ticker : UsageTicker Qc; log : list usage_tick; up : bool; clock : Z; ran : Z }.

Definition set_paused (p : bool) (sb : Sandbox) : Sandbox :=
  {| ID := ID sb; StartedAt := StartedAt sb; MemoryMB := MemoryMB sb; CpuCount := CpuCount sb; Paused := p; BillingSuppressed := false |}.

Definition happens (sb : Sandbox) (now : Z) (e : event) (s : life) : option life :=
  let next up' (o : option (UsageTicker Qc * list usage_tick)) :=
    '(t, evs) ← o;
    Some {| ticker := t; log := log s ++ evs; up := up'; clock := now; ran := if up s then ran s + (now - clock s) else ran s |} in
  match e with
  | Tick l1 l2 o g =>
      next (up s) (tick interval cost now
        (l1 ++ {| l_sb := set_paused (negb (up s)) sb; l_alive := Some true; l_opened := o; l_logged := g |} :: l2) (ticker s))
  | Scale o g => next (up s) (OnSandboxScale interval cost now sb o g (ticker s))
  | Destroy o g => next false (OnSandboxDestroy interval cost now sb o g (ticker s))
  | Pause o g => if up s then next false (OnSandboxHibernate interval cost now sb o g (ticker s)) else next false (Some (ticker s, []))
  | Resume => if up s then next true (Some (ticker s, [])) else next true (Some (OnSandboxWake now (ID sb) (ticker s), []))
  end.

Fixpoint live (sb : Sandbox) (h : list (Z * event)) (s : life) : option life :=
  match h with
  | [] => Some s
  | (now, e) :: h => s' ← happens sb now e s; live sb h s'
  end.

Definition born (s0 : Z) : life := {| ticker := NewUsageTicker; log := []; up := true; clock := s0; ran := 0 |}.

(** Times do not go back; the other sandboxes of a tick are others; resizes, and the end,
    come while the sandbox runs ([u]), and nothing comes after the end. *)
Fixpoint ordered (id : string) (u : bool) (c : Z) (h : list (Z * event)) : Prop :=
  match h with
  | [] => True
  | (now, e) :: h =>
      c <= now /\
      match e with
      | Tick l1 l2 _ _ => others id l1 /\ others id l2 /\ ordered id u now h
      | Scale _ _ => u = true /\ ordered id u now h
      | Pause _ _ => ordered id false now h
      | Resume => ordered id true now h
      | Destroy _ _ => u = true /\ h = []
      end
  end.

(** A hook bills at most the slice since the last event, or since the start. *)
Lemma flush_view now id mem cpu st drop_ o g t :
  let start := default st (lastSeen t !! id) in
  start <= now ->
  exists t' evs, flushSlice interval cost now id mem cpu (Some st) drop_ o g t = Some (t', evs) /\
    view id t' = ((if drop_ then None else Some now), snd (view id t)) /\ 0 <= billed id evs /\
    (Qc_of_Z (billed id evs) <= secs (now - start))%Qc.
Proof.
  intros start Hs. unfold flushSlice. set (t' := {| lastSeen := _; fracRemainder := _ |}).
  assert (view id t' = ((if drop_ then None else Some now), snd (view id t))) as Hv
    by (unfold view, t'; cbn; destruct drop_; [by rewrite lookup_delete_eq|by rewrite lookup_insert_eq]).
  assert (Qc_of_Z 0 <= secs (now - start))%Qc as H0 by (rewrite Z2Qc_inj_0; apply secs_nonneg; lia).
  assert (match lastSeen t !! id with Some last => Some (now - last) | None => option_map (fun st => now - st) (Some st) end = Some (now - start)) as ->
    by (unfold start; by destruct (lastSeen t !! id)).
  destruct (now - start <=? 0); [by exists t', []|]. pose proof interval_pos.
  set (e := if 2 * interval <? now - start then 2 * interval else now - start).
  assert (0 <= e <= now - start) as He by (unfold e; destruct (Z.ltb_spec (2 * interval) (now - start)); lia).
  rewrite Seconds_secs. destruct (split_total (secs e)) as (Hk & Hr & _ & Hsum); [apply secs_nonneg; lia|].
  destruct (ntrunc (secs e) <=? 0) eqn:Ek; [by exists t', []|]. destruct o; cbn [negb]; [|by exists t', []].
  destruct (scaledCost interval cost _) as [c|] eqn:E; [|by apply scaledCost_total in E]. do 2 eexists. split; [done|]. split; [done|].
  destruct g; cbn [negb]; [|by split]. cbn [billed foldr u_sandbox u_interval]. rewrite String.eqb_refl, Z.add_0_r. split; [done|].
  etrans; [|apply secs_le, He]. rewrite <- Hsum at 2. rewrite <- (Qcplus_0_r (Qc_of_Z (ntrunc (secs e)))) at 1. apply Qcplus_le_compat; [apply Qcle_refl|done].
Qed.

Section Sandbox.
Variable sb : Sandbox.
Variable s0 : Z.
Hypothesis started : StartedAt sb = Some s0.
Abbreviation id := (ID sb).

(** While it runs, what was billed and is carried fits in the time it ran up to
    the last event; before its first event nothing was billed. *)
Definition inv (s : life) : Prop :=
  if up s then
    match view id (ticker s) with
    | (Some last, fr) =>
        last <= clock s /\ (0 <= default 0 fr)%Qc /\
        (Qc_of_Z (billed id (log s)) + default 0 fr <= secs (ran s - (clock s - last)))%Qc
    | (None, fr) => billed id (log s) = 0 /\ ran s = clock s - s0 /\ s0 <= clock s /\ fr = None
    end
  else (Qc_of_Z (billed id (log s)) <= secs (ran s))%Qc.

Lemma qc_add_le (a b c d : Qc) : (a <= b)%Qc -> (c <= d)%Qc -> (a + c <= b + d)%Qc.
Proof. apply Qcplus_le_compat. Qed.

Lemma tick_inv now l1 l2 o g s :
  inv s -> clock s <= now -> others id l1 -> others id l2 ->
  exists s', happens sb now (Tick l1 l2 o g) s = Some s' /\ inv s'.
Proof.
  intros Hi Hc Hl1 Hl2. cbn [happens].
  set (x := {| l_sb := set_paused (negb (up s)) sb; l_alive := Some true; l_opened := o; l_logged := g |}).
  destruct (up s) eqn:Eu.
  - destruct (tick_running id now l1 x l2 (ticker s) Hl1 Hl2 eq_refl eq_refl eq_refl eq_refl) as (t' & evs & -> & Hv).
    eexists. split; [done|]. unfold inv in *. rewrite Eu in Hi. cbn [up ticker log clock ran]. rewrite billed_app, Z2Qc_inj_add.
    unfold tick_view in Hv. cbn [x l_sb set_paused StartedAt l_opened l_logged] in Hv. rewrite started in Hv.
    destruct (view id (ticker s)) as [[last|] fr] eqn:Ev.
    + destruct Hi as (Hlast & Hfr & Hle). pose proof (interval_seen last fr (Some s0) now ltac:(lia) Hfr) as Hk.
      destruct (interval_view _ _ _) as [k r]. destruct Hk as (Hk & Hr & _ & Hsum & _).
      assert (Qc_of_Z (billed id (log s)) + Qc_of_Z k + r <= secs (ran s + (now - clock s)))%Qc as Hgoal.
      { rewrite <- Qcplus_assoc. etrans; [apply qc_add_le; [apply Qcle_refl|exact Hsum]|].
        rewrite (Qcplus_comm (secs _)), Qcplus_assoc. etrans; [apply qc_add_le; [exact Hle|apply Qcle_refl]|].
        rewrite <- secs_add. apply secs_le. lia. }
      destruct (k <=? 0) eqn:Ek; [|destruct (o && g)]; destruct Hv as [-> ->]; cbn [default from_option id].
      * split_and!; [lia|done|]. rewrite Z.sub_diag, Z.sub_0_r. bool_to_prop. assert (k = 0) as -> by lia. done.
      * split_and!; [lia|done|]. rewrite Z.sub_diag, Z.sub_0_r. done.
      * split_and!; [lia|done|]. rewrite Z2Qc_inj_0, Qcplus_0_r. etrans; [exact Hle|]. apply secs_le. lia.
    + destruct Hi as (Hb & Hran & Hs0 & Hfr). pose proof (interval_first fr s0 now ltac:(lia)) as Hk.
      destruct (interval_view _ _ _) as [k r]. destruct Hk as (Hk & Hr & _ & Hsum & _). rewrite Hb, Z2Qc_inj_0, Qcplus_0_l.
      replace (ran s + (now - clock s)) with (now - s0) by lia.
      destruct (k <=? 0) eqn:Ek; [|destruct (o && g)]; destruct Hv as [-> ->]; cbn [default from_option id].
      * split_and!; [lia|done|]. rewrite Z.sub_diag, Z.sub_0_r. bool_to_prop. assert (k = 0) as Hk0 by lia. by rewrite Hk0 in Hsum.
      * split_and!; [lia|done|]. by rewrite Z.sub_diag, Z.sub_0_r.
      * split_and!; lia || done.
  - assert (exists t' evs, tick interval cost now (l1 ++ x :: l2) (ticker s) = Some (t', evs) /\ billed id evs = 0) as (t' & evs & -> & Hb).
    { unfold tick. rewrite tick_loop_app. destruct (tick_loop_other id now l1 (ticker s) [] [] Hl1) as (t1 & evs1 & al1 & -> & V1 & B1 & A1).
      cbn [mbind option_bind]. unfold tick_loop. cbn [fold_left].
      change (Some (t1, evs1, al1) ≫= tick_one interval cost now x) with (Some (dropState id t1, evs1, al1)).
      destruct (tick_loop_other id now l2 (dropState id t1) evs1 al1 Hl2) as (t2 & evs2 & al2 & E2 & _ & B2 & _).
      unfold tick_loop in E2. rewrite E2. do 2 eexists. split; [done|]. by rewrite B2. }
    eexists. split; [done|]. unfold inv in *. rewrite Eu in Hi. cbn [up log ran]. by rewrite billed_app, Hb, Z.add_0_r.
Qed.

Lemma slice_inv now k s :
  inv s -> up s = true -> clock s <= now ->
  let start := default s0 (lastSeen (ticker s) !! id) in
  (start <= now /\
   ((Qc_of_Z k <= secs (now - start))%Qc ->
    (Qc_of_Z (billed id (log s) + k) + default 0 (snd (view id (ticker s))) * (if lastSeen (ticker s) !! id then 1 else 0) <= secs (ran s + (now - clock s)))%Qc)).
Proof.
  intros Hi Hu Hc start. unfold inv in Hi. rewrite Hu in Hi. unfold view in *. cbn [snd].
  unfold start. destruct (lastSeen (ticker s) !! id) as [last|]; cbn [default from_option Datatypes.id].
  - destruct Hi as (Hlast & Hfr & Hle). split; [lia|]. intros Hk. rewrite Qcmult_1_r, Z2Qc_inj_add.
    replace (Qc_of_Z (billed id (log s)) + Qc_of_Z k + default 0 (fracRemainder (ticker s) !! id))%Qc
      with (Qc_of_Z (billed id (log s)) + default 0 (fracRemainder (ticker s) !! id) + Qc_of_Z k)%Qc by ring.
    etrans; [apply qc_add_le; [exact Hle|exact Hk]|]. rewrite <- secs_add. apply secs_le. lia.
  - destruct Hi as (Hb & Hran & Hs0 & Hfr). split; [lia|]. intros Hk. rewrite Qcmult_0_r, Qcplus_0_r, Hb. etrans; [exact Hk|]. apply secs_le. lia.
Qed.

Lemma scale_inv now o g s :
  inv s -> up s = true -> clock s <= now ->
  exists s', happens sb now (Scale o g) s = Some s' /\ inv s'.
Proof.
  intros Hi Hu Hc. destruct (slice_inv now 0 s Hi Hu Hc) as [Hst _]. cbn [happens]. rewrite Hu. unfold OnSandboxScale. rewrite started.
  destruct (flush_view now id (MemoryMB sb) (CpuCount sb) s0 false o g (ticker s) Hst) as (t' & evs & -> & Hv & Hb0 & Hb).
  destruct (slice_inv now (billed id evs) s Hi Hu Hc) as [_ Hle]. specialize (Hle Hb).
  eexists. split; [done|]. unfold inv in *. rewrite Hu in Hi. cbn [up ticker log clock ran]. rewrite Hv, billed_app, Z.sub_diag, Z.sub_0_r.
  unfold view in *. cbn [snd] in *. destruct (lastSeen (ticker s) !! id) as [last|] eqn:El.
  - rewrite Qcmult_1_r in Hle. destruct Hi as (_ & Hfr & _). split_and!; [lia|done|done].
  - destruct Hi as (_ & _ & _ & Hfr). rewrite Hfr in *. cbn [default from_option Datatypes.id] in *.
    rewrite Qcmult_0_r in Hle. split_and!; [lia|apply Qcle_refl|done].
Qed.

Lemma stop_inv now e o g s :
  e = Pause o g \/ e = Destroy o g -> inv s -> up s = true -> clock s <= now ->
  exists s', happens sb now e s = Some s' /\ inv s'.
Proof.
  intros He Hi Hu Hc. destruct (slice_inv now 0 s Hi Hu Hc) as [Hst _].
  assert (happens sb now e s = '(t, evs) ← flushSlice interval cost now id (MemoryMB sb) (CpuCount sb) (Some s0) true o g (ticker s);
    Some {| ticker := t; log := log s ++ evs; up := false; clock := now; ran := ran s + (now - clock s) |}) as ->.
  { destruct He as [-> | ->]; cbn [happens]; rewrite Hu; unfold OnSandboxHibernate, OnSandboxDestroy; by rewrite started. }
  destruct (flush_view now id (MemoryMB sb) (CpuCount sb) s0 true o g (ticker s) Hst) as (t' & evs & -> & Hv & Hb0 & Hb).
  destruct (slice_inv now (billed id evs) s Hi Hu Hc) as [_ Hle]. specialize (Hle Hb).
  eexists. split; [done|]. unfold inv in *. rewrite Hu in Hi. cbn [up log ran]. rewrite billed_app. etrans; [|exact Hle].
  rewrite <- (Qcplus_0_r (Qc_of_Z _)) at 1. apply qc_add_le; [apply Qcle_refl|]. unfold view in *. cbn [snd] in *.
  destruct (lastSeen (ticker s) !! id); [rewrite Qcmult_1_r; by destruct Hi as (_ & Hfr & _)|rewrite Qcmult_0_r; apply Qcle_refl].
Qed.

(** The clock moves on with nothing else. *)
Lemma idle_inv now s u :
  inv s -> clock s <= now -> up s = u ->
  inv {| ticker := ticker s; log := log s; up := u; clock := now; ran := if up s then ran s + (now - clock s) else ran s |}.
Proof.
  intros Hi Hc <-. unfold inv in *. cbn [up ticker log clock ran]. destruct (up s); [|done].
  destruct (view id (ticker s)) as [[last|] fr].
  - destruct Hi as (Hl & Hfr & Hle). split_and!; [lia|done|]. replace (ran s + (now - clock s) - (now - last)) with (ran s - (clock s - last)) by lia. done.
  - destruct Hi as (Hb & Hr & Hs & Hfr). split_and!; lia || done.
Qed.

Lemma happens_inv now e s :
  inv s -> clock s <= now ->
  match e with Tick l1 l2 _ _ => others id l1 /\ others id l2 | Scale _ _ | Destroy _ _ => up s = true | _ => True end ->
  exists s', happens sb now e s = Some s' /\ inv s' /\ clock s' = now /\
    up s' = match e with Pause _ _ | Destroy _ _ => false | Resume => true | _ => up s end.
Proof.
  intros Hi Hc Ho.
  assert (forall s', happens sb now e s = Some s' -> clock s' = now /\
    up s' = match e with Pause _ _ | Destroy _ _ => false | Resume => true | _ => up s end) as Hclock.
  { intros s'. destruct e; cbn [happens]; destruct (up s) eqn:Hu; intros H; repeat match type of H with context [?o ≫= _] => destruct o as [[? ?]|]; cbn in H end; by simplify_eq. }
  assert (exists s', happens sb now e s = Some s' /\ inv s') as (s' & E & Hi').
  { destruct e as [l1 l2 o g|o g|o g| |o g].
    - by apply tick_inv; try apply Ho.
    - by apply scale_inv.
    - destruct (up s) eqn:Hu; [by eapply stop_inv; [left| | |]|]. cbn [happens]. rewrite Hu. cbn [mbind option_bind]. rewrite app_nil_r. eexists. split; [done|].
      pose proof (idle_inv now s false Hi Hc Hu) as Hidle. by rewrite Hu in Hidle.
    - cbn [happens]. destruct (up s) eqn:Hu; cbn [mbind option_bind]; rewrite app_nil_r; (eexists; split; [done|]).
      + pose proof (idle_inv now s true Hi Hc Hu) as Hidle. by rewrite Hu in Hidle.
      + unfold inv in *. rewrite Hu in Hi. cbn [up ticker log clock ran]. unfold OnSandboxWake. rewrite view_mark.
        cbn [default from_option Datatypes.id of_Z exact_num]. rewrite Z2Qc_inj_0, Qcplus_0_r, Z.sub_diag, Z.sub_0_r.
        split_and!; [lia|apply Qcle_refl|done].
    - by eapply stop_inv; [right| | |]. }
  exists s'. auto.
Qed.

(** C26. In exact arithmetic a sandbox is never billed for more time than it ran, as long
    as it is resized and destroyed only while it runs and no hook comes in the middle of a
    tick: over any life of ticks that find it alive, resizes, pauses and resumes up to its
    end, whatever fails to be logged and whatever other sandboxes are listed, the seconds
    in its [usage_tick] events add up to at most its running time; and no tick panics, with
    an interval of at least a second. *)
Theorem ticker_never_overbills h :
  ordered id true s0 h ->
  exists s, live sb h (born s0) = Some s /\ billed id (log s) * second <= ran s.
Proof.
  intros Ho. assert (forall h s, inv s -> ordered id (up s) (clock s) h -> exists s', live sb h s = Some s' /\ inv s') as Hrun.
  { clear h Ho. induction h as [|[now e] h IH]; intros s Hi Ho; [by exists s|]. destruct Ho as (Hc & Ho). cbn [live].
    destruct (happens_inv now e s Hi Hc) as (s' & -> & Hi' & Hclk & Hup); [by destruct e; try destruct Ho as (? & ? & ?); try destruct Ho|].
    cbn [mbind option_bind]. apply IH; [done|]. rewrite Hclk, Hup. destruct e; try apply Ho. by destruct Ho as [_ ->]. }
  destruct (Hrun h (born s0)) as (s & E & Hi); [|done|].
  { unfold inv, view, born. cbn. rewrite lookup_empty. split_and!; lia || done. }
  exists s. split; [done|]. apply secs_whole. unfold inv in Hi. destruct (up s); [|done].
  destruct (view id (ticker s)) as [[last|] fr].
  - destruct Hi as (Hl & Hfr & Hle). etrans; [|etrans; [exact Hle|apply secs_le; lia]].
    rewrite <- (Qcplus_0_r (Qc_of_Z _)) at 1. apply qc_add_le; [apply Qcle_refl|done].
  - destruct Hi as (-> & Hr & Hs & _). rewrite Z2Qc_inj_0. apply secs_nonneg. lia.
Qed.

(** Ticks that are logged, the first within an interval of the start and each
    within two of the one before. *)
Fixpoint on_time (c gap : Z) (h : list (Z * event)) : Prop :=
  match h with
  | [] => True
  | (now, e) :: h => (exists l1 l2, e = Tick l1 l2 true true) /\ now - c <= gap /\ on_time now (2 * interval) h
  end.

(** Billed and carried are exactly the time since the start. *)
Definition exact (s : life) : Prop :=
  up s = true /\
  match view id (ticker s) with
  | (Some last, Some r) => last = clock s /\ (0 <= r)%Qc /\ (r < 1)%Qc /\ (Qc_of_Z (billed id (log s)) + r)%Qc = secs (clock s - s0)
  | (None, None) => billed id (log s) = 0 /\ clock s = s0
  | _ => False
  end.

Lemma tick_exact now l1 l2 s :
  exact s -> clock s <= now -> others id l1 -> others id l2 ->
  now - clock s <= (if lastSeen (ticker s) !! id then 2 * interval else interval) ->
  exists s', happens sb now (Tick l1 l2 true true) s = Some s' /\ exact s' /\ clock s' = now /\ is_Some (lastSeen (ticker s') !! id).
Proof.
  intros [Hu Hx] Hc Hl1 Hl2 Hgap. cbn [happens]. rewrite Hu.
  set (x := {| l_sb := set_paused (negb true) sb; l_alive := Some true; l_opened := true; l_logged := true |}).
  destruct (tick_running id now l1 x l2 (ticker s) Hl1 Hl2 eq_refl eq_refl eq_refl eq_refl) as (t' & evs & -> & Hv).
  eexists. split; [done|]. unfold exact. cbn [up ticker log clock].
  unfold tick_view in Hv. cbn [x l_sb set_paused StartedAt l_opened l_logged andb] in Hv. rewrite started in Hv.
  assert (exists k r, view id t' = (Some now, Some r) /\ billed id evs = k /\ (0 <= r)%Qc /\ (r < 1)%Qc /\
    (Qc_of_Z (billed id (log s)) + Qc_of_Z k + r)%Qc = secs (now - s0)) as (k & r & Hv' & Hb & Hr0 & Hr1 & Hsum).
  { destruct (view id (ticker s)) as [[last|] [fr|]] eqn:Ev; try done; injection Ev as El Ef; rewrite El in Hgap.
    - destruct Hx as (-> & H0 & H1 & He). pose proof (interval_seen (clock s) (Some fr) (Some s0) now Hc H0) as Hk.
      destruct (interval_view _ _ _) as [k r]. destruct Hk as (Hk & Hr0 & Hr1 & _ & Heq). specialize (Heq Hgap). cbn [default from_option Datatypes.id] in Heq.
      assert ((Qc_of_Z (billed id (log s)) + Qc_of_Z k + r)%Qc = secs (now - s0)) as Hs.
      { rewrite <- Qcplus_assoc, Heq, (Qcplus_comm (secs _)), Qcplus_assoc, He, <- secs_add. f_equal. lia. }
      destruct (k <=? 0) eqn:Ek; destruct Hv as [Hv1 Hv2]; [|by exists k, r]. bool_to_prop. exists k, r. assert (k = 0) by lia. by subst k.
    - destruct Hx as [Hb0 Hc0]. pose proof (interval_first None s0 now ltac:(lia)) as Hk.
      destruct (interval_view _ _ _) as [k r]. destruct Hk as (Hk & Hr0 & Hr1 & _ & Heq). specialize (Heq ltac:(lia)).
      assert ((Qc_of_Z (billed id (log s)) + Qc_of_Z k + r)%Qc = secs (now - s0)) as Hs by (rewrite Hb0, Z2Qc_inj_0, Qcplus_0_l; done).
      destruct (k <=? 0) eqn:Ek; destruct Hv as [Hv1 Hv2]; [|by exists k, r]. bool_to_prop. exists k, r. assert (k = 0) by lia. by subst k. }
  rewrite Hv', billed_app, Z2Qc_inj_add, Hb. split_and!; try done. unfold view in Hv'. injection Hv' as -> _. by eexists.
Qed.

(** Sub-second remainders do not accumulate: in exact arithmetic, when ticks
    are logged and come on time (jitter up to a whole interval included), the
    seconds billed after any number of them are the sandbox's running time rounded
    down to a whole second. *)
Theorem ticker_no_drift h :
  ordered id true s0 h -> on_time s0 interval h ->
  exists s, live sb h (born s0) = Some s /\ billed id (log s) = (clock s - s0) / second.
Proof.
  intros Ho Ht.
  assert (forall h s, exact s -> ordered id (up s) (clock s) h -> on_time (clock s) (if lastSeen (ticker s) !! id then 2 * interval else interval) h ->
    exists s', live sb h s = Some s' /\ exact s') as Hrun.
  { clear h Ho Ht. induction h as [|[now e] h IH]; intros s Hx Ho Ht; [by exists s|]. destruct Ho as (Hc & Ho).
    destruct Ht as ((l1 & l2 & ->) & Hgap & Ht). destruct Ho as (Hl1 & Hl2 & Ho). pose proof Hx as [Hu _].
    destruct (tick_exact now l1 l2 s Hx Hc Hl1 Hl2 Hgap) as (s' & E & Hx' & Hclk & [z Hz]). cbn [live]. rewrite E. cbn [mbind option_bind].
    pose proof Hx' as [Hu' _]. apply IH; [done|by rewrite Hclk, Hu', <- Hu|]. by rewrite Hz, Hclk. }
  destruct (Hrun h (born s0)) as (s & E & Hu & Hx).
  - split; [done|]. unfold view, born. cbn. by rewrite !lookup_empty.
  - done.
  - cbn. by rewrite lookup_empty.
  - exists s. split; [done|]. destruct (view id (ticker s)) as [[last|] [r|]]; try done.
    + destruct Hx as (_ & Hr0 & Hr1 & Heq). assert (billed id (log s) * second <= clock s - s0) as H1.
      { apply secs_whole. rewrite <- Heq. rewrite <- (Qcplus_0_r (Qc_of_Z _)) at 1. apply qc_add_le; [apply Qcle_refl|done]. }
      assert (clock s - s0 < (billed id (log s) + 1) * second) as H2.
      { apply Z.nle_gt. intros Hge. apply secs_le in Hge. apply (Qclt_not_le _ _ Hr1).
        assert (secs ((billed id (log s) + 1) * second) = (Qc_of_Z (billed id (log s)) + 1)%Qc) as H3.
        { unfold secs, Qcdiv. rewrite Z2Qc_inj_mul, <- Qcmult_assoc, Qcmult_inv_r by apply Qc_second_nonzero. rewrite Z2Qc_inj_add, Z2Qc_inj_1. ring. }
        rewrite H3, <- Heq in Hge. by apply Qcplus_le_mono_l in Hge. }
      apply Z.div_unique with (clock s - s0 - billed id (log s) * second); unfold second in *; lia.
    + destruct Hx as [-> ->]. by rewrite Z.sub_diag.
Qed.

End Sandbox.
End Life.

(** ** Concrete lives *)

Definition box : Sandbox :=
  {| ID := "s"; StartedAt := Some 0; MemoryMB := 4096; CpuCount := 1; Paused := false; BillingSuppressed := false |}.
Definition ms : Z := 10 ^ 6.

Lemma ticker_never_overbills_witness :
  let h := [(20700 * ms, Tick [] [] true true); (30200 * ms, Scale true true); (41900 * ms, Tick [] [] true false);
            (50000 * ms, Pause true true); (90000 * ms, Tick [] [] true true); (95000 * ms, Resume); (115300 * ms, Tick [] [] true true);
            (120000 * ms, Destroy true true)] in
  exists s, live (20 * second) 10 box h (born 0) = Some s /\ billed "s" (log s) * second <= ran s.
Proof.
  intros h. apply (ticker_never_overbills (20 * second) 10 ltac:(by vm_compute) box 0 eq_refl h).
  repeat split; try (vm_compute; discriminate); constructor.
Defined.

Lemma ticker_no_drift_witness :
  let h := [(19900 * ms, Tick [] [] true true); (40700 * ms, Tick [] [] true true); (60600 * ms, Tick [] [] true true)] in
  exists s, live (20 * second) 10 box h (born 0) = Some s /\ billed "s" (log s) = 60.
Proof.
  intros h. destruct (ticker_no_drift (20 * second) 10 ltac:(by vm_compute) box 0 eq_refl h) as (s & E & Hb).
  - repeat split; try (vm_compute; discriminate); constructor.
  - repeat split; try (vm_compute; discriminate); by do 2 eexists.
  - exists s. split; [exact E|]. change (ID box) with "s"%string in Hb. rewrite Hb.
    assert (option_map clock (live (20 * second) 10 box h (born 0)) = Some (60600 * ms)) as Hc by (vm_compute; reflexivity).
    rewrite E in Hc. cbn in Hc. injection Hc as ->. by vm_compute.
Defined.

(** A resize between a tick's reading of the interval and its write bills the same
    slice twice: the hook flushes it, and the tick then logs it again. *)
Lemma tick_races_resize :
  let t0 := markEmitted (N := Qc) "s" 0 0%Qc NewUsageTicker in
  let read := fst (intervalSecondsFor (20 * second) t0 box (20 * second)) in
  match OnSandboxScale (20 * second) 10 (20 * second) box true true t0 with
  | Some (t1, evs) => read + billed "s" evs = 40
  | None => False
  end.
Proof. vm_compute. done. Qed.

(** The end of a paused sandbox is billed as if it had run: the hook finds no last event
    and falls back to the start, up to twice the interval. So is a resize. *)
Lemma paused_destroy_overbills :
  let run e := live (20 * second) 10 box [(10 * second, Pause true true); (1000 * second, e)] (born 0) in
  option_map (fun s => (billed "s" (log s), ran s / second)) (run (Destroy true true)) = Some (50, 10) /\
  option_map (fun s => (billed "s" (log s), ran s / second)) (run (Scale true true)) = Some (50, 10).
Proof. vm_compute. done. Qed.

(** With an interval below a second the first event written panics the worker. *)
Lemma subsecond_interval_panics :
  tick (N := Qc) (500 * ms) 10 (1500 * ms) [{| l_sb := box; l_alive := Some true; l_opened := true; l_logged := true |}]
    (markEmitted "s" 0 (Qc_of_Z 1) NewUsageTicker) = None.
Proof. vm_compute. done. Qed.

(** A failed liveness check does not only skip the tick, as its message says: the
    state of the sandbox is pruned with the dead ones, and the interval up to the
    next tick but one goes unbilled. *)
Lemma failed_check_drops_interval :
  let x a := {| l_sb := box; l_alive := a; l_opened := true; l_logged := true |} in
  let run := fold_left (fun o '(now, a) => '(t, n) ← o; '(t, evs) ← tick (N := Qc) (20 * second) 10 now [x a] t; Some (t, n + billed "s" evs)) in
  option_map snd (run [(20 * second, Some true); (40 * second, None); (60 * second, Some true)] (Some (NewUsageTicker, 0))) = Some 40.
Proof. vm_compute. done. Qed.

End UsageTickerFacts.
