(* ===== verification/Threads.v ===== *)
(** * Threads over a shared state

    Programs are sequences of atomic commands on a shared state. A command reads
    its answer from the outside world (an error, a time, a choice) as an [input].
    Threads are started and run one command at a time in any order. Invariants of
    all interleavings are proved thread by thread: what a thread has learned stays
    true because the state only grows along a preorder. *)

From S2P Require Import Prelude.

Module Threads.

Section Threads.
Context {world input : Type}.

Inductive prog (A : Type) : Type :=
| Ret (a : A)
| Atom {B : Type} (f : input -> world -> world * B) (k : B -> prog A).
Arguments Ret {A} a.
Arguments Atom {A B} f k.

Fixpoint bind {A B} (p : prog A) (k : A -> prog B) : prog B :=
  match p with
  | Ret a => k a
  | Atom f k' => Atom f (fun b => bind (k' b) k)
  end.

Definition command {B} (f : input -> world -> world * B) : prog B := Atom f Ret.

(** A Go loop over a slice. *)
Fixpoint for_each {X} (l : list X) (body : X -> prog unit) : prog unit :=
  match l with
  | [] => Ret tt
  | x :: l => bind (body x) (fun _ => for_each l body)
  end.

(** Start a thread, or run the next command of thread [t]. *)
Inductive event :=
| Start (p : prog unit)
| Run (t : nat) (i : input).

Definition pool : Type := world * list (prog unit).

Definition step (e : event) (s : pool) : pool :=
  match e with
  | Start p => (fst s, snd s ++ [p])
  | Run t i =>
      match snd s !! t with
      | Some (Atom f k) => let '(w, b) := f i (fst s) in (w, <[t := k b]> (snd s))
      | _ => s
      end
  end.

Definition exec (s : pool) (es : list event) : pool := fold_left (fun s e => step e s) es s.

(** One thread alone; the inputs in order. [None]: they run out. *)
Fixpoint solo {A} (p : prog A) (is_ : list input) (w : world) : option (world * A) :=
  match p, is_ with
  | Ret a, _ => Some (w, a)
  | Atom f k, i :: is_ => let '(w, b) := f i w in solo (k b) is_ w
  | Atom f k, [] => None
  end.

(** One thread alone, every command with the input [i]. *)
Fixpoint alone {A} (p : prog A) (i : input) (w : world) : world * A :=
  match p with
  | Ret a => (w, a)
  | Atom f k => let '(w, b) := f i w in alone (k b) i w
  end.

Lemma alone_bind {A B} (p : prog A) (k : A -> prog B) i w :
  alone (bind p k) i w = let '(w', a) := alone p i w in alone (k a) i w'.
Proof.
  revert w; induction p as [a|C f k' IH]; intros w; cbn; [done|]. destruct (f i w) as [w' b]. apply IH.
Qed.

(** One thread alone, its commands answered in order by a stream of inputs. Programs
    are finite, so this always returns. *)
Fixpoint run {A} (p : prog A) (s : nat -> input) (n : nat) (w : world) : world * A :=
  match p with
  | Ret a => (w, a)
  | Atom f k => let '(w, b) := f (s n) w in run (k b) s (S n) w
  end.

(** How far into the stream it reads. *)
Fixpoint consumed {A} (p : prog A) (s : nat -> input) (n : nat) (w : world) : nat :=
  match p with
  | Ret a => n
  | Atom f k => let '(w, b) := f (s n) w in consumed (k b) s (S n) w
  end.

Lemma run_seq {A B} (p : prog A) (k : A -> prog B) s n w :
  run (bind p k) s n w = let '(w', a) := run p s n w in run (k a) s (consumed p s n w) w'.
Proof. revert n w; induction p as [a|C f k' IH]; intros n w; cbn; [done|]. destruct (f (s n) w) as [w' b]. apply IH. Qed.

(** The weakest precondition of [Q] for [p] alone, over every answer that satisfies
    [good]. *)
Fixpoint wp {A} (good : input -> Prop) (p : prog A) (Q : A -> world -> Prop) (w : world) : Prop :=
  match p with
  | Ret a => Q a w
  | Atom f k => forall i, good i -> wp good (k (snd (f i w))) Q (fst (f i w))
  end.

Lemma wp_run {A} good (p : prog A) Q s n w :
  (forall j, good (s j)) -> wp good p Q w -> Q (snd (run p s n w)) (fst (run p s n w)).
Proof.
  intros Hg. revert n w; induction p as [a|B f k IH]; intros n w H; cbn in *; [done|].
  specialize (H (s n) (Hg n)). destruct (f (s n) w) as [w' b]. by apply IH.
Qed.

Lemma wp_bind {A B} good (p : prog A) (k : A -> prog B) Q w :
  wp good p (fun a w => wp good (k a) Q w) w -> wp good (bind p k) Q w.
Proof. revert w; induction p as [a|C f k' IH]; intros w H; cbn in *; [done|]. intros i Hi. by apply IH, H. Qed.

Lemma wp_mono {A} good (p : prog A) (Q Q' : A -> world -> Prop) w :
  (forall a w, Q a w -> Q' a w) -> wp good p Q w -> wp good p Q' w.
Proof. intros HQ. revert w; induction p as [a|B f k IH]; intros w H; cbn in *; [by apply HQ|]. intros i Hi. by apply IH, H. Qed.

Lemma wp_for_each {X} good (l : list X) body (I : world -> Prop) w :
  (forall x w, In x l -> I w -> wp good (body x) (fun _ => I) w) -> I w -> wp good (for_each l body) (fun _ => I) w.
Proof.
  revert w; induction l as [|x l IH]; intros w Hb Hi; cbn; [done|]. apply wp_bind.
  eapply wp_mono; [|by apply Hb; [left|]]. intros [] w' Hi'. apply IH; [|done]. intros y v Hy. apply Hb. by right.
Qed.

(** ** Invariants of interleavings *)

Variable Inv : world -> Prop.
Variable le : world -> world -> Prop.
Context `{!PreOrder le}.
(** Which answers the outside world gives. *)
Variable fair : input -> Prop.

(** [ok w0 p Q]: a thread that has seen the state at [w0] may run [p]: from any
    later state every command keeps the invariant and moves forward, and [p] ends
    in [Q]. *)
Fixpoint ok {A} (w0 : world) (p : prog A) (Q : world -> A -> Prop) : Prop :=
  match p with
  | Ret a => Q w0 a
  | Atom f k => forall i w, fair i -> le w0 w -> Inv w ->
      Inv (fst (f i w)) /\ le w (fst (f i w)) /\ ok (fst (f i w)) (k (snd (f i w))) Q
  end.

Definition upward {A} (Q : world -> A -> Prop) : Prop := forall w w' a, le w w' -> Q w a -> Q w' a.

Lemma ok_later {A} w w' (p : prog A) Q : upward Q -> le w w' -> ok w p Q -> ok w' p Q.
Proof.
  intros HQ Hle. destruct p as [a|B f k]; cbn; [by apply HQ|]. intros H i v Hf Hv. apply H; [done|]. by etrans.
Qed.

Lemma okt_bind {A B} w (p : prog A) (k : A -> prog B) Q :
  ok w p (fun w' a => ok w' (k a) Q) -> ok w (bind p k) Q.
Proof.
  revert w; induction p as [a|C f k' IH]; intros w H; cbn in *; [done|].
  intros i v Hf Hle Hi. destruct (H i v Hf Hle Hi) as (H1 & H2 & H3). auto.
Qed.

Lemma okt_mono {A} w (p : prog A) (Q Q' : world -> A -> Prop) :
  ok w p Q -> (forall w' a, le w w' -> Q w' a -> Q' w' a) -> ok w p Q'.
Proof.
  revert w; induction p as [a|C f k' IH]; intros w H HQ; cbn in *; [by apply HQ|].
  intros i v Hf Hle Hi. destruct (H i v Hf Hle Hi) as (H1 & H2 & H3). split_and!; [done..|]. apply IH; [done|].
  intros w' a Hw'. apply HQ. by do 2 (etrans; [eassumption|]).
Qed.

(** Sequencing, with what the first part ends in. *)
Lemma ok_seq {A B} w (p : prog A) (k : A -> prog B) (P : world -> A -> Prop) Q :
  ok w p P -> (forall v a, le w v -> P v a -> ok v (k a) Q) -> ok w (bind p k) Q.
Proof. intros Hp Hk. apply okt_bind. by eapply okt_mono. Qed.

(** A command that ends the program. *)
Lemma ok_command {B} w (f : input -> world -> world * B) (Q : world -> B -> Prop) :
  (forall i v, fair i -> le w v -> Inv v -> Inv (fst (f i v)) /\ le v (fst (f i v)) /\ Q (fst (f i v)) (snd (f i v))) ->
  ok w (command f) Q.
Proof. done. Qed.

(** A loop whose body keeps what is known. *)
Lemma ok_for_each {X} w (l : list X) body (K : world -> Prop) :
  (forall v v', le v v' -> K v -> K v') -> K w ->
  (forall x v, In x l -> le w v -> K v -> ok v (body x) (fun v' _ => K v')) ->
  ok w (for_each l body) (fun v _ => K v).
Proof.
  intros HK. revert w; induction l as [|x l IH]; intros w Hw Hb; cbn; [done|]. apply okt_bind.
  eapply okt_mono; [apply Hb; [by left|reflexivity|done]|]. intros v [] Hle Hv. apply IH; [done|].
  intros y v' Hy Hle' Hv'. apply Hb; [by right| |done]. by etrans.
Qed.

Definition done_ (w : world) (_ : unit) : Prop := True.

(** The invariant of a pool of threads. *)
Definition pool_ok (s : pool) : Prop := Inv (fst s) /\ Forall (fun p => ok (fst s) p done_) (snd s).

Definition event_ok (e : event) : Prop :=
  match e with
  | Start p => forall w, Inv w -> ok w p done_
  | Run _ i => fair i
  end.

Lemma step_ok e s : pool_ok s -> event_ok e -> pool_ok (step e s) /\ le (fst s) (fst (step e s)).
Proof.
  destruct s as [w ts], e as [p|t i]; intros [Hi Ht] He; cbn in *.
  - split; [split; [done|]|reflexivity]. apply Forall_app. split; [done|]. repeat constructor. by apply He.
  - destruct (ts !! t) as [[a|B f k]|] eqn:E; cbn; [done| |done].
    destruct (f i w) as [w' b] eqn:Ef. cbn. pose proof (Forall_lookup_1 _ _ _ _ Ht E) as Hp. cbn in Hp.
    destruct (Hp i w He ltac:(reflexivity) Hi) as (H1 & H2 & H3). rewrite Ef in H1, H2, H3. cbn in *.
    split; [|done]. split; [done|]. apply Forall_insert; [|done]. eapply Forall_impl; [exact Ht|]. cbn. intros p Hok.
    apply (ok_later w); [|done..]. by intros ???.
Qed.

Lemma exec_ok es s :
  pool_ok s -> Forall event_ok es -> pool_ok (exec s es) /\ le (fst s) (fst (exec s es)).
Proof.
  revert s. induction es as [|e es IH]; intros s Hs He; [by split|].
  inversion_clear He as [|? ? He1 He2]. destruct (step_ok e s Hs He1) as [H1 H2].
  destruct (IH (step e s) H1 He2) as [H3 H4]. split; [done|]. by etrans.
Qed.

End Threads.
Arguments prog : clear implicits.
Arguments event : clear implicits.
Arguments pool : clear implicits.
Arguments Ret {world input A} a.
Arguments Atom {world input A B} f k.
Arguments Start {world input} p.
Arguments Run {world input} t i.

Declare Scope prog_scope.
Delimit Scope prog_scope with prog.
Notation "'do' x <- p ; k" := (bind p (fun x => k)) (at level 200, x pattern, p at level 100, k at level 200) : prog_scope.

End Threads.
