(* ===== verification/EventPipeline.v ===== *)
(** * The event pipeline

    Events of a sandbox are rows of a SQLite database on its worker
    (src/internal/sandbox/sqlite.go). The worker's publisher
    (src/internal/worker/redis_event_publisher.go) copies unsynced rows to the
    cell's Redis stream; forwarders on the control planes
    (src/internal/controlplane/event_forwarder.go, cf_event_client.go) read the
    stream as a consumer group and post batches to the global ingest service, which
    ignores an envelope whose identifier it has seen. Every query, Redis command
    and HTTP request is a command of its own; publishers, removals and forwarders
    of any number of machines interleave between commands, and commands may fail or
    take effect without an answer. *)

From Stdlib Require Import Ascii.
From S2P Require Import Prelude Threads.
#[local] Open Scope Z_scope.

Module EventPipeline.
Export Threads.
#[local] Open Scope prog_scope.

(** ** Times in columns *)

(** The two textual forms the code parses: [datetime('now')] of SQLite, in whole
    seconds, and RFC 3339. *)
Inductive timetext := DateTime (sec : Z) | RFC3339 (ns : Z).
Inductive layout := LayoutDateTime | LayoutRFC3339Nano.

Definition Parse (l : layout) (t : timetext) : option Z :=
  match l, t with
  | LayoutDateTime, DateTime s => Some (s * 10 ^ 9)
  | LayoutRFC3339Nano, RFC3339 n => Some n
  | _, _ => None
  end.

(** ** Data *)

(** A row of [events]. *)
Record Event := { ev_ID : Z; ev_Type : string; ev_Payload : string; ev_synced : bool; ev_CreatedAt : timetext }.

(** A database file. Row identifiers are AUTOINCREMENT and rows are never
    deleted. *)
Record file := { f_sandbox : string; f_generation : Z; f_events : list Event }.

(** An open database: its connection, its file and the generation read at opening. *)
Record SandboxDB := { h_conn : nat; h_file : nat; generation : Z }.

Record SandboxEventEnvelope := {
  ID : string; Type_ : string; SandboxID : string; OrgID : string; Plan : string;
  WorkerID : string; CellID : string; Payload : string; Timestamp : Z
}.

(** The [event] field of a stream entry: absent, not a string, or text: a marshalled
    envelope or something else. *)
Inductive text := Envelope (e : SandboxEventEnvelope) | Other (s : string).
Inductive value := NoField | NotString | Text (t : text).

(** A Redis stream identifier: milliseconds and sequence number. *)
Abbreviation stream_id := (N * N)%type.

(** The consumer group: where it was created, the next entry to deliver, and the
    pending entries with their consumer and delivery time. *)
Record group := { g_first : nat; g_next : nat; g_pel : gmap nat (string * Z) }.

(** [stream] is every entry ever added; the first [trimmed] of them are gone.
    [received] and [refused]: what the ingest service took and turned down. *)
Record world := {
  dbs : gmap (string * string) SandboxDB;    (* open databases, by worker and sandbox *)
  disk : gmap (string * string) nat;         (* files, by worker and sandbox *)
  closed : list bool;                        (* connections *)
  files : list file;
  stream : list (stream_id * value);
  trimmed : nat;
  grp : option group;
  received : list text;
  refused : list text
}.

Definition init : world :=
  {| dbs := ∅; disk := ∅; closed := []; files := []; stream := []; trimmed := 0; grp := None; received := []; refused := [] |}.

Definition with_dbs (d : gmap (string * string) SandboxDB) (w : world) : world :=
  {| dbs := d; disk := disk w; closed := closed w; files := files w; stream := stream w; trimmed := trimmed w; grp := grp w;
     received := received w; refused := refused w |}.
Definition with_disk (d : gmap (string * string) nat) (w : world) : world :=
  {| dbs := dbs w; disk := d; closed := closed w; files := files w; stream := stream w; trimmed := trimmed w; grp := grp w;
     received := received w; refused := refused w |}.
Definition with_closed (c : list bool) (w : world) : world :=
  {| dbs := dbs w; disk := disk w; closed := c; files := files w; stream := stream w; trimmed := trimmed w; grp := grp w;
     received := received w; refused := refused w |}.
Definition with_files (f : list file) (w : world) : world :=
  {| dbs := dbs w; disk := disk w; closed := closed w; files := f; stream := stream w; trimmed := trimmed w; grp := grp w;
     received := received w; refused := refused w |}.
Definition with_stream (s : list (stream_id * value)) (t : nat) (w : world) : world :=
  {| dbs := dbs w; disk := disk w; closed := closed w; files := files w; stream := s; trimmed := t; grp := grp w;
     received := received w; refused := refused w |}.
Definition with_grp (g : option group) (w : world) : world :=
  {| dbs := dbs w; disk := disk w; closed := closed w; files := files w; stream := stream w; trimmed := trimmed w; grp := g;
     received := received w; refused := refused w |}.
Definition with_ingest (r d : list text) (w : world) : world :=
  {| dbs := dbs w; disk := disk w; closed := closed w; files := files w; stream := stream w; trimmed := trimmed w; grp := grp w;
     received := r; refused := d |}.

(** What the outside world answers to a command: whether the caller sees success;
    the time; how often Redis applied the command (the client retries) and how many
    old entries it trimmed; the resolver's organisation and plan; the HTTP answer. *)
Inductive reply := Status (code : Z) (retryAfter : Z) | NetworkError (taken : bool).
Record input := { i_ok : bool; i_now : Z; i_applied : nat; i_trim : nat; i_meta : option (string * string); i_reply : reply }.

(** A command that was answered was applied. *)
Definition answered (i : input) : Prop := i_ok i = true -> (1 <= i_applied i)%nat.

Abbreviation program := (prog world input).

(** ** Identifiers in decimal *)

(** [fmt.Sprintf("%s:%d:%d", sandboxID, generation, id)] *)
Definition envelope_id (sandboxID : string) (gen id : Z) : string :=
  str (raw sandboxID ++ ":"%char :: itoaZ gen ++ ":"%char :: itoaZ id).

(** ** Sandbox databases *)

Section Pipeline.
Context (json_valid : string -> bool) (cellID : string) (maxLen : nat).

(** [time.Now()] and [p.resolver(sandboxID)]. *)
Definition time_Now : program Z := command (fun i w => (w, i_now i)).
Definition resolver : program (option (string * string)) := command (fun i w => (w, i_meta i)).

(** Opens the file, or creates it with the current time as its generation. *)
Definition OpenSandboxDB (worker sb : string) (i : input) (w : world) : world * option SandboxDB :=
  if negb (i_ok i) then (w, None)
  else
    let conn := length (closed w) in
    match disk w !! (worker, sb) with
    | Some f =>
        (with_closed (closed w ++ [false]) w,
         option_map (fun x => {| h_conn := conn; h_file := f; generation := f_generation x |}) (files w !! f))
    | None =>
        let f := length (files w) in
        (with_disk (<[(worker, sb) := f]> (disk w))
          (with_files (files w ++ [{| f_sandbox := sb; f_generation := i_now i; f_events := [] |}])
            (with_closed (closed w ++ [false]) w)),
         Some {| h_conn := conn; h_file := f; generation := i_now i |})
    end.

(** Under the manager's lock. *)
Definition Get (worker sb : string) : program (option SandboxDB) :=
  command (fun i w =>
    match dbs w !! (worker, sb) with
    | Some db => (w, Some db)
    | None =>
        match OpenSandboxDB worker sb i w with
        | (w, Some db) => (with_dbs (<[(worker, sb) := db]> (dbs w)) w, Some db)
        | (w, None) => (w, None)
        end
    end).

(** A statement on a connection: an error when it is closed. *)
Definition usable (db : SandboxDB) (i : input) (w : world) : bool :=
  i_ok i && negb (default true (closed w !! h_conn db)).

Definition LogEvent (db : SandboxDB) (type payload : string) : program bool :=
  command (fun i w =>
    if usable db i w then
      (with_files (alter (fun f =>
        {| f_sandbox := f_sandbox f; f_generation := f_generation f;
           f_events := f_events f ++ [{| ev_ID := Z.of_nat (length (f_events f)) + 1; ev_Type := type; ev_Payload := payload;
                                         ev_synced := false; ev_CreatedAt := DateTime (i_now i / 10 ^ 9) |}] |})
        (h_file db) (files w)) w, true)
    else (w, false)).

Definition GetUnsyncedEvents (db : SandboxDB) (limit : nat) : program (option (list Event)) :=
  command (fun i w =>
    (w, if usable db i w
        then option_map (fun f => take limit (List.filter (fun e => negb (ev_synced e)) (f_events f))) (files w !! h_file db)
        else None)).

Definition mark (ids : list Z) (e : Event) : Event :=
  if existsb (Z.eqb (ev_ID e)) ids
  then {| ev_ID := ev_ID e; ev_Type := ev_Type e; ev_Payload := ev_Payload e; ev_synced := true; ev_CreatedAt := ev_CreatedAt e |}
  else e.

(** One transaction. *)
Definition MarkEventsSynced (db : SandboxDB) (ids : list Z) : program unit :=
  command (fun i w =>
    (if usable db i w
     then with_files (alter (fun f => {| f_sandbox := f_sandbox f; f_generation := f_generation f;
                                         f_events := map (mark ids) (f_events f) |}) (h_file db) (files w)) w
     else w, tt)).

(** The write of an event as the worker's handlers do it: [Get], then [LogEvent]. *)
Definition log_event (worker sb type payload : string) : program unit :=
  do o <- Get worker sb;
  match o with
  | Some db => do _ <- LogEvent db type payload; Ret tt
  | None => Ret tt
  end.

(** ** The publisher *)

(** The identifier Redis gives a new entry. *)
Definition next_id (s : list (stream_id * value)) (now : Z) : stream_id :=
  let ms := Z.to_N (now / 10 ^ 6) in
  match last s with
  | Some ((m, q), _) => if (m <? ms)%N then (ms, 0%N) else (m, (q + 1)%N)
  | None => (ms, 0%N)
  end.

Fixpoint add_copies (n : nat) (now : Z) (v : value) (s : list (stream_id * value)) : list (stream_id * value) :=
  match n with
  | O => s
  | S n => add_copies n now v (s ++ [(next_id s now, v)])
  end.

(** XADD with an approximate MAXLEN: Redis may trim down to [maxLen] entries. *)
Definition XAdd (v : value) : program bool :=
  command (fun i w =>
    let s := add_copies (i_applied i) (i_now i) v (stream w) in
    (with_stream s (Nat.max (trimmed w) (Nat.min (trimmed w + i_trim i) (length s - maxLen))) w, i_ok i)).

Definition envelope (worker : string) (sandboxID : string) (gen : Z) (e : Event) (meta : option (string * string)) (ts : Z) :
  SandboxEventEnvelope :=
  {| ID := envelope_id sandboxID gen (ev_ID e); Type_ := ev_Type e; SandboxID := sandboxID;
     OrgID := from_option fst ""%string meta; Plan := from_option snd ""%string meta; WorkerID := worker; CellID := cellID;
     Payload := ev_Payload e; Timestamp := ts |}.

(** The loop of [FlushSandbox]: it stops at the first failed XADD. A payload that is
    no JSON cannot be marshalled. *)
Fixpoint sandbox_loop (worker sb : string) (gen : Z) (meta : option (string * string)) (events : list Event) (syncedIDs : list Z) :
  program (list Z) :=
  match events with
  | [] => Ret syncedIDs
  | e :: events =>
      do now <- time_Now;
      let ts := default now (Parse LayoutRFC3339Nano (ev_CreatedAt e)) in
      if negb (json_valid (ev_Payload e)) then sandbox_loop worker sb gen meta events syncedIDs
      else
        do ok <- XAdd (Text (Envelope (envelope worker sb gen e meta ts)));
        if ok : bool then sandbox_loop worker sb gen meta events (syncedIDs ++ [ev_ID e]) else Ret syncedIDs
  end.

Definition flush_limit : nat := 1000.

Definition FlushSandbox (worker sb : string) : program unit :=
  do o <- Get worker sb;
  match o with
  | None => Ret tt
  | Some db =>
      do o <- GetUnsyncedEvents db flush_limit;
      match o with
      | None | Some [] => Ret tt
      | Some events =>
          do meta <- resolver;
          do syncedIDs <- sandbox_loop worker sb (generation db) meta events [];
          match syncedIDs with
          | [] => Ret tt
          | _ => MarkEventsSynced db syncedIDs
          end
      end
  end.

Record SandboxEvent := { se_SandboxID : string; se_Generation : Z; se_Event : Event; se_Timestamp : Z }.

(** The open databases of a worker, in the order [ord] of the map. *)
Definition open_dbs (ord : list (string * SandboxDB) -> list (string * SandboxDB)) (worker : string) (w : world) :
  list (string * SandboxDB) :=
  ord (omap (fun '(k, db) => if String.eqb (fst k) worker then Some (snd k, db) else None) (map_to_list (dbs w))).

Fixpoint flat_loop (limit : nat) (l : list (string * SandboxDB)) (flat : list SandboxEvent) : program (list SandboxEvent) :=
  match l with
  | [] => Ret flat
  | (sb, db) :: l =>
      do o <- GetUnsyncedEvents db limit;
      flat_loop limit l
        (flat ++ map (fun e => {| se_SandboxID := sb; se_Generation := generation db; se_Event := e;
                                  se_Timestamp := default 0 (Parse LayoutDateTime (ev_CreatedAt e)) |}) (default [] o))
  end.

Definition GetAllUnsyncedEventsFlat (ord : list (string * SandboxDB) -> list (string * SandboxDB)) (worker : string) (limit : nat) :
  program (list SandboxEvent) :=
  do l <- command (fun _ w => (w, open_dbs ord worker w));
  flat_loop limit l [].

(** The loop of [flush]: a failed XADD is skipped. *)
Fixpoint publish_loop (worker : string) (events : list SandboxEvent) (synced : gmap string (list Z)) : program (gmap string (list Z)) :=
  match events with
  | [] => Ret synced
  | se :: events =>
      do meta <- resolver;
      if negb (json_valid (ev_Payload (se_Event se))) then publish_loop worker events synced
      else
        do ok <- XAdd (Text (Envelope (envelope worker (se_SandboxID se) (se_Generation se) (se_Event se) meta (se_Timestamp se))));
        publish_loop worker events
          (if ok : bool then <[se_SandboxID se := default [] (synced !! se_SandboxID se) ++ [ev_ID (se_Event se)]]> synced else synced)
  end.

(** The database is looked up by the sandbox's name. *)
Definition MarkSynced (worker sandboxID : string) (ids : list Z) : program unit :=
  do o <- command (fun _ w => (w, dbs w !! (worker, sandboxID)));
  match o with
  | Some db => MarkEventsSynced db ids
  | None => Ret tt
  end.

Definition batchSize : nat := 100.

Definition flush (ord : list (string * SandboxDB) -> list (string * SandboxDB)) (worker : string) : program unit :=
  do events <- GetAllUnsyncedEventsFlat ord worker batchSize;
  do synced <- publish_loop worker events ∅;
  for_each (map_to_list synced) (fun '(sandboxID, ids) => MarkSynced worker sandboxID ids).

(** The hook runs before the database is closed; the manager's lock is not held. *)
Definition Remove (worker sb : string) : program unit :=
  do o <- command (fun _ w => (w, dbs w !! (worker, sb)));
  do _ <- FlushSandbox worker sb;
  do _ <- command (fun _ w => (with_dbs (delete (worker, sb) (dbs w)) w, tt));
  do _ <- match o with
          | Some db => command (fun _ w => (with_closed (<[h_conn db := true]> (closed w)) w, tt))
          | None => Ret tt
          end;
  command (fun i w => (if i_ok i then with_disk (delete (worker, sb) (disk w)) w else w, tt)).

(** Shutdown, or a crash, of a worker: its connections end, its files stay. *)
Definition Close (worker : string) : program unit :=
  command (fun _ w =>
    (with_dbs (filter (fun kv => fst (fst kv) <> worker) (dbs w))
      (with_closed (foldr (fun kv c => <[h_conn (snd kv) := true]> c) (closed w)
         (List.filter (fun kv => String.eqb (fst (fst kv)) worker) (map_to_list (dbs w)))) w), tt)).

(** ** The ingest client *)

Inductive send_error := ErrPermanent | Retryable (retryAfter : Z).

Definition postOnce (body : list text) : program (option send_error) :=
  command (fun i w =>
    let take_ w := with_ingest (received w ++ body) (refused w) w in
    match i_reply i with
    | Status code ra =>
        if (200 <=? code) && (code <? 300) then (take_ w, None)
        else if code =? 429 then (w, Some (Retryable (if (0 <? ra) && (ra <? 60) then ra else 0)))
        else if (400 <=? code) && (code <? 500) then (with_ingest (received w) (refused w ++ body) w, Some ErrPermanent)
        else (w, Some (Retryable 0))
    | NetworkError taken => (if taken then take_ w else w, Some (Retryable 0))
    end).

(** A timer against the context: false when the context ends first. *)
Definition sleep : program bool := command (fun i w => (w, i_ok i)).

Definition maxAttempts : nat := 3.

(** [rest]: attempts left after this one. Every retry waits: the Retry-After of a
    first 429, else a delay that doubles. *)
Fixpoint send_loop (body : list text) (rest : nat) : program (option send_error) :=
  do err <- postOnce body;
  match err with
  | None => Ret None
  | Some ErrPermanent => Ret (Some ErrPermanent)
  | Some (Retryable ra) =>
      match rest with
      | O => Ret (Some (Retryable 0))
      | S rest =>
          do ok <- sleep;
          if ok : bool then send_loop body rest else Ret (Some (Retryable 0))
      end
  end.

Definition SendBatch (body : list text) : program (option send_error) := send_loop body (maxAttempts - 1).

(** ** The forwarder *)

(** XGROUP CREATE MKSTREAM with "$"; BUSYGROUP when it exists. *)
Definition CreateGroup : program unit :=
  command (fun i w =>
    (match grp w with
     | None => if (0 <? i_applied i)%nat
               then with_grp (Some {| g_first := length (stream w); g_next := length (stream w); g_pel := ∅ |}) w else w
     | Some _ => w
     end, tt)).

Definition update_group (f : group -> group) (w : world) : world := with_grp (option_map f (grp w)) w.

Definition ack (ids : list nat) : program unit :=
  command (fun i w =>
    (if (0 <? i_applied i)%nat
     then update_group (fun g => {| g_first := g_first g; g_next := g_next g; g_pel := foldr delete (g_pel g) ids |}) w
     else w, tt)).

(** The entries from position [p] on, with their positions. *)
Definition from_position (p : nat) (l : list (stream_id * value)) : list (nat * value) :=
  imap (fun j e => ((p + j)%nat, snd e)) (drop p l).

Definition readBatch : nat := 500.

(** Entries not delivered yet and not trimmed become pending for the consumer. *)
Definition XReadGroup (consumer : string) : program (option (list (nat * value))) :=
  command (fun i w =>
    match grp w with
    | Some g =>
        if (0 <? i_applied i)%nat then
          let start := Nat.max (g_next g) (trimmed w) in
          let msgs := take readBatch (from_position start (stream w)) in
          (match msgs with
           | [] => w
           | _ => with_grp (Some {| g_first := g_first g; g_next := (start + length msgs)%nat;
                                    g_pel := foldr (fun m => <[fst m := (consumer, i_now i)]>) (g_pel g) msgs |}) w
           end, if i_ok i then Some msgs else None)
        else (w, None)
    | None => (w, None)
    end).

Definition valid (t : text) : bool := match t with Envelope _ => true | Other s => json_valid s end.

(** The loop of [processBatch]: entries that are no JSON text are acknowledged and
    dropped. *)
Fixpoint collect (msgs : list (nat * value)) (envelopes : list (nat * text)) : program (list (nat * text)) :=
  match msgs with
  | [] => Ret envelopes
  | (id, Text t) :: msgs =>
      if valid t then collect msgs (envelopes ++ [(id, t)])
      else do _ <- ack [id]; collect msgs envelopes
  | (id, _) :: msgs => do _ <- ack [id]; collect msgs envelopes
  end.

Definition processBatch (msgs : list (nat * value)) : program unit :=
  do envelopes <- collect msgs [];
  match envelopes with
  | [] => Ret tt
  | _ =>
      do err <- SendBatch (map snd envelopes);
      match err with
      | None | Some ErrPermanent => ack (map fst envelopes)
      | Some (Retryable _) => Ret tt
      end
  end.

(** One turn of [readLoop]. *)
Definition read_once (consumer : string) : program unit :=
  do o <- XReadGroup consumer;
  match o with
  | Some msgs => processBatch msgs
  | None => Ret tt
  end.

(** *** Reclaiming *)

(** The text of an identifier, and the next one as the code computes it: digits
    after the last dash, plus one, in a 64-bit [int]. *)
Definition print_id (id : stream_id) : bytes := itoa (fst id) ++ "-"%char :: itoa (snd id).

Definition wrap64 (n : Z) : Z := (n + 2 ^ 63) mod 2 ^ 64 - 2 ^ 63.

(** Position of the last dash. *)
Fixpoint last_dash (i : nat) (b : bytes) (found : option nat) : option nat :=
  match b with
  | [] => found
  | c :: b => last_dash (S i) b (if Ascii.eqb c "-"%char then Some i else found)
  end.

Definition bumpStreamID (id : bytes) : bytes :=
  match last_dash 0 id None with
  | None => []
  | Some dash =>
      if ((dash =? 0) || (dash =? length id - 1))%nat then []
      else
        let seqPart := drop (S dash) id in
        if forallb is_digit seqPart
        then take dash id ++ "-"%char :: itoaZ (wrap64 (fold_left (fun a c => wrap64 (a * 10 + Z.of_N (digit_val c))) seqPart 0 + 1))
        else []
  end.

(** A range start of a Redis command: "-", or an identifier. *)
Definition parse_start (b : bytes) : option stream_id :=
  if bool_decide (b = ["-"%char]) then Some (0%N, 0%N)
  else match last_dash 0 b None with
       | Some dash => Some (digits_val (take dash b), digits_val (drop (S dash) b))
       | None => None
       end.

Definition id_le (a b : stream_id) : bool := (fst a <? fst b)%N || ((fst a =? fst b)%N && (snd a <=? snd b)%N).

Definition pageSize : nat := 100.
Definition minIdle : Z := 60 * 10 ^ 9.

(** Pending entries from [start] on, oldest first. *)
Definition page (start : bytes) (w : world) : list nat :=
  match grp w with
  | Some g =>
      take pageSize (List.filter (fun p =>
        match g_pel g !! p, stream w !! p, parse_start start with
        | Some _, Some (id, _), Some s => id_le s id
        | _, _, _ => false
        end) (seq 0 (length (stream w))))
  | None => []
  end.

(** Positions with their identifiers. *)
Definition page_ids (start : bytes) (w : world) : list (nat * bytes) :=
  omap (fun p => option_map (fun e => (p, print_id (fst e))) (stream w !! p)) (page start w).

Definition XPendingExt (start : bytes) : program (option (list (nat * bytes))) :=
  command (fun i w =>
    (w, if i_ok i then Some (page_ids start w) else None)).

Definition stale (now : Z) (pel : gmap nat (string * Z)) (p : nat) : bool :=
  match pel !! p with Some (_, t) => minIdle <=? now - t | None => false end.

(** Entries idle for [minIdle] become the consumer's; entries already trimmed can
    be claimed too. *)
Definition XClaimJustID (consumer : string) (ids : list nat) : program (option (list nat)) :=
  command (fun i w =>
    match grp w with
    | Some g =>
        if (0 <? i_applied i)%nat then
          let claimed := List.filter (stale (i_now i) (g_pel g)) ids in
          (update_group (fun g => {| g_first := g_first g; g_next := g_next g;
                                     g_pel := foldr (fun p => <[p := (consumer, i_now i)]>) (g_pel g) claimed |}) w,
           if i_ok i then Some claimed else None)
        else (w, None)
    | None => (w, None)
    end).

(** The entry with this identifier, [Some None] when it is gone. *)
Definition XRange (id : nat) : program (option (option value)) :=
  command (fun i w =>
    (w, if i_ok i then Some (if (id <? trimmed w)%nat then None else option_map snd (stream w !! id)) else None)).

Definition reclaim_one (id : nat) : program unit :=
  do o <- XRange id;
  match o with
  | None => Ret tt
  | Some None => ack [id]
  | Some (Some v) => processBatch [(id, v)]
  end.

(** [fuel]: pages. *)
Fixpoint reclaim_loop (fuel : nat) (consumer : string) (start : bytes) : program unit :=
  match fuel with
  | O => Ret tt
  | S fuel =>
      do o <- XPendingExt start;
      match o with
      | None | Some [] => Ret tt
      | Some pending =>
          do c <- XClaimJustID consumer (map fst pending);
          match c with
          | None => Ret tt
          | Some claimed =>
              do _ <- for_each claimed reclaim_one;
              if (length pending <? pageSize)%nat then Ret tt
              else
                let start := bumpStreamID (from_option snd [] (last pending)) in
                if bool_decide (start = []) then Ret tt else reclaim_loop fuel consumer start
          end
      end
  end.

Definition reclaimOnce (fuel : nat) (consumer : string) : program unit := reclaim_loop fuel consumer ["-"%char].

(** An entry another program adds to the stream. *)
Definition foreign (v : value) : program unit := do _ <- XAdd v; Ret tt.

End Pipeline.
End EventPipeline.
