(* ===== verification/EventPipelineFacts.v ===== *)
(** * No event is lost on the way

    Invariants of [EventPipeline] under every interleaving of publishers, removals
    and forwarders and every failure of their commands: a synced row has been
    published, a published entry is waiting, pending or settled, and an envelope
    identifier names one row. *)

From Stdlib Require Import Ascii.
From S2P Require Import Prelude Threads EventPipeline.
#[local] Open Scope Z_scope.

Module EventPipelineFacts.
Export EventPipeline.
#[local] Open Scope prog_scope.

Section Invariant.
Context (json_valid : string -> bool) (cellID : string) (maxLen : nat).

(** ** What the thread-local facts are about *)

(** [env] carries row [e] of the database file [f]. *)
Definition carries (env : SandboxEventEnvelope) (f : file) (e : Event) : Prop :=
  ID env = envelope_id (f_sandbox f) (f_generation f) (ev_ID e) /\ SandboxID env = f_sandbox f /\
  Type_ env = ev_Type e /\ Payload env = ev_Payload e.

(** Rows only become synced. *)
Definition row_le (e e' : Event) : Prop :=
  ev_ID e = ev_ID e' /\ ev_Type e = ev_Type e' /\ ev_Payload e = ev_Payload e' /\ (ev_synced e = true -> ev_synced e' = true).

Definition file_le (f f' : file) : Prop :=
  f_sandbox f = f_sandbox f' /\ f_generation f = f_generation f' /\
  forall j e, f_events f !! j = Some e -> exists e', f_events f' !! j = Some e' /\ row_le e e'.

Definition files_le (l l' : list file) : Prop :=
  forall n f, l !! n = Some f -> exists f', l' !! n = Some f' /\ file_le f f'.

Definition group_le (g g' : option group) : Prop :=
  forall x, g = Some x -> exists x', g' = Some x' /\ g_first x = g_first x' /\ (g_next x <= g_next x')%nat.

(** The order along which the state grows. *)
Record le (w w' : world) : Prop := {
  le_files : files_le (files w) (files w');
  le_stream : exists k, stream w' = stream w ++ k;
  le_trimmed : (trimmed w <= trimmed w')%nat;
  le_received : forall t, In t (received w) -> In t (received w');
  le_refused : forall t, In t (refused w) -> In t (refused w');
  le_group : group_le (grp w) (grp w')
}.

(** An entry that needs no forwarding any more. *)
Definition settled (w : world) (p : nat) (v : value) : Prop :=
  (p < trimmed w)%nat \/
  match v with Text t => valid json_valid t = false \/ In t (received w) \/ In t (refused w) | _ => True end.

Definition entry (w : world) (p : nat) (v : value) : Prop := exists id, stream w !! p = Some (id, v).

(** Row [id] of generation [gen] of the sandbox is in the stream. *)
Definition published (w : world) (sb : string) (gen id : Z) : Prop :=
  exists p env n f e, entry w p (Text (Envelope env)) /\ files w !! n = Some f /\ In e (f_events f) /\ carries env f e /\
    f_sandbox f = sb /\ f_generation f = gen /\ ev_ID e = id.

Definition db_ok (w : world) (sb : string) (db : SandboxDB) : Prop :=
  exists f, files w !! h_file db = Some f /\ f_sandbox f = sb /\ f_generation f = generation db.

Record group_ok (w : world) (g : group) : Prop := {
  go_first : (g_first g <= g_next g)%nat;
  go_next : (g_next g <= length (stream w))%nat;
  go_pel p x : g_pel g !! p = Some x -> (p < g_next g)%nat;
  go_settled p v : (g_first g <= p < g_next g)%nat -> entry w p v -> is_Some (g_pel g !! p) \/ settled w p v
}.

(** Redis gives entries ascending identifiers. *)
Definition id_lt (a b : stream_id) : Prop := (fst a < fst b)%N \/ (fst a = fst b /\ (snd a < snd b)%N).

Definition ascending (s : list (stream_id * value)) : Prop :=
  forall p q a b, (p < q)%nat -> s !! p = Some a -> s !! q = Some b -> id_lt (fst a) (fst b).

Record Inv (w : world) : Prop := {
  inv_dbs wk sb db : dbs w !! (wk, sb) = Some db -> db_ok w sb db;
  inv_disk wk sb n : disk w !! (wk, sb) = Some n -> exists f, files w !! n = Some f /\ f_sandbox f = sb;
  inv_ids n f j e : files w !! n = Some f -> f_events f !! j = Some e -> ev_ID e = Z.of_nat j + 1;
  inv_synced n f e : files w !! n = Some f -> In e (f_events f) -> ev_synced e = true ->
    exists n' f', files w !! n' = Some f' /\ f_sandbox f' = f_sandbox f /\ published w (f_sandbox f) (f_generation f') (ev_ID e);
  inv_stream p env : entry w p (Text (Envelope env)) -> exists n f e, files w !! n = Some f /\ In e (f_events f) /\ carries env f e;
  inv_ingest t : In t (received w) \/ In t (refused w) -> exists p, entry w p (Text t);
  inv_ascending : ascending (stream w);
  inv_trim : (trimmed w + maxLen <= length (stream w))%nat \/ trimmed w = 0%nat;
  inv_group g : grp w = Some g -> group_ok w g
}.

(** ** The order *)

Lemma row_le_refl e : row_le e e.
Proof. by split_and!. Qed.

Lemma file_le_refl f : file_le f f.
Proof. split_and!; [done..|]. intros j e He. exists e. split; [done|apply row_le_refl]. Qed.

Lemma files_le_refl l : files_le l l.
Proof. intros n f Hf. exists f. split; [done|apply file_le_refl]. Qed.

Lemma file_le_trans f1 f2 f3 : file_le f1 f2 -> file_le f2 f3 -> file_le f1 f3.
Proof.
  intros (H1 & H2 & H3) (K1 & K2 & K3). split_and!; [congruence..|]. intros j e He.
  destruct (H3 j e He) as (e' & He' & R1 & R2 & R3 & R4). destruct (K3 j e' He') as (e'' & He'' & S1 & S2 & S3 & S4).
  exists e''. split; [done|]. split_and!; [congruence..|auto].
Qed.

Lemma files_le_trans l1 l2 l3 : files_le l1 l2 -> files_le l2 l3 -> files_le l1 l3.
Proof.
  intros H K n f Hf. destruct (H n f Hf) as (f' & Hf' & Hle). destruct (K n f' Hf') as (f'' & Hf'' & Kle).
  exists f''. split; [done|]. by eapply file_le_trans.
Qed.

Lemma group_le_refl g : group_le g g.
Proof. intros x Hx. exists x. split_and!; auto. Qed.

Lemma le_refl w : le w w.
Proof. split; auto using files_le_refl, group_le_refl. by exists []; rewrite app_nil_r. Qed.

Lemma le_trans w1 w2 w3 : le w1 w2 -> le w2 w3 -> le w1 w3.
Proof.
  intros [A1 [k1 A2] A3 A4 A5 A6] [B1 [k2 B2] B3 B4 B5 B6]. split; [by eapply files_le_trans| |lia|auto|auto|].
  - exists (k1 ++ k2). by rewrite B2, A2, app_assoc.
  - intros x Hx. destruct (A6 x Hx) as (x' & Hx' & E1 & E2). destruct (B6 x' Hx') as (x'' & Hx'' & F1 & F2).
    exists x''. split_and!; [done|congruence|lia].
Qed.

#[local] Instance le_preorder : PreOrder le.
Proof. split; [exact le_refl|exact le_trans]. Qed.

Lemma entry_le w w' p v : le w w' -> entry w p v -> entry w' p v.
Proof. intros [_ [k Hk] _ _ _ _] [id He]. exists id. rewrite Hk. by apply lookup_app_l_Some. Qed.

Lemma settled_le w w' p v : le w w' -> settled w p v -> settled w' p v.
Proof.
  intros [_ _ Ht Hr Hd _] [H|H]; [left; lia|right]. destruct v as [| |t]; [done..|]. destruct H as [?|[?|?]]; auto.
Qed.

Lemma row_in_le l l' n f e : files_le l l' -> l !! n = Some f -> In e (f_events f) ->
  exists f' e', l' !! n = Some f' /\ In e' (f_events f') /\ f_sandbox f = f_sandbox f' /\ f_generation f = f_generation f' /\ row_le e e'.
Proof.
  intros Hle Hf He. destruct (Hle n f Hf) as (f' & Hf' & H1 & H2 & H3). apply list_elem_of_In, list_elem_of_lookup in He as [j Hj].
  destruct (H3 j e Hj) as (e' & Hj' & Hr). exists f', e'. split_and!; [done| |done..].
  apply list_elem_of_In. by apply list_elem_of_lookup_2 with j.
Qed.

Lemma carries_le env f f' e e' :
  f_sandbox f = f_sandbox f' -> f_generation f = f_generation f' -> row_le e e' -> carries env f e -> carries env f' e'.
Proof. intros H1 H2 (R1 & R2 & R3 & _) (C1 & C2 & C3 & C4). split_and!; congruence. Qed.

Lemma published_le w w' sb gen id : le w w' -> published w sb gen id -> published w' sb gen id.
Proof.
  intros Hle (p & env & n & f & e & Hp & Hf & He & Hc & <- & <- & <-).
  destruct (row_in_le _ _ _ _ _ (le_files _ _ Hle) Hf He) as (f' & e' & Hf' & He' & E1 & E2 & Hr).
  exists p, env, n, f', e'. split_and!; [by eapply entry_le|done..|by eapply carries_le|done|done|]. by destruct Hr as [-> _].
Qed.

Lemma db_ok_le w w' sb db : le w w' -> db_ok w sb db -> db_ok w' sb db.
Proof.
  intros Hle (f & Hf & <- & E). destruct (le_files _ _ Hle _ _ Hf) as (f' & Hf' & E1 & E2 & _).
  exists f'. split_and!; [done|congruence..].
Qed.

(** ** Commands *)

Abbreviation okp := (ok Inv le answered).

Lemma okp_read {B} w (g : input -> world -> B) (Q : world -> B -> Prop) :
  (forall i v, le w v -> Inv v -> Q v (g i v)) -> okp w (command (fun i v => (v, g i v))) Q.
Proof. intros H. apply ok_command. intros i v _ Hle Hi. split_and!; [done|apply le_refl|]. by apply H. Qed.

(** A command on the databases alone. *)
Lemma frame_db w w' :
  Inv w -> le w w' -> stream w' = stream w -> trimmed w' = trimmed w -> grp w' = grp w -> received w' = received w -> refused w' = refused w ->
  (forall wk sb db, dbs w' !! (wk, sb) = Some db -> db_ok w' sb db) ->
  (forall wk sb n, disk w' !! (wk, sb) = Some n -> exists f, files w' !! n = Some f /\ f_sandbox f = sb) ->
  (forall n f j e, files w' !! n = Some f -> f_events f !! j = Some e -> ev_ID e = Z.of_nat j + 1) ->
  (forall n f e, files w' !! n = Some f -> In e (f_events f) -> ev_synced e = true ->
    exists n' f', files w' !! n' = Some f' /\ f_sandbox f' = f_sandbox f /\ published w' (f_sandbox f) (f_generation f') (ev_ID e)) ->
  Inv w'.
Proof.
  intros Hi Hle Es Et Eg Er Ed H1 H2 H3 H4. split; try done.
  - intros p env [id He]. rewrite Es in He. destruct (inv_stream w Hi p env) as (n & f & e & Hf & He' & Hc); [by exists id|].
    destruct (row_in_le _ _ _ _ _ (le_files _ _ Hle) Hf He') as (f' & e' & Hf' & Hin & E1 & E2 & Hr).
    exists n, f', e'. split_and!; [done..|]. by eapply carries_le.
  - intros t. rewrite Er, Ed. intros Ht. destruct (inv_ingest w Hi t Ht) as [p Hp]. exists p. by eapply entry_le.
  - rewrite Es. by apply inv_ascending.
  - rewrite Et, Es. by apply inv_trim.
  - intros g. rewrite Eg. intros Hg. destruct (inv_group w Hi g Hg) as [G1 G2 G3 G4]. split; [done|by rewrite Es|done|].
    intros p v Hp [id He]. rewrite Es in He. destruct (G4 p v Hp) as [?|Hs]; [by exists id|by left|right]. by eapply settled_le.
Qed.

(** A command on the stream and the ingest service alone. *)
Lemma frame_stream w w' :
  Inv w -> le w w' -> dbs w' = dbs w -> disk w' = disk w -> files w' = files w ->
  (forall p env, entry w' p (Text (Envelope env)) -> exists n f e, files w' !! n = Some f /\ In e (f_events f) /\ carries env f e) ->
  (forall t, In t (received w') \/ In t (refused w') -> exists p, entry w' p (Text t)) ->
  ascending (stream w') ->
  ((trimmed w' + maxLen <= length (stream w'))%nat \/ trimmed w' = 0%nat) ->
  (forall g, grp w' = Some g -> group_ok w' g) -> Inv w'.
Proof.
  intros Hi Hle Ed Ek Ef H1 H2 Hasc H3 H4. split; try done.
  - intros wk sb db. rewrite Ed. intros Hd. eapply db_ok_le; [done|]. by eapply inv_dbs.
  - intros wk sb n. rewrite Ek, Ef. by eapply inv_disk.
  - intros n f j e. rewrite Ef. by apply inv_ids.
  - intros n f e. rewrite Ef. intros Hf He Hs. destruct (inv_synced w Hi n f e Hf He Hs) as (n' & f' & Hf' & E & Hp).
    exists n', f'. split_and!; [done..|]. by eapply published_le.
Qed.

(** What a synced row promises is kept when its file grows. *)
Lemma synced_kept w w' n f e :
  Inv w -> le w w' -> files w !! n = Some f -> In e (f_events f) -> ev_synced e = true ->
  exists n' f', files w' !! n' = Some f' /\ f_sandbox f' = f_sandbox f /\ published w' (f_sandbox f) (f_generation f') (ev_ID e).
Proof.
  intros Hi Hle Hf He Hs. destruct (inv_synced w Hi n f e Hf He Hs) as (n' & f' & Hf' & E & Hp).
  destruct (le_files _ _ Hle _ _ Hf') as (f2 & Hf2 & E1 & E2 & _). exists n', f2. split_and!; [done|congruence|].
  rewrite <- E2. by eapply published_le.
Qed.

(** *** Databases *)

Lemma files_le_app l k : files_le l (l ++ k).
Proof. intros n f Hf. exists f. split; [by apply lookup_app_l_Some|apply file_le_refl]. Qed.

Lemma OpenSandboxDB_ok wk sb i w w' o :
  Inv w -> OpenSandboxDB wk sb i w = (w', o) ->
  Inv w' /\ le w w' /\ dbs w' = dbs w /\ (forall db, o = Some db -> db_ok w' sb db).
Proof.
  intros Hi. unfold OpenSandboxDB. destruct (i_ok i); [|intros [= <- <-]; split_and!; [done|apply le_refl|done|done]]. cbn [negb].
  destruct (disk w !! (wk, sb)) as [n|] eqn:E; intros [= <- <-].
  - assert (le w (with_closed (closed w ++ [false]) w)) as Hle by (split; cbn; auto using files_le_refl, group_le_refl; by exists []; rewrite app_nil_r).
    split_and!; [|done..|].
    + apply (frame_db w); try done; apply Hi.
    + intros db Hdb. destruct (inv_disk w Hi _ _ _ E) as (f & Hf & <-). rewrite Hf in Hdb. injection Hdb as <-. by exists f.
  - set (f0 := {| f_sandbox := sb; f_generation := i_now i; f_events := [] |}).
    set (w' := with_disk _ _). assert (le w w') as Hle.
    { split; cbn; auto using files_le_app, group_le_refl. by exists []; rewrite app_nil_r. }
    assert (files w' !! length (files w) = Some f0) as Hnew by (cbn; by rewrite lookup_app_r, Nat.sub_diag by done).
    assert (forall n f, files w' !! n = Some f -> files w !! n = Some f \/ (n = length (files w) /\ f = f0)) as Hcase.
    { intros n f Hf. cbn in Hf. apply lookup_app_Some in Hf as [Hf|[Hn Hf]]; [by left|right].
      apply list_lookup_singleton_Some in Hf as [Hk <-]. split; [lia|done]. }
    split_and!; [|done..|].
    + apply (frame_db w); try done.
      * intros wk' sb' db Hd. eapply db_ok_le; [done|]. by eapply inv_dbs.
      * intros wk' sb' n Hd. change (disk w') with (<[(wk, sb) := length (files w)]> (disk w)) in Hd.
        destruct (decide ((wk', sb') = (wk, sb))) as [[= -> ->]|Hne].
        -- rewrite lookup_insert_eq in Hd. injection Hd as <-. by exists f0.
        -- rewrite lookup_insert_ne in Hd by done. destruct (inv_disk w Hi _ _ _ Hd) as (f & Hf & <-). exists f. split; [|done].
           cbn. by apply lookup_app_l_Some.
      * intros n f j e Hf He. destruct (Hcase n f Hf) as [Hf'|[_ ->]]; [by eapply inv_ids|done].
      * intros n f e Hf He Hs. destruct (Hcase n f Hf) as [Hf'|[_ ->]]; [by eapply synced_kept|done].
    + intros db [= <-]. by exists f0.
Qed.

Lemma Get_ok w wk sb : okp w (Get wk sb) (fun w' o => forall db, o = Some db -> db_ok w' sb db).
Proof.
  apply ok_command. intros i v _ _ Hi. destruct (dbs v !! (wk, sb)) as [db|] eqn:E; cbn.
  - split_and!; [done|apply le_refl|]. intros ? [= <-]. by eapply inv_dbs.
  - destruct (OpenSandboxDB wk sb i v) as [v' o] eqn:Eo. destruct (OpenSandboxDB_ok _ _ _ _ _ _ Hi Eo) as (Hi' & Hle & Ed & Hdb).
    destruct o as [db|]; cbn; [|by split_and!]. set (v2 := with_dbs _ _).
    assert (le v' v2) as Hle2 by (split; cbn; auto using files_le_refl, group_le_refl; by exists []; rewrite app_nil_r).
    split_and!; [|by eapply le_trans|].
    + apply (frame_db v'); try done; try apply Hi'. intros wk' sb' db' Hd. eapply db_ok_le; [exact Hle2|].
      change (dbs v2) with (<[(wk, sb) := db]> (dbs v')) in Hd. destruct (decide ((wk', sb') = (wk, sb))) as [[= -> ->]|Hne].
      * rewrite lookup_insert_eq in Hd. injection Hd as <-. by apply Hdb.
      * rewrite lookup_insert_ne in Hd by done. by eapply inv_dbs.
    + intros ? [= <-]. eapply db_ok_le; [exact Hle2|]. by apply Hdb.
Qed.

(** A file that is replaced by a larger one. *)
Lemma files_le_alter g n l : (forall f, l !! n = Some f -> file_le f (g f)) -> files_le l (alter g n l).
Proof.
  intros Hg m f Hf. destruct (decide (m = n)) as [->|Hne].
  - exists (g f). rewrite list_lookup_alter_eq, Hf. split; [done|by apply Hg].
  - exists f. rewrite list_lookup_alter_ne by done. split; [done|apply file_le_refl].
Qed.

Lemma alter_frame w g n :
  Inv w -> let w' := with_files (alter g n (files w)) w in
  (forall f, files w !! n = Some f ->
    file_le f (g f) /\
    (forall j e, f_events (g f) !! j = Some e -> ev_ID e = Z.of_nat j + 1) /\
    (forall e, In e (f_events (g f)) -> ev_synced e = true ->
      (exists e0, In e0 (f_events f) /\ ev_synced e0 = true /\ ev_ID e0 = ev_ID e) \/
      (exists n' f', files w !! n' = Some f' /\ f_sandbox f' = f_sandbox f /\ published w (f_sandbox f) (f_generation f') (ev_ID e)))) ->
  Inv w' /\ le w w'.
Proof.
  intros Hi w' Hg. assert (le w w') as Hle.
  { split; cbn; auto using group_le_refl; [|by exists []; rewrite app_nil_r]. apply files_le_alter. intros f Hf. by apply Hg. }
  split; [|done].
  assert (forall m f', files w' !! m = Some f' -> files w !! m = Some f' \/ (m = n /\ exists f, files w !! n = Some f /\ f' = g f)) as Hcase.
  { intros m f'. cbn. destruct (decide (m = n)) as [->|Hne].
    - rewrite list_lookup_alter_eq. intros Hf. apply fmap_Some in Hf as (f & Hf & ->). eauto.
    - rewrite list_lookup_alter_ne by done. auto. }
  apply (frame_db w); try done.
  - intros wk sb db Hd. eapply db_ok_le; [exact Hle|]. by eapply inv_dbs.
  - intros wk sb m Hd. destruct (inv_disk w Hi _ _ _ Hd) as (f & Hf & <-). destruct (le_files _ _ Hle _ _ Hf) as (f' & Hf' & E & _). eauto.
  - intros m f' j e Hf He. destruct (Hcase m f' Hf) as [Hf'|[-> (f & Hf' & ->)]]; [by eapply inv_ids|]. by eapply Hg.
  - intros m f' e Hf He Hs. destruct (Hcase m f' Hf) as [Hf'|[-> (f & Hf' & ->)]]; [by eapply synced_kept|].
    destruct (Hg f Hf') as (Hle' & _ & Hg3). destruct Hle' as (E1 & E2 & _). rewrite <- E1.
    destruct (Hg3 e He Hs) as [(e0 & He0 & Hs0 & <-)|(n' & f2 & Hf2 & E & Hp)]; [by eapply synced_kept|].
    destruct (le_files _ _ Hle _ _ Hf2) as (f3 & Hf3 & E3 & E4 & _). exists n', f3. split_and!; [done|congruence|].
    rewrite <- E4. by eapply published_le.
Qed.

Lemma LogEvent_ok w db type payload : okp w (LogEvent db type payload) (fun _ _ => True).
Proof.
  apply ok_command. intros i v _ _ Hi. destruct (usable db i v); cbn [fst snd]; [|split_and!; [done|apply le_refl|done]].
  edestruct alter_frame as [H1 H2]; [exact Hi| |split_and!; [exact H1|exact H2|done]]. intros f Hf. cbn. split_and!.
  - split_and!; [done..|]. intros j e He. exists e. cbn. split; [by apply lookup_app_l_Some|apply row_le_refl].
  - intros j e He. apply lookup_app_Some in He as [He|[Hj He]]; [by eapply inv_ids|].
    apply list_lookup_singleton_Some in He as [Hk <-]. cbn. lia.
  - intros e He Hs. apply in_app_or in He as [He|[<-|[]]]; [left; eauto|done].
Qed.

Lemma MarkEventsSynced_ok w db ids sb :
  db_ok w sb db ->
  (forall id, In id ids -> exists gen, published w sb gen id) ->
  okp w (MarkEventsSynced db ids) (fun _ _ => True).
Proof.
  intros Hdb Hids. apply ok_command. intros i v _ Hle Hi. cbn [fst snd].
  destruct (usable db i v); [|split_and!; [done|apply le_refl|done]].
  destruct (db_ok_le _ _ _ _ Hle Hdb) as (f & Hf & Hsb & _).
  edestruct alter_frame as [H1 H2]; [exact Hi| |split_and!; [exact H1|exact H2|done]]. intros f' Hf'. simplify_eq. cbn. split_and!.
  - split_and!; [done..|]. intros j e He. exists (mark ids e). cbn. rewrite list_lookup_fmap, He. split; [done|].
    unfold mark. destruct (existsb _ _); by split_and!.
  - intros j e He. rewrite list_lookup_fmap in He. apply fmap_Some in He as (e0 & He0 & ->).
    rewrite <- (inv_ids v Hi _ _ _ _ Hf He0). unfold mark. by destruct (existsb _ _).
  - intros e He Hs. apply in_map_iff in He as (e0 & <- & He0). unfold mark in *. destruct (existsb (Z.eqb (ev_ID e0)) ids) eqn:Ex.
    + right. apply existsb_exists in Ex as (id & Hid & E). apply Z.eqb_eq in E. subst id. cbn.
      destruct (Hids _ Hid) as (gen & Hp). eapply published_le in Hp; [|done].
      pose proof Hp as (_ & _ & n & f2 & _ & _ & Hf2 & _ & _ & E2 & <- & _). by exists n, f2.
    + left. eauto.
Qed.

Lemma log_event_ok w wk sb type payload : okp w (log_event wk sb type payload) done_.
Proof.
  eapply ok_seq; [apply _|apply Get_ok|]. intros v [db|] _ _; [|done].
  eapply ok_seq; [apply _|apply LogEvent_ok|done].
Qed.

(** *** The publisher *)

(** Event [e] was read from generation [gen] of the sandbox's database. *)
Definition known (w : world) (sb : string) (gen : Z) (e : Event) : Prop :=
  exists n f e', files w !! n = Some f /\ f_sandbox f = sb /\ f_generation f = gen /\ In e' (f_events f) /\ row_le e e'.

Lemma known_le w w' sb gen e : le w w' -> known w sb gen e -> known w' sb gen e.
Proof.
  intros Hle (n & f & e' & Hf & <- & <- & He & Hr).
  destruct (row_in_le _ _ _ _ _ (le_files _ _ Hle) Hf He) as (f' & e2 & Hf' & He' & E1 & E2 & Hr').
  exists n, f', e2. split_and!; [done..|]. destruct Hr as (R1 & R2 & R3 & R4), Hr' as (S1 & S2 & S3 & S4). split_and!; [congruence..|auto].
Qed.

Lemma GetUnsyncedEvents_ok w db limit sb :
  db_ok w sb db -> okp w (GetUnsyncedEvents db limit) (fun w' o => forall l e, o = Some l -> In e l -> known w' sb (generation db) e).
Proof.
  intros Hdb. apply okp_read. intros i v Hle Hi l e. destruct (usable db i v); [|done].
  destruct (db_ok_le _ _ _ _ Hle Hdb) as (f & Hf & Hsb & Hg). rewrite Hf. intros [= <-] He.
  apply list_elem_of_In, elem_of_take in He as (j & He & _). apply list_elem_of_lookup_2, list_elem_of_In, filter_In in He as [He _].
  exists (h_file db), f, e. split_and!; [done..|apply row_le_refl].
Qed.

Lemma add_copies_app n now v s : exists k, add_copies n now v s = s ++ k /\ (forall x, In x k -> snd x = v) /\ length k = n.
Proof.
  revert s; induction n as [|n IH]; intros s; cbn; [exists []; by rewrite app_nil_r|].
  destruct (IH (s ++ [(next_id s now, v)])) as (k & -> & Hk & Hl). exists ((next_id s now, v) :: k). rewrite <- app_assoc. split_and!; [done| |by cbn; rewrite Hl].
  intros x [<-|Hx]; [done|by apply Hk].
Qed.

Lemma next_id_ascending s now v : ascending s -> ascending (s ++ [(next_id s now, v)]).
Proof.
  intros Ha p q a b Hpq Hp Hq. apply lookup_app_Some in Hq as [Hq|[Hq Hb]].
  - rewrite lookup_app_l in Hp by (apply lookup_lt_Some in Hq; lia). by eapply Ha.
  - apply list_lookup_singleton_Some in Hb as [Hk <-]. rewrite lookup_app_l in Hp by lia. cbn [fst]. unfold next_id.
    destruct (last s) as [[[m k] x]|] eqn:El; [|apply last_None in El; by subst s].
    rewrite last_lookup in El. assert (fst a = (m, k) \/ id_lt (fst a) (m, k)) as Hle.
    { destruct (decide (p = pred (length s))) as [->|Hne]; [left; by simplify_eq|right]. apply (Ha p (pred (length s)) a ((m, k), x)); [lia|done..]. }
    unfold id_lt in *. destruct (m <? Z.to_N (now / 10 ^ 6))%N eqn:E; [apply N.ltb_lt in E|]; destruct Hle as [->|Hle]; cbn in *; lia.
Qed.

Lemma add_copies_ascending n now v s : ascending s -> ascending (add_copies n now v s).
Proof. revert s; induction n as [|n IH]; intros s Hs; cbn; [done|]. by apply IH, next_id_ascending. Qed.

(** An envelope carries a row. *)
Definition origin (w : world) (v : value) : Prop :=
  match v with Text (Envelope env) => exists n f e, files w !! n = Some f /\ In e (f_events f) /\ carries env f e | _ => True end.

Lemma origin_le w w' v : le w w' -> origin w v -> origin w' v.
Proof.
  intros Hle. destruct v as [| |[env|]]; [done..| |done]. intros (n & f & e & Hf & He & Hc).
  destruct (row_in_le _ _ _ _ _ (le_files _ _ Hle) Hf He) as (f' & e' & Hf' & He' & E1 & E2 & Hr).
  exists n, f', e'. split_and!; [done..|]. by eapply carries_le.
Qed.

Lemma XAdd_ok w v : origin w v -> okp w (XAdd maxLen v) (fun w' ok => ok = true -> exists p, entry w' p v).
Proof.
  intros Ho. apply ok_command. intros i u Ha Hle Hi. cbn [fst snd]. apply (origin_le _ _ _ Hle) in Ho.
  pose proof (add_copies_ascending (i_applied i) (i_now i) v (stream u) (inv_ascending u Hi)) as Hasc.
  destruct (add_copies_app (i_applied i) (i_now i) v (stream u)) as (k & Ek & Hk & Hl). rewrite Ek in *.
  set (t := Nat.max _ _). set (u' := with_stream _ _ _).
  assert (le u u') as Hle'.
  { split; cbn; auto using files_le_refl, group_le_refl; [by exists k|]. unfold t. lia. }
  assert (forall p x, entry u' p x -> entry u p x \/ x = v) as Hcase.
  { intros p x [id He]. cbn in He. apply lookup_app_Some in He as [He|[_ He]]; [left; by exists id|right].
    apply list_elem_of_lookup_2, list_elem_of_In in He. by apply Hk in He. }
  split_and!; [|done|].
  - apply (frame_stream u); try done.
    + intros p env He. destruct (Hcase _ _ He) as [He'|E]; [exact (inv_stream u Hi p env He')|]. by subst v.
    + intros x Hx. destruct (inv_ingest u Hi x Hx) as [p Hp]. exists p. by eapply entry_le.
    + cbn. rewrite length_app. unfold t. rewrite length_app. destruct (inv_trim u Hi); lia.
    + intros g Hg. destruct (inv_group u Hi g Hg) as [G1 G2 G3 G4]. split; [done|cbn; rewrite length_app; lia|done|].
      intros p x Hp [id He]. cbn in He. rewrite lookup_app_l in He by lia.
      destruct (G4 p x Hp) as [?|Hs]; [by exists id|by left|right]. by eapply settled_le.
  - intros Hok. specialize (Ha Hok). destruct k as [|[id x] k]; [cbn in Hl; lia|]. exists (length (stream u)), id. cbn.
    rewrite lookup_app_r, Nat.sub_diag by done. cbn. f_equal. by rewrite <- (Hk (id, x)) by (by left).
Qed.

Lemma known_carries w sb gen e worker meta ts :
  known w sb gen e -> origin w (Text (Envelope (envelope cellID worker sb gen e meta ts))).
Proof.
  intros (n & f & e' & Hf & <- & <- & He & R1 & R2 & R3 & _). exists n, f, e'. split_and!; [done..|].
  split_and!; cbn; congruence.
Qed.

Lemma known_published w sb gen e worker meta ts p :
  known w sb gen e -> entry w p (Text (Envelope (envelope cellID worker sb gen e meta ts))) -> published w sb gen (ev_ID e).
Proof.
  intros (n & f & e' & Hf & E1 & E2 & He & R1 & R2 & R3 & _) Hp. exists p, (envelope cellID worker sb gen e meta ts), n, f, e'.
  split_and!; try done. split_and!; cbn; congruence.
Qed.

Lemma sandbox_loop_ok w worker sb gen meta events ids :
  (forall e, In e events -> known w sb gen e) -> (forall id, In id ids -> published w sb gen id) ->
  okp w (sandbox_loop json_valid cellID maxLen worker sb gen meta events ids) (fun w' ids => forall id, In id ids -> published w' sb gen id).
Proof.
  revert w ids; induction events as [|e events IH]; intros w ids Hk Hids; cbn [sandbox_loop]; [done|].
  eapply ok_seq; [apply _|by apply (okp_read _ (fun i _ => i_now i) (fun _ _ => True))|]. intros v now Hle _.
  assert (forall e', In e' events -> known v sb gen e') as Hk' by (intros e' He'; eapply known_le; [done|]; apply Hk; by right).
  assert (forall id, In id ids -> published v sb gen id) as Hids' by (intros id Hid; eapply published_le; [done|]; auto).
  destruct (negb _); [by apply IH|].
  assert (known v sb gen e) as He by (eapply known_le; [done|]; apply Hk; by left).
  eapply ok_seq; [apply _|by apply XAdd_ok, known_carries|]. intros u [] Hle' Hp.
  - destruct (Hp eq_refl) as [p Hp']. apply IH; [intros e' He'; eapply known_le; eauto|]. intros id Hid.
    apply in_app_or in Hid as [Hid|[<-|[]]]; [eapply published_le; eauto|]. eapply known_published; [|done]. by eapply known_le.
  - cbn. intros id Hid. eapply published_le; eauto.
Qed.

Lemma FlushSandbox_ok w worker sb : okp w (FlushSandbox json_valid cellID maxLen worker sb) done_.
Proof.
  eapply ok_seq; [apply _|apply Get_ok|]. intros v [db|] _ Hdb; [|done]. specialize (Hdb db eq_refl).
  eapply ok_seq; [apply _|by apply GetUnsyncedEvents_ok|]. intros u [[|e events]|] Hle Hk; [done| |done].
  eapply ok_seq; [apply _|by apply (okp_read _ (fun i _ => i_meta i) (fun _ _ => True))|]. intros u2 meta Hle2 _.
  eapply ok_seq; [apply _|apply sandbox_loop_ok; [|by intros id []]|].
  - intros e' He'. eapply known_le; [done|]. eapply Hk; eauto.
  - intros u3 [|id ids] Hle3 Hids; [done|]. eapply okt_mono; [apply _|apply (MarkEventsSynced_ok _ _ _ sb)|done].
    + eapply db_ok_le; [|exact Hdb]. by do 2 (etrans; [eassumption|]).
    + intros id' Hid'. exists (generation db). by apply Hids.
Qed.

Lemma flat_loop_ok w limit l flat :
  (forall sb db, In (sb, db) l -> db_ok w sb db) ->
  (forall se, In se flat -> known w (se_SandboxID se) (se_Generation se) (se_Event se)) ->
  okp w (flat_loop limit l flat) (fun w' flat => forall se, In se flat -> known w' (se_SandboxID se) (se_Generation se) (se_Event se)).
Proof.
  revert w flat; induction l as [|[sb db] l IH]; intros w flat Hl Hf; cbn [flat_loop]; [done|].
  eapply ok_seq; [apply _|apply (GetUnsyncedEvents_ok _ _ _ sb), Hl; by left|]. intros v o Hle Ho. apply IH.
  - intros sb' db' Hin. eapply db_ok_le; [done|]. apply Hl. by right.
  - intros se Hin. apply in_app_or in Hin as [Hin|Hin]; [eapply known_le; eauto|].
    apply in_map_iff in Hin as (e & <- & He). cbn. destruct o as [l'|]; [|done]. eapply Ho; eauto.
Qed.

(** What [flush] marks has been published, from some generation of the sandbox's
    database. *)
Definition all_published (w : world) (synced : gmap string (list Z)) : Prop :=
  forall sb ids id, synced !! sb = Some ids -> In id ids -> exists gen, published w sb gen id.

Lemma all_published_le w w' synced : le w w' -> all_published w synced -> all_published w' synced.
Proof. intros Hle H sb ids id Hs Hid. destruct (H sb ids id Hs Hid) as [gen Hp]. exists gen. by eapply published_le. Qed.

Lemma publish_loop_ok w worker events synced :
  (forall se, In se events -> known w (se_SandboxID se) (se_Generation se) (se_Event se)) -> all_published w synced ->
  okp w (publish_loop json_valid cellID maxLen worker events synced) all_published.
Proof.
  revert w synced; induction events as [|se events IH]; intros w synced Hk Hs; cbn [publish_loop]; [done|].
  eapply ok_seq; [apply _|by apply (okp_read _ (fun i _ => i_meta i) (fun _ _ => True))|]. intros v meta Hle _.
  assert (forall v', le w v' -> forall se', In se' events -> known v' (se_SandboxID se') (se_Generation se') (se_Event se')) as Hk'.
  { intros v' Hle' se' Hin. eapply known_le; [done|]. apply Hk. by right. }
  destruct (negb _); [apply IH; [by apply Hk'|by eapply all_published_le]|].
  assert (known v (se_SandboxID se) (se_Generation se) (se_Event se)) as He by (eapply known_le; [done|]; apply Hk; by left).
  eapply ok_seq; [apply _|by apply XAdd_ok, known_carries|]. intros u b Hle' Hp. apply IH; [apply Hk'; by etrans|].
  apply (all_published_le w u) in Hs; [|by etrans]. destruct b; [|done]. destruct (Hp eq_refl) as [p Hp'].
  intros sb ids id. destruct (decide (sb = se_SandboxID se)) as [->|Hne]; [|rewrite lookup_insert_ne by done; apply Hs].
  rewrite lookup_insert_eq. intros [= <-] Hid. apply in_app_or in Hid as [Hid|[<-|[]]].
  - destruct (synced !! se_SandboxID se) eqn:E; [|done]. by eapply Hs.
  - exists (se_Generation se). eapply known_published; [|done]. by eapply known_le.
Qed.

Lemma MarkSynced_ok w worker sb ids :
  (forall id, In id ids -> exists gen, published w sb gen id) -> okp w (MarkSynced worker sb ids) (fun _ _ => True).
Proof.
  intros Hids. eapply ok_seq; [apply _|apply (okp_read _ (fun _ v => dbs v !! (worker, sb)) (fun v o => forall db, o = Some db -> db_ok v sb db))|].
  - intros _ v _ Hi db. by eapply inv_dbs.
  - intros v [db|] Hle Hdb; [|done]. apply (MarkEventsSynced_ok _ _ _ sb); [by apply Hdb|]. intros id Hid.
    destruct (Hids id Hid) as [gen Hp]. exists gen. by eapply published_le.
Qed.

Lemma flush_ok w ord worker :
  (forall l x, In x (ord l) -> In x l) -> okp w (flush json_valid cellID maxLen ord worker) done_.
Proof.
  intros Hord. eapply ok_seq; [apply _| |].
  { unfold GetAllUnsyncedEventsFlat. eapply ok_seq; [apply _| |].
    - apply (okp_read _ (fun _ v => open_dbs ord worker v) (fun v l => forall sb db, In (sb, db) l -> db_ok v sb db)).
      intros _ v _ Hi sb db Hin. apply Hord in Hin. apply list_elem_of_In, list_elem_of_omap in Hin as ([[wk sb'] db'] & Hin & E).
      cbn in E. destruct (String.eqb wk worker); simplify_eq. apply elem_of_map_to_list in Hin. by eapply inv_dbs.
    - intros v l _ Hl. apply flat_loop_ok; [done|by intros se []]. }
  intros v events _ Hk. eapply ok_seq; [apply _|apply publish_loop_ok; [done|intros sb ids id; by rewrite lookup_empty]|].
  intros u synced _ Hs. eapply okt_mono; [apply _|apply (ok_for_each) with (K := fun w => all_published w synced)|done]; [apply _| |done|].
  - intros. by eapply all_published_le.
  - intros [sb ids] u' Hin Hle Hs'. apply list_elem_of_In, elem_of_map_to_list in Hin.
    eapply okt_mono; [apply _|apply MarkSynced_ok; intros id Hid; by eapply Hs'|]. intros u2 [] Hle2 _. by eapply all_published_le.
Qed.

(** Closing connections and forgetting databases and files. *)
Lemma shrink_ok w d k c :
  Inv w -> d ⊆ dbs w -> k ⊆ disk w -> let w' := with_dbs d (with_disk k (with_closed c w)) in Inv w' /\ le w w'.
Proof.
  intros Hi Hd Hk w'. assert (le w w') as Hle by (split; cbn; auto using files_le_refl, group_le_refl; by exists []; rewrite app_nil_r).
  split; [|done]. apply (frame_db w); try done; try apply Hi.
  - intros wk sb db Hdb. eapply db_ok_le; [exact Hle|]. eapply inv_dbs; [done|]. by eapply lookup_weaken.
  - intros wk sb n Hn. eapply (inv_disk w Hi wk). by eapply lookup_weaken.
Qed.

Lemma Remove_ok w worker sb : okp w (Remove json_valid cellID maxLen worker sb) done_.
Proof.
  eapply ok_seq; [apply _|by apply (okp_read _ (fun _ v => dbs v !! (worker, sb)) (fun _ _ => True))|]. intros v o _ _.
  eapply ok_seq; [apply _|apply FlushSandbox_ok|]. intros v2 [] _ _.
  eapply ok_seq with (P := fun _ _ => True); [apply _| |].
  { apply ok_command. intros i u _ _ Hi. destruct (shrink_ok u (delete (worker, sb) (dbs u)) (disk u) (closed u) Hi) as [H1 H2];
      [apply delete_subseteq|done|by destruct u]. }
  intros v3 [] _ _. eapply ok_seq with (P := fun _ _ => True); [apply _| |].
  { destruct o as [db|]; [|done]. apply ok_command. intros i u _ _ Hi.
    destruct (shrink_ok u (dbs u) (disk u) (<[h_conn db := true]> (closed u)) Hi) as [H1 H2]; [done..|by destruct u]. }
  intros v4 [] _ _. apply ok_command. intros i u _ _ Hi. cbn. destruct (i_ok i); [|split_and!; [done|reflexivity|done]].
  destruct (shrink_ok u (dbs u) (delete (worker, sb) (disk u)) (closed u) Hi) as [H1 H2]; [done|apply delete_subseteq|by destruct u].
Qed.

Lemma Close_ok w worker : okp w (Close worker) done_.
Proof.
  apply ok_command. intros i u _ _ Hi. cbn [fst snd].
  match goal with |- Inv (with_dbs ?d (with_closed ?c _)) /\ _ => destruct (shrink_ok u d (disk u) c Hi) as [H1 H2] end;
    [apply map_filter_subseteq|done|by destruct u].
Qed.

(** *** The ingest service *)

Definition texts_ok (w : world) (body : list text) : Prop := forall t, In t body -> exists p, entry w p (Text t).

Lemma ingest_ok v r d body1 body2 :
  Inv v -> r = received v ++ body1 -> d = refused v ++ body2 -> texts_ok v body1 -> texts_ok v body2 ->
  Inv (with_ingest r d v) /\ le v (with_ingest r d v).
Proof.
  intros Hi -> -> H1 H2. set (v' := with_ingest _ _ _). assert (le v v') as Hle.
  { split; cbn; auto using files_le_refl, group_le_refl; [by exists []; rewrite app_nil_r|..]; intros; apply in_or_app; by left. }
  split; [|done]. apply (frame_stream v); try done; try apply Hi.
  - intros t [Ht|Ht]; cbn in Ht; apply in_app_or in Ht as [Ht|Ht];
      [by apply (inv_ingest v Hi); left|by apply H1|by apply (inv_ingest v Hi); right|by apply H2].
  - intros g Hg. destruct (inv_group v Hi g Hg) as [G1 G2 G3 G4]. split; [done..|]. intros p x Hp He.
    destruct (G4 p x Hp He) as [?|Hs]; [by left|right]. by eapply settled_le.
Qed.

(** When a batch is answered finally, all of it has been taken or refused. *)
Definition answer_ok (body : list text) (w : world) (err : option send_error) : Prop :=
  match err with
  | Some (Retryable _) => True
  | _ => forall t, In t body -> In t (received w) \/ In t (refused w)
  end.

Lemma postOnce_ok w body : texts_ok w body -> okp w (postOnce body) (answer_ok body).
Proof.
  intros Hb. apply ok_command. intros i v _ Hle Hi.
  assert (texts_ok v body) as Hb' by (intros t Ht; destruct (Hb t Ht) as [p Hp]; exists p; by eapply entry_le).
  assert (texts_ok v []) as Hnil by (by intros t []).
  pose proof (ingest_ok v (received v ++ body) (refused v) body [] Hi eq_refl ltac:(by rewrite app_nil_r) Hb' Hnil) as [T1 T2].
  pose proof (ingest_ok v (received v) (refused v ++ body) [] body Hi ltac:(by rewrite app_nil_r) eq_refl Hnil Hb') as [D1 D2].
  destruct (i_reply i) as [code ra|taken].
  - destruct (_ && _); cbn; [split_and!; [done..|]; intros t Ht; left; apply in_or_app; by right|].
    destruct (_ =? _); cbn; [split_and!; [done|reflexivity|done]|].
    destruct (_ && _); cbn; [split_and!; [done..|]; intros t Ht; right; apply in_or_app; by right|]. split_and!; [done|reflexivity|done].
  - destruct taken; cbn; [by split_and!|]. split_and!; [done|reflexivity|done].
Qed.

Lemma send_loop_ok w body n : texts_ok w body -> okp w (send_loop body n) (answer_ok body).
Proof.
  revert w; induction n as [|n IH]; intros w Hb; cbn [send_loop];
    (eapply ok_seq; [apply _|by apply postOnce_ok|]); intros v [[|ra]|] Hle Ha; try done.
  eapply ok_seq; [apply _|by apply (okp_read _ (fun i _ => i_ok i) (fun _ _ => True))|]. intros u [] Hle' _; [|done].
  apply IH. intros t Ht. destruct (Hb t Ht) as [p Hp]. exists p. eapply entry_le; [|done]. by etrans.
Qed.

(** *** The consumer group *)

(** Entries that may be acknowledged. *)
Definition ackable (w : world) (ids : list nat) : Prop := forall p, In p ids -> exists v, entry w p v /\ settled w p v.

Lemma entry_fun w p v v' : entry w p v -> entry w p v' -> v = v'.
Proof. intros [id H] [id' H']. congruence. Qed.

Lemma ackable_le w w' ids : le w w' -> ackable w ids -> ackable w' ids.
Proof. intros Hle H p Hp. destruct (H p Hp) as (v & He & Hs). exists v. split; [by eapply entry_le|by eapply settled_le]. Qed.

Lemma lookup_delete_list (m : gmap nat (string * Z)) ids p : foldr delete m ids !! p = (if existsb (Nat.eqb p) ids then None else m !! p).
Proof.
  induction ids as [|q ids IH]; cbn; [done|]. destruct (Nat.eqb_spec p q) as [->|Hne]; cbn; [by rewrite lookup_delete_eq|].
  by rewrite lookup_delete_ne.
Qed.

(** A change of the group that keeps its window. *)
Lemma group_frame v f :
  Inv v ->
  (forall g, grp v = Some g -> g_first (f g) = g_first g /\ g_next (f g) = g_next g /\
    (forall p x, g_pel (f g) !! p = Some x -> is_Some (g_pel g !! p)) /\
    (forall p x, g_pel g !! p = Some x -> is_Some (g_pel (f g) !! p) \/ exists u, entry v p u /\ settled v p u)) ->
  Inv (update_group f v) /\ le v (update_group f v).
Proof.
  intros Hi Hf. assert (le v (update_group f v)) as Hle.
  { split; cbn; auto using files_le_refl; [by exists []; rewrite app_nil_r|]. intros g Hg. rewrite Hg. cbn. exists (f g).
    destruct (Hf g Hg) as (E1 & E2 & _). split_and!; [done|done|lia]. }
  split; [|done]. apply (frame_stream v); try done; try apply Hi. intros g' Hg'. cbn in Hg'. destruct (grp v) as [g|] eqn:Hg; [|done].
  injection Hg' as <-. destruct (Hf g eq_refl) as (E1 & E2 & E3 & E4). destruct (inv_group v Hi g Hg) as [G1 G2 G3 G4].
  split; rewrite ?E1, ?E2; [done..| |].
  - intros p x Hp. destruct (E3 p x Hp) as [y Hy]. by eapply G3.
  - intros p u Hp He. destruct (G4 p u Hp He) as [[x Hx]|Hs]; [|right; by eapply settled_le].
    destruct (E4 p x Hx) as [?|(u' & He' & Hs)]; [by left|right]. rewrite (entry_fun _ _ _ _ He He'). by eapply settled_le.
Qed.

Lemma ack_ok w ids : ackable w ids -> okp w (ack ids) (fun _ _ => True).
Proof.
  intros Ha. apply ok_command. intros i v _ Hle Hi. cbn [fst snd]. apply (ackable_le _ _ _ Hle) in Ha.
  destruct (0 <? i_applied i)%nat; [|split_and!; [done|reflexivity|done]].
  edestruct group_frame as [H1 H2]; [exact Hi| |split_and!; [exact H1|exact H2|done]]. intros g Hg. cbn. split_and!; [done..| |].
  - intros p x. rewrite lookup_delete_list. destruct (existsb _ _); [done|by eexists].
  - intros p x Hp. rewrite lookup_delete_list. destruct (existsb (Nat.eqb p) ids) eqn:E; [|by left; eexists].
    right. apply existsb_exists in E as (q & Hq & Eq). apply Nat.eqb_eq in Eq. subst q. by apply Ha.
Qed.

Definition msgs_ok (w : world) (msgs : list (nat * value)) : Prop := forall p v, In (p, v) msgs -> entry w p v.
Definition envs_ok (w : world) (envs : list (nat * text)) : Prop := forall p t, In (p, t) envs -> entry w p (Text t).

Lemma msgs_ok_le w w' m : le w w' -> msgs_ok w m -> msgs_ok w' m.
Proof. intros Hle H p v Hin. eapply entry_le; eauto. Qed.

Lemma envs_ok_le w w' m : le w w' -> envs_ok w m -> envs_ok w' m.
Proof. intros Hle H p v Hin. eapply entry_le; eauto. Qed.

Lemma collect_ok w msgs envs : msgs_ok w msgs -> envs_ok w envs -> okp w (collect json_valid msgs envs) envs_ok.
Proof.
  revert w envs; induction msgs as [|[p v] msgs IH]; intros w envs Hm He; cbn [collect]; [done|].
  assert (entry w p v) as Hp by (apply Hm; by left). assert (msgs_ok w msgs) as Hm' by (intros q x Hq; apply Hm; by right).
  assert (settled w p v -> okp w (do _ <- ack [p]; collect json_valid msgs envs) envs_ok) as Hdrop.
  { intros Hs. eapply ok_seq; [apply _|apply ack_ok|].
    - intros q [<-|[]]. by exists v.
    - intros u [] Hle _. apply IH; [by eapply msgs_ok_le|by eapply envs_ok_le]. }
  destruct v as [| |t]; [apply Hdrop; by right..|]. destruct (valid json_valid t) eqn:Ev.
  - apply IH; [done|]. intros q x Hq. apply in_app_or in Hq as [Hq|[[= <- <-]|[]]]; [by apply He|done].
  - apply Hdrop. right. by left.
Qed.

Lemma processBatch_ok w msgs : msgs_ok w msgs -> okp w (processBatch json_valid msgs) done_.
Proof.
  intros Hm. eapply ok_seq; [apply _|apply collect_ok; [done|by intros p t []]|]. intros v envs Hle He. destruct envs as [|e envs]; [done|].
  set (l := e :: envs) in *. eapply ok_seq; [apply _|apply send_loop_ok|].
  - intros t Ht. apply in_map_iff in Ht as ([p t'] & <- & Hin). exists p. by apply He.
  - intros u err Hle' Ha. assert (answer_ok (map snd l) u None -> okp u (ack (map fst l)) done_) as Hack.
    { intros Hall. eapply okt_mono; [apply _|apply ack_ok|done]. intros p Hp. apply in_map_iff in Hp as ([q t] & <- & Hin).
      exists (Text t). split; [eapply entry_le; [done|]; by apply He|]. right. right. apply Hall. apply in_map_iff. by exists (q, t). }
    destruct err as [[|]|]; [by apply Hack|done|by apply Hack].
Qed.

Lemma CreateGroup_ok w : okp w CreateGroup done_.
Proof.
  apply ok_command. intros i v _ _ Hi. cbn [fst snd]. destruct (grp v) as [g|] eqn:Eg; [split_and!; [done|reflexivity|done]|].
  destruct (0 <? i_applied i)%nat; [|split_and!; [done|reflexivity|done]]. set (v' := with_grp _ _).
  assert (le v v') as Hle.
  { split; cbn; auto using files_le_refl; [by exists []; rewrite app_nil_r|]. rewrite Eg. by intros x. }
  split_and!; [|done..]. apply (frame_stream v); try done; try apply Hi. intros g [= <-]. split; cbn; [done..|intros p x; by rewrite lookup_empty|lia].
Qed.

Lemma from_position_lookup q l j : from_position q l !! j = option_map (fun e => ((q + j)%nat, snd e)) (l !! (q + j)%nat).
Proof. unfold from_position. rewrite list_lookup_imap, lookup_drop. by destruct (l !! (q + j)%nat). Qed.

Lemma from_position_length q l : length (from_position q l) = (length l - q)%nat.
Proof. unfold from_position. by rewrite length_imap, length_drop. Qed.

Lemma lookup_insert_list {X} (m : gmap nat (string * Z)) (pos : X -> nat) y (l : list X) p :
  foldr (fun x => <[pos x := y]>) m l !! p = (if existsb (fun x => p =? pos x)%nat l then Some y else m !! p).
Proof.
  induction l as [|x l IH]; cbn; [done|]. destruct (Nat.eqb_spec p (pos x)) as [->|Hne]; cbn; [by rewrite lookup_insert_eq|].
  by rewrite lookup_insert_ne.
Qed.

(** The messages of a read: consecutive positions from [q]. *)
Lemma read_msgs q l k p v : In (p, v) (take k (from_position q l)) -> (q <= p < q + length (take k (from_position q l)))%nat /\ exists id, l !! p = Some (id, v).
Proof.
  intros Hin. apply list_elem_of_In, list_elem_of_lookup in Hin as [j Hj]. pose proof (lookup_lt_Some _ _ _ Hj) as Hlt.
  apply lookup_take_Some in Hj as [Hj _]. rewrite from_position_lookup in Hj. destruct (l !! (q + j)%nat) as [[id x]|] eqn:E; [|done].
  injection Hj as <- <-. split; [lia|]. by exists id.
Qed.

Lemma read_covers q l k p :
  (q <= p < q + length (take k (from_position q l)))%nat -> existsb (fun m => p =? fst m)%nat (take k (from_position q l)) = true.
Proof.
  intros Hp. destruct (lookup_lt_is_Some_2 (take k (from_position q l)) (p - q)) as [[p' v] Hj]; [lia|]. apply existsb_exists.
  exists (p', v). split; [apply list_elem_of_In; by eapply list_elem_of_lookup_2|]. cbn. apply Nat.eqb_eq.
  apply lookup_take_Some in Hj as [Hj _]. rewrite from_position_lookup in Hj.
  destruct (l !! (q + (p - q))%nat); [|done]. cbn in Hj. injection Hj as <- _. lia.
Qed.

Lemma XReadGroup_ok w consumer : okp w (XReadGroup consumer) (fun v o => forall msgs, o = Some msgs -> msgs_ok v msgs).
Proof.
  apply ok_command. intros i v _ _ Hi. destruct (grp v) as [g|] eqn:Eg; [|cbn; split_and!; [done|reflexivity|done]].
  destruct (0 <? i_applied i)%nat; [|cbn; split_and!; [done|reflexivity|done]]. cbn zeta.
  set (q := Nat.max (g_next g) (trimmed v)). set (msgs := take readBatch (from_position q (stream v))).
  assert (msgs_ok v msgs) as Hm by (intros p x Hin; by apply read_msgs in Hin as [_ [id He]]; exists id).
  assert (length msgs <= length (stream v) - q)%nat as Hlen.
  { unfold msgs. rewrite length_take, from_position_length. lia. }
  assert (forall p, (q <= p < q + length msgs)%nat -> existsb (fun m => p =? fst m)%nat msgs = true) as Hcov by apply read_covers.
  assert (forall p, existsb (fun m => p =? fst m)%nat msgs = true -> (p < q + length msgs)%nat) as Hin.
  { intros p E. apply existsb_exists in E as ([p' x] & Hx & E). apply Nat.eqb_eq in E. cbn in E. subst p'. apply read_msgs in Hx. unfold msgs. lia. }
  destruct msgs as [|m msgs'] eqn:Em; cbn [fst snd].
  { split_and!; [done|reflexivity|]. intros ?. destruct (i_ok i); [|done]. by intros [= <-]. }
  rewrite <- Em in *. destruct (inv_group v Hi g Eg) as [G1 G2 G3 G4]. set (v' := with_grp _ _).
  assert (length msgs = S (length msgs')) as Hpos by by rewrite Em.
  assert (g_next g <= q /\ (trimmed v <= q) /\ (q = g_next g \/ q = trimmed v))%nat as (Hq1 & Hq2 & Hq3) by lia.
  assert (le v v') as Hle.
  { split; cbn; auto using files_le_refl; [by exists []; rewrite app_nil_r|]. intros x Hx. rewrite Eg in Hx. injection Hx as <-.
    eexists. split_and!; [done|done|]. cbn. lia. }
  split_and!; [|done|].
  - apply (frame_stream v); try done; try apply Hi. intros g' Hg'. injection Hg' as <-. split; cbn [g_first g_next g_pel].
    + lia.
    + change (stream v') with (stream v). lia.
    + intros p x. rewrite lookup_insert_list. destruct (existsb _ msgs) eqn:E; [intros _; by apply Hin|]. intros Hp. apply G3 in Hp. lia.
    + intros p x Hp He. rewrite lookup_insert_list. destruct (existsb _ msgs) eqn:E; [left; by eexists|].
      destruct (decide (p < g_next g)%nat) as [Hlt|Hge].
      * destruct (G4 p x) as [?|Hs]; [lia|done|by left|right]. by eapply settled_le.
      * right. left. cbn. destruct (decide (p < q)%nat) as [Hq|Hq]; [lia|]. rewrite Hcov in E by lia. done.
  - intros l. destruct (i_ok i); [|done]. by intros [= <-].
Qed.

Lemma read_once_ok w consumer : okp w (read_once json_valid consumer) done_.
Proof.
  eapply ok_seq; [apply _|apply XReadGroup_ok|]. intros v [msgs|] _ Hm; [|done]. apply processBatch_ok. by apply Hm.
Qed.

(** *** Reclaiming *)

Definition positions_ok (w : world) (ids : list nat) : Prop := forall p, In p ids -> exists v, entry w p v.

Lemma positions_ok_le w w' ids : le w w' -> positions_ok w ids -> positions_ok w' ids.
Proof. intros Hle H p Hp. destruct (H p Hp) as [v Hv]. exists v. by eapply entry_le. Qed.

Lemma XPendingExt_ok w start : okp w (XPendingExt start) (fun v o => forall l, o = Some l -> positions_ok v (map fst l)).
Proof.
  apply okp_read. intros i v _ _ l. destruct (i_ok i); [|done]. intros [= <-] p Hp.
  apply in_map_iff in Hp as ([q b] & <- & Hin). apply list_elem_of_In, list_elem_of_omap in Hin as (p & _ & E).
  destruct (stream v !! p) as [[id x]|] eqn:Ex; [|done]. cbn in E. injection E as <- <-. by exists x, id.
Qed.

Lemma XClaimJustID_ok w consumer ids :
  positions_ok w ids -> okp w (XClaimJustID consumer ids) (fun v o => forall l, o = Some l -> positions_ok v l).
Proof.
  intros Hp. apply ok_command. intros i v _ Hle Hi. destruct (grp v) as [g|] eqn:Eg; [|cbn; split_and!; [done|reflexivity|done]].
  destruct (0 <? i_applied i)%nat; [|cbn; split_and!; [done|reflexivity|done]]. cbn [fst snd].
  set (claimed := List.filter _ _). apply (positions_ok_le _ _ _ Hle) in Hp.
  edestruct group_frame as [H1 H2]; [exact Hi| |split_and!; [exact H1|exact H2|]].
  - intros g' Hg'. rewrite Eg in Hg'. injection Hg' as <-. cbn. split_and!; [done..| |].
    + intros p x. rewrite (lookup_insert_list _ (fun p => p)). destruct (existsb _ _) eqn:E; [|by eexists]. intros _.
      apply existsb_exists in E as (p' & Hin & E). apply Nat.eqb_eq in E. subst p'. apply filter_In in Hin as [_ Hs].
      unfold stale in Hs. by destruct (g_pel g !! p).
    + intros p x Hx. rewrite (lookup_insert_list _ (fun p => p)). destruct (existsb _ _); left; [by eexists|by exists x].
  - intros l. destruct (i_ok i); [|done]. intros [= <-] p Hin. apply filter_In in Hin as [Hin _].
    destruct (Hp p Hin) as [x Hx]. exists x. by eapply entry_le.
Qed.

Lemma reclaim_one_ok w id : positions_ok w [id] -> okp w (reclaim_one json_valid id) done_.
Proof.
  intros Hp. eapply ok_seq with (P := fun v o => match o with
    | None => True | Some None => ackable v [id] | Some (Some x) => entry v id x end); [apply _| |].
  - apply okp_read. intros i v Hle _. destruct (Hp id) as [x Hx]; [by left|]. pose proof (entry_le _ _ _ _ Hle Hx) as [sid He].
    destruct (i_ok i); [|done]. destruct (id <? trimmed v)%nat eqn:Et.
    + intros p [<-|[]]. exists x. split; [by exists sid|]. left. by apply Nat.ltb_lt.
    + rewrite He. cbn. by exists sid.
  - intros v [[x|]|] _ Ho; [apply processBatch_ok; intros p y [[= <- <-]|[]]; done| |done].
    eapply okt_mono; [apply _|by apply ack_ok|done].
Qed.

Lemma reclaim_loop_ok w fuel consumer start : okp w (reclaim_loop json_valid fuel consumer start) done_.
Proof.
  revert w start; induction fuel as [|fuel IH]; intros w start; cbn [reclaim_loop]; [done|].
  eapply ok_seq; [apply _|apply XPendingExt_ok|]. intros v [[|e l]|] _ Hp; [done| |done]. specialize (Hp _ eq_refl).
  eapply ok_seq; [apply _|by apply XClaimJustID_ok|]. intros u [claimed|] _ Hc; [|done]. specialize (Hc _ eq_refl).
  eapply ok_seq with (P := fun _ _ => True); [apply _| |].
  - apply ok_for_each with (K := fun _ => True); [apply _|done..|]. intros p u' Hin Hle _. eapply okt_mono; [apply _|apply reclaim_one_ok|done].
    intros q [<-|[]]. apply (positions_ok_le _ _ _ Hle Hc). done.
  - intros u2 [] _ _. destruct (_ <? _)%nat; [done|]. case_bool_decide; [done|]. apply IH.
Qed.

Lemma foreign_ok w v : (forall env, v <> Text (Envelope env)) -> okp w (foreign maxLen v) done_.
Proof. intros Hv. eapply ok_seq; [apply _|apply XAdd_ok|done]. destruct v as [| |[env|]]; [done..| |done]. by destruct (Hv env). Qed.

Lemma Inv_init : Inv init.
Proof.
  split; cbn [dbs disk files stream received refused trimmed grp init]; try done.
  - intros p env [id H]. done.
  - by intros t [[]|[]].
  - by right.
Qed.

(** ** Identifiers *)

Definition no_colon (c : ascii) : Prop := c <> ":"%char.

Lemma digit_no_colon c : is_digit c = true -> no_colon c /\ c <> "-"%char.
Proof. intros H. split; intros ->; by vm_compute in H. Qed.

Lemma itoaZ_no_colon n : Forall no_colon (itoaZ n).
Proof. eapply Forall_impl; [apply itoaZ_chars|]. intros c [Hc| ->]; [by apply digit_no_colon|done]. Qed.

Lemma envelope_id_inj s g i s' g' i' : envelope_id s g i = envelope_id s' g' i' -> s = s' /\ g = g' /\ i = i'.
Proof.
  unfold envelope_id. intros E. apply str_inj in E. apply (f_equal (@rev ascii)) in E.
  rewrite !rev_app_distr in E. cbn [rev] in E. rewrite !rev_app_distr in E. cbn [rev] in E. rewrite <- !app_assoc in E. cbn [app] in E.
  assert (forall n, Forall no_colon (rev (itoaZ n))) as Hr by (intros n; apply Forall_rev, itoaZ_no_colon).
  apply (app_sep_inj no_colon) in E as [E1 E2]; [|by intros []; done|apply Hr..].
  apply (app_sep_inj no_colon) in E2 as [E2 E3]; [|by intros []; done|apply Hr..].
  apply (f_equal (@rev ascii)) in E1, E2, E3. rewrite !rev_involutive in E1, E2, E3.
  apply itoaZ_inj in E1, E2. split_and!; [|done..]. by rewrite <- (str_raw s), E3, str_raw.
Qed.

(** ** The pipeline *)

(** The threads of the system, on any machines: events are written, publishers
    flush, sandboxes are removed, workers stop, forwarders start, read and reclaim,
    and other programs add entries that are no envelopes. *)
Inductive task : program unit -> Prop :=
| t_log wk sb type payload : task (log_event wk sb type payload)
| t_flush ord wk : (forall l x, In x (ord l) -> In x l) -> task (flush json_valid cellID maxLen ord wk)
| t_remove wk sb : task (Remove json_valid cellID maxLen wk sb)
| t_close wk : task (Close wk)
| t_group : task CreateGroup
| t_read c : task (read_once json_valid c)
| t_reclaim n c : task (reclaimOnce json_valid n c)
| t_foreign v : (forall env, v <> Text (Envelope env)) -> task (foreign maxLen v).

Definition allowed (e : Threads.event world input) : Prop :=
  match e with Start p => task p | Run _ i => answered i end.

Lemma task_ok p w : task p -> okp w p done_.
Proof.
  destruct 1; [apply log_event_ok|by apply flush_ok|apply Remove_ok|apply Close_ok|apply CreateGroup_ok|apply read_once_ok|
    apply reclaim_loop_ok|by apply foreign_ok].
Qed.

(** Every state the system reaches. *)
Definition reached (es : list (Threads.event world input)) : world := fst (exec (init, []) es).

Lemma reached_inv es : Forall allowed es -> Inv (reached es).
Proof.
  intros He. assert (pool_ok Inv le answered (exec (init, []) es)) as [Hi _]; [|done]. apply exec_ok; [apply _| |].
  - split; [apply Inv_init|constructor].
  - eapply Forall_impl; [exact He|]. intros [p|t i]; [|done]. cbn. intros Ht w _. by apply task_ok.
Qed.

(** Where a published entry is: not read yet by the group (or written before the
    group was made), pending, trimmed by Redis, taken or refused by the ingest
    service. *)
Inductive whereabouts (w : world) (p : nat) (env : SandboxEventEnvelope) : Prop :=
| Unread : (forall g, grp w = Some g -> (g_next g <= p)%nat) -> whereabouts w p env
| BeforeGroup g : grp w = Some g -> (p < g_first g)%nat -> whereabouts w p env
| Pending g x : grp w = Some g -> g_pel g !! p = Some x -> whereabouts w p env
| Trimmed : (p + maxLen < length (stream w))%nat -> whereabouts w p env
| Taken : In (Envelope env) (received w) -> whereabouts w p env
| Refused : In (Envelope env) (refused w) -> whereabouts w p env.

Lemma entry_whereabouts w p env : Inv w -> entry w p (Text (Envelope env)) -> whereabouts w p env.
Proof.
  intros Hi He. destruct (grp w) as [g|] eqn:Eg; [|apply Unread; intros g; by rewrite Eg].
  destruct (inv_group w Hi g Eg) as [G1 G2 G3 G4].
  destruct (decide (g_next g <= p)%nat) as [Hn|Hn]; [apply Unread; intros g'; rewrite Eg; by intros [= <-]|].
  destruct (decide (p < g_first g)%nat) as [Hf|Hf]; [by eapply BeforeGroup|].
  destruct (G4 p (Text (Envelope env))) as [[x Hx]|[Ht|[Hv|[Hr|Hr]]]]; [lia|done|by eapply Pending| |done| |].
  - apply Trimmed. destruct (inv_trim w Hi); lia.
  - by apply Taken.
  - by apply Refused.
Qed.

(** C4. An event is marked as synced only once it is on its way: whatever machines
    publish, remove, crash, read and reclaim concurrently, and whatever commands fail or
    go unanswered, an event that is written to the only database that a sandbox has had is
    either still marked unsynced there (and lost with the file if that is removed), or its
    envelope is in the cell's stream and there it is unread, pending, taken by the ingest
    service, refused for good, or one of the entries older than the stream's length bound. *)
Theorem events_accounted es n f e :
  Forall allowed es ->
  files (reached es) !! n = Some f -> In e (f_events f) ->
  (forall n' f', files (reached es) !! n' = Some f' -> f_sandbox f' = f_sandbox f -> n' = n) ->
  ev_synced e = false \/
  exists p env, entry (reached es) p (Text (Envelope env)) /\ carries env f e /\ whereabouts (reached es) p env.
Proof.
  intros Hes Hf He Hone. pose proof (reached_inv es Hes) as Hi. destruct (ev_synced e) eqn:Es; [right|by left].
  destruct (inv_synced _ Hi n f e Hf He Es) as (n' & f' & Hf' & E & Hp). pose proof (Hone n' f' Hf' E) as ->. simplify_eq.
  destruct Hp as (p & env & n' & f' & e' & Hent & Hf2 & He' & Hc & E1 & E2 & E3). pose proof (Hone n' f' Hf2 E1) as ->. simplify_eq.
  exists p, env. split_and!; [done| |by apply entry_whereabouts].
  apply list_elem_of_In, list_elem_of_lookup in He as [j Hj]. apply list_elem_of_In, list_elem_of_lookup in He' as [j' Hj'].
  pose proof (inv_ids _ Hi _ _ _ _ Hf Hj). pose proof (inv_ids _ Hi _ _ _ _ Hf Hj'). assert (j' = j) as -> by lia. by simplify_eq.
Qed.

(** C5. Identifiers name rows: when the databases of a sandbox have distinct generations,
    every envelope of a sandbox event that the ingest service took, whatever was published
    or posted again, carries a row that was logged; two of them have the same identifier
    exactly when they carry the same row; and those have the same sandbox, type and
    payload. So a receiver that ignores an identifier it has seen sees every row once. *)
Theorem identifiers_name_rows es :
  Forall allowed es -> let w := reached es in
  (forall n n' f f', files w !! n = Some f -> files w !! n' = Some f' ->
     f_sandbox f = f_sandbox f' -> f_generation f = f_generation f' -> n = n') ->
  (forall env, In (Envelope env) (received w) -> exists n f e, files w !! n = Some f /\ In e (f_events f) /\ carries env f e) /\
  (forall n n' f f' e e' env env', files w !! n = Some f -> files w !! n' = Some f' -> In e (f_events f) -> In e' (f_events f') ->
     carries env f e -> carries env' f' e' -> (ID env = ID env' <-> n = n' /\ e = e')) /\
  (forall env env', In (Envelope env) (received w) -> In (Envelope env') (received w) -> ID env = ID env' ->
     SandboxID env = SandboxID env' /\ Type_ env = Type_ env' /\ Payload env = Payload env').
Proof.
  intros Hes w Hgen. pose proof (reached_inv es Hes) as Hi.
  assert (forall env, In (Envelope env) (received w) -> exists n f e, files w !! n = Some f /\ In e (f_events f) /\ carries env f e) as Hrow.
  { intros env Hin. destruct (inv_ingest _ Hi (Envelope env)) as [p Hp]; [by left|]. by apply (inv_stream _ Hi p env). }
  assert (forall n n' f f' e e' env env', files w !! n = Some f -> files w !! n' = Some f' -> In e (f_events f) -> In e' (f_events f') ->
     carries env f e -> carries env' f' e' -> ID env = ID env' -> n = n' /\ e = e') as Hsame.
  { intros n n' f f' e e' env env' Hf Hf' He He' (C1 & _) (D1 & _) E. rewrite C1, D1 in E.
    apply envelope_id_inj in E as (E1 & E2 & E3). pose proof (Hgen n n' f f' Hf Hf' E1 E2) as ->. simplify_eq. split; [done|].
    apply list_elem_of_In, list_elem_of_lookup in He as [j Hj]. apply list_elem_of_In, list_elem_of_lookup in He' as [j' Hj'].
    pose proof (inv_ids _ Hi _ _ _ _ Hf Hj). pose proof (inv_ids _ Hi _ _ _ _ Hf Hj'). assert (j' = j) as -> by lia. by simplify_eq. }
  split_and!; [done| |].
  - intros n n' f f' e e' env env' Hf Hf' He He' Hc Hc'. split; [by eapply Hsame|].
    intros [<- <-]. simplify_eq. destruct Hc as (-> & _), Hc' as (-> & _). done.
  - intros env env' H H' E. destruct (Hrow env H) as (n & f & e & Hf & He & Hc), (Hrow env' H') as (n' & f' & e' & Hf' & He' & Hc').
    destruct (Hsame _ _ _ _ _ _ _ _ Hf Hf' He He' Hc Hc' E) as [<- <-]. simplify_eq.
    destruct Hc as (_ & -> & -> & ->), Hc' as (_ & -> & -> & ->). done.
Qed.

End Invariant.

(** ** Concrete runs *)

(** An input whose command succeeds at [now] seconds. *)
Definition good (now : Z) : input :=
  {| i_ok := true; i_now := now * 10 ^ 9; i_applied := 1; i_trim := 0; i_meta := Some ("org"%string, "pro"%string); i_reply := Status 200 0 |}.

Definition any_json (_ : string) : bool := true.
Abbreviation flush1 := (flush any_json "cell" 1000 (fun l => l) "w1").
Abbreviation log1 := (log_event "w1" "sb").

Definition one_event : list (Threads.event world input) :=
  [Start CreateGroup; Run 0 (good 1); Start (log1 "created" "{}"); Run 1 (good 1); Run 1 (good 1)] ++
  [Start flush1] ++ repeat (Run 2 (good 2)) 6 ++ [Start (read_once any_json "cp"); Run 3 (good 3); Run 3 (good 3); Run 3 (good 3)].

Ltac allowed_tac :=
  repeat (apply Forall_cons; split; [first [by intros _; cbn; lia | cbn; constructor; done | by constructor]|]); apply List.Forall_nil.

Lemma one_event_allowed : Forall (allowed any_json "cell" 1000) one_event.
Proof.
  unfold one_event. cbn [app repeat]. allowed_tac.
Qed.

Lemma events_accounted_witness :
  let w := reached one_event in
  match files w !! 0%nat with
  | Some f => exists e, In e (f_events f) /\
      (ev_synced e = false \/ exists p env, entry w p (Text (Envelope env)) /\ carries env f e /\ whereabouts 1000 w p env)
  | None => False
  end.
Proof.
  intros w. destruct (files w !! 0%nat) as [f|] eqn:E; [|by vm_compute in E].
  destruct (f_events f) as [|e l] eqn:Ee; [subst w; vm_compute in E; injection E as <-; done|].
  exists e. split; [by left|].
  apply (events_accounted any_json "cell" 1000 one_event 0 f e one_event_allowed E); [rewrite Ee; by left|].
  intros [|n'] f' Hf' _; [done|]. by vm_compute in Hf'.
Defined.

Lemma identifiers_name_rows_witness :
  let w := reached one_event in
  match files w !! 0%nat, received w with
  | Some f, Envelope env :: _ => exists e, In e (f_events f) /\ carries env f e
  | _, _ => False
  end.
Proof.
  intros w. destruct (files w !! 0%nat) as [f|] eqn:E; [|by vm_compute in E].
  destruct (received w) as [|[env|s] l] eqn:Er; [by vm_compute in Er| |by vm_compute in Er].
  destruct (identifiers_name_rows any_json "cell" 1000 one_event one_event_allowed) as [H1 _].
  - intros [|n] [|n'] f1 f2 H1 H2 _ _.
    + reflexivity.
    + vm_compute in H2. discriminate H2.
    + vm_compute in H1. discriminate H1.
    + vm_compute in H1. discriminate H1.
  - fold w in H1. rewrite Er in H1. destruct (H1 env) as (n & f' & e & Hf & He & Hc); [by left|].
    exists e. destruct n as [|n]; [|by vm_compute in Hf]. rewrite E in Hf. injection Hf as <-. by split.
Defined.

(** A removal whose XADD fails deletes the file with the event that was not published. *)
Definition failing (now : Z) : input :=
  {| i_ok := false; i_now := now * 10 ^ 9; i_applied := 0; i_trim := 0; i_meta := None; i_reply := NetworkError false |}.

Lemma removal_loses_unpublished :
  let w := reached ([Start (log1 "created" "{}"); Run 0 (good 1); Run 0 (good 1)] ++
    [Start (Remove any_json "cell" 1000 "w1" "sb")] ++ repeat (Run 1 (good 2)) 5 ++ [Run 1 (failing 2)] ++ repeat (Run 1 (good 3)) 4) in
  disk w !! ("w1", "sb")%string = None /\ stream w = [] /\ map (fun f => map ev_synced (f_events f)) (files w) = [[false]].
Proof. vm_compute. split_and!; reflexivity. Qed.

(** A sandbox is removed and woken again on the same worker while a flush is
    between its XADD and its update of the database. *)
Definition rewake : list (Threads.event world input) :=
  [Start (log1 "created" "{}"); Run 0 (good 1); Run 0 (good 1)] ++
  [Start flush1] ++ repeat (Run 1 (good 2)) 4 ++
  [Start (Remove any_json "cell" 1000 "w1" "sb")] ++ repeat (Run 2 (good 3)) 10 ++
  [Start (log1 "woke" "{}"); Run 3 (good 4); Run 3 (good 4)] ++
  repeat (Run 1 (good 5)) 2.

Lemma rewake_allowed : Forall (allowed any_json "cell" 1000) rewake.
Proof. unfold rewake. cbn [app repeat]. allowed_tac. Qed.

(** An event can be lost when a sandbox is removed and woken on the same worker
    during a flush: [MarkSynced] finds the database by the sandbox's name, so it
    marks rows of the new database with the row numbers it published from the old
    one. The new row is marked as synced and no entry of the stream carries it. *)
Theorem rewake_loses_event :
  exists es n f e, Forall (allowed any_json "cell" 1000) es /\ files (reached es) !! n = Some f /\ In e (f_events f) /\
    ev_Type e = "woke"%string /\ ev_synced e = true /\ forall p env, entry (reached es) p (Text (Envelope env)) -> ~ carries env f e.
Proof.
  exists rewake, 1%nat. eexists. eexists. split; [exact rewake_allowed|].
  split; [vm_compute; reflexivity|]. split; [left; reflexivity|]. split; [reflexivity|]. split; [reflexivity|].
  intros p env [id He] (Hid & _). vm_compute in He. vm_compute in Hid.
  destruct p as [|[|p]]; [injection He as _ <-|injection He as _ <-|discriminate He]; discriminate Hid.
Qed.

End EventPipelineFacts.
