(* ===== verification/ReclaimFacts.v ===== *)
(** * Reclaiming settles the pending entries

    [reclaimOnce] of src/internal/controlplane/event_forwarder.go pages through the
    pending entries by bumping the text of the last identifier. The pages cover
    every pending entry once, so when Redis and the ingest service answer, a pass
    after the idle time leaves nothing pending. *)

From Stdlib Require Import Ascii Sorted.
From S2P Require Import Prelude Threads EventPipeline EventPipelineFacts.
#[local] Open Scope Z_scope.

Module ReclaimFacts.
Export EventPipelineFacts.

(** ** Identifiers as text *)

Definition no_dash (c : ascii) : Prop := c <> "-"%char.

Lemma digits_no_dash ds : Forall (fun c => is_digit c = true) ds -> Forall no_dash ds.
Proof. intros H. eapply Forall_impl; [exact H|]. intros c Hc. by apply digit_no_colon. Qed.

Lemma last_dash_none i b f : Forall no_dash b -> last_dash i b f = f.
Proof.
  intros Hb. revert i f; induction Hb as [|c b Hc Hb IH]; intros i f; cbn; [done|].
  destruct (Ascii.eqb_spec c "-"%char); [done|]. apply IH.
Qed.

Lemma last_dash_app i a b f : Forall no_dash b -> last_dash i (a ++ "-"%char :: b) f = Some (i + length a)%nat.
Proof.
  intros Hb. revert i f; induction a as [|c a IH]; intros i f; cbn.
  - rewrite last_dash_none by done. f_equal. lia.
  - rewrite IH. f_equal. lia.
Qed.

Lemma int64_small n : 0 <= n < 2 ^ 63 -> wrap64 n = n.
Proof. intros Hn. unfold wrap64. rewrite Z.mod_small by lia. lia. Qed.

Lemma digits_val_grows ds a : (a <= fold_left (fun a c => 10 * a + digit_val c) ds a)%N.
Proof. revert a; induction ds as [|c ds IH]; intros a; cbn; [lia|]. specialize (IH (10 * a + digit_val c)%N). lia. Qed.

(** Reading digits does not overflow before the value does. *)
Lemma digits_wrap ds a :
  Z.of_N (fold_left (fun a c => 10 * a + digit_val c)%N ds a) < 2 ^ 63 ->
  fold_left (fun a c => wrap64 (a * 10 + Z.of_N (digit_val c))) ds (Z.of_N a) =
  Z.of_N (fold_left (fun a c => 10 * a + digit_val c)%N ds a).
Proof.
  revert a; induction ds as [|c ds IH]; intros a Hlt; cbn in *; [done|].
  pose proof (digits_val_grows ds (10 * a + digit_val c)) as Hg. rewrite int64_small by lia.
  replace (Z.of_N a * 10 + Z.of_N (digit_val c)) with (Z.of_N (10 * a + digit_val c)) by lia. by apply IH.
Qed.

Lemma print_id_dash m q : last_dash 0 (print_id (m, q)) None = Some (length (itoa m)).
Proof. unfold print_id. cbn [fst snd]. rewrite last_dash_app; [done|]. apply digits_no_dash, itoa_spec. Qed.

Lemma print_id_parts m q :
  take (length (itoa m)) (print_id (m, q)) = itoa m /\ drop (S (length (itoa m))) (print_id (m, q)) = itoa q.
Proof.
  unfold print_id. cbn [fst snd]. split; [apply take_app_length|].
  rewrite drop_app_ge, Nat.sub_succ_l, Nat.sub_diag by lia. done.
Qed.

Lemma itoa_length n : (0 < length (itoa n))%nat.
Proof. destruct (itoa_spec n) as (H & _). destruct (itoa n); [done|cbn; lia]. Qed.

(** The text after the last dash is counted up by one. *)
Lemma bumpStreamID_print m q : Z.of_N q + 1 < 2 ^ 63 -> bumpStreamID (print_id (m, q)) = print_id (m, q + 1)%N.
Proof.
  intros Hq. unfold bumpStreamID. rewrite print_id_dash. destruct (print_id_parts m q) as [-> ->].
  pose proof (itoa_length m) as H1. pose proof (itoa_length q) as H2. destruct (itoa_spec q) as (_ & Hd & Hv).
  replace (length (itoa m) =? 0)%nat with false by (symmetry; apply Nat.eqb_neq; lia).
  replace (length (itoa m) =? length (print_id (m, q)) - 1)%nat with false
    by (symmetry; apply Nat.eqb_neq; unfold print_id; rewrite length_app; cbn [length fst snd]; lia).
  cbn [orb]. replace (forallb is_digit (itoa q)) with true by (symmetry; apply forallb_forall, List.Forall_forall, Hd).
  change 0 with (Z.of_N 0). rewrite digits_wrap; change (fold_left _ (itoa q) 0%N) with (digits_val (itoa q)); rewrite Hv; [|lia].
  rewrite int64_small by lia. unfold itoaZ. replace (Z.of_N q + 1 <? 0) with false by (symmetry; apply Z.ltb_ge; lia).
  unfold print_id. cbn [fst snd]. do 3 f_equal. lia.
Qed.

Lemma parse_print m q : parse_start (print_id (m, q)) = Some (m, q).
Proof.
  unfold parse_start. rewrite bool_decide_false.
  - rewrite print_id_dash. destruct (print_id_parts m q) as [-> ->]. destruct (itoa_spec m) as (_ & _ & ->), (itoa_spec q) as (_ & _ & ->). done.
  - intros E. apply (f_equal length) in E. unfold print_id in E. rewrite length_app in E. cbn [length fst snd] in E.
    pose proof (itoa_length m). pose proof (itoa_length q). lia.
Qed.

(** ** Pages *)

Section Pass.
Context (json_valid : string -> bool) (maxLen : nat) (consumer : string).

Definition pending (w : world) (p : nat) : bool := match grp w with Some g => bool_decide (is_Some (g_pel g !! p)) | None => false end.
Definition pend_list (w : world) : list nat := List.filter (pending w) (seq 0 (length (stream w))).

(** Identifiers whose sequence number can be counted up in an [int]. *)
Definition small_ids (w : world) : Prop := forall p a, stream w !! p = Some a -> Z.of_N (snd (fst a)) + 1 < 2 ^ 63.

(** [start] is the text of a bound before which lie the first [s] entries. *)
Definition starts_at (w : world) (start : bytes) (s : nat) : Prop :=
  exists x, parse_start start = Some x /\ forall p a, stream w !! p = Some a -> id_le x (fst a) = (s <=? p)%nat.

Lemma id_le_lt x m q : id_le (m, (q + 1)%N) x = true <-> id_lt (m, q) x.
Proof.
  destruct x as [m' q']. unfold id_le, id_lt. cbn. rewrite orb_true_iff, andb_true_iff, N.ltb_lt, N.eqb_eq, N.leb_le. lia.
Qed.

Lemma starts_first w : starts_at w ["-"%char] 0.
Proof.
  exists (0, 0)%N. split; [done|]. intros p [[m q] v] _. unfold id_le. cbn.
  destruct m; [|done]. cbn. apply N.leb_le. lia.
Qed.

(** The bumped identifier of entry [p] starts the next page after it. *)
Lemma starts_after w p a :
  ascending (stream w) -> small_ids w -> stream w !! p = Some a -> starts_at w (bumpStreamID (print_id (fst a))) (S p).
Proof.
  intros Hasc Hs Hp. destruct a as [[m q] v]. cbn [fst]. rewrite bumpStreamID_print by apply (Hs p _ Hp).
  exists (m, q + 1)%N. split; [apply parse_print|]. intros p' a' Hp'. apply eq_true_iff_eq. rewrite id_le_lt, Nat.leb_le. split.
  - intros Hlt. destruct (decide (S p <= p')%nat) as [|Hge]; [done|]. exfalso. unfold id_lt in Hlt.
    destruct (decide (p' = p)) as [->|Hne]; [simplify_eq; cbn in Hlt; lia|].
    pose proof (Hasc p' p a' (m, q, v) ltac:(lia) Hp' Hp) as H. unfold id_lt in H. cbn in *. lia.
  - intros Hle. apply (Hasc p p' (m, q, v) a'); [lia|done..].
Qed.

Lemma take_filter_all {A} (f g : A -> bool) k l : (forall x, In x l -> f x = g x) -> take k (List.filter f l) = take k (List.filter g l).
Proof. intros H. by rewrite (filter_ext_in f g). Qed.

(** When every pending entry is at or after the bound, a page is the first hundred
    of them. *)
Lemma page_pend w start s :
  starts_at w start s -> (forall p, pending w p = true -> (s <= p)%nat) -> page start w = take pageSize (pend_list w).
Proof.
  intros (x & Hx & Hle) Hs. unfold page, pend_list, pending in *. destruct (grp w) as [g|]; [|by induction (seq _ _)].
  apply take_filter_all. intros p Hp. apply in_seq in Hp. destruct (lookup_lt_is_Some_2 (stream w) p) as [a Ha]; [lia|].
  rewrite Ha, Hx. destruct a as [id v]. destruct (g_pel g !! p) as [y|] eqn:E; [|by rewrite bool_decide_false by (by intros [])].
  rewrite bool_decide_true by by eexists. pose proof (Hle p (id, v) Ha) as Hp'. cbn [fst] in Hp'. rewrite Hp'. apply Nat.leb_le, Hs. by rewrite E, bool_decide_true by by eexists.
Qed.

(** ** One entry *)

(** Redis and the ingest service answer. *)
Definition working (i : input) : Prop := i_ok i = true /\ (1 <= i_applied i)%nat /\ exists ra, i_reply i = Status 200 ra.

(** The entries [l] have been settled between [w] and [w']. *)
Record settles (l : list nat) (w w' : world) : Prop := {
  st_stream : stream w' = stream w;
  st_trimmed : trimmed w' = trimmed w;
  st_received t : In t (received w) -> In t (received w');
  st_group : grp w' = option_map (fun g => {| g_first := g_first g; g_next := g_next g; g_pel := foldl (fun m p => delete p m) (g_pel g) l |}) (grp w);
  st_taken p id t : In p l -> stream w !! p = Some (id, Text t) -> (trimmed w <= p)%nat -> valid json_valid t = true -> In t (received w')
}.

Lemma settles_nil w : settles [] w w.
Proof. split; try done. by destruct (grp w) as [[]|]. Qed.

Lemma reclaim_one_settles i w p :
  working i -> is_Some (stream w !! p) -> settles [p] w (fst (alone (reclaim_one json_valid p) i w)).
Proof.
  intros (Hok & Ha & ra & Hr) [[id v] Hv].
  assert ((0 <? i_applied i)%nat = true) as Hap by (apply Nat.ltb_lt; lia).
  unfold reclaim_one. cbn [bind command alone XRange]. rewrite Hok, Hv. cbn [option_map snd].
  assert (forall w, stream w !! p = Some (id, v) -> (p < trimmed w)%nat \/ match v with Text t => valid json_valid t = false | _ => True end ->
    settles [p] w (fst (alone (ack [p]) i w))) as Hack.
  { intros u Hu Hs. cbn [alone ack command]. rewrite Hap. cbn [fst]. split; try done. intros q id' t [<-|[]] Hq Ht Hvt.
    rewrite Hu in Hq. injection Hq as <- ->. destruct Hs as [?|Hs]; [lia|congruence]. }
  destruct (p <? trimmed w)%nat eqn:Et.
  { apply Nat.ltb_lt in Et. apply Hack; auto. }
  destruct v as [| |t]; cbn [processBatch collect bind].
  - change (settles [p] w (fst (alone (bind (ack [p]) (fun _ => Ret tt)) i w))). rewrite alone_bind.
    destruct (alone (ack [p]) i w) as [u []] eqn:E. cbn. pose proof (Hack w Hv (or_intror I)) as H. by rewrite E in H.
  - change (settles [p] w (fst (alone (bind (ack [p]) (fun _ => Ret tt)) i w))). rewrite alone_bind.
    destruct (alone (ack [p]) i w) as [u []] eqn:E. cbn. pose proof (Hack w Hv (or_intror I)) as H. by rewrite E in H.
  - destruct (valid json_valid t) eqn:Ev.
    + cbn [bind app map fst snd alone SendBatch maxAttempts Nat.sub send_loop postOnce command]. rewrite Hr.
      change ((200 <=? 200) && (200 <? 300)) with true. cbn [alone ack command bind]. rewrite Hap. cbn. split; cbn; try done.
      * intros t' Ht. apply in_or_app. by left.
      * intros q id' t' [<-|[]] Hq _ _. rewrite Hv in Hq. injection Hq as _ <-. apply in_or_app. right. by left.
    + change (settles [p] w (fst (alone (bind (ack [p]) (fun _ => Ret tt)) i w))). rewrite alone_bind.
      destruct (alone (ack [p]) i w) as [u []] eqn:E. cbn. pose proof (Hack w Hv (or_intror eq_refl)) as H. by rewrite E in H.
Qed.

Lemma settles_trans l k w1 w2 w3 : settles l w1 w2 -> settles k w2 w3 -> settles (l ++ k) w1 w3.
Proof.
  intros [A1 A2 A3 A4 A5] [B1 B2 B3 B4 B5]. split; [congruence|congruence|auto| |].
  - rewrite B4, A4. destruct (grp w1) as [g|]; [|done]. cbn. by rewrite foldl_app.
  - intros p id t Hp Hs Ht Hv. apply in_app_or in Hp as [Hp|Hp]; [apply B3; by eapply A5|].
    apply (B5 p id t); [done|by rewrite A1|by rewrite A2|done].
Qed.

Lemma for_each_settles i w l :
  working i -> (forall p, In p l -> is_Some (stream w !! p)) -> settles l w (fst (alone (for_each l (reclaim_one json_valid)) i w)).
Proof.
  intros Hi. revert w; induction l as [|p l IH]; intros w Hl; cbn [for_each].
  - apply settles_nil.
  - rewrite alone_bind. destruct (alone (reclaim_one json_valid p) i w) as [u []] eqn:E.
    pose proof (reclaim_one_settles i w p Hi (Hl p (or_introl eq_refl))) as H. rewrite E in H. cbn in H.
    change (p :: l) with ([p] ++ l). eapply settles_trans; [exact H|]. apply IH. intros q Hq. rewrite (st_stream _ _ _ H). apply Hl. by right.
Qed.

(** ** The pass *)

Lemma foldl_delete_lookup (m : gmap nat (string * Z)) l q :
  foldl (fun m p => delete p m) m l !! q = (if existsb (Nat.eqb q) l then None else m !! q).
Proof.
  revert m; induction l as [|p l IH]; intros m; cbn; [done|]. rewrite IH.
  destruct (Nat.eqb_spec q p) as [->|Hne]; cbn; [|by rewrite lookup_delete_ne].
  rewrite lookup_delete_eq. by destruct (existsb _ _).
Qed.

(** Claiming entries that are settled next makes no difference. *)
Lemma settles_claimed w w1 w2 g l now :
  grp w = Some g ->
  w1 = update_group (fun g => {| g_first := g_first g; g_next := g_next g;
         g_pel := foldr (fun p => <[p := (consumer, now)]>) (g_pel g) l |}) w ->
  settles l w1 w2 -> settles l w w2.
Proof.
  intros Hg -> [A1 A2 A3 A4 A5]. split; [done..| |done]. rewrite A4. cbn. rewrite Hg. cbn. do 2 f_equal.
  apply map_eq. intros q. rewrite !foldl_delete_lookup. destruct (existsb (Nat.eqb q) l) eqn:E; [done|].
  rewrite (lookup_insert_list _ (fun p => p)). change (existsb (fun x => (q =? x)%nat) l) with (existsb (Nat.eqb q) l). by rewrite E.
Qed.

Lemma pend_list_spec w p : In p (pend_list w) <-> (p < length (stream w))%nat /\ pending w p = true.
Proof. unfold pend_list. rewrite filter_In, in_seq. intuition lia. Qed.

Lemma filter_minus {A} (f : A -> bool) (l1 l2 : list A) : (forall x, In x l1 -> f x = false) -> (forall x, In x l2 -> f x = true) ->
  List.filter f (l1 ++ l2) = l2.
Proof.
  intros H1 H2. rewrite List.filter_app. replace (List.filter f l1) with (@nil A).
  - cbn. induction l2 as [|x l2 IH]; [done|]. cbn. rewrite H2 by by left. f_equal. apply IH. intros; apply H2. by right.
  - induction l1 as [|x l1 IH]; [done|]. cbn. rewrite H1 by by left. apply IH. intros; apply H1. by right.
Qed.

Lemma filter_filter {A} (f g : A -> bool) l : (forall x, g x = true -> f x = true) -> List.filter g (List.filter f l) = List.filter g l.
Proof.
  intros H. induction l as [|x l IH]; cbn; [done|]. destruct (f x) eqn:Ef, (g x) eqn:Eg; cbn; rewrite ?Eg, ?IH; try done.
  rewrite (H x Eg) in Ef. done.
Qed.

Lemma pend_list_sorted w : StronglySorted lt (pend_list w) /\ List.NoDup (pend_list w).
Proof.
  split; [|apply List.NoDup_filter, seq_NoDup]. unfold pend_list.
  generalize (pending w) as f. intros f. generalize 0%nat as k. induction (length (stream w)) as [|n IH]; intros k; [constructor|].
  cbn [seq List.filter]. destruct (f k); [|apply IH]. constructor; [apply IH|]. apply List.Forall_forall. intros x Hx.
  apply filter_In in Hx as [Hx _]. apply in_seq in Hx. lia.
Qed.

(** What is pending after the first [k] pending entries are settled. *)
Lemma pend_list_settles w w' k g :
  grp w = Some g -> settles (take k (pend_list w)) w w' -> pend_list w' = drop k (pend_list w).
Proof.
  intros Hg [A1 _ _ A4 _]. destruct (pend_list_sorted w) as [_ Hn].
  assert (forall p, pending w' p = pending w p && negb (existsb (Nat.eqb p) (take k (pend_list w)))) as Hp.
  { intros p. unfold pending. rewrite A4, Hg. cbn. rewrite foldl_delete_lookup.
    destruct (existsb _ _); cbn; [by rewrite andb_false_r|by rewrite andb_true_r]. }
  unfold pend_list at 1. rewrite A1. rewrite <- (filter_filter (pending w)) by (intros x; rewrite Hp, andb_true_iff; by intros []).
  fold (pend_list w). rewrite <- (take_drop k (pend_list w)) at 1. rewrite <- (take_drop k (pend_list w)) in Hn.
  apply filter_minus.
  - intros x Hx. rewrite Hp. replace (existsb _ _) with true; [apply andb_false_r|]. symmetry. apply existsb_exists. exists x. by rewrite Nat.eqb_refl.
  - intros x Hx. rewrite Hp. apply andb_true_iff. split.
    + apply (pend_list_spec w x). rewrite <- (take_drop k (pend_list w)). apply in_or_app. by right.
    + apply negb_true_iff. destruct (existsb _ _) eqn:E; [|done]. exfalso. apply existsb_exists in E as (y & Hy & E). apply Nat.eqb_eq in E. subst y.
      apply NoDup_ListNoDup, NoDup_app in Hn as (_ & Hd & _). by apply (Hd x); apply list_elem_of_In.
Qed.

Lemma page_ids_fst start w : map fst (page_ids start w) = page start w /\
  forall x, In x (page_ids start w) -> exists a, stream w !! fst x = Some a /\ snd x = print_id (fst a).
Proof.
  assert (forall p, In p (page start w) -> is_Some (stream w !! p)) as Hp.
  { intros p Hp. unfold page in Hp. destruct (grp w); [|done]. apply list_elem_of_In, elem_of_take in Hp as (j & Hj & _).
    apply list_elem_of_lookup_2, list_elem_of_In, filter_In in Hj as [Hj _]. apply in_seq in Hj. apply lookup_lt_is_Some. lia. }
  unfold page_ids. induction (page start w) as [|p l IH]; [done|]. destruct (Hp p (or_introl eq_refl)) as [a Ha]. cbn. rewrite Ha. cbn.
  destruct IH as [IH1 IH2]; [intros q Hq; apply Hp; by right|]. split; [by f_equal|]. intros x [<-|Hx]; [by exists a|by apply IH2].
Qed.

(** Pending entries are in the stream and have been idle long enough. *)
Record idle (i : input) (w : world) (g : group) : Prop := {
  id_group : grp w = Some g;
  id_ascending : ascending (stream w);
  id_small : small_ids w;
  id_bound p x : g_pel g !! p = Some x -> (p < length (stream w))%nat;
  id_stale p c t : g_pel g !! p = Some (c, t) -> minIdle <= i_now i - t
}.

Lemma idle_settles i w w' g l :
  idle i w g -> settles l w w' ->
  idle i w' {| g_first := g_first g; g_next := g_next g; g_pel := foldl (fun m p => delete p m) (g_pel g) l |}.
Proof.
  intros [H1 H2 H3 H4 H5] [A1 A2 A3 A4 A5]. split; rewrite ?A1; try done.
  - by rewrite A4, H1.
  - intros p a Ha. rewrite A1 in Ha. by eapply H3.
  - intros p x. cbn. rewrite foldl_delete_lookup. destruct (existsb _ _); [done|]. apply H4.
  - intros p c t. cbn. rewrite foldl_delete_lookup. destruct (existsb _ _); [done|]. apply H5.
Qed.

Lemma claimed_all i w g l : idle i w g -> (forall p, In p l -> pending w p = true) -> List.filter (stale (i_now i) (g_pel g)) l = l.
Proof.
  intros Hid Hl. rewrite <- (app_nil_l l) at 1. apply filter_minus; [done|]. intros p Hp. specialize (Hl p Hp). unfold pending in Hl.
  rewrite (id_group _ _ _ Hid) in Hl. apply bool_decide_eq_true in Hl as [[c t] Hc]. unfold stale. rewrite Hc. apply Z.leb_le.
  by eapply id_stale.
Qed.

Lemma reclaim_loop_settles i fuel start s w g :
  working i -> idle i w g -> starts_at w start s -> (forall p, pending w p = true -> (s <= p)%nat) -> (length (pend_list w) <= fuel)%nat ->
  settles (pend_list w) w (fst (alone (reclaim_loop json_valid fuel consumer start) i w)).
Proof.
  intros Hwk. revert start s w g. induction fuel as [|fuel IH]; intros start s w g Hid Hst Hs Hlen.
  { destruct (pend_list w); [|cbn in Hlen; lia]. apply settles_nil. }
  pose proof Hwk as (Hok & Ha & _). assert ((0 <? i_applied i)%nat = true) as Hap by (apply Nat.ltb_lt; lia).
  pose proof (page_pend w start s Hst Hs) as Hpage. destruct (page_ids_fst start w) as [Hfst Hids]. rewrite Hpage in Hfst.
  cbn [reclaim_loop]. rewrite alone_bind. cbn [alone XPendingExt command]. rewrite Hok.
  destruct (page_ids start w) as [|x l] eqn:Ep.
  { cbn in Hfst. destruct (pend_list w); [|done]. apply settles_nil. }
  rewrite alone_bind. cbn [alone XClaimJustID command]. rewrite (id_group _ _ _ Hid), Hap, Hok, Hfst.
  assert (forall p, In p (take pageSize (pend_list w)) -> (p < length (stream w))%nat /\ pending w p = true) as Hin.
  { intros p Hp. apply pend_list_spec. rewrite <- (take_drop pageSize (pend_list w)). apply in_or_app. by left. }
  rewrite (claimed_all i w g) by (done || (intros p Hp; by apply Hin)).
  set (P := take pageSize (pend_list w)) in *. set (w1 := update_group _ w). rewrite alone_bind.
  destruct (alone (for_each P (reclaim_one json_valid)) i w1) as [w2 []] eqn:E.
  assert (settles P w w2) as Hset.
  { apply (settles_claimed w w1 w2 g P (i_now i)); [apply Hid|done|]. pose proof (for_each_settles i w1 P Hwk) as H. rewrite E in H. apply H.
    intros p Hp. apply lookup_lt_is_Some. by apply Hin. }
  assert (length P = length (x :: l)) as HlenP by (rewrite <- Hfst; apply length_map).
  destruct (length (x :: l) <? pageSize)%nat eqn:Elt.
  - cbn [alone fst]. apply Nat.ltb_lt in Elt. replace (pend_list w) with P; [done|]. unfold P. apply take_ge. unfold P in HlenP. rewrite length_take in HlenP. lia.
  - apply Nat.ltb_ge in Elt. destruct (last (x :: l)) as [[p b]|] eqn:El; [|by apply last_None in El]. cbn [from_option snd].
    assert (In (p, b) (x :: l)) as Hpb by (apply list_elem_of_In, last_Some_elem_of; done).
    destruct (Hids (p, b) Hpb) as (a & Hpa & Hb). cbn [fst snd] in Hpa, Hb. subst b.
    destruct (starts_after w p a (id_ascending _ _ _ Hid) (id_small _ _ _ Hid) Hpa) as (y & Hy & Hyle).
    rewrite bool_decide_false by (intros E0; rewrite E0 in Hy; done).
    rewrite <- (take_drop pageSize (pend_list w)) at 1. fold P. eapply settles_trans; [exact Hset|].
    pose proof (pend_list_settles w w2 pageSize g (id_group _ _ _ Hid) Hset) as Hpl. rewrite <- Hpl.
    eapply (IH _ (S p) w2); [by eapply idle_settles| | |].
    + exists y. split; [done|]. intros q a' Hq. apply Hyle. by rewrite <- (st_stream _ _ _ Hset).
    + intros q Hq. assert (In q (pend_list w2)) as Hq2.
      { apply pend_list_spec. split; [|done]. pose proof (idle_settles _ _ _ _ _ Hid Hset) as Hid2. unfold pending in Hq.
        rewrite (id_group _ _ _ Hid2) in Hq. apply bool_decide_eq_true in Hq as [z Hz]. by eapply (id_bound _ _ _ Hid2). }
      rewrite Hpl in Hq2. assert (In p P) as HpP by (rewrite <- Hfst; apply in_map_iff; by exists (p, print_id (fst a))).
      destruct (pend_list_sorted w) as [Hsort _]. rewrite <- (take_drop pageSize (pend_list w)) in Hsort. fold P in Hsort.
      clear -Hsort HpP Hq2. induction P as [|z P IH]; [done|]. cbn in Hsort. inversion Hsort as [|? ? Hs' Hz]; subst.
      destruct HpP as [->|HpP]; [|by apply IH]. rewrite List.Forall_forall in Hz. apply Hz, in_or_app. by right.
    + rewrite Hpl, length_drop. unfold pageSize in *. cbn in HlenP. lia.
Qed.

(** C39. A reclaim pass settles everything that is pending: in every state the system
    reaches, when Redis and the ingest service answer and every pending entry has
    been idle for a minute, a pass with fuel for the entries of the stream returns
    with nothing pending, and every entry that was pending, holds a JSON text and
    has not been trimmed has been taken by the ingest service. Sequence numbers must
    stay below the range of [int]. *)
Theorem reclaim_settles cellID es i g :
  Forall (allowed json_valid cellID maxLen) es -> let w := reached es in
  grp w = Some g -> small_ids w -> working i -> (forall p c t, g_pel g !! p = Some (c, t) -> minIdle <= i_now i - t) ->
  let w' := fst (alone (reclaimOnce json_valid (length (stream w)) consumer) i w) in
  (exists g', grp w' = Some g' /\ g_pel g' = ∅) /\
  (forall p x id t, g_pel g !! p = Some x -> stream w !! p = Some (id, Text t) -> (trimmed w <= p)%nat -> valid json_valid t = true ->
     In t (received w')).
Proof.
  intros Hes w Hg Hsm Hwk Hidle w'. pose proof (reached_inv _ _ _ _ Hes) as Hi.
  assert (idle i w g) as Hid.
  { split; [done|apply Hi|done| |done]. intros p x Hp. destruct (inv_group _ _ _ Hi g Hg) as [_ G2 G3 _]. apply G3 in Hp. fold w in G2. lia. }
  assert (settles (pend_list w) w w') as Hset.
  { apply (reclaim_loop_settles i (length (stream w)) _ 0 w g Hwk Hid (starts_first w)); [lia|].
    unfold pend_list. etrans; [apply filter_length_le|]. by rewrite length_seq. }
  assert (forall p x, g_pel g !! p = Some x -> In p (pend_list w)) as Hin.
  { intros p x Hp. apply pend_list_spec. split; [by eapply id_bound|]. unfold pending. rewrite Hg. apply bool_decide_eq_true. by exists x. }
  destruct Hset as [_ _ _ A4 A5]. split.
  - rewrite A4, Hg. eexists. split; [done|]. cbn. apply map_eq. intros p. rewrite foldl_delete_lookup, lookup_empty.
    destruct (existsb _ _) eqn:E; [done|]. destruct (g_pel g !! p) as [x|] eqn:Ex; [|done]. exfalso.
    assert (existsb (Nat.eqb p) (pend_list w) = true); [|congruence]. apply existsb_exists. exists p. split; [by eapply Hin|apply Nat.eqb_refl].
  - intros p x id t Hp. apply A5. by eapply Hin.
Qed.

End Pass.

(** A forwarder read an entry and crashed; another reclaims it two minutes later. *)
Definition crashed : list (Threads.event world input) :=
  [Start CreateGroup; Run 0 (good 1); Start (log1 "created" "{}"); Run 1 (good 1); Run 1 (good 1)] ++
  [Start flush1] ++ repeat (Run 2 (good 2)) 6 ++ [Start (read_once any_json "cp1"); Run 3 (good 3)].

Lemma crashed_allowed : Forall (allowed any_json "cell" 1000) crashed.
Proof. unfold crashed. cbn [app repeat]. allowed_tac. Qed.

Lemma reclaim_settles_witness :
  let w := reached crashed in
  match grp w with
  | Some g => map_to_list (g_pel g) = [(0%nat, ("cp1"%string, 3 * 10 ^ 9))] /\
      exists g', grp (fst (alone (reclaimOnce any_json 1 "cp2") (good 123) w)) = Some g' /\ g_pel g' = ∅
  | None => False
  end.
Proof.
  intros w. destruct (grp w) as [g|] eqn:Eg; [|vm_compute in Eg; discriminate Eg].
  assert (map_to_list (g_pel g) = [(0%nat, ("cp1"%string, 3 * 10 ^ 9))]) as Hl by (vm_compute in Eg; injection Eg as <-; vm_compute; reflexivity).
  split; [exact Hl|].
  destruct (reclaim_settles any_json 1000 "cp2" "cell" crashed (good 123) g crashed_allowed Eg) as [H _].
  - intros [|p] a Ha; [|vm_compute in Ha; discriminate Ha]. vm_compute in Ha. injection Ha as <-. reflexivity.
  - split; [reflexivity|]. split; [cbn; lia|]. by exists 0.
  - intros p c t Hp. apply elem_of_map_to_list in Hp. rewrite Hl in Hp. apply list_elem_of_singleton in Hp. injection Hp as -> -> ->. vm_compute. discriminate.
  - replace (length (stream w)) with 1%nat in H by (vm_compute; reflexivity). exact H.
Defined.

End ReclaimFacts.
