(* ===== verification/RedisScaler.v ===== *)
(** * The scaler's state in Redis

    src/internal/controlplane/scaler_state.go: [RedisScalerState], the second
    implementation of [ScalerStateStore], shared by the control planes. Keys carry
    a time to live; a command may fail, and the store then answers as if there were
    nothing. [call] is the interface both stores implement; the theorems say how
    far the Redis store behaves like the one in memory. Times are in nanoseconds. *)

From S2P Require Import Prelude GoFloat ScalerState Scaler.
#[local] Open Scope Z_scope.

Module RedisScaler.
Export ScalerState.

(** ** Redis *)

(** Values: times in RFC 3339 (with nanoseconds, or in whole seconds), a hash of
    launches, a drain record, the text of a lock, a counter. *)
Inductive rvalue :=
| RTime (t : Z)
| RHash (m : gmap string pendingLaunch)
| RDrain (d : drainState)
| RLock
| RInt (n : Z).

(** A value with its expiry time. *)
Abbreviation redis := (gmap string (rvalue * option Z)).

Definition live (now : Z) (x : rvalue * option Z) : bool := match snd x with Some t => now <? t | None => true end.

Definition GET (now : Z) (k : string) (r : redis) : option rvalue :=
  match r !! k with Some x => if live now x then Some (fst x) else None | None => None end.
Definition SET (now : Z) (k : string) (v : rvalue) (ttl : Z) (r : redis) : redis :=
  <[k := (v, if 0 <? ttl then Some (now + ttl) else None)]> r.
Definition DEL (k : string) (r : redis) : redis := delete k r.
Definition EXPIRE (now : Z) (k : string) (ttl : Z) (r : redis) : redis :=
  match GET now k r with Some v => <[k := (v, Some (now + ttl))]> r | None => delete k r end.
(** The expiry a key keeps through a command that updates it. *)
Definition ttl_of (now : Z) (k : string) (r : redis) : option Z :=
  match r !! k with Some x => if live now x then snd x else None | None => None end.
Definition INCRBY (now : Z) (k : string) (d : Z) (r : redis) : redis * Z :=
  let n := match GET now k r with Some (RInt n) => n | _ => 0 end + d in (<[k := (RInt n, ttl_of now k r)]> r, n).
Definition SETNX (now : Z) (k : string) (v : rvalue) (ttl : Z) (r : redis) : redis * bool :=
  match GET now k r with Some _ => (r, false) | None => (SET now k v ttl r, true) end.
Definition hash_of (now : Z) (k : string) (r : redis) : gmap string pendingLaunch :=
  match GET now k r with Some (RHash m) => m | _ => ∅ end.
Definition HSET (now : Z) (k f : string) (p : pendingLaunch) (r : redis) : redis :=
  <[k := (RHash (<[f := p]> (hash_of now k r)), ttl_of now k r)]> r.
(** A hash that becomes empty is deleted. *)
Definition HDEL (now : Z) (k f : string) (r : redis) : redis :=
  let m := delete f (hash_of now k r) in
  if decide (m = ∅) then delete k r else <[k := (RHash m, ttl_of now k r)]> r.

(** ** Keys *)

Inductive key :=
| KScaleUp (region : string) | KPending (region : string) | KDraining (machine : string) | KEvacuation (worker : string)
| KMigrating (sandbox : string) | KEvacuating | KReplacing | KInFlight (worker : string) | KCount (region : string)
| KFail (region : string) | KBackoff (region : string).

Definition key_text (k : key) : string :=
  match k with
  | KScaleUp r => "scaler:lastscaleup:" +:+ r
  | KPending r => "scaler:pending:" +:+ r
  | KDraining m => "scaler:draining:" +:+ m
  | KEvacuation w => "scaler:evacuation:" +:+ w
  | KMigrating s => "scaler:migrating:" +:+ s
  | KEvacuating => "scaler:evacuating"
  | KReplacing => "scaler:replacing"
  | KInFlight w => "scaler:inflight:" +:+ w
  | KCount r => "scaler:sandboxcount:" +:+ r
  | KFail r => "scaler:createfail:" +:+ r
  | KBackoff r => "scaler:createbackoff:" +:+ r
  end.

(** ** The store *)

Definition second : Z := 10 ^ 9.
Definition minute : Z := 60 * second.

(** [up]: the command succeeds; [up2]: a second command of the operation does. *)
Section Operations.
Variable now : Z.
Variables up up2 : bool.

Definition get (k : key) (r : redis) : option rvalue := if up then GET now (key_text k) r else None.
Definition cmd (f : redis -> redis) (r : redis) : redis := if up then f r else r.
Definition cmd2 (f : redis -> redis) (r : redis) : redis := if up2 then f r else r.

Definition get_time (k : key) (r : redis) : option Z := match get k r with Some (RTime t) => Some t | _ => None end.

Definition r_GetLastScaleUp (region : string) (r : redis) : option Z := get_time (KScaleUp region) r.
Definition r_SetLastScaleUp (region : string) (t cooldown : Z) : redis -> redis :=
  cmd (SET now (key_text (KScaleUp region)) (RTime t) (cooldown + 60 * second)).

Definition pendingTTL : Z := Scaler.pendingWorkerTTL + minute.

(** In the order of the hash, which is arbitrary. *)
Definition r_GetPendingLaunches (region : string) (r : redis) : list pendingLaunch :=
  if up then map snd (map_to_list (hash_of now (key_text (KPending region)) r)) else [].
Definition r_AddPendingLaunch (region : string) (p : pendingLaunch) (r : redis) : redis :=
  cmd2 (EXPIRE now (key_text (KPending region)) pendingTTL) (cmd (HSET now (key_text (KPending region)) (MachineID p) p) r).
Definition r_RemovePendingLaunch (region machineID : string) : redis -> redis :=
  cmd (HDEL now (key_text (KPending region)) machineID).
Definition r_SetPendingLaunches (region : string) (l : list pendingLaunch) (r : redis) : redis :=
  let k := key_text (KPending region) in
  let r := fold_left (fun r p => cmd (HSET now k (MachineID p) p) r) l (cmd (DEL k) r) in
  match l with [] => r | _ => cmd2 (EXPIRE now k pendingTTL) r end.

Definition drainTTL : Z := Scaler.drainTimeout + 5 * minute.

Definition r_GetDraining (machineID : string) (r : redis) : option drainState :=
  match get (KDraining machineID) r with Some (RDrain d) => Some d | _ => None end.
Definition r_SetDraining (machineID : string) (d : drainState) : redis -> redis :=
  cmd (SET now (key_text (KDraining machineID)) (RDrain d) drainTTL).
Definition r_RemoveDraining (machineID : string) : redis -> redis := cmd (DEL (key_text (KDraining machineID))).
Definition r_IsDraining (machineID : string) (r : redis) : bool := bool_decide (is_Some (get (KDraining machineID) r)).

Definition drain_prefix : string := "scaler:draining:".

(** [key[len(prefix):]] of a key that matches [prefix*]. *)
Fixpoint strip (p s : string) : option string :=
  match p, s with
  | EmptyString, _ => Some s
  | String a p, String b s => if Ascii.eqb a b then strip p s else None
  | _, _ => None
  end.

(** A scanned key: its machine, if it matches and the GET that follows answers. *)
Definition drain_entry (kx : string * (rvalue * option Z)) : option (string * drainState) :=
  match strip drain_prefix (fst kx), snd kx with
  | Some id, (RDrain d, e) => if live now (RDrain d, e) then Some (id, d) else None
  | _, _ => None
  end.

(** SCAN over the keys, then a GET of each that matches. *)
Definition r_AllDraining (r : redis) : list (string * drainState) := if up then omap drain_entry (map_to_list r) else [].

Definition r_GetLastEvacuation (worker : string) (r : redis) : option Z := get_time (KEvacuation worker) r.
Definition r_SetLastEvacuation (worker : string) (t : Z) : redis -> redis :=
  cmd (SET now (key_text (KEvacuation worker)) (RTime t) (Scaler.evacuationCooldown + 30 * second)).

Definition lock (k : key) (ttl : Z) (r : redis) : redis * bool := if up then SETNX now (key_text k) RLock ttl r else (r, false).
Definition unlock (k : key) : redis -> redis := cmd (DEL (key_text k)).

Definition r_AcquireMigrationLock (sandbox : string) := lock (KMigrating sandbox) (5 * minute).
Definition r_ReleaseMigrationLock (sandbox : string) := unlock (KMigrating sandbox).
Definition r_TryAcquireEvacuationLock := lock KEvacuating (10 * minute).
Definition r_ReleaseEvacuationLock := unlock KEvacuating.
Definition r_TryAcquireReplacingLock := lock KReplacing (30 * minute).
Definition r_ReleaseReplacingLock := unlock KReplacing.

Definition get_int (k : key) (r : redis) : option Z := match get k r with Some (RInt n) => Some n | _ => None end.

Definition r_IncrInFlight (worker : string) (r : redis) : redis :=
  cmd2 (EXPIRE now (key_text (KInFlight worker)) (10 * minute)) (cmd (fun r => fst (INCRBY now (key_text (KInFlight worker)) 1 r)) r).
Definition r_DecrInFlight (worker : string) : redis -> redis := cmd (fun r => fst (INCRBY now (key_text (KInFlight worker)) (-1) r)).
Definition r_GetInFlight (worker : string) (r : redis) : Z := default 0 (get_int (KInFlight worker) r).

Definition r_GetLastSandboxCount (region : string) (r : redis) : option Z := get_int (KCount region) r.
Definition r_SetLastSandboxCount (region : string) (n : Z) : redis -> redis :=
  cmd (SET now (key_text (KCount region)) (RInt n) (2 * minute)).

Definition r_IncrCreationFailures (region : string) (r : redis) : redis * Z :=
  if up then let '(r, n) := INCRBY now (key_text (KFail region)) 1 r in (cmd2 (EXPIRE now (key_text (KFail region)) (30 * minute)) r, n)
  else (r, 0).
Definition r_ResetCreationFailures (region : string) (r : redis) : redis :=
  cmd2 (DEL (key_text (KBackoff region))) (cmd (DEL (key_text (KFail region))) r).

(** Formatting in RFC 3339 drops the fraction of a second. *)
Definition whole_seconds (t : Z) : Z := t - t mod second.

Definition r_GetCreationBackoffUntil (region : string) (r : redis) : option Z :=
  match get_time (KBackoff region) r with
  | Some t => if t <? now then None else Some t
  | None => None
  end.
Definition r_SetCreationBackoffUntil (region : string) (until : Z) : redis -> redis :=
  cmd (SET now (key_text (KBackoff region)) (RTime (whole_seconds until)) (until - now)).

End Operations.

(** ** The interface *)

Inductive call :=
| CGetLastScaleUp (region : string) | CSetLastScaleUp (region : string) (t cooldown : Z)
| CGetPending (region : string) | CAddPending (region : string) (p : pendingLaunch)
| CRemovePending (region machineID : string) | CSetPending (region : string) (l : list pendingLaunch)
| CGetDraining (machineID : string) | CSetDraining (machineID : string) (d : drainState)
| CRemoveDraining (machineID : string) | CIsDraining (machineID : string) | CAllDraining
| CGetLastEvacuation (worker : string) | CSetLastEvacuation (worker : string) (t : Z)
| CAcquireMigration (sandbox : string) | CReleaseMigration (sandbox : string)
| CTryEvacuation | CReleaseEvacuation | CTryReplacing | CReleaseReplacing
| CIncrInFlight (worker : string) | CDecrInFlight (worker : string) | CGetInFlight (worker : string)
| CGetCount (region : string) | CSetCount (region : string) (n : Z)
| CIncrFailures (region : string) | CResetFailures (region : string)
| CGetBackoff (region : string) | CSetBackoff (region : string) (until : Z).

Inductive answer :=
| ATime (t : option Z) | ALaunches (l : list pendingLaunch) | ADrain (d : option drainState) | AFlag (b : bool)
| ADrains (l : list (string * drainState)) | AInt (n : Z) | ACount (n : option Z) | ADone.

(** What an implementation of [ScalerStateStore] provides: the answer and the next
    state of every method at time [now]. *)
Class ScalerStateStore (S : Type) := { empty_store : S; serve : Z -> call -> S -> S * answer }.

#[export] Instance memory_store : ScalerStateStore InMemoryScalerState := {
  empty_store := NewInMemoryScalerState;
  serve now c m :=
    match c with
    | CGetLastScaleUp r => (m, ATime (GetLastScaleUp m r))
    | CSetLastScaleUp r t _ => (SetLastScaleUp r t m, ADone)
    | CGetPending r => (m, ALaunches (GetPendingLaunches m r))
    | CAddPending r p => (AddPendingLaunch r p m, ADone)
    | CRemovePending r id => (RemovePendingLaunch r id m, ADone)
    | CSetPending r l => (SetPendingLaunches r l m, ADone)
    | CGetDraining id => (m, ADrain (GetDraining m id))
    | CSetDraining id d => (SetDraining id d m, ADone)
    | CRemoveDraining id => (RemoveDraining id m, ADone)
    | CIsDraining id => (m, AFlag (IsDraining m id))
    | CAllDraining => (m, ADrains (AllDraining m))
    | CGetLastEvacuation w => (m, ATime (GetLastEvacuation m w))
    | CSetLastEvacuation w t => (SetLastEvacuation w t m, ADone)
    | CAcquireMigration s => let '(m, b) := AcquireMigrationLock s m in (m, AFlag b)
    | CReleaseMigration s => (ReleaseMigrationLock s m, ADone)
    | CTryEvacuation => let '(m, b) := TryAcquireEvacuationLock m in (m, AFlag b)
    | CReleaseEvacuation => (ReleaseEvacuationLock m, ADone)
    | CTryReplacing => let '(m, b) := TryAcquireReplacingLock m in (m, AFlag b)
    | CReleaseReplacing => (ReleaseReplacingLock m, ADone)
    | CIncrInFlight w => (IncrInFlight w m, ADone)
    | CDecrInFlight w => (DecrInFlight w m, ADone)
    | CGetInFlight w => (m, AInt (GetInFlight m w))
    | CGetCount r => (m, ACount (GetLastSandboxCount m r))
    | CSetCount r n => (SetLastSandboxCount r n m, ADone)
    | CIncrFailures r => let '(m, n) := IncrCreationFailures r m in (m, AInt n)
    | CResetFailures r => (ResetCreationFailures r m, ADone)
    | CGetBackoff r => (m, ATime (GetCreationBackoffUntil m now r))
    | CSetBackoff r t => (SetCreationBackoffUntil r t m, ADone)
    end }.

Definition serve_redis (up up2 : bool) (now : Z) (c : call) (r : redis) : redis * answer :=
  match c with
  | CGetLastScaleUp x => (r, ATime (r_GetLastScaleUp now up x r))
  | CSetLastScaleUp x t cd => (r_SetLastScaleUp now up x t cd r, ADone)
  | CGetPending x => (r, ALaunches (r_GetPendingLaunches now up x r))
  | CAddPending x p => (r_AddPendingLaunch now up up2 x p r, ADone)
  | CRemovePending x id => (r_RemovePendingLaunch now up x id r, ADone)
  | CSetPending x l => (r_SetPendingLaunches now up up2 x l r, ADone)
  | CGetDraining id => (r, ADrain (r_GetDraining now up id r))
  | CSetDraining id d => (r_SetDraining now up id d r, ADone)
  | CRemoveDraining id => (r_RemoveDraining up id r, ADone)
  | CIsDraining id => (r, AFlag (r_IsDraining now up id r))
  | CAllDraining => (r, ADrains (r_AllDraining now up r))
  | CGetLastEvacuation w => (r, ATime (r_GetLastEvacuation now up w r))
  | CSetLastEvacuation w t => (r_SetLastEvacuation now up w t r, ADone)
  | CAcquireMigration s => let '(r, b) := r_AcquireMigrationLock now up s r in (r, AFlag b)
  | CReleaseMigration s => (r_ReleaseMigrationLock up s r, ADone)
  | CTryEvacuation => let '(r, b) := r_TryAcquireEvacuationLock now up r in (r, AFlag b)
  | CReleaseEvacuation => (r_ReleaseEvacuationLock up r, ADone)
  | CTryReplacing => let '(r, b) := r_TryAcquireReplacingLock now up r in (r, AFlag b)
  | CReleaseReplacing => (r_ReleaseReplacingLock up r, ADone)
  | CIncrInFlight w => (r_IncrInFlight now up up2 w r, ADone)
  | CDecrInFlight w => (r_DecrInFlight now up w r, ADone)
  | CGetInFlight w => (r, AInt (r_GetInFlight now up w r))
  | CGetCount x => (r, ACount (r_GetLastSandboxCount now up x r))
  | CSetCount x n => (r_SetLastSandboxCount now up x n r, ADone)
  | CIncrFailures x => let '(r, n) := r_IncrCreationFailures now up up2 x r in (r, AInt n)
  | CResetFailures x => (r_ResetCreationFailures up up2 x r, ADone)
  | CGetBackoff x => (r, ATime (r_GetCreationBackoffUntil now up x r))
  | CSetBackoff x t => (r_SetCreationBackoffUntil now up x t r, ADone)
  end.

(** Redis while it answers. *)
#[export] Instance redis_store : ScalerStateStore redis := { empty_store := ∅; serve := serve_redis true true }.

End RedisScaler.
