(* ===== verification/RedisScalerFacts.v ===== *)
(** * The two scaler stores agree while keys live

    The store in memory is the specification of the one in Redis: as long as no key
    has expired when it is used, and counts are not taken below zero, every method
    gives the same answer. What happens when a key expires under its holder is
    stated at the end. *)

From S2P Require Import Prelude GoFloat ScalerState Scaler RedisScaler.
#[local] Open Scope Z_scope.

Module RedisScalerFacts.
Export RedisScaler.

(** ** Keys *)

#[export] Instance key_eq_dec : EqDecision key.
Proof. solve_decision. Defined.

Lemma key_text_inj k k' : key_text k = key_text k' -> k = k'.
Proof. destruct k, k'; cbn; intros E; simplify_eq; congruence. Qed.

#[local] Arguments key_text : simpl never.

(** The value of a key, its time to live aside. *)
Definition val (r : redis) (k : key) : option rvalue := fst <$> r !! key_text k.

Lemma val_insert r k k' x : val (<[key_text k := x]> r) k' = if decide (k = k') then Some (fst x) else val r k'.
Proof.
  unfold val. destruct (decide (k = k')) as [->|Hne]; [by rewrite lookup_insert_eq|].
  rewrite lookup_insert_ne; [done|]. intros E. by apply key_text_inj in E.
Qed.

Lemma val_delete r k k' : val (delete (key_text k) r) k' = if decide (k = k') then None else val r k'.
Proof.
  unfold val. destruct (decide (k = k')) as [->|Hne]; [by rewrite lookup_delete_eq|].
  rewrite lookup_delete_ne; [done|]. intros E. by apply key_text_inj in E.
Qed.

(** ** The relation *)

Definition pending_rel (v : option rvalue) (l : list pendingLaunch) : Prop :=
  match v with
  | None => l = []
  | Some (RHash h) => NoDup (map MachineID l) /\ h = list_to_map (map (fun p => (MachineID p, p)) l)
  | Some _ => False
  end.

Definition count_rel (v : option rvalue) (n : Z) : Prop :=
  match v with None => n = 0 | Some (RInt n') => n' = n | Some _ => False end.

Definition lock_rel (v : option rvalue) (m : InMemoryScalerState) (s : string) : Prop :=
  v = if decide (s ∈ migrating m) then Some RLock else None.

(** What a key holds, given the store in memory. *)
Definition key_rel (m : InMemoryScalerState) (k : key) (v : option rvalue) : Prop :=
  match k with
  | KScaleUp x => v = RTime <$> lastScaleUp m !! x
  | KPending x => pending_rel v (GetPendingLaunches m x)
  | KDraining x => v = RDrain <$> draining m !! x
  | KEvacuation x => v = RTime <$> lastEvacuation m !! x
  | KMigrating s => s <> "__evacuation__" -> s <> "__replacing__" -> lock_rel v m s
  | KEvacuating => lock_rel v m "__evacuation__"
  | KReplacing => lock_rel v m "__replacing__"
  | KInFlight w => count_rel v (GetInFlight m w)
  | KCount x => v = RInt <$> sandboxCount m !! x
  | KFail x => v = RInt <$> createFailures m !! x
  | KBackoff x => v = (fun t => RTime (whole_seconds t)) <$> createBackoff m !! x
  end%string.

Record rel (r : redis) (m : InMemoryScalerState) : Prop := {
  rel_keys k : key_rel m k (val r k);
  rel_dom s : is_Some (r !! s) -> exists k, s = key_text k
}.

(** The key is not past its expiry. *)
Definition live_at (now : Z) (r : redis) (k : key) : Prop := forall x, r !! key_text k = Some x -> live now x = true.

(** The keys whose present value a call depends on. *)
Definition reads (c : call) (k : key) : Prop :=
  match c with
  | CGetLastScaleUp x => k = KScaleUp x
  | CGetPending x | CAddPending x _ | CRemovePending x _ => k = KPending x
  | CGetDraining x | CIsDraining x => k = KDraining x
  | CAllDraining => exists x, k = KDraining x
  | CGetLastEvacuation w => k = KEvacuation w
  | CAcquireMigration s => k = KMigrating s
  | CTryEvacuation => k = KEvacuating
  | CTryReplacing => k = KReplacing
  | CIncrInFlight w | CDecrInFlight w | CGetInFlight w => k = KInFlight w
  | CGetCount x => k = KCount x
  | CIncrFailures x => k = KFail x
  | CGetBackoff x => k = KBackoff x
  | _ => False
  end.

(** A call may read a key only while it lives, take a count only down to zero, and
    name a machine once; a sandbox is not named as one of the two other locks. *)
Definition admissible (now : Z) (c : call) (r : redis) (m : InMemoryScalerState) : Prop :=
  (forall k, reads c k -> live_at now r k) /\
  match c with
  | CDecrInFlight w => 1 <= GetInFlight m w
  | CAddPending x p => MachineID p ∉ map MachineID (GetPendingLaunches m x)
  | CSetPending x l => NoDup (map MachineID l)
  | CAcquireMigration s | CReleaseMigration s => s <> "__evacuation__" /\ s <> "__replacing__"
  | _ => True
  end%string.

(** Equal answers; sets of launches and of drains in any order; a backoff in whole
    seconds, which may end up to a second early. *)
Definition answers_agree (now : Z) (c : call) (a a' : answer) : Prop :=
  match c, a, a' with
  | CGetBackoff _, ATime (Some t), ATime (Some t') => t' = whole_seconds t
  | CGetBackoff _, ATime (Some t), ATime None => whole_seconds t < now
  | _, ALaunches l, ALaunches l' => l ≡ₚ l'
  | _, ADrains l, ADrains l' => l ≡ₚ l'
  | _, _, _ => a = a'
  end.

(** ** Steps on one key *)

Lemma rel_insert r m m' k x :
  rel r m -> key_rel m' k (Some (fst x)) -> (forall k' v, k' <> k -> key_rel m k' v -> key_rel m' k' v) ->
  rel (<[key_text k := x]> r) m'.
Proof.
  intros [H1 H2] Hk Hf. split.
  - intros k'. rewrite val_insert. destruct (decide (k = k')) as [<-|Hne]; [done|]. apply Hf; auto.
  - intros s. destruct (decide (s = key_text k)) as [->|Hne]; [by exists k|]. rewrite lookup_insert_ne by done. apply H2.
Qed.

Lemma rel_delete r m m' k :
  rel r m -> key_rel m' k None -> (forall k' v, k' <> k -> key_rel m k' v -> key_rel m' k' v) ->
  rel (delete (key_text k) r) m'.
Proof.
  intros [H1 H2] Hk Hf. split.
  - intros k'. rewrite val_delete. destruct (decide (k = k')) as [<-|Hne]; [done|]. apply Hf; auto.
  - intros s. destruct (decide (s = key_text k)) as [->|Hne]; [by exists k|]. rewrite lookup_delete_ne by done. apply H2.
Qed.

(** The other keys of an update of one field. *)
Ltac frame_tac :=
  intros k' v Hne; destruct k'; cbn [key_rel]; try done;
  unfold GetPendingLaunches, GetInFlight, lock_rel, upd_lastScaleUp, upd_pending, upd_draining, upd_lastEvacuation, upd_migrating,
    upd_inFlight, upd_sandboxCount, upd_createFailures, upd_createBackoff;
  cbn; rewrite ?lookup_insert_ne, ?lookup_delete_ne by congruence; try done.

Lemma GET_val now r k : live_at now r k -> GET now (key_text k) r = val r k.
Proof. unfold GET, val. intros Hl. destruct (r !! key_text k) as [x|] eqn:E; [|done]. by rewrite (Hl _ E). Qed.


(** Setting the expiry of a live key. *)
Lemma EXPIRE_rel now k ttl r m :
  live_at now r k -> rel r m -> rel (EXPIRE now (key_text k) ttl r) m.
Proof.
  intros Hl Hrel. unfold EXPIRE, GET. destruct (r !! key_text k) as [x|] eqn:E.
  - rewrite (Hl x E). eapply rel_insert; [exact Hrel| |done]. pose proof (rel_keys _ _ Hrel k) as Hk. unfold val in Hk. by rewrite E in Hk.
  - replace (delete (key_text k) r) with r; [done|]. by rewrite delete_id.
Qed.

(** ** The simulation *)

Section Simulation.
Context (now : Z) (r : redis) (m : InMemoryScalerState).
Hypothesis Hrel : rel r m.

#[local] Abbreviation keys := (rel_keys _ _ Hrel).

(** The expiry a command keeps is a live one. *)
Lemma ttl_kept v k : live now (v, ttl_of now (key_text k) r) = true.
Proof. unfold ttl_of. destruct (r !! key_text k) as [[v' e]|]; [|done]. unfold live. cbn. by destruct e as [t|]; [destruct (now <? t) eqn:E|]. Qed.

(** *** Launches *)

#[local] Abbreviation by_id := (map (fun p => (MachineID p, p))).

Lemma by_id_fst l : (by_id l).*1 = map MachineID l.
Proof. induction l; [done|]. cbn. by f_equal. Qed.

Lemma hash_get x : live_at now r (KPending x) ->
  hash_of now (key_text (KPending x)) r = list_to_map (by_id (GetPendingLaunches m x)) /\ NoDup (map MachineID (GetPendingLaunches m x)).
Proof.
  intros Hl. unfold hash_of. rewrite GET_val by done. pose proof (keys (KPending x)) as H. cbn in H. unfold pending_rel in H.
  destruct (val r (KPending x)) as [[| h | | |]|]; try done; [by destruct H as [H ->]|]. rewrite H. by split; [|constructor].
Qed.

Lemma launches_agree x : live_at now r (KPending x) -> GetPendingLaunches m x ≡ₚ r_GetPendingLaunches now true x r.
Proof.
  intros Hl. unfold r_GetPendingLaunches. destruct (hash_get x Hl) as [-> Hn]. rewrite map_to_list_to_map by by rewrite by_id_fst.
  induction (GetPendingLaunches m x) as [|p l IH]; [done|]. cbn. by rewrite <- IH by (inversion Hn; done).
Qed.

Lemma lookup_by_id_filter l id :
  NoDup (map MachineID l) ->
  list_to_map (by_id (List.filter (fun p => negb (String.eqb (MachineID p) id)) l)) = delete id (list_to_map (by_id l) : gmap string pendingLaunch).
Proof.
  induction l as [|p l IH]; intros Hn; cbn; [by rewrite delete_empty|]. inversion_clear Hn as [|? ? Hp Hl].
  destruct (String.eqb_spec (MachineID p) id) as [<-|Hne]; cbn.
  - rewrite IH by done. by rewrite delete_insert_eq.
  - rewrite IH by done. by rewrite delete_insert_ne.
Qed.

Lemma filter_ids_nodup l f : NoDup (map MachineID l) -> NoDup (map MachineID (List.filter f l)).
Proof.
  induction l as [|p l IH]; intros Hn; cbn; [done|]. inversion_clear Hn as [|? ? Hp Hl]. destruct (f p); [|auto]. cbn. constructor; [|auto].
  intros Hin. apply Hp. apply list_elem_of_In, in_map_iff in Hin as (q & E & Hq). apply filter_In in Hq as [Hq _].
  apply list_elem_of_In, in_map_iff. eauto.
Qed.

Lemma by_id_snoc l p : MachineID p ∉ map MachineID l ->
  list_to_map (by_id (l ++ [p])) = <[MachineID p := p]> (list_to_map (by_id l) : gmap string pendingLaunch).
Proof.
  intros Hp. rewrite map_app. cbn. apply list_to_map_snoc. by rewrite by_id_fst.
Qed.

Lemma pending_upd x l m' : GetPendingLaunches (upd_pending (insert x l) m') x = l.
Proof. unfold GetPendingLaunches, upd_pending. cbn. by rewrite lookup_insert_eq. Qed.

Lemma add_rel x p :
  live_at now r (KPending x) -> MachineID p ∉ map MachineID (GetPendingLaunches m x) -> rel (r_AddPendingLaunch now true true x p r) (AddPendingLaunch x p m).
Proof.
  intros Hl Hp. unfold r_AddPendingLaunch, cmd, cmd2. destruct (hash_get x Hl) as [Hh Hn]. apply EXPIRE_rel.
  - intros y. unfold HSET. rewrite lookup_insert_eq. intros [= <-]. apply (ttl_kept _ (KPending x)).
  - unfold HSET. eapply rel_insert; [exact Hrel| |].
    + cbn [fst key_rel pending_rel]. unfold AddPendingLaunch. rewrite pending_upd.
      split; [rewrite map_app; apply NoDup_app; split_and!; [done|intros y Hy ->%list_elem_of_singleton; done|apply NoDup_singleton]|].
      rewrite Hh. symmetry. by apply by_id_snoc.
    + unfold AddPendingLaunch. frame_tac.
Qed.

Lemma remove_rel x id : live_at now r (KPending x) -> rel (r_RemovePendingLaunch now true x id r) (RemovePendingLaunch x id m).
Proof.
  intros Hl. unfold r_RemovePendingLaunch, cmd, HDEL. destruct (hash_get x Hl) as [Hh Hn]. rewrite Hh, <- lookup_by_id_filter by done.
  set (l := List.filter _ _).
  assert (GetPendingLaunches (RemovePendingLaunch x id m) x = l) as Hg.
  { apply pending_upd. }
  destruct (decide _) as [E|E].
  - apply (rel_delete _ m); [done| |unfold RemovePendingLaunch; frame_tac]. cbn. rewrite Hg.
    destruct l as [|p l']; [done|]. cbn in E. by apply insert_non_empty in E.
  - apply (rel_insert _ m); [done| |unfold RemovePendingLaunch; frame_tac]. cbn. rewrite Hg. split; [by apply filter_ids_nodup|done].
Qed.

Lemma set_fold x l :
  NoDup (map MachineID l) ->
  let k := key_text (KPending x) in
  fold_left (fun r p => HSET now k (MachineID p) p r) l (delete k r) =
  match l with [] => delete k r | _ => <[k := (RHash (list_to_map (by_id l)), None)]> r end.
Proof.
  intros Hn k. induction l as [|p l IH] using rev_ind; [done|]. rewrite map_app in Hn. apply NoDup_app in Hn as (Hl & Hp & _).
  rewrite fold_left_app. cbn [fold_left]. rewrite (IH Hl).
  assert (MachineID p ∉ map MachineID l) as Hp' by (intros Hin; apply (Hp _ Hin), list_elem_of_singleton; done).
  rewrite (by_id_snoc l p Hp'). unfold HSET, hash_of, ttl_of, GET. destruct l as [|q l].
  - rewrite lookup_delete_eq. cbn. by rewrite insert_delete_eq.
  - rewrite lookup_insert_eq. cbn [app live snd fst]. by rewrite insert_insert_eq.
Qed.

Lemma set_rel x l : NoDup (map MachineID l) -> rel (r_SetPendingLaunches now true true x l r) (SetPendingLaunches x l m).
Proof.
  intros Hn. unfold r_SetPendingLaunches, cmd, cmd2, DEL. rewrite (set_fold x l Hn). unfold SetPendingLaunches. destruct l as [|p l].
  - apply (rel_delete _ m); [done| |frame_tac]. cbn. by rewrite pending_upd.
  - apply EXPIRE_rel; [intros y; rewrite lookup_insert_eq; by intros [= <-]|].
    apply (rel_insert _ m); [done| |frame_tac]. cbn [fst key_rel pending_rel]. by rewrite pending_upd.
Qed.

(** *** Counters *)

Lemma incr_rel w d m' :
  live_at now r (KInFlight w) -> GetInFlight m' w = GetInFlight m w + d -> (forall k' v, k' <> KInFlight w -> key_rel m k' v -> key_rel m' k' v) ->
  rel (fst (INCRBY now (key_text (KInFlight w)) d r)) m'.
Proof.
  intros Hl E Hf. unfold INCRBY. rewrite GET_val by done. cbn [fst]. eapply rel_insert; [exact Hrel| |exact Hf]. cbn [fst key_rel].
  pose proof (keys (KInFlight w)) as H. cbn in H. unfold count_rel in *. rewrite E.
  destruct (val r (KInFlight w)) as [[]|]; try done; lia.
Qed.

Lemma incr_flight_rel w : live_at now r (KInFlight w) -> rel (r_IncrInFlight now true true w r) (IncrInFlight w m).
Proof.
  intros Hl. unfold r_IncrInFlight, cmd, cmd2. apply EXPIRE_rel.
  - intros y. unfold INCRBY. cbn [fst]. rewrite lookup_insert_eq. intros [= <-]. apply (ttl_kept _ (KInFlight w)).
  - apply incr_rel; [done| |unfold IncrInFlight; frame_tac]. unfold IncrInFlight, GetInFlight at 1, upd_inFlight. cbn. by rewrite lookup_insert_eq.
Qed.

Lemma decr_flight_rel w : live_at now r (KInFlight w) -> 1 <= GetInFlight m w -> rel (r_DecrInFlight now true w r) (DecrInFlight w m).
Proof.
  intros Hl Hn. unfold r_DecrInFlight, cmd. apply incr_rel; [done| |]; unfold DecrInFlight; destruct (_ <=? 0) eqn:E; bool_to_prop; try frame_tac;
    unfold GetInFlight at 1, upd_inFlight; cbn; rewrite ?lookup_delete_eq, ?lookup_insert_eq; cbn; lia.
Qed.

Lemma failures_rel x : live_at now r (KFail x) ->
  let '(r', n) := r_IncrCreationFailures now true true x r in let '(m', n') := IncrCreationFailures x m in rel r' m' /\ n = n'.
Proof.
  intros Hl. unfold r_IncrCreationFailures, cmd2, INCRBY, IncrCreationFailures. rewrite GET_val by done.
  pose proof (keys (KFail x)) as H. cbn in H. rewrite H. cbn. split; [|by destruct (createFailures m !! x)]. apply EXPIRE_rel.
  - intros y. rewrite lookup_insert_eq. intros [= <-]. apply (ttl_kept _ (KFail x)).
  - apply (rel_insert _ m); [done| |frame_tac]. cbn. rewrite lookup_insert_eq. by destruct (createFailures m !! x).
Qed.

(** *** Locks *)

(** The key that stands for an entry of the store in memory. *)
Definition lock_key (s : string) : key :=
  if decide (s = "__evacuation__") then KEvacuating else if decide (s = "__replacing__") then KReplacing else KMigrating s.

Lemma lock_key_rel m' s v : key_rel m' (lock_key s) v <-> lock_rel v m' s.
Proof. unfold lock_key. repeat case_decide; subst; cbn; naive_solver. Qed.

(** Another lock's name. *)
Lemma lock_other v s s' : s <> s' -> lock_rel v m s -> lock_rel v (fst (acquire s' m)) s /\ lock_rel v (release s' m) s.
Proof.
  unfold lock_rel. intros Hne ->. unfold acquire, release, upd_migrating. cbn. split; repeat case_decide; try done; set_solver.
Qed.

Lemma lock_self s : lock_rel (Some RLock) (fst (acquire s m)) s /\ lock_rel None (release s m) s.
Proof. unfold lock_rel, acquire, release, upd_migrating. cbn. split; case_decide; try done; set_solver. Qed.

Lemma lock_frame s k v : k <> lock_key s -> key_rel m k v -> key_rel (fst (acquire s m)) k v /\ key_rel (release s m) k v.
Proof.
  unfold lock_key. intros Hne H. destruct k; try done; cbn [key_rel] in *.
  2,3: apply lock_other; [|done]; intros <-; repeat case_decide; done.
  split; intros H1 H2; apply lock_other; auto; intros <-; by rewrite !decide_False in Hne.
Qed.

Lemma lock_step s ttl : live_at now r (lock_key s) ->
  let '(r', b) := lock now true (lock_key s) ttl r in rel r' (fst (acquire s m)) /\ b = snd (acquire s m).
Proof.
  intros Hl. unfold lock, SETNX. rewrite GET_val by done. pose proof (proj1 (lock_key_rel _ _ _) (keys (lock_key s))) as Hv.
  unfold lock_rel in Hv. destruct (decide (s ∈ migrating m)) as [Hin|Hin]; rewrite Hv.
  - split; [|cbn; symmetry; apply bool_decide_false; auto]. split; [|apply Hrel]. intros k'.
    destruct (decide (k' = lock_key s)) as [->|Hne]; [|exact (proj1 (lock_frame s k' _ Hne (keys k')))]. rewrite Hv. apply lock_key_rel, lock_self.
  - split; [|cbn; symmetry; by apply bool_decide_true].
    eapply rel_insert; [exact Hrel|apply lock_key_rel, lock_self|intros k v Hne H; exact (proj1 (lock_frame s k v Hne H))].
Qed.

Lemma unlock_step s : rel (unlock true (lock_key s) r) (release s m).
Proof. unfold unlock, cmd, DEL. eapply rel_delete; [exact Hrel|apply lock_key_rel, lock_self|intros k v Hne H; exact (proj2 (lock_frame s k v Hne H))]. Qed.

(** *** Drains *)

Lemma strip_spec p s id : strip p s = Some id <-> s = p +:+ id.
Proof.
  revert s; induction p as [|a p IH]; intros s; [cbn; split; [by intros [= ->]|by intros ->]|].
  destruct s as [|b s]; [done|]. cbn [strip]. change (String a p +:+ id) with (String a (p +:+ id)).
  destruct (Ascii.eqb_spec a b) as [->|Hne]; [rewrite IH; split; [by intros ->|by intros [= ->]]|split; [done|congruence]].
Qed.

Lemma drain_entry_spec kx id d :
  drain_entry now kx = Some (id, d) <-> exists e, kx = (drain_prefix +:+ id, (RDrain d, e)) /\ live now (RDrain d, e) = true.
Proof.
  destruct kx as [k x]. unfold drain_entry, fst, snd. split.
  - destruct (strip drain_prefix k) as [id'|] eqn:E; [|done]. apply strip_spec in E. destruct x as [[] e]; try done.
    destruct (live _ _) eqn:El; [|done]. intros [= -> ->]. exists e. by rewrite E.
  - intros (e & [= -> ->] & El). by rewrite (proj2 (strip_spec _ _ id) eq_refl), El.
Qed.

Lemma drain_entries_nodup l : NoDup l.*1 -> NoDup (omap (drain_entry now) l).
Proof.
  induction l as [|[k x] l IH]; intros Hn; [constructor|]. inversion_clear Hn as [|? ? Hk Hl]. specialize (IH Hl).
  cbn [omap list_omap]. destruct (drain_entry now (k, x)) as [[id d]|] eqn:E; [|done]. constructor; [|done]. intros Hin.
  apply list_elem_of_omap in Hin as (kx & Hin & E'). apply drain_entry_spec in E as (e & [= -> ->] & _), E' as (e' & -> & _).
  apply Hk, list_elem_of_fmap. exists (drain_prefix +:+ id, (RDrain d, e')). by split.
Qed.

Lemma drains_agree : (forall id, live_at now r (KDraining id)) -> AllDraining m ≡ₚ r_AllDraining now true r.
Proof.
  intros Hl. apply NoDup_Permutation; [apply NoDup_map_to_list|apply drain_entries_nodup, NoDup_fst_map_to_list|].
  intros [id d]. unfold r_AllDraining, AllDraining. rewrite elem_of_map_to_list, list_elem_of_omap.
  pose proof (keys (KDraining id)) as Hv. cbn [key_rel] in Hv. unfold val in Hv.
  change (key_text (KDraining id)) with (drain_prefix +:+ id) in Hv. split.
  - intros Hd. rewrite Hd in Hv. apply fmap_Some in Hv as ([v e] & Hr & Hx). cbn in Hx. subst v.
    exists (drain_prefix +:+ id, (RDrain d, e)). split; [by apply elem_of_map_to_list|]. apply drain_entry_spec. exists e. split; [done|by apply (Hl id)].
  - intros (kx & Hin & E). apply drain_entry_spec in E as (e & -> & _). apply elem_of_map_to_list in Hin. rewrite Hin in Hv.
    destruct (draining m !! id); [by injection Hv as ->|done].
Qed.

(** *** Times, drains and counts *)

Lemma get_time_agrees k x : live_at now r k -> val r k = RTime <$> x -> get_time now true k r = x.
Proof. intros Hl E. unfold get_time, get. rewrite GET_val, E by done. by destruct x. Qed.

Lemma get_int_agrees k x : live_at now r k -> val r k = RInt <$> x -> get_int now true k r = x.
Proof. intros Hl E. unfold get_int, get. rewrite GET_val, E by done. by destruct x. Qed.

Lemma in_flight_agrees w : live_at now r (KInFlight w) -> r_GetInFlight now true w r = GetInFlight m w.
Proof.
  intros Hl. unfold r_GetInFlight, get_int, get. rewrite GET_val by done. pose proof (keys (KInFlight w)) as H. cbn in H. unfold count_rel in H.
  by destruct (val r (KInFlight w)) as [[]|].
Qed.

Lemma draining_agrees id :
  live_at now r (KDraining id) -> r_GetDraining now true id r = GetDraining m id /\ r_IsDraining now true id r = IsDraining m id.
Proof.
  intros Hl. unfold r_GetDraining, r_IsDraining, GetDraining, IsDraining, get. rewrite GET_val by done. rewrite (keys (KDraining id)).
  by destruct (draining m !! id).
Qed.

Lemma reset_rel x : rel (r_ResetCreationFailures true true x r) (ResetCreationFailures x m).
Proof.
  unfold r_ResetCreationFailures, cmd, cmd2, DEL, ResetCreationFailures. apply (rel_delete _ (upd_createFailures (delete x) m)); [|cbn|frame_tac].
  - apply (rel_delete _ m); [done| |frame_tac]. cbn. by rewrite lookup_delete_eq.
  - by rewrite lookup_delete_eq.
Qed.

Lemma set_step k v ttl m' :
  key_rel m' k (Some v) -> (forall k' v, k' <> k -> key_rel m k' v -> key_rel m' k' v) -> rel (SET now (key_text k) v ttl r) m'.
Proof. intros Hk Hf. by eapply rel_insert. Qed.

Lemma backoff_agrees x : live_at now r (KBackoff x) ->
  answers_agree now (CGetBackoff x) (ATime (GetCreationBackoffUntil m now x)) (ATime (r_GetCreationBackoffUntil now true x r)).
Proof.
  intros Hl. unfold r_GetCreationBackoffUntil, GetCreationBackoffUntil, get_time, get. rewrite GET_val by done.
  pose proof (keys (KBackoff x)) as ->. destruct (createBackoff m !! x) as [t|]; [|done]. cbn.
  pose proof (Z.mod_pos_bound t second eq_refl). assert (whole_seconds t <= t) by (unfold whole_seconds; lia).
  destruct (t <? now) eqn:E1, (whole_seconds t <? now) eqn:E2; bool_to_prop; try done. lia.
Qed.

End Simulation.


(** ** Every call *)

(** What a step of the two stores must give. *)
Definition agree (now : Z) (c : call) (r : redis) (m : InMemoryScalerState) : Prop :=
  let '(r', a') := serve now c r in let '(m', a) := serve now c m in rel r' m' /\ answers_agree now c a a'.

(** The three acquisitions and releases. *)
Lemma lock_agrees now s k ttl r m :
  rel r m -> live_at now r k -> k = lock_key s ->
  let '(r', a') := (let '(r, b) := lock now true k ttl r in (r, AFlag b)) in
  let '(m', a) := (let '(m, b) := acquire s m in (m, AFlag b)) in rel r' m' /\ a = a'.
Proof.
  intros Hrel Hl ->. pose proof (lock_step now r m Hrel s ttl Hl) as H. destruct (lock _ _ _ _ _) as [r' b], (acquire s m) as [m' b']. cbn in H.
  by destruct H as [? ->].
Qed.

Lemma unlock_agrees s k r m : rel r m -> k = lock_key s -> rel (unlock true k r) (release s m).
Proof. intros Hrel ->. by apply unlock_step. Qed.

Lemma lock_key_sandbox s : (s <> "__evacuation__" /\ s <> "__replacing__")%string -> KMigrating s = lock_key s.
Proof. intros [H1 H2]. unfold lock_key. by rewrite !decide_False. Qed.

Ltac set_tac := split; [|done]; eapply set_step; [eassumption|cbn; by rewrite lookup_insert_eq|frame_tac].

Lemma serve_agrees now c r m : rel r m -> admissible now c r m -> agree now c r m.
Proof.
  intros Hrel [Hl Ha]. pose proof (rel_keys _ _ Hrel) as Hk. unfold agree. cbn [serve redis_store memory_store]. unfold serve_redis.
  destruct c; cbn [reads] in Hl; try (specialize (Hl _ eq_refl)); cbn [answers_agree].
  - split; [done|]. f_equal. symmetry. by apply get_time_agrees, (Hk (KScaleUp region)).
  - set_tac.
  - split; [done|]. by apply launches_agree.
  - split; [|done]. by apply add_rel.
  - split; [|done]. by apply remove_rel.
  - split; [|done]. by apply set_rel.
  - split; [done|]. f_equal. symmetry. by apply draining_agrees.
  - set_tac.
  - split; [|done]. eapply rel_delete; [done|cbn; by rewrite lookup_delete_eq|frame_tac].
  - split; [done|]. f_equal. symmetry. by apply draining_agrees.
  - split; [done|]. apply drains_agree; eauto.
  - split; [done|]. f_equal. symmetry. by apply get_time_agrees, (Hk (KEvacuation worker)).
  - set_tac.
  - by apply lock_agrees, lock_key_sandbox.
  - split; [|done]. by apply unlock_agrees, lock_key_sandbox.
  - by apply lock_agrees.
  - split; [|done]. by apply unlock_agrees.
  - by apply lock_agrees.
  - split; [|done]. by apply unlock_agrees.
  - split; [|done]. by apply incr_flight_rel.
  - split; [|done]. by apply decr_flight_rel.
  - split; [done|]. f_equal. symmetry. by apply in_flight_agrees.
  - split; [done|]. f_equal. symmetry. by apply get_int_agrees, (Hk (KCount region)).
  - set_tac.
  - pose proof (failures_rel now r m Hrel region Hl) as H. destruct (r_IncrCreationFailures _ _ _ _ _), (IncrCreationFailures _ _). by destruct H as [? ->].
  - split; [|done]. by apply reset_rel.
  - split; [done|]. by apply backoff_agrees.
  - set_tac.
Qed.

(** ** Histories *)

Fixpoint answers {S} `{ScalerStateStore S} (h : list (Z * call)) (s : S) : list answer :=
  match h with
  | [] => []
  | (now, c) :: h => let '(s, a) := serve now c s in a :: answers h s
  end.

Definition run_store {S} `{ScalerStateStore S} (h : list (Z * call)) (s : S) : S :=
  fold_left (fun s '(now, c) => fst (serve now c s)) h s.

(** Each call is admissible in the states it meets. *)
Definition admissible_history (h : list (Z * call)) : Prop :=
  forall h1 now c h2, h = h1 ++ (now, c) :: h2 -> admissible now c (run_store h1 empty_store) (run_store h1 empty_store).

Lemma rel_empty : rel empty_store empty_store.
Proof. split; [|intros s [x Hx]; done]. intros []; cbn; try done; by unfold lock_rel. Qed.

Lemma histories_agree h h0 :
  admissible_history (h0 ++ h) -> rel (run_store h0 empty_store) (run_store h0 empty_store) ->
  Forall3 (fun x a a' => answers_agree (fst x) (snd x) a a') h
    (answers h (run_store h0 empty_store : InMemoryScalerState)) (answers h (run_store h0 empty_store : redis)).
Proof.
  revert h0; induction h as [|[now c] h IH]; intros h0 Ha Hrel; cbn [answers]; [constructor|].
  pose proof (serve_agrees now c _ _ Hrel (Ha h0 now c h eq_refl)) as H. unfold agree in H.
  destruct (serve now c (run_store h0 empty_store : redis)) as [r' a'] eqn:Er, (serve now c (run_store h0 empty_store : InMemoryScalerState)) as [m' a] eqn:Em.
  destruct H as [H1 H2]. constructor; [done|]. specialize (IH (h0 ++ [(now, c)])). unfold run_store in IH, Er, Em. rewrite !fold_left_app in IH.
  cbn [fold_left] in IH. rewrite Er, Em in IH. cbn [fst] in IH. apply IH; [by rewrite <- app_assoc|done].
Qed.

(** C29. The two implementations of the scaler's store are interchangeable while Redis
    executes its commands, over any history of calls from empty stores in which a key is
    read only before it expires, an in-flight count is decremented only after an increment,
    a machine is added as pending once, and no sandbox has the name of a global lock: every
    answer of the Redis store is the one of the store in memory, with launches and drains in
    any order, but for the end of a backoff, which Redis keeps in whole seconds: its answer
    is the time truncated to the second, or none once that second is over. *)
Theorem redis_refines_memory h :
  admissible_history h ->
  Forall3 (fun x a a' => answers_agree (fst x) (snd x) a a') h
    (answers h (empty_store : InMemoryScalerState)) (answers h (empty_store : redis)).
Proof. intros Ha. apply (histories_agree h [] Ha rel_empty). Qed.

(** A history of one migration of each kind, in which the answers are compared. *)
Definition sample_history : list (Z * call) :=
  let p id := {| MachineID := id; LaunchedAt := 1 |} in
  [ (1, CTryReplacing); (2, CIncrInFlight "w1"); (3, CAddPending "eu" (p "m1")); (4, CAddPending "eu" (p "m2"));
    (5, CAcquireMigration "sb"); (6, CAcquireMigration "sb"); (7, CDecrInFlight "w1"); (8, CGetInFlight "w1");
    (9, CRemovePending "eu" "m1"); (10, CGetPending "eu"); (11, CReleaseReplacing); (31 * minute, CTryReplacing) ]%string.

Ltac live_tac :=
  let k := fresh in let x := fresh in let E := fresh in
  intros k E x; cbn [reads] in E; first [contradiction | subst k; vm_compute; intros [= <-]; reflexivity | subst k; vm_compute; discriminate].

Ltac adm_tac := first [exact I | vm_compute; done | apply (bool_decide_unpack _); vm_compute; exact I].

Lemma redis_refines_memory_witness :
  admissible_history sample_history /\
  Forall3 (fun x a a' => answers_agree (fst x) (snd x) a a') sample_history
    (answers sample_history (empty_store : InMemoryScalerState)) (answers sample_history (empty_store : redis)).
Proof.
  assert (admissible_history sample_history) as H.
  { intros h1 now c h2 E.
    repeat (destruct h1 as [|? h1]; [injection E as <- <- _; split; [live_tac|adm_tac]|injection E as <- E]).
    by destruct h1. }
  split; [exact H|apply (redis_refines_memory sample_history H)].
Defined.

(** ** Keys that expire under their holder *)

Lemma GET_expired now k v t r : t <= now -> GET now k (<[k := (v, Some t)]> r) = None.
Proof. intros H. unfold GET, live. rewrite lookup_insert_eq. cbn. by rewrite (proj2 (Z.ltb_ge now t)). Qed.

Lemma SETNX_free now k v ttl r : GET now k r = None -> SETNX now k v ttl r = (SET now k v ttl r, true).
Proof. unfold SETNX. by intros ->. Qed.

Lemma GET_deleted now k r : GET now k (delete k r) = None.
Proof. unfold GET. by rewrite lookup_delete_eq. Qed.

(** The replacing lock is taken a second time half an hour after the first, whether
    or not its holder is done; and a release, which does not say whose lock it
    drops, then drops the second holder's, so a third replacement starts. *)
Lemma replacing_lock_expires t0 t1 t2 t3 :
  t0 + 30 * minute <= t1 -> t1 <= t2 <= t3 ->
  answers [(t0, CTryReplacing); (t1, CTryReplacing); (t2, CReleaseReplacing); (t3, CTryReplacing)] (empty_store : redis) =
  [AFlag true; AFlag true; ADone; AFlag true].
Proof.
  intros H1 H2. cbn [answers serve redis_store serve_redis].
  unfold r_TryAcquireReplacingLock, r_ReleaseReplacingLock, lock, unlock, cmd, DEL.
  rewrite SETNX_free by done. unfold SET at 1. rewrite SETNX_free by by apply GET_expired. by rewrite SETNX_free by apply GET_deleted.
Qed.

Lemma INCRBY_fresh now k d r : GET now k r = None -> INCRBY now k d r = (<[k := (RInt d, None)]> r, d).
Proof.
  intros H. unfold INCRBY, ttl_of. rewrite H. unfold GET in H. destruct (r !! k) as [x|]; [destruct (live now x); [done|]|]; done.
Qed.

Lemma INCRBY_kept now k d n r : INCRBY now k d (<[k := (RInt n, None)]> r) = (<[k := (RInt (n + d), None)]> r, n + d).
Proof. unfold INCRBY, ttl_of, GET. rewrite lookup_insert_eq. cbn. by rewrite insert_insert_eq. Qed.

Lemma EXPIRE_kept now k v ttl r : EXPIRE now k ttl (<[k := (v, None)]> r) = <[k := (v, Some (now + ttl))]> r.
Proof. unfold EXPIRE, GET. rewrite lookup_insert_eq. cbn. by rewrite insert_insert_eq. Qed.

(** The count of migrations into a worker expires ten minutes after the last one
    began; the decrement that follows leaves the count at -1, for good: it has no
    expiry of its own, and the next migration is counted as none, so that the
    worker is picked for another at the same time. *)
Lemma in_flight_undercounts w t0 t1 t2 :
  t0 + 10 * minute <= t1 -> t1 <= t2 ->
  let h := [(t0, CIncrInFlight w); (t1, CDecrInFlight w); (t2, CIncrInFlight w); (t2, CGetInFlight w)] in
  answers h (empty_store : redis) = [ADone; ADone; ADone; AInt 0] /\
  answers h (empty_store : InMemoryScalerState) = [ADone; ADone; ADone; AInt 1].
Proof.
  intros H1 H2 h. split.
  - unfold h. cbn [answers serve redis_store serve_redis]. unfold r_IncrInFlight, r_DecrInFlight, r_GetInFlight, cmd, cmd2, get_int, get.
    rewrite (INCRBY_fresh t0) by done. cbn [fst]. rewrite (EXPIRE_kept t0), (INCRBY_fresh t1) by by apply GET_expired. cbn [fst].
    rewrite INCRBY_kept. cbn [fst]. rewrite EXPIRE_kept. unfold GET, live. rewrite lookup_insert_eq. cbn [snd fst].
    by rewrite (proj2 (Z.ltb_lt _ _)) by (unfold minute, second; lia).
  - unfold h. cbn [answers serve memory_store]. unfold GetInFlight, DecrInFlight, GetInFlight, IncrInFlight, upd_inFlight, GetInFlight. cbn.
    rewrite !lookup_insert_eq, lookup_empty. destruct (_ <=? 0) eqn:E; [|done]. cbn [inFlight]. by rewrite lookup_delete_eq.
Qed.

End RedisScalerFacts.
