(* ===== verification/QemuVm.v ===== *)
(** * The virtual machines of a worker

    src/internal/qemu: the manager's registry of VMs, the paused tier (pause.go,
    pool.go), destruction, resizing with its memory hotplug (manager.go), and the
    reapers (ghost_reaper.go, orphan_reaper.go). A [VMInstance] is an object of the
    worker's heap, named by its process, so that handlers which hold the object and
    handlers which go through the registry are told apart. Every QMP command, agent
    call, host command and access to the registry is a step of its own; handlers
    interleave between steps. Times are in nanoseconds. *)

From S2P Require Import Prelude Subnet SecretsProxy Threads.
#[local] Open Scope Z_scope.

Module QemuVm.
Export Threads.
#[local] Open Scope prog_scope.

(** ** State *)

(** [types.SandboxStatus], the two values a VM takes. *)
Inductive SandboxStatus := SandboxStatusRunning | SandboxStatusPaused.

#[export] Instance SandboxStatus_eq_dec : EqDecision SandboxStatus.
Proof. solve_decision. Defined.

(** [agent], [qmp]: the client is connected. [memoryReady]: a channel. [None] for a
    zero time. Sockets, ports of the host, the lease and
    the gate of a checkpoint restore are left out. *)
Record VMInstance := mkVM {
  ID : string;
  Template : string;
  Status : SandboxStatus;
  StartedAt : Z;
  CpuCount : Z;
  MemoryMB : Z;
  GuestPort : Z;
  pid : nat;
  network : option Subnet.NetworkConfig;
  agent : bool;
  qmp : bool;
  opMu : bool;
  memoryReady : option nat;
  baseMemoryMB : Z;
  virtioMemRequestedMB : Z;
  goldenVersion : string;
  merged : bool;
  incomingMigrationAt : option Z;
  pausedAt : option Z;
  billingSuppressed : bool
}.

#[export] Instance VMInstance_inhabited : Inhabited VMInstance :=
  populate (mkVM "" "" SandboxStatusRunning 0 0 0 0 0 None false false false None 0 0 "" false None None false).

Definition set_tier (st : SandboxStatus) (p : option Z) (b : bool) (v : VMInstance) : VMInstance :=
  mkVM (ID v) (Template v) st (StartedAt v) (CpuCount v) (MemoryMB v) (GuestPort v) (pid v) (network v) (agent v) (qmp v) (opMu v)
    (memoryReady v) (baseMemoryMB v) (virtioMemRequestedMB v) (goldenVersion v) (merged v) (incomingMigrationAt v) p b.
Definition set_memory (total requested : Z) (v : VMInstance) : VMInstance :=
  mkVM (ID v) (Template v) (Status v) (StartedAt v) (CpuCount v) total (GuestPort v) (pid v) (network v) (agent v) (qmp v) (opMu v)
    (memoryReady v) (baseMemoryMB v) requested (goldenVersion v) (merged v) (incomingMigrationAt v) (pausedAt v) (billingSuppressed v).
Definition set_ready (c : option nat) (v : VMInstance) : VMInstance :=
  mkVM (ID v) (Template v) (Status v) (StartedAt v) (CpuCount v) (MemoryMB v) (GuestPort v) (pid v) (network v) (agent v) (qmp v) (opMu v)
    c (baseMemoryMB v) (virtioMemRequestedMB v) (goldenVersion v) (merged v) (incomingMigrationAt v) (pausedAt v) (billingSuppressed v).
Definition set_clients (a q : bool) (v : VMInstance) : VMInstance :=
  mkVM (ID v) (Template v) (Status v) (StartedAt v) (CpuCount v) (MemoryMB v) (GuestPort v) (pid v) (network v) a q (opMu v)
    (memoryReady v) (baseMemoryMB v) (virtioMemRequestedMB v) (goldenVersion v) (merged v) (incomingMigrationAt v) (pausedAt v) (billingSuppressed v).
Definition set_opMu (b : bool) (v : VMInstance) : VMInstance :=
  mkVM (ID v) (Template v) (Status v) (StartedAt v) (CpuCount v) (MemoryMB v) (GuestPort v) (pid v) (network v) (agent v) (qmp v) b
    (memoryReady v) (baseMemoryMB v) (virtioMemRequestedMB v) (goldenVersion v) (merged v) (incomingMigrationAt v) (pausedAt v) (billingSuppressed v).
Definition set_incoming (t : option Z) (v : VMInstance) : VMInstance :=
  mkVM (ID v) (Template v) (Status v) (StartedAt v) (CpuCount v) (MemoryMB v) (GuestPort v) (pid v) (network v) (agent v) (qmp v) (opMu v)
    (memoryReady v) (baseMemoryMB v) (virtioMemRequestedMB v) (goldenVersion v) (merged v) t (pausedAt v) (billingSuppressed v).

(** A QEMU process of the host: the sandbox its command line names, when it was
    started, whether its vCPUs run, whether it is a zombie, and whether the guest's
    file systems are frozen. *)
Record proc := { p_sandbox : string; p_start : Z; p_vcpus : bool; p_zombie : bool; p_frozen : bool }.

(** The metadata files. [m_tap]: the TAP name of the saved network configuration. *)
Record SnapshotMeta := {
  m_tap : option string; m_GuestPort : Z; m_CpuCount : Z; m_MemoryMB : Z; m_BaseMemoryMB : Z; m_Template : string;
  m_GoldenVersion : string; m_merged : bool;
  m_SealedTokens : gmap string string; m_SealedNames : gmap string string;
  m_EgressAllowlist : list string; m_TokenHosts : gmap string (list string)
}.
Record SandboxMeta := { s_Template : string; s_CpuCount : Z; s_MemoryMB : Z; s_GuestPort : Z }.

(** A disk image: what it holds, and whether it holds a [savevm] snapshot. *)
Record image := { contents : string; savevm : bool }.

(** A sandbox directory. *)
Record dir := {
  rootfs_qcow2 : option image; rootfs_ext4 : option image; workspace_qcow2 : option image; workspace_ext4 : option image;
  snapshot_meta : option SnapshotMeta; sandbox_meta : option SandboxMeta
}.

(** A call of the billing observer: [sandbox.LifecycleObserver]. *)
Inductive hook :=
| OnSandboxScale (id : string) (memoryMB cpuCount startedAt : Z)
| OnSandboxDestroy (id : string) (memoryMB cpuCount startedAt : Z)
| OnSandboxHibernate (id : string) (memoryMB cpuCount startedAt : Z)
| OnSandboxWake (id : string).

(** [heap]: the VM objects; [dirs]: directories by path; [blobs]: the checkpoint
    store; [closed]: the channels that are closed; [watchers]: the hotplug watchers
    started, in order; [panicked]: a goroutine panicked and took the worker down. *)
Record world := mkW {
  vms : gmap string nat;
  heap : gmap nat VMInstance;
  procs : gmap nat proc;
  subnets : Subnet.SubnetAllocator;
  sessions : gmap string SecretsProxy.Session;
  dirs : gmap string dir;
  blobs : gmap string dir;
  hooks : list (Z * hook);
  fresh : nat;
  closed : gset nat;
  watchers : list (nat * Z);
  panicked : bool
}.

Definition init : world := mkW ∅ ∅ ∅ Subnet.NewSubnetAllocator ∅ ∅ ∅ [] 1 ∅ [] false.

Definition on_vms f w := mkW (f (vms w)) (heap w) (procs w) (subnets w) (sessions w) (dirs w) (blobs w) (hooks w) (fresh w) (closed w) (watchers w) (panicked w).
Definition on_heap f w := mkW (vms w) (f (heap w)) (procs w) (subnets w) (sessions w) (dirs w) (blobs w) (hooks w) (fresh w) (closed w) (watchers w) (panicked w).
Definition on_procs f w := mkW (vms w) (heap w) (f (procs w)) (subnets w) (sessions w) (dirs w) (blobs w) (hooks w) (fresh w) (closed w) (watchers w) (panicked w).
Definition on_subnets f w := mkW (vms w) (heap w) (procs w) (f (subnets w)) (sessions w) (dirs w) (blobs w) (hooks w) (fresh w) (closed w) (watchers w) (panicked w).
Definition on_sessions f w := mkW (vms w) (heap w) (procs w) (subnets w) (f (sessions w)) (dirs w) (blobs w) (hooks w) (fresh w) (closed w) (watchers w) (panicked w).
Definition on_dirs f w := mkW (vms w) (heap w) (procs w) (subnets w) (sessions w) (f (dirs w)) (blobs w) (hooks w) (fresh w) (closed w) (watchers w) (panicked w).
Definition on_blobs f w := mkW (vms w) (heap w) (procs w) (subnets w) (sessions w) (dirs w) (f (blobs w)) (hooks w) (fresh w) (closed w) (watchers w) (panicked w).
Definition on_hooks f w := mkW (vms w) (heap w) (procs w) (subnets w) (sessions w) (dirs w) (blobs w) (f (hooks w)) (fresh w) (closed w) (watchers w) (panicked w).
Definition on_fresh f w := mkW (vms w) (heap w) (procs w) (subnets w) (sessions w) (dirs w) (blobs w) (hooks w) (f (fresh w)) (closed w) (watchers w) (panicked w).
Definition on_closed f w := mkW (vms w) (heap w) (procs w) (subnets w) (sessions w) (dirs w) (blobs w) (hooks w) (fresh w) (f (closed w)) (watchers w) (panicked w).
Definition on_watchers f w := mkW (vms w) (heap w) (procs w) (subnets w) (sessions w) (dirs w) (blobs w) (hooks w) (fresh w) (closed w) (f (watchers w)) (panicked w).
Definition panic w := mkW (vms w) (heap w) (procs w) (subnets w) (sessions w) (dirs w) (blobs w) (hooks w) (fresh w) (closed w) (watchers w) true.

(** ** Steps *)

(** What the outside world answers to a step: whether the caller sees success,
    whether the command took effect, the time, and two numbers it returned. *)
Record input := { i_ok : bool; i_did : bool; i_now : Z; i_num : Z; i_num2 : Z }.

(** A command that is reported as failed has not taken effect. *)
Definition honest (i : input) : Prop := i_did i = i_ok i.
Definition any (i : input) : Prop := True.

Abbreviation program := (prog world input).

Definition ask : program bool := command (fun i w => (w, i_ok i)).
Definition time_now : program Z := command (fun i w => (w, i_now i)).
Definition read {A} (f : world -> A) : program A := command (fun _ w => (w, f w)).
Definition modify (f : world -> world) : program unit := command (fun _ w => (f w, tt)).
Definition set_vm (l : nat) (f : VMInstance -> VMInstance) : program unit := modify (on_heap (alter f l)).

(** A call whose failure is only logged, made if there is a client for it. *)
Definition best_effort (b : bool) : program unit := if b then do _ <- ask; Ret tt else Ret tt.

(** [getVM] *)
Definition getVM (id : string) : program (option nat) := read (fun w => vms w !! id).
Definition deref (l : nat) : program VMInstance := read (fun w => heap w !!! l).

(** [opMu.TryLock], and its release. There are no dangling pointers: the last case
    does not arise. *)
Definition TryLock (l : nat) : program bool :=
  command (fun _ w => (on_heap (alter (set_opMu true) l) w, match heap w !! l with Some v => negb (opMu v) | None => false end)).
Definition Unlock (l : nat) : program unit := set_vm l (set_opMu false).

(** [vm, err := m.getVM(id); vm.opMu.TryLock(); defer vm.opMu.Unlock()] *)
Definition locked {A} (id : string) (body : nat -> program (result string A)) : program (result string A) :=
  do o <- getVM id;
  match o with
  | None => Ret (Err "not found"%string)
  | Some l =>
      do got <- TryLock l;
      if got then do r <- body l; do _ <- Unlock l; Ret r
      else Ret (Err "another operation is in progress"%string)
  end.

(** A call of the billing observer with the VM's present size. *)
Definition notify (l : nat) (h : VMInstance -> hook) : program unit :=
  command (fun i w => (on_hooks (fun hs => hs ++ [(i_now i, h (heap w !!! l))]) w, tt)).
Definition hibernate_hook (v : VMInstance) : hook := OnSandboxHibernate (ID v) (MemoryMB v) (CpuCount v) (StartedAt v).
Definition destroy_hook (v : VMInstance) : hook := OnSandboxDestroy (ID v) (MemoryMB v) (CpuCount v) (StartedAt v).
Definition scale_hook (v : VMInstance) : hook := OnSandboxScale (ID v) (MemoryMB v) (CpuCount v) (StartedAt v).
Definition wake_hook (v : VMInstance) : hook := OnSandboxWake (ID v).

(** QMP [stop] and [cont], on the process of the VM. *)
Definition set_vcpus (b : bool) (p : proc) : proc :=
  {| p_sandbox := p_sandbox p; p_start := p_start p; p_vcpus := b; p_zombie := p_zombie p; p_frozen := p_frozen p |}.
Definition set_frozen (b : bool) (p : proc) : proc :=
  {| p_sandbox := p_sandbox p; p_start := p_start p; p_vcpus := p_vcpus p; p_zombie := p_zombie p; p_frozen := b |}.
Definition vcpus (b : bool) (l : nat) (w : world) : world := on_procs (alter (set_vcpus b) (pid (heap w !!! l))) w.
Definition qmp_vcpus (b : bool) (l : nat) : program bool := command (fun i w => (if i_did i then vcpus b l w else w, i_ok i)).
Definition Stop := qmp_vcpus false.
Definition Cont := qmp_vcpus true.

(** ** The paused tier *)

(** The pageout of the guest's memory, and the bytes advised; its failure is logged. *)
Definition reclaim : program Z := command (fun i w => (w, i_num i)).

(** [Manager.Pause] *)
Definition Pause (id : string) : program (result string Z) :=
  locked id (fun l =>
    do v <- deref l;
    match pausedAt v with
    | Some _ => Ret (Ok 0)
    | None =>
        if negb (qmp v) then Ret (Err "no QMP client"%string)
        else
          do ok <- Stop l;
          if negb ok then Ret (Err "qmp stop"%string)
          else
            do t <- time_now;
            do _ <- set_vm l (fun v => set_tier SandboxStatusPaused (Some t) (billingSuppressed v) v);
            do _ <- notify l hibernate_hook;
            do n <- reclaim;
            Ret (Ok n)
    end).

(** [Manager.Resume] *)
Definition Resume (id : string) : program (result string unit) :=
  locked id (fun l =>
    do v <- deref l;
    match pausedAt v with
    | None => Ret (Ok tt)
    | Some _ =>
        if negb (qmp v) then Ret (Err "no QMP client"%string)
        else
          do ok <- Cont l;
          if negb ok then Ret (Err "qmp cont"%string)
          else
            do _ <- set_vm l (set_tier SandboxStatusRunning None false);
            do _ <- best_effort (agent v);
            do _ <- notify l wake_hook;
            Ret (Ok tt)
    end).

(** [Manager.ResumeUnbilled] *)
Definition ResumeUnbilled (id : string) : program (result string unit) :=
  locked id (fun l =>
    do v <- deref l;
    if negb (qmp v) then Ret (Err "no QMP client"%string)
    else
      match pausedAt v with
      | Some _ =>
          do ok <- Cont l;
          if negb ok then Ret (Err "qmp cont"%string)
          else
            do _ <- set_vm l (fun v => set_tier (Status v) None (billingSuppressed v) v);
            do _ <- best_effort (agent v);
            do _ <- set_vm l (fun v => set_tier SandboxStatusRunning (pausedAt v) true v);
            Ret (Ok tt)
      | None =>
          do _ <- set_vm l (fun v => set_tier SandboxStatusRunning (pausedAt v) true v);
          Ret (Ok tt)
      end).

(** [Manager.SetBillingSuppressed]: without [opMu]. *)
Definition SetBillingSuppressed (id : string) : program (result string unit) :=
  do o <- getVM id;
  match o with
  | None => Ret (Err "not found"%string)
  | Some l => do _ <- set_vm l (fun v => set_tier (Status v) (pausedAt v) true v); Ret (Ok tt)
  end.

(** [Manager.RepauseAfterMigration] *)
Definition RepauseAfterMigration (id : string) : program (result string Z) :=
  locked id (fun l =>
    do v <- deref l;
    if negb (qmp v) then Ret (Err "no QMP client"%string)
    else
      do ok <- Stop l;
      if negb ok then Ret (Err "qmp stop"%string)
      else
        do t <- time_now;
        do _ <- set_vm l (set_tier SandboxStatusPaused (Some t) false);
        do n <- reclaim;
        Ret (Ok n)).

(** [Manager.ClaimPooled]: the semaphore and the prefetch of a paused box, then the
    new tier, then the calls that bind the customer, whose failures are logged. *)
Definition ClaimPooled (id : string) : program (result string unit) :=
  let bind_customer l :=
    do _ <- set_vm l (fun v => set_tier SandboxStatusRunning (pausedAt v) false v);
    do _ <- ask;
    do _ <- ask;
    Ret (Ok tt) in
  locked id (fun l =>
    do v <- deref l;
    if negb (qmp v) then Ret (Err "no QMP client"%string)
    else if negb (agent v) then Ret (Err "no agent client"%string)
    else
      match pausedAt v with
      | Some _ =>
          do slot <- ask;
          if negb slot then Ret (Err "context done"%string)
          else
            do _ <- ask;
            do ok <- Cont l;
            if negb ok then Ret (Err "qmp cont"%string)
            else
              do _ <- set_vm l (fun v => set_tier (Status v) None (billingSuppressed v) v);
              bind_customer l
      | None => bind_customer l
      end).

(** ** Destruction *)

(** The QEMU process exits, on its own or killed, and is waited for. *)
Definition kill_process (l : nat) : program unit := modify (fun w => on_procs (delete (pid (heap w !!! l))) w).

(** The TAP, its rules and its subnet. *)
Definition release_network (n : option Subnet.NetworkConfig) : program unit :=
  match n with
  | Some c => modify (on_subnets (fun a => Subnet.Release a (Subnet.TAPName c)))
  | None => Ret tt
  end.

Section Config.
Variable DataDir : string.

(** [filepath.Join(m.cfg.DataDir, "sandboxes", id)] *)
Definition sandbox_dir (id : string) : string := DataDir +:+ "/sandboxes/" +:+ id.

Definition RemoveAll (path : string) : program unit := modify (on_dirs (delete path)).

(** [Manager.destroyVM]; a running archive is waited for before the last step. *)
Definition destroyVM (l : nat) : program unit :=
  do v <- deref l;
  do _ <- best_effort (agent v);
  do _ <- best_effort (qmp v);
  do _ <- kill_process l;
  do _ <- release_network (network v);
  do _ <- notify l destroy_hook;
  RemoveAll (sandbox_dir (ID v)).

(** [Manager.Kill] *)
Definition Kill (id : string) : program (result string unit) :=
  do o <- command (fun _ w => (on_vms (delete id) w, vms w !! id));
  match o with
  | None => Ret (Err "not found"%string)
  | Some l => do _ <- destroyVM l; Ret (Ok tt)
  end.

(** ** The registry *)

(** [vmAlive]: the process is there and is not a zombie. *)
Definition vmAlive (w : world) (l : nat) : bool :=
  match procs w !! pid (heap w !!! l) with
  | Some p => negb (p_zombie p)
  | None => false
  end.

(** [Manager.List]: the VMs whose process runs. *)
Definition List_ (w : world) : list VMInstance :=
  map (fun l => heap w !!! l) (List.filter (vmAlive w) (map snd (map_to_list (vms w)))).

(** [Manager.IsSandboxAlive] *)
Definition IsSandboxAlive (w : world) (id : string) : bool :=
  match vms w !! id with Some l => vmAlive w l | None => false end.

(** [Manager.ActiveCount] *)
Definition ActiveCount (w : world) : nat :=
  length (List.filter (fun l => bool_decide (pausedAt (heap w !!! l) = None)) (map snd (map_to_list (vms w)))).

(** [Manager.totalCommittedMemoryMB] *)
Definition totalCommittedMemoryMB (w : world) : Z :=
  foldr (fun l acc => MemoryMB (heap w !!! l) + acc) 0 (map snd (map_to_list (vms w))).

(** ** Reapers *)

(** [Manager.reapDeadVMs], under the registry's lock. *)
Definition reapDeadVMs : program unit :=
  modify (fun w => on_vms (filter (fun kl => vmAlive w kl.2 = true)) w).

Definition staleIncomingTimeout : Z := 10 * 60 * 10 ^ 9.

(** [Manager.reapStaleIncomingMigrations]: the list under the lock, then one [Kill]
    after the other. *)
Definition stale_incoming (now : Z) (w : world) : list string :=
  map fst (List.filter (fun kl =>
    match incomingMigrationAt (heap w !!! kl.2) with
    | Some t => staleIncomingTimeout <? now - t
    | None => false
    end) (map_to_list (vms w))).

Definition reapStaleIncomingMigrations : program unit :=
  do now <- time_now;
  do stale <- read (stale_incoming now);
  for_each stale (fun id => do _ <- Kill id; Ret tt).

Definition orphanYoungProcessGrace : Z := 5 * 60 * 10 ^ 9.

(** [scanQEMUProcesses]: processes in the order of /proc; of two for one sandbox the
    first counts. *)
Definition scanQEMUProcesses (w : world) : list (string * (nat * Z)) :=
  fold_left (fun out '(n, p) => if existsb (fun x => String.eqb (fst x) (p_sandbox p)) out then out else out ++ [(p_sandbox p, (n, p_start p))])
    (map_to_list (procs w)) [].

(** [Manager.reapOrphans]: the scan, then the registry, then the processes that are
    not known and not young. [terminateAndWait] does not fail. *)
Definition reapOrphans : program unit :=
  do found <- read scanQEMUProcesses;
  match found with
  | [] => Ret tt
  | _ =>
      do known <- read (fun w => dom (vms w));
      do now <- time_now;
      for_each found (fun '(id, (n, start)) =>
        if bool_decide (id ∈ known) then Ret tt
        else if now - start <? orphanYoungProcessGrace then Ret tt
        else
          do _ <- modify (on_procs (delete n));
          RemoveAll (DataDir +:+ "/sandboxes/sandboxes/" +:+ id))
  end.

End Config.

(** ** Resizing *)

(** [getReadyVM]: waits for the hotplug gate, if there is one, for at most five
    seconds; [ask] answers no when the context ends first. *)
Definition getReadyVM (id : string) : program (result string nat) :=
  do o <- getVM id;
  match o with
  | None => Ret (Err "not found"%string)
  | Some l =>
      do ready <- read (fun w => match memoryReady (heap w !!! l) with Some c => bool_decide (c ∈ closed w) | None => true end);
      do ok <- (if ready : bool then Ret true else ask);
      if negb ok then Ret (Err "context done"%string)
      else
        do v <- deref l;
        if agent v then Ret (Ok l) else Ret (Err "agent not available"%string)
  end.

Definition virtioMemBlockSizeMB : Z := 128.

(** [alignVirtioMemBlock] *)
Definition alignVirtioMemBlock (mb : Z) : Z :=
  if mb <=? 0 then 0 else Z.quot (mb + virtioMemBlockSizeMB - 1) virtioMemBlockSizeMB * virtioMemBlockSizeMB.

Definition MiB : Z := 1024 * 1024.

(** The guard of a shrink: the guest's working set and five per cent. *)
Definition floorMB (memUsage : Z) : Z := Z.quot (Z.quot memUsage MiB * 105) 100.

(** [Manager.SetResourceLimits]; [i_num] of the statistics is the guest's memory in
    use in bytes, [i_num] and [i_num2] of the host's figures are its total and used
    memory in megabytes. *)
Definition shrink_guard (l : nat) (maxMemoryBytes : Z) : program (result string unit) :=
  do v <- deref l;
  if (0 <? maxMemoryBytes) && agent v && (Z.quot maxMemoryBytes MiB <? MemoryMB v) then
    do stats <- command (fun i w => (w, if i_ok i then Some (i_num i) else None));
    match stats with
    | None => Ret (Err "oom_floor: cannot verify guest working set"%string)
    | Some used =>
        if (0 <? used) && (Z.quot maxMemoryBytes MiB <? floorMB used) then Ret (Err "oom_floor"%string) else Ret (Ok tt)
    end
  else Ret (Ok tt).

(** QMP [qom-set] of the virtio-mem size, and the bookkeeping; a growth makes a new
    gate and starts a watcher for it. *)
Definition hotplug (l : nat) (additionalMB : Z) : program (result string unit) :=
  do ok <- ask;
  if negb ok then Ret (Err "insufficient_capacity: cannot hotplug"%string)
  else
    do _ <- modify (fun w =>
      let v := heap w !!! l in
      let w1 := on_heap (alter (fun v => set_memory (baseMemoryMB v + additionalMB) additionalMB v) l) w in
      if virtioMemRequestedMB v <? additionalMB then
        on_watchers (fun ws => ws ++ [(l, additionalMB)]) (on_fresh S (on_heap (alter (set_ready (Some (fresh w))) l) w1))
      else w1);
    Ret (Ok tt).

Definition adjust_memory (l : nat) (maxMemoryBytes : Z) : program (result string unit) :=
  do v <- deref l;
  if (0 <? maxMemoryBytes) && qmp v then
    let totalDesiredMB := Z.quot maxMemoryBytes MiB in
    let additionalMB := alignVirtioMemBlock (Z.max 0 (totalDesiredMB - baseMemoryMB v)) in
    do fits <-
      (if virtioMemRequestedMB v <? additionalMB then
         do host <- command (fun i w => (w, (i_num i, i_num2 i)));
         let '(hostTotalMB, hostUsedMB) := host in
         Ret (additionalMB - virtioMemRequestedMB v <=? hostTotalMB - hostUsedMB - Z.quot hostTotalMB 5)
       else Ret true);
    if negb fits then Ret (Err "insufficient_capacity"%string)
    else if additionalMB =? virtioMemRequestedMB v then Ret (Ok tt)
    else hotplug l additionalMB
  else Ret (Ok tt).

Definition SetResourceLimits (id : string) (maxMemoryBytes : Z) : program (result string unit) :=
  do r <- getReadyVM id;
  match r with
  | Err e => Ret (Err e)
  | Ok l =>
      do _ <- notify l scale_hook;
      do g <- shrink_guard l maxMemoryBytes;
      match g with
      | Err e => Ret (Err e)
      | Ok _ =>
          do a <- adjust_memory l maxMemoryBytes;
          match a with
          | Err e => Ret (Err e)
          | Ok _ => do ok <- ask; Ret (if ok then Ok tt else Err "agent"%string)
          end
      end
  end.

(** [watchMemoryHotplug]: polls the guest until enough memory is there, at most a
    hundred times in ten seconds, then closes the gate, reading the field anew each
    time it is mentioned. Closing a closed channel panics. *)
Fixpoint watch_loop (fuel : nat) (l : nat) (requiredTotalMB : Z) : program unit :=
  match fuel with
  | O => Ret tt
  | S fuel =>
      do v <- deref l;
      if negb (agent v) then Ret tt
      else
        do kB <- command (fun i w => (w, if i_ok i then i_num i else 0));
        if requiredTotalMB <=? Z.quot kB 1024 then Ret tt else watch_loop fuel l requiredTotalMB
  end.

Definition close_gate (l : nat) : program unit :=
  do c <- read (fun w => memoryReady (heap w !!! l));
  match c with
  | None => Ret tt
  | Some _ =>
      do shut <- read (fun w => match memoryReady (heap w !!! l) with Some c => bool_decide (c ∈ closed w) | None => false end);
      if shut : bool then Ret tt
      else
        modify (fun w =>
          match memoryReady (heap w !!! l) with
          | Some c => if bool_decide (c ∈ closed w) then panic w else on_closed (fun s => {[c]} ∪ s) w
          | None => panic w
          end)
  end.

Definition watchMemoryHotplug (l : nat) (targetAdditionalMB : Z) : program unit :=
  do base <- read (fun w => baseMemoryMB (heap w !!! l));
  do _ <- watch_loop 100 l (base + Z.min 1024 targetAdditionalMB);
  close_gate l.

End QemuVm.
