(* ===== verification/QemuSnapshot.v ===== *)
(** * Hibernation and wake on a worker

    src/internal/qemu/snapshot.go with [Hibernate] and [Wake] of manager.go: saving a
    VM into its own disks and an archive, restoring it from them, and the cold boots
    that recover from a restore that fails. The steps are those of QemuVm.v. *)

From Stdlib Require Import Ascii.
From S2P Require Import Prelude Subnet SecretsProxy Threads QemuVm.
#[local] Open Scope Z_scope.

Module QemuSnapshot.
Export QemuVm.
#[local] Open Scope prog_scope.

(** ** Disks *)

(** The drive [detectDrivePath] finds: the qcow2 file, or else the ext4 one. *)
Definition drive (qcow2 ext4 : option image) : option image := match qcow2 with Some i => Some i | None => ext4 end.
Definition rootfs (d : dir) : option image := drive (rootfs_qcow2 d) (rootfs_ext4 d).
Definition workspace (d : dir) : option image := drive (workspace_qcow2 d) (workspace_ext4 d).

Definition empty_dir : dir := {| rootfs_qcow2 := None; rootfs_ext4 := None; workspace_qcow2 := None; workspace_ext4 := None;
  snapshot_meta := None; sandbox_meta := None |}.

Definition set_rootfs (i : option image) (d : dir) : dir :=
  {| rootfs_qcow2 := i; rootfs_ext4 := rootfs_ext4 d; workspace_qcow2 := workspace_qcow2 d; workspace_ext4 := workspace_ext4 d;
     snapshot_meta := snapshot_meta d; sandbox_meta := sandbox_meta d |}.
Definition set_meta (m : SnapshotMeta) (d : dir) : dir :=
  {| rootfs_qcow2 := rootfs_qcow2 d; rootfs_ext4 := rootfs_ext4 d; workspace_qcow2 := workspace_qcow2 d; workspace_ext4 := workspace_ext4 d;
     snapshot_meta := Some m; sandbox_meta := sandbox_meta d |}.

(** [os.Remove] of the rootfs that [detectDrivePath] finds. *)
Definition remove_rootfs (d : dir) : dir :=
  match rootfs_qcow2 d with
  | Some _ => set_rootfs None d
  | None =>
      {| rootfs_qcow2 := None; rootfs_ext4 := None; workspace_qcow2 := workspace_qcow2 d; workspace_ext4 := workspace_ext4 d;
         snapshot_meta := snapshot_meta d; sandbox_meta := sandbox_meta d |}
  end.

Definition saved (b : bool) (i : image) : image := {| contents := contents i; savevm := b |}.

(** [savevm]: into every attached disk. *)
Definition save_disks (d : dir) : dir :=
  {| rootfs_qcow2 := saved true <$> rootfs_qcow2 d; rootfs_ext4 := rootfs_ext4 d; workspace_qcow2 := saved true <$> workspace_qcow2 d;
     workspace_ext4 := workspace_ext4 d; snapshot_meta := snapshot_meta d; sandbox_meta := sandbox_meta d |}.

(** What the archive of a hibernation holds: the drives and the snapshot metadata,
    not the creation metadata; the workspace only in the split layout. *)
Definition staged (merged : bool) (d : dir) : dir :=
  {| rootfs_qcow2 := rootfs_qcow2 d; rootfs_ext4 := (if rootfs_qcow2 d then None else rootfs_ext4 d);
     workspace_qcow2 := (if merged then None else workspace_qcow2 d);
     workspace_ext4 := (if merged then None else if workspace_qcow2 d then None else workspace_ext4 d);
     snapshot_meta := snapshot_meta d; sandbox_meta := None |}.

(** Extraction over what is there. *)
Definition extract (a d : dir) : dir :=
  {| rootfs_qcow2 := drive (rootfs_qcow2 a) (rootfs_qcow2 d); rootfs_ext4 := drive (rootfs_ext4 a) (rootfs_ext4 d);
     workspace_qcow2 := drive (workspace_qcow2 a) (workspace_qcow2 d); workspace_ext4 := drive (workspace_ext4 a) (workspace_ext4 d);
     snapshot_meta := match snapshot_meta a with Some m => Some m | None => snapshot_meta d end;
     sandbox_meta := match sandbox_meta a with Some m => Some m | None => sandbox_meta d end |}.

Section Config.
Variables DataDir golden : string.
Variables DefaultMemoryMB DefaultCPUs : Z.

(** The directory of a sandbox, as it is now. *)
Definition dir_of (w : world) (id : string) : option dir := dirs w !! sandbox_dir DataDir id.
Definition on_dir (id : string) (f : dir -> dir) : program unit := modify (on_dirs (alter f (sandbox_dir DataDir id))).

(** ** Hibernation *)

(** [prepareAgentForHibernate]: up to three attempts at a confirmed freeze; without
    one, an attempt to undo a partial freeze, and failure. What follows a freeze is
    best effort. *)
Fixpoint freeze (attempts : nat) (l : nat) : program bool :=
  match attempts with
  | O => do _ <- ask; Ret false
  | S n =>
      do ok <- command (fun i w => (if i_ok i then on_procs (alter (set_frozen true) (pid (heap w !!! l))) w else w, i_ok i));
      if ok : bool then Ret true else freeze n l
  end.

(** [quiesceAndCloseAgent] *)
Definition quiesceAndCloseAgent (l : nat) : program bool := freeze 3 l.

(** [fmt.Sprintf("checkpoints/%s/%d.tar.zst", id, epochSec)] *)
Definition checkpoint_key (id : string) (now : Z) : string :=
  "checkpoints/" +:+ id +:+ "/" +:+ str (itoa (Z.to_N (now / 10 ^ 9))) +:+ ".tar.zst".

Definition snapshot_of (v : VMInstance) (p : gmap string SecretsProxy.Session) : SnapshotMeta :=
  let session := network v ≫= fun n => p !! Subnet.GuestIP n in
  {| m_tap := Subnet.TAPName <$> network v; m_GuestPort := GuestPort v; m_CpuCount := CpuCount v; m_MemoryMB := MemoryMB v;
     m_BaseMemoryMB := baseMemoryMB v; m_Template := Template v; m_GoldenVersion := goldenVersion v; m_merged := merged v;
     m_SealedTokens := default ∅ (SecretsProxy.Secrets <$> session); m_SealedNames := default ∅ (SecretsProxy.Names <$> session);
     m_EgressAllowlist := default [] (SecretsProxy.Allowlist <$> session);
     m_TokenHosts := default ∅ (SecretsProxy.TokenHosts <$> session) |}.

(** [if ok then k else an error] *)
Definition or_fail {A} (e : string) (k : program (result string A)) : program (result string A) :=
  do ok <- ask; if ok then k else Ret (Err e).

(** From the confirmed stop to the saved snapshot. *)
Definition save_state (l : nat) (k : program (result string (string * dir))) : program (result string (string * dir)) :=
  do v <- deref l;
  if negb (qmp v) then Ret (Err "no QMP client"%string)
  else
    do stopped <- Stop l;
    if negb stopped then Ret (Err "qmp stop before savevm"%string)
    else
      do ok <- command (fun i w => (if i_ok i then on_dirs (alter save_disks (sandbox_dir DataDir (ID (heap w !!! l)))) w else w, i_ok i));
      if negb ok then
        do _ <- Cont l;
        do again <- ask;
        do _ <- set_vm l (fun v => set_clients (if again : bool then true else agent v) (qmp v) v);
        Ret (Err "savevm failed"%string)
      else k.

(** The process is gone; metadata, network, staging of the archive. The flattening of
    the staged rootfs, whose failure is only logged, is taken to succeed. *)
Definition finish_hibernate (l : nat) : program (result string (string * dir)) :=
  do _ <- set_vm l (fun v => set_clients (agent v) false v);
  do _ <- kill_process l;
  do v <- deref l;
  do m <- read (fun w => snapshot_of v (sessions w));
  or_fail "write snapshot meta"
    (do _ <- on_dir (ID v) (set_meta m);
     do _ <- release_network (network v);
     do t <- time_now;
     or_fail "mkdir archive-staging"
       (or_fail "copy for archive staging"
          (do d <- read (fun w => staged (merged v) (default empty_dir (dir_of w (ID v))));
           Ret (Ok (checkpoint_key (ID v) t, d))))).

(** [doHibernate] *)
Definition doHibernate (l : nat) : program (result string (string * dir)) :=
  do v <- deref l;
  let rest :=
    or_fail "mkdir snapshot dir"
      (if agent v then
         do quiet <- quiesceAndCloseAgent l;
         if negb quiet then Ret (Err "agent unresponsive"%string)
         else
           do _ <- set_vm l (fun v => set_clients false (qmp v) v);
           save_state l (finish_hibernate l)
       else save_state l (finish_hibernate l)) in
  if bool_decide (pausedAt v <> None) && qmp v then
    do ok <- Cont l;
    if negb ok then Ret (Err "un-pause before savevm"%string)
    else
      do _ <- set_vm l (fun v => set_tier (Status v) None (billingSuppressed v) v);
      rest
  else rest.

(** The archive and its upload, in the background. *)
Definition upload_archive (key : string) (d : dir) : program bool :=
  do archived <- ask;
  if negb archived then Ret false
  else command (fun i w => (if i_did i then on_blobs (insert key d) w else w, i_ok i)).

Definition rootfsRefuseThresholdPct : Z := 95.

(** [checkRootfsPressure]; [i_num], [i_num2]: used and total bytes. *)
Definition checkRootfsPressure (l : nat) : program bool :=
  do v <- deref l;
  if negb (agent v) then Ret true
  else command (fun i w => (w,
    if i_ok i && negb (i_num2 i =? 0) then Z.quot (i_num i * 100) (i_num2 i) <? rootfsRefuseThresholdPct else true)).

(** [Manager.Hibernate] *)
Definition Hibernate (id : string) : program (result string (string * dir)) :=
  do o <- getVM id;
  match o with
  | None => Ret (Err "not found"%string)
  | Some l =>
      do fine <- checkRootfsPressure l;
      if negb fine then Ret (Err "rootfs critical"%string)
      else
        do got <- TryLock l;
        if negb got then Ret (Err "another operation is in progress"%string)
        else
          do _ <- notify l hibernate_hook;
          do r <- doHibernate l;
          do _ <-
            (match r with
             | Err _ => modify (fun w => if vmAlive w l then w else on_vms (delete id) w)
             | Ok _ => modify (on_vms (delete id))
             end);
          do _ <- Unlock l;
          Ret r
  end.

(** ** Booting *)

(** [m.subnets.Allocate()]; the search always ends. *)
Definition Allocate : program (result string Subnet.NetworkConfig) :=
  command (fun _ w =>
    match Subnet.Allocate (subnets w) with
    | Some (r, a) => (on_subnets (fun _ => a) w, r)
    | None => (w, Err "subnet pool exhausted"%string)
    end).

Definition AllocateSpecific (tap : string) : program (result string Subnet.NetworkConfig) :=
  command (fun _ w => let '(r, a) := Subnet.AllocateSpecific (subnets w) tap in (on_subnets (fun _ => a) w, r)).

(** [cmd.Start]: a new process, named by a fresh number. [paused]: started with -S. *)
Definition start_qemu (id : string) (paused : bool) : program (option nat) :=
  command (fun i w =>
    if i_ok i then
      (on_fresh S (on_procs (insert (fresh w)
         {| p_sandbox := id; p_start := i_now i; p_vcpus := negb paused; p_zombie := false; p_frozen := false |}) w), Some (fresh w))
    else (w, None)).

Definition kill_pid (n : nat) : program unit := modify (on_procs (delete n)).

(** TAP, ports, rules, log file and process; each failure undoes what was done. *)
Definition boot {A} (id : string) (net : Subnet.NetworkConfig) (paused : bool) (k : nat -> program (result string A)) :
  program (result string A) :=
  let undo e := do _ <- release_network (Some net); Ret (Err e) in
  do tap <- ask;
  if negb tap then undo "create TAP"%string else
  do port <- ask;
  if negb port then undo "find free port"%string else
  do dnat <- ask;
  if negb dnat then undo "add DNAT"%string else
  do log <- ask;
  if negb log then undo "create log"%string else
  do p <- start_qemu id paused;
  match p with
  | None => undo "start qemu"%string
  | Some n => k n
  end.

(** [cmd.Process.Kill(); cmd.Wait(); m.cleanupVM(netCfg, "")] *)
Definition abort (n : nat) (net : Subnet.NetworkConfig) : program unit :=
  do _ <- kill_pid n; release_network (Some net).

(** The VM becomes an object and is registered. *)
Definition register (v : VMInstance) : program unit :=
  do _ <- modify (on_heap (insert (pid v) v));
  modify (on_vms (insert (ID v) (pid v))).

Definition port_or_80 (p : Z) : Z := if p =? 0 then 80 else p.
Definition positive_or (x default : Z) : Z := if x <=? 0 then default else x.

(** The configuration a cold boot uses: the creation metadata, or else the snapshot's. *)
Definition cold_config (d : dir) : result string SandboxMeta :=
  let template t := if (String.eqb t "" || String.eqb t "base") then "default" else t in
  match sandbox_meta d with
  | Some m => Ok {| s_Template := template (s_Template m); s_CpuCount := s_CpuCount m; s_MemoryMB := s_MemoryMB m; s_GuestPort := s_GuestPort m |}
  | None =>
      match snapshot_meta d with
      | Some m => Ok {| s_Template := template (m_Template m); s_CpuCount := m_CpuCount m; s_MemoryMB := m_MemoryMB m; s_GuestPort := m_GuestPort m |}
      | None => Err "read sandbox-meta.json"%string
      end
  end%string.

(** A rootfs made from a template's base image. *)
Definition template_rootfs (template : string) : image := {| contents := "template:" +:+ template; savevm := false |}.

(** From the network to a registered VM, of a cold boot. *)
Definition cold_start (id : string) (meta : SandboxMeta) (merged : bool) : program (result string nat) :=
  do net <- Allocate;
  match net with
  | Err e => Ret (Err e)
  | Ok net =>
      boot id net false (fun n =>
        do connected <- ask;
        if negb connected then do _ <- abort n net; Ret (Err "QMP connect"%string)
        else
          do t <- time_now;
          do ready <- ask;
          if negb ready then do _ <- abort n net; Ret (Err "agent not ready after cold boot"%string)
          else
            do _ <- ask;
            let mem := positive_or (s_MemoryMB meta) DefaultMemoryMB in
            do _ <- register (mkVM id (s_Template meta) SandboxStatusRunning t (positive_or (s_CpuCount meta) DefaultCPUs) mem
              (port_or_80 (s_GuestPort meta)) n (Some net) true true false None mem 0 golden merged None None false);
            Ret (Ok n))
  end.

(** [coldBootLocalInner] *)
Definition coldBootLocal (id : string) : program (result string nat) :=
  do d <- read (fun w => default empty_dir (dir_of w id));
  let merged := match snapshot_meta d with Some m => m_merged m | None => false end in
  if negb merged && bool_decide (workspace d = None) then Ret (Err "workspace not found"%string)
  else
    match cold_config d with
    | Err e => Ret (Err e)
    | Ok meta =>
        match rootfs d with
        | Some _ => cold_start id meta merged
        | None =>
            or_fail "resolve base image"
              (or_fail "prepare rootfs"
                 (do _ <- on_dir id (set_rootfs (Some (template_rootfs (s_Template meta)))); cold_start id meta merged))
        end
    end.

(** ** Wake *)

(** [verifyWakeIntegrity]: its probes, as one answer. *)
Definition verifyWakeIntegrity : program bool := ask.

(** The second stage of [recoverCorruptWake]: the rootfs is discarded and made anew
    from the template. *)
Definition rebuild_rootfs (id : string) : program (result string nat) :=
  do d <- read (fun w => default empty_dir (dir_of w id));
  match rootfs d with
  | Some _ => or_fail "remove corrupt rootfs" (do _ <- on_dir id remove_rootfs; coldBootLocal id)
  | None => coldBootLocal id
  end.

(** A first stage that booted but is not healthy is killed before the second. *)
Definition condemn (id : string) : program (result string nat) := do _ <- Kill DataDir id; rebuild_rootfs id.

(** [recoverCorruptWake] *)
Definition recoverCorruptWake (id : string) : program (result string nat) :=
  do r <- coldBootLocal id;
  match r with
  | Ok n =>
      do healthy <- verifyWakeIntegrity;
      if healthy then Ret (Ok n) else condemn id
  | Err _ => rebuild_rootfs id
  end.

(** The files of the sandbox, from the archive if they are not here. *)
Definition fetch (id key : string) (k : program (result string nat)) : program (result string nat) :=
  do d <- read (fun w => default empty_dir (dir_of w id));
  match rootfs d with
  | Some _ => k
  | None =>
      if SecretsProxy.HasPrefix key "local://" then coldBootLocal id
      else
        or_fail "mkdir sandbox dir"
          (do a <- command (fun i w => (w, if i_ok i then blobs w !! key else None));
           match a with
           | None => Ret (Err "download checkpoint"%string)
           | Some a =>
               or_fail "extract archive"
                 (do _ <- modify (on_dirs (insert (sandbox_dir DataDir id) (extract a d))); k)
           end)
  end.

(** The network of a wake: the subnet it had, or else a fresh one. *)
Definition wake_network (m : SnapshotMeta) : program (result string Subnet.NetworkConfig) :=
  match m_tap m with
  | Some tap =>
      if String.eqb tap "" then Allocate
      else
        do r <- AllocateSpecific tap;
        match r with Ok n => Ret (Ok n) | Err _ => Allocate end
  | None => Allocate
  end.

(** From the restored state to a registered VM. *)
Definition resume_restored (id : string) (m : SnapshotMeta) (net : Subnet.NetworkConfig) (n : nat) (baseMem plugged : Z) :
  program (result string nat) :=
  do running <- command (fun i w => (if i_did i then on_procs (alter (set_vcpus true) n) w else w, i_ok i));
  if negb running then do _ <- abort n net; Ret (Err "QMP cont"%string) else
  do ready <- ask;
  if negb ready then do _ <- abort n net; Ret (Err "agent not ready"%string) else
  do _ <- command (fun i w => (if i_did i then on_procs (alter (set_frozen false) n) w else w, tt));
  do healthy <- verifyWakeIntegrity;
  if negb healthy then do _ <- abort n net; recoverCorruptWake id else
  do _ <- ask;
  do _ <- command (fun i w =>
    (if negb (bool_decide (m_SealedTokens m = ∅)) || negb (bool_decide (m_EgressAllowlist m = [])) then
       on_sessions (fun p => SecretsProxy.ReregisterSession (i_now i) p id (Subnet.GuestIP net)
         (m_SealedTokens m) (m_EgressAllowlist m) (m_TokenHosts m) (m_SealedNames m)) w
     else w, tt));
  do t <- time_now;
  let requested := if baseMem <? m_MemoryMB m then m_MemoryMB m - baseMem else plugged in
  do _ <- register (mkVM id (m_Template m) SandboxStatusRunning t (m_CpuCount m) (baseMem + plugged)
    (port_or_80 (m_GuestPort m)) n (Some net) true true false None baseMem requested golden (m_merged m) None None false);
  Ret (Ok n).

(** The state is loaded, and its memory plugged, before the vCPUs run. *)
Definition restore (id : string) (m : SnapshotMeta) (net : Subnet.NetworkConfig) (n : nat) : program (result string nat) :=
  do connected <- ask;
  if negb connected then do _ <- abort n net; Ret (Err "QMP connect"%string) else
  do loaded <- command (fun i w =>
    let there := match dir_of w id ≫= rootfs with Some im => savevm im | None => false end in
    if i_ok i && there then (on_procs (alter (set_frozen true) n) w, true) else (w, false));
  if negb loaded then do _ <- abort n net; coldBootLocal id else
  let baseMem := positive_or (m_BaseMemoryMB m) DefaultMemoryMB in
  do plugged <-
    (if baseMem <? m_MemoryMB m then
       do ok <- ask;
       Ret (if ok : bool then alignVirtioMemBlock (m_MemoryMB m - baseMem) else 0)
     else Ret 0);
  resume_restored id m net n baseMem plugged.

(** From local files to a registered VM. *)
Definition wake_local (id : string) : program (result string nat) :=
  do d <- read (fun w => default empty_dir (dir_of w id));
  match snapshot_meta d with
  | None => Ret (Err "read snapshot meta"%string)
  | Some m =>
      if negb (m_merged m) && bool_decide (workspace d = None) then Ret (Err "workspace not found"%string)
      else
        do net <- wake_network m;
        match net with
        | Err e => Ret (Err e)
        | Ok net => boot id net true (restore id m net)
        end
  end.

(** [doWake] *)
Definition doWake (id key : string) : program (result string nat) := fetch id key (wake_local id).

(** [Manager.Wake]: one call; concurrent calls for a sandbox share its result. *)
Definition Wake (id key : string) : program (result string nat) :=
  do o <- getVM id;
  match o with
  | Some l => Ret (Ok l)
  | None =>
      do r <- doWake id key;
      match r with
      | Err e => Ret (Err e)
      | Ok n => do _ <- command (fun i w => (on_hooks (fun h => h ++ [(i_now i, OnSandboxWake id)]) w, tt)); Ret (Ok n)
      end
  end.

End Config.
End QemuSnapshot.
