(* ===== verification/QemuSnapshotFacts.v ===== *)
(** * Hibernation and wake: what they keep and what they leave behind

    A wake that fails leaves no process, subnet or registration behind, at any of
    its failure points; hibernation and wake restore the VM; and what the recovery
    from a corrupt restore does to the customer's files. *)

From S2P Require Import Prelude Subnet SecretsProxy Threads QemuVm QemuSnapshot.
#[local] Open Scope Z_scope.

Module QemuSnapshotFacts.
Export QemuSnapshot.

#[local] Opaque Subnet.Allocate.

(** ** Steps *)

Lemma wp_ask (Q : bool -> world -> Prop) w good : (forall b, Q b w) -> wp good ask Q w.
Proof. intros H i _. apply H. Qed.

Lemma wp_command {B} (f : input -> world -> world * B) (Q : B -> world -> Prop) w (good : input -> Prop) :
  (forall i, good i -> Q (snd (f i w)) (fst (f i w))) -> wp good (command f) Q w.
Proof. done. Qed.

Lemma wp_read {A} (f : world -> A) (Q : A -> world -> Prop) w good : Q (f w) w -> wp good (read f) Q w.
Proof. intros H i _. exact H. Qed.

Lemma wp_modify f (Q : unit -> world -> Prop) w good : Q tt (f w) -> wp good (modify f) Q w.
Proof. intros H i _. exact H. Qed.

Lemma wp_or_fail {A} e (k : program (result string A)) Q w good :
  Q (Err e) w -> wp good k Q w -> wp good (or_fail e k) Q w.
Proof. intros He Hk. unfold or_fail. apply wp_bind, wp_ask. by intros []. Qed.

Lemma wp_best_effort b (Q : unit -> world -> Prop) w good : Q tt w -> wp good (best_effort b) Q w.
Proof. intros H. unfold best_effort. destruct b; [|done]. apply wp_bind, wp_ask. by intros. Qed.

(** One step of a program in the goal. *)
Ltac wp_step :=
  match goal with
  | |- wp _ (Ret _) _ _ => cbn [wp]
  | |- wp _ (bind _ _) _ _ => apply wp_bind
  | |- wp _ ask _ _ => apply wp_ask; intros []; cbn [negb]
  | |- wp _ verifyWakeIntegrity _ _ => apply wp_ask; intros []; cbn [negb]
  | |- wp _ (read _) _ _ => apply wp_read
  | |- wp _ (deref _) _ _ => apply wp_read
  | |- wp _ (getVM _) _ _ => apply wp_read
  | |- wp _ (modify _) _ _ => apply wp_modify
  | |- wp _ (kill_pid _) _ _ => apply wp_modify
  | |- wp _ (kill_process _) _ _ => apply wp_modify
  | |- wp _ (on_dir _ _ _) _ _ => apply wp_modify
  | |- wp _ (set_vm _ _) _ _ => apply wp_modify
  | |- wp _ (Unlock _) _ _ => apply wp_modify
  | |- wp _ (RemoveAll _) _ _ => apply wp_modify
  | |- wp _ (best_effort _) _ _ => apply wp_best_effort
  | |- wp _ (release_network (Some _)) _ _ => apply wp_modify
  | |- wp _ (or_fail _ _) _ _ => apply wp_or_fail
  end.

(** ** What a wake allocates *)

Section Wake.
Variables DataDir golden : string.
Variables DefaultMemoryMB DefaultCPUs : Z.
Variable w0 : world.

(** Nothing is held beyond what [w0] held. *)
Record clean (w : world) : Prop := {
  c_vms : vms w = vms w0;
  c_procs : procs w = procs w0;
  c_used : Subnet.used (subnets w) = Subnet.used (subnets w0);
  c_sessions : sessions w = sessions w0;
  c_wf : Subnet.wf (subnets w);
  c_fresh : forall n, (fresh w <= n)%nat -> procs w0 !! n = None
}.

(** A subnet is held, for the configuration [net]. *)
Definition holds_subnet (net : Subnet.NetworkConfig) (w : world) : Prop :=
  exists b, Subnet.scan_tap (Subnet.TAPName net) = Some b /\ b ∉ Subnet.used (subnets w0) /\
    Subnet.used (subnets w) = {[ b ]} ∪ Subnet.used (subnets w0).

Record netted (net : Subnet.NetworkConfig) (w : world) : Prop := {
  n_vms : vms w = vms w0;
  n_wf : Subnet.wf (subnets w);
  n_block : holds_subnet net w
}.

Definition quiet (w : world) : Prop := sessions w = sessions w0.
Definition no_process (w : world) : Prop := procs w = procs w0 /\ forall n, (fresh w <= n)%nat -> procs w0 !! n = None.
Definition one_process (n : nat) (w : world) : Prop :=
  (exists p, p_zombie p = false /\ procs w = <[n := p]> (procs w0)) /\ procs w0 !! n = None /\
  forall k, (fresh w <= k)%nat -> procs w0 !! k = None /\ k <> n.

Lemma Release_wf a name : Subnet.wf a -> Subnet.wf (Subnet.Release a name).
Proof. apply (Subnet.exec_wf a (Subnet.CRelease name)). Qed.

Lemma Release_held net w : holds_subnet net w -> Subnet.used (Subnet.Release (subnets w) (Subnet.TAPName net)) = Subnet.used (subnets w0).
Proof. intros (b & Hb & Hn & Hu). unfold Subnet.Release. rewrite Hb. cbn. rewrite Hu. set_solver. Qed.

Lemma release_spec net w : netted net w -> no_process w -> quiet w -> wp any (release_network (Some net)) (fun _ => clean) w.
Proof.
  intros [Hv Hw Hb] [Hp Hf] Hq. apply wp_modify. split; cbn; try done; [by apply Release_held|by apply Release_wf].
Qed.

(** The result of an allocation. *)
Definition allocated (r : result string Subnet.NetworkConfig) (w : world) : Prop :=
  match r with Err _ => clean w | Ok net => netted net w /\ no_process w /\ quiet w end.

Lemma allocate_spec w : clean w -> wp any Allocate allocated w.
Proof.
  intros [Hv Hp Hu Hs Hw Hf]. apply wp_command. intros i _. cbv beta.
  destruct (Subnet.Allocate_spec (subnets w) Hw) as [->|(b & a' & -> & Hb & Hu' & Hw' & Hsc)]; cbn; [by split|].
  split; [|done]. split; cbn; try done. exists b. cbn. rewrite Hu', <- Hu. done.
Qed.

Lemma specific_spec tap w : clean w -> wp any (AllocateSpecific tap) allocated w.
Proof.
  intros [Hv Hp Hu Hs Hw Hf] i _. cbn [AllocateSpecific]. pose proof (Subnet.exec_wf _ (Subnet.CSpecific tap) Hw) as Hw'. cbn in Hw'.
  unfold Subnet.AllocateSpecific in *. destruct (Subnet.scan_tap tap) as [b|] eqn:E; cbn in *; [|by split].
  case_bool_decide as Hb; cbn; [by split|]. split; [|done]. split; cbn; try done. exists b. cbn. rewrite <- Hu. by rewrite E.
Qed.

(** ** Booting *)

(** How a wake ends: with nothing held, or with one new process, registered, that
    holds one new subnet. *)
Definition woken (id : string) (r : result string nat) (w : world) : Prop :=
  match r with
  | Err _ => clean w
  | Ok n =>
      one_process n w /\ vms w = <[id := n]> (vms w0) /\
      exists v net, heap w !! n = Some v /\ ID v = id /\ pid v = n /\ network v = Some net /\ Status v = SandboxStatusRunning /\
        pausedAt v = None /\ Subnet.wf (subnets w) /\ holds_subnet net w /\
        forall ip, ip <> Subnet.GuestIP net -> sessions w !! ip = sessions w0 !! ip
  end.

Definition woken_cold (id : string) (r : result string nat) (w : world) : Prop := woken id r w /\ quiet w.

Lemma clean_woken id e w : clean w -> woken_cold id (Err e) w.
Proof. intros Hc. split; [done|apply Hc]. Qed.

Lemma boot_spec {A} id net paused (k : nat -> program (result string A)) (Q : result string A -> world -> Prop) w :
  netted net w /\ no_process w /\ quiet w -> (forall e w, clean w -> Q (Err e) w) ->
  (forall n w, netted net w -> one_process n w -> quiet w -> wp any (k n) Q w) ->
  wp any (boot id net paused k) Q w.
Proof.
  intros (Hn & Hp & Hq) He Hk. unfold boot.
  assert (forall e, wp any (bind (release_network (Some net)) (fun _ => Ret (Err e))) Q w) as Hundo.
  { intros e. apply wp_bind. eapply wp_mono; [|by apply release_spec]. intros [] v Hv. by apply He. }
  do 4 (wp_step; wp_step; [|apply Hundo]). wp_step. apply wp_command. intros i _. destruct (i_ok i); cbn [fst snd]; [|apply Hundo].
  apply Hk; [by destruct Hn; split| |done].
  destruct Hp as [Hp Hf]. split_and!; cbn; [eexists; split; [|by rewrite Hp]; done|by apply Hf|].
  intros k' Hk'. split; [apply Hf; lia|lia].
Qed.

Lemma abort_spec {A} n net (k : program A) (Q : A -> world -> Prop) w :
  netted net w -> one_process n w -> quiet w -> (forall w, clean w -> wp any k Q w) -> wp any (bind (abort n net) (fun _ => k)) Q w.
Proof.
  intros Hn ((p & _ & Hp) & Hno & Hf) Hq HQ. apply wp_bind. unfold abort. apply wp_bind, wp_modify.
  eapply wp_mono; [|apply release_spec]; [intros [] v Hv; by apply HQ|destruct Hn; by split| |done].
  split; cbn; [|intros k' Hk; by apply Hf]. rewrite Hp. by apply delete_insert_id.
Qed.

Lemma register_spec v net n (Q : unit -> world -> Prop) w :
  netted net w -> one_process n w -> (forall ip, ip <> Subnet.GuestIP net -> sessions w !! ip = sessions w0 !! ip) ->
  pid v = n -> network v = Some net -> Status v = SandboxStatusRunning -> pausedAt v = None ->
  (forall w', sessions w' = sessions w -> woken (ID v) (Ok n) w' -> Q tt w') -> wp any (register v) Q w.
Proof.
  intros [Hv Hw Hb] Hp Hs Hn Hnet Hst Hpa HQ. apply wp_bind, wp_modify, wp_modify, HQ; [done|]. split_and!; [done|cbn; by rewrite Hv, Hn|].
  exists v, net. cbn. split_and!; try done. by rewrite Hn, lookup_insert_eq.
Qed.

Lemma cold_start_spec id meta m w :
  clean w -> wp any (cold_start golden DefaultMemoryMB DefaultCPUs id meta m) (woken_cold id) w.
Proof.
  intros Hc. unfold cold_start. wp_step. eapply wp_mono; [|by apply allocate_spec]. intros [net|e] w1; [|apply clean_woken]. intros Hn.
  apply boot_spec; [done|apply clean_woken|]. clear w1 Hn. intros n w1 Hn Hp Hq. do 2 wp_step; [|apply abort_spec; try done; apply clean_woken].
  wp_step. apply wp_command. intros i _. cbn [fst snd]. do 2 wp_step; [|apply abort_spec; try done; apply clean_woken].
  wp_step. apply wp_ask. intros _. wp_step. eapply register_spec; try done; [by rewrite Hq|]. intros w' Hs Hw. split; [done|]. unfold quiet. by rewrite Hs.
Qed.

Lemma cold_boot_spec id w :
  clean w -> wp any (coldBootLocal DataDir golden DefaultMemoryMB DefaultCPUs id) (woken_cold id) w.
Proof.
  intros Hc. unfold coldBootLocal. wp_step. wp_step. set (d := default _ _). case_match; [by apply clean_woken|].
  destruct (cold_config d) as [meta|e]; [|by apply clean_woken].
  destruct (rootfs d); [by apply cold_start_spec|]. do 2 (wp_step; [by apply clean_woken|]). do 2 wp_step. apply cold_start_spec. by destruct Hc.
Qed.

(** ** Recovery *)

Lemma Kill_spec id n w : vms w0 !! id = None -> woken_cold id (Ok n) w -> wp any (Kill DataDir id) (fun _ => clean) w.
Proof.
  intros Hid [(((p & _ & Hp) & Hno & Hf) & Hv & v & net & Hh & Hi & Hpid & Hn & _ & _ & Hw & Hb & _) Hq].
  unfold Kill. wp_step. apply wp_command. intros i _. cbn [fst snd]. rewrite Hv, lookup_insert_eq. wp_step. unfold destroyVM. do 2 wp_step.
  assert (heap w !!! n = v) as Hv' by (cbn; by apply lookup_total_correct). cbn [heap on_vms]. rewrite Hv'. rewrite Hn.
  do 9 wp_step. apply wp_command. intros i' _. cbn [fst snd]. wp_step. split; cbn; try done.
  - rewrite Hv. by apply delete_insert_id.
  - rewrite Hv', Hp. rewrite Hpid. by apply delete_insert_id.
  - by apply Release_held.
  - by apply Release_wf.
  - intros k Hk. by apply Hf.
Qed.

Lemma rebuild_spec id w : clean w -> wp any (rebuild_rootfs DataDir golden DefaultMemoryMB DefaultCPUs id) (woken_cold id) w.
Proof.
  intros Hc. unfold rebuild_rootfs. do 2 wp_step. destruct (rootfs _); [|by apply cold_boot_spec].
  wp_step; [by apply clean_woken|]. do 2 wp_step. apply cold_boot_spec. by destruct Hc.
Qed.

Lemma recover_spec id w :
  vms w0 !! id = None -> clean w -> wp any (recoverCorruptWake DataDir golden DefaultMemoryMB DefaultCPUs id) (woken_cold id) w.
Proof.
  intros Hid Hc. unfold recoverCorruptWake. wp_step. eapply wp_mono; [|by apply cold_boot_spec]. intros [n|e] w1 H1; [|apply rebuild_spec, H1].
  do 2 wp_step; [done|]. unfold condemn. wp_step. eapply wp_mono; [|by eapply Kill_spec]. intros r w2 Hc2. by apply rebuild_spec.
Qed.

(** ** Restoring *)

Lemma one_process_alter n f w : (forall p, p_zombie (f p) = p_zombie p) -> one_process n w -> one_process n (on_procs (alter f n) w).
Proof.
  intros Hf ((p & Hz & Hp) & Hr). split; [|done]. exists (f p). split; [by rewrite Hf|]. cbn. rewrite Hp. by rewrite alter_insert_eq.
Qed.

Lemma cold_woken id r w : woken_cold id r w -> woken id r w.
Proof. by intros [H _]. Qed.

Lemma abort_woken id e n net w :
  netted net w -> one_process n w -> quiet w -> wp any (bind (abort n net) (fun _ => Ret (Err e))) (woken id) w.
Proof. intros Hn Hp Hq. by apply abort_spec. Qed.

Lemma resume_spec id m net n baseMem plugged w :
  vms w0 !! id = None -> netted net w -> one_process n w -> quiet w ->
  wp any (resume_restored DataDir golden DefaultMemoryMB DefaultCPUs id m net n baseMem plugged) (woken id) w.
Proof.
  intros Hid Hn Hp Hq. unfold resume_restored. wp_step. apply wp_command. intros i _. cbn [fst snd].
  assert (forall (b : bool) f w, (forall p, p_zombie (f p) = p_zombie p) -> netted net w -> one_process n w -> quiet w ->
    let w' := if b then on_procs (alter f n) w else w in netted net w' /\ one_process n w' /\ quiet w') as Halter.
  { intros [] f v Hf Hn' Hp' Hq'; [|done]. split_and!; [by destruct Hn'|by apply one_process_alter|done]. }
  destruct (Halter (i_did i) (set_vcpus true) w (fun _ => eq_refl) Hn Hp Hq) as (Hn1 & Hp1 & Hq1). clear Hn Hp Hq.
  destruct (i_ok i); cbn [negb]; [|by apply abort_woken].
  do 2 wp_step; [|by apply abort_woken]. wp_step. apply wp_command. intros i2 _. cbn [fst snd].
  destruct (Halter (i_did i2) (set_frozen false) _ (fun _ => eq_refl) Hn1 Hp1 Hq1) as (Hn2 & Hp2 & Hq2). clear Hn1 Hp1 Hq1.
  do 2 wp_step; [|apply abort_spec; try done; intros v Hv; eapply wp_mono; [apply cold_woken|by apply recover_spec]].
  wp_step. apply wp_ask. intros _. wp_step. apply wp_command. intros i3 _. cbn [fst snd]. wp_step. apply wp_command. intros i4 _. cbn [fst snd].
  wp_step. destruct (negb (bool_decide (m_SealedTokens m = ∅)) || negb (bool_decide (m_EgressAllowlist m = []))).
  - eapply register_spec; try done; [by destruct Hn2|].
    intros ip Hip. cbn. unfold SecretsProxy.ReregisterSession. rewrite lookup_insert_ne by done. by rewrite Hq2.
  - eapply register_spec; try done. by rewrite Hq2.
Qed.

Lemma restore_spec id m net n w :
  vms w0 !! id = None -> netted net w -> one_process n w -> quiet w ->
  wp any (restore DataDir golden DefaultMemoryMB DefaultCPUs id m net n) (woken id) w.
Proof.
  intros Hid Hn Hp Hq. unfold restore. do 2 wp_step; [|by apply abort_woken]. wp_step. apply wp_command. intros i _. cbv beta zeta.
  destruct (i_ok i && _); cbn [fst snd negb].
  - set (w1 := on_procs _ w). assert (netted net w1 /\ one_process n w1 /\ quiet w1) as (Hn1 & Hp1 & Hq1)
      by (split_and!; [by destruct Hn|by apply one_process_alter|done]).
    wp_step. case_match; [do 2 wp_step|]; by apply resume_spec.
  - apply abort_spec; try done. intros v Hv. eapply wp_mono; [apply cold_woken|by apply cold_boot_spec].
Qed.

Lemma wake_network_spec m w : clean w -> wp any (wake_network m) allocated w.
Proof.
  intros Hc. unfold wake_network. destruct (m_tap m) as [tap|]; [|by apply allocate_spec]. destruct (String.eqb tap ""); [by apply allocate_spec|].
  wp_step. eapply wp_mono; [|by apply specific_spec]. intros [net|e] v Hv; [done|by apply allocate_spec].
Qed.

Lemma wake_local_spec id w :
  vms w0 !! id = None -> clean w -> wp any (wake_local DataDir golden DefaultMemoryMB DefaultCPUs id) (woken id) w.
Proof.
  intros Hid Hc. unfold wake_local. do 2 wp_step. destruct (snapshot_meta _) as [m|]; [|done]. case_match; [done|]. wp_step.
  eapply wp_mono; [|by apply wake_network_spec]. intros [net|e] v Hv; [|done]. apply boot_spec; [done|done|]. intros n v' Hn Hp Hq. by apply restore_spec.
Qed.

Lemma doWake_spec id key w :
  vms w0 !! id = None -> clean w -> wp any (doWake DataDir golden DefaultMemoryMB DefaultCPUs id key) (woken id) w.
Proof.
  intros Hid Hc. unfold doWake, fetch. do 2 wp_step. destruct (rootfs _); [by apply wake_local_spec|].
  case_match; [eapply wp_mono; [apply cold_woken|by apply cold_boot_spec]|]. wp_step; [done|]. wp_step. apply wp_command. intros i _. cbv beta.
  cbn [fst snd]. case_match; [|done]. wp_step; [done|]. do 2 wp_step. apply wake_local_spec; [done|by destruct Hc].
Qed.

Lemma Wake_spec id key :
  vms w0 !! id = None -> clean w0 -> wp any (Wake DataDir golden DefaultMemoryMB DefaultCPUs id key) (woken id) w0.
Proof.
  intros Hid Hc. unfold Wake. do 2 wp_step. rewrite Hid. wp_step. eapply wp_mono; [|by apply doWake_spec]. intros [n|e] w Hw; [|done].
  wp_step. apply wp_command. intros i _. exact Hw.
Qed.

End Wake.
(** Processes are numbered below the next one. *)
Definition numbered (w : world) : Prop := forall n, (fresh w <= n)%nat -> procs w !! n = None.

(** C12. A wake of a sandbox that is not registered either registers exactly one new
    running VM, with its own process and its own subnet, or fails and leaves nothing
    behind: whichever of its commands fail, and through every fallback to a cold
    boot, the registry, the processes of the host, the subnets in use and the
    sessions of the secrets proxy are as before. *)
Theorem wake_leaks_nothing DataDir golden DefaultMemoryMB DefaultCPUs id key s w :
  vms w !! id = None -> numbered w -> Subnet.wf (subnets w) ->
  let '(w', r) := run (Wake DataDir golden DefaultMemoryMB DefaultCPUs id key) s 0 w in
  match r with
  | Err _ => vms w' = vms w /\ procs w' = procs w /\ Subnet.used (subnets w') = Subnet.used (subnets w) /\ sessions w' = sessions w
  | Ok n =>
      vms w' = <[id := n]> (vms w) /\ procs w !! n = None /\ (exists p, p_zombie p = false /\ procs w' = <[n := p]> (procs w)) /\
      exists v net b, heap w' !! n = Some v /\ ID v = id /\ pid v = n /\ network v = Some net /\ Status v = SandboxStatusRunning /\
        Subnet.scan_tap (Subnet.TAPName net) = Some b /\ b ∉ Subnet.used (subnets w) /\
        Subnet.used (subnets w') = {[ b ]} ∪ Subnet.used (subnets w)
  end.
Proof.
  intros Hid Hf Hw.
  pose proof (wp_run any _ _ s 0 w (fun _ => I) (Wake_spec DataDir golden DefaultMemoryMB DefaultCPUs w id key Hid ltac:(by split))) as H.
  destruct (run _ s 0 w) as [w' [n|e]]; cbn in H; [|by destruct H].
  destruct H as ((Hp & Hn & _) & Hv & v & net & Hh & Hi & Hpid & Hnet & Hst & _ & _ & (b & Hb & Hnb & Hu) & _). split_and!; try done.
  by exists v, net, b.
Qed.

(** ** The customer's files *)

Section Files.
Variables DataDir golden : string.
Variables DefaultMemoryMB DefaultCPUs : Z.

#[local] Abbreviation coldBoot := (coldBootLocal DataDir golden DefaultMemoryMB DefaultCPUs).
#[local] Abbreviation dir_at := (dir_of DataDir).

(** A property of directories that only changes of directories touch. *)
Ltac dirs_tac := repeat first [wp_step | apply wp_command; intros ? _; cbn [fst snd] | case_match; cbn [negb]]; try done.

Lemma cold_start_dirs P id meta m w :
  P (dirs w) -> wp any (cold_start golden DefaultMemoryMB DefaultCPUs id meta m) (fun _ w => P (dirs w)) w.
Proof.
  intros HP. unfold cold_start, boot, abort, register, Allocate, start_qemu, kill_pid, release_network, time_now. dirs_tac.
Qed.

(** A cold boot changes no file, but for a rootfs it makes when there is none. *)
Lemma cold_boot_files id w :
  let d := default empty_dir (dir_at w id) in
  wp any (coldBoot id) (fun r w' =>
    match rootfs d, r with
    | Some _, _ => dirs w' = dirs w
    | None, Ok _ => exists t, dirs w' = alter (set_rootfs (Some (template_rootfs t))) (sandbox_dir DataDir id) (dirs w)
    | None, Err _ => True
    end) w.
Proof.
  intros d. unfold coldBootLocal. do 2 wp_step. fold d. destruct (rootfs d) as [im|] eqn:Er; (case_match; [done|]);
    (destruct (cold_config d) as [meta|e]; [|done]); cbn match.
  - eapply wp_mono; [|apply (cold_start_dirs (fun x => x = dirs w)); done]. done.
  - do 2 (wp_step; [done|]). do 2 wp_step. eapply wp_mono; [|eapply (cold_start_dirs (fun x => x = _)); done].
    intros [n|e] w' Hd; [exists (s_Template meta); exact Hd|done].
Qed.

(** The second stage of the recovery, on a sandbox whose rootfs is a qcow2 file: when
    it succeeds, the rootfs is made from the template and the workspace file stays. *)
Lemma rebuild_files id w d im :
  dir_at w id = Some d -> rootfs_qcow2 d = Some im -> rootfs_ext4 d = None ->
  wp any (rebuild_rootfs DataDir golden DefaultMemoryMB DefaultCPUs id) (fun r w' =>
    match r with
    | Ok _ => exists d' t, dir_at w' id = Some d' /\ rootfs d' = Some (template_rootfs t) /\ workspace d' = workspace d
    | Err _ => True
    end) w.
Proof.
  intros Hd Hr He. unfold rebuild_rootfs. do 2 wp_step. rewrite Hd. cbn [default from_option Datatypes.id]. unfold rootfs at 1. rewrite Hr. cbn [drive].
  wp_step; [done|]. do 2 wp_step. set (w1 := on_dirs _ w).
  assert (dir_at w1 id = Some (set_rootfs None d)) as Hd1.
  { unfold dir_of, w1. cbn. rewrite lookup_alter_eq. unfold dir_of in Hd. rewrite Hd. cbn. unfold remove_rootfs. by rewrite Hr. }
  eapply wp_mono; [|apply (cold_boot_files id w1)]. rewrite Hd1. cbn [default from_option Datatypes.id]. unfold rootfs at 1. cbn [rootfs_qcow2 rootfs_ext4 set_rootfs drive]. rewrite He.
  intros [n|e] w2 H2; [|done]. destruct H2 as [t H2]. eexists _, t. unfold dir_of in *. rewrite H2, lookup_alter_eq, Hd1. done.
Qed.

(** A sandbox of the merged layout keeps the customer's files on its only disk.
    The second stage of the recovery from a corrupt wake, which reports that the
    workspace is kept, replaces that disk by one made from the template: when it
    succeeds the sandbox runs on an empty disk. *)
Theorem merged_recovery_loses_files id s w d im :
  dir_at w id = Some d -> rootfs_qcow2 d = Some im -> rootfs_ext4 d = None -> workspace d = None ->
  let '(w', r) := run (rebuild_rootfs DataDir golden DefaultMemoryMB DefaultCPUs id) s 0 w in
  match r with
  | Ok _ => exists d' t, dir_at w' id = Some d' /\ rootfs d' = Some (template_rootfs t) /\ workspace d' = None
  | Err _ => True
  end.
Proof.
  intros Hd Hr He Hw. pose proof (wp_run any _ _ s 0 w (fun _ => I) (rebuild_files id w d im Hd Hr He)) as H.
  destruct (run _ s 0 w) as [w' [n|e]]; [|done]. cbn in H. by rewrite Hw in H.
Qed.

Lemma condemn_spec id n w :
  vms w !! id = Some n -> ID (heap w !!! n) = id ->
  wp any (condemn DataDir golden DefaultMemoryMB DefaultCPUs id) (fun r w' => r = Err "workspace not found"%string /\ dir_at w' id = None) w.
Proof.
  intros Hv Hi. unfold condemn. wp_step. unfold Kill. wp_step. apply wp_command. intros i _. cbn [fst snd]. rewrite Hv. wp_step. unfold destroyVM.
  do 2 wp_step. cbn [heap on_vms]. rewrite Hi. do 6 wp_step.
  assert (forall net Q w1, (forall w2, dirs w2 = dirs w1 -> heap w2 = heap w1 -> Q tt w2) -> wp any (release_network net) Q w1) as Hrel.
  { intros [c|] Q w1 HQ; [apply wp_modify; by apply HQ|by apply HQ]. }
  apply wp_bind, Hrel. intros w2 Hd2 Hh2. wp_step. apply wp_command. intros i2 _. cbn [fst snd]. wp_step. wp_step.
  unfold rebuild_rootfs. do 2 wp_step.
  assert (forall x, dirs x = delete (sandbox_dir DataDir id) (dirs w2) -> dir_at x id = None) as Hnone.
  { intros x Hx. unfold dir_of. rewrite Hx. by rewrite lookup_delete_eq. }
  rewrite Hnone by done. cbn [default from_option rootfs drive rootfs_qcow2 rootfs_ext4 empty_dir]. unfold coldBootLocal. do 2 wp_step. rewrite Hnone by done. cbn. split; [done|]. by apply Hnone.
Qed.

(** The recovery from a corrupt wake destroys the customer's files when it needs
    its second stage: if the cold boot of the first stage comes up but its probe
    fails, the VM is killed, which removes the sandbox's directory with both disks;
    the second stage then finds no workspace, whatever is answered, and the recovery
    fails with the directory gone. *)
Theorem recovery_deletes_files id s w n :
  vms w !! id = None -> numbered w -> Subnet.wf (subnets w) ->
  snd (run (coldBoot id) s 0 w) = Ok n -> i_ok (s (consumed (coldBoot id) s 0 w)) = false ->
  let '(w', r) := run (recoverCorruptWake DataDir golden DefaultMemoryMB DefaultCPUs id) s 0 w in
  r = Err "workspace not found"%string /\ dir_at w' id = None.
Proof.
  intros Hid Hf Hw Hok Hbad. unfold recoverCorruptWake. rewrite run_seq.
  pose proof (wp_run any _ _ s 0 w (fun _ => I) (cold_boot_spec DataDir golden DefaultMemoryMB DefaultCPUs w id w ltac:(by split))) as H.
  destruct (run (coldBoot id) s 0 w) as [w1 r1]. cbn [snd fst] in *. subst r1. destruct H as [(_ & Hv & v & net & Hh & Hi & _) _].
  unfold verifyWakeIntegrity, ask. rewrite run_seq. cbn [run command consumed fst snd]. rewrite Hbad.
  match goal with |- context [run ?p s ?k w1] => pose proof (wp_run any p _ s k w1 (fun _ => I) (condemn_spec id n w1 ltac:(by rewrite Hv, lookup_insert_eq)
    ltac:(by rewrite (lookup_total_correct _ _ _ Hh)))) as H; destruct (run p s k w1) as [w' r] end. exact H.
Qed.

End Files.
(** ** Concrete sandboxes *)

Definition image_of (c : string) : image := {| contents := c; savevm := true |}.
Definition meta_of (m : bool) : SnapshotMeta :=
  {| m_tap := Some "qm-tap0000003"%string; m_GuestPort := 80; m_CpuCount := 2; m_MemoryMB := 4096; m_BaseMemoryMB := 1024;
     m_Template := "default"; m_GoldenVersion := "g1"; m_merged := m; m_SealedTokens := ∅; m_SealedNames := ∅; m_EgressAllowlist := [];
     m_TokenHosts := ∅ |}%string.
Definition split_dir : dir :=
  {| rootfs_qcow2 := Some (image_of "packages"); rootfs_ext4 := None; workspace_qcow2 := Some (image_of "files"); workspace_ext4 := None;
     snapshot_meta := Some (meta_of false); sandbox_meta := None |}.
Definition merged_dir : dir :=
  {| rootfs_qcow2 := Some (image_of "files"); rootfs_ext4 := None; workspace_qcow2 := None; workspace_ext4 := None;
     snapshot_meta := Some (meta_of true); sandbox_meta := None |}.
Definition hibernated (d : dir) : world := on_dirs (insert (sandbox_dir "/data" "sb-1") d) init.

Definition yes : input := {| i_ok := true; i_did := true; i_now := 0; i_num := 0; i_num2 := 0 |}.
Definition no : input := {| i_ok := false; i_did := false; i_now := 0; i_num := 0; i_num2 := 0 |}.
(** Every command succeeds but the [k]-th. *)
Definition but (k : nat) (n : nat) : input := if Nat.eqb n k then no else yes.

#[local] Transparent Subnet.Allocate.

Lemma wake_leaks_nothing_witness :
  let w := hibernated split_dir in
  snd (run (Wake "/data" "g1" 1024 1 "sb-1" "k") (fun _ => yes) 0 w) = Ok 1%nat /\
  match run (Wake "/data" "g1" 1024 1 "sb-1" "k") (but 9) 0 w with
  | (w', Err _) => procs w' = procs w /\ Subnet.used (subnets w') = Subnet.used (subnets w)
  | _ => False
  end.
Proof.
  intros w. split; [vm_compute; reflexivity|].
  pose proof (wake_leaks_nothing "/data" "g1" 1024 1 "sb-1" "k" (but 9) w eq_refl ltac:(done) ltac:(vm_compute; split; discriminate)) as H.
  assert (exists e, snd (run (Wake "/data" "g1" 1024 1 "sb-1" "k") (but 9) 0 w) = Err e) as [e E] by (eexists; vm_compute; reflexivity).
  destruct (run _ (but 9) 0 w) as [w' r]. cbn in E. subst r. split; apply H.
Defined.

Lemma merged_recovery_loses_files_witness :
  let w := hibernated merged_dir in
  let '(w', r) := run (rebuild_rootfs "/data" "g1" 1024 1 "sb-1") (fun _ => yes) 0 w in
  r = Ok 1%nat /\ exists d' t, dir_of "/data" w' "sb-1" = Some d' /\ rootfs d' = Some (template_rootfs t) /\ workspace d' = None.
Proof.
  intros w. pose proof (merged_recovery_loses_files "/data" "g1" 1024 1 "sb-1" (fun _ => yes) w merged_dir (image_of "files") ltac:(vm_compute; reflexivity)
    eq_refl eq_refl eq_refl) as H.
  assert (snd (run (rebuild_rootfs "/data" "g1" 1024 1 "sb-1") (fun _ => yes) 0 w) = Ok 1%nat) as E by (vm_compute; reflexivity).
  destruct (run _ (fun _ => yes) 0 w) as [w' r]. cbn in E. subst r. split; [done|exact H].
Defined.

Lemma recovery_deletes_files_witness :
  let w := hibernated split_dir in
  dir_of "/data" w "sb-1" = Some split_dir /\
  let '(w', r) := run (recoverCorruptWake "/data" "g1" 1024 1 "sb-1") (but 13) 0 w in
  r = Err "workspace not found"%string /\ dir_of "/data" w' "sb-1" = None.
Proof.
  intros w. split; [vm_compute; reflexivity|].
  apply (recovery_deletes_files "/data" "g1" 1024 1 "sb-1" (but 13) w 1%nat eq_refl ltac:(done) ltac:(vm_compute; split; discriminate));
    vm_compute; reflexivity.
Defined.

(** A wake whose memory could not be plugged records the memory as requested: asking
    for the size the sandbox had succeeds and plugs nothing. *)
Lemma failed_plug_is_not_retried :
  let '(w, r) := run (bind (Wake "/data" "g1" 1024 1 "sb-1" "k") (fun _ => SetResourceLimits "sb-1" (4096 * MiB))) (but 11) 0 (hibernated split_dir) in
  r = Ok tt /\ MemoryMB (heap w !!! 1%nat) = 1024 /\ virtioMemRequestedMB (heap w !!! 1%nat) = 3072.
Proof. vm_compute. done. Qed.

(** A kill leaves the session of the secrets proxy behind, with its secrets, while it
    gives the guest's address back to the pool. *)
Lemma killed_session_remains DataDir id w : wp any (Kill DataDir id) (fun _ w' => sessions w' = sessions w) w.
Proof.
  unfold Kill. wp_step. apply wp_command. intros i _. cbn [fst snd]. destruct (vms w !! id) as [l|]; [|done]. wp_step. unfold destroyVM.
  do 9 wp_step. destruct (network _) as [n|]; cbn [release_network];
    repeat first [wp_step | progress cbn [wp] | apply wp_command; intros ? _; cbn [fst snd]]; done.
Qed.

(** A running sandbox. *)
Definition running : world := fst (run (Wake "/data" "g1" 1024 1 "sb-1" "k") (fun _ => yes) 0 (hibernated split_dir)).

Definition guest (w : world) (id : string) : option (SandboxStatus * option Z * option proc) :=
  l ← vms w !! id; let v := heap w !!! l in Some (Status v, pausedAt v, procs w !! pid v).

(** A hibernation that fails at [savevm] resumes the guest but not its file systems:
    they stay frozen. *)
Lemma failed_savevm_stays_frozen :
  let '(w, r) := run (Hibernate "/data" "sb-1") (but 11) 0 running in
  r = Err "savevm failed"%string /\
  guest w "sb-1" = Some (SandboxStatusRunning, None, Some {| p_sandbox := "sb-1"; p_start := 0; p_vcpus := true; p_zombie := false; p_frozen := true |}).
Proof. vm_compute. done. Qed.

End QemuSnapshotFacts.
