(* ===== verification/QemuRoundtrip.v ===== *)
(** * Hibernation and wake restore the VM

    When every command succeeds, a VM that is hibernated and woken on its worker has
    the same sizes, disks, network and sealed secrets as before, runs, and its file
    systems are thawed. *)

From S2P Require Import Prelude Subnet SecretsProxy Threads QemuVm QemuSnapshot QemuSnapshotFacts.
#[local] Open Scope Z_scope.

Module QemuRoundtrip.
Export QemuSnapshotFacts.

#[local] Opaque Subnet.Allocate.

(** Commands succeed, and the guest's disk is not full. *)
Definition calm (i : input) : Prop := i_ok i = true /\ i_did i = true /\ Z.quot (i_num i * 100) (i_num2 i) < rootfsRefuseThresholdPct.

Lemma calm_ask (Q : bool -> world -> Prop) w : Q true w -> wp calm ask Q w.
Proof. intros H i (Hi & _). cbn. by rewrite Hi. Qed.

Lemma calm_or_fail {A} e (k : program (result string A)) Q w : wp calm k Q w -> wp calm (or_fail e k) Q w.
Proof. intros H. unfold or_fail. apply wp_bind, calm_ask, H. Qed.

Ltac calm_step :=
  lazymatch goal with
  | |- wp _ (Ret _) _ _ => cbn [wp]
  | |- wp _ (bind _ _) _ _ => apply wp_bind
  | |- wp _ ask _ _ => apply calm_ask; cbn [negb]
  | |- wp _ verifyWakeIntegrity _ _ => apply calm_ask; cbn [negb]
  | |- wp _ (or_fail _ _) _ _ => apply calm_or_fail
  | |- wp _ (best_effort _) _ _ => apply wp_best_effort
  | |- wp _ (read _) _ _ => apply wp_read
  | |- wp _ (deref _) _ _ => apply wp_read
  | |- wp _ (getVM _) _ _ => apply wp_read
  | |- wp _ (modify _) _ _ => apply wp_modify
  | |- wp _ (set_vm _ _) _ _ => apply wp_modify
  | |- wp _ (kill_process _) _ _ => apply wp_modify
  | |- wp _ (on_dir _ _ _) _ _ => apply wp_modify
  | |- wp _ (Unlock _) _ _ => apply wp_modify
  | |- wp _ (release_network (Some _)) _ _ => apply wp_modify
  | |- wp _ (command _) _ _ => apply wp_command; intros ? (? & ? & ?); cbv beta zeta
  end.

(** Facts about one object of the heap, as it is updated. *)
Lemma deref_alter n f (h : gmap nat VMInstance) v : h !! n = Some v -> alter f n h !! n = Some (f v).
Proof. intros H. by rewrite lookup_alter_eq, H. Qed.

Section Roundtrip.
Variables DataDir golden : string.
Variables DefaultMemoryMB DefaultCPUs : Z.
#[local] Abbreviation path := (sandbox_dir DataDir).

(** ** Hibernation *)

Section Hibernation.
Variables (w : world) (n : nat) (v : VMInstance) (d : dir) (net : Subnet.NetworkConfig).

(** A VM of the worker: registered, idle, connected, on a network, with a directory. *)
Record settled : Prop := {
  s_vms : vms w !! ID v = Some n;
  s_heap : heap w !! n = Some v;
  s_pid : pid v = n;
  s_idle : opMu v = false;
  s_agent : agent v = true;
  s_qmp : qmp v = true;
  s_network : network v = Some net;
  s_dirs : dirs w !! path (ID v) = Some d
}.

(** What the hibernation leaves in the directory. *)
Definition slept_dir : dir := set_meta (snapshot_of v (sessions w)) (save_disks d).

(** The worker after the hibernation. *)
Record asleep (x : world) : Prop := {
  a_vms : vms x = delete (ID v) (vms w);
  a_dirs : dirs x = <[path (ID v) := slept_dir]> (dirs w);
  a_procs : procs x = delete n (procs w);
  a_subnets : subnets x = Subnet.Release (subnets w) (Subnet.TAPName net);
  a_sessions : sessions x = sessions w
}.

(** Midway: only the object, its process and its directory have changed. *)
Record going (u : VMInstance) (e : dir) (x : world) : Prop := {
  g_vms : vms x = vms w;
  g_heap : heap x !! n = Some u;
  g_dirs : dirs x = <[path (ID v) := e]> (dirs w);
  g_procs : delete n (procs x) = delete n (procs w);
  g_subnets : subnets x = subnets w;
  g_sessions : sessions x = sessions w
}.

(** [u] is [v] but for its tier, its clients and its lock. *)
Definition same_vm (u : VMInstance) : Prop :=
  pid u = n /\ network u = Some net /\ ID u = ID v /\ merged u = merged v /\ forall p, snapshot_of u p = snapshot_of v p.

Lemma going_vm x u e f : going u e x -> going (f u) e (on_heap (alter f n) x).
Proof. intros []. split; try done. cbn. by apply deref_alter. Qed.

Lemma going_proc x u e f : same_vm u -> going u e x -> going u e (on_procs (alter f (pid (heap x !!! n))) x).
Proof. intros [Hp _] []. split; try done. cbn. rewrite (lookup_total_correct _ _ _ g_heap0), Hp. by rewrite delete_alter_eq. Qed.

Lemma going_hook x u e h : going u e x -> going u e (on_hooks h x).
Proof. by intros []. Qed.

Lemma going_deref u e x : going u e x -> heap x !!! n = u.
Proof. intros []. by apply lookup_total_correct. Qed.

Definition slept (r : result string (string * dir)) (x : world) : Prop :=
  exists t, r = Ok (checkpoint_key (ID v) t, staged (merged v) slept_dir) /\ delete (ID v) (vms x) = delete (ID v) (vms w) /\
    dirs x = <[path (ID v) := slept_dir]> (dirs w) /\ procs x = delete n (procs w) /\
    subnets x = Subnet.Release (subnets w) (Subnet.TAPName net) /\ sessions x = sessions w.

Lemma finish_calm u x : same_vm u -> going u (save_disks d) x -> wp calm (finish_hibernate DataDir n) slept x.
Proof.
  intros (Hp & Hn & Hi & Hm & Hs) Hg. unfold finish_hibernate. do 2 calm_step.
  apply (going_vm _ _ _ (fun v => set_clients (agent v) false v)) in Hg. set (x1 := on_heap _ x) in *. set (u1 := set_clients _ _ u) in *.
  do 6 calm_step. cbn [heap on_procs]. rewrite (going_deref _ _ _ Hg). change (network u1) with (network u). change (ID u1) with (ID u).
  rewrite Hn, Hi. do 5 calm_step. apply wp_bind, wp_command. intros i _. cbn [fst snd]. do 4 calm_step.
  calm_step. destruct Hg as [Hv Hh Hd Hpr Hsub Hse]. cbn [sessions on_procs]. rewrite Hse. change (snapshot_of u1 (sessions w)) with (snapshot_of u (sessions w)).
  rewrite Hs. change (merged u1) with (merged u). change (pid u1) with (pid u). rewrite Hp, Hm.
  assert (alter (set_meta (snapshot_of v (sessions w))) (path (ID v)) (dirs x1) = <[path (ID v) := slept_dir]> (dirs w)) as Hdir
    by (rewrite Hd; apply alter_insert_eq).
  exists (i_now i). unfold dir_of. cbn [dirs on_dirs on_subnets on_procs procs vms subnets sessions]. rewrite Hdir, lookup_insert_eq, Hsub, Hv. done.
Qed.

Lemma save_calm u x : same_vm u -> qmp u = true -> going u d x -> wp calm (save_state DataDir n (finish_hibernate DataDir n)) slept x.
Proof.
  intros Hs Hq Hg. unfold save_state. do 2 calm_step. rewrite (going_deref _ _ _ Hg), Hq. cbn [negb].
  apply wp_bind, wp_command. intros i (Hok & Hdid & _). rewrite Hok, Hdid. cbn [fst snd negb].
  apply (going_proc _ _ _ (set_vcpus false) Hs) in Hg. fold (vcpus false n x) in Hg. set (x1 := vcpus false n x) in *. clearbody x1. clear x i Hok Hdid.
  do 2 calm_step. rewrite H. cbn [fst snd negb]. rewrite (going_deref _ _ _ Hg). destruct Hs as (Hp & Hn & Hi & Hr). rewrite Hi.
  apply (finish_calm u); [done|]. destruct Hg. split; try done. cbn. by rewrite g_dirs0, alter_insert_eq.
Qed.

Lemma freeze_calm k u x (Q : bool -> world -> Prop) :
  same_vm u -> going u d x -> (forall x, going u d x -> Q true x) -> wp calm (freeze (S k) n) Q x.
Proof. intros Hs Hg HQ. cbn [freeze]. do 2 calm_step. rewrite H. cbn [fst snd]. calm_step. by apply HQ, going_proc. Qed.

Lemma quiet_calm u x : same_vm u -> agent u = true -> qmp u = true -> going u d x -> forall b : bool, b = agent u ->
  wp calm (or_fail "mkdir snapshot dir"
    (if b then
       do quiet <- quiesceAndCloseAgent n;
       if negb quiet then Ret (Err "agent unresponsive"%string)
       else do _ <- set_vm n (fun v => set_clients false (qmp v) v); save_state DataDir n (finish_hibernate DataDir n)
     else save_state DataDir n (finish_hibernate DataDir n))%prog) slept x.
Proof.
  intros Hs Ha Hq Hg b ->. rewrite Ha. do 2 calm_step. eapply freeze_calm; [done..|]. clear x Hg. intros x Hg. cbn [negb].
  do 2 calm_step. apply (save_calm (set_clients false (qmp u) u)); [done..|]. by apply (going_vm _ _ _ (fun v => set_clients false (qmp v) v)).
Qed.

Lemma doHibernate_calm u x : same_vm u -> agent u = true -> qmp u = true -> going u d x -> wp calm (doHibernate DataDir n) slept x.
Proof.
  intros Hs Ha Hq Hg. unfold doHibernate. do 2 calm_step. rewrite (going_deref _ _ _ Hg), Hq, andb_true_r. case_bool_decide; [|by eapply quiet_calm].
  apply wp_bind, wp_command. intros i (Hok & Hdid & _). rewrite Hok, Hdid. cbn [fst snd negb]. do 2 calm_step.
  set (f := fun v => set_tier (Status v) None (billingSuppressed v) v).
  apply (going_proc _ _ _ (set_vcpus true) Hs), (going_vm _ _ _ f) in Hg. by apply (quiet_calm (f u)).
Qed.

Lemma hibernate_calm : settled -> wp calm (Hibernate DataDir (ID v)) (fun r x =>
  (exists t, r = Ok (checkpoint_key (ID v) t, staged (merged v) slept_dir)) /\ asleep x) w.
Proof.
  intros [Hv Hh Hp Hi Ha Hq Hn Hd].
  assert (going v d w) as Hg by (split; [done..| | | |]; [by rewrite insert_id|done..]).
  unfold Hibernate. do 2 calm_step. rewrite Hv. unfold checkRootfsPressure. do 3 calm_step. rewrite (lookup_total_correct _ _ _ Hh), Ha.
  cbn [negb]. calm_step. cbn [fst snd]. rewrite H. cbn [andb].
  assert (forall b : bool, (if b then Z.quot (i_num i * 100) (i_num2 i) <? rootfsRefuseThresholdPct else true) = true) as ->
    by (intros []; [lia|done]). cbn [negb].
  apply wp_bind, wp_command. intros i' _. cbn [fst snd]. rewrite Hh, Hi. cbn [negb].
  apply (going_vm _ _ _ (set_opMu true)) in Hg. apply wp_bind, wp_command. intros i2 _. cbn [fst snd]. calm_step.
  eapply wp_mono; [|apply (doHibernate_calm (set_opMu true v)); [done..|by apply going_hook]].
  intros r x (t & -> & Hx). do 4 calm_step. split; [by exists t|]. destruct Hx as (? & ? & ? & ? & ?). by split.
Qed.

End Hibernation.

(** ** Wake *)

Section Waking.
Variables (w : world) (id : string) (m : SnapshotMeta) (e : dir) (b : Z).
#[local] Abbreviation net := (Subnet.config (Subnet.tapName b) b).

(** A snapshot the worker can restore: a rootfs with the saved state, the workspace
    of a split layout, whole blocks of plugged memory, and a free subnet. *)
Record restorable : Prop := {
  r_rootfs : exists im, rootfs_qcow2 e = Some im /\ savevm im = true;
  r_meta : snapshot_meta e = Some m;
  r_workspace : m_merged m = true \/ workspace e <> None;
  r_tap : m_tap m = Some (Subnet.tapName b);
  r_block : 0 <= b <= 16383;
  r_base : 0 < m_BaseMemoryMB m;
  r_memory : exists k, 0 <= k /\ m_MemoryMB m = m_BaseMemoryMB m + k * virtioMemBlockSizeMB
}.

(** The VM as it is registered. *)
Definition woken_vm (n : nat) (t : Z) : VMInstance :=
  mkVM id (m_Template m) SandboxStatusRunning t (m_CpuCount m) (m_MemoryMB m) (port_or_80 (m_GuestPort m)) n (Some net)
    true true false None (m_BaseMemoryMB m) (m_MemoryMB m - m_BaseMemoryMB m) golden (m_merged m) None None false.

Definition sealed : Prop := m_SealedTokens m <> ∅ \/ m_EgressAllowlist m <> [].

Definition session (t : Z) : SecretsProxy.Session :=
  {| SecretsProxy.SandboxID := id; SecretsProxy.Secrets := m_SealedTokens m; SecretsProxy.Names := m_SealedNames m;
     SecretsProxy.TokenHosts := m_TokenHosts m; SecretsProxy.Allowlist := m_EgressAllowlist m;
     SecretsProxy.ExpiresAt := t + SecretsProxy.defaultSessionTTL |}.

(** A started process and nothing else, before the registration. *)
Record starting (n : nat) (x : world) : Prop := {
  st_vms : vms x = vms w;
  st_dirs : dirs x !! sandbox_dir DataDir id = Some e;
  st_procs : exists p, procs x !! n = Some p
}.

Definition awake (r : result string nat) (x : world) : Prop :=
  exists n t p, r = Ok n /\ vms x = <[id := n]> (vms w) /\ heap x !! n = Some (woken_vm n t) /\
    dirs x !! sandbox_dir DataDir id = Some e /\ procs x !! n = Some p /\ p_vcpus p = true /\ p_frozen p = false /\
    (sealed -> exists t', sessions x !! Subnet.GuestIP net = Some (session t')).

Lemma plugged_exact : restorable -> alignVirtioMemBlock (m_MemoryMB m - m_BaseMemoryMB m) = m_MemoryMB m - m_BaseMemoryMB m.
Proof.
  intros [_ _ _ _ _ _ (k & Hk & ->)]. unfold alignVirtioMemBlock, virtioMemBlockSizeMB. case_match; bool_to_prop; [lia|].
  rewrite Z.quot_div_nonneg by lia. replace (m_BaseMemoryMB m + k * 128 - m_BaseMemoryMB m + 128 - 1) with (127 + k * 128) by lia.
  rewrite Z.div_add by lia. change (127 / 128) with 0. lia.
Qed.

Lemma resume_calm n x plugged : restorable -> plugged = m_MemoryMB m - m_BaseMemoryMB m -> starting n x ->
  wp calm (resume_restored DataDir golden DefaultMemoryMB DefaultCPUs id m net n (m_BaseMemoryMB m) plugged) awake x.
Proof.
  intros Hr -> [Hv Hd (p & Hp)]. unfold resume_restored. do 2 calm_step. rewrite H, H0. cbn [fst snd negb]. clear i H H0 H1.
  do 4 calm_step. rewrite H0. cbn [fst snd]. clear i H H0 H1. do 6 calm_step. cbn [fst snd]. clear H H0 H1.
  apply wp_bind, wp_command. intros j _. cbn [fst snd]. calm_step. unfold register. do 3 calm_step. calm_step.
  assert (Hreq : (if m_BaseMemoryMB m <? m_MemoryMB m then m_MemoryMB m - m_BaseMemoryMB m else m_MemoryMB m - m_BaseMemoryMB m)
    = m_MemoryMB m - m_BaseMemoryMB m) by (by case_match).
  rewrite Hreq. clear Hreq. replace (m_BaseMemoryMB m + (m_MemoryMB m - m_BaseMemoryMB m)) with (m_MemoryMB m) by lia.
  fold (woken_vm n (i_now j)). cbn [ID pid woken_vm]. set (c := _ || _).
  exists n, (i_now j), (set_frozen false (set_vcpus true p)).
  assert (sealed -> c = true) as Hc.
  { intros Hs. unfold c. rewrite orb_true_iff, !negb_true_iff, !bool_decide_eq_false. done. }
  destruct c; cbn; rewrite ?Hv, ?lookup_insert_eq, ?lookup_alter_eq, ?Hp; split_and!; try done.
  - intros _. exists (i_now i). done.
  - intros Hs. specialize (Hc Hs). done.
Qed.

Lemma restore_calm n x : restorable -> starting n x ->
  wp calm (restore DataDir golden DefaultMemoryMB DefaultCPUs id m net n) awake x.
Proof.
  intros Hr Hs. pose proof Hr as [(im & Him & Hsv) _ _ _ _ Hb (k & Hk & Hm)]. pose proof Hs as [Hv Hd (p & Hp)].
  unfold restore. do 4 calm_step. unfold dir_of. rewrite Hd, H. change (Some e ≫= rootfs) with (rootfs e).
  assert (rootfs e = Some im) as -> by (unfold rootfs; by rewrite Him). rewrite Hsv. cbn [andb fst snd negb]. clear H H0 H1.
  unfold positive_or. destruct (Z.leb_spec (m_BaseMemoryMB m) 0); [lia|]. calm_step.
  assert (starting n (on_procs (alter (set_frozen true) n) x)) as Hs'.
  { split; try done. exists (set_frozen true p). cbn. by rewrite lookup_alter_eq, Hp. }
  destruct (Z.ltb_spec (m_BaseMemoryMB m) (m_MemoryMB m)); [do 3 calm_step; apply resume_calm; try done; by apply plugged_exact|].
  calm_step. apply resume_calm; try done. unfold virtioMemBlockSizeMB in Hm. lia.
Qed.

Lemma specific_calm x (Q : result string Subnet.NetworkConfig -> world -> Prop) :
  restorable -> b ∉ Subnet.used (subnets x) ->
  (forall a, Q (Ok net) (on_subnets (fun _ => a) x)) -> wp calm (wake_network m) Q x.
Proof.
  intros [_ _ _ Ht Hb _ _] Hf HQ. unfold wake_network. rewrite Ht.
  destruct (String.eqb_spec (Subnet.tapName b) "") as [E|_].
  { apply (f_equal Subnet.scan_tap) in E. by rewrite Subnet.scan_tapName in E by lia. }
  apply wp_bind, wp_command. intros i _. cbv beta. unfold Subnet.AllocateSpecific. rewrite Subnet.scan_tapName by lia.
  rewrite bool_decide_false by done. cbn. apply HQ.
Qed.

Lemma wake_local_calm x :
  restorable -> b ∉ Subnet.used (subnets x) -> vms x = vms w -> dirs x !! sandbox_dir DataDir id = Some e ->
  wp calm (wake_local DataDir golden DefaultMemoryMB DefaultCPUs id) awake x.
Proof.
  intros Hr Hf Hv Hd. unfold wake_local. do 2 calm_step. unfold dir_of. rewrite Hd. change (default empty_dir (Some e)) with e.
  pose proof Hr as [_ Hm Hw _ _ _ _]. rewrite Hm. case_match eqn:E.
  - apply andb_true_iff in E as [E1 E2]. apply bool_decide_eq_true in E2. apply negb_true_iff in E1. destruct Hw; congruence.
  - calm_step. apply specific_calm; [done..|]. intros a. unfold boot. do 8 calm_step.
    calm_step. apply wp_command. intros i (Hok & _). rewrite Hok. cbn [fst snd]. apply restore_calm; [done|].
    split; cbn; [done..|]. eexists. by rewrite lookup_insert_eq.
Qed.



(** Where the snapshot is: in the sandbox's directory, or in an archive. *)
Lemma wake_calm key :
  restorable -> b ∉ Subnet.used (subnets w) -> vms w !! id = None ->
  dirs w !! sandbox_dir DataDir id = Some e \/
  dirs w !! sandbox_dir DataDir id = None /\ blobs w !! key = Some e /\ SecretsProxy.HasPrefix key "local://" = false ->
  wp calm (Wake DataDir golden DefaultMemoryMB DefaultCPUs id key) awake w.
Proof.
  intros Hr Hf Hid Hat. unfold Wake. do 2 calm_step. rewrite Hid. calm_step.
  eapply (wp_mono _ _ awake).
  { intros r x Hx. pose proof Hx as (n & t & p & -> & _). calm_step. apply wp_command. intros i _. exact Hx. }
  unfold doWake, fetch. do 2 calm_step. unfold dir_of. pose proof Hr as [(im & Him & _) _ _ _ _ _ _]. destruct Hat as [Hd|(Hd & Hb & Hk)]; rewrite Hd.
  - change (default empty_dir (Some e)) with e. assert (rootfs e = Some im) as -> by (unfold rootfs; by rewrite Him). by apply wake_local_calm.
  - change (rootfs (default empty_dir None)) with (@None image). cbv iota. rewrite Hk. do 3 calm_step. rewrite H. cbn [fst snd]. rewrite Hb. do 3 calm_step.
    apply wake_local_calm; [done..|]. cbn. rewrite lookup_insert_eq. by destruct e as [[] [] [] [] [] []].
Qed.

End Waking.
End Roundtrip.

(** ** The round trip *)

(** What the customer sees of a VM. *)
Definition same_sandbox (v v' : VMInstance) : Prop :=
  ID v' = ID v /\ Template v' = Template v /\ CpuCount v' = CpuCount v /\ MemoryMB v' = MemoryMB v /\
  baseMemoryMB v' = baseMemoryMB v /\ GuestPort v' = port_or_80 (GuestPort v) /\ network v' = network v /\ merged v' = merged v.

Definition same_disks (merged : bool) (d d' : dir) : Prop :=
  contents <$> rootfs d' = contents <$> rootfs d /\ (merged = false -> contents <$> workspace d' = contents <$> workspace d).

(** The woken VM [n'] of [w'] is the VM [v] with the files [d] and the session of [w]. *)
Definition restored (DataDir : string) (w w' : world) (v : VMInstance) (d : dir) (n' : nat) : Prop :=
  exists v' d' p', vms w' !! ID v = Some n' /\ heap w' !! n' = Some v' /\ same_sandbox v v' /\
    Status v' = SandboxStatusRunning /\ pausedAt v' = None /\
    dirs w' !! sandbox_dir DataDir (ID v) = Some d' /\ same_disks (merged v) d d' /\
    procs w' !! n' = Some p' /\ p_vcpus p' = true /\ p_frozen p' = false /\
    forall net s, network v = Some net -> sessions w !! Subnet.GuestIP net = Some s ->
      SecretsProxy.Secrets s <> ∅ \/ SecretsProxy.Allowlist s <> [] ->
      exists s', sessions w' !! Subnet.GuestIP net = Some s' /\ SecretsProxy.SandboxID s' = ID v /\
        SecretsProxy.Secrets s' = SecretsProxy.Secrets s /\ SecretsProxy.Names s' = SecretsProxy.Names s /\
        SecretsProxy.TokenHosts s' = SecretsProxy.TokenHosts s /\ SecretsProxy.Allowlist s' = SecretsProxy.Allowlist s.

(** A VM that can be saved: on a subnet of the pool, with a qcow2 rootfs and, in the
    split layout, a workspace; its memory is its base and whole blocks. *)
Record savable (v : VMInstance) (d : dir) (b : Z) : Prop := {
  v_net : network v = Some (Subnet.config (Subnet.tapName b) b);
  v_block : 0 <= b <= 16383;
  v_rootfs : rootfs_qcow2 d <> None;
  v_workspace : merged v = true \/ workspace d <> None;
  v_base : 0 < baseMemoryMB v;
  v_memory : exists k, 0 <= k /\ MemoryMB v = baseMemoryMB v + k * virtioMemBlockSizeMB
}.

(** The saved state, in the directory or staged for the archive. *)
Definition holds_save (w : world) (v : VMInstance) (d e : dir) : Prop :=
  e = slept_dir w v d \/ e = staged (merged v) (slept_dir w v d).

Lemma saved_restorable w v d b e : savable v d b -> holds_save w v d e -> restorable (snapshot_of v (sessions w)) e b.
Proof.
  intros [Hn Hb Hr Hw Hbase Hm] He. destruct d as [[r|] re [q|] qe sm bm]; cbn in *; try done;
    split; cbn; try done; try (by rewrite Hn); destruct He as [->| ->]; cbn; try (by eexists); destruct (merged v); cbn; auto;
    right; by destruct Hw.
Qed.

Lemma saved_disks w v d b e : savable v d b -> holds_save w v d e -> same_disks (merged v) d e.
Proof.
  intros [_ _ Hr _ _ _] He. destruct d as [[r|] re [q|] qe sm bm]; cbn in *; try done; destruct He as [->| ->]; split; cbn; try done;
    by intros ->.
Qed.

Lemma awake_restored DataDir golden w w2 x v d b e r :
  savable v d b -> holds_save w v d e -> awake DataDir golden w2 (ID v) (snapshot_of v (sessions w)) e b r x ->
  exists n', r = Ok n' /\ restored DataDir w x v d n'.
Proof.
  intros Hs He (n' & t & p & -> & Hv & Hh & Hd & Hp & Hrun & Hfr & Hse). exists n'. split; [done|]. pose proof (v_net _ _ _ Hs) as Hn.
  eexists _, e, p. split; [by rewrite Hv, lookup_insert_eq|]. split; [exact Hh|]. split_and!; try done.
  - by eapply saved_disks.
  - intros net s Hn' Hs' Hany. rewrite Hn in Hn'. injection Hn' as <-.
    unfold sealed, snapshot_of, session in Hse. rewrite Hn in Hse. cbn [m_SealedTokens m_EgressAllowlist m_TokenHosts m_SealedNames mbind option_bind] in Hse.
    rewrite Hs' in Hse. destruct (Hse Hany) as [t' Ht']. eexists. split; [exact Ht'|]. done.
Qed.

(** C33. When every command of both succeeds, a VM that is hibernated and then woken is
    the VM it was. This holds on the worker itself, whose directory still has the
    files, and on another worker that has only the uploaded archive, if the VM's subnet is
    free there: the same identity, template, sizes, port, network and layout, the same
    contents of the disks, the same sealed secrets and egress rules, running, and
    with its file systems thawed, whether it was running or paused before. *)
Theorem worker_hibernate_wake DataDir DataDir2 golden DefaultMemoryMB DefaultCPUs w n v d b s :
  settled DataDir w n v d (Subnet.config (Subnet.tapName b) b) -> savable v d b -> (forall j, calm (s j)) ->
  let '(w1, r) := run (Hibernate DataDir (ID v)) s 0 w in
  exists key a, r = Ok (key, a) /\
    (forall s1, (forall j, calm (s1 j)) ->
      let '(w', r') := run (Wake DataDir golden DefaultMemoryMB DefaultCPUs (ID v) key) s1 0 w1 in
      exists n', r' = Ok n' /\ restored DataDir w w' v d n') /\
    (forall s2 w2, (forall j, calm (s2 j)) -> vms w2 !! ID v = None -> dirs w2 !! sandbox_dir DataDir2 (ID v) = None ->
      blobs w2 !! key = Some a -> b ∉ Subnet.used (subnets w2) ->
      let '(w', r') := run (Wake DataDir2 golden DefaultMemoryMB DefaultCPUs (ID v) key) s2 0 w2 in
      exists n', r' = Ok n' /\ restored DataDir2 w w' v d n').
Proof.
  intros Hs Hv Hc. pose proof (wp_run calm _ _ s 0 w Hc (hibernate_calm DataDir w n v d _ Hs)) as H.
  destruct (run (Hibernate _ _) s 0 w) as [w1 r]. cbn [fst snd] in H. destruct H as [(t & ->) [Hvms Hdirs _ Hsub _]].
  eexists _, _. split; [reflexivity|]. split.
  - intros s1 Hc1. assert (holds_save w v d (slept_dir w v d)) as He by by left.
    pose proof (wp_run calm _ _ s1 0 w1 Hc1 (wake_calm DataDir golden DefaultMemoryMB DefaultCPUs w1 (ID v) _ _ b (checkpoint_key (ID v) t)
      (saved_restorable w v d b _ Hv He) ltac:(rewrite Hsub; unfold Subnet.Release; cbn [Subnet.TAPName Subnet.config];
        rewrite Subnet.scan_tapName by (destruct Hv; lia); set_solver)
      ltac:(by rewrite Hvms, lookup_delete_eq) ltac:(left; by rewrite Hdirs, lookup_insert_eq))) as H.
    destruct (run _ s1 0 w1) as [w' r']. by eapply awake_restored.
  - intros s2 w2 Hc2 Hno Hnd Hb Hf. assert (holds_save w v d (staged (merged v) (slept_dir w v d))) as He by by right.
    pose proof (wp_run calm _ _ s2 0 w2 Hc2 (wake_calm DataDir2 golden DefaultMemoryMB DefaultCPUs w2 (ID v) _ _ b (checkpoint_key (ID v) t)
      (saved_restorable w v d b _ Hv He) Hf Hno ltac:(right; split_and!; [exact Hnd|exact Hb|reflexivity]))) as H.
    destruct (run _ s2 0 w2) as [w' r']. by eapply awake_restored.
Qed.

#[local] Transparent Subnet.Allocate.

(** The running sandbox of the examples, woken again with one command. *)
Lemma worker_hibernate_wake_witness :
  let v := heap running !!! 1%nat in
  exists w1 key a w' n', run (Hibernate "/data" "sb-1") (fun _ => yes) 0 running = (w1, Ok (key, a)) /\
    run (Wake "/data" "g1" 1024 1 "sb-1" key) (fun _ => yes) 0 w1 = (w', Ok n') /\ restored "/data" running w' v split_dir n'.
Proof.
  intros v.
  assert (settled "/data" running 1 v split_dir (Subnet.config (Subnet.tapName 3) 3)) as Hs by (split; vm_compute; reflexivity).
  assert (savable v split_dir 3) as Hv.
  { split; [vm_compute; reflexivity|lia|done|by right|vm_compute; reflexivity|]. exists 24. split; [lia|]. vm_compute. reflexivity. }
  assert (forall j : nat, calm ((fun _ => yes) j)) as Hc by done.
  pose proof (worker_hibernate_wake "/data" "/data" "g1" 1024 1 running 1 v split_dir 3 (fun _ => yes) Hs Hv Hc) as H.
  destruct (run _ _ 0 running) as [w1 r] eqn:E1 in H. destruct H as (key & a & -> & H & _). specialize (H (fun _ => yes) Hc).
  destruct (run _ _ 0 w1) as [w' r'] eqn:E2 in H. destruct H as (n' & -> & H). by exists w1, key, a, w', n'.
Defined.

End QemuRoundtrip.
