(* ===== verification/QemuVmFacts.v ===== *)
(** * The tiers of a worker's VMs

    Operations on one VM exclude each other through its lock, so that whenever no
    operation is under way the status, the paused mark and the vCPUs agree, in
    every interleaving; and where the code bills, kills or panics against that. *)

From S2P Require Import Prelude Subnet SecretsProxy Threads QemuVm QemuSnapshot.
#[local] Open Scope Z_scope.

Module QemuVmFacts.
Export QemuSnapshot.

(** ** Ownership of a VM's tier *)

Section Tiers.
(** Whether the commands tell the truth: only then is anything known of the vCPUs. *)
Variable sync : Prop.

(** If the VM has a process, its vCPUs are as [b] says. *)
Definition runs (w : world) (l : nat) (b : bool) : Prop := sync -> forall p, procs w !! l = Some p -> p_vcpus p = b.

(** Status, mark and vCPUs agree. *)
Definition tier_ok (st : SandboxStatus) (p : option Z) (b : bool) : Prop :=
  (st = SandboxStatusPaused <-> p <> None) /\ b = bool_decide (p = None).

Definition consistent (w : world) (l : nat) : Prop :=
  forall v, heap w !! l = Some v -> exists b, tier_ok (Status v) (pausedAt v) b /\ runs w l b.

(** Objects are named by their process; the registry names objects. *)
Record wf (w : world) : Prop := {
  wf_pid : forall l v, heap w !! l = Some v -> pid v = l;
  wf_vms : forall id l, vms w !! id = Some l -> is_Some (heap w !! l)
}.

(** What a thread holds: the lock of one VM, whose tier it alone changes. *)
Record held := { h_vm : nat; h_status : SandboxStatus; h_paused : option Z; h_runs : bool }.

Definition agrees (h : held) (w : world) : Prop :=
  exists v, heap w !! h_vm h = Some v /\ opMu v = true /\ Status v = h_status h /\ pausedAt v = h_paused h /\ runs w (h_vm h) (h_runs h).

Definition agrees_opt (o : option held) (w : world) : Prop := forall h, o = Some h -> agrees h w.

(** The tier, lock and process of [l] are left alone; the process may end. *)
Definition untouched (l : nat) (w w' : world) : Prop :=
  ((fun v => (opMu v, Status v, pausedAt v)) <$> heap w' !! l) = ((fun v => (opMu v, Status v, pausedAt v)) <$> heap w !! l) /\
  (procs w' !! l = procs w !! l \/ procs w' !! l = None).

Definition unlocked (l : nat) (w : world) : Prop := forall v, heap w !! l = Some v -> opMu v = false.

(** One step of a thread that holds [o] and then [o']: it takes a free lock, gives
    one back with the tier in order, or keeps what it has; others are untouched. *)
Definition respects (o o' : option held) (w w' : world) : Prop :=
  match o, o' with
  | None, None => forall l, untouched l w w'
  | None, Some h => unlocked (h_vm h) w /\ forall l, l <> h_vm h -> untouched l w w'
  | Some h, None => unlocked (h_vm h) w' /\ consistent w' (h_vm h) /\ forall l, l <> h_vm h -> untouched l w w'
  | Some h, Some h' => h_vm h' = h_vm h /\ forall l, l <> h_vm h -> untouched l w w'
  end.

Fixpoint own {A} (o : option held) (p : program A) (Q : option held -> A -> Prop) : Prop :=
  match p with
  | Ret a => Q o a
  | Atom f k => forall i w, (sync -> honest i) -> wf w -> agrees_opt o w -> (forall l, unlocked l w -> consistent w l) ->
      exists o', wf (fst (f i w)) /\ agrees_opt o' (fst (f i w)) /\ respects o o' w (fst (f i w)) /\ own o' (k (snd (f i w))) Q
  end.

(** ** Rules *)

Lemma own_bind {A B} o (p : program A) (k : A -> program B) Q : own o p (fun o a => own o (k a) Q) -> own o (bind p k) Q.
Proof.
  revert o; induction p as [a|C f k' IH]; intros o H; cbn in *; [done|]. intros i w Hi Hw Ha Hc.
  destruct (H i w Hi Hw Ha Hc) as (o' & H1 & H2 & H3 & H4). exists o'. auto.
Qed.

Lemma own_mono {A} o (p : program A) (Q Q' : option held -> A -> Prop) : (forall o a, Q o a -> Q' o a) -> own o p Q -> own o p Q'.
Proof.
  intros HQ. revert o; induction p as [a|C f k' IH]; intros o H; cbn in *; [by apply HQ|]. intros i w Hi Hw Ha Hc.
  destruct (H i w Hi Hw Ha Hc) as (o' & H1 & H2 & H3 & H4). exists o'. auto.
Qed.

Lemma untouched_refl l w : untouched l w w.
Proof. split; [done|by left]. Qed.
#[local] Hint Resolve untouched_refl : core.

Lemma runs_untouched l b w w' : untouched l w w' -> runs w l b -> runs w' l b.
Proof. intros [_ [E|E]] Hr Hs p Hp; rewrite E in Hp; [by apply Hr|done]. Qed.

Lemma agrees_untouched h w w' : untouched (h_vm h) w w' -> agrees h w -> agrees h w'.
Proof.
  intros Hu (v & Hv & Ho & Hs & Hp & Hr). pose proof (runs_untouched _ _ _ _ Hu Hr) as Hr'. destruct Hu as [Hh _]. rewrite Hv in Hh. cbn in Hh.
  destruct (heap w' !! h_vm h) as [v'|] eqn:E; [|done]. injection Hh as E1 E2 E3. exists v'. by rewrite E1, E2, E3.
Qed.

Lemma consistent_untouched l w w' : untouched l w w' -> consistent w l -> consistent w' l.
Proof.
  intros Hu Hc v' Hv'. pose proof Hu as [Hh _]. rewrite Hv' in Hh. destruct (heap w !! l) as [v|] eqn:E; [|done]. injection Hh as _ E2 E3. rewrite E2, E3.
  destruct (Hc v E) as (b & Hb & Hr). exists b. split; [done|]. by eapply runs_untouched.
Qed.

Lemma unlocked_untouched l w w' : untouched l w w' -> unlocked l w' -> unlocked l w.
Proof.
  intros [Hh _] Hu v Hv. rewrite Hv in Hh. destruct (heap w' !! l) as [v'|] eqn:E; [|done]. injection Hh as E1 _ _. rewrite <- E1. by apply Hu.
Qed.

Lemma alter_there {A} (f : A -> A) l (h : gmap nat A) v : h !! l = Some v -> alter f l h = <[l := f v]> h.
Proof.
  intros Hv. apply map_eq. intros k. destruct (decide (k = l)) as [->|];
    [by rewrite lookup_alter_eq, lookup_insert_eq, Hv|by rewrite lookup_alter_ne, lookup_insert_ne].
Qed.

Lemma wf_alter w l f : wf w -> (forall v, heap w !! l = Some v -> pid (f v) = pid v) -> wf (on_heap (alter f l) w).
Proof.
  intros [H1 H2] Hf. split; cbn.
  - intros k u. rewrite lookup_alter_Some. intros [(-> & v & Hv & ->)|[_ Hu]]; [|by apply H1]. rewrite Hf by done. by apply H1.
  - intros id k Hk. apply lookup_alter_is_Some. by eapply H2.
Qed.

Lemma untouched_alter w l f k : k <> l -> untouched k w (on_heap (alter f l) w).
Proof. intros Hk. split; [cbn|by left]. by rewrite lookup_alter_ne. Qed.

(** A step that touches no tier. *)
Lemma own_command {B} o (f : input -> world -> world * B) (Q : option held -> B -> Prop) :
  (forall i w, wf w -> wf (fst (f i w)) /\ forall l, untouched l w (fst (f i w))) -> (forall i w, Q o (snd (f i w))) -> own o (command f) Q.
Proof.
  intros Hf HQ i w Hi Hw Ha _. destruct (Hf i w Hw) as [Hw' Hu]. exists o. split_and!; [done| |by destruct o|apply HQ].
  intros h ->. eapply agrees_untouched; [apply Hu|]. by apply Ha.
Qed.
Lemma own_read {B} o (f : world -> B) (Q : option held -> B -> Prop) : (forall b, Q o b) -> own o (read f) Q.
Proof. intros HQ. apply own_command; cbn; auto. Qed.

Lemma own_ask o (Q : option held -> bool -> Prop) : (forall b, Q o b) -> own o ask Q.
Proof. intros HQ. apply own_command; cbn; auto. Qed.

Lemma own_time o (Q : option held -> Z -> Prop) : (forall t, Q o t) -> own o time_now Q.
Proof. intros HQ. apply own_command; cbn; auto. Qed.

Lemma own_best_effort o b (Q : option held -> unit -> Prop) : Q o tt -> own o (best_effort b) Q.
Proof. intros HQ. unfold best_effort. destruct b; [|done]. by apply own_bind, own_ask. Qed.

Lemma own_notify o l h (Q : option held -> unit -> Prop) : Q o tt -> own o (notify l h) Q.
Proof. intros HQ. apply own_command; cbn; [|done]. intros i w [H1 H2]. split; [by split|]. intros k. split; [done|by left]. Qed.

(** Changes of a VM that are not of its tier. *)
Lemma own_set_vm o l f (Q : option held -> unit -> Prop) :
  (forall v, pid (f v) = pid v /\ opMu (f v) = opMu v /\ Status (f v) = Status v /\ pausedAt (f v) = pausedAt v) ->
  Q o tt -> own o (set_vm l f) Q.
Proof.
  intros Hf HQ. apply own_command; cbn; [|done]. intros i w Hw. split.
  - apply wf_alter; [done|]. intros v _. apply Hf.
  - intros l'. split; [cbn|by left]. destruct (decide (l = l')) as [->|]; [|by rewrite lookup_alter_ne].
    rewrite lookup_alter_eq. destruct (heap w !! l') as [v|]; [|done]. cbn. by destruct (Hf v) as (_ & -> & -> & ->).
Qed.

(** The registry shrinks, processes end, anything outside the VMs changes. *)
Lemma own_modify o f (Q : option held -> unit -> Prop) :
  (forall w, heap (f w) = heap w /\ vms (f w) ⊆ vms w /\ procs (f w) ⊆ procs w) -> Q o tt -> own o (modify f) Q.
Proof.
  intros Hf HQ. apply own_command; cbn; [|done]. intros i w [H1 H2]. destruct (Hf w) as (Hh & Hv & Hp). split; [split|].
  - rewrite Hh. apply H1.
  - rewrite Hh. intros id l Hl. eapply H2, lookup_weaken, Hv. exact Hl.
  - intros l. split; [by rewrite Hh|]. destruct (procs (f w) !! l) as [p|] eqn:E; [left|by right]. symmetry. by eapply lookup_weaken.
Qed.

Lemma own_for_each {X} (l : list X) body (Q : option held -> unit -> Prop) o :
  Q o tt -> (forall x, In x l -> own o (body x) (fun o' _ => o' = o)) -> own o (for_each l body) Q.
Proof.
  intros HQ. induction l as [|x l IH]; intros Hb; cbn; [done|]. apply own_bind. eapply own_mono; [|apply Hb; by left].
  intros o' [] ->. apply IH. intros y Hy. apply Hb. by right.
Qed.

(** The tier of a VM that is held. *)
Lemma own_deref st p b l (Q : option held -> VMInstance -> Prop) :
  let h := Some {| h_vm := l; h_status := st; h_paused := p; h_runs := b |} in
  (forall v, Status v = st -> pausedAt v = p -> Q h v) -> own h (deref l) Q.
Proof.
  intros h HQ i w Hi Hw Ha _. exists h. cbn. split; [done|]. split; [done|]. split; [done|]. destruct (Ha _ eq_refl) as (v & Hv & _ & Hs & Hp & _). cbn in *.
  rewrite (lookup_total_correct _ _ _ Hv). by apply HQ.
Qed.

Lemma own_vcpus st p b c l (Q : option held -> bool -> Prop) :
  let h b := Some {| h_vm := l; h_status := st; h_paused := p; h_runs := b |} in
  Q (h c) true -> Q (h b) false -> own (h b) (qmp_vcpus c l) Q.
Proof.
  intros h Ht Hf i w Hi Hw Ha _. cbn. exists (h (if i_ok i then c else b)).
  destruct (Ha _ eq_refl) as (v & Hv & Ho & Hs & Hp & Hr). cbn in *.
  assert (pid (heap w !!! l) = l) as Hpid by (rewrite (lookup_total_correct _ _ _ Hv); by eapply wf_pid).
  assert (heap (if i_did i then vcpus c l w else w) = heap w /\ vms (if i_did i then vcpus c l w else w) = vms w) as [Eh Ev] by by case_match.
  split_and!; [split; rewrite ?Eh, ?Ev; apply Hw| |done| |by destruct (i_ok i)].
  - intros ? [= <-]. exists v. cbn. rewrite Eh. split_and!; try done. intros Hy. rewrite (Hi Hy).
    destruct (i_ok i); [|by apply Hr]. unfold vcpus. rewrite Hpid. intros q. cbn. rewrite lookup_alter_eq, fmap_Some. by intros (q' & _ & ->).
  - intros l' Hl. split; [by rewrite Eh|]. left. destruct (i_did i); [|done]. unfold vcpus. rewrite Hpid. cbn. by rewrite lookup_alter_ne.
Qed.

Lemma own_tier st p b l st' p' f (Q : option held -> unit -> Prop) :
  let h st p := Some {| h_vm := l; h_status := st; h_paused := p; h_runs := b |} in
  (forall v, Status v = st -> pausedAt v = p -> pid (f v) = pid v /\ opMu (f v) = opMu v /\ Status (f v) = st' /\ pausedAt (f v) = p') ->
  Q (h st' p') tt -> own (h st p) (set_vm l f) Q.
Proof.
  intros h Hf HQ i w Hi Hw Ha _. exists (h st' p'). destruct (Ha _ eq_refl) as (v & Hv & Ho & Hs & Hp & Hr). cbn in *.
  destruct (Hf v Hs Hp) as (F1 & F2 & F3 & F4).
  split; [|split; [intros ? [= <-]|split; [split; [done|]|done]]].
  - apply wf_alter; [done|]. intros v' Hv'. by simplify_eq.
  - exists (f v). cbn. rewrite (alter_there _ _ _ _ Hv), lookup_insert_eq, F2. done.
  - intros k Hk. by apply untouched_alter.
Qed.

(** ** The lock *)

Lemma own_TryLock l (Q : option held -> bool -> Prop) :
  (forall st p b, tier_ok st p b -> Q (Some {| h_vm := l; h_status := st; h_paused := p; h_runs := b |}) true) ->
  Q None false -> own None (TryLock l) Q.
Proof.
  intros Ht Hf i w Hi Hw Ha Hc. cbn [TryLock command fst snd]. destruct (heap w !! l) as [v|] eqn:E.
  - pose proof (alter_there (set_opMu true) _ _ _ E) as Ea.
    assert (wf (on_heap (alter (set_opMu true) l) w)) as Hw' by by apply wf_alter.
    pose proof (untouched_alter w l (set_opMu true)) as Hu.
    destruct (opMu v) eqn:Ho.
    + exists None. split; [done|]. split; [done|]. split; [|done]. intros k. destruct (decide (k = l)) as [->|Hk]; [|by apply Hu].
      split; [cbn|by left]. rewrite Ea, lookup_insert_eq, E. cbn. by rewrite Ho.
    + destruct (Hc l) with (v := v) as (b & Hb & Hr); [intros v' Hv'; congruence|done|].
      exists (Some {| h_vm := l; h_status := Status v; h_paused := pausedAt v; h_runs := b |}). split; [done|]. split; [|split; [split|by apply Ht]].
      * intros ? [= <-]. exists (set_opMu true v). cbn. by rewrite Ea, lookup_insert_eq.
      * intros v' Hv'. cbn in Hv'. congruence.
      * done.
  - assert (alter (set_opMu true) l (heap w) = heap w) as Ea by (apply alter_id; intros ? ?; congruence).
    exists None. split; [|split; [done|split; [|done]]]; [destruct Hw as [H1 H2]; split; cbn; by rewrite Ea|].
    intros k. split; [cbn; by rewrite Ea|by left].
Qed.

Lemma own_Unlock st p b l (Q : option held -> unit -> Prop) :
  tier_ok st p b -> Q None tt -> own (Some {| h_vm := l; h_status := st; h_paused := p; h_runs := b |}) (Unlock l) Q.
Proof.
  intros Ht HQ i w Hi Hw Ha _. exists None. destruct (Ha _ eq_refl) as (v & Hv & Ho & Hs & Hp & Hr). cbn in *.
  pose proof (alter_there (set_opMu false) _ _ _ Hv) as Ea. split; [|split; [done|split; [|done]]].
  - by apply wf_alter.
  - split; [intros u; cbn; rewrite Ea, lookup_insert_eq; by intros [= <-]|]. split.
    + intros u. cbn. rewrite Ea, lookup_insert_eq. intros [= <-]. exists b. cbn. by rewrite Hs, Hp.
    + intros k Hk. by apply untouched_alter.
Qed.

Definition holds_ok (l : nat) (o : option held) : Prop :=
  exists st p b, o = Some {| h_vm := l; h_status := st; h_paused := p; h_runs := b |} /\ tier_ok st p b.

(** An operation under the lock finds the tier in order and leaves it so. *)
Lemma own_locked {A} id (body : nat -> program (result string A)) :
  (forall l st p b, tier_ok st p b ->
     own (Some {| h_vm := l; h_status := st; h_paused := p; h_runs := b |}) (body l) (fun o _ => holds_ok l o)) ->
  own None (locked id body) (fun o _ => o = None).
Proof.
  intros Hb. unfold locked. apply own_bind, own_read. intros [l|]; [|done]. apply own_bind, own_TryLock; [|done].
  intros st p b Ht. apply own_bind. eapply own_mono; [|by apply Hb]. intros o r (st' & p' & b' & -> & Ht'). by apply own_bind, own_Unlock.
Qed.

(** ** The operations *)

Ltac own_step :=
  cbv beta;
  match goal with
  | |- own _ (Ret _) _ => cbn [own]
  | |- own _ (bind _ _) _ => apply own_bind
  | |- own _ ask _ => apply own_ask; intros []; cbn [negb]
  | |- own _ time_now _ => apply own_time; intros ?t
  | |- own _ reclaim _ => apply own_command; [cbn; by auto|intros ?i ?w]
  | |- own _ (best_effort _) _ => apply own_best_effort
  | |- own _ (notify _ _) _ => apply own_notify
  | |- own (Some _) (deref _) _ => apply own_deref; intros ?v ?Hst ?Hpa
  | |- own None (deref _) _ => apply own_read; intros ?v
  | |- own _ (read _) _ => apply own_read; intros ?x
  | |- own _ (Stop _) _ => apply own_vcpus; cbn [negb]
  | |- own _ (Cont _) _ => apply own_vcpus; cbn [negb]
  | |- own _ (getVM _) _ => apply own_read; intros []
  | |- own _ (kill_process _) _ => apply own_modify; [intros ?w; cbn; split_and!; [done|done|apply delete_subseteq]|]
  | |- own _ (RemoveAll _) _ => apply own_modify; [done|]
  | |- own _ (release_network ?n) _ => destruct n; cbn [release_network]
  | |- own _ (modify (on_subnets _)) _ => apply own_modify; [done|]
  | |- context [if negb ?b then _ else _] => destruct b eqn:?; cbn [negb]
  | |- context [match ?x with Some _ => _ | None => _ end] => destruct x eqn:?
  end.

Ltac own_tier_step := eapply own_tier; [intros ?u ?Hu ?Hu'; cbn; rewrite ?Hu, ?Hu'; split_and!; reflexivity|].

Ltac held_ok := first [done | eexists _, _, _; split; [reflexivity|]; try done].

Lemma Pause_own id : own None (Pause id) (fun o _ => o = None).
Proof.
  apply own_locked. intros l st p b Ht. do 2 own_step. rewrite Hpa. destruct p as [t|]; [own_step; held_ok|]. own_step; [|held_ok].
  do 2 own_step; [|held_ok]. do 3 own_step. own_tier_step. do 5 own_step. held_ok.
Qed.

Lemma Resume_own id : own None (Resume id) (fun o _ => o = None).
Proof.
  apply own_locked. intros l st p b Ht. do 2 own_step. rewrite Hpa. destruct p as [t|]; [|own_step; held_ok]. own_step; [|held_ok].
  do 2 own_step; [|held_ok]. own_step. own_tier_step. do 5 own_step. held_ok.
Qed.

Lemma ResumeUnbilled_own id : own None (ResumeUnbilled id) (fun o _ => o = None).
Proof.
  apply own_locked. intros l st p b Ht. do 2 own_step. own_step; [|held_ok]. rewrite Hpa. destruct p as [t|].
  - do 2 own_step; [|held_ok]. own_step. own_tier_step. do 2 own_step. own_step.
    own_tier_step. held_ok.
  - own_step. own_tier_step. held_ok. by destruct Ht as [_ ->].
Qed.
Lemma RepauseAfterMigration_own id : own None (RepauseAfterMigration id) (fun o _ => o = None).
Proof.
  apply own_locked. intros l st p b Ht. do 2 own_step. own_step; [|held_ok]. do 2 own_step; [|held_ok].
  do 3 own_step. own_tier_step. do 3 own_step. held_ok.
Qed.

Lemma ClaimPooled_own id : own None (ClaimPooled id) (fun o _ => o = None).
Proof.
  apply own_locked. intros l st p b Ht. do 2 own_step. do 2 (own_step; [|held_ok]). rewrite Hpa. destruct p as [t|].
  - do 2 own_step; [|held_ok]. own_step. apply own_ask. intros _. do 2 own_step; [|held_ok]. own_step. own_tier_step.
    own_step. own_tier_step. do 2 (own_step; apply own_ask; intros _). held_ok.
  - own_step. own_tier_step. do 2 (own_step; apply own_ask; intros _). held_ok. by destruct Ht as [_ ->].
Qed.

Lemma SetBillingSuppressed_own id : own None (SetBillingSuppressed id) (fun o _ => o = None).
Proof. unfold SetBillingSuppressed. do 2 own_step; [|done]. own_step. by apply own_set_vm. Qed.

Lemma destroyVM_own DataDir l o : own o (destroyVM DataDir l) (fun o' _ => o' = o).
Proof. unfold destroyVM. own_step. apply own_read. intros v. repeat own_step; done. Qed.

Lemma Kill_own DataDir id : own None (Kill DataDir id) (fun o _ => o = None).
Proof.
  unfold Kill. own_step. apply own_command.
  - intros i w [H1 H2]. split; [split; [done|]|]; cbn; [|intros l; split; [done|by left]]. intros id' l. rewrite lookup_delete_Some. intros [_ Hl]. by eapply H2.
  - intros i w. cbn [snd]. destruct (vms w !! id) as [l|]; [|done]. own_step. eapply own_mono; [|apply destroyVM_own]. by intros ? ? ->.
Qed.

Lemma reapDeadVMs_own : own None reapDeadVMs (fun o _ => o = None).
Proof. apply own_modify; [|done]. intros w. cbn. split_and!; [done|apply map_filter_subseteq|done]. Qed.

Lemma reapStale_own DataDir : own None (reapStaleIncomingMigrations DataDir) (fun o _ => o = None).
Proof.
  unfold reapStaleIncomingMigrations. do 4 own_step. apply own_for_each; [done|]. intros id _. own_step.
  eapply own_mono; [|apply Kill_own]. by intros ? ? ->.
Qed.

Lemma reapOrphans_own DataDir : own None (reapOrphans DataDir) (fun o _ => o = None).
Proof.
  unfold reapOrphans. do 2 own_step. destruct x as [|y x]; [done|]. do 4 own_step. apply own_for_each; [done|]. intros [id [n start]] _.
  case_bool_decide; [done|]. destruct (_ <? _); [done|]. own_step. apply own_modify; [|by apply own_modify].
  intros w. cbn. split_and!; [done|done|apply delete_subseteq].
Qed.

(** ** Resizing *)

Lemma untouched_same w l f k :
  (forall v, opMu (f v) = opMu v /\ Status (f v) = Status v /\ pausedAt (f v) = pausedAt v) -> untouched k w (on_heap (alter f l) w).
Proof.
  intros Hf. destruct (decide (k = l)) as [->|]; [|by apply untouched_alter]. split; [cbn|by left].
  rewrite lookup_alter_eq. destruct (heap w !! l) as [v|]; [|done]. cbn. by destruct (Hf v) as (-> & -> & ->).
Qed.

Lemma untouched_trans l w w' w'' : untouched l w w' -> untouched l w' w'' -> untouched l w w''.
Proof. intros [H1 H2] [H3 H4]. split; [by rewrite H3|]. destruct H4 as [->| ->]; [done|by right]. Qed.

Lemma hotplug_own l mb : own None (hotplug l mb) (fun o _ => o = None).
Proof.
  unfold hotplug. do 2 own_step; [|done]. own_step. apply own_command; [|done]. intros i w Hw. cbn [fst].
  set (f := fun v => set_memory _ _ v). assert (wf (on_heap (alter f l) w)) as Hw1 by by apply wf_alter.
  assert (forall k, untouched k w (on_heap (alter f l) w)) as Hu by (intros k; by apply untouched_same).
  case_match; [|done]. pose proof (wf_alter _ l (set_ready (Some (fresh w))) Hw1 (fun _ _ => eq_refl)) as [H1 H2].
  split; [by split|]. intros k. eapply untouched_trans; [apply Hu|]. destruct (untouched_same (on_heap (alter f l) w) l (set_ready (Some (fresh w))) k); [done|by split].
Qed.

Lemma adjust_own l mb : own None (adjust_memory l mb) (fun o _ => o = None).
Proof.
  unfold adjust_memory. do 2 own_step. case_match; [|done]. own_step.
  assert (forall b : bool, own None (if negb b then Ret (Err "insufficient_capacity"%string)
     else if alignVirtioMemBlock (Z.max 0 (Z.quot mb MiB - baseMemoryMB v)) =? virtioMemRequestedMB v then Ret (Ok tt)
     else hotplug l (alignVirtioMemBlock (Z.max 0 (Z.quot mb MiB - baseMemoryMB v)))) (fun o _ => o = None)) as Hk.
  { intros []; cbn [negb]; [|done]. case_match; [done|apply hotplug_own]. }
  destruct (virtioMemRequestedMB v <? _); [|apply Hk]. own_step. apply own_command; [by cbn; auto|]. intros i w. apply Hk.
Qed.

Lemma getReadyVM_own id : own None (getReadyVM id) (fun o _ => o = None).
Proof.
  unfold getReadyVM. do 2 own_step; [|done]. do 3 own_step. destruct x; [|own_step]; cbn [own negb]; [do 2 own_step; by case_match| |done].
  do 2 own_step. by case_match.
Qed.

Lemma shrink_guard_own l mb : own None (shrink_guard l mb) (fun o _ => o = None).
Proof.
  unfold shrink_guard. do 2 own_step. case_match; [|done]. own_step. apply own_command; [by cbn; auto|]. intros i w. cbn [snd].
  destruct (i_ok i); [|done]. by case_match.
Qed.

Lemma SetResourceLimits_own id mb : own None (SetResourceLimits id mb) (fun o _ => o = None).
Proof.
  unfold SetResourceLimits. own_step. eapply own_mono; [|apply getReadyVM_own]. intros o [l|e] ->; [|done]. do 3 own_step.
  eapply own_mono; [|apply shrink_guard_own]. intros o [[]|e] ->; [|done]. own_step.
  eapply own_mono; [|apply adjust_own]. intros o [[]|e] ->; [|done]. by own_step; apply own_ask.
Qed.

Lemma watch_own l mb : own None (watchMemoryHotplug l mb) (fun o _ => o = None).
Proof.
  unfold watchMemoryHotplug. do 3 own_step. apply (own_mono _ _ (fun o _ => o = None)).
  - intros o _ ->. unfold close_gate. do 3 own_step; [|done]. do 2 own_step. destruct x1; [done|]. apply own_modify; [|done].
    intros w. repeat case_match; done.
  - generalize (x + Z.min 1024 mb). intros z. generalize 100%nat. intros n. induction n as [|k IH]; [done|]. cbn [watch_loop]. do 2 own_step. own_step; [|done].
    own_step. apply own_command; [by cbn; auto|]. intros i w. cbn [snd]. case_match; [done|apply IH].
Qed.

(** ** All interleavings *)

(** The operations of the paused tier, the resizes and the reapers. *)
Inductive op :=
| OPause (id : string) | OResume (id : string) | OResumeUnbilled (id : string) | OSetBillingSuppressed (id : string)
| ORepause (id : string) | OClaim (id : string) | OKill (DataDir id : string) | OResize (id : string) (bytes : Z)
| OWatch (l : nat) (mb : Z) | OReapDead | OReapStale (DataDir : string) | OReapOrphans (DataDir : string).

Definition quietly {A} (p : program A) : program unit := bind p (fun _ => Ret tt).

Definition thread_of (o : op) : program unit :=
  match o with
  | OPause id => quietly (Pause id)
  | OResume id => quietly (Resume id)
  | OResumeUnbilled id => quietly (ResumeUnbilled id)
  | OSetBillingSuppressed id => quietly (SetBillingSuppressed id)
  | ORepause id => quietly (RepauseAfterMigration id)
  | OClaim id => quietly (ClaimPooled id)
  | OKill DataDir id => quietly (Kill DataDir id)
  | OResize id bytes => quietly (SetResourceLimits id bytes)
  | OWatch l mb => watchMemoryHotplug l mb
  | OReapDead => reapDeadVMs
  | OReapStale DataDir => reapStaleIncomingMigrations DataDir
  | OReapOrphans DataDir => reapOrphans DataDir
  end.

Definition finished (o : option held) (_ : unit) : Prop := o = None.

Lemma quietly_own {A} (p : program A) : own None p (fun o _ => o = None) -> own None (quietly p) finished.
Proof. intros H. apply own_bind. eapply own_mono; [|exact H]. by intros o a ->. Qed.

#[local] Hint Resolve Pause_own Resume_own ResumeUnbilled_own SetBillingSuppressed_own RepauseAfterMigration_own ClaimPooled_own
  Kill_own SetResourceLimits_own watch_own reapDeadVMs_own reapStale_own reapOrphans_own quietly_own : own.

Lemma thread_own o : own None (thread_of o) finished.
Proof. destruct o; cbn [thread_of]; first [apply quietly_own; auto with own | eauto with own]. Qed.

(** The pool: every thread owns what it holds, no two hold the same VM, and the
    tiers of the VMs that are not locked are in order. *)
Record pool_inv (s : pool world input) (hs : list (option held)) : Prop := {
  pi_wf : wf (fst s);
  pi_own : Forall2 (fun o p => own o p finished) hs (snd s);
  pi_agrees : forall t h, hs !! t = Some (Some h) -> agrees h (fst s);
  pi_distinct : forall t t' h h', hs !! t = Some (Some h) -> hs !! t' = Some (Some h') -> h_vm h = h_vm h' -> t = t';
  pi_tiers : forall l, unlocked l (fst s) -> consistent (fst s) l
}.

Lemma agrees_locked h w : agrees h w -> ~ unlocked (h_vm h) w.
Proof. intros (v & Hv & Ho & _) Hu. specialize (Hu v Hv). congruence. Qed.

(** What another thread holds is not touched. *)
Lemma respects_others o o' h w w' :
  respects o o' w w' -> agrees h w -> (forall h0, o = Some h0 -> h_vm h0 <> h_vm h) -> untouched (h_vm h) w w'.
Proof.
  intros Hr Ha Hd. destruct o as [h0|], o' as [h1|]; cbn in Hr.
  - apply Hr. intros E. by apply (Hd h0).
  - apply Hr. intros E. by apply (Hd h0).
  - destruct Hr as [Hu Hr]. apply Hr. intros E. eapply agrees_locked; [exact Ha|]. by rewrite E.
  - apply Hr.
Qed.

Lemma respects_tiers o o' w w' :
  respects o o' w w' -> agrees_opt o' w' -> (forall l, unlocked l w -> consistent w l) -> forall l, unlocked l w' -> consistent w' l.
Proof.
  intros Hr Ha Hc l Hl.
  assert (untouched l w w' -> consistent w' l) as Hk.
  { intros Hu. eapply consistent_untouched; [exact Hu|]. by eapply Hc, unlocked_untouched. }
  destruct o as [h0|], o' as [h1|]; cbn in Hr.
  - destruct Hr as [E Hr]. destruct (decide (l = h_vm h0)) as [->|]; [|auto]. destruct (agrees_locked h1 w'); [by apply Ha|by rewrite E].
  - destruct Hr as (_ & Hc' & Hr). destruct (decide (l = h_vm h0)) as [->|]; auto.
  - destruct Hr as [_ Hr]. destruct (decide (l = h_vm h1)) as [->|]; [|auto]. destruct (agrees_locked h1 w'); auto.
  - auto.
Qed.

Lemma respects_new o o' h h' w w' :
  respects o o' w w' -> agrees h w -> o' = Some h' -> (forall h0, o = Some h0 -> h_vm h0 <> h_vm h) -> h_vm h' <> h_vm h.
Proof.
  intros Hr Ha -> Hd E. destruct o as [h0|]; cbn in Hr.
  - destruct Hr as [E' _]. apply (Hd h0); congruence.
  - destruct Hr as [Hu _]. apply (agrees_locked _ _ Ha). by rewrite <- E.
Qed.

Lemma thread_step_inv t i w ts hs B (f : input -> world -> world * B) k o :
  pool_inv (w, ts) hs -> (sync -> honest i) -> ts !! t = Some (Atom f k) -> hs !! t = Some o ->
  exists o', pool_inv (fst (f i w), <[t := k (snd (f i w))]> ts) (<[t := o']> hs).
Proof.
  intros [Hw Ho Ha Hd Hc] Hi Ht Hh. cbn [fst snd] in *. pose proof (Forall2_lookup_lr _ _ _ _ _ _ Ho Hh Ht) as Hown. cbn in Hown.
  destruct (Hown i w Hi Hw) as (o' & Hw' & Ha' & Hr & Hk); [intros h ->; by eapply Ha|done|]. exists o'.
  assert (forall t' h h0, t' <> t -> hs !! t' = Some (Some h) -> o = Some h0 -> h_vm h0 <> h_vm h) as Hne.
  { intros t' h h0 Hne Ht' -> E. apply Hne. by eapply Hd. }
  split; cbn [fst snd]; [done|by apply Forall2_insert| | |by eapply respects_tiers].
  - intros t' h. rewrite list_lookup_insert_Some. intros [(<- & -> & _)|[Hne' Ht']]; [by apply Ha'|].
    eapply agrees_untouched; [|by eapply Ha]. eapply respects_others; eauto.
  - intros t1 t2 h1 h2. rewrite !list_lookup_insert_Some.
    intros [(<- & E1 & _)|[N1 H1]] [(<- & E2 & _)|[N2 H2]] E; [done| | |by eapply Hd].
    + exfalso. eapply (respects_new o o' h2 h1); eauto.
    + exfalso. eapply (respects_new o o' h1 h2); eauto.
Qed.

Definition event_good (e : event world input) : Prop :=
  match e with
  | Start p => exists o, p = thread_of o
  | Run _ i => sync -> honest i
  end.

Lemma pool_step_inv e s hs : pool_inv s hs -> event_good e -> exists hs', pool_inv (step e s) hs'.
Proof.
  destruct s as [w ts], e as [p|t i]; intros Hp He; cbn [step fst snd].
  - destruct He as [o ->]. destruct Hp as [Hw Ho Ha Hd Hc]. exists (hs ++ [None]).
    assert (forall t h, (hs ++ [None]) !! t = Some (Some h) -> hs !! t = Some (Some h)) as Hl.
    { intros t h. rewrite lookup_app_Some. intros [H|[_ H]]; [done|]. destruct (t - length hs)%nat; [done|by destruct n]. }
    split; cbn [fst snd]; [done| |by eauto|by eauto|done].
    apply Forall2_app; [done|]. repeat constructor. apply thread_own.
  - destruct (ts !! t) as [[a|B f k]|] eqn:E; [by exists hs| |by exists hs].
    pose proof Hp as [_ Ho _ _ _]. destruct (Forall2_lookup_r _ _ _ _ _ Ho E) as (o & Hh & _).
    destruct (thread_step_inv _ _ _ _ _ _ _ _ _ Hp He E Hh) as [o' Ho']. destruct (f i w) as [w' b]. by eexists.
Qed.

Lemma pool_exec_inv es s hs : pool_inv s hs -> Forall event_good es -> exists hs', pool_inv (exec s es) hs'.
Proof.
  revert s hs; induction es as [|e es IH]; intros s hs Hp He; [by exists hs|]. inversion_clear He as [|? ? He1 He2].
  destruct (pool_step_inv e s hs Hp He1) as [hs' Hp']. by apply (IH _ hs').
Qed.

End Tiers.

(** A worker at rest: no lock is taken and every tier is in order. *)
Definition at_rest (w : world) : Prop :=
  wf w /\ forall l v, heap w !! l = Some v -> opMu v = false /\ consistent True w l.

(** Requests of these operations come in; commands succeed, fail, or fail late. *)
Definition requests (es : list (event world input)) : Prop :=
  Forall (fun e => match e with Start p => exists o, p = thread_of o | Run _ _ => True end) es.

(** No command takes effect and is reported as failed. *)
Definition reported (es : list (event world input)) : Prop :=
  Forall (fun e => match e with Start _ => True | Run _ i => honest i end) es.

(** C11. In every interleaving of any number of pauses, resumes, unbilled resumes,
    re-pauses after a migration, pool claims, resizes with their hotplug watchers,
    kills and reapers, whichever of their commands fail or are reported as failed after
    they took effect, a VM that no operation holds has its status paused exactly when its
    paused mark is set. As long as no command that takes effect is reported as failed, its
    vCPUs, if its process is still there, are stopped exactly then. *)
Theorem tiers_agree w es :
  at_rest w -> requests es ->
  let w' := fst (exec (w, []) es) in
  forall id l v, vms w' !! id = Some l -> heap w' !! l = Some v -> opMu v = false ->
    pid v = l /\ (Status v = SandboxStatusPaused <-> pausedAt v <> None) /\
    (reported es -> forall p, procs w' !! l = Some p -> p_vcpus p = bool_decide (pausedAt v = None)).
Proof.
  intros [Hw Hr] He w' id l v _ Hv Ho.
  assert (Forall (event_good (reported es)) es) as Hg.
  { apply List.Forall_forall. intros [p|t i] Hin; unfold requests in He; rewrite List.Forall_forall in He; [exact (He _ Hin)|].
    intros Hs. unfold reported in Hs. rewrite List.Forall_forall in Hs. exact (Hs _ Hin). }
  assert (pool_inv (reported es) (w, []) []) as Hp0.
  { split; cbn; [done|constructor|done|done|]. intros k Hk u Hu. destruct (Hr k u Hu) as [_ Hc].
    destruct (Hc u Hu) as (b & Hb & Hrun). exists b. split; [done|]. intros _. by apply Hrun. }
  destruct (pool_exec_inv (reported es) es (w, []) [] Hp0 Hg) as [hs [Hw' _ _ _ Hc]].
  fold w' in Hw', Hc. split; [by eapply wf_pid|]. destruct (Hc l ltac:(intros u Hu; simplify_eq; done) v Hv) as (b & [Ht ->] & Hb).
  split; [done|exact Hb].
Qed.

(** A worker with one running VM. *)
Definition box : VMInstance :=
  mkVM "sb-1" "default" SandboxStatusRunning 0 1 1024 80 1 None true true false None 1024 0 "g1" false None None false.
Definition one_vm : world :=
  on_vms (insert "sb-1"%string 1%nat) (on_heap (insert 1%nat box) (on_procs (insert 1%nat
    {| p_sandbox := "sb-1"; p_start := 0; p_vcpus := true; p_zombie := false; p_frozen := false |}) init)).

Definition fine : input := {| i_ok := true; i_did := true; i_now := 7; i_num := 0; i_num2 := 0 |}.

(** A pause, and a resume that comes while the pause holds the lock. *)
Definition race : list (event world input) :=
  [Start (thread_of (OPause "sb-1")); Start (thread_of (OResume "sb-1"))] ++ repeat (Run 0 fine) 4 ++ repeat (Run 1 fine) 9 ++ repeat (Run 0 fine) 9.

Lemma one_vm_at_rest : at_rest one_vm.
Proof.
  split; [split|]; cbn.
  - intros l v. rewrite lookup_insert_Some. by intros [(<- & <-)|[_ H]].
  - intros id l. rewrite lookup_insert_Some. intros [(_ & <-)|[_ H]]; [|done]. rewrite lookup_insert_eq. by eexists.
  - intros l v. rewrite lookup_insert_Some. intros [(<- & <-)|[_ H]]; [|done]. split; [done|].
    intros u. cbn. rewrite lookup_insert_eq. intros [= <-]. exists true. split; [done|]. intros _ p. cbn. rewrite lookup_insert_eq. by intros [= <-].
Qed.

Lemma tiers_agree_witness :
  let w := fst (exec (one_vm, []) race) in
  (exists v, heap w !! 1%nat = Some v /\ Status v = SandboxStatusPaused) /\ forall p, procs w !! 1%nat = Some p -> p_vcpus p = false.
Proof.
  intros w. split; [eexists; split; [vm_compute; reflexivity|reflexivity]|].
  assert (requests race) as He.
  { repeat constructor; [by exists (OPause "sb-1")|by exists (OResume "sb-1")]. }
  pose proof (tiers_agree one_vm race one_vm_at_rest He "sb-1" 1 (heap w !!! 1%nat) ltac:(by vm_compute) ltac:(by vm_compute) ltac:(by vm_compute)) as (_ & _ & H).
  intros p Hp. rewrite (H ltac:(repeat constructor) p Hp). by vm_compute.
Defined.

(** A pause whose [stop] takes effect but is reported as failed (the deadline of ten
    seconds passes first) leaves the VM stopped, marked and billed as running; and a
    resume does nothing for it, since it does not look paused. *)
Definition late : input := {| i_ok := false; i_did := true; i_now := 7; i_num := 0; i_num2 := 0 |}.

Lemma late_stop_stalls :
  let es := [Start (thread_of (OPause "sb-1"))] ++ repeat (Run 0 late) 9 ++ [Start (thread_of (OResume "sb-1"))] ++ repeat (Run 1 fine) 9 in
  let w := fst (exec (one_vm, []) es) in
  hooks w = [] /\ (opMu (heap w !!! 1%nat), Status (heap w !!! 1%nat), pausedAt (heap w !!! 1%nat)) = (false, SandboxStatusRunning, None) /\
  p_vcpus <$> procs w !! 1%nat = Some false.
Proof. vm_compute. done. Qed.

End QemuVmFacts.
