(* ===== verification/QemuBilling.v ===== *)
(** * What the paused tier bills

    The billing hooks that the manager of a worker fires, replayed into the usage
    ticker of UsageTicker.v, and the tier a failed promotion to hibernation leaves. *)

From Stdlib Require Import QArith Qcanon.
From S2P Require Import Prelude GoFloat GoNum UsageTicker UsageTickerFacts Subnet SecretsProxy Threads QemuVm QemuSnapshot QemuSnapshotFacts.
#[local] Open Scope Z_scope.

Module QemuBilling.
Import GoNum QemuSnapshotFacts.

(** ** The observer *)

Definition billed_as (id : string) (mem cpu st : Z) : UsageTicker.Sandbox :=
  {| UsageTicker.ID := id; UsageTicker.StartedAt := Some st; UsageTicker.MemoryMB := mem; UsageTicker.CpuCount := cpu;
     UsageTicker.Paused := false; UsageTicker.BillingSuppressed := false |}.

(** A hook, observed by the ticker; its database takes every event. *)
Definition observe (interval cost : Z) (e : Z * hook) (t : UsageTicker.UsageTicker Qc) :
  option (UsageTicker.UsageTicker Qc * list UsageTicker.usage_tick) :=
  let '(now, h) := e in
  match h with
  | OnSandboxScale id mem cpu st => UsageTicker.OnSandboxScale interval cost now (billed_as id mem cpu st) true true t
  | OnSandboxDestroy id mem cpu st => UsageTicker.OnSandboxDestroy interval cost now (billed_as id mem cpu st) true true t
  | OnSandboxHibernate id mem cpu st => UsageTicker.OnSandboxHibernate interval cost now (billed_as id mem cpu st) true true t
  | OnSandboxWake id => Some (UsageTicker.OnSandboxWake now id t, [])
  end.

(** The answers of a call that takes no time. *)
Definition at_time (t : Z) (i : input) : Prop := honest i /\ i_now i = t.

Section Calls.
Variables (w : world) (id : string) (l : nat) (v : VMInstance).
Hypothesis Hreg : vms w !! id = Some l.
Hypothesis Hheap : heap w !! l = Some v.
Hypothesis Hid : ID v = id.

Lemma Pause_hook t :
  pausedAt v = None ->
  wp (at_time t) (Pause id) (fun r x =>
    match r with
    | Ok _ => exists u, vms x = vms w /\ heap x !! l = Some u /\ StartedAt u = StartedAt v /\ MemoryMB u = MemoryMB v /\
        CpuCount u = CpuCount v /\ ID u = ID v /\ hooks x = hooks w ++ [(t, hibernate_hook v)]
    | Err _ => True
    end) w.
Proof.
  intros Hp. unfold Pause, locked. do 2 wp_step. rewrite Hreg. wp_step. apply wp_command. intros i _. cbn [fst snd]. rewrite Hheap.
  destruct (opMu v); cbn [negb]; [done|]. do 3 wp_step. cbn [heap on_heap].
  assert (forall f, alter f l (heap w) !! l = Some (f v)) as Hal by (intros f; by rewrite lookup_alter_eq, Hheap).
  rewrite (lookup_total_correct _ _ _ (Hal _)). change (pausedAt (set_opMu true v)) with (pausedAt v). rewrite Hp.
  destruct (qmp (set_opMu true v)); cbn [negb]; [|by repeat wp_step]. wp_step. apply wp_command. intros i2 [Hh _]. cbv beta. rewrite Hh.
  destruct (i_ok i2); cbn [fst snd negb]; [|by repeat wp_step]. wp_step. apply wp_command. intros i3 _. cbn [fst snd].
  do 3 wp_step. apply wp_command. intros i4 [_ Ht]. cbn [fst snd]. wp_step. apply wp_command. intros i5 _. cbn [fst snd]. do 4 wp_step.
  assert (forall f g k, alter k l (alter g l (alter f l (heap w))) !! l = Some (k (g (f v)))) as Hal3
    by (intros; by rewrite !lookup_alter_eq, Hheap).
  eexists. cbn. split; [done|]. split; [apply Hal3|]. cbn. split_and!; try done. rewrite Ht. do 3 f_equal.
  rewrite (lookup_total_correct _ _ (set_tier SandboxStatusPaused (Some (i_now i3)) (billingSuppressed v) (set_opMu true v))); [done|].
  by rewrite !lookup_alter_eq, Hheap.
Qed.

Lemma Kill_hook DataDir t :
  wp (at_time t) (Kill DataDir id) (fun r x => r = Ok tt /\ hooks x = hooks w ++ [(t, destroy_hook v)]) w.
Proof.
  unfold Kill. wp_step. apply wp_command. intros i _. cbn [fst snd]. rewrite Hreg. wp_step. unfold destroyVM. do 2 wp_step.
  cbn [heap on_vms]. rewrite (lookup_total_correct _ _ _ Hheap). do 6 wp_step. wp_step.
  apply (wp_mono _ _ (fun _ x => heap x = heap w /\ hooks x = hooks w)).
  - intros _ x [Hh Hk]. wp_step. apply wp_command. intros i2 [_ Ht]. cbn [fst snd]. do 2 wp_step. split; [done|]. cbn.
    by rewrite Hk, Ht, Hh, (lookup_total_correct _ _ _ Hheap).
  - destruct (network v); [by wp_step|done].
Qed.

End Calls.

(** The slice a hook bills to a sandbox the ticker has no state for. *)
Lemma flush_fresh interval cost now id mem cpu st (T : UsageTicker.UsageTicker Qc) :
  second <= interval -> UsageTicker.lastSeen T !! id = None -> st < now ->
  exists T' evs, UsageTicker.flushSlice interval cost now id mem cpu (Some st) true true true T = Some (T', evs) /\
    UsageTickerFacts.billed id evs = ntrunc (UsageTickerFacts.secs (Z.min (2 * interval) (now - st))).
Proof.
  intros Hi Hl Hn. unfold UsageTicker.flushSlice. rewrite Hl. cbn [option_map]. unfold second in *.
  destruct (Z.leb_spec (now - st) 0); [lia|].
  assert ((if 2 * interval <? now - st then 2 * interval else now - st) = Z.min (2 * interval) (now - st)) as ->
    by (destruct (Z.ltb_spec (2 * interval) (now - st)); lia).
  rewrite UsageTickerFacts.Seconds_secs. set (e := Z.min _ _).
  destruct (_ <=? 0) eqn:E.
  - do 2 eexists. split; [done|]. destruct (UsageTickerFacts.split_total (UsageTickerFacts.secs e)) as (Hk & _); [|].
    2: { apply Z.leb_le in E. change (UsageTickerFacts.billed id []) with 0. lia. }
    rewrite <- UsageTickerFacts.secs_0. apply UsageTickerFacts.secs_le. unfold e. lia.
  - cbn [negb]. destruct (UsageTicker.scaledCost _ _ _) as [c|] eqn:Ec; [|by apply UsageTickerFacts.scaledCost_total in Ec].
    do 2 eexists. split; [done|]. cbn. rewrite String.eqb_refl. lia.
Qed.

(** The paused tier is billed when it ends in a kill. A VM is paused at [t1], when the
    slice up to then is flushed, and killed at [t2] without having run in between: the
    kill bills once more the time since the VM was started, up to two intervals, whatever
    the ticker knew. *)
Theorem kill_bills_paused_time interval cost DataDir w id l v t1 t2 s1 s2 T :
  second <= interval -> vms w !! id = Some l -> heap w !! l = Some v -> ID v = id -> pausedAt v = None -> StartedAt v < t2 ->
  (forall j, at_time t1 (s1 j)) -> (forall j, at_time t2 (s2 j)) ->
  let '(w1, r1) := run (Pause id) s1 0 w in
  let '(w2, r2) := run (Kill DataDir id) s2 0 w1 in
  match r1 with
  | Ok _ => hooks w2 = hooks w ++ [(t1, hibernate_hook v); (t2, destroy_hook v)] /\
      forall T1 e1, observe interval cost (t1, hibernate_hook v) T = Some (T1, e1) ->
        exists T2 e2, observe interval cost (t2, destroy_hook v) T1 = Some (T2, e2) /\
          UsageTickerFacts.billed id e2 = ntrunc (UsageTickerFacts.secs (Z.min (2 * interval) (t2 - StartedAt v)))
  | Err _ => True
  end.
Proof.
  intros Hi Hr Hh Hid Hp Hst H1 H2. pose proof (wp_run _ _ _ s1 0 w H1 (Pause_hook w id l v Hr Hh t1 Hp)) as P.
  destruct (run (Pause id) s1 0 w) as [w1 [n|e]]; cbn [fst snd] in P; [|by destruct (run _ s2 0 w1)].
  destruct P as (u & Hv & Hu & Est & Emem & Ecpu & Eid & Hk). rewrite <- Hv in Hr.
  pose proof (wp_run _ _ _ s2 0 w1 H2 (Kill_hook w1 id l u Hr Hu DataDir t2)) as K.
  destruct (run _ s2 0 w1) as [w2 r2]. cbn [fst snd] in K. destruct K as [_ Hk2].
  assert (destroy_hook u = destroy_hook v) as Hd by (unfold destroy_hook; congruence).
  split; [by rewrite Hk2, Hk, <- app_assoc, Hd|]. intros T1 e1 HT. unfold destroy_hook. cbn [observe UsageTicker.OnSandboxDestroy billed_as
    UsageTicker.ID UsageTicker.MemoryMB UsageTicker.CpuCount UsageTicker.StartedAt]. rewrite Hid.
  apply flush_fresh; [done| |done]. unfold hibernate_hook in HT. cbn in HT. rewrite Hid in HT.
  unfold UsageTicker.OnSandboxHibernate, UsageTicker.flushSlice in HT. cbn in HT. repeat case_match; simplify_eq; cbn; by rewrite lookup_delete_eq.
Qed.

Definition seconds (n : Z) : input := {| i_ok := true; i_did := true; i_now := n * second; i_num := 0; i_num2 := 0 |}.

(** Thirty seconds of running, a day of pause: seventy seconds are billed. *)
Lemma kill_bills_paused_time_witness :
  let v := heap running !!! 1%nat in
  let w1 := fst (run (Pause "sb-1") (fun _ => seconds 30) 0 running) in
  hooks (fst (run (Kill "/data" "sb-1") (fun _ => seconds 86430) 0 w1)) =
    hooks running ++ [(30 * second, hibernate_hook v); (86430 * second, destroy_hook v)] /\
  exists T1 e1 T2 e2, observe (20 * second) 10 (30 * second, hibernate_hook v) UsageTicker.NewUsageTicker = Some (T1, e1) /\
    UsageTickerFacts.billed "sb-1" e1 = 30 /\
    observe (20 * second) 10 (86430 * second, destroy_hook v) T1 = Some (T2, e2) /\ UsageTickerFacts.billed "sb-1" e2 = 40.
Proof.
  intros v w1.
  pose proof (kill_bills_paused_time (20 * second) 10 "/data" running "sb-1" 1 v (30 * second) (86430 * second)
    (fun _ => seconds 30) (fun _ => seconds 86430) UsageTicker.NewUsageTicker ltac:(by vm_compute) ltac:(by vm_compute) ltac:(by vm_compute)
    ltac:(by vm_compute) ltac:(by vm_compute) ltac:(by vm_compute) ltac:(done) ltac:(done)) as H.
  destruct (observe (20 * second) 10 (30 * second, hibernate_hook v) UsageTicker.NewUsageTicker) as [[T1 e1]|] eqn:E3; [|exfalso; by vm_compute in E3].
  assert (UsageTickerFacts.billed "sb-1" e1 = 30) as Hb1 by (vm_compute in E3; by simplify_eq).
  assert (snd (run (Pause "sb-1") (fun _ => seconds 30) 0 running) = Ok 0) as E1 by by vm_compute.
  destruct (run (Pause "sb-1") (fun _ => seconds 30) 0 running) as [x1 r1]. cbn [fst snd] in w1, E1. subst r1 w1.
  destruct (run (Kill "/data" "sb-1") (fun _ => seconds 86430) 0 x1) as [x2 r2]. destruct H as [Hh H]. split; [exact Hh|].
  destruct (H T1 e1 eq_refl) as (T2 & e2 & E4 & Hb). exists T1, e1, T2, e2. split; [done|]. split; [done|]. split; [exact E4|].
  rewrite Hb. by vm_compute.
Defined.

(** ** A promotion that fails *)

Definition unresponsive : result string (string * dir) := Err "agent unresponsive"%string.

Ltac other_error :=
  repeat first [ progress cbn [wp fst snd negb release_network] | wp_step | apply wp_command; intros ? _; cbn [fst snd] | progress case_match ]; try done.

Lemma finish_other DataDir l good w : wp good (finish_hibernate DataDir l) (fun r _ => r <> unresponsive) w.
Proof.
  unfold finish_hibernate. do 8 wp_step. wp_step; [done|]. do 3 wp_step. destruct (network _); cbn [release_network]; other_error.
Qed.

Lemma save_other DataDir l good w : wp good (save_state DataDir l (finish_hibernate DataDir l)) (fun r _ => r <> unresponsive) w.
Proof.
  unfold save_state. do 2 wp_step. destruct (qmp _); cbn [negb]; [|done]. wp_step. apply wp_command. intros i _. cbv beta. cbn [fst snd].
  destruct (i_ok i); cbn [negb]; [|done]. wp_step. apply wp_command. intros i2 _. cbv beta. cbn [fst snd].
  destruct (i_ok i2); cbn [negb]; [apply finish_other|]. wp_step. apply wp_command. intros i3 _. do 4 wp_step; done.
Qed.

Section Promotion.
Variables (DataDir : string) (w : world) (l : nat).

(** The VM runs again, but is still marked paused. *)
Definition stuck (x : world) : Prop :=
  vms x = vms w /\ (exists v, heap x !! l = Some v /\ pid v = l /\ Status v = SandboxStatusPaused /\ pausedAt v = None) /\
  exists p, procs x !! l = Some p /\ p_vcpus p = true /\ p_zombie p = false.

Definition unlocked_at (x : world) : Prop := forall v, heap x !! l = Some v -> opMu v = false.

Lemma freeze_stuck k x : stuck x -> wp honest (freeze k l) (fun b y => b = true \/ stuck y) x.
Proof.
  intros Hs. induction k as [|k IH]; cbn [freeze]; [by do 2 wp_step; right|]. wp_step. apply wp_command. intros i _. cbv beta. cbn [fst snd].
  destruct (i_ok i); [by left|done].
Qed.

Lemma promotion_stuck x v p t :
  vms x = vms w -> heap x !! l = Some v -> pid v = l -> Status v = SandboxStatusPaused -> pausedAt v = Some t -> qmp v = true ->
  agent v = true -> procs x !! l = Some p -> p_zombie p = false ->
  wp honest (doHibernate DataDir l) (fun r y => r = unresponsive -> stuck y) x.
Proof.
  intros Hv Hh Hp Hst Hpa Hq Ha Hpr Hz. unfold doHibernate. do 2 wp_step. rewrite (lookup_total_correct _ _ _ Hh), Hpa, Hq, Ha.
  rewrite bool_decide_true by done. cbn [andb]. wp_step. apply wp_command. intros i Hi. cbv beta. rewrite Hi.
  destruct (i_ok i); cbn [fst snd negb]; [|done]. do 2 wp_step. wp_step; [done|]. wp_step.
  eapply wp_mono; [|apply (freeze_stuck 3)].
  - intros [] y Hy; cbn [negb]; [|destruct Hy as [|Hy]; [done|by intros _]]. do 2 wp_step. eapply wp_mono; [|apply save_other]. intros r z Hr E. by destruct (Hr E).
  - unfold vcpus. rewrite (lookup_total_correct _ _ _ Hh), Hp. split; [done|]. split; cbn.
    + eexists. rewrite lookup_alter_eq, Hh. split; [done|]. done.
    + eexists. rewrite lookup_alter_eq, Hpr. split; [done|]. done.
Qed.

End Promotion.

(** A promotion of a paused VM to hibernation that fails because the guest's agent
    does not answer leaves the VM running on the customer's behalf but marked paused
    for good: its vCPUs run, its status is what the ticker skips, and a resume succeeds
    without doing anything. *)
Theorem failed_promotion_unbilled DataDir w id l v p t s :
  vms w !! id = Some l -> heap w !! l = Some v -> pid v = l -> Status v = SandboxStatusPaused -> pausedAt v = Some t ->
  qmp v = true -> agent v = true -> procs w !! l = Some p -> p_zombie p = false -> (forall j, honest (s j)) ->
  let '(w1, r1) := run (Hibernate DataDir id) s 0 w in
  r1 = unresponsive ->
  exists v1 p1, vms w1 !! id = Some l /\ heap w1 !! l = Some v1 /\ Status v1 = SandboxStatusPaused /\ pausedAt v1 = None /\
    procs w1 !! l = Some p1 /\ p_vcpus p1 = true /\
    forall s2, let '(w2, r2) := run (Resume id) s2 0 w1 in r2 = Ok tt /\ heap w2 !! l = Some v1 /\ procs w2 = procs w1.
Proof.
  intros Hr Hh Hp Hst Hpa Hq Ha Hpr Hz Hs.
  assert (wp honest (Hibernate DataDir id) (fun r y => r = unresponsive -> stuck w l y /\ unlocked_at l y) w) as H.
  { unfold Hibernate. do 2 wp_step. rewrite Hr. unfold checkRootfsPressure. do 3 wp_step. rewrite (lookup_total_correct _ _ _ Hh), Ha. cbn [negb].
    apply wp_command. intros i _. cbn [fst snd]. case_match; cbn [negb]; [done|]. wp_step. apply wp_command. intros i2 _. cbn [fst snd].
    rewrite Hh. destruct (opMu v); cbn [negb]; [done|]. wp_step. apply wp_command. intros i3 _. cbn [fst snd]. wp_step.
    eapply wp_mono; [|apply (promotion_stuck _ w _ _ (set_opMu true v) p t); try done; cbn; by rewrite lookup_alter_eq, Hh].
    intros r y Hy. destruct r as [x|e]; [by repeat wp_step|]. do 3 wp_step. do 2 wp_step. intros E.
    destruct (Hy E) as (Hv & (u & Hu & Hpu & Hsu & Hpau) & q & Hq' & Hrun & Hzq).
    assert (vmAlive y l = true) as Hal by (unfold vmAlive; by rewrite (lookup_total_correct _ _ _ Hu), Hpu, Hq', Hzq).
    rewrite Hal. split; [split_and!; [done| |by exists q]|].
    - exists (set_opMu false u). cbn. by rewrite lookup_alter_eq, Hu.
    - intros u'. cbn. rewrite lookup_alter_eq, Hu. by intros [= <-]. }
  pose proof (wp_run _ _ _ s 0 w Hs H) as R. destruct (run _ s 0 w) as [w1 r1]. cbn [fst snd] in R. intros E.
  destruct (R E) as [(Hv & (v1 & Hv1 & Hp1 & Hs1 & Hpa1) & p1 & Hpr1 & Hrun & _) Hu]. exists v1, p1. rewrite Hv. split_and!; try done.
  intros s2. assert (wp any (Resume id) (fun r2 w2 => r2 = Ok tt /\ heap w2 !! l = Some v1 /\ procs w2 = procs w1) w1) as HR.
  { unfold Resume, locked. do 2 wp_step. rewrite Hv, Hr. wp_step. apply wp_command. intros i _. cbn [fst snd]. rewrite Hv1, (Hu _ Hv1). cbn [negb].
    do 3 wp_step. cbn [heap on_heap]. rewrite (lookup_total_correct _ _ (set_opMu true v1)) by (by rewrite lookup_alter_eq, Hv1).
    change (pausedAt (set_opMu true v1)) with (pausedAt v1). rewrite Hpa1. do 4 wp_step. cbn. rewrite !lookup_alter_eq, Hv1. split_and!; [done| |done].
    cbn. f_equal. pose proof (Hu _ Hv1). by destruct v1; cbn in *; subst. }
  pose proof (wp_run any _ _ s2 0 w1 (fun _ => I) HR) as R2. by destruct (run _ s2 0 w1).
Qed.

(** The agent stops answering after nine commands. *)
Definition silent_agent (j : nat) : input := if Nat.ltb j 9 then yes else no.

Lemma failed_promotion_unbilled_witness :
  let paused := fst (run (Pause "sb-1") (fun _ => yes) 0 running) in
  let stuck := fst (run (Hibernate "/data" "sb-1") silent_agent 0 paused) in
  guest paused "sb-1" = Some (SandboxStatusPaused, Some 0, Some {| p_sandbox := "sb-1"; p_start := 0; p_vcpus := false; p_zombie := false; p_frozen := false |}) /\
  exists v p, heap stuck !! 1%nat = Some v /\ Status v = SandboxStatusPaused /\ procs stuck !! 1%nat = Some p /\ p_vcpus p = true.
Proof.
  intros paused. split; [by vm_compute|].
  pose proof (failed_promotion_unbilled "/data" paused "sb-1" 1 (heap paused !!! 1%nat)
    {| p_sandbox := "sb-1"; p_start := 0; p_vcpus := false; p_zombie := false; p_frozen := false |} 0 silent_agent
    ltac:(by vm_compute) ltac:(by vm_compute) ltac:(by vm_compute) ltac:(by vm_compute) ltac:(by vm_compute) ltac:(by vm_compute)
    ltac:(by vm_compute) ltac:(by vm_compute) ltac:(done) ltac:(intros j; unfold silent_agent; by destruct (Nat.ltb j 9))) as H.
  assert (snd (run (Hibernate "/data" "sb-1") silent_agent 0 paused) = unresponsive) as E by by vm_compute.
  destruct (run (Hibernate "/data" "sb-1") silent_agent 0 paused) as [w1 r1]. cbn [fst snd] in *.
  destruct (H E) as (v1 & p1 & _ & Hv & Hs & _ & Hp & Hr & _). by exists v1, p1.
Defined.

End QemuBilling.
