(* ===== verification/QemuResize.v ===== *)
(** * Resizing a VM, and the reapers

    What a resize of the memory keeps to: the guest's working set, the host's
    reserve, whole blocks; the gate of two resizes that overlap; and which
    processes and directories the orphan reaper touches. *)

From Stdlib Require Import Ascii.
From S2P Require Import Prelude Subnet SecretsProxy Threads QemuVm QemuSnapshot QemuSnapshotFacts QemuVmFacts.
#[local] Open Scope Z_scope.

Module QemuResize.
Import QemuSnapshotFacts.

(** ** Blocks *)

Lemma align_spec mb : 0 <= mb -> exists k, 0 <= k /\ alignVirtioMemBlock mb = k * virtioMemBlockSizeMB /\ mb <= k * virtioMemBlockSizeMB < mb + virtioMemBlockSizeMB.
Proof.
  intros Hmb. unfold alignVirtioMemBlock, virtioMemBlockSizeMB. destruct (Z.leb_spec mb 0); [exists 0; lia|].
  rewrite Z.quot_div_nonneg by lia. pose proof (Z.div_mod (mb + 128 - 1) 128 ltac:(lia)). pose proof (Z.mod_pos_bound (mb + 128 - 1) 128 ltac:(lia)).
  exists ((mb + 128 - 1) / 128). lia.
Qed.

(** The memory of a VM is its base and the whole blocks that were plugged. *)
Definition accounted (v : VMInstance) : Prop :=
  MemoryMB v = baseMemoryMB v + virtioMemRequestedMB v /\ exists k, 0 <= k /\ virtioMemRequestedMB v = k * virtioMemBlockSizeMB.

(** The host's memory that a growth may take. *)
Definition headroom (i : input) : Z := i_num i - i_num2 i - Z.quot (i_num i) 5.

Section Resize.
Variables (l : nat) (v : VMInstance) (bytes : Z).
Hypothesis Hqmp : qmp v = true.
Hypothesis Hbytes : 0 < bytes.
Abbreviation want := (Z.quot bytes MiB).
Definition target : Z := alignVirtioMemBlock (Z.max 0 (want - baseMemoryMB v)).

(** [w'] is [w] with other memory figures of the VM. *)
Definition replugged (w w' : world) : Prop :=
  exists u, heap w' = <[l := u]> (heap w) /\ MemoryMB u = baseMemoryMB v + target /\ virtioMemRequestedMB u = target /\
    baseMemoryMB u = baseMemoryMB v /\ vms w' = vms w /\ procs w' = procs w /\ dirs w' = dirs w /\ subnets w' = subnets w.

Lemma adjust_cases w s n :
  heap w !! l = Some v ->
  let '(w', r) := run (adjust_memory l bytes) s n w in
  match r with
  | Err _ => w' = w
  | Ok _ => (w' = w /\ target = virtioMemRequestedMB v) \/
      replugged w w' /\ (virtioMemRequestedMB v < target -> target - virtioMemRequestedMB v <= headroom (s (S n)))
  end.
Proof.
  intros Hh. unfold adjust_memory, deref, read, command. cbn [bind run]. rewrite (lookup_total_correct _ _ _ Hh), Hqmp.
  destruct (Z.ltb_spec 0 bytes); [|lia]. cbn [andb]. fold target.
  assert (forall j, let '(w', r) := run (hotplug l target) s j w in match r with Err _ => w' = w | Ok _ => replugged w w' end) as Hplug.
  { intros j. unfold hotplug, ask, modify, command. cbn [bind run]. destruct (i_ok (s j)); cbn [negb bind run]; [|done].
    rewrite (lookup_total_correct _ _ _ Hh). pose proof (QemuVmFacts.alter_there (fun v => set_memory (baseMemoryMB v + target) target v) _ _ _ Hh) as Ea.
    destruct (_ <? _).
    - exists (set_ready (Some (fresh w)) (set_memory (baseMemoryMB v + target) target v)). split; [|done].
      cbn [heap on_watchers on_fresh on_heap]. rewrite Ea. erewrite QemuVmFacts.alter_there by (by rewrite lookup_insert_eq). by rewrite insert_insert_eq.
    - exists (set_memory (baseMemoryMB v + target) target v). split; [|done]. exact Ea. }
  destruct (Z.ltb_spec (virtioMemRequestedMB v) target).
  - cbn [bind run]. destruct (Z.leb_spec (target - virtioMemRequestedMB v) (i_num (s (S n)) - i_num2 (s (S n)) - Z.quot (i_num (s (S n))) 5)); cbn [negb run]; [|done].
    destruct (Z.eqb_spec target (virtioMemRequestedMB v)); [lia|]. specialize (Hplug (S (S n))). destruct (run _ s _ w) as [w' [|]]; [by right|done].
  - cbn [bind run negb]. destruct (Z.eqb_spec target (virtioMemRequestedMB v)); [by left|]. specialize (Hplug (S n)).
    destruct (run _ s _ w) as [w' [|]]; [right; split; [done|lia]|done].
Qed.

End Resize.

(** What a resize of [v] to [want] megabytes may end in: [stats] is the guest's answer
    about its working set, [host] the host's about its memory. *)
Record resized (w : world) (l : nat) (v : VMInstance) (want : Z) (stats host : input) (w' : world) (r : result string unit) (v' : VMInstance) : Prop := {
  rs_heap : heap w' = <[l := v']> (heap w);
  rs_rest : vms w' = vms w /\ procs w' = procs w /\ dirs w' = dirs w /\ subnets w' = subnets w;
  rs_accounted : accounted v';
  rs_base : baseMemoryMB v' = baseMemoryMB v;
  rs_refused : forall e, r = Err e -> e = "agent"%string \/ v' = v;
  rs_bounds : r = Ok tt -> want <= MemoryMB v' < Z.max want (baseMemoryMB v) + virtioMemBlockSizeMB;
  rs_shrink : MemoryMB v' < MemoryMB v -> i_ok stats = true /\ (0 < i_num stats -> floorMB (i_num stats) <= want);
  rs_grow : MemoryMB v < MemoryMB v' -> MemoryMB v' - MemoryMB v <= headroom host
}.

Section Endings.
Variables (w : world) (l : nat) (v : VMInstance) (bytes : Z) (s5 s6 : input).
Hypothesis Hh : heap w !! l = Some v.
Hypothesis Hacc : accounted v.
#[local] Abbreviation want := (Z.quot bytes MiB).
#[local] Abbreviation ends := (resized w l v want s5 s6).

Lemma target_bounds : 
  exists k, 0 <= k /\ target v bytes = k * virtioMemBlockSizeMB /\
    want <= baseMemoryMB v + target v bytes < Z.max want (baseMemoryMB v) + virtioMemBlockSizeMB.
Proof. destruct (align_spec (Z.max 0 (want - baseMemoryMB v)) ltac:(lia)) as (k & Hk & Ht & Hbd). exists k. unfold target. lia. Qed.

Lemma unchanged_ends hs r : (r = Ok tt -> target v bytes = virtioMemRequestedMB v) -> ends (on_hooks hs w) r v.
Proof.
  intros Hr. destruct target_bounds as (k & Hk & Ht & Hb). destruct Hacc as [Hm _].
  split; try done; [cbn; by rewrite insert_id|intros e _; by right|intros E; specialize (Hr E); lia|lia|lia].
Qed.

Lemma replugged_ends hs w' r :
  replugged l v bytes (on_hooks hs w) w' -> (forall e, r = Err e -> e = "agent"%string) ->
  (want < MemoryMB v -> i_ok s5 = true /\ (0 < i_num s5 -> floorMB (i_num s5) <= want)) ->
  (MemoryMB v <= want -> virtioMemRequestedMB v < target v bytes -> target v bytes - virtioMemRequestedMB v <= headroom s6) ->
  exists v', ends w' r v'.
Proof.
  intros (u & Hu & Hmem & Hreq & Hbase & Hrest) Hr Hs Hg. destruct target_bounds as (k & Hk & Ht & Hb). destruct Hacc as [Hm (k0 & Hk0 & Hr0)].
  exists u. split; try done.
  - split; [lia|]. exists k. lia.
  - intros e He. left. by apply Hr.
  - lia.
  - intros Hlt. apply Hs. lia.
  - intros Hlt. rewrite Hmem, Hm in *. unfold virtioMemBlockSizeMB in *. replace (_ - _) with (target v bytes - virtioMemRequestedMB v) by lia. apply Hg; lia.
Qed.

(** The plugging and the guest's own limits. *)
Lemma resize_tail s hs n :
  qmp v = true -> 0 < bytes ->
  (want < MemoryMB v -> i_ok s5 = true /\ (0 < i_num s5 -> floorMB (i_num s5) <= want)) ->
  (MemoryMB v <= want -> s (S n) = s6) ->
  let '(w', r) := run (bind (adjust_memory l bytes) (fun a => match a with Err e => Ret (Err e) | Ok _ =>
    Atom (fun i w => (w, i_ok i)) (fun ok : bool => Ret (if ok then Ok tt else Err "agent"%string)) end)) s n (on_hooks hs w) in
  exists v', ends w' r v'.
Proof.
  intros Hq Hb Hs Hg. rewrite run_seq. pose proof (adjust_cases l v bytes Hq Hb (on_hooks hs w) s n Hh) as Hadj.
  destruct (run (adjust_memory l bytes) s n _) as [w' [[]|e]]; cbn [run]; [|subst w'; exists v; by apply unchanged_ends].
  destruct Hadj as [[-> Ht]|[Hp Hgr]]; [exists v; by apply unchanged_ends|]. eapply replugged_ends; [exact Hp| |done|].
  - intros e. destruct (i_ok (s _)); intros E; by simplify_eq.
  - intros Hw. rewrite <- (Hg Hw). done.
Qed.

End Endings.



(** A shrink to two gigabytes of a guest that uses one. *)
Definition one_gig (_ : nat) : input := {| i_ok := true; i_did := true; i_now := 0; i_num := 1024 * MiB; i_num2 := 0 |}.


(** ** The gate of two resizes *)

(** Two resizes, the second after the first one's gate timed out; their watchers
    both find the gate open and both close it. *)
Definition grow (id : string) (mb : Z) : program unit := QemuVmFacts.quietly (SetResourceLimits id (mb * MiB)).
Definition plenty : input := {| i_ok := true; i_did := true; i_now := 0; i_num := 10 ^ 9; i_num2 := 0 |}.

Lemma hotplug_watchers_panic :
  let w := fst (exec (QemuVmFacts.one_vm, []) ([Start (grow "sb-1" 2048)] ++ repeat (Run 0 plenty) 12 ++ [Start (grow "sb-1" 4096)] ++ repeat (Run 1 plenty) 12)) in
  watchers w = [(1%nat, 1024); (1%nat, 3072)] /\ panicked w = false /\
  panicked (fst (exec (w, []) (map (fun '(l, mb) => Start (watchMemoryHotplug l mb)) (watchers w) ++
    repeat (Run 0 plenty) 5 ++ repeat (Run 1 plenty) 5 ++ [Run 0 plenty; Run 1 plenty]))) = true.
Proof. by vm_compute. Qed.

(** ** Orphans *)

#[local] Abbreviation found := (string * (nat * Z))%type.
#[local] Abbreviation scan_step := (fun (out : list found) '((n, p) : nat * proc) =>
  if existsb (fun x => String.eqb (fst x) (p_sandbox p)) out then out else out ++ [(p_sandbox p, (n, p_start p))]).

Definition entry (np : nat * proc) : found := (p_sandbox (snd np), (fst np, p_start (snd np))).

(** The scan keeps entries of processes only, and one for every sandbox seen. *)
Lemma scan_fold l out :
  (forall x, In x (fold_left scan_step l out) -> In x out \/ In x (map entry l)) /\
  (forall x, In x out -> In x (fold_left scan_step l out)) /\
  (forall n p, In (n, p) l -> exists x, In x (fold_left scan_step l out) /\ fst x = p_sandbox p).
Proof.
  revert out. induction l as [|[m q] l IH]; intros out; [by split_and!; auto|]. cbn [fold_left map].
  destruct (existsb (fun x => String.eqb (fst x) (p_sandbox q)) out) eqn:E.
  - destruct (IH out) as (H1 & H2 & H3). split_and!; [|done|].
    + intros x Hx. destruct (H1 x Hx); [by left|right; by right].
    + intros n p [[= -> ->]|Hi]; [|by eapply H3]. apply existsb_exists in E as (x & Hx & Ex). exists x. split; [auto|]. by apply String.eqb_eq.
  - destruct (IH (out ++ [(p_sandbox q, (m, p_start q))])) as (H1 & H2 & H3). split_and!.
    + intros x Hx. destruct (H1 x Hx) as [Hx'|]; [|right; by right]. apply in_app_iff in Hx' as [|[<-|[]]]; [by left|right; by left].
    + intros x Hx. apply H2, in_app_iff. by left.
    + intros n p [[= -> ->]|Hi]; [|by eapply H3]. eexists. split; [apply H2, in_app_iff; right; by left|done].
Qed.

Lemma in_processes w n p : In (n, p) (map_to_list (procs w)) <-> procs w !! n = Some p.
Proof. by rewrite <- elem_of_map_to_list, <- list_elem_of_In. Qed.

Lemma scan_sound w id n start : In (id, (n, start)) (scanQEMUProcesses w) -> exists p, procs w !! n = Some p /\ p_sandbox p = id /\ p_start p = start.
Proof.
  intros Hi. apply (proj1 (scan_fold (map_to_list (procs w)) [])) in Hi as [[]|Hi]. apply in_map_iff in Hi as ([m p] & [= <- <- <-] & Hp).
  exists p. by rewrite in_processes in Hp.
Qed.

Lemma scan_complete w n p : procs w !! n = Some p ->
  (forall n' p', procs w !! n' = Some p' -> p_sandbox p' = p_sandbox p -> n' = n) -> In (p_sandbox p, (n, p_start p)) (scanQEMUProcesses w).
Proof.
  intros Hp Hu. destruct (scan_fold (map_to_list (procs w)) []) as (_ & _ & H). destruct (H n p) as ([id [n' st]] & Hx & Eid); [by apply in_processes|].
  fold (scanQEMUProcesses w) in Hx. destruct (scan_sound _ _ _ _ Hx) as (p' & Hp' & Es & Est). cbn in Eid. subst id.
  assert (n' = n) as -> by (eapply Hu; [exact Hp'|congruence]). simplify_eq. congruence.
Qed.

Lemma app_inj_l (a b c : string) : (a +:+ b)%string = (a +:+ c)%string -> b = c.
Proof. induction a as [|x a IH]; [done|]. intros [= H]. auto. Qed.

Definition no_slash (id : string) : Prop := ~ In "/"%char (raw id).

Lemma orphan_path DataDir id id' : no_slash id -> (DataDir +:+ "/sandboxes/sandboxes/" +:+ id')%string <> sandbox_dir DataDir id.
Proof.
  intros Hn E. unfold sandbox_dir in E. apply app_inj_l, (app_inj_l "/sandboxes/" ("sandboxes/" +:+ id')) in E.
  apply Hn. rewrite <- E. cbn. do 9 right. by left.
Qed.

(** Whether the reaper kills process [n] for an entry of the scan. *)
Definition reaps (known : gset string) (t : Z) (n : nat) (x : found) : bool :=
  negb (bool_decide (fst x ∈ known)) && (orphanYoungProcessGrace <=? t - snd (snd x)) && (fst (snd x) =? n)%nat.

Lemma reap_loop DataDir known t (l : list found) x :
  wp (fun i => i_now i = t) (for_each l (fun '(id, (n, start)) =>
    if bool_decide (id ∈ known) then Ret tt
    else if t - start <? orphanYoungProcessGrace then Ret tt
    else bind (modify (on_procs (delete n))) (fun _ => RemoveAll (DataDir +:+ "/sandboxes/sandboxes/" +:+ id))))
    (fun _ y => vms y = vms x /\ heap y = heap x /\
      (forall n, procs y !! n = if existsb (reaps known t n) l then None else procs x !! n) /\
      (forall id, no_slash id -> dirs y !! sandbox_dir DataDir id = dirs x !! sandbox_dir DataDir id)) x.
Proof.
  revert x. induction l as [|[id [n start]] l IH]; intros x; cbn [for_each]; [done|]. wp_step. unfold reaps at 1. cbn [existsb fst snd].
  case_bool_decide; cbn [negb andb orb]; [apply IH|]. destruct (Z.ltb_spec (t - start) orphanYoungProcessGrace).
  - wp_step. destruct (Z.leb_spec orphanYoungProcessGrace (t - start)); [lia|]. cbn [andb orb]. apply IH.
  - destruct (Z.leb_spec orphanYoungProcessGrace (t - start)); [|lia]. cbn [andb]. do 3 wp_step. eapply wp_mono; [|apply IH].
    intros [] y (Y1 & Y2 & Y3 & Y4). cbn in Y1, Y2, Y3, Y4. split_and!; [done|done| |].
    + intros m. rewrite Y3. destruct (existsb _ l); [by rewrite orb_true_r|]. rewrite orb_false_r.
      destruct (Nat.eqb_spec n m) as [->|]; [by rewrite lookup_delete_eq|by rewrite lookup_delete_ne].
    + intros id' Hn. rewrite Y4 by done. rewrite lookup_delete_ne; [done|by apply orphan_path].
Qed.

Lemma reap_exact DataDir w s t :
  (forall j, i_now (s j) = t) ->
  let w' := fst (run (reapOrphans DataDir) s 0 w) in
  vms w' = vms w /\ heap w' = heap w /\
  (forall n, procs w' !! n = if existsb (reaps (dom (vms w)) t n) (scanQEMUProcesses w) then None else procs w !! n) /\
  (forall id, no_slash id -> dirs w' !! sandbox_dir DataDir id = dirs w !! sandbox_dir DataDir id).
Proof.
  intros Ht. apply (wp_run (fun i => i_now i = t) (reapOrphans DataDir) (fun _ y => vms y = vms w /\ heap y = heap w /\
    (forall n, procs y !! n = if existsb (reaps (dom (vms w)) t n) (scanQEMUProcesses w) then None else procs w !! n) /\
    (forall id, no_slash id -> dirs y !! sandbox_dir DataDir id = dirs w !! sandbox_dir DataDir id)) s 0 w Ht).
  unfold reapOrphans. do 2 wp_step. destruct (scanQEMUProcesses w) as [|x l] eqn:E; [done|]. do 2 wp_step. wp_step. apply wp_command.
  intros i <-. cbn [fst snd]. apply reap_loop.
Qed.

(** The orphan reaper kills no process of a sandbox that is registered, and none
    that is younger than five minutes, so a wake or a creation that has started its
    process and not yet registered it is safe; an older process that is the only one of
    a sandbox nobody has registered is killed. The files of every sandbox are left, the
    reaped ones too: the directory it removes is not where sandboxes are kept. *)
Theorem orphans_reaped DataDir w s t :
  (forall j, i_now (s j) = t) ->
  let w' := fst (run (reapOrphans DataDir) s 0 w) in
  vms w' = vms w /\ heap w' = heap w /\
  (forall n p, procs w !! n = Some p -> p_sandbox p ∈ dom (vms w) \/ t - p_start p < orphanYoungProcessGrace -> procs w' !! n = Some p) /\
  (forall n p, procs w !! n = Some p -> p_sandbox p ∉ dom (vms w) -> orphanYoungProcessGrace <= t - p_start p ->
     (forall n' p', procs w !! n' = Some p' -> p_sandbox p' = p_sandbox p -> n' = n) -> procs w' !! n = None) /\
  (forall id, no_slash id -> dirs w' !! sandbox_dir DataDir id = dirs w !! sandbox_dir DataDir id).
Proof.
  intros Ht w'. destruct (reap_exact DataDir w s t Ht) as (H1 & H2 & H3 & H4). fold w' in H1, H2, H3, H4. split_and!; try done.
  - intros n p Hp Hs. rewrite H3. destruct (existsb _ _) eqn:E; [|done]. exfalso. apply existsb_exists in E as ([id [m st]] & Hi & Hr).
    unfold reaps in Hr. cbn in Hr. rewrite !andb_true_iff, negb_true_iff, bool_decide_eq_false, Nat.eqb_eq in Hr. destruct Hr as [[Hn Hg] ->].
    destruct (scan_sound _ _ _ _ Hi) as (q & Hq & <- & <-). simplify_eq. apply Z.leb_le in Hg. destruct Hs; [done|lia].
  - intros n p Hp Hn Hg Hu. rewrite H3. assert (existsb (reaps (dom (vms w)) t n) (scanQEMUProcesses w) = true) as ->; [|done].
    apply existsb_exists. eexists. split; [by apply scan_complete|]. unfold reaps. cbn. rewrite bool_decide_false by done. rewrite Nat.eqb_refl.
    cbn. rewrite andb_true_r. by apply Z.leb_le.
Qed.

(** A registered VM, an orphan and a process that has just started, after ten minutes. *)
Definition with_orphans : world :=
  on_procs (fun m => <[2%nat := {| p_sandbox := "sb-2"; p_start := 0; p_vcpus := true; p_zombie := false; p_frozen := false |}]>
    (<[3%nat := {| p_sandbox := "sb-3"; p_start := 590 * 10 ^ 9; p_vcpus := true; p_zombie := false; p_frozen := false |}]> m)) QemuVmFacts.one_vm.
Definition ten_minutes (_ : nat) : input := {| i_ok := true; i_did := true; i_now := 600 * 10 ^ 9; i_num := 0; i_num2 := 0 |}.

Lemma orphans_reaped_witness :
  let w' := fst (run (reapOrphans "/data") ten_minutes 0 with_orphans) in
  procs w' !! 1%nat = procs with_orphans !! 1%nat /\ procs w' !! 3%nat = procs with_orphans !! 3%nat /\ procs w' !! 2%nat = None.
Proof.
  intros w'. destruct (orphans_reaped "/data" with_orphans ten_minutes (600 * 10 ^ 9) (fun _ => eq_refl)) as (_ & _ & Hkeep & _).
  split_and!; [| |by vm_compute].
  - apply (Hkeep 1%nat); [by vm_compute|]. left. apply elem_of_dom. exists 1%nat. by vm_compute.
  - apply (Hkeep 3%nat); [by vm_compute|]. right. by vm_compute.
Defined.

End QemuResize.
