(* ===== verification/SandboxProxy.v ===== *)
(** * The data-plane proxy

    src/internal/proxy/sandbox_api_proxy.go: requests for a sandbox that reach a
    control plane are forwarded to the worker that has it, through a short cache of
    routes in Redis; a sandbox that is hibernated is woken on the way. With it the
    check that a worker makes of the token it is handed (src/internal/auth/middleware.go)
    and the sandbox tokens of src/internal/auth/jwt.go; a token is its claims, since a
    worker accepts what is signed with the shared secret. Several control planes serve
    requests at once, each with its own copy of the worker registry, over one database
    and one Redis: every statement, command and call is a step. Times are in seconds. *)

From S2P Require Import Prelude GoFloat SessionStore Registry Replacer SecretsProxy Threads.
#[local] Open Scope Z_scope.

Module SandboxProxy.
Export Threads.
Import Replacer.
#[local] Open Scope prog_scope.

(** ** Requests, tokens, replies *)

(** [q_org]: the organisation the caller authenticated as, if any; [q_async]: the header
    X-OSB-Async-Wake; [q_upgrade]: a websocket upgrade. *)
Record request := { q_id : string; q_method : string; q_path : string; q_org : option string; q_async : bool; q_upgrade : bool }.

Definition uuid_Nil : string := "00000000-0000-0000-0000-000000000000".

(** [SandboxClaims], with the expiry. *)
Record SandboxClaims := { c_OrgID : string; c_SandboxID : string; c_WorkerID : string; c_exp : Z }.

(** A JSON reply with a status, or what the worker at an address answers. *)
Inductive response := Reply (code : Z) | Forward (url : string) (token : option SandboxClaims).

(** [routeCacheEntry] *)
Record routeCacheEntry := { r_WorkerURL : string; r_WorkerID : string; r_Token : option SandboxClaims }.

(** A request that a worker received: the address, the sandbox, the token. *)
Record delivery := { d_url : string; d_id : string; d_token : option SandboxClaims }.

(** [registries]: the workers as each control plane knows them. [cache] and [waking]: the
    two kinds of Redis keys, with their expiry. [vms]: which worker runs a VM of which
    sandbox. [served]: what the workers received. [spawned]: the background wakes started. *)
Record world := mkP {
  store : SessionStore.db;
  registries : gmap string Registry.RedisWorkerRegistry;
  cache : gmap string (routeCacheEntry * Z);
  waking : gmap string Z;
  vms : gset (string * string);
  served : list delivery;
  spawned : list string
}.

Definition on_store f w := mkP (f (store w)) (registries w) (cache w) (waking w) (vms w) (served w) (spawned w).
Definition on_registries f w := mkP (store w) (f (registries w)) (cache w) (waking w) (vms w) (served w) (spawned w).
Definition on_cache f w := mkP (store w) (registries w) (f (cache w)) (waking w) (vms w) (served w) (spawned w).
Definition on_waking f w := mkP (store w) (registries w) (cache w) (f (waking w)) (vms w) (served w) (spawned w).
Definition on_vms f w := mkP (store w) (registries w) (cache w) (waking w) (f (vms w)) (served w) (spawned w).
Definition on_served f w := mkP (store w) (registries w) (cache w) (waking w) (vms w) (f (served w)) (spawned w).
Definition on_spawned f w := mkP (store w) (registries w) (cache w) (waking w) (vms w) (served w) (f (spawned w)).

(** The answer to a step: whether it is reported as done, whether it was done, the time,
    the placement counters and the round-robin number, a fresh identifier. *)
Record input := { i_ok : bool; i_did : bool; i_now : Z; i_counts : string -> option Z; i_rr : Z; i_uid : string }.

Abbreviation program := (prog world input).

Definition ask : program bool := command (fun i w => (w, i_ok i)).

(** A statement whose error is ignored. *)
Definition exec_store (f : input -> SessionStore.db -> SessionStore.db) : program unit :=
  command (fun i w => (if i_did i then on_store (f i) w else w, tt)).

Section Config.
(** Go's map order, whether Redis, a token issuer and the ready callback are configured;
    [cp]: the control plane. [parses]: whether [url.Parse] reads an address. *)
Context (order : list Registry.WorkerEntry -> list Registry.WorkerEntry).
Variables has_redis has_issuer has_ready : bool.
Variable cp : string.
Variable parses : string -> bool.

Definition registry (w : world) : Registry.RedisWorkerRegistry := default Registry.new_registry (registries w !! cp).

(** ** The route cache *)

Definition routeCacheTTL : Z := 3.

Definition cached (now : Z) (id : string) (w : world) : option routeCacheEntry :=
  match cache w !! id with
  | Some (e, expiry) => if now <? expiry then Some e else None
  | None => None
  end.

(** [proxyRouteCache.get], [set], [invalidate] *)
Definition cache_get (id : string) : program (option routeCacheEntry) :=
  command (fun i w => (w, if has_redis && i_ok i then cached (i_now i) id w else None)).
Definition cache_set (id : string) (e : routeCacheEntry) : program unit :=
  command (fun i w => (if has_redis && i_did i then on_cache (insert id (e, i_now i + routeCacheTTL)) w else w, tt)).
Definition cache_invalidate (id : string) : program unit :=
  command (fun i w => (if has_redis && i_did i then on_cache (delete id) w else w, tt)).

(** [InvalidateRouteCache] *)
Definition InvalidateRouteCache := cache_invalidate.

(** ** Tokens *)

(** [IssueSandboxToken] for five minutes, as [mintToken] and [forward] call it. *)
Definition mintToken (q : request) (workerID : string) : program (option SandboxClaims) :=
  command (fun i w => (w,
    if has_issuer && i_ok i then
      Some {| c_OrgID := default uuid_Nil (q_org q); c_SandboxID := q_id q; c_WorkerID := workerID; c_exp := i_now i + 5 * 60 |}
    else None)).

(** [SandboxJWTMiddleware] on the worker: the organisation it sets, if it lets the
    request for [id] through. *)
Definition SandboxJWTMiddleware (now : Z) (id : string) (t : SandboxClaims) : option string :=
  if c_exp t <=? now then None
  else if negb (String.eqb id "") && negb (String.eqb (c_SandboxID t) id) then None
  else Some (c_OrgID t).

(** ** Paths *)

(** [strings.Contains] *)
Fixpoint contains (b sub : bytes) : bool :=
  starts_with sub b || match b with [] => false | _ :: b => contains b sub end.

Definition isAsyncExecPath (q : request) : bool :=
  (String.eqb (q_method q) "POST" && SecretsProxy.HasSuffix (q_path q) "/exec/run-async") ||
  (String.eqb (q_method q) "GET" && SecretsProxy.HasSuffix (q_path q) "/result").
Definition isFilesPath (q : request) : bool := contains (raw (q_path q)) (raw "/files").

(** ** Forwarding *)

(** The request reaches the worker, or not. *)
Definition deliver (q : request) (url : string) (token : option SandboxClaims) : program bool :=
  command (fun i w =>
    (if i_did i then on_served (fun l => l ++ [{| d_url := url; d_id := q_id q; d_token := token |}]) w else w, i_ok i)).

(** [doHTTP]: a worker that does not answer costs the route its cache entry. *)
Definition doHTTP (q : request) (url : string) (token : option SandboxClaims) : program response :=
  if negb (parses url) then Ret (Reply 502)
  else
    do answered <- deliver q url token;
    if answered then Ret (Forward url token)
    else do _ <- cache_invalidate (q_id q); Ret (Reply 502).

(** [doWebSocket]: dial, take over the client's connection, send the request; [Reply 0]:
    the connection is closed without a reply. *)
Definition doWebSocket (q : request) (url : string) (token : option SandboxClaims) : program response :=
  if negb (parses url) then Ret (Reply 502)
  else
    do dialled <- ask;
    if negb dialled then Ret (Reply 502)
    else
      do hijacker <- ask;
      if negb hijacker then Ret (Reply 500)
      else
        do hijacked <- ask;
        if negb hijacked then Ret (Reply 500)
        else
          do written <- deliver q url token;
          if written then Ret (Forward url token) else Ret (Reply 0).

(** [forwardWithToken] *)
Definition forwardWithToken (q : request) (url : string) (token : option SandboxClaims) : program response :=
  if q_upgrade q then doWebSocket q url token else doHTTP q url token.

(** [forward] *)
Definition forward (q : request) (url workerID : string) : program response :=
  do token <- mintToken q workerID;
  do _ <- cache_set (q_id q) {| r_WorkerURL := url; r_WorkerID := workerID; r_Token := token |};
  forwardWithToken q url token.

(** ** Waking *)

Definition get_session (id : string) : program (option SessionStore.session) :=
  command (fun i w => (w, if i_ok i then SessionStore.GetSandboxSession (store w) id else None)).
Definition get_hibernation (id : string) : program (option SessionStore.SandboxHibernation) :=
  command (fun i w => (w, if i_ok i then SessionStore.GetActiveHibernation (store w) id else None)).
Definition get_worker (id : string) : program (option Registry.WorkerEntry) :=
  command (fun _ w => (w, Registry.GetWorker (registry w) id)).
Definition least_loaded (region : string) : program (option (Registry.WorkerEntry * string)) :=
  command (fun i w =>
    let '(o, r) := Registry.GetLeastLoadedWorker order (registry w) region (i_counts i) (i_rr i) in (on_registries (insert cp r) w, o)).

(** The call of the worker's [WakeSandbox]; what it does not report in time it may still
    have done. *)
Definition grpc_wake (worker id : string) : program bool :=
  command (fun i w => (if i_did i then on_vms (fun s => {[ (worker, id) ]} ∪ s) w else w, i_ok i)).

(** [wakeHibernatedSandbox]; the golden version is a column of its own. *)
Definition wakeHibernatedSandbox (id : string) : program (option (Registry.WorkerEntry * string)) :=
  do h <- get_hibernation id;
  match h with
  | None => Ret None
  | Some h =>
      do c <- least_loaded (SessionStore.h_Region h);
      match c with
      | None => Ret None
      | Some (worker, _) =>
          do woken <- grpc_wake (Registry.ID worker) id;
          if negb woken then Ret None
          else
            do _ <- exec_store (fun i d => SessionStore.MarkHibernationRestored (i_now i) d id);
            do _ <- exec_store (fun i d => SessionStore.UpdateSandboxSessionForWake (i_now i) d id (Registry.ID worker) (i_uid i));
            if String.eqb (Registry.HTTPAddr worker) "" then Ret None else Ret (Some (worker, Registry.HTTPAddr worker))
      end
  end.

(** [claimWorkerForAsyncWake] *)
Definition claimWorkerForAsyncWake (id : string) : program (option (string * string)) :=
  do h <- get_hibernation id;
  match h with
  | None => Ret None
  | Some h =>
      do c <- least_loaded (SessionStore.h_Region h);
      match c with
      | None => Ret None
      | Some (candidate, _) =>
          do ok <- command (fun i w =>
            (if i_did i then on_store (fun d => SessionStore.UpdateSandboxSessionForWake (i_now i) d id (Registry.ID candidate) (i_uid i)) w else w, i_ok i));
          if negb ok then Ret None
          else
            do s <- get_session id;
            match s with
            | None => Ret None
            | Some s =>
                do wk <- get_worker (SessionStore.worker_id s);
                match wk with
                | None => Ret None
                | Some wk => if String.eqb (Registry.HTTPAddr wk) "" then Ret None else Ret (Some (Registry.HTTPAddr wk, SessionStore.worker_id s))
                end
            end
      end
  end.

(** [startBackgroundWake]: the lock, then the goroutine; [background_wake] is its body. *)
Definition startBackgroundWake (id : string) : program unit :=
  do go_ <- command (fun i w =>
    if negb has_redis then (w, true)
    else
      let free := match waking w !! id with Some expiry => expiry <=? i_now i | None => true end in
      let w1 := if i_did i && free then on_waking (insert id (i_now i + 120)) w else w in
      (w1, negb (i_ok i && negb free)));
  if go_ then command (fun _ w => (on_spawned (fun l => l ++ [id]) w, tt)) else Ret tt.

Definition background_wake (id : string) : program unit :=
  do _ <- wakeHibernatedSandbox id;
  command (fun i w => (if has_redis && i_did i then on_waking (delete id) w else w, tt)).

(** [tryRecoverOrFail] *)
Definition tryRecoverOrFail (q : request) (s : SessionStore.session) : program response :=
  if negb (String.eqb (SessionStore.migrating_to_worker s) "") then Ret (Reply 503)
  else
    do h <- get_hibernation (q_id q);
    match h with
    | Some _ =>
        do r <- wakeHibernatedSandbox (q_id q);
        match r with
        | None => Ret (Reply 502)
        | Some (worker, url) => forward q url (Registry.ID worker)
        end
    | None =>
        do _ <- exec_store (fun i d => fst (SessionStore.UpdateSandboxSessionStatus (i_now i) d (q_id q) "stopped" (Some "worker lost, sandbox not recoverable"%string)));
        Ret (Reply 410)
    end.

(** ** Handlers *)

(** A hibernated sandbox, in [ProxyHandler]. *)
Definition deep_wake (q : request) (s : SessionStore.session) : program response :=
  if isAsyncExecPath q then
    do r <- claimWorkerForAsyncWake (q_id q);
    match r with
    | None => Ret (Reply 502)
    | Some (url, workerID) => forward q url workerID
    end
  else if isFilesPath q && q_async q then
    do _ <- startBackgroundWake (q_id q); Ret (Reply 503)
  else
    do r <- wakeHibernatedSandbox (q_id q);
    match r with
    | None => Ret (Reply 502)
    | Some (_, url) => forward q url (SessionStore.worker_id s)
    end.

Definition proxy_hibernated (q : request) (s : SessionStore.session) : program response :=
  if bool_decide (SessionStore.hibernation_mode s = Some "paused"%string) then
    if negb (String.eqb (SessionStore.migrating_to_worker s) "") then Ret (Reply 503)
    else
      do wk <- get_worker (SessionStore.worker_id s);
      match wk with
      | Some wk => if String.eqb (Registry.HTTPAddr wk) "" then deep_wake q s else forward q (Registry.HTTPAddr wk) (SessionStore.worker_id s)
      | None => deep_wake q s
      end
  else deep_wake q s.

(** [ProxyHandler] *)
Definition ProxyHandler (q : request) : program response :=
  if String.eqb (q_id q) "" then Ret (Reply 400)
  else
    do e <- cache_get (q_id q);
    match e with
    | Some e => forwardWithToken q (r_WorkerURL e) (r_Token e)
    | None =>
        do ready <- (if has_ready then ask else Ret true);
        if negb ready then Ret (Reply 502)
        else
          do s <- get_session (q_id q);
          match s with
          | None => Ret (Reply 404)
          | Some s =>
              if String.eqb (SessionStore.status s) "migrating" then Ret (Reply 503)
              else if String.eqb (SessionStore.status s) "hibernated" then proxy_hibernated q s
              else if String.eqb (SessionStore.status s) "stopped" || String.eqb (SessionStore.status s) "error" then Ret (Reply 410)
              else
                do wk <- get_worker (SessionStore.worker_id s);
                match wk with
                | None => tryRecoverOrFail q s
                | Some wk => if String.eqb (Registry.HTTPAddr wk) "" then Ret (Reply 502) else forward q (Registry.HTTPAddr wk) (SessionStore.worker_id s)
                end
          end
    end.

(** [ResolveWorker], for the websocket broker: the route, or the status of the error. *)
Definition ResolveWorker (q : request) : program (result Z routeCacheEntry) :=
  let resolved url workerID :=
    do token <- mintToken q workerID;
    let e := {| r_WorkerURL := url; r_WorkerID := workerID; r_Token := token |} in
    do _ <- cache_set (q_id q) e; Ret (Ok e) in
  if String.eqb (q_id q) "" then Ret (Err 400)
  else
    do e <- cache_get (q_id q);
    match e with
    | Some e => Ret (Ok e)
    | None =>
        do ready <- (if has_ready then ask else Ret true);
        if negb ready then Ret (Err 502)
        else
          do s <- get_session (q_id q);
          match s with
          | None => Ret (Err 404)
          | Some s =>
              if String.eqb (SessionStore.status s) "migrating" then Ret (Err 503)
              else if String.eqb (SessionStore.status s) "hibernated" then
                do r <- wakeHibernatedSandbox (q_id q);
                match r with
                | None => Ret (Err 502)
                | Some (worker, url) => resolved url (Registry.ID worker)
                end
              else if String.eqb (SessionStore.status s) "stopped" || String.eqb (SessionStore.status s) "error" then Ret (Err 410)
              else
                do wk <- get_worker (SessionStore.worker_id s);
                match wk with
                | None => Ret (Err 502)
                | Some wk => if String.eqb (Registry.HTTPAddr wk) "" then Ret (Err 502) else resolved (Registry.HTTPAddr wk) (SessionStore.worker_id s)
                end
          end
    end.

End Config.
End SandboxProxy.
