(* ===== verification/SandboxProxyFacts.v ===== *)
(** * Facts about the data-plane proxy

    What a worker is handed, in every interleaving of the requests that the control
    planes serve at once, and where the requests for a sandbox that is being woken go. *)

From S2P Require Import Prelude GoFloat SessionStore SessionFacts Registry Threads SandboxProxy.
#[local] Open Scope Z_scope.

Module SandboxProxyFacts.
Import SandboxProxy SessionFacts.
#[local] Open Scope prog_scope.

(** A request served by the control plane [cp], a resolution for its websocket broker,
    and a wake in the background. *)
Inductive task := Serve (q : request) | Resolve (q : request) | Wake (id : string).

Section Tasks.
Context (order : list Registry.WorkerEntry -> list Registry.WorkerEntry) (has_redis has_issuer has_ready : bool) (parses : string -> bool).

Definition thread (x : string * task) : program unit :=
  match snd x with
  | Serve q => do _ <- ProxyHandler order has_redis has_issuer has_ready (fst x) parses q; Ret tt
  | Resolve q => do _ <- ResolveWorker order has_redis has_issuer has_ready (fst x) q; Ret tt
  | Wake id => do _ <- background_wake order has_redis (fst x) id; Ret tt
  end.

(** Requests start and their steps run in any order. *)
Definition events (es : list (string * task + nat * input)) : list (event world input) :=
  map (fun e => match e with inl x => Start (thread x) | inr (t, i) => Run t i end) es.

End Tasks.

(** ** Tokens *)

Definition opens (id : string) (o : option SandboxClaims) : Prop :=
  match o with Some t => c_SandboxID t = id | None => True end.

Record tokens_ok (w : world) : Prop := {
  t_cache : map_Forall (fun id e => opens id (r_Token (fst e))) (cache w);
  t_served : Forall (fun d => opens (d_id d) (d_token d)) (served w)
}.

Section Tokens.
Context (order : list Registry.WorkerEntry -> list Registry.WorkerEntry) (has_redis has_issuer has_ready : bool) (parses : string -> bool).

Abbreviation okt := (ok tokens_ok (fun _ _ => True) (fun _ : input => True)).

(** What is known of the value alone is never lost. *)
Lemma okt_seq {A B} w (p : program A) (k : A -> program B) (P : A -> Prop) (Q : B -> Prop) :
  okt w p (fun _ => P) -> (forall v a, P a -> okt v (k a) (fun _ => Q)) -> okt w (bind p k) (fun _ => Q).
Proof. intros Hp Hk. eapply ok_seq; [by split|exact Hp|]. cbn. eauto. Qed.

Lemma okt_command {B} w (f : input -> world -> world * B) (Q : B -> Prop) :
  (forall i v, tokens_ok v -> tokens_ok (fst (f i v)) /\ Q (snd (f i v))) -> okt w (command f) (fun _ => Q).
Proof. intros H i v _ _ Hv. destruct (H i v Hv). by split_and!. Qed.

Lemma okt_ret {A} w (a : A) (Q : A -> Prop) : Q a -> okt w (Ret a) (fun _ => Q).
Proof. done. Qed.

(** A command that leaves the cache and the deliveries alone. *)
Lemma okt_quiet {B} w (f : input -> world -> world * B) :
  (forall i v, cache (fst (f i v)) = cache v /\ served (fst (f i v)) = served v) -> okt w (command f) (fun _ _ => True).
Proof. intros H. apply okt_command. intros i v []. destruct (H i v) as [Hc Hs]. split; [|done]. split; by rewrite ?Hc, ?Hs. Qed.

Lemma okt_get id w : okt w (cache_get has_redis id) (fun _ o => match o with Some e => opens id (r_Token e) | None => True end).
Proof.
  apply okt_command. intros i v [Hc Hs]. cbn. split; [done|]. destruct (has_redis && i_ok i); [|done].
  unfold cached. destruct (cache v !! id) as [[e t]|] eqn:E; [|done]. destruct (_ <? _); [|done]. exact (Hc id (e, t) E).
Qed.

Lemma okt_set id e w : opens id (r_Token e) -> okt w (cache_set has_redis id e) (fun _ _ => True).
Proof.
  intros He. apply okt_command. intros i v [Hc Hs]. cbn. split; [|done]. destruct (has_redis && i_did i); [|done].
  split; [|done]. by apply map_Forall_insert_2.
Qed.

Lemma okt_invalidate id w : okt w (cache_invalidate has_redis id) (fun _ _ => True).
Proof.
  apply okt_command. intros i v [Hc Hs]. cbn. split; [|done]. destruct (has_redis && i_did i); [|done].
  split; [|done]. by apply map_Forall_delete.
Qed.

Lemma okt_mint q wk w : okt w (mintToken has_issuer q wk) (fun _ => opens (q_id q)).
Proof. apply okt_command. intros i v Hv. cbn. split; [done|]. by destruct (has_issuer && i_ok i). Qed.

Lemma okt_deliver q url t w : opens (q_id q) t -> okt w (deliver q url t) (fun _ _ => True).
Proof.
  intros Ht. apply okt_command. intros i v [Hc Hs]. cbn. split; [|done]. destruct (i_did i); [|done].
  split; [done|]. cbn. apply Forall_app. split; [done|]. by constructor.
Qed.

#[local] Hint Resolve okt_get okt_set okt_invalidate okt_mint okt_deliver : okt.

(** The last step of a handler, or the next one. *)
Ltac quiet := apply okt_quiet; intros; cbn; repeat case_match; done.
Ltac walk :=
  repeat first
    [ by apply okt_ret
    | progress (cbv zeta; cbn [r_Token] in * )
    | match goal with |- okt _ (bind (bind _ _) _) _ => fail 1 | |- okt _ (bind ?p _) _ =>
        eapply (okt_seq _ p); [solve [eauto with okt | quiet]|intros ? ? ?] end
    | solve [eauto with okt | quiet]
    | match goal with |- okt _ (match ?x with _ => _ end) _ => destruct x end ].

Lemma okt_forwardWithToken q url t w : opens (q_id q) t -> okt w (forwardWithToken has_redis parses q url t) (fun _ _ => True).
Proof. intros Ht. unfold forwardWithToken, doWebSocket, doHTTP. walk. Qed.
#[local] Hint Resolve okt_forwardWithToken : okt.

Lemma okt_forward q url wk w : okt w (forward has_redis has_issuer parses q url wk) (fun _ _ => True).
Proof. unfold forward. walk. Qed.
#[local] Hint Resolve okt_forward : okt.

Lemma okt_wake cp id w : okt w (wakeHibernatedSandbox order cp id) (fun _ _ => True).
Proof. unfold wakeHibernatedSandbox. walk. Qed.
#[local] Hint Resolve okt_wake : okt.

Lemma okt_claim cp id w : okt w (claimWorkerForAsyncWake order cp id) (fun _ _ => True).
Proof. unfold claimWorkerForAsyncWake. walk. Qed.
#[local] Hint Resolve okt_claim : okt.

Lemma okt_spawn id w : okt w (startBackgroundWake has_redis id) (fun _ _ => True).
Proof. unfold startBackgroundWake. walk. Qed.
#[local] Hint Resolve okt_spawn : okt.

Lemma okt_deep_wake cp q s w : okt w (deep_wake order has_redis has_issuer cp parses q s) (fun _ _ => True).
Proof. unfold deep_wake. walk. Qed.
#[local] Hint Resolve okt_deep_wake : okt.

Lemma okt_recover cp q s w : okt w (tryRecoverOrFail order has_redis has_issuer cp parses q s) (fun _ _ => True).
Proof. unfold tryRecoverOrFail. walk. Qed.
#[local] Hint Resolve okt_recover : okt.

Lemma okt_ready w : okt w (if has_ready then ask else Ret true) (fun _ _ => True).
Proof. destruct has_ready; walk. Qed.
#[local] Hint Resolve okt_ready : okt.

Lemma okt_ProxyHandler cp q w : okt w (ProxyHandler order has_redis has_issuer has_ready cp parses q) (fun _ _ => True).
Proof. unfold ProxyHandler, proxy_hibernated. walk. Qed.

Lemma okt_ResolveWorker cp q w : okt w (ResolveWorker order has_redis has_issuer has_ready cp q) (fun _ _ => True).
Proof. unfold ResolveWorker. walk. Qed.
#[local] Hint Resolve okt_ProxyHandler okt_ResolveWorker : okt.

Lemma okt_background cp id w : okt w (background_wake order has_redis cp id) (fun _ _ => True).
Proof. unfold background_wake. walk. Qed.
#[local] Hint Resolve okt_background : okt.

Lemma okt_thread x w : okt w (thread order has_redis has_issuer has_ready parses x) (fun _ _ => True).
Proof. destruct x as [cp [q|q|id]]; unfold thread; cbn [fst snd]; walk. Qed.

End Tokens.

#[local] Instance any_preorder : PreOrder (fun _ _ : world => True).
Proof. by split. Qed.

Lemma admits_own now id t : c_SandboxID t = id -> SandboxJWTMiddleware now id t = if c_exp t <=? now then None else Some (c_OrgID t).
Proof. intros <-. unfold SandboxJWTMiddleware. rewrite String.eqb_refl. by rewrite andb_false_r. Qed.

Lemma admits_no_other now id t : c_SandboxID t <> id -> id <> ""%string -> SandboxJWTMiddleware now id t = None.
Proof. intros Hne Hid. unfold SandboxJWTMiddleware. apply String.eqb_neq in Hne, Hid. rewrite Hne, Hid. by destruct (_ <=? _). Qed.

(** C14. However the requests, websocket resolutions and background wakes of the control
    planes interleave over the shared route cache, a token that reaches a worker opens
    exactly the sandbox the request is for: the worker's check admits it for that
    sandbox until it expires and refuses it for every other. *)
Theorem tokens_open_own_sandbox order has_redis has_issuer has_ready parses es w :
  tokens_ok w ->
  let w' := fst (exec (w, []) (events order has_redis has_issuer has_ready parses es)) in
  forall d t now, In d (served w') -> d_token d = Some t ->
    SandboxJWTMiddleware now (d_id d) t = (if c_exp t <=? now then None else Some (c_OrgID t)) /\
    forall other, other <> d_id d -> other <> ""%string -> SandboxJWTMiddleware now other t = None.
Proof.
  intros Hw w'. subst w'.
  destruct (exec_ok tokens_ok (fun _ _ => True) (fun _ : input => True)
              (events order has_redis has_issuer has_ready parses es) (w, [])) as [[[_ Hs] _] _].
  { by split. }
  { apply Forall_map, Forall_true. intros [x|[t i]]; cbn; [|done]. intros v _. apply okt_thread. }
  intros d t now Hd Ht. rewrite Forall_forall in Hs. specialize (Hs d). rewrite Ht in Hs. cbn in Hs.
  rewrite <- list_elem_of_In in Hd. specialize (Hs Hd). split; [by apply admits_own|].
  intros other Ho. apply admits_no_other. by rewrite Hs.
Qed.

(** ** What the control planes know of the workers *)

Definition addresses (r : Registry.RedisWorkerRegistry) : gmap string string := Registry.HTTPAddr <$> Registry.workers r.
Definition keyed (m : gmap string Registry.WorkerEntry) : Prop := map_Forall (fun id e => Registry.ID e = id) m.

(** An entry that takes the place of one with the same name and address. *)
Lemma replace_entry (m : gmap string Registry.WorkerEntry) (e : Registry.WorkerEntry) :
  keyed m -> Registry.HTTPAddr <$> m !! Registry.ID e = Some (Registry.HTTPAddr e) ->
  keyed (<[Registry.ID e := e]> m) /\ Registry.HTTPAddr <$> <[Registry.ID e := e]> m = Registry.HTTPAddr <$> m.
Proof.
  intros Hk He. split; [by apply map_Forall_insert_2|]. rewrite fmap_insert. apply insert_id. by rewrite lookup_fmap.
Qed.

Lemma replace_entries ws m :
  keyed m -> (forall e, In e ws -> Registry.HTTPAddr <$> m !! Registry.ID e = Some (Registry.HTTPAddr e)) ->
  let m' := fold_left (fun m w => <[Registry.ID w := w]> m) ws m in
  keyed m' /\ Registry.HTTPAddr <$> m' = Registry.HTTPAddr <$> m.
Proof.
  revert m; induction ws as [|e ws IH]; intros m Hk Hw; cbn; [done|].
  destruct (replace_entry m e Hk (Hw e ltac:(by left))) as [Hk' Ha].
  destruct (IH _ Hk') as [H1 H2]; [|by rewrite H2].
  intros e' He'. rewrite <- lookup_fmap, Ha, lookup_fmap. apply Hw. by right.
Qed.

Lemma least_loaded_addresses order r region counts rr :
  (forall l, order l ≡ₚ l) -> keyed (Registry.workers r) ->
  let x := Registry.GetLeastLoadedWorker order r region counts rr in
  keyed (Registry.workers (snd x)) /\ addresses (snd x) = addresses r /\
  match fst x with Some (b, _) => addresses r !! Registry.ID b = Some (Registry.HTTPAddr b) | None => True end.
Proof.
  intros Ho Hk x. subst x. unfold Registry.GetLeastLoadedWorker.
  assert (forall e, In e (map (Registry.apply_count counts) (Registry.candidates order r region)) ->
    Registry.HTTPAddr <$> Registry.workers r !! Registry.ID e = Some (Registry.HTTPAddr e)) as Hc.
  { intros e (w & <- & Hw)%in_map_iff. apply Registry.candidates_eligible in Hw as [Hw _]; [|done].
    apply in_map_iff in Hw as ([id' w'] & <- & Hw). apply list_elem_of_In, elem_of_map_to_list in Hw. cbn.
    assert (Registry.ID (Registry.apply_count counts w') = id' /\ Registry.HTTPAddr (Registry.apply_count counts w') = Registry.HTTPAddr w') as [-> ->].
    { pose proof (Hk _ _ Hw). unfold Registry.apply_count. by repeat case_match. }
    by rewrite Hw. }
  destruct (map _ _) as [|first ws]; [done|].
  destruct (replace_entries (first :: ws) (Registry.workers r) Hk Hc) as [Hk' Ha].
  destruct (Registry.tied _ _ !! _) as [b|] eqn:Eb; [|done]. apply list_elem_of_lookup_2, list_elem_of_In, filter_In in Eb as [Hb _].
  specialize (Hc b Hb). destruct (Registry.conns r !! _); [|done]. cbn [fst snd Registry.workers addresses].
  destruct (replace_entry _ (Registry.set_current b (Registry.Current b + 1)) Hk') as [H1 H2].
  { rewrite <- lookup_fmap. transitivity ((Registry.HTTPAddr <$> Registry.workers r) !! Registry.ID b); [by rewrite <- Ha|].
    rewrite lookup_fmap. exact Hc. }
  split; [exact H1|]. split; [|unfold addresses; rewrite lookup_fmap; exact Hc]. unfold addresses. cbn [Registry.workers]. etrans; [exact H2|exact Ha].
Qed.

(** ** Racing wakes *)

Section Race.
Context (order : list Registry.WorkerEntry -> list Registry.WorkerEntry) (has_redis has_issuer has_ready : bool) (parses : string -> bool).
Hypothesis order_perm : forall l, order l ≡ₚ l.
(** The control planes; the sandbox; the address of every worker; its rows at the start, the latest [s0]. *)
Variables (cps : gset string) (id : string) (addrs : gmap string string) (rows0 : list SessionStore.session) (s0 : SessionStore.session).
Hypothesis s0_latest : SessionStore.latest SessionStore.started_at rows0 = Some s0.
Hypothesis s0_hibernated : SessionStore.status s0 = "hibernated"%string.
Hypothesis s0_deep : SessionStore.hibernation_mode s0 <> Some "paused"%string.

Definition rows (d : SessionStore.db) : list SessionStore.session :=
  List.filter (fun r => SessionStore.same (SessionStore.sandbox_id r) id) (SessionStore.sessions d).

(** The race is decided for [wk]: no row can be claimed any more. *)
Definition settled (d : SessionStore.db) (wk : string) : Prop :=
  Forall (fun r => SessionStore.status r <> "hibernated"%string) (rows d) /\
  (exists s, SessionStore.latest SessionStore.started_at (rows d) = Some s /\ SessionStore.worker_id s = wk) /\ wk ∈ dom addrs.

Definition route (w : world) (url : string) : Prop := exists wk, settled (store w) wk /\ addrs !! wk = Some url.

Record race (w : world) : Prop := {
  ra_rows : rows (store w) = rows0 \/ exists wk, settled (store w) wk;
  ra_cps : cps ⊆ dom (registries w);
  ra_registries : map_Forall (fun _ r => keyed (Registry.workers r) /\ addresses r = addrs) (registries w);
  ra_cache : forall e t, cache w !! id = Some (e, t) -> route w (r_WorkerURL e);
  ra_served : Forall (fun d => d_id d = id -> route w (d_url d)) (served w)
}.

Definition later (w w' : world) : Prop :=
  (forall wk, settled (store w) wk -> settled (store w') wk) /\ dom (registries w) ⊆ dom (registries w').
#[local] Instance later_preorder : PreOrder later.
Proof. split; [by split|]. intros a b c [H1 H2] [H3 H4]. split; [auto|by etrans]. Qed.

(** What is reported as done was done. *)
Definition truthful (i : input) : Prop := i_ok i = true -> i_did i = true.

Abbreviation okr := (ok race later truthful).

Lemma settled_unique d a b : settled d a -> settled d b -> a = b.
Proof. intros (_ & (s & Hs & <-) & _) (_ & (s' & Hs' & <-) & _). congruence. Qed.

Lemma settled_rows d d' : rows d' = rows d -> forall wk, settled d wk <-> settled d' wk.
Proof. intros H wk. unfold settled. by rewrite H. Qed.

Lemma route_later w w' url : later w w' -> route w url -> route w' url.
Proof. intros [H _] (wk & Hs & Ha). exists wk. eauto. Qed.

(** Steps that touch neither the rows of the sandbox nor what depends on them. *)
Lemma race_same_rows w w' :
  rows (store w') = rows (store w) -> registries w' = registries w -> cache w' !! id = cache w !! id -> served w' = served w ->
  race w -> race w' /\ later w w'.
Proof.
  intros Hr Hg Hc Hs [R1 R0 R2 R3 R4]. pose proof (settled_rows _ _ Hr) as Heq.
  assert (later w w') as Hl by (split; [intros wk; apply Heq|by rewrite Hg]). split; [|done]. split.
  - destruct R1 as [R1|[wk R1]]; [left; congruence|right]. exists wk. by apply Heq.
  - by rewrite Hg.
  - by rewrite Hg.
  - rewrite Hc. intros e t He. eauto using route_later.
  - rewrite Hs. eapply Forall_impl; [exact R4|]. cbn. intros d Hd Hid. eauto using route_later.
Qed.

(** The compare-and-swap of [UpdateSandboxSessionForWake] decides the race, or finds it
    decided. *)
Definition claimed (now : Z) (wk : string) (r : SessionStore.session) : SessionStore.session :=
  SessionStore.set_stopped now None (SessionStore.set_worker now wk (SessionStore.set_status now "running" r)).
Definition claimable (id' : string) (r : SessionStore.session) : bool :=
  SessionStore.same (SessionStore.sandbox_id r) id' && SessionStore.same (SessionStore.status r) "hibernated".

Lemma wake_rows now d id' wk uid :
  rows (SessionStore.UpdateSandboxSessionForWake now d id' wk uid) = SessionStore.UPDATE (claimable id') (claimed now wk) (rows d).
Proof.
  unfold SessionStore.UpdateSandboxSessionForWake. fold (claimable id'). destruct (List.find _ _) eqn:E.
  - by apply filter_UPDATE.
  - symmetry. apply UPDATE_none. apply existsb_false. intros r [Hr _]%filter_In. by eapply find_none in E.
Qed.

Lemma wake_rows_other now d id' wk uid : id' <> id -> rows (SessionStore.UpdateSandboxSessionForWake now d id' wk uid) = rows d.
Proof.
  intros Hne. rewrite wake_rows. apply UPDATE_none, existsb_false. intros r [_ Hr]%filter_In. apply same_true in Hr.
  unfold claimable, SessionStore.same. by rewrite Hr, (proj2 (String.eqb_neq _ _) (not_eq_sym Hne)).
Qed.

Lemma wake_settled now d wk uid wk' : settled d wk' -> settled (SessionStore.UpdateSandboxSessionForWake now d id wk uid) wk'.
Proof.
  intros Hs. apply (settled_rows d); [|done]. rewrite wake_rows. apply UPDATE_none, existsb_false. intros r Hr.
  destruct Hs as [Hs _]. rewrite Forall_forall in Hs. apply list_elem_of_In, Hs in Hr. unfold claimable, SessionStore.same.
  by rewrite (proj2 (String.eqb_neq _ _) Hr), andb_false_r.
Qed.

Lemma wake_settles now d wk uid : rows d = rows0 -> wk ∈ dom addrs -> settled (SessionStore.UpdateSandboxSessionForWake now d id wk uid) wk.
Proof.
  intros Hr Hwk. unfold settled. rewrite wake_rows, Hr. split_and!; [| |done].
  - apply Forall_forall. intros r (r' & <- & Hr')%list_elem_of_In%in_map_iff. destruct (claimable id r') eqn:E; [done|].
    rewrite <- Hr in Hr'. apply filter_In in Hr' as [_ Hr']. unfold claimable in E. rewrite Hr' in E. by apply String.eqb_neq.
  - unfold SessionStore.UPDATE. rewrite latest_map by (intros x; by case_match). rewrite s0_latest. cbn.
    eexists. split; [done|]. assert (In s0 rows0) as Hin by (apply (latest_In SessionStore.started_at); done).
    rewrite <- Hr in Hin. apply filter_In in Hin as [_ Hin]. unfold claimable, SessionStore.same in *. by rewrite Hin, s0_hibernated.
Qed.

Lemma status_rows_other now d id' st msg : id' <> id -> rows (fst (SessionStore.UpdateSandboxSessionStatus now d id' st msg)) = rows d.
Proof.
  intros Hne. unfold rows. rewrite status_sessions, filter_UPDATE.
  - apply UPDATE_none, existsb_false. intros r [_ Hr]%filter_In. apply same_true in Hr.
    unfold SessionStore.status_where, SessionStore.same. by rewrite Hr, (proj2 (String.eqb_neq _ _) (not_eq_sym Hne)).
  - intros r. unfold SessionStore.status_set. by case_match.
Qed.

Lemma not_settled d wk : rows d = rows0 -> ~ settled d wk.
Proof.
  intros Hr [Hs _]. rewrite Hr, Forall_forall in Hs. apply (Hs s0); [|done]. apply list_elem_of_In. by apply (latest_In SessionStore.started_at).
Qed.

(** *** The steps *)

Lemma okr_any {A} w (p : program A) Q : okr w p Q -> okr w p (fun _ _ => True).
Proof. intros H. by eapply (okt_mono race later truthful). Qed.

(** A step that changes nothing that matters here. *)
Lemma okr_same {B} w (f : input -> world -> world * B) (Q : world -> B -> Prop) :
  (forall i v, let v' := fst (f i v) in
    rows (store v') = rows (store v) /\ registries v' = registries v /\ cache v' !! id = cache v !! id /\ served v' = served v) ->
  (forall i v, truthful i -> later w v -> race v -> Q (fst (f i v)) (snd (f i v))) -> okr w (command f) Q.
Proof.
  intros Hf HQ i v Hi Hle Hv. destruct (Hf i v) as (H1 & H2 & H3 & H4).
  destruct (race_same_rows v (fst (f i v)) H1 H2 H3 H4 Hv) as [Hr Hl]. by split_and!; [..|apply HQ].
Qed.

Lemma okr_get id' w :
  okr w (cache_get has_redis id') (fun v o => match o with Some e => id' = id -> route v (r_WorkerURL e) | None => True end).
Proof.
  apply okr_same; [done|]. intros i v _ _ Hv. cbn. destruct (has_redis && i_ok i); [|done]. unfold cached.
  destruct (cache v !! id') as [[e t]|] eqn:E; [|done]. destruct (_ <? _); [|done]. intros ->. exact (ra_cache v Hv _ _ E).
Qed.

Lemma okr_set id' e w : (id' = id -> route w (r_WorkerURL e)) -> okr w (cache_set has_redis id' e) (fun _ _ => True).
Proof.
  intros He. apply ok_command. intros i v _ Hle [R1 R0 R2 R3 R4]. cbn. destruct (has_redis && i_did i); [|by split_and!].
  assert (later v (on_cache (insert id' (e, i_now i + routeCacheTTL)) v)) as Hl by done. split_and!; [|done..]. split; try done. cbn. intros e' t.
  destruct (decide (id' = id)) as [->|Hne]; [|rewrite lookup_insert_ne by done; apply R3].
  rewrite lookup_insert_eq. intros [= <- <-]. by apply (route_later w), He.
Qed.

Lemma okr_invalidate id' w : okr w (cache_invalidate has_redis id') (fun _ _ => True).
Proof.
  apply ok_command. intros i v _ Hle [R1 R0 R2 R3 R4]. cbn. destruct (has_redis && i_did i); [|by split_and!].
  split_and!; [|done..]. split; try done. cbn. intros e t [_ H]%lookup_delete_Some. exact (R3 e t H).
Qed.

Lemma okr_deliver q url t w : (q_id q = id -> route w url) -> okr w (deliver q url t) (fun _ _ => True).
Proof.
  intros Hu. apply ok_command. intros i v _ Hle [R1 R0 R2 R3 R4]. cbn. destruct (i_did i); [|by split_and!].
  split_and!; [|done..]. split; try done. cbn. apply Forall_app. split; [done|]. constructor; [|done]. cbn. intros Hq.
  by apply (route_later w), Hu.
Qed.

Lemma okr_session id' w :
  okr w (get_session id') (fun v o => match o with Some s => id' = id ->
    (rows (store v) = rows0 /\ s = SessionStore.scan s0) \/ (settled (store v) (SessionStore.worker_id s) /\ SessionStore.status s <> "hibernated"%string) | None => True end).
Proof.
  apply okr_same; [done|]. intros i v _ _ [R1 _ _ _ _]. cbn. destruct (i_ok i); [|done].
  unfold SessionStore.GetSandboxSession, SessionStore.latest_session.
  destruct (SessionStore.latest SessionStore.started_at (List.filter _ (SessionStore.sessions (store v)))) as [s|] eqn:E; [|done].
  cbn [option_map]. intros ->.
  fold (rows (store v)) in E. destruct R1 as [R1|[wk (R1 & (s' & Hs' & <-) & R3)]]; [left; rewrite R1 in E; split; congruence|right].
  assert (s' = s) as -> by congruence. split; [split_and!; eauto|]. rewrite Forall_forall in R1. apply (R1 s), list_elem_of_In.
  by apply (latest_In SessionStore.started_at).
Qed.

Lemma okr_worker cp wk w : cp ∈ dom (registries w) ->
  okr w (get_worker cp wk) (fun _ o => addrs !! wk = Registry.HTTPAddr <$> o).
Proof.
  intros Hcp. apply okr_same; [done|]. intros i v _ [_ Hd] [_ _ R2 _ _]. cbn. apply Hd, elem_of_dom in Hcp as [r Hr].
  destruct (R2 cp r Hr) as [_ <-]. unfold Registry.GetWorker, registry. rewrite Hr. cbn. unfold addresses. by rewrite lookup_fmap.
Qed.

Lemma okr_least_loaded cp region w : cp ∈ dom (registries w) ->
  okr w (least_loaded order cp region) (fun _ o => match o with Some (b, _) => Registry.ID b ∈ dom addrs | None => True end).
Proof.
  intros Hcp. apply ok_command. intros i v _ [_ Hd] [R1 R0 R2 R3 R4]. cbn. apply Hd, elem_of_dom in Hcp as [r Hr].
  destruct (R2 cp r Hr) as [Hk Ha]. unfold registry. rewrite Hr. cbn [default].
  pose proof (least_loaded_addresses order r region (i_counts i) (i_rr i) order_perm Hk) as Hl.
  destruct (Registry.GetLeastLoadedWorker _ _ _ _ _) as [o r']. cbn in Hl |- *. destruct Hl as (H1 & H2 & H3). rewrite Ha in H2, H3. split_and!.
  - split; try done; cbn; [set_solver|by apply map_Forall_insert_2].
  - split; [done|]. cbn. set_solver.
  - destruct o as [[b a]|]; [|done]. by apply elem_of_dom_2 in H3.
Qed.

(** The claim, for this sandbox or another. *)
Lemma okr_cas id' wk w : wk ∈ dom addrs ->
  okr w (command (fun i w => (if i_did i then on_store (fun d => SessionStore.UpdateSandboxSessionForWake (i_now i) d id' wk (i_uid i)) w else w, i_ok i)))
    (fun v done => done = true -> id' = id -> exists wk, settled (store v) wk).
Proof.
  intros Hwk. destruct (decide (id' = id)) as [->|Hne].
  - apply ok_command. intros i v Hi _ [R1 R0 R2 R3 R4]. cbn. destruct (i_did i) eqn:Ed.
    2: { split_and!; [done..|]. intros Hok. specialize (Hi Hok). congruence. }
    set (v' := on_store _ v). assert (later v v') as Hl by (split; [intros wk'; apply wake_settled|done]).
    assert (exists wk', settled (store v') wk') as Hs.
    { destruct R1 as [R1|[wk' R1]]; [exists wk; by apply wake_settles|exists wk'; by apply wake_settled]. }
    split_and!; [|done|done]. split; [by right|done|done| |].
    + intros e t He. by apply (route_later v), (R3 e t).
    + eapply Forall_impl; [exact R4|]. cbn. intros d Hd Hid. by apply (route_later v), Hd.
  - apply okr_same; [|done]. intros i v. cbn. destruct (i_did i); [|done]. cbn. by rewrite wake_rows_other.
Qed.

Lemma okr_exec_other (f : input -> SessionStore.db -> SessionStore.db) w :
  (forall i d, rows (f i d) = rows d) -> okr w (exec_store f) (fun _ _ => True).
Proof. intros Hf. apply okr_same; [|done]. intros i v. cbn. destruct (i_did i); [|done]. cbn. by rewrite Hf. Qed.

(** Chaining, with the control plane's registry carried along. *)
Lemma okr_seq {A B} cp w (p : program A) (k : A -> program B) (P : world -> A -> Prop) Q :
  cp ∈ dom (registries w) -> okr w p P ->
  (forall v a, later w v -> cp ∈ dom (registries v) -> P v a -> okr v (k a) Q) -> okr w (bind p k) Q.
Proof. intros Hcp Hp Hk. eapply ok_seq; [apply _|exact Hp|]. intros v a Hl Ha. apply Hk; [done| |done]. by apply Hl. Qed.

#[local] Hint Extern 1 (okr _ _ _) => (apply okr_same; [intros; cbn; repeat case_match; done | done]) : okr.
#[local] Hint Resolve okr_get okr_set okr_invalidate okr_deliver okr_session okr_worker okr_least_loaded okr_cas : okr.

Lemma okr_forwardWithToken q url t w :
  (q_id q = id -> route w url) -> okr w (forwardWithToken has_redis parses q url t) (fun _ _ => True).
Proof.
  intros Hu. unfold forwardWithToken, doWebSocket, doHTTP. destruct (q_upgrade q), (parses url); try done; cbn [negb].
  - do 3 (eapply (ok_seq race later truthful _ ask _ (fun _ _ => True)); [by eauto with okr|]; intros ? [] ? _; [|done]; cbn [negb]).
    eapply ok_seq; [apply _|apply okr_deliver; eauto using route_later|]. by intros ? [].
  - eapply ok_seq; [apply _|by apply okr_deliver|]. intros ? [] ? _; [done|].
    eapply ok_seq; [apply _|apply okr_invalidate|]. done.
Qed.

Lemma okr_forward q url wk w : (q_id q = id -> route w url) -> okr w (forward has_redis has_issuer parses q url wk) (fun _ _ => True).
Proof.
  intros Hu. unfold forward. eapply (ok_seq race later truthful _ _ _ (fun _ _ => True)); [by eauto with okr|]. intros v t Hl _.
  eapply ok_seq; [apply _|apply okr_set; cbn; eauto using route_later|]. intros v' [] Hl' _.
  apply okr_forwardWithToken. eauto using route_later.
Qed.

Lemma okr_wake_other cp id' w : cp ∈ dom (registries w) -> id' <> id -> okr w (wakeHibernatedSandbox order cp id') (fun _ _ => True).
Proof.
  intros Hcp Hne. unfold wakeHibernatedSandbox.
  eapply (okr_seq cp _ _ _ (fun _ _ => True)); [done|by eauto with okr|]. intros v [h|] _ Hv _; [|done].
  eapply (okr_seq cp); [done|by eauto with okr|]. intros v1 [[b a]|] _ Hv1 _; [|done].
  eapply (okr_seq cp _ _ _ (fun _ _ => True)); [done|by eauto with okr|]. intros v2 [] _ Hv2 _; [|done]. cbn [negb].
  eapply (okr_seq cp); [done|by apply okr_exec_other|]. intros v3 [] _ Hv3 _.
  eapply (okr_seq cp); [done|apply okr_exec_other; intros; by apply wake_rows_other|]. intros v4 [] _ Hv4 _. by case_match.
Qed.

Lemma okr_claim cp id' w : cp ∈ dom (registries w) ->
  okr w (claimWorkerForAsyncWake order cp id') (fun v o => match o with Some (url, _) => id' = id -> route v url | None => True end).
Proof.
  intros Hcp. unfold claimWorkerForAsyncWake.
  eapply (okr_seq cp _ _ _ (fun _ _ => True)); [done|by eauto with okr|]. intros v [h|] _ Hv _; [|done].
  eapply (okr_seq cp); [done|by eauto with okr|]. intros v1 [[b a]|] _ Hv1 Hb; [|done].
  eapply (okr_seq cp); [done|by apply okr_cas|]. intros v2 [] _ Hv2 Hd; [|done]. cbn [negb].
  eapply (okr_seq cp); [done|by eauto with okr|]. intros v3 [s|] Hl3 Hv3 Hs; [|done].
  eapply (okr_seq cp); [done|by apply okr_worker|]. intros v4 [e|] Hl4 _ He; [|done].
  case_match; [done|]. cbn. intros Hid. apply (route_later v3); [done|]. exists (SessionStore.worker_id s). split; [|done].
  destruct (Hs Hid) as [[Hr _]|[Hset _]]; [|done]. destruct (Hd eq_refl Hid) as [wk Hwk]. apply Hl3 in Hwk.
  by destruct (not_settled (store v3) wk).
Qed.

Lemma okr_async cp q w : cp ∈ dom (registries w) -> isAsyncExecPath q = true ->
  forall s, okr w (deep_wake order has_redis has_issuer cp parses q s) (fun _ _ => True).
Proof.
  intros Hcp Hq s. unfold deep_wake. rewrite Hq.
  eapply (okr_seq cp); [done|by apply okr_claim|]. intros v [[url wk]|] _ _ Hu; [|done]. by apply okr_forward.
Qed.

Lemma okr_spawn id' w : okr w (startBackgroundWake has_redis id') (fun _ _ => True).
Proof.
  unfold startBackgroundWake. eapply (ok_seq race later truthful _ _ _ (fun _ _ => True)).
  { apply okr_same; [|done]. intros i v. cbn. destruct has_redis; cbn; [|done]. by repeat case_match. }
  intros v [] _ _; [by eauto with okr|done].
Qed.

Lemma okr_deep_other cp q s w : cp ∈ dom (registries w) -> q_id q <> id ->
  okr w (deep_wake order has_redis has_issuer cp parses q s) (fun _ _ => True).
Proof.
  intros Hcp Hq. destruct (isAsyncExecPath q) eqn:Ea; [by apply okr_async|]. unfold deep_wake. rewrite Ea. case_match.
  - eapply (okr_seq cp); [done|apply okr_spawn|]. done.
  - eapply (okr_seq cp); [done|by apply okr_wake_other|]. intros v [[b url]|] _ _ _; [|done]. by apply okr_forward.
Qed.

Lemma okr_recover_other cp q s w : cp ∈ dom (registries w) -> q_id q <> id ->
  okr w (tryRecoverOrFail order has_redis has_issuer cp parses q s) (fun _ _ => True).
Proof.
  intros Hcp Hq. unfold tryRecoverOrFail. case_match; [done|].
  eapply (okr_seq cp _ _ _ (fun _ _ => True)); [done|by eauto with okr|]. intros v [h|] _ Hv _.
  - eapply (okr_seq cp); [done|by apply okr_wake_other|]. intros v' [[b url]|] _ _ _; [|done]. by apply okr_forward.
  - eapply (okr_seq cp); [done|apply okr_exec_other; intros; by apply status_rows_other|]. done.
Qed.

(** What the handler does with a session row. *)
Lemma okr_hibernated_other cp q s w : cp ∈ dom (registries w) -> q_id q <> id ->
  okr w (proxy_hibernated order has_redis has_issuer cp parses q s) (fun _ _ => True).
Proof.
  intros Hcp Hq. unfold proxy_hibernated. case_match; [|by apply okr_deep_other]. case_match; [done|].
  eapply (okr_seq cp); [done|by apply okr_worker|]. intros v [e|] _ Hv _; [case_match|]; [by apply okr_deep_other|by apply okr_forward|by apply okr_deep_other].
Qed.

Lemma okr_hibernated_s0 cp q w : cp ∈ dom (registries w) -> isAsyncExecPath q = true ->
  okr w (proxy_hibernated order has_redis has_issuer cp parses q (SessionStore.scan s0)) (fun _ _ => True).
Proof. intros Hcp Hq. unfold proxy_hibernated. rewrite bool_decide_false by done. by apply okr_async. Qed.

Lemma okr_running cp q s w : cp ∈ dom (registries w) -> (q_id q = id -> settled (store w) (SessionStore.worker_id s)) ->
  okr w (do wk <- get_worker cp (SessionStore.worker_id s);
         match wk with
         | None => tryRecoverOrFail order has_redis has_issuer cp parses q s
         | Some wk => if String.eqb (Registry.HTTPAddr wk) "" then Ret (Reply 502)
                      else forward has_redis has_issuer parses q (Registry.HTTPAddr wk) (SessionStore.worker_id s)
         end) (fun _ _ => True).
Proof.
  intros Hcp Hs. eapply (okr_seq cp); [done|by apply okr_worker|]. intros v [e|] Hl Hv He.
  - case_match; [done|]. apply okr_forward. intros Hq. apply (route_later w); [done|]. exists (SessionStore.worker_id s). auto.
  - apply okr_recover_other; [done|]. intros Hq. destruct (Hs Hq) as (_ & _ & [a Ha]%elem_of_dom). by rewrite Ha in He.
Qed.

Lemma okr_ready w : okr w (if has_ready then ask else Ret true) (fun _ _ => True).
Proof. destruct has_ready; [by eauto with okr|done]. Qed.

Lemma okr_ProxyHandler cp q w : cp ∈ dom (registries w) -> (q_id q = id -> isAsyncExecPath q = true) ->
  okr w (ProxyHandler order has_redis has_issuer has_ready cp parses q) (fun _ _ => True).
Proof.
  intros Hcp Hq. unfold ProxyHandler. case_match; [done|].
  eapply (okr_seq cp); [done|apply okr_get|]. intros v [e|] _ Hv He; [by apply okr_forwardWithToken|].
  eapply (okr_seq cp); [done|apply okr_ready|]. intros v1 [] _ Hv1 _; [|done]. cbn [negb].
  eapply (okr_seq cp); [done|apply okr_session|]. intros v2 [s|] _ Hv2 Hs; [|done].
  case_match; [done|]. destruct (decide (q_id q = id)) as [Hid|Hne].
  - destruct (Hs Hid) as [[_ ->]|[Hset Hst]].
    + cbn [SessionStore.scan SessionStore.set_row SessionStore.status]. rewrite s0_hibernated. by apply okr_hibernated_s0; [|apply Hq].
    + rewrite (proj2 (String.eqb_neq _ _) Hst). case_match; [done|]. by apply okr_running.
  - case_match; [by apply okr_hibernated_other|]. case_match; [done|]. by apply okr_running.
Qed.

(** Websocket resolutions and background wakes of other sandboxes. *)
Lemma okr_ResolveWorker cp q w : cp ∈ dom (registries w) -> q_id q <> id ->
  okr w (ResolveWorker order has_redis has_issuer has_ready cp q) (fun _ _ => True).
Proof.
  intros Hcp Hq. unfold ResolveWorker. case_match; [done|].
  assert (forall v url wk, okr v (do token <- mintToken has_issuer q wk;
     do _ <- cache_set has_redis (q_id q) {| r_WorkerURL := url; r_WorkerID := wk; r_Token := token |};
     Ret (Ok (E := Z) {| r_WorkerURL := url; r_WorkerID := wk; r_Token := token |})) (fun _ _ => True)) as Hres.
  { intros v url wk. eapply (ok_seq race later truthful _ _ _ (fun _ _ => True)); [by eauto with okr|]. intros v1 t _ _.
    eapply ok_seq; [apply _|by apply okr_set|]. done. }
  eapply (okr_seq cp); [done|apply okr_get|]. intros v [e|] _ Hv He; [done|].
  eapply (okr_seq cp); [done|apply okr_ready|]. intros v1 [] _ Hv1 _; [|done]. cbn [negb].
  eapply (okr_seq cp); [done|apply okr_session|]. intros v2 [s|] _ Hv2 Hs; [|done].
  case_match; [done|]. case_match.
  - eapply (okr_seq cp); [done|by apply okr_wake_other|]. intros v3 [[b url]|] _ Hv3 _; [apply Hres|done].
  - case_match; [done|]. eapply (okr_seq cp); [done|by apply okr_worker|]. intros v3 [e|] _ _ _; [|done].
    case_match; [done|apply Hres].
Qed.

Lemma okr_background cp id' w : cp ∈ dom (registries w) -> id' <> id -> okr w (background_wake order has_redis cp id') (fun _ _ => True).
Proof.
  intros Hcp Hne. unfold background_wake. eapply (okr_seq cp); [done|by apply okr_wake_other|]. intros. by eauto with okr.
Qed.

(** Requests of the asynchronous kind for the sandbox, anything for the others. *)
Definition asynchronous (x : string * task) : Prop :=
  match snd x with
  | Serve q => q_id q = id -> isAsyncExecPath q = true
  | Resolve q => q_id q <> id
  | Wake id' => id' <> id
  end.

Lemma okr_thread x w : fst x ∈ dom (registries w) -> asynchronous x ->
  okr w (thread order has_redis has_issuer has_ready parses x) (fun _ _ => True).
Proof.
  destruct x as [cp [q|q|id']]; unfold thread; cbn [fst snd]; intros Hcp Hx.
  - eapply (okr_seq cp); [done|by apply okr_ProxyHandler|done].
  - eapply (okr_seq cp); [done|by apply okr_ResolveWorker|done].
  - eapply (okr_seq cp); [done|by apply okr_background|done].
Qed.

Lemma race_kept es w :
  race w -> Forall (fun e => match e with inl x => fst x ∈ cps /\ asynchronous x | inr (_, i) => truthful i end) es ->
  race (fst (exec (w, []) (events order has_redis has_issuer has_ready parses es))).
Proof.
  intros Hw He. destruct (exec_ok race later truthful (events order has_redis has_issuer has_ready parses es) (w, [])) as [[H _] _]; [by split| |done].
  apply Forall_map. eapply Forall_impl; [exact He|]. intros [x|[t i]]; cbn; [|done]. intros [Hx Ha] v Hv.
  eapply (okt_mono race later truthful); [apply okr_thread; [|done]|done]. by apply (ra_cps v Hv).
Qed.

End Race.

(** Deep hibernation: its memory is in the checkpoint. *)
Definition hibernated_once (id : string) (w : world) : Prop :=
  exists s, SessionStore.GetSandboxSession (store w) id = Some s /\ SessionStore.status s = "hibernated"%string /\
    SessionStore.hibernation_mode s <> Some "paused"%string.

(** C13. Asynchronous wakes converge: a hibernated sandbox is asked for by any number of
    requests of the asynchronous kind, on any number of control planes that know the same
    workers, while requests, resolutions and wakes for other sandboxes go on. However
    their statements interleave and whichever of them fail, every request that reaches a
    worker reaches the same one: who loses the compare-and-swap reads the winner. *)
Theorem async_wake_converges order has_redis has_issuer has_ready parses (cps : gset string) (addrs : gmap string string) id es w :
  (forall l, order l ≡ₚ l) -> cps ⊆ dom (registries w) ->
  map_Forall (fun _ r => Registry.wf r /\ addresses r = addrs) (registries w) ->
  hibernated_once id w -> cache w !! id = None -> (forall d, In d (served w) -> d_id d <> id) ->
  Forall (fun e => match e with inl x => fst x ∈ cps /\ asynchronous id x | inr (_, i) => truthful i end) es ->
  let w' := fst (exec (w, []) (events order has_redis has_issuer has_ready parses es)) in
  forall d1 d2, In d1 (served w') -> In d2 (served w') -> d_id d1 = id -> d_id d2 = id -> d_url d1 = d_url d2.
Proof.
  intros Ho Hcps Hreg (s & Hs & Hst & Hmode) Hc Hserved He w' d1 d2 H1 H2 Hid1 Hid2.
  unfold SessionStore.GetSandboxSession in Hs. destruct (SessionStore.latest_session (store w) id) as [s0|] eqn:Hs0; [|done].
  injection Hs as <-. cbn in Hst, Hmode.
  pose proof (race_kept order has_redis has_issuer has_ready parses Ho cps id addrs (rows id (store w)) s0 Hs0 Hst Hmode es w) as Hr.
  destruct Hr as [_ _ _ _ Hs]; [|done|].
  - split; [by left|done| |by rewrite Hc|].
    + eapply map_Forall_impl; [exact Hreg|]. intros x r [[Hk _] Ha]. split; [exact Hk|done].
    + apply Forall_forall. intros d Hd Hid. apply list_elem_of_In in Hd. by destruct (Hserved d Hd).
  - rewrite Forall_forall in Hs. apply list_elem_of_In in H1, H2.
    destruct (Hs d1 H1 Hid1) as (a & Ha & Hua), (Hs d2 H2 Hid2) as (b & Hb & Hub).
    pose proof (settled_unique _ _ _ _ _ Ha Hb) as ->. congruence.
Qed.

(** *** An example: two workers that both control planes know, a hibernated sandbox *)

Definition worker (id grpc http : string) : Registry.WorkerEntry :=
  {| Registry.ID := id; Registry.MachineID := ""; Registry.Region := "eu"; Registry.GRPCAddr := grpc; Registry.HTTPAddr := http;
     Registry.Capacity := 10; Registry.Current := 1; Registry.CPUPct := GoFloat.of_int 5; Registry.MemPct := GoFloat.of_int 10;
     Registry.DiskPct := GoFloat.of_int 5; Registry.TotalMemoryMB := 0; Registry.CommittedMemoryMB := 0;
     Registry.GoldenVersion := ""; Registry.WorkerVersion := ""; Registry.Draining := false; Registry.Sandboxes := ∅ |}.

Definition two_workers : Registry.RedisWorkerRegistry :=
  let beat r e := Registry.handleHeartbeat r e false Registry.Ready true in
  beat (beat Registry.new_registry (worker "w1" "a:1" "http://a")) (worker "w2" "b:1" "http://b").

Definition asleep : world := mkP
  (fst (SessionStore.CreateHibernation 6 (fst (SessionStore.UpdateSandboxSessionStatus 5
    (SessionFacts.run (empty_db []) [(1, Create "sb" "org" "base" "eu" "w1" "running" None)]) "sb" "hibernated" None)) "sb" "org" "k" 0 "eu" "base"))%string
  {["cp1"%string := two_workers; "cp2"%string := two_workers]} ∅ ∅ ∅ [] [].

Definition asked (path : string) : request :=
  {| q_id := "sb"; q_method := "POST"; q_path := path; q_org := Some "org"%string; q_async := false; q_upgrade := false |}.

(** An answer at time [t] with the round-robin number [n]. *)
Definition answer (t n : Z) : input := {| i_ok := true; i_did := true; i_now := t; i_counts := fun _ => None; i_rr := n; i_uid := "u" |}.

(** The steps of two requests in turn; the second is placed by the next number. *)
Definition in_turn (path : string) (n : nat) : list (string * task + nat * input) :=
  inl ("cp1", Serve (asked path))%string :: inl ("cp2", Serve (asked path))%string ::
  concat (repeat [inr (0%nat, answer 10 0); inr (1%nat, answer 10 1)] n).

Lemma two_workers_known : map_Forall (fun _ r => Registry.wf r /\ addresses r = addresses two_workers) (registries asleep).
Proof.
  assert (Registry.wf two_workers) by (do 2 apply Registry.heartbeat_wf; apply Registry.new_wf).
  apply map_Forall_insert_2; [done|]. apply map_Forall_singleton. done.
Qed.

Lemma in_turn_fair path n (cps : gset string) (ok : string * task -> Prop) :
  cps = {["cp1"; "cp2"]}%string -> (forall cp, ok (cp, Serve (asked path))) ->
  Forall (fun e => match e with inl x => fst x ∈ cps /\ ok x | inr (_, i) => truthful i end) (in_turn path n).
Proof.
  intros -> Hok. repeat constructor; cbn; try done; try set_solver. induction n; cbn; repeat constructor; done.
Qed.

Lemma async_wake_converges_witness :
  let w' := fst (exec (asleep, []) (events id true true false (fun _ => true) (in_turn "/api/sandboxes/sb/exec/run-async" 11))) in
  map d_url (served w') = ["http://a"; "http://a"]%string /\ hibernated_once "sb" asleep /\
  (forall d1 d2, In d1 (served w') -> In d2 (served w') -> d_id d1 = "sb"%string -> d_id d2 = "sb"%string -> d_url d1 = d_url d2).
Proof.
  split; [vm_compute; reflexivity|]. assert (hibernated_once "sb" asleep) as Ha.
  { eexists. split; [vm_compute; reflexivity|]. by split. }
  split; [exact Ha|]. apply (async_wake_converges id true true false (fun _ => true) {["cp1"; "cp2"]}%string (addresses two_workers)); try done.
  - exact two_workers_known.
  - by apply in_turn_fair.
Defined.

Lemma tokens_open_own_sandbox_witness :
  let w' := fst (exec (asleep, []) (events id true true false (fun _ => true) (in_turn "/api/sandboxes/sb/exec/run-async" 11))) in
  map (fun d => c_WorkerID <$> d_token d) (served w') = [Some "w1"; Some "w1"]%string /\
  forall d t, In d (served w') -> d_token d = Some t -> SandboxJWTMiddleware 100 "other" t = None.
Proof.
  intros w'. split; [vm_compute; reflexivity|]. intros d t Hd Ht.
  assert (tokens_ok asleep) as H0 by (split; [apply map_Forall_empty|constructor]).
  pose proof (tokens_open_own_sandbox id true true false (fun _ => true) (in_turn "/api/sandboxes/sb/exec/run-async" 11) asleep H0 d t 100 Hd Ht) as [_ H].
  apply H; [|discriminate]. assert (map d_id (served w') = ["sb"; "sb"]%string) as E by (vm_compute; reflexivity).
  apply (in_map d_id) in Hd. rewrite E in Hd. by destruct Hd as [<-|[<-|[]]].
Defined.

(** The wake that a request waits for takes no lock and claims nothing first: of two
    such requests at once, with nothing failing and the control planes knowing the same
    workers, each restores the sandbox on a worker of its own and is answered by it. Two
    VMs of one sandbox run; the session row names the first. *)
Theorem inline_wake_splits :
  hibernated_once "sb" asleep /\ Forall (fun e => match e with inl _ => True | inr (_, i) => truthful i end) (in_turn "/api/sandboxes/sb/exec/run" 11) /\
  let w' := fst (exec (asleep, []) (events id true true false (fun _ => true) (in_turn "/api/sandboxes/sb/exec/run" 11))) in
  map d_url (served w') = ["http://a"; "http://b"]%string /\
  vms w' = {[("w1", "sb"); ("w2", "sb")]}%string /\
  SessionStore.worker_id <$> SessionStore.GetSandboxSession (store w') "sb" = Some "w1"%string.
Proof.
  split; [eexists; split; [vm_compute; reflexivity|by split]|]. split; [repeat constructor|].
  split; [vm_compute; reflexivity|]. split; [vm_compute; reflexivity|]. vm_compute. reflexivity.
Qed.

(** The control planes must know the same workers: one that has no entry for the worker
    that another claimed, which is still restoring the sandbox, takes that worker for lost
    and, once the route has left the cache, wakes the sandbox again on one it knows. *)
Definition half_known : world := on_registries (insert "cp2"%string
  (Registry.handleHeartbeat Registry.new_registry (worker "w2" "b:1" "http://b") false Registry.Ready true)) asleep.

Lemma registry_gap_splits :
  let es := map (fun cp => inl (cp, Serve (asked "/api/sandboxes/sb/exec/run-async"))) ["cp1"; "cp2"]%string ++
            repeat (inr (0%nat, answer 10 0)) 11 ++ repeat (inr (1%nat, answer 14 0)) 16 in
  map d_url (served (fst (exec (half_known, []) (events id true true false (fun _ => true) es)))) = ["http://a"; "http://b"]%string.
Proof. vm_compute. reflexivity. Qed.

(** *** Who may be forwarded, and what a gap in a registry costs *)

Lemma scanned d id s : SessionStore.GetSandboxSession d id = Some s -> SessionStore.migrating_to_worker s = ""%string.
Proof. unfold SessionStore.GetSandboxSession. destruct (SessionStore.latest_session d id); [|done]. by intros [= <-]. Qed.

Section Alone.
Context (order : list Registry.WorkerEntry -> list Registry.WorkerEntry) (has_redis has_ready : bool) (cp : string) (parses : string -> bool).
Variables (i : input) (q : request) (s : SessionStore.session) (w : world).
Hypothesis fine : i_ok i = true /\ i_did i = true.
Hypothesis named : q_id q <> ""%string.
Hypothesis uncached : cache w !! q_id q = None.
Hypothesis session_running : SessionStore.GetSandboxSession (store w) (q_id q) = Some s /\ SessionStore.status s = "running"%string.

Lemma alone_lookup has_issuer :
  alone (ProxyHandler order has_redis has_issuer has_ready cp parses q) i w =
  alone (do wk <- get_worker cp (SessionStore.worker_id s);
         match wk with
         | None => tryRecoverOrFail order has_redis has_issuer cp parses q s
         | Some wk => if String.eqb (Registry.HTTPAddr wk) "" then Ret (Reply 502)
                      else forward has_redis has_issuer parses q (Registry.HTTPAddr wk) (SessionStore.worker_id s)
         end) i w.
Proof.
  destruct fine as [Hok _], session_running as [Hs Hr]. unfold ProxyHandler. rewrite (proj2 (String.eqb_neq _ _) named).
  rewrite alone_bind. cbn -[bind]. unfold cached. rewrite uncached. assert ((if has_redis && i_ok i then None else @None routeCacheEntry) = None) as -> by by case_match.
  rewrite alone_bind. assert (alone (if has_ready then ask else Ret true) i w = (w, true)) as ->.
  { destruct has_ready; cbn; by rewrite ?Hok. }
  cbn [negb]. rewrite alone_bind. cbn -[bind]. rewrite Hok, Hs, Hr. done.
Qed.

(** Whatever organisation the caller authenticated as, the request for a running sandbox
    is forwarded, with a token of the caller's organisation that the worker admits: the
    session's organisation is never compared. *)
Lemma any_tenant_forwarded wk :
  Registry.GetWorker (registry cp w) (SessionStore.worker_id s) = Some wk -> Registry.HTTPAddr wk <> ""%string ->
  parses (Registry.HTTPAddr wk) = true ->
  exists t, snd (alone (ProxyHandler order has_redis true has_ready cp parses q) i w) = Forward (Registry.HTTPAddr wk) (Some t) /\
    SandboxJWTMiddleware (i_now i) (q_id q) t = Some (default uuid_Nil (q_org q)).
Proof.
  intros Hw Ha Hp. destruct fine as [Hok Hdid]. rewrite alone_lookup, alone_bind. cbn -[bind forward].
  rewrite Hw, (proj2 (String.eqb_neq _ _) Ha). unfold forward, forwardWithToken, doWebSocket, doHTTP. rewrite alone_bind. cbn -[bind]. rewrite Hok.
  rewrite alone_bind. cbn -[bind]. rewrite Hp. cbn [negb].
  eexists. split.
  - destruct (q_upgrade q); repeat (rewrite ?alone_bind; cbn -[bind]; rewrite ?Hok; cbn [negb]); reflexivity.
  - rewrite admits_own by done. rewrite (proj2 (Z.leb_gt _ _)); [done|]. cbn. lia.
Qed.

(** A control plane that has no entry for the worker at the moment, and finds no
    checkpoint, marks the session of a running sandbox stopped; the test for a migration
    never holds, since the column is not read. *)
Lemma gap_stops_sandbox has_issuer :
  Registry.GetWorker (registry cp w) (SessionStore.worker_id s) = None ->
  SessionStore.GetActiveHibernation (store w) (q_id q) = None ->
  let '(w', r) := alone (ProxyHandler order has_redis has_issuer has_ready cp parses q) i w in
  r = Reply 410 /\ vms w' = vms w /\
  SessionStore.sessions (store w') = SessionStore.UPDATE (SessionStore.status_where (q_id q) "stopped")
    (SessionStore.status_set (i_now i) "stopped" (Some "worker lost, sandbox not recoverable"%string)) (SessionStore.sessions (store w)).
Proof.
  intros Hw Hh. destruct fine as [Hok Hdid]. destruct session_running as [Hs _]. apply scanned in Hs as Hm. rewrite alone_lookup, alone_bind. cbn -[bind tryRecoverOrFail]. rewrite Hw.
  unfold tryRecoverOrFail. rewrite Hm. cbn [negb String.eqb]. rewrite alone_bind. cbn -[bind SessionStore.UpdateSandboxSessionStatus]. rewrite Hok, Hh.
  rewrite alone_bind. cbn -[SessionStore.UpdateSandboxSessionStatus]. rewrite Hdid. cbn -[SessionStore.UpdateSandboxSessionStatus].
  split; [done|]. split; [done|]. apply status_sessions.
Qed.

End Alone.

End SandboxProxyFacts.
