(* ===== verification/Keyring.v ===== *)
(** * Secrets at rest

    src/internal/crypto (encrypt.go, keyring.go, keyring_env.go): values are sealed with
    AES-256-GCM under versioned keys from the environment; and the secret entries of
    src/internal/db/store.go that keep them. AES-GCM is a parameter of the model; what is
    relied on is that a sealed value opens to what was sealed. *)

From S2P Require Import Prelude.
From Stdlib Require Import Ascii.
#[local] Open Scope Z_scope.

(** An authenticated cipher: [Seal] and [Open] of crypto/cipher with a key and a nonce. *)
Class AEAD := {
  Seal : bytes -> bytes -> bytes -> bytes;
  Open : bytes -> bytes -> bytes -> option bytes
}.

(** A value opens to what was sealed, and only a sealed value opens. *)
Class AEADLaws `(AEAD) : Prop := {
  Open_Seal : forall k n p, Open k n (Seal k n p) = Some p;
  Open_only : forall k n c p, Open k n c = Some p -> c = Seal k n p
}.

Module Keyring.

(** ** hex.DecodeString *)

Definition hex_value (c : ascii) : option N :=
  let n := N_of_ascii c in
  if (48 <=? n)%N && (n <=? 57)%N then Some (n - 48)%N
  else if (97 <=? n)%N && (n <=? 102)%N then Some (n - 87)%N
  else if (65 <=? n)%N && (n <=? 70)%N then Some (n - 55)%N
  else None.

Fixpoint hex_DecodeString (b : bytes) : option bytes :=
  match b with
  | [] => Some []
  | [_] => None
  | x :: y :: b =>
      match hex_value x, hex_value y, hex_DecodeString b with
      | Some h, Some l, Some r => Some (ascii_of_N (16 * h + l) :: r)
      | _, _, _ => None
      end
  end.

(** ** [Encryptor] *)

Definition keySize : nat := 32.
Definition nonceSize : nat := 12.

(** An [Encryptor] without a key ring is its key. *)
Definition NewEncryptor (hexKey : string) : option bytes :=
  match hex_DecodeString (raw hexKey) with
  | Some key => if (length key =? keySize)%nat then Some key else None
  | None => None
  end.

Record SecretEntry := { e_encrypted : bytes; e_allowedHosts : list string }.

(** [secret_store_entries], by store and name. *)
Abbreviation table := (gmap (string * string) SecretEntry).

Section Cipher.
Context `{AEAD}.

(** [nonce]: the random bytes read. *)
Definition enc_Encrypt (key nonce plaintext : bytes) : bytes := nonce ++ Seal key nonce plaintext.

Definition enc_Decrypt (key data : bytes) : option bytes :=
  if (length data <? nonceSize)%nat then None else Open key (take nonceSize data) (drop nonceSize data).

(** ** [KeyRing] *)

Record KeyRing := { primary : bytes; primaryVersion : Z; keys : gmap Z bytes }.

(** The loop of [NewKeyRing] over the map, in the order it is iterated. *)
Fixpoint ring_loop (l : list (Z * string)) (r : option KeyRing) : option KeyRing :=
  match l with
  | [] => r
  | (ver, hexKey) :: l =>
      match NewEncryptor hexKey with
      | None => None
      | Some enc =>
          let known := match r with Some r => keys r | None => ∅ end in
          ring_loop l (Some match r with
            | Some r0 => if primaryVersion r0 <? ver then {| primary := enc; primaryVersion := ver; keys := <[ver := enc]> known |}
                         else {| primary := primary r0; primaryVersion := primaryVersion r0; keys := <[ver := enc]> known |}
            | None => {| primary := enc; primaryVersion := ver; keys := <[ver := enc]> known |}
            end)
      end
  end.

(** [order]: Go's map order; [None]: an error. *)
Definition NewKeyRing (order : list (Z * string) -> list (Z * string)) (ks : gmap Z string) : option KeyRing :=
  match order (map_to_list ks) with
  | [] => None
  | l => ring_loop l None
  end.

(** [binary.BigEndian] on 16 bits. *)
Definition PutUint16 (v : Z) : bytes := [ascii_of_N (Z.to_N (v / 256)); ascii_of_N (Z.to_N (v mod 256))].
Definition Uint16 (a b : ascii) : Z := Z.of_N (N_of_ascii a) * 256 + Z.of_N (N_of_ascii b).

Definition Encrypt (r : KeyRing) (nonce plaintext : bytes) : bytes :=
  PutUint16 (primaryVersion r) ++ enc_Encrypt (primary r) nonce plaintext.

Definition Decrypt (r : KeyRing) (data : bytes) : option bytes :=
  match data with
  | a :: b :: rest =>
      let versioned := match keys r !! Uint16 a b with Some enc => enc_Decrypt enc rest | None => None end in
      match versioned with Some result => Some result | None => enc_Decrypt (primary r) data end
  | _ => enc_Decrypt (primary r) data
  end.

(** ** [NewKeyRingFromEnv] *)

Definition base_name : string := "OPENSANDBOX_SECRET_ENCRYPTION_KEY".
Definition env_name (v : Z) : string := base_name ++ "_V" ++ str (itoa (Z.to_N v)).

(** The keys of versions 1 to 9; an unset variable is empty. *)
Definition versioned_keys (env : string -> string) : gmap Z string :=
  fold_left (fun ks v => let hexKey := env (env_name v) in if String.eqb hexKey "" then ks else <[v := hexKey]> ks)
    [1; 2; 3; 4; 5; 6; 7; 8; 9] ∅.

Definition env_keys (env : string -> string) : gmap Z string :=
  let baseKey := env base_name in
  let ks := versioned_keys env in
  if bool_decide (ks = ∅) then {[1 := baseKey]} else <[0 := baseKey]> ks.

(** [Ok None]: no key is configured. *)
Definition NewKeyRingFromEnv (order : list (Z * string) -> list (Z * string)) (env : string -> string) : result unit (option KeyRing) :=
  if String.eqb (env base_name) "" then Ok None
  else match NewKeyRing order (env_keys env) with
       | Some r => Ok (Some r)
       | None => Err tt
       end.

(** ** Secret entries *)

(** [encryptor]: the ring, if one is configured; [nonce]: [None] when no randomness can
    be read; [ok]: the statement succeeds. *)
Definition SetSecretEntry (encryptor : option KeyRing) (t : table) (storeID name : string) (value : bytes) (allowedHosts : list string)
    (nonce : option bytes) (ok : bool) : result unit table :=
  match encryptor, nonce with
  | None, _ => Err tt
  | Some _, None => Err tt
  | Some r, Some n =>
      if ok then Ok (<[(storeID, name) := {| e_encrypted := Encrypt r n value; e_allowedHosts := allowedHosts |}]> t) else Err tt
  end.

Definition DeleteSecretEntry (t : table) (storeID name : string) (ok : bool) : result unit table :=
  if negb ok then Err tt
  else match t !! (storeID, name) with
       | Some _ => Ok (delete (storeID, name) t)
       | None => Err tt
       end.

Definition entries (t : table) (storeID : string) : list (string * SecretEntry) :=
  omap (fun '((sid, name), e) => if String.eqb sid storeID then Some (name, e) else None) (map_to_list t).

Record DecryptedSecret := { s_Name : string; s_Value : bytes; s_AllowedHosts : list string }.

(** The first value that does not open fails the call. *)
Definition DecryptSecretEntries (encryptor : option KeyRing) (t : table) (storeID : string) : result unit (list DecryptedSecret) :=
  match encryptor with
  | None => Err tt
  | Some r =>
      foldr (fun '(name, e) rest =>
        match Decrypt r (e_encrypted e), rest with
        | Some p, Ok l => Ok ({| s_Name := name; s_Value := p; s_AllowedHosts := e_allowedHosts e |} :: l)
        | _, _ => Err tt
        end) (Ok []) (entries t storeID)
  end.

End Cipher.
End Keyring.
