(* ===== verification/KeyringFacts.v ===== *)
(** * What the key ring keeps readable

    A value that was stored stays readable while keys are added to a ring that has
    versioned keys; the first versioned key of a deployment is the exception. *)

From S2P Require Import Prelude Keyring.
From Stdlib Require Import Ascii.
#[local] Open Scope Z_scope.

Module KeyringFacts.
Import Keyring.

(** ** Building the ring *)

Record ring_ok (r : KeyRing) : Prop := {
  rk_primary : keys r !! primaryVersion r = Some (primary r);
  rk_highest : forall v, is_Some (keys r !! v) -> v <= primaryVersion r
}.

(** The keys of [l] added to those of a ring. *)
Definition added (l : list (Z * string)) (m : gmap Z bytes) : gmap Z bytes :=
  fold_left (fun m '(v, h) => match NewEncryptor h with Some k => <[v := k]> m | None => m end) l m.

Lemma add_key_ok r v k :
  ring_ok r ->
  ring_ok (if primaryVersion r <? v then {| primary := k; primaryVersion := v; keys := <[v := k]> (keys r) |}
           else {| primary := primary r; primaryVersion := primaryVersion r; keys := <[v := k]> (keys r) |}) \/ keys r !! v <> None.
Proof.
  intros [Hp Hh]. destruct (keys r !! v) eqn:E; [by right|left]. destruct (Z.ltb_spec (primaryVersion r) v); split; cbn.
  - by rewrite lookup_insert_eq.
  - intros x. destruct (decide (x = v)) as [->|Hne]; [lia|]. rewrite lookup_insert_ne by done. intros Hx%Hh. lia.
  - rewrite lookup_insert_ne; [done|]. intros ->. by rewrite E in Hp.
  - intros x. destruct (decide (x = v)) as [->|Hne]; [lia|]. rewrite lookup_insert_ne by done. apply Hh.
Qed.

Lemma ring_loop_spec l r0 r :
  NoDup (map fst l) -> (forall x, In x (map fst l) -> keys r0 !! x = None) -> ring_ok r0 -> ring_loop l (Some r0) = Some r ->
  ring_ok r /\ keys r = added l (keys r0) /\ Forall (fun x => is_Some (NewEncryptor (snd x))) l.
Proof.
  revert r0; induction l as [|[v h] l IH]; intros r0 Hn Hf Hr; cbn [ring_loop map added fold_left]; [by intros [= <-]|].
  inversion_clear Hn as [|? ? Hv Hn']. destruct (NewEncryptor h) as [k|] eqn:Ek; [|done]. intros Hl.
  destruct (add_key_ok r0 v k Hr) as [Hk|[]]; [|apply Hf; by left]. apply IH in Hl as (H1 & H2 & H3); [|done| |done].
  - split; [done|]. split; [|constructor; [by exists k|done]]. rewrite H2. by destruct (_ <? _).
  - intros x Hx. assert (x <> v) by (intros ->; by apply Hv, list_elem_of_In). destruct (_ <? _); cbn; rewrite lookup_insert_ne by done; apply Hf; by right.
Qed.

Lemma added_lookup l m v :
  NoDup (map fst l) -> Forall (fun x => is_Some (NewEncryptor (snd x))) l ->
  added l m !! v = match List.find (fun x => fst x =? v) l with Some x => NewEncryptor (snd x) | None => m !! v end.
Proof.
  revert m; induction l as [|[x h] l IH]; intros m Hn Hv; cbn [added fold_left map List.find fst]; [done|].
  inversion_clear Hn as [|? ? Hx Hn']. inversion_clear Hv as [|? ? [k Hk] Hv']. cbn in Hk. rewrite Hk.
  change (added l (<[x := k]> m) !! v = match (if x =? v then Some (x, h) else List.find (fun y => fst y =? v) l) with Some y => NewEncryptor (snd y) | None => m !! v end).
  rewrite IH by done. destruct (Z.eqb_spec x v) as [<-|Hne].
  - destruct (List.find _ l) as [y|] eqn:E.
    + apply find_some in E as [Hy Ey%Z.eqb_eq]. destruct Hx. rewrite <- Ey. apply list_elem_of_In, in_map, Hy.
    + cbn. by rewrite lookup_insert_eq.
  - destruct (List.find _ l); [done|]. by rewrite lookup_insert_ne.
Qed.

(** Whatever the order in which Go iterates over the map: every key is valid and in the
    ring, and the highest version is primary. *)
Lemma NewKeyRing_spec order ks r :
  (forall l, order l ≡ₚ l) -> NewKeyRing order ks = Some r ->
  ring_ok r /\ (forall v, keys r !! v = ks !! v ≫= NewEncryptor) /\ map_Forall (fun _ h => is_Some (NewEncryptor h)) ks.
Proof.
  intros Ho. unfold NewKeyRing. pose proof (Ho (map_to_list ks)) as Hp. set (l := order (map_to_list ks)) in *.
  assert (NoDup (map fst l)) as Hn by (change (NoDup l.*1); rewrite Hp; apply NoDup_fst_map_to_list).
  assert (forall v h, In (v, h) l <-> ks !! v = Some h) as Hin.
  { intros v h. rewrite <- elem_of_map_to_list, <- Hp. symmetry. apply list_elem_of_In. }
  clearbody l. destruct l as [|[v h] l]; [done|]. cbn [ring_loop]. destruct (NewEncryptor h) as [k|] eqn:Ek; [|done].
  intros Hl. cbn [map fst] in Hn. pose proof Hn as Hn0. inversion_clear Hn as [|? ? Hv Hn'].
  apply ring_loop_spec in Hl as (H1 & H2 & H3); cbn [keys] in *; [|done| |].
  - assert (Forall (fun x => is_Some (NewEncryptor (snd x))) ((v, h) :: l)) as Hall by (constructor; [by exists k|done]).
    split; [done|]. split.
    + intros x. rewrite H2. change (added l (<[v := k]> ∅)) with (added l (match Some k with Some k => <[v := k]> ∅ | None => ∅ end)).
      rewrite <- Ek. change (added ((v, h) :: l) ∅ !! x = ks !! x ≫= NewEncryptor). rewrite added_lookup by done.
      destruct (List.find _ _) as [[x' h']|] eqn:E.
      * apply find_some in E as [Hy Ey%Z.eqb_eq]. cbn in Ey. subst x'. apply Hin in Hy. by rewrite Hy.
      * rewrite lookup_empty. destruct (ks !! x) as [h'|] eqn:Ex; [|done]. apply Hin in Ex. apply (find_none _ _ E) in Ex. cbn in Ex. by rewrite Z.eqb_refl in Ex.
    + intros x h' Hx%Hin. rewrite Forall_forall in Hall. apply list_elem_of_In, Hall in Hx. done.
  - intros x Hx. rewrite lookup_insert_ne, ?lookup_empty; [done|]. intros ->. by apply Hv, list_elem_of_In.
  - split; cbn; [by rewrite lookup_insert_eq|]. intros x. destruct (decide (x = v)) as [->|Hne]; [lia|].
    rewrite lookup_insert_ne, lookup_empty by done. by intros [].
Qed.

(** ** Versions *)

Definition uint16 (v : Z) : Prop := 0 <= v < 65536.

Lemma ascii_byte n : (n < 256)%N -> N_of_ascii (ascii_of_N n) = n.
Proof. apply N_ascii_embedding. Qed.

Lemma Uint16_Put v : uint16 v ->
  Uint16 (ascii_of_N (Z.to_N (v / 256))) (ascii_of_N (Z.to_N (v mod 256))) = v.
Proof.
  intros [H0 H1]. unfold Uint16. pose proof (Z.div_lt_upper_bound v 256 256). pose proof (Z.mod_pos_bound v 256).
  pose proof (Z.div_pos v 256). rewrite !ascii_byte by lia. pose proof (Z.div_mod v 256). lia.
Qed.

Section Cipher.
Context `{AEADLaws}.

Lemma enc_roundtrip k n p : length n = nonceSize -> enc_Decrypt k (enc_Encrypt k n p) = Some p.
Proof.
  intros Hn. unfold enc_Decrypt, enc_Encrypt. rewrite length_app, Hn. destruct (Nat.ltb_spec (nonceSize + length (Seal k n p)) nonceSize); [lia|].
  rewrite <- Hn, take_app_length, drop_app_length. apply Open_Seal.
Qed.

(** What a ring wrote, any ring that still has its keys reads. *)
Lemma Decrypt_Encrypt r r' n p :
  ring_ok r -> uint16 (primaryVersion r) -> keys r ⊆ keys r' -> length n = nonceSize -> Decrypt r' (Encrypt r n p) = Some p.
Proof.
  intros [Hp _] Hv Hk Hn. unfold Decrypt, Encrypt, PutUint16. cbn [app]. rewrite Uint16_Put by done.
  rewrite (lookup_weaken _ _ _ _ Hp Hk), enc_roundtrip by done. done.
Qed.

(** ** Stored secrets *)

(** Entries set with the nonce that was read, deleted, and rings exchanged by restarts. *)
Inductive op :=
| SetEntry (store name : string) (value : bytes) (hosts : list string) (nonce : bytes) (ok : bool)
| DeleteEntry (store name : string) (ok : bool)
| Restart (r : KeyRing).

Definition vault : Type := KeyRing * table.

Definition run_op (v : vault) (o : op) : vault :=
  match o with
  | SetEntry s n x hs nonce ok => match SetSecretEntry (Some (fst v)) (snd v) s n x hs (Some nonce) ok with Ok t => (fst v, t) | Err _ => v end
  | DeleteEntry s n ok => match DeleteSecretEntry (snd v) s n ok with Ok t => (fst v, t) | Err _ => v end
  | Restart r => (r, snd v)
  end.

(** What a reader of the operations expects to find. *)
Definition expect (m : gmap (string * string) (bytes * list string)) (o : op) : gmap (string * string) (bytes * list string) :=
  match o with
  | SetEntry s n x hs _ true => <[(s, n) := (x, hs)]> m
  | DeleteEntry s n true => delete (s, n) m
  | _ => m
  end.

(** Restarts only add keys; nonces have their size. *)
Fixpoint rotates (r : KeyRing) (os : list op) : Prop :=
  match os with
  | [] => True
  | SetEntry _ _ _ _ nonce _ :: os => length nonce = nonceSize /\ rotates r os
  | DeleteEntry _ _ _ :: os => rotates r os
  | Restart r' :: os => (ring_ok r' /\ uint16 (primaryVersion r') /\ keys r ⊆ keys r') /\ rotates r' os
  end.

(** Every row reads as expected. *)
Definition readable (v : vault) (m : gmap (string * string) (bytes * list string)) : Prop :=
  forall k, match snd v !! k, m !! k with
    | Some e, Some (x, hs) => e_allowedHosts e = hs /\ forall r, keys (fst v) ⊆ keys r -> Decrypt r (e_encrypted e) = Some x
    | None, None => True
    | _, _ => False
    end.

Lemma run_readable os r t m :
  ring_ok r -> uint16 (primaryVersion r) -> rotates r os -> readable (r, t) m ->
  readable (fold_left run_op os (r, t)) (fold_left expect os m).
Proof.
  revert r t m; induction os as [|o os IH]; intros r t m Hr Hv Hrot Hm; [done|]. cbn [fold_left].
  destruct o as [s n x hs nonce ok|s n ok|r']; cbn [run_op expect fst snd rotates] in *.
  - destruct Hrot as [Hn Hrot], ok; [|by apply IH]. apply IH; [done..|]. intros k. cbn -[Encrypt Decrypt]. destruct (decide (k = (s, n))) as [->|Hne].
    + rewrite !lookup_insert_eq. cbn -[Encrypt Decrypt]. split; [done|]. intros r' Hk. by apply Decrypt_Encrypt.
    + rewrite !lookup_insert_ne by done. apply Hm.
  - destruct ok; [|by apply IH]. cbn [DeleteSecretEntry negb]. destruct (t !! (s, n)) eqn:E; apply IH; try done; intros k; cbn.
    + destruct (decide (k = (s, n))) as [->|Hne]; [by rewrite !lookup_delete_eq|]. rewrite !lookup_delete_ne by done. apply Hm.
    + destruct (decide (k = (s, n))) as [->|Hne]; [by rewrite E, lookup_delete_eq|]. rewrite lookup_delete_ne by done. apply Hm.
  - destruct Hrot as [(H1 & H2 & H3) Hrot]. apply IH; [done..|]. intros k. specialize (Hm k). cbn in *.
    destruct (t !! k), (m !! k) as [[x hs]|]; try done. destruct Hm as [Hh Hd]. split; [done|]. intros r'' Hk. apply Hd. by etrans.
Qed.

Lemma in_entries t s name e : In (name, e) (entries t s) <-> t !! (s, name) = Some e.
Proof.
  unfold entries. rewrite <- list_elem_of_In, list_elem_of_omap. split.
  - intros ([[sid n] e'] & Hin & Heq). apply elem_of_map_to_list in Hin. destruct (String.eqb_spec sid s) as [->|]; [|done]. by simplify_eq.
  - intros Hk. exists ((s, name), e). split; [by apply elem_of_map_to_list|]. by rewrite String.eqb_refl.
Qed.

Lemma decrypt_all r l :
  (forall name e, In (name, e) l -> is_Some (Decrypt r (e_encrypted e))) ->
  exists ds, foldr (fun '(name, e) rest => match Decrypt r (e_encrypted e), rest with
      | Some p, Ok l => Ok ({| s_Name := name; s_Value := p; s_AllowedHosts := e_allowedHosts e |} :: l)
      | _, _ => Err tt end) (Ok []) l = Ok ds /\
    forall d, In d ds <-> exists e, In (s_Name d, e) l /\ Decrypt r (e_encrypted e) = Some (s_Value d) /\ e_allowedHosts e = s_AllowedHosts d.
Proof.
  induction l as [|[name e] l IH]; intros Hd; cbn [foldr].
  - exists []. split; [done|]. intros d. split; [done|]. by intros (e & [] & _).
  - destruct IH as (ds & -> & Hds); [intros n' e' Hin; apply (Hd n' e'); by right|]. destruct (Hd name e ltac:(by left)) as [p Hp]. rewrite Hp.
    eexists. split; [done|]. intros d. cbn [In]. rewrite Hds. split.
    + intros [<-|(e' & Hin & H1 & H2)]; [exists e; cbn; auto|exists e'; auto].
    + intros (e' & [Heq|Hin] & H1 & H2); [left|right; eauto]. destruct d; cbn in *. by simplify_eq.
Qed.

(** C15. Stored secrets stay readable through key rotations: after any history of entries
    set and deleted, with statements that fail, and of restarts with rings that only gain
    keys, reading a store gives exactly the entries last set, each with its value and its
    hosts. *)
Theorem vault_survives_rotation os r s :
  ring_ok r -> uint16 (primaryVersion r) -> rotates r os ->
  let v := fold_left run_op os (r, ∅) in
  exists ds, DecryptSecretEntries (Some (fst v)) (snd v) s = Ok ds /\
    forall d, In d ds <-> fold_left expect os ∅ !! (s, s_Name d) = Some (s_Value d, s_AllowedHosts d).
Proof.
  intros Hr Hv Hrot v. pose proof (run_readable os r ∅ ∅ Hr Hv Hrot ltac:(by intros k; rewrite !lookup_empty)) as Hread.
  fold v in Hread. cbn [DecryptSecretEntries]. destruct (decrypt_all (fst v) (entries (snd v) s)) as (ds & Hds & Hin).
  { intros name e He%in_entries. specialize (Hread (s, name)). rewrite He in Hread. destruct (_ !! (s, name)) as [[x hs]|]; [|done].
    exists x. by apply Hread. }
  exists ds. split; [exact Hds|]. intros d. rewrite Hin. pose proof (Hread (s, s_Name d)) as Hk. split.
  - intros (e & He%in_entries & H1 & H2). rewrite He in Hk. destruct (_ !! (s, s_Name d)) as [[x hs]|]; [|done].
    destruct Hk as [Hh Hd]. rewrite Hd in H1 by done. congruence.
  - intros Hm. rewrite Hm in Hk. destruct (snd v !! (s, s_Name d)) as [e|] eqn:He; [|done]. destruct Hk as [Hh Hd].
    exists e. split; [by apply in_entries|]. split; [by apply Hd|done].
Qed.

End Cipher.
(** ** Keys from the environment *)

Definition versions : list Z := [1; 2; 3; 4; 5; 6; 7; 8; 9].

Lemma versioned_lookup env v :
  versioned_keys env !! v = if bool_decide (v ∈ versions) && negb (String.eqb (env (env_name v)) "") then Some (env (env_name v)) else None.
Proof.
  unfold versioned_keys. fold versions.
  assert (forall l (m : gmap Z string), NoDup l -> fold_left (fun ks v => if String.eqb (env (env_name v)) "" then ks else <[v := env (env_name v)]> ks) l m !! v =
    if bool_decide (v ∈ l) && negb (String.eqb (env (env_name v)) "") then Some (env (env_name v)) else m !! v) as Hl.
  { induction l as [|x l IH]; intros m Hn; cbn [fold_left]; [by rewrite bool_decide_false by set_solver|]. inversion_clear Hn as [|? ? Hx Hn']. rewrite IH by done.
    destruct (decide (v = x)) as [->|Hne].
    - rewrite (bool_decide_true (x ∈ x :: l)) by (by left). rewrite bool_decide_false by done.
      cbn [andb]. destruct (String.eqb (env (env_name x)) ""); cbn [negb]; [done|]. by rewrite lookup_insert_eq.
    - assert (bool_decide (v ∈ x :: l) = bool_decide (v ∈ l)) as ->.
      { apply bool_decide_ext. set_solver. }
      assert ((if String.eqb (env (env_name x)) "" then m else <[x := env (env_name x)]> m) !! v = m !! v) as ->; [|done].
      destruct (String.eqb (env (env_name x)) ""); [done|]. by rewrite lookup_insert_ne. }
  rewrite (Hl versions ∅); [done|]. apply (bool_decide_unpack _). vm_compute. exact I.
Qed.

Lemma versioned_range env v : is_Some (versioned_keys env !! v) -> 1 <= v <= 9.
Proof. rewrite versioned_lookup. case_bool_decide as E; cbn; [|by intros []]. intros _. unfold versions in E. set_unfold in E. lia. Qed.

Lemma env_keys_range env v : is_Some (env_keys env !! v) -> 0 <= v <= 9.
Proof.
  unfold env_keys. case_bool_decide as E.
  - intros [x [<- _]%lookup_singleton_Some]. lia.
  - destruct (decide (v = 0)) as [->|Hne]; [lia|]. rewrite lookup_insert_ne by done. intros Hv%versioned_range. lia.
Qed.

(** What is read from the environment is a sound ring of small versions. *)
Lemma env_ring order env r :
  (forall l, order l ≡ₚ l) -> NewKeyRingFromEnv order env = Ok (Some r) ->
  ring_ok r /\ 0 <= primaryVersion r <= 9 /\ (forall v, keys r !! v = env_keys env !! v ≫= NewEncryptor) /\
  map_Forall (fun _ h => is_Some (NewEncryptor h)) (env_keys env).
Proof.
  intros Ho. unfold NewKeyRingFromEnv. case_match; [done|]. destruct (NewKeyRing order (env_keys env)) as [r'|] eqn:E; [|done].
  intros [= ->]. apply NewKeyRing_spec in E as (Hr & Hk & Hall); [|done]. split_and!; [done| | |done|done]; apply (env_keys_range env);
  pose proof (rk_primary r Hr) as Hp; rewrite Hk in Hp; by destruct (env_keys env !! primaryVersion r).
Qed.

(** [env'] keeps what [env] sets. *)
Definition extends (env env' : string -> string) : Prop := forall x, env x <> ""%string -> env' x = env x.

Lemma versioned_extends env env' : extends env env' -> versioned_keys env ⊆ versioned_keys env'.
Proof.
  intros He. apply map_subseteq_spec. intros v k. rewrite !versioned_lookup. destruct (bool_decide (v ∈ versions)); [|done]. cbn [andb].
  destruct (String.eqb_spec (env (env_name v)) "") as [|Hne]; [done|]. intros [= <-]. rewrite (He _ Hne).
  by rewrite (proj2 (String.eqb_neq _ _) Hne).
Qed.

Lemma sub_nonempty (m m' : gmap Z string) : m ⊆ m' -> m <> ∅ -> m' <> ∅.
Proof. intros Hs (k & x & Hk)%map_choose ->. by pose proof (lookup_weaken _ _ _ _ Hk Hs). Qed.

Section Rotation.
Context `{AEADLaws} (order : list (Z * string) -> list (Z * string)) (order_perm : forall l, order l ≡ₚ l).

(** Once a deployment has a versioned key, adding further ones keeps every stored value
    readable, whatever the order in which the ring is built. *)
Theorem rotation_keeps_secrets env env' r r' n p :
  NewKeyRingFromEnv order env = Ok (Some r) -> NewKeyRingFromEnv order env' = Ok (Some r') ->
  versioned_keys env <> ∅ -> extends env env' -> length n = nonceSize ->
  Decrypt r' (Encrypt r n p) = Some p.
Proof.
  intros Hr Hr' Hv He Hn. assert (env base_name <> ""%string) as Hb.
  { intros E. unfold NewKeyRingFromEnv in Hr. by rewrite E in Hr. }
  apply env_ring in Hr as (Hok & Hrange & Hk & _), Hr' as (_ & _ & Hk' & _); [|done..].
  apply Decrypt_Encrypt; [done|unfold uint16; lia| |done]. apply map_subseteq_spec. intros v k. rewrite Hk, Hk'. unfold env_keys.
  rewrite !bool_decide_false; [|by apply (sub_nonempty (versioned_keys env)); [apply versioned_extends|]|done].
  destruct (decide (v = 0)) as [->|Hne]; [by rewrite !lookup_insert_eq, (He _ Hb)|]. rewrite !lookup_insert_ne by done.
  destruct (versioned_keys env !! v) as [h|] eqn:E; [|done]. by rewrite (lookup_weaken _ _ _ _ E (versioned_extends _ _ He)).
Qed.

(** The first versioned key locks the stored values out: a deployment with the one key
    writes version 1, and with the first key of any version added its key becomes version
    0. A stored value is then tried with the new keys alone, and opens only if it happens
    to be a sealing under one of them as well. *)
Theorem first_rotation_locks_out env env' r r' n p :
  NewKeyRingFromEnv order env = Ok (Some r) -> NewKeyRingFromEnv order env' = Ok (Some r') ->
  versioned_keys env = ∅ -> versioned_keys env' <> ∅ -> env' base_name = env base_name -> length n = nonceSize ->
  let data := Encrypt r n p in
  (forall k p', keys r' !! 1 = Some k -> Seal k n p' <> Seal (primary r) n p) ->
  (forall p', Seal (primary r') (take nonceSize data) p' <> drop nonceSize data) ->
  keys r' !! 0 = Some (primary r) /\ Decrypt r' data = None.
Proof.
  intros Hr Hr' Hv Hv' Hb Hn data H1 Hprim. subst data. apply env_ring in Hr as (Hok & Hrange & Hk & _), Hr' as (Hok' & Hrange' & Hk' & _); [|done..].
  assert (primaryVersion r = 1 /\ NewEncryptor (env base_name) = Some (primary r)) as [Hpv Hkey].
  { pose proof (rk_primary r Hok) as Hp. rewrite Hk in Hp. unfold env_keys in Hp. rewrite bool_decide_true in Hp by done.
    destruct (decide (primaryVersion r = 1)) as [E|E]; [rewrite E, lookup_singleton_eq in Hp; done|].
    by rewrite lookup_singleton_ne in Hp by done. }
  split. { rewrite Hk'. unfold env_keys. rewrite bool_decide_false, lookup_insert_eq by done. cbn. by rewrite Hb. }
  assert (forall data, (forall p', Seal (primary r') (take nonceSize data) p' <> drop nonceSize data) -> enc_Decrypt (primary r') data = None) as Hfall.
  { intros data Hd. unfold enc_Decrypt. case_match; [done|]. destruct (Open _ _ _) eqn:E; [|done]. apply Open_only in E. by destruct (Hd _ (eq_sym E)). }
  apply Hfall in Hprim. unfold Decrypt, Encrypt, PutUint16 in *. cbn [app] in *. rewrite Hpv in *. rewrite Uint16_Put by (unfold uint16; lia). rewrite Hprim.
  destruct (keys r' !! 1) as [k|] eqn:E; [|done]. unfold enc_Decrypt, enc_Encrypt. rewrite <- Hn, take_app_length, drop_app_length.
  destruct (_ <? _)%nat; [done|]. destruct (Open k n _) eqn:E'; [|done]. apply Open_only in E'. by destruct (H1 k _ eq_refl (eq_sym E')).
Qed.

(** The rotation that the comments describe, with the new key as the base key and the
    previous one as version 1, keeps the previous key for new values. *)
Lemma documented_rotation_keeps_old_key env' old r' :
  env' (env_name 1) = old -> old <> ""%string -> (forall v, v <> 1 -> versioned_keys env' !! v = None) ->
  NewKeyRingFromEnv order env' = Ok (Some r') -> Some (primary r') = NewEncryptor old.
Proof.
  intros Hold Hne Hothers Hr'. apply env_ring in Hr' as ([Hp Hh] & Hrange' & Hk' & Hall); [|done].
  assert (versioned_keys env' !! 1 = Some old) as H1.
  { rewrite versioned_lookup. rewrite bool_decide_true by (by left). rewrite Hold. by rewrite (proj2 (String.eqb_neq _ _) Hne). }
  assert (versioned_keys env' <> ∅) as Hv by (intros E; by rewrite E in H1).
  assert (forall v, env_keys env' !! v = if bool_decide (v = 0) then Some (env' base_name) else versioned_keys env' !! v) as Hek.
  { intros v. unfold env_keys. rewrite bool_decide_false by done. case_bool_decide; [subst; by rewrite lookup_insert_eq|by rewrite lookup_insert_ne]. }
  destruct (Hall 1 old) as [k Hold']; [by rewrite Hek, bool_decide_false|].
  assert (1 <= primaryVersion r') as Hle. { apply Hh. rewrite Hk', Hek, bool_decide_false, H1 by done. by exists k. }
  rewrite Hk', Hek, bool_decide_false in Hp by lia. destruct (decide (primaryVersion r' = 1)) as [E|E]; [|by rewrite Hothers in Hp].
  rewrite E, H1 in Hp. done.
Qed.

End Rotation.
(** ** Examples *)

(** A cipher that satisfies the laws: the key and the nonce are the tag. *)
#[local] Instance tagging : AEAD := {|
  Seal k n p := k ++ n ++ p;
  Open k n c := if bool_decide (take (length (k ++ n)) c = k ++ n) then Some (drop (length (k ++ n)) c) else None
|}.

#[local] Instance tagging_laws : AEADLaws tagging.
Proof.
  split; cbn; intros k n.
  - intros p. rewrite app_assoc, take_app_length, drop_app_length. by rewrite bool_decide_true.
  - intros c p. case_bool_decide as E; [|done]. intros [= <-]. rewrite app_assoc, <- E at 1. by rewrite take_drop.
Qed.

Definition hex_key (c : ascii) : string := str (replicate 64 c).
Definition environment (l : list (string * string)) (x : string) : string :=
  match List.find (fun y => String.eqb (fst y) x) l with Some y => snd y | None => ""%string end.

Definition env1 := environment [(base_name, hex_key "a")].
Definition env2 := environment [(base_name, hex_key "a"); (env_name 1, hex_key "b")].
Definition env3 := environment [(base_name, hex_key "a"); (env_name 1, hex_key "b"); (env_name 3, hex_key "c")].
Definition ring (env : string -> string) : KeyRing :=
  match NewKeyRingFromEnv id env with Ok (Some r) => r | _ => {| primary := []; primaryVersion := 0; keys := ∅ |} end.
Definition nonce0 : bytes := replicate 12 "n"%char.

Lemma extends23 : extends env2 env3.
Proof.
  intros x. unfold env2, env3, environment. cbn [List.find fst]. repeat case_match; simplify_eq; done.
Qed.

Lemma rotation_keeps_secrets_witness :
  primaryVersion (ring env2) = 1 /\ primaryVersion (ring env3) = 3 /\ Decrypt (ring env3) (Encrypt (ring env2) nonce0 (raw "s3cret")) = Some (raw "s3cret").
Proof.
  split; [vm_compute; reflexivity|]. split; [vm_compute; reflexivity|].
  apply (rotation_keeps_secrets id ltac:(reflexivity) env2 env3); [vm_compute; reflexivity|vm_compute; reflexivity| |exact extends23|reflexivity].
  intros E. apply (f_equal (lookup 1)) in E. vm_compute in E. discriminate.
Defined.

Lemma first_rotation_locks_out_witness :
  Decrypt (ring env1) (Encrypt (ring env1) nonce0 (raw "s3cret")) = Some (raw "s3cret") /\
  keys (ring env2) !! 0 = Some (primary (ring env1)) /\ Decrypt (ring env2) (Encrypt (ring env1) nonce0 (raw "s3cret")) = None.
Proof.
  split; [vm_compute; reflexivity|].
  apply (first_rotation_locks_out id ltac:(reflexivity) env1 env2 (ring env1) (ring env2) nonce0 (raw "s3cret"));
    [vm_compute; reflexivity|vm_compute; reflexivity|vm_compute; reflexivity| |vm_compute; reflexivity|reflexivity| |].
  - intros E. apply (f_equal (lookup 1)) in E. vm_compute in E. discriminate.
  - intros k p' Hk. vm_compute in Hk. injection Hk as <-. intros E. apply (f_equal (take 1)) in E. vm_compute in E. discriminate.
  - intros p' E. apply (f_equal (take 1)) in E. vm_compute in E. discriminate.
Defined.

Lemma vault_survives_rotation_witness :
  let os := [SetEntry "st" "A" (raw "1") ["h"]%string nonce0 true; Restart (ring env3); SetEntry "st" "B" (raw "2") [] nonce0 true;
             SetEntry "st" "A" (raw "3") [] nonce0 false; DeleteEntry "st" "B" true]%string in
  let v := fold_left run_op os (ring env2, ∅) in
  exists ds, DecryptSecretEntries (Some (fst v)) (snd v) "st" = Ok ds /\ In {| s_Name := "A"; s_Value := raw "1"; s_AllowedHosts := ["h"%string] |} ds.
Proof.
  intros os v. destruct (env_ring id env2 (ring env2) ltac:(reflexivity) ltac:(vm_compute; reflexivity)) as (Hr & Hv & Hk & _).
  destruct (env_ring id env3 (ring env3) ltac:(reflexivity) ltac:(vm_compute; reflexivity)) as (Hr' & Hv' & Hk' & _).
  destruct (vault_survives_rotation os (ring env2) "st") as (ds & Hd & Hin).
  - exact Hr.
  - unfold uint16. lia.
  - cbn [rotates os]. split; [reflexivity|]. split; [|by repeat split]. split; [exact Hr'|]. split; [unfold uint16; lia|].
    apply (bool_decide_unpack _). vm_compute. exact I.
  - exists ds. split; [exact Hd|]. apply Hin. vm_compute. reflexivity.
Defined.

End KeyringFacts.
