(* ===== verification/SecretLayers.v ===== *)
(** * Secret stores of a sandbox

    src/internal/api/sandbox.go: how the secret stores named by a create or a fork are
    resolved into the configuration of the sandbox, what of the configuration is kept
    with a session or a checkpoint, and how the host restrictions travel to the worker
    (src/internal/worker/grpc_server.go). *)

From S2P Require Import Prelude.
From Stdlib Require Import Ascii.
#[local] Open Scope Z_scope.

Module SecretLayers.

(** [types.SandboxConfig], the fields that the flows below read. [c_Image]: whether an
    image manifest was given; [c_PreviewAuth]: scheme and token. *)
Record SandboxConfig := {
  c_Template : string; c_Timeout : Z; c_CpuCount : Z; c_MemoryMB : Z; c_DiskMB : Z; c_Envs : gmap string string;
  c_PreviewAuth : option (string * string); c_ImageRef : string; c_CheckpointID : string; c_Image : bool; c_Snapshot : string;
  c_SecretStore : string; c_BaseSecretStore : string; c_EgressAllowlist : list string;
  c_SecretAllowedHosts : gmap string (list string); c_SecretEnvs : gmap string string
}.

(** The fields about secrets replaced. *)
Definition set_secrets (store base : string) (egress : list string) (hosts : gmap string (list string)) (envs : gmap string string)
    (c : SandboxConfig) : SandboxConfig :=
  {| c_Template := c_Template c; c_Timeout := c_Timeout c; c_CpuCount := c_CpuCount c; c_MemoryMB := c_MemoryMB c; c_DiskMB := c_DiskMB c;
     c_Envs := c_Envs c; c_PreviewAuth := c_PreviewAuth c; c_ImageRef := c_ImageRef c; c_CheckpointID := c_CheckpointID c;
     c_Image := c_Image c; c_Snapshot := c_Snapshot c; c_SecretStore := store; c_BaseSecretStore := base;
     c_EgressAllowlist := egress; c_SecretAllowedHosts := hosts; c_SecretEnvs := envs |}.

Definition set_store (store : string) (c : SandboxConfig) : SandboxConfig :=
  set_secrets store (c_BaseSecretStore c) (c_EgressAllowlist c) (c_SecretAllowedHosts c) (c_SecretEnvs c) c.
Definition set_egress (egress : list string) (c : SandboxConfig) : SandboxConfig :=
  set_secrets (c_SecretStore c) (c_BaseSecretStore c) egress (c_SecretAllowedHosts c) (c_SecretEnvs c) c.

(** ** One store *)

Record secret := { s_Name : string; s_Value : string; s_AllowedHosts : list string }.
Record bundle := { b_ID : string; b_EgressAllowlist : list string; b_Entries : list secret }.

(** What the edge, or the database without an edge, says of a name. [NoSource]: neither is
    configured. *)
Inductive lookup_result := Found (b : bundle) | NotFound | Failed | NoSource.
Inductive resolve_error := ErrSecretStoreNotFound | ErrOther.

Definition apply_secret (c : SandboxConfig) (s : secret) : SandboxConfig :=
  set_secrets (c_SecretStore c) (c_BaseSecretStore c) (c_EgressAllowlist c)
    (match s_AllowedHosts s with [] => c_SecretAllowedHosts c | hs => <[s_Name s := hs]> (c_SecretAllowedHosts c) end)
    (<[s_Name s := s_Value s]> (c_SecretEnvs c)) c.

Definition applySecretBundle (c : SandboxConfig) (b : bundle) : SandboxConfig :=
  fold_left apply_secret (b_Entries b) (set_egress (b_EgressAllowlist b) c).

(** The identifier of the store, if there is one; the configuration is changed in place. *)
Definition resolveSecretStoreInto (find : string -> lookup_result) (c : SandboxConfig) : SandboxConfig * result resolve_error (option string) :=
  if String.eqb (c_SecretStore c) "" then (c, Ok None)
  else match find (c_SecretStore c) with
       | Found b => (applySecretBundle c b, Ok (Some (b_ID b)))
       | NotFound => (c, Err ErrSecretStoreNotFound)
       | Failed => (c, Err ErrOther)
       | NoSource => (c, Ok None)
       end.

(** ** Layers *)

(** The names in order, empties dropped, each at its first position. *)
Definition dedup (names : list string) : list string :=
  fold_left (fun l n => if bool_decide (n ∈ l) then l else l ++ [n]) names [].
Definition layers_of (base child user : string) : list string :=
  dedup (List.filter (fun n => negb (String.eqb n "")) [base; child; user]).

(** [acc]: the store identifier, the names resolved and the hosts collected so far. *)
Definition acc : Type := option string * list string * list string.

Fixpoint layer_loop (find : string -> lookup_result) (user : string) (names : list string) (c : SandboxConfig) (a : acc) :
  SandboxConfig * result resolve_error acc :=
  match names with
  | [] => (c, Ok a)
  | name :: names =>
      let userNamed := negb (String.eqb user "") && String.eqb name user in
      match resolveSecretStoreInto find (set_store name c) with
      | (c, Err ErrSecretStoreNotFound) => if userNamed then (c, Err ErrSecretStoreNotFound) else layer_loop find user names c a
      | (c, Err e) => (c, Err e)
      | (c, Ok id) =>
          let '(sid, resolved, egress) := a in
          layer_loop find user names c (match id with Some _ => id | None => sid end, resolved ++ [name], egress ++ c_EgressAllowlist c)
      end
  end.

(** The last two names: the winning child, and its base. *)
Definition last_two (l : list string) : string * string :=
  match rev l with
  | [] => (""%string, ""%string)
  | [x] => (x, ""%string)
  | x :: y :: _ => (x, y)
  end.

Definition layerSecretStores (find : string -> lookup_result) (c : SandboxConfig) (base child user : string) :
  SandboxConfig * result resolve_error (option string) :=
  match layers_of base child user with
  | [] => (c, Ok None)
  | names =>
      match layer_loop find user names c (None, [], []) with
      | (c, Err e) => (c, Err e)
      | (c, Ok (sid, resolved, egress)) =>
          let '(child, base) := last_two resolved in
          (set_secrets child base (dedup egress) (c_SecretAllowedHosts c) (c_SecretEnvs c) c, Ok sid)
      end
  end.

Definition layerForkSecretStores (find : string -> lookup_result) (c : SandboxConfig) (user : string) :
  SandboxConfig * result resolve_error (option string) :=
  layerSecretStores find c (c_BaseSecretStore c) (c_SecretStore c) user.

(** ** What is kept *)

Definition cfgForPersistence (c : SandboxConfig) : SandboxConfig :=
  let hosts :=
    if bool_decide (c_SecretEnvs c = ∅) || bool_decide (c_SecretAllowedHosts c = ∅) then c_SecretAllowedHosts c
    else filter (fun kv => c_SecretEnvs c !! fst kv = None) (c_SecretAllowedHosts c) in
  set_secrets (c_SecretStore c) (c_BaseSecretStore c) [] hosts (c_SecretEnvs c) c.

(** The column holds JSON, which leaves out [SecretEnvs]. *)
Definition reload (c : SandboxConfig) : SandboxConfig :=
  set_secrets (c_SecretStore c) (c_BaseSecretStore c) (c_EgressAllowlist c) (c_SecretAllowedHosts c) ∅ c.

(** ** On the wire *)

(** [strings.Join(hosts, ",")] and [strings.Split(s, ",")]. *)
Fixpoint join (hosts : list bytes) : bytes :=
  match hosts with
  | [] => []
  | [h] => h
  | h :: hosts => h ++ ","%char :: join hosts
  end.

Fixpoint split (b : bytes) : list bytes :=
  match b with
  | [] => [[]]
  | c :: b =>
      if Ascii.eqb c "," then [] :: split b
      else match split b with h :: hosts => (c :: h) :: hosts | [] => [[c]] end
  end.

Definition flattenSecretAllowedHosts (m : gmap string (list string)) : gmap string string :=
  omap (fun hosts => match hosts with [] => None | _ => Some (str (join (map raw hosts))) end) m.

Definition parseSecretAllowedHosts (m : gmap string string) : gmap string (list string) :=
  omap (fun hosts => if String.eqb hosts "" then None else Some (map str (split (raw hosts)))) m.

End SecretLayers.
