(* ===== verification/SecretLayersFacts.v ===== *)
(** * What forks inherit

    The secrets and egress rules of a sandbox as a function of its layers, and what a fork
    of a fork keeps of them. *)

From S2P Require Import Prelude SecretLayers.
From Stdlib Require Import Ascii.
#[local] Open Scope Z_scope.

Module SecretLayersFacts.
Import SecretLayers.

(** ** The effect of the layers *)

Definition add_envs (ss : list secret) (m : gmap string string) : gmap string string :=
  fold_left (fun m s => <[s_Name s := s_Value s]> m) ss m.
Definition add_hosts (ss : list secret) (m : gmap string (list string)) : gmap string (list string) :=
  fold_left (fun m s => match s_AllowedHosts s with [] => m | hs => <[s_Name s := hs]> m end) ss m.

(** The stores among [names] that exist. *)
Definition bundles (find : string -> lookup_result) (names : list string) : list (string * bundle) :=
  omap (fun n => match find n with Found b => Some (n, b) | _ => None end) names.
Definition entries_of (bs : list (string * bundle)) : list secret := concat (map (fun b => b_Entries (snd b)) bs).
Definition egress_of (bs : list (string * bundle)) : list string := concat (map (fun b => b_EgressAllowlist (snd b)) bs).
Definition last_id (bs : list (string * bundle)) (sid : option string) : option string :=
  fold_left (fun _ b => Some (b_ID (snd b))) bs sid.

Lemma apply_fields ss c :
  let c' := fold_left apply_secret ss c in
  c_SecretEnvs c' = add_envs ss (c_SecretEnvs c) /\ c_SecretAllowedHosts c' = add_hosts ss (c_SecretAllowedHosts c) /\
  c_EgressAllowlist c' = c_EgressAllowlist c /\ c_SecretStore c' = c_SecretStore c /\ c_BaseSecretStore c' = c_BaseSecretStore c.
Proof. revert c; induction ss as [|s ss IH]; intros c; [done|]. cbn. destruct (IH (apply_secret c s)) as (-> & -> & -> & -> & ->). done. Qed.

(** Every name exists, or is an inherited one that is gone. *)
Definition layers_ok (find : string -> lookup_result) (user : string) (names : list string) : Prop :=
  Forall (fun n => n <> ""%string /\ ((exists b, find n = Found b) \/ (find n = NotFound /\ n <> user))) names.

Lemma loop_eval find user names c sid res eg :
  layers_ok find user names ->
  exists c', layer_loop find user names c (sid, res, eg) =
      (c', Ok (last_id (bundles find names) sid, res ++ map fst (bundles find names), eg ++ egress_of (bundles find names))) /\
    c_SecretEnvs c' = add_envs (entries_of (bundles find names)) (c_SecretEnvs c) /\
    c_SecretAllowedHosts c' = add_hosts (entries_of (bundles find names)) (c_SecretAllowedHosts c).
Proof.
  intros H; revert c sid res eg; induction H as [|n names [Hne Hn] H IH]; intros c sid res eg; cbn [layer_loop].
  { exists c. by rewrite !app_nil_r. }
  unfold resolveSecretStoreInto. cbn [c_SecretStore set_store set_secrets]. rewrite (proj2 (String.eqb_neq _ _) Hne).
  unfold bundles. cbn [omap list_omap]. fold (bundles find names). destruct Hn as [[b Hb]|[Hb Hu]]; rewrite Hb.
  - destruct (apply_fields (b_Entries b) (set_egress (b_EgressAllowlist b) (set_store n c))) as (H1 & H2 & H3 & _ & _).
    unfold applySecretBundle. set (c1 := fold_left apply_secret _ _) in *. rewrite H3. cbn [c_EgressAllowlist set_egress set_secrets].
    destruct (IH c1 (Some (b_ID b)) (res ++ [n]) (eg ++ b_EgressAllowlist b)) as (c' & -> & He & Hh). exists c'.
    unfold entries_of, egress_of, last_id in *. cbn [map concat fold_left snd fst]. rewrite <- !app_assoc. split; [done|].
    rewrite He, Hh, H1, H2. unfold add_envs, add_hosts. by rewrite !fold_left_app.
  - assert (negb (String.eqb user "") && String.eqb n user = false) as -> by (apply String.eqb_neq in Hu; by rewrite Hu, andb_false_r).
    destruct (IH (set_store n c) sid res eg) as (c' & Hc & He & Hh). exists c'. by split_and!.
Qed.

(** Only then is there a result, when a source is configured. *)
Lemma loop_inv find user names c a c' a' :
  (forall n, find n <> NoSource) -> Forall (fun n => n <> ""%string) names ->
  layer_loop find user names c a = (c', Ok a') -> layers_ok find user names.
Proof.
  intros Hsrc Hne. revert c a; induction Hne as [|n names Hn Hne IH]; intros c a; [by constructor|]. cbn [layer_loop].
  unfold resolveSecretStoreInto. cbn [c_SecretStore set_store set_secrets]. rewrite (proj2 (String.eqb_neq _ _) Hn).
  destruct (find n) as [b| | |] eqn:E; cbn; [| |done|by destruct (Hsrc n)].
  - destruct a as [[sid res] eg]. intros H%IH. constructor; [|done]. split; [done|]. left. by exists b.
  - destruct (negb (String.eqb user "") && String.eqb n user) eqn:Eu; [done|]. intros H%IH. constructor; [|done]. split; [done|]. right.
    split; [done|]. intros ->. rewrite String.eqb_refl, (proj2 (String.eqb_neq _ _) Hn) in Eu. done.
Qed.

(** ** Layers *)

Lemma dedup_spec l : NoDup (dedup l) /\ forall x, x ∈ dedup l <-> x ∈ l.
Proof.
  unfold dedup. assert (forall acc, NoDup acc -> NoDup (fold_left (fun l n => if bool_decide (n ∈ l) then l else l ++ [n]) l acc) /\
    forall x, x ∈ fold_left (fun l n => if bool_decide (n ∈ l) then l else l ++ [n]) l acc <-> x ∈ acc \/ x ∈ l) as H.
  { induction l as [|n l IH]; intros acc Ha; cbn [fold_left]; [split; [done|set_solver]|]. case_bool_decide as E.
    - destruct (IH acc Ha) as [H1 H2]. split; [done|]. intros x. rewrite H2. set_solver.
    - destruct (IH (acc ++ [n])) as [H1 H2].
      + apply NoDup_app. split; [done|]. split; [set_solver|]. repeat constructor. set_solver.
      + split; [done|]. intros x. rewrite H2. set_solver. }
  destruct (H [] ltac:(constructor)) as [H1 H2]. split; [done|]. intros x. rewrite H2. set_solver.
Qed.

Lemma dedup_id l : NoDup l -> dedup l = l.
Proof.
  intros Hl. unfold dedup. assert (forall acc, NoDup (acc ++ l) -> fold_left (fun l n => if bool_decide (n ∈ l) then l else l ++ [n]) l acc = acc ++ l) as H.
  { clear Hl. induction l as [|n l IH]; intros acc Ha; cbn [fold_left]; [by rewrite app_nil_r|].
    apply NoDup_app in Ha as Ha'. destruct Ha' as (_ & Hd & _). rewrite bool_decide_false by set_solver.
    rewrite IH by (by rewrite <- app_assoc). by rewrite <- app_assoc. }
  by apply (H []).
Qed.

Lemma layers_nonempty base child user : Forall (fun n => n <> ""%string) (layers_of base child user).
Proof.
  apply Forall_forall. intros n Hn. apply dedup_spec, list_elem_of_In, filter_In in Hn as [_ Hn]. by apply negb_true_iff, String.eqb_neq in Hn.
Qed.

(** At most two names come back as they went. *)
Lemma last_two_layers l : NoDup l -> Forall (fun n => n <> ""%string) l -> (length l <= 2)%nat ->
  layers_of (snd (last_two l)) (fst (last_two l)) "" = l.
Proof.
  intros Hn Hne Hl. destruct l as [|x [|y [|]]]; [done| | |cbn in Hl; lia].
  - inversion_clear Hne as [|? ? Hx _]. unfold layers_of, last_two. cbn. apply String.eqb_neq in Hx. by rewrite Hx.
  - inversion_clear Hne as [|? ? Hx Hne']. inversion_clear Hne' as [|? ? Hy _]. unfold layers_of, last_two. cbn [rev app fst snd List.filter].
    rewrite (proj2 (String.eqb_neq _ _) Hx), (proj2 (String.eqb_neq _ _) Hy). cbn [negb String.eqb]. by apply dedup_id.
Qed.

Lemma bundles_names find l : map fst (bundles find l) `sublist_of` l.
Proof.
  unfold bundles. induction l as [|n l IH]; cbn; [done|]. destruct (find n); cbn; [by apply sublist_skip|by apply sublist_cons..].
Qed.

Lemma bundles_again find l : bundles find (map fst (bundles find l)) = bundles find l.
Proof.
  unfold bundles. induction l as [|n l IH]; cbn; [done|]. destruct (find n) eqn:E; cbn; rewrite ?E; [by rewrite IH|done..].
Qed.

Lemma bundles_found find user l : layers_ok find user l -> layers_ok find "" (map fst (bundles find l)).
Proof.
  unfold bundles, layers_ok. induction l as [|n l IH]; cbn; [by constructor|]. inversion_clear 1 as [|? ? [Hn Hf] Hl].
  destruct (find n) eqn:E; cbn; [|by apply IH..]. constructor; [|by apply IH]. split; [done|]. left. by exists b.
Qed.

(** ** Environments and hosts *)

Lemma add_envs_lookup ss m k : add_envs ss m !! k = match List.find (fun s => String.eqb (s_Name s) k) (rev ss) with Some s => Some (s_Value s) | None => m !! k end.
Proof.
  unfold add_envs. rewrite <- fold_left_rev_right. induction (rev ss) as [|s l IH]; cbn; [done|].
  destruct (String.eqb_spec (s_Name s) k) as [<-|Hne]; [by rewrite lookup_insert_eq|]. by rewrite lookup_insert_ne.
Qed.

Lemma add_envs_None ss k : add_envs ss ∅ !! k = None <-> forall s, In s ss -> s_Name s <> k.
Proof.
  rewrite add_envs_lookup. split.
  - destruct (List.find _ _) eqn:E; [done|]. intros _ s Hs Hk. pose proof (find_none _ _ E s (proj1 (in_rev _ _) Hs)) as Hf.
    cbn in Hf. by rewrite Hk, String.eqb_refl in Hf.
  - intros H. destruct (List.find _ _) eqn:E; [|done]. apply find_some in E as [Hs He%String.eqb_eq]. apply in_rev in Hs. by destruct (H s).
Qed.

Lemma add_hosts_other ss m k : (forall s, In s ss -> s_Name s <> k) -> add_hosts ss m !! k = m !! k.
Proof.
  revert m; induction ss as [|s ss IH]; intros m Hk; cbn; [done|]. rewrite IH by (intros s' Hs'; apply Hk; by right).
  destruct (s_AllowedHosts s); [done|]. rewrite lookup_insert_ne; [done|]. apply Hk. by left.
Qed.

Lemma add_hosts_ext ss m m' k : m !! k = m' !! k -> add_hosts ss m !! k = add_hosts ss m' !! k.
Proof.
  revert m m'; induction ss as [|s ss IH]; intros m m' Hk; cbn; [done|]. apply IH. destruct (s_AllowedHosts s); [done|].
  destruct (decide (s_Name s = k)) as [->|]; [by rewrite !lookup_insert_eq|by rewrite !lookup_insert_ne].
Qed.

(** What is kept of the hosts: those of names that no store defines. *)
Lemma kept_hosts ss m k :
  (if bool_decide (add_envs ss ∅ = ∅) || bool_decide (add_hosts ss m = ∅) then add_hosts ss m
   else filter (fun kv => add_envs ss ∅ !! fst kv = None) (add_hosts ss m)) !! k =
  match add_envs ss ∅ !! k with Some _ => None | None => m !! k end.
Proof.
  assert (add_envs ss ∅ !! k = None -> add_hosts ss m !! k = m !! k) as Hother by (intros Hk; apply add_hosts_other, add_envs_None, Hk).
  destruct (decide (add_envs ss ∅ = ∅)) as [E1|E1].
  { rewrite (bool_decide_true _ E1), E1, lookup_empty. cbn [orb]. apply Hother. by rewrite E1. }
  rewrite (bool_decide_false _ E1). cbn [orb]. case_bool_decide as E2.
  - rewrite E2, lookup_empty in *. destruct (add_envs ss ∅ !! k); [done|]. by apply Hother.
  - destruct (add_envs ss ∅ !! k) eqn:E.
    + apply map_lookup_filter_None. right. intros x _. cbn. by rewrite E.
    + rewrite <- Hother by done. destruct (add_hosts ss m !! k) eqn:Eh; [by apply map_lookup_filter_Some|]. apply map_lookup_filter_None. by left.
Qed.

(** ** Forks of forks *)

Lemma no_layers base child user : layers_of base child user = [] -> base = ""%string /\ child = ""%string.
Proof.
  intros H. assert (forall n, n ∈ [base; child; user] -> n = ""%string) as Hn.
  { intros n Hn. destruct (String.eqb_spec n "") as [|Hne]; [done|]. exfalso. assert (n ∈ layers_of base child user) as Hin; [|by rewrite H in Hin; apply elem_of_nil in Hin].
    apply dedup_spec, list_elem_of_In, filter_In. split; [by apply list_elem_of_In|]. apply String.eqb_neq in Hne. by rewrite Hne. }
  split; apply Hn; set_solver.
Qed.

(** What a fork computes, in terms of the stores that exist. *)
Definition bound (bs : list (string * bundle)) (hosts : gmap string (list string)) (c : SandboxConfig) : Prop :=
  c_SecretEnvs c = add_envs (entries_of bs) ∅ /\ c_SecretAllowedHosts c = add_hosts (entries_of bs) hosts /\
  c_EgressAllowlist c = dedup (egress_of bs) /\ (c_SecretStore c, c_BaseSecretStore c) = last_two (map fst bs).

Lemma fork_eval find c user :
  c_SecretEnvs c = ∅ -> c_EgressAllowlist c = [] ->
  let names := layers_of (c_BaseSecretStore c) (c_SecretStore c) user in
  layers_ok find user names ->
  exists c1, layerForkSecretStores find c user = (c1, Ok (last_id (bundles find names) None)) /\
    bound (bundles find names) (c_SecretAllowedHosts c) c1.
Proof.
  intros Hs He names Hok. unfold layerForkSecretStores, layerSecretStores. fold names. destruct names as [|n l] eqn:En.
  - apply no_layers in En as [Hb Hc]. exists c. split; [done|]. unfold bound. cbn. by rewrite Hs, He, Hb, Hc.
  - destruct (loop_eval find user (n :: l) c None [] [] Hok) as (c' & -> & H1 & H2). destruct (last_two _) as [x y] eqn:El.
    eexists. split; [reflexivity|]. unfold bound. cbn -[bundles]. by rewrite H1, H2, Hs.
Qed.

Lemma fork_inv find c user c1 id :
  (forall n, find n <> NoSource) -> layerForkSecretStores find c user = (c1, Ok id) ->
  layers_ok find user (layers_of (c_BaseSecretStore c) (c_SecretStore c) user).
Proof.
  intros Hsrc. unfold layerForkSecretStores, layerSecretStores.
  pose proof (layers_nonempty (c_BaseSecretStore c) (c_SecretStore c) user) as Hne. destruct (layers_of _ _ _) as [|n l]; [by constructor|].
  destruct (layer_loop _ _ _ _ _) as [c' [a|e]] eqn:E; [|done]. intros _. by apply loop_inv in E.
Qed.

(** The configuration of a fork, stored and read again. *)
Lemma stored_names bs hosts c1 :
  bound bs hosts c1 -> NoDup (map fst bs) -> Forall (fun n => n <> ""%string) (map fst bs) -> (length bs <= 2)%nat ->
  let c' := reload (cfgForPersistence c1) in
  layers_of (c_BaseSecretStore c') (c_SecretStore c') "" = map fst bs /\
  forall k, (is_Some (hosts !! k) -> forall s, In s (entries_of bs) -> s_Name s <> k) -> c_SecretAllowedHosts c' !! k = hosts !! k.
Proof.
  intros (H1 & H2 & H3 & H4) Hn Hne Hl c'. split.
  - change (c_BaseSecretStore c') with (snd (c_SecretStore c1, c_BaseSecretStore c1)).
    change (c_SecretStore c') with (fst (c_SecretStore c1, c_BaseSecretStore c1)). rewrite H4.
    apply last_two_layers; [done|done|]. by rewrite length_map.
  - intros k Hd. unfold c', reload, cfgForPersistence. cbn [c_SecretAllowedHosts set_secrets]. rewrite H1, H2, kept_hosts.
    destruct (hosts !! k) eqn:E; [|by case_match]. by rewrite (proj2 (add_envs_None _ k)) by auto.
Qed.

(** C16. A fork of a fork is bound as the fork was: as long as the stores are unchanged and
    at most two of those that the fork layers exist, what is stored of a fork, which holds
    neither secrets nor egress rules, resolves again to the same secrets, egress rules and
    stores, and to the same hosts for every name, except one that a store defines and the
    configuration before the fork restricted itself. *)
Theorem fork_of_fork_stable find c user c1 id :
  (forall n, find n <> NoSource) -> c_SecretEnvs c = ∅ -> c_EgressAllowlist c = [] ->
  layerForkSecretStores find c user = (c1, Ok id) ->
  let bs := bundles find (layers_of (c_BaseSecretStore c) (c_SecretStore c) user) in
  (length bs <= 2)%nat ->
  exists c2, layerForkSecretStores find (reload (cfgForPersistence c1)) "" = (c2, Ok id) /\
    c_SecretEnvs c2 = c_SecretEnvs c1 /\ c_EgressAllowlist c2 = c_EgressAllowlist c1 /\
    c_SecretStore c2 = c_SecretStore c1 /\ c_BaseSecretStore c2 = c_BaseSecretStore c1 /\
    forall k, (is_Some (c_SecretAllowedHosts c !! k) -> forall s, In s (entries_of bs) -> s_Name s <> k) ->
      c_SecretAllowedHosts c2 !! k = c_SecretAllowedHosts c1 !! k.
Proof.
  intros Hsrc Hs He H bs Hlen. set (names := layers_of _ _ _) in bs. pose proof (fork_inv _ _ _ _ _ Hsrc H) as Hok. fold names in Hok.
  destruct (fork_eval find c user Hs He Hok) as (c1' & E & Hb). rewrite E in H. injection H as -> <-. fold names bs in Hb |- *.
  assert (map fst bs `sublist_of` names) as Hsub by apply bundles_names.
  assert (Forall (fun n => n <> ""%string) (map fst bs)) as Hne.
  { pose proof (layers_nonempty (c_BaseSecretStore c) (c_SecretStore c) user) as Hl. fold names in Hl. rewrite Forall_forall in Hl |- *.
    intros n Hn. by eapply Hl, elem_of_sublist. }
  destruct (stored_names bs _ c1 Hb) as [Hn Hh]; [eapply sublist_NoDup; [apply dedup_spec|exact Hsub]|done..|].
  destruct (fork_eval find (reload (cfgForPersistence c1)) "") as (c2 & E2 & Hb2); [done|done|rewrite Hn; eapply bundles_found, Hok|].
  rewrite Hn in *. unfold bs in E2, Hb2. rewrite bundles_again in E2, Hb2. fold bs in E2, Hb2.
  exists c2. split; [exact E2|]. destruct Hb as (-> & Hh1 & -> & A), Hb2 as (-> & Hh2 & -> & B). rewrite <- B in A. injection A as -> ->.
  split_and!; [done..|]. intros k Hk. rewrite Hh1, Hh2. by apply add_hosts_ext, Hh.
Qed.

(** A third store is forgotten: a fork that layers a store of its own on a base and a
    child has the secrets of all three, but only two names are stored with it. A fork of
    that fork, or a sandbox restored from its configuration, lacks every secret that only
    the first store has, and its egress rules. *)
Theorem third_store_forgotten find c user a b d k s :
  (forall n, find n <> NoSource) -> c_SecretEnvs c = ∅ -> c_EgressAllowlist c = [] ->
  NoDup [c_BaseSecretStore c; c_SecretStore c; user] -> ~ In ""%string [c_BaseSecretStore c; c_SecretStore c; user] ->
  find (c_BaseSecretStore c) = Found a -> find (c_SecretStore c) = Found b -> find user = Found d ->
  In s (b_Entries a) -> s_Name s = k -> (forall x, In x (b_Entries b ++ b_Entries d) -> s_Name x <> k) ->
  exists c1 id, layerForkSecretStores find c user = (c1, Ok id) /\ is_Some (c_SecretEnvs c1 !! k) /\
  exists c2, layerForkSecretStores find (reload (cfgForPersistence c1)) "" = (c2, Ok id) /\ c_SecretEnvs c2 !! k = None /\
    c_EgressAllowlist c2 = dedup (b_EgressAllowlist b ++ b_EgressAllowlist d).
Proof.
  intros Hsrc Hs He Hnd Hne Ha Hb Hd Hin Hk Hno.
  assert (c_BaseSecretStore c <> "" /\ c_SecretStore c <> "" /\ user <> "")%string as (N1 & N2 & N3) by (cbn in Hne; tauto).
  assert (layers_of (c_BaseSecretStore c) (c_SecretStore c) user = [c_BaseSecretStore c; c_SecretStore c; user]) as Hl.
  { unfold layers_of. cbn [List.filter]. rewrite (proj2 (String.eqb_neq _ _) N1), (proj2 (String.eqb_neq _ _) N2), (proj2 (String.eqb_neq _ _) N3). by apply dedup_id. }
  destruct (fork_eval find c user Hs He) as (c1 & E1 & H1 & H2 & H3 & H4); [rewrite Hl; repeat constructor; eauto|]. rewrite Hl in *.
  unfold bundles in E1, H1, H3, H4. cbn [omap list_omap] in *. rewrite Ha, Hb, Hd in *. cbn in H4. injection H4 as Hu Hc.
  exists c1, (Some (b_ID d)). split; [exact E1|]. split.
  { rewrite H1. destruct (add_envs _ ∅ !! k) eqn:E; [by eexists|]. rewrite add_envs_None in E. destruct (E s); [|done].
    unfold entries_of. cbn. apply in_app_iff. by left. }
  assert (layers_of (c_BaseSecretStore (reload (cfgForPersistence c1))) (c_SecretStore (reload (cfgForPersistence c1))) "" = [c_SecretStore c; user]) as Hl2.
  { unfold reload, cfgForPersistence, layers_of. cbn [c_BaseSecretStore c_SecretStore set_secrets List.filter]. rewrite Hu, Hc.
    rewrite (proj2 (String.eqb_neq _ _) N2), (proj2 (String.eqb_neq _ _) N3). cbn [negb String.eqb]. apply dedup_id. by inversion Hnd. }
  destruct (fork_eval find (reload (cfgForPersistence c1)) "") as (c2 & E2 & G1 & G2 & G3 & _); [done|done|rewrite Hl2; repeat constructor; eauto|].
  rewrite Hl2 in *. unfold bundles in E2, G1, G3. cbn [omap list_omap] in *. rewrite Hb, Hd in *. exists c2. split; [exact E2|]. split.
  - rewrite G1. apply add_envs_None. unfold entries_of. cbn. rewrite app_nil_r. exact Hno.
  - rewrite G3. unfold egress_of. cbn. by rewrite app_nil_r.
Qed.

(** ** The wire format of host restrictions *)

Definition no_comma (b : bytes) : Prop := Forall (fun c => c <> ","%char) b.

Lemma split_prefix h rest : no_comma h -> split (h ++ ","%char :: rest) = h :: split rest.
Proof.
  induction 1 as [|c h Hc Hh IH]; cbn; [done|]. rewrite (proj2 (Ascii.eqb_neq _ _) Hc), IH. done.
Qed.

Lemma split_single h : no_comma h -> split h = [h].
Proof. induction 1 as [|c h Hc Hh IH]; cbn; [done|]. by rewrite (proj2 (Ascii.eqb_neq _ _) Hc), IH. Qed.

Lemma split_join hosts : hosts <> [] -> Forall no_comma hosts -> split (join hosts) = hosts.
Proof.
  intros Hne H. induction H as [|h hosts Hh H IH]; [done|]. destruct hosts as [|h' hosts]; [by apply split_single|].
  change (join (h :: h' :: hosts)) with (h ++ ","%char :: join (h' :: hosts)). rewrite split_prefix by done. by rewrite IH.
Qed.

(** Restrictions reach the worker as they were set, if host names have no comma. One of the
    single empty host is lost on the way: the secret is then substituted for every host. *)
Lemma hosts_roundtrip m :
  map_Forall (fun _ hosts => hosts <> [] /\ hosts <> [""%string] /\ Forall (fun h => no_comma (raw h)) hosts) m ->
  parseSecretAllowedHosts (flattenSecretAllowedHosts m) = m.
Proof.
  intros Hm. apply map_eq. intros k. unfold parseSecretAllowedHosts, flattenSecretAllowedHosts. rewrite !lookup_omap.
  destruct (m !! k) as [hosts|] eqn:E; [|done]. destruct (Hm k hosts E) as (H1 & H2 & H3). cbn.
  assert (forall A (x y : A), match hosts with [] => x | _ => y end = y) as Hne by (by destruct hosts). rewrite Hne. cbn.
  assert (split (raw (str (join (map raw hosts)))) = map raw hosts) as Hs.
  { rewrite raw_str. apply split_join; [by destruct hosts|]. by apply Forall_map. }
  destruct (String.eqb_spec (str (join (map raw hosts))) "") as [E0|_].
  - exfalso. rewrite E0 in Hs. cbn in Hs. destruct hosts as [|h' [|h'' l]]; cbn in Hs; try done. injection Hs as Hh.
    apply H2. f_equal. rewrite <- (str_raw h'), <- Hh. done.
  - cbn. rewrite Hs, map_map. f_equal. rewrite <- (map_id hosts) at 2. apply map_ext. apply str_raw.
Qed.

Lemma empty_host_lost : parseSecretAllowedHosts (flattenSecretAllowedHosts {["KEY"%string := [""%string]]}) = ∅.
Proof. vm_compute. reflexivity. Qed.

(** ** Two gaps *)

(** The egress rules that a caller set without a store are not stored: a fork has none. *)
Lemma own_egress_lost find c :
  c_SecretStore c = ""%string -> c_BaseSecretStore c = ""%string ->
  exists c', layerForkSecretStores find (reload (cfgForPersistence c)) "" = (c', Ok None) /\ c_EgressAllowlist c' = [].
Proof.
  intros Hs Hb. destruct (fork_eval find (reload (cfgForPersistence c)) "") as (c' & E & _ & _ & He & _); [done|done| |].
  - cbn [reload cfgForPersistence c_BaseSecretStore c_SecretStore set_secrets]. rewrite Hs, Hb. constructor.
  - cbn [reload cfgForPersistence c_BaseSecretStore c_SecretStore set_secrets] in *. rewrite Hs, Hb in *. exists c'. split; [exact E|exact He].
Qed.

(** The hosts that a caller restricted a secret of a store to are not stored either, if
    the store sets none: the secret of the fork is sent to [x.com] only, that of a fork of
    the fork to any host. *)
Lemma own_hosts_lost :
  let find n := if String.eqb n "s" then Found {| b_ID := "1"; b_EgressAllowlist := [];
                  b_Entries := [{| s_Name := "K"; s_Value := "v"; s_AllowedHosts := [] |}] |} else NotFound in
  let c := {| c_Template := "base"; c_Timeout := 300; c_CpuCount := 1; c_MemoryMB := 4096; c_DiskMB := 20480; c_Envs := ∅; c_PreviewAuth := None;
              c_ImageRef := ""; c_CheckpointID := ""; c_Image := false; c_Snapshot := ""; c_SecretStore := "s"; c_BaseSecretStore := "";
              c_EgressAllowlist := []; c_SecretAllowedHosts := {["K" := ["x.com"]]}; c_SecretEnvs := ∅ |}%string in
  let c1 := fst (layerForkSecretStores find c "") in
  let c2 := fst (layerForkSecretStores find (reload (cfgForPersistence c1)) "") in
  c_SecretAllowedHosts c1 !! "K"%string = Some ["x.com"%string] /\
  c_SecretEnvs c2 !! "K"%string = Some "v"%string /\ c_SecretAllowedHosts c2 !! "K"%string = None.
Proof. vm_compute. done. Qed.

(** A later store that redefines a secret without hosts leaves the hosts of the earlier. *)
Lemma stale_hosts a b k v hs c :
  c_SecretAllowedHosts (applySecretBundle (applySecretBundle c
    {| b_ID := a; b_EgressAllowlist := []; b_Entries := [{| s_Name := k; s_Value := "old"; s_AllowedHosts := [hs] |}] |})
    {| b_ID := b; b_EgressAllowlist := []; b_Entries := [{| s_Name := k; s_Value := v; s_AllowedHosts := [] |}] |}) !! k = Some [hs].
Proof. cbn. apply lookup_insert_eq. Qed.

(** ** Examples *)

Definition store (id : string) (hosts : list string) (names : list string) : bundle :=
  {| b_ID := id; b_EgressAllowlist := hosts; b_Entries := map (fun n => {| s_Name := n; s_Value := id ++ n; s_AllowedHosts := [] |}) names |}.
Definition stores (n : string) : lookup_result :=
  if String.eqb n "base" then Found (store "1" ["a.com"; "b.com"] ["K"; "A"])
  else if String.eqb n "child" then Found (store "2" ["b.com"] ["K"; "B"])
  else if String.eqb n "user" then Found (store "3" [] ["C"]) else NotFound.
Definition config (base child : string) : SandboxConfig :=
  {| c_Template := "base"; c_Timeout := 300; c_CpuCount := 1; c_MemoryMB := 4096; c_DiskMB := 20480; c_Envs := ∅; c_PreviewAuth := None;
     c_ImageRef := ""; c_CheckpointID := ""; c_Image := false; c_Snapshot := ""; c_SecretStore := child; c_BaseSecretStore := base;
     c_EgressAllowlist := []; c_SecretAllowedHosts := {["OWN" := ["x.com"]]}; c_SecretEnvs := ∅ |}%string.

Lemma stores_sourced n : stores n <> NoSource.
Proof. unfold stores. by repeat case_match. Qed.

Lemma fork_of_fork_stable_witness :
  let r := layerForkSecretStores stores (config "gone" "base") "child" in
  c_SecretEnvs (fst r) !! "K"%string = Some "2K"%string /\ c_EgressAllowlist (fst r) = ["a.com"; "b.com"]%string /\
  exists c2, layerForkSecretStores stores (reload (cfgForPersistence (fst r))) "" = (c2, Ok (Some "2"%string)) /\
    c_SecretEnvs c2 = c_SecretEnvs (fst r) /\ c_SecretAllowedHosts c2 !! "OWN"%string = Some ["x.com"%string].
Proof.
  intros r. split; [vm_compute; reflexivity|]. split; [vm_compute; reflexivity|].
  destruct (fork_of_fork_stable stores (config "gone" "base") "child" (fst r) (Some "2"%string) stores_sourced eq_refl eq_refl) as (c2 & H & E & _ & _ & _ & Hk).
  - vm_compute. reflexivity.
  - vm_compute. lia.
  - exists c2. split; [exact H|]. split; [exact E|]. rewrite Hk; [vm_compute; reflexivity|].
    intros _ s Hs. vm_compute in Hs. by destruct Hs as [<-|[<-|[<-|[<-|[]]]]].
Defined.

Lemma third_store_forgotten_witness :
  exists c1 id, layerForkSecretStores stores (config "base" "child") "user" = (c1, Ok id) /\ is_Some (c_SecretEnvs c1 !! "A"%string) /\
  exists c2, layerForkSecretStores stores (reload (cfgForPersistence c1)) "" = (c2, Ok id) /\ c_SecretEnvs c2 !! "A"%string = None /\
    c_EgressAllowlist c2 = ["b.com"%string].
Proof.
  apply (third_store_forgotten stores (config "base" "child") "user" (store "1" ["a.com"; "b.com"] ["K"; "A"]) (store "2" ["b.com"] ["K"; "B"]) (store "3" [] ["C"])
    "A" {| s_Name := "A"; s_Value := "1A"; s_AllowedHosts := [] |})%string; try reflexivity.
  - exact stores_sourced.
  - apply (bool_decide_unpack _). vm_compute. exact I.
  - cbn. intuition discriminate.
  - cbn. right. by left.
  - intros x Hx. cbn in Hx. by destruct Hx as [<-|[<-|[<-|[]]]].
Defined.

End SecretLayersFacts.
