(* ===== verification/Create.v ===== *)
(** * Creating sandboxes, and the warm pool

    src/internal/api/sandbox.go ([createSandbox], [createSandboxRemote], [tryClaimPooled],
    [killSandboxRemote]), pool.go and edge_claim.go: a sandbox is cold-created on the least
    loaded worker, or claimed from boxes that were made ahead, either by a create or by the
    edge, which reserves them in advance; boxes of a worker that drains, and reservations
    that were forgotten, are destroyed. Handlers of several control planes run at once over
    one database: every statement and every call to a worker is a step. The messages stored
    with an error are fixed texts. *)

From S2P Require Import Prelude GoFloat Autoscaler SessionStore Registry SecretLayers Threads.
#[local] Open Scope Z_scope.

Module Create.
Export Threads SecretLayers.
#[local] Open Scope prog_scope.

(** What the template lookup answers; the keys of its drives if it is a snapshot. *)
Inductive template_reply := TemplateError | NoTemplate | TemplateFound (keys : option (string * string)).

(** [vms]: the VMs that exist, by worker and sandbox. [spawned]: the claimed boxes whose
    promotion runs in the background. *)
Record world := mkC {
  store : SessionStore.db;
  registry : Registry.RedisWorkerRegistry;
  vms : gset (string * string);
  spawned : list string
}.

Definition on_store f w := mkC (f (store w)) (registry w) (vms w) (spawned w).
Definition on_registry f w := mkC (store w) (f (registry w)) (vms w) (spawned w).
Definition on_vms f w := mkC (store w) (registry w) (f (vms w)) (spawned w).
Definition on_spawned f w := mkC (store w) (registry w) (vms w) (f (spawned w)).

(** The answer to a step: whether a statement is reported as done and whether it was done,
    the same for a call to a worker or another service, the time,
    the placement counters and the round-robin number, a fresh identifier, the rows that
    other claims have locked, the state of a connection and whether dialling works, whether
    an error is one of an unreachable worker, the template, the status the worker reports. *)
Record input := {
  i_ok : bool; i_did : bool; i_rpc : bool; i_rpc_did : bool; i_now : Z; i_counts : string -> option Z; i_rr : Z; i_uid : string; i_locked : string -> bool;
  i_conn : Registry.connectivity; i_dial : bool; i_transient : bool; i_template : template_reply; i_status : string
}.

Abbreviation program := (prog world input).

(** A request: its configuration, the organisation it authenticated as, the region of the
    header, the agent of its metadata. *)
Record request := { q_cfg : SandboxConfig; q_org : option string; q_region : string; q_agent : option string }.

(** A JSON error, the sandbox created with its worker, or an index out of range. *)
Inductive reply := Fail (code : Z) | Created (id worker : string) | Panic.

Definition uuid_Nil : string := "00000000-0000-0000-0000-000000000000".

(** ** Steps *)

Definition ask : program bool := command (fun i w => (w, i_rpc i)).

(** A statement; its result is whether it is reported as done. *)
Definition stmt (f : input -> SessionStore.db -> SessionStore.db) : program bool :=
  command (fun i w => (if i_did i then on_store (f i) w else w, i_ok i)).

Definition put_status (id st : string) (msg : option string) : program bool :=
  stmt (fun i d => fst (SessionStore.UpdateSandboxSessionStatus (i_now i) d id st msg)).

(** [GetWorkerClient]; the client is the address it talks to. *)
Definition worker_client (id : string) : program (option string) :=
  command (fun i w => let '(o, r) := Registry.GetWorkerClient (registry w) id (i_conn i) (i_dial i) in (on_registry (fun _ => r) w, o)).

(** The calls of [CreateSandbox], whose answer carries the status of the box, and
    [DestroySandbox]. What is not answered in time may still be done. *)
Definition grpc_create (worker id : string) : program (result bool string) :=
  command (fun i w => (if i_rpc_did i then on_vms (fun s => {[ (worker, id) ]} ∪ s) w else w, if i_rpc i then Ok (i_status i) else Err (i_transient i))).
Definition grpc_destroy (worker id : string) : program unit :=
  command (fun i w => (if i_rpc_did i then on_vms (fun s => s ∖ {[ (worker, id) ]}) w else w, tt)).

(** ["sb-" + uuid.New().String()[:8]] *)
Definition new_id : program string := command (fun i w => (w, ("sb-" ++ i_uid i)%string)).

(** ** Admission *)

(** The size that a create asks for, with its defaults. [webhooks_ok]: the inline webhooks
    are valid; [direct]: the caller must come through the edge but did not. *)
Definition check_create (webhooks_ok direct : bool) (c : SandboxConfig) : result Z SandboxConfig :=
  match Tiers.ValidateResourceTier {| Tiers.cfg_MemoryMB := c_MemoryMB c; Tiers.cfg_CpuCount := c_CpuCount c |} with
  | Err _ => Err 400
  | Ok t =>
      if negb webhooks_ok then Err 400
      else if direct then Err 401
      else
        let '(mem, cpu) := if Tiers.cfg_MemoryMB t =? 0 then (4096, 1) else (Tiers.cfg_MemoryMB t, Tiers.cfg_CpuCount t) in
        let disk := if c_DiskMB c =? 0 then 20480 else c_DiskMB c in
        if disk <? 20480 then Err 400
        else if 262144 <? disk then Err 400
        else Ok {| c_Template := c_Template c; c_Timeout := c_Timeout c; c_CpuCount := cpu; c_MemoryMB := mem; c_DiskMB := disk;
                   c_Envs := c_Envs c; c_PreviewAuth := c_PreviewAuth c; c_ImageRef := c_ImageRef c; c_CheckpointID := c_CheckpointID c;
                   c_Image := c_Image c; c_Snapshot := c_Snapshot c; c_SecretStore := c_SecretStore c; c_BaseSecretStore := c_BaseSecretStore c;
                   c_EgressAllowlist := c_EgressAllowlist c; c_SecretAllowedHosts := c_SecretAllowedHosts c; c_SecretEnvs := c_SecretEnvs c |}
  end.

(** [previewauth.ProcessRequest]: the status of its error; [random]: a token can be drawn. *)
Definition ProcessRequest (scheme token : string) (random : bool) : option Z :=
  let scheme := if String.eqb scheme "" then "bearer"%string else scheme in
  if negb (String.eqb scheme "bearer") then Some 400
  else if String.eqb token "" || String.eqb token "auto" then (if random then None else Some 500)
  else if (16 <=? String.length token)%nat then None
  else Some 400.

(** The step that sets up the preview authorisation: the status to fail with. The column
    it writes is not part of the model. *)
Definition preview_auth (c : SandboxConfig) : program (option Z) :=
  match c_PreviewAuth c with
  | None => Ret None
  | Some (scheme, token) =>
      do random <- ask;
      match ProcessRequest scheme token random with
      | Some code => Ret (if (400 <=? code) && (code <? 500) then Some code else None)
      | None => do _ <- ask; Ret None
      end
  end.

(** Memory and vCPUs that the new box is grown to. *)
Definition scale_to (c : SandboxConfig) : option (Z * Z) :=
  if (0 <? c_MemoryMB c) || (0 <? c_CpuCount c) then
    let scaleMB := if c_MemoryMB c <=? 0 then 1024 else c_MemoryMB c in
    let cpuCount := if c_CpuCount c <=? 0 then Z.max 1 (Z.quot scaleMB 4096) else c_CpuCount c in
    Some (scaleMB, cpuCount)
  else None.

Definition post_scale (c : SandboxConfig) : program unit :=
  match scale_to c with
  | Some _ => do _ <- ask; Ret tt
  | None => Ret tt
  end.

Section Server.
(** Go's map order; whether a database is configured, the pool enabled with a target above
    zero; the region of the server, the template of the pool. *)
Context (order : list Registry.WorkerEntry -> list Registry.WorkerEntry).
Variables has_store pool_on : bool.
Variables server_region poolTemplateName : string.

Definition least_loaded (region : string) : program (option Registry.WorkerEntry) :=
  command (fun i w =>
    let '(o, r) := Registry.GetLeastLoadedWorker order (registry w) region (i_counts i) (i_rr i) in (on_registry (fun _ => r) w, option_map fst o)).

(** The wait for a worker: every two seconds, for thirty. *)
Fixpoint wait_worker (n : nat) (region : string) : program (option Registry.WorkerEntry) :=
  match n with
  | O => Ret None
  | S n =>
      do ticked <- ask;
      if negb ticked then Ret None
      else do o <- least_loaded region; match o with Some wk => Ret (Some wk) | None => wait_worker n region end
  end.

Definition pick_worker (region : string) : program (option Registry.WorkerEntry) :=
  do o <- least_loaded region;
  match o with Some wk => Ret (Some wk) | None => wait_worker 15 region end.

(** [resolveTemplate] *)
Definition resolveTemplate (name : string) : program template_reply :=
  if String.eqb name "" then Ret NoTemplate else command (fun i w => (w, i_template i)).

(** ** The pool fast path *)

(** The promotion of a claimed box, in a goroutine. *)
Definition promote_claimed (id : string) : program unit := do _ <- put_status id "running" None; Ret tt.

(** The call of [ClaimSandbox]. *)
Definition grpc_claim : program bool := ask.

(** [tryClaimPooled]: the reply, or [None] to create the sandbox cold. *)
Definition tryClaimPooled (q : request) (org region template : string) : program (option reply) :=
  do o <- command (fun i w =>
    let '(d, b) := SessionStore.ClaimPooledSession (i_now i) (store w) (i_locked i) org region template (q_agent q) in
    (if i_did i then on_store (fun _ => d) w else w, if i_ok i then b else None));
  match o with
  | None => Ret None
  | Some box =>
      do client <- worker_client (SessionStore.cb_WorkerID box);
      match client with
      | None => do _ <- put_status (SessionStore.cb_SandboxID box) "failed" (Some "pool worker unreachable at claim"%string); Ret None
      | Some _ =>
          do claimed <- grpc_claim;
          if negb claimed then do _ <- put_status (SessionStore.cb_SandboxID box) "failed" (Some "claim failed"%string); Ret None
          else
            do _ <- command (fun _ w => (on_spawned (fun l => l ++ [SessionStore.cb_SandboxID box]) w, tt));
            do _ <- post_scale (q_cfg q);
            do bad <- preview_auth (q_cfg q);
            match bad with
            | Some code => Ret (Some (Fail code))
            | None => Ret (Some (Created (SessionStore.cb_SandboxID box) (SessionStore.cb_WorkerID box)))
            end
      end
  end.

(** The boxes of the pool have no drives, image, checkpoint or rules of their own. *)
Definition pool_eligible (q : request) (keys : option (string * string)) : bool :=
  let c := q_cfg q in
  has_store && match q_org q with Some _ => true | None => false end && pool_on &&
  String.eqb (match keys with Some (rootfs, _) => rootfs | None => ""%string end) "" &&
  String.eqb (c_ImageRef c) "" && String.eqb (c_CheckpointID c) "" &&
  match c_EgressAllowlist c with [] => true | _ => false end && bool_decide (c_SecretAllowedHosts c = ∅).

(** ** The cold path *)

(** The insert of the session; its error is reported and the create goes on. *)
Definition insert_pending (q : request) (id region worker : string) : program unit :=
  match q_org q with
  | Some org =>
      if has_store then
        let template := if String.eqb (c_Template (q_cfg q)) "" then "default"%string else c_Template (q_cfg q) in
        do _ <- stmt (fun i d => fst (SessionStore.CreateSandboxSessionWithStatus (i_now i) d id org template region worker "pending" (q_agent q)));
        Ret tt
      else Ret tt
  | None => Ret tt
  end.

Definition mark (id st : string) (msg : option string) : program unit :=
  if has_store then do _ <- put_status id st msg; Ret tt else Ret tt.

(** [worker.ID[len(worker.ID)-8:]] in the event it emits. *)
Definition emit_create (id worker : string) : reply :=
  if (String.length worker <? 8)%nat then Panic else Created id worker.

Definition cold_create (q : request) (region : string) (worker : Registry.WorkerEntry) : program reply :=
  do id <- new_id;
  do _ <- insert_pending q id region (Registry.ID worker);
  do r <- grpc_create (Registry.ID worker) id;
  match r with
  | Err transient =>
      do _ <- mark id "failed" (Some "worker create failed"%string);
      Ret (Fail (if transient : bool then 503 else 500))
  | Ok _ =>
      do _ <- mark id "running" None;
      do bad <- preview_auth (q_cfg q);
      match bad with
      | Some code => Ret (Fail code)
      | None => do _ <- post_scale (q_cfg q); Ret (emit_create id (Registry.ID worker))
      end
  end.

Definition create_region (q : request) : string :=
  if String.eqb (q_region q) "" then (if String.eqb server_region "" then "iad"%string else server_region) else q_region q.

Definition createSandboxRemote (q : request) : program reply :=
  let region := create_region q in
  do o <- pick_worker region;
  match o with
  | None => Ret (Fail 503)
  | Some worker =>
      let name := c_Template (q_cfg q) in
      let go keys :=
        do claimed <-
          (if pool_eligible q keys
           then tryClaimPooled q (default uuid_Nil (q_org q)) region (if String.eqb name "" then poolTemplateName else name)
           else Ret None);
        match claimed with
        | Some r => Ret r
        | None => cold_create q region worker
        end in
      do t <- resolveTemplate name;
      match t with
      | TemplateError => if String.eqb name "" then go None else Ret (Fail 502)
      | TemplateFound keys => go keys
      | NoTemplate => if String.eqb name "" then go None else Ret (Fail 404)
      end
  end.

(** ** Edge claims *)

Definition edgeReserveTTL : Z := 15 * 60.

Definition edgeReservePool (count : Z) : program (option (list SessionStore.ClaimedBox)) :=
  if count <=? 0 then Ret None
  else
    let region := if String.eqb server_region "" then "local"%string else server_region in
    command (fun i w =>
      let '(d, bs) := SessionStore.ReservePooledForEdge (i_now i) (store w) (i_locked i) region poolTemplateName (Z.to_nat (Z.min count 50)) in
      (if i_did i then on_store (fun _ => d) w else w, if i_ok i then Some bs else None)).

Definition edgeReleasePool (ids : list string) : program (option Z) :=
  command (fun i w =>
    let '(d, n) := SessionStore.ReleaseEdgeReservations (i_now i) (store w) ids in
    (if i_did i then on_store (fun _ => d) w else w, if i_ok i then Some n else None)).

(** The code of the answer. *)
Definition claimFinalize (q : request) (id : string) : program Z :=
  if String.eqb id "" then Ret 400
  else if negb (String.eqb (c_SecretStore (q_cfg q)) "") then Ret 400
  else match q_org q with
       | None => Ret 403
       | Some org =>
           do o <- command (fun i w =>
             let '(d, b) := SessionStore.ClaimReservedSession (i_now i) (store w) id org (q_agent q) in
             (if i_did i then on_store (fun _ => d) w else w, if i_ok i then b else None));
           match o with
           | None => do _ <- stmt (fun i d => SessionStore.WipePooled (i_now i) d id); Ret 409
           | Some box =>
               do client <- worker_client (SessionStore.cb_WorkerID box);
               match client with
               | None => do _ <- put_status id "failed" (Some "pool worker unreachable at claim-finalize"%string); Ret 502
               | Some _ =>
                   do claimed <- grpc_claim;
                   if negb claimed then do _ <- put_status id "failed" (Some "claim failed"%string); Ret 502
                   else do _ <- put_status id "running" None; do _ <- post_scale (q_cfg q); Ret 200
               end
           end
       end.

(** Destroy a box that is parked, as the pool and the edge see it, and close its row. *)
Definition discard (client : option string) (worker id : string) : program unit :=
  do _ <- match client with Some _ => grpc_destroy worker id | None => Ret tt end;
  do _ <- stmt (fun i d => SessionStore.WipePooled (i_now i) d id);
  Ret tt.

Definition reapStaleEdgeReservations : program unit :=
  do o <- command (fun i w => (w, if i_ok i then Some (SessionStore.ListStaleEdgeReservations (i_now i) (store w) edgeReserveTTL) else None));
  match o with
  | None => Ret tt
  | Some boxes =>
      for_each boxes (fun b =>
        do client <- worker_client (SessionStore.cb_WorkerID b);
        discard client (SessionStore.cb_WorkerID b) (SessionStore.cb_SandboxID b))
  end.

(** ** Filling and wiping the pool *)

(** Whether a box was made. *)
Definition manufacturePoolBoxOn (worker region template golden : string) : program bool :=
  if String.eqb golden "" then Ret false
  else
    do client <- worker_client worker;
    match client with
    | None => Ret false
    | Some _ =>
        do id <- new_id;
        do inserted <- stmt (fun i d => SessionStore.CreatePooledSession (i_now i) d id template region worker);
        if negb inserted then Ret false
        else
          do r <- grpc_create worker id;
          match r with
          | Err _ => do _ <- stmt (fun i d => SessionStore.WipePooled (i_now i) d id); Ret false
          | Ok status =>
              if negb (String.eqb status "pooled") then
                do _ <- grpc_destroy worker id;
                do _ <- stmt (fun i d => SessionStore.WipePooled (i_now i) d id);
                Ret false
              else Ret true
          end
    end.

Definition poolMaxMemPct : GoFloat.float64 := GoFloat.of_int 70.

(** How many boxes a tick makes on a worker, given how many it has. *)
Definition refill (target batch have : Z) : nat :=
  if target - have <=? 0 then O else Z.to_nat (Z.min (target - have) batch).

(** The goroutines that [reconcilePool] starts and waits for. *)
Fixpoint refill_plan (region template : string) (target batch : Z) (ws : list Registry.WorkerEntry) : program (list (program bool)) :=
  match ws with
  | [] => Ret []
  | wk :: ws =>
      if negb (String.eqb (Registry.Region wk) region) || Registry.Draining wk then refill_plan region template target batch ws
      else if GoFloat.fgt (Registry.MemPct wk) poolMaxMemPct then refill_plan region template target batch ws
      else
        do o <- command (fun i w => (w, if i_ok i then Some (SessionStore.CountPooledOnWorker (store w) (Registry.ID wk) template) else None));
        do rest <- refill_plan region template target batch ws;
        match o with
        | None => Ret rest
        | Some have =>
            Ret (repeat (manufacturePoolBoxOn (Registry.ID wk) region template (Registry.GoldenVersion wk)) (refill target batch have) ++ rest)
        end
  end.

Definition WipeWorkerPool (worker : string) : program unit :=
  if negb has_store then Ret tt
  else
    do o <- command (fun i w => (w, if i_ok i then Some (SessionStore.ListPooledOnWorker (store w) worker) else None));
    match o with
    | None => Ret tt
    | Some [] => Ret tt
    | Some ids => do client <- worker_client worker; for_each ids (fun id => discard client worker id)
    end.

(** ** Destroying *)

(** [killSandboxRemote]: the code of the answer. *)
Definition killSandboxRemote (id : string) : program Z :=
  if negb has_store then Ret 503
  else
    do o <- command (fun i w => (w, if i_ok i then SessionStore.GetSandboxSession (store w) id else None));
    match o with
    | None => Ret 404
    | Some s =>
        do _ <- put_status id "stopped" None;
        do client <- worker_client (SessionStore.worker_id s);
        match client with
        | None => Ret 204
        | Some _ => do _ <- grpc_destroy (SessionStore.worker_id s) id; do _ <- put_status id "stopped" None; Ret 204
        end
    end.

End Server.
End Create.
