(* ===== verification/CreateFacts.v ===== *)
(** * What creating a sandbox promises

    The contract of a create in which no statement is lost and no answer of a worker is,
    what breaks it, and what the pool does to a box that is claimed while it is wiped. *)

From stdpp Require Import sorting.
From S2P Require Import Prelude Autoscaler SessionStore SessionFacts Registry SecretLayers Threads SandboxProxyFacts Create.
#[local] Open Scope Z_scope.

Module CreateFacts.
Import Create SessionFacts.
#[local] Open Scope prog_scope.

(** ** Admission *)

(** The shapes of sandboxes that are created. *)
Definition shape_ok (c : SandboxConfig) : Prop :=
  Tiers.is_tier (c_MemoryMB c) (c_CpuCount c) /\ 20480 <= c_DiskMB c <= 262144.

Lemma tier_kept m c : Tiers.is_tier m c ->
  Tiers.ValidateResourceTier {| Tiers.cfg_MemoryMB := m; Tiers.cfg_CpuCount := c |} = Ok {| Tiers.cfg_MemoryMB := m; Tiers.cfg_CpuCount := c |} /\ m <> 0.
Proof. rewrite Tiers.is_tier_iff. by intros [[-> ->]|[[-> ->]|[[-> ->]|[-> ->]]]]. Qed.

(** C18. Admission yields well-formed configurations and only refuses others: what it accepts
    is a tier of the table with a disk between 20 and 256 GB, keeps every size the caller
    gave, and is accepted again unchanged; a configuration that is well-formed already is
    never refused for its size. *)
Theorem admission_shapes c :
  match check_create true false c with
  | Ok c' => shape_ok c' /\ check_create true false c' = Ok c' /\
      Tiers.agrees (c_MemoryMB c) (c_MemoryMB c') /\ Tiers.agrees (c_CpuCount c) (c_CpuCount c') /\ Tiers.agrees (c_DiskMB c) (c_DiskMB c')
  | Err code => code = 400 /\ ~ shape_ok c
  end.
Proof.
  assert (forall c, shape_ok c -> check_create true false c = Ok c) as Hkeep.
  { intros [] [Ht Hd]. cbn in *. unfold check_create. cbn. destruct (tier_kept _ _ Ht) as [-> Hm]. cbn.
    rewrite (proj2 (Z.eqb_neq _ _) Hm). replace (_ =? 0) with false by (symmetry; apply Z.eqb_neq; lia).
    replace (_ <? 20480) with false by (symmetry; apply Z.ltb_ge; lia). by replace (262144 <? _) with false by (symmetry; apply Z.ltb_ge; lia). }
  destruct (check_create true false c) as [c'|code] eqn:E.
  - assert (shape_ok c' /\ Tiers.agrees (c_MemoryMB c) (c_MemoryMB c') /\ Tiers.agrees (c_CpuCount c) (c_CpuCount c') /\ Tiers.agrees (c_DiskMB c) (c_DiskMB c')) as (H1 & H2 & H3 & H4).
    2: { split_and!; try done. by apply Hkeep. }
    unfold check_create in E. pose proof (Tiers.ValidateResourceTier_correct (c_MemoryMB c) (c_CpuCount c)) as Hv.
    destruct (Tiers.ValidateResourceTier _) as [[m k]|e]; [|done]. cbn in *. unfold shape_ok, Tiers.agrees in *.
    destruct Hv as [(Hm & Hc & -> & ->)|(_ & Ht & Ha & Hb & _)].
    + cbn in E. repeat case_match; simplify_eq/=; bool_to_prop; rewrite Tiers.is_tier_iff; split_and!; lia.
    + destruct (tier_kept _ _ Ht) as [_ Hm]. rewrite (proj2 (Z.eqb_neq _ _) Hm) in E. repeat case_match; simplify_eq/=; bool_to_prop; split_and!; (done || lia).
  - split; [|intros H%Hkeep; by rewrite H in E]. unfold check_create in E. cbn in E. repeat case_match; simplify_eq/=; done.
Qed.

(** ** The contract *)

(** A row that counts against the customer. *)
Definition active_for (org : string) (s : SessionStore.session) : Prop :=
  SessionStore.org_id s = org /\ (SessionStore.status s = "pending"%string \/ SessionStore.status s = "running"%string).

(** Statements succeed, calls are answered truthfully. *)
Definition sound (i : input) : Prop := i_ok i = true /\ i_did i = true /\ i_rpc_did i = i_rpc i.

Definition preview_valid (c : SandboxConfig) : Prop :=
  match c_PreviewAuth c with
  | Some (scheme, token) => forall random, match ProcessRequest scheme token random with Some code => 500 <= code | None => True end
  | None => True
  end.

(** Names of workers are long enough for the slice of the event. *)
Definition named (r : Registry.RedisWorkerRegistry) : Prop :=
  SandboxProxyFacts.keyed (Registry.workers r) /\ forall id, id ∈ dom (SandboxProxyFacts.addresses r) -> (8 <= String.length id)%nat.

Section Contract.
Context (order : list Registry.WorkerEntry -> list Registry.WorkerEntry) (order_perm : forall l, order l ≡ₚ l).
Variables (pool_on : bool) (server_region poolTemplateName : string).
Variables (q : request) (org : string) (w0 : world).
Hypothesis org_known : q_org q = Some org.
Hypothesis valid : preview_valid (q_cfg q).
(** Every box of the pool has its VM. *)
Hypothesis pool_vms : forall s, In s (SessionStore.sessions (store w0)) -> SessionStore.status s = "pooled"%string ->
  (SessionStore.worker_id s, SessionStore.sandbox_id s) ∈ vms w0.

Definition good (i : input) : Prop :=
  sound i /\ forall s, In s (SessionStore.sessions (store w0)) -> SessionStore.sandbox_id s <> ("sb-" ++ i_uid i)%string.

(** Nothing of the request has come about. *)
Record clean (w : world) : Prop := {
  cl_rows : forall s, In s (SessionStore.sessions (store w)) -> active_for org s -> In s (SessionStore.sessions (store w0));
  cl_ids : forall s, In s (SessionStore.sessions (store w)) -> exists s0, In s0 (SessionStore.sessions (store w0)) /\ SessionStore.sandbox_id s0 = SessionStore.sandbox_id s;
  cl_pool : forall s, In s (SessionStore.sessions (store w)) -> SessionStore.status s = "pooled"%string -> In s (SessionStore.sessions (store w0));
  cl_vms : vms w = vms w0;
  cl_named : named (registry w)
}.

(** The sandbox exists, on its worker and in the database. *)
Definition exists_as (id wk : string) (w : world) : Prop :=
  (wk, id) ∈ vms w /\ exists s, In s (SessionStore.sessions (store w)) /\ SessionStore.sandbox_id s = id /\ SessionStore.worker_id s = wk /\
    SessionStore.org_id s = org /\ (SessionStore.status s = "running"%string \/ (SessionStore.status s = "pending"%string /\ In id (spawned w))).

Definition outcome (r : reply) (w : world) : Prop :=
  match r with
  | Created id wk => exists_as id wk w
  | Fail _ => vms w = vms w0 /\ forall s, In s (SessionStore.sessions (store w)) -> active_for org s -> In s (SessionStore.sessions (store w0))
  | Panic => False
  end.

Abbreviation wpg := (wp good).

Lemma wp_step {B A} (f : input -> world -> world * B) (k : B -> program A) Q w :
  (forall i, good i -> wpg (k (snd (f i w))) Q (fst (f i w))) -> wpg (bind (command f) k) Q w.
Proof. done. Qed.

(** Steps that leave the state as it is. *)
Lemma wp_answer {B A} (f : input -> B) (k : B -> program A) Q w :
  (forall b, wpg (k b) Q w) -> wpg (bind (command (fun i w => (w, f i))) k) Q w.
Proof. intros H. apply wp_step. intros i _. apply H. Qed.

Lemma wp_scale {A} c (k : unit -> program A) Q w : wpg (k tt) Q w -> wpg (bind (post_scale c) k) Q w.
Proof. intros H. unfold post_scale. destruct (scale_to c); [|done]. cbn. by intros i _. Qed.

Lemma wp_preview {A} c (k : option Z -> program A) Q w : preview_valid c -> wpg (k None) Q w -> wpg (bind (preview_auth c) k) Q w.
Proof.
  intros Hv H. unfold preview_auth, preview_valid in *. destruct (c_PreviewAuth c) as [[scheme token]|]; [|done].
  cbn. intros i _. specialize (Hv (i_rpc i)). destruct (ProcessRequest scheme token (i_rpc i)) as [code|].
  - cbn. replace (code <? 500) with false by (symmetry; apply Z.ltb_ge; lia). by rewrite andb_false_r.
  - cbn. by intros _ _.
Qed.

(** ** Registries *)

Lemma client_named r id conn dial : named r -> named (snd (Registry.GetWorkerClient r id conn dial)).
Proof. intros H. unfold Registry.GetWorkerClient. repeat case_match; done. Qed.

Lemma placed_named r region counts rr :
  named r -> let x := Registry.GetLeastLoadedWorker order r region counts rr in
  named (snd x) /\ match fst x with Some (b, _) => (8 <= String.length (Registry.ID b))%nat | None => True end.
Proof.
  intros [Hk Hl] x. destruct (SandboxProxyFacts.least_loaded_addresses order r region counts rr order_perm Hk) as (H1 & H2 & H3). fold x in H1, H2, H3.
  split; [split; [done|by rewrite H2]|]. destruct (fst x) as [[b a]|]; [|done]. apply Hl. by apply elem_of_dom_2 in H3.
Qed.

Lemma clean_registry w r : clean w -> named r -> clean (on_registry (fun _ => r) w).
Proof. intros [] Hr. by split. Qed.

Lemma wp_least region {A} (k : option Registry.WorkerEntry -> program A) Q w :
  clean w -> (forall v o, clean v -> spawned v = spawned w -> match o with Some b => (8 <= String.length (Registry.ID b))%nat | None => True end -> wpg (k o) Q v) ->
  wpg (bind (least_loaded order region) k) Q w.
Proof.
  intros Hw H. apply wp_step. intros i _. destruct (placed_named (registry w) region (i_counts i) (i_rr i) (cl_named w Hw)) as [H1 H2].
  destruct (Registry.GetLeastLoadedWorker order (registry w) region (i_counts i) (i_rr i)) as [o r]. cbn in *.
  apply H; [by apply clean_registry|done|]. by destruct o as [[b a]|].
Qed.

Definition long (o : option Registry.WorkerEntry) : Prop :=
  match o with Some b => (8 <= String.length (Registry.ID b))%nat | None => True end.

Lemma wp_wait n region w : clean w -> wpg (wait_worker order n region) (fun o v => clean v /\ long o) w.
Proof.
  revert w; induction n as [|n IH]; intros w Hw; cbn [wait_worker]; [done|].
  apply wp_answer. intros []; cbn [negb]; [|done]. apply wp_least; [done|]. intros v [b|] Hv _ Hb; [done|by apply IH].
Qed.

Lemma wp_pick region {A} (k : option Registry.WorkerEntry -> program A) Q w :
  clean w -> (forall v o, clean v -> long o -> wpg (k o) Q v) -> wpg (bind (pick_worker order region) k) Q w.
Proof.
  intros Hw H. apply wp_bind. unfold pick_worker. apply wp_least; [done|]. intros v [b|] Hv _ Hb; [by apply (H v (Some b))|].
  eapply wp_mono; [|by apply wp_wait]. intros o v' [Hv' Ho]. by apply H.
Qed.

(** ** The pool *)

Lemma in_UPDATE {A} (hit : A -> bool) set l x : In x (SessionStore.UPDATE hit set l) <-> exists y, In y l /\ x = if hit y then set y else y.
Proof. unfold SessionStore.UPDATE. rewrite in_map_iff. split; intros (y & H1 & H2); eauto. Qed.

Lemma pick_in d locked rg tmpl r l :
  SessionStore.pick_pooled d locked rg tmpl 1 = r :: l -> In r (SessionStore.sessions d) /\ SessionStore.status r = "pooled"%string.
Proof.
  intros E. assert (In r (SessionStore.pick_pooled d locked rg tmpl 1)) as H by (rewrite E; by left). unfold SessionStore.pick_pooled in H.
  apply list_elem_of_In, elem_of_take in H as (n & Hn & _). apply list_elem_of_lookup_2 in Hn. rewrite merge_sort_Permutation in Hn.
  apply list_elem_of_In, filter_In in Hn as [Hin Hb]. split; [done|]. rewrite !andb_true_iff in Hb. destruct Hb as [[[Hb _] _] _]. by apply same_true in Hb.
Qed.

(** [v] is [w] with the row of [r] bound to the customer. *)
Record bound (now : Z) (r : SessionStore.session) (w v : world) : Prop := {
  bo_rows : SessionStore.sessions (store v) =
    SessionStore.UPDATE (fun x => SessionStore.same (SessionStore.sandbox_id x) (SessionStore.sandbox_id r)) (SessionStore.claim_row now org (q_agent q)) (SessionStore.sessions (store w));
  bo_vms : vms v = vms w;
  bo_named : named (registry v)
}.

Lemma claim_failed now r w v msg Q (k : bool -> program (option reply)) :
  clean w -> bound now r w v -> (forall b u, clean u -> wpg (k b) Q u) -> wpg (bind (put_status (SessionStore.sandbox_id r) "failed" msg) k) Q v.
Proof.
  intros [C1 C2 C3 C4 C5] [B1 B2 B3] Hk. apply wp_step. intros i [(_ & Hd & _) _]. cbn [fst snd]. rewrite Hd. apply Hk.
  assert (forall s, In s (SessionStore.sessions (fst (SessionStore.UpdateSandboxSessionStatus (i_now i) (store v) (SessionStore.sandbox_id r) "failed" msg))) ->
    exists x, In x (SessionStore.sessions (store w)) /\ SessionStore.sandbox_id s = SessionStore.sandbox_id x /\ (s = x \/ SessionStore.status s = "failed"%string)) as Hs.
  { intros s. rewrite status_sessions, B1. intros (y & (x & Hx & ->)%in_UPDATE & ->)%in_UPDATE. exists x. split; [done|].
    unfold SessionStore.same, SessionStore.status_where. destruct (String.eqb (SessionStore.sandbox_id x) (SessionStore.sandbox_id r)) eqn:E; cbn.
    - unfold SessionStore.same. rewrite E. cbn. auto.
    - unfold SessionStore.same. rewrite E. cbn. auto. }
  split; cbn; [| | |by rewrite B2|done].
  - intros s (x & Hx & _ & [->|Hf])%Hs Ha; [by apply C1|]. destruct Ha as [_ [Ha|Ha]]; by rewrite Hf in Ha.
  - intros s (x & Hx & -> & _)%Hs. by apply C2.
  - intros s (x & Hx & _ & [->|Hf])%Hs Hp; [by apply C3|]. by rewrite Hf in Hp.
Qed.

Lemma wp_claim region template w :
  clean w -> wpg (tryClaimPooled q org region template) (fun o v => match o with None => clean v | Some r => outcome r v end) w.
Proof.
  intros Hw. unfold tryClaimPooled. apply wp_step. intros i [(Hok & Hd & _) _]. unfold SessionStore.ClaimPooledSession.
  destruct (SessionStore.pick_pooled _ _ _ _ _) as [|r l] eqn:E; cbn [fst snd]; rewrite Hok, Hd; [by destruct Hw|].
  apply pick_in in E as [Hin Hst]. set (v := on_store _ w).
  assert (bound (i_now i) r w v) as Hb by (split; [done|done|apply Hw]). cbn [SessionStore.box SessionStore.cb_WorkerID SessionStore.cb_SandboxID].
  apply wp_step. intros i1 _.
  assert (bound (i_now i) r w (on_registry (fun _ => snd (Registry.GetWorkerClient (registry v) (SessionStore.worker_id r) (i_conn i1) (i_dial i1))) v)) as Hb1.
  { destruct Hb as [B1 B2 B3]. split; [done|done|by apply client_named]. }
  destruct (Registry.GetWorkerClient _ _ _ _) as [o r1]. cbn [fst snd] in *. destruct o as [addr|]; [|by eapply claim_failed].
  apply wp_answer. intros []; cbn [negb]; [|by eapply claim_failed].
  apply wp_step. intros i2 _. cbn [fst snd]. apply wp_scale, wp_preview; [done|]. destruct Hb1 as [B1 _ _]. cbn. split.
  - change (vms (on_spawned _ _)) with (vms w). rewrite (cl_vms w Hw). apply pool_vms; [by apply (cl_pool w Hw)|done].
  - exists (SessionStore.claim_row (i_now i) org (q_agent q) r). split.
    + change (store (on_spawned ?f ?u)) with (store u). rewrite B1. apply in_UPDATE. exists r. split; [done|]. unfold SessionStore.same. by rewrite String.eqb_refl.
    + split_and!; try done. right. split; [done|]. cbn. apply in_app_iff. right. by left.
Qed.

(** ** The cold path *)

Lemma wp_cold region b w : clean w -> (8 <= String.length (Registry.ID b))%nat -> wpg (cold_create true q region b) outcome w.
Proof.
  intros Hw Hlen. unfold cold_create, insert_pending, mark. rewrite org_known. apply wp_step. intros i [_ Hfresh]. cbn [fst snd].
  set (id := ("sb-" ++ i_uid i)%string) in *. set (tmpl := if String.eqb _ _ then _ else _).
  assert (forall s, In s (SessionStore.sessions (store w)) -> SessionStore.same (SessionStore.sandbox_id s) id = false) as Hno.
  { intros s (s0 & Hs0 & <-)%(cl_ids w Hw). apply String.eqb_neq. by apply Hfresh. }
  apply wp_step. intros i1 [(_ & Hd1 & _) _]. cbn [fst snd bind]. rewrite Hd1.
  set (row := SessionStore.new_session (i_now i1) id org tmpl region (Registry.ID b) "pending" (q_agent q)).
  apply wp_step. intros i2 [(_ & _ & Hr2) _]. cbn [fst snd]. rewrite Hr2. destruct (i_rpc i2).
  - apply wp_bind. cbn [bind wp put_status stmt command]. intros i3 [(_ & Hd3 & _) _]. cbn [fst snd]. rewrite Hd3.
    apply wp_preview; [done|]. apply wp_scale. unfold emit_create. replace (_ <? 8)%nat with false by (symmetry; apply Nat.ltb_ge; lia).
    cbn [wp outcome]. split; [cbn; set_solver|]. cbn [store on_store on_vms]. rewrite status_sessions.
    exists (SessionStore.status_set (i_now i3) "running" None row). split.
    + apply in_UPDATE. exists row. split; [cbn; apply in_app_iff; right; by left|].
      unfold SessionStore.status_where. cbn. unfold SessionStore.same. by rewrite String.eqb_refl.
    + split_and!; try done. by left.
  - apply wp_bind. cbn [bind wp put_status stmt command]. intros i3 [(_ & Hd3 & _) _]. cbn [fst snd]. rewrite Hd3.
    cbn [wp outcome]. split; [exact (cl_vms w Hw)|]. cbn [store on_store on_vms]. rewrite status_sessions. intros s (x & Hx & ->)%in_UPDATE Ha.
    cbn in Hx. apply in_app_iff in Hx as [Hx|[<-|[]]].
    + unfold SessionStore.status_where in *. rewrite Hno in * by done. cbn in *. by apply (cl_rows w Hw).
    + unfold SessionStore.status_where in Ha. cbn in Ha. unfold SessionStore.same in Ha. rewrite String.eqb_refl in Ha. cbn in Ha.
      destruct Ha as [_ [Ha|Ha]]; done.
Qed.

Lemma clean_outcome code w : clean w -> outcome (Fail code) w.
Proof. intros []. by split. Qed.

Lemma wp_go keys region tmpl b w :
  clean w -> (8 <= String.length (Registry.ID b))%nat ->
  wpg (do claimed <- (if pool_eligible true pool_on q keys then tryClaimPooled q org region tmpl else Ret None);
       match claimed with Some r => Ret r | None => cold_create true q region b end) outcome w.
Proof.
  intros Hw Hb. apply wp_bind. destruct (pool_eligible true pool_on q keys); [|by apply wp_cold].
  eapply wp_mono; [|by apply wp_claim]. intros [r|] v Hv; [done|by apply wp_cold].
Qed.

Lemma wp_create w : clean w -> wpg (createSandboxRemote order true pool_on server_region poolTemplateName q) outcome w.
Proof.
  intros Hw. unfold createSandboxRemote. rewrite org_known. cbn [default]. apply wp_pick; [done|]. intros v [b|] Hv Hb; [|by apply clean_outcome].
  unfold resolveTemplate. destruct (String.eqb (c_Template (q_cfg q)) ""); [by apply wp_go|].
  apply wp_answer. intros [| |keys]; [by apply clean_outcome..|by apply wp_go].
Qed.

End Contract.


(** ** What breaks it *)

Section Broken.
Context (order : list Registry.WorkerEntry -> list Registry.WorkerEntry) (server_region poolTemplateName : string).
Variables (q : request) (org : string) (w : world) (b : Registry.WorkerEntry) (i : input).
Hypothesis org_known : q_org q = Some org.
Hypothesis no_template : c_Template (q_cfg q) = ""%string.
Hypothesis statements : i_ok i = true /\ i_did i = true.
Hypothesis placed : option_map fst (fst (Registry.GetLeastLoadedWorker order (registry w) (create_region server_region q) (i_counts i) (i_rr i))) = Some b.

(** The sandbox of the request, and its row. *)
Definition its_id : string := "sb-" ++ i_uid i.
Definition its_row (st : string) (x : SessionStore.session) : Prop :=
  SessionStore.sandbox_id x = its_id /\ SessionStore.org_id x = org /\ SessionStore.worker_id x = Registry.ID b /\ SessionStore.status x = st.

(** Without a pool: placement, the row, the call, and what follows from its answer. *)
Lemma cold_alone (Q : world * reply -> Prop) :
  (forall v, vms v = (if i_rpc_did i then {[ (Registry.ID b, its_id) ]} ∪ vms w else vms w) ->
     (exists x, In x (SessionStore.sessions (store v)) /\ its_row "pending" x) ->
     Q (alone (match (if i_rpc i then Ok (i_status i) else Err (i_transient i)) : result bool string with
               | Err transient => do _ <- mark true its_id "failed" (Some "worker create failed"%string); Ret (Fail (if transient : bool then 503 else 500))
               | Ok _ => do _ <- mark true its_id "running" None; do bad <- preview_auth (q_cfg q);
                   match bad with Some code => Ret (Fail code)
                   | None => do _ <- post_scale (q_cfg q); Ret (emit_create its_id (Registry.ID b)) end
               end) i v)) ->
  Q (alone (createSandboxRemote order true false server_region poolTemplateName q) i w).
Proof.
  destruct statements as [Hok Hdid]. intros H. unfold createSandboxRemote, pick_worker. rewrite !alone_bind. cbn [alone command least_loaded].
  destruct (Registry.GetLeastLoadedWorker _ _ _ _ _) as [o r]. cbn in placed. rewrite placed. cbn [alone].
  rewrite no_template. unfold resolveTemplate. cbn [String.eqb bind]. unfold pool_eligible. rewrite andb_false_r, !andb_false_l. cbn [bind].
  unfold cold_create, insert_pending. rewrite org_known, alone_bind. cbn [alone command new_id]. rewrite alone_bind, alone_bind. cbn [alone command stmt].
  rewrite Hdid, alone_bind. cbn [alone command grpc_create]. apply H; [by destruct (i_rpc_did i)|].
  exists (SessionStore.new_session (i_now i) its_id org "default" (create_region server_region q) (Registry.ID b) "pending" (q_agent q)).
  split; [|done]. rewrite no_template. destruct (i_rpc_did i); cbn; apply in_app_iff; right; by left.
Qed.

Lemma mark_row st v x :
  In x (SessionStore.sessions (store v)) -> its_row "pending" x -> st = "running"%string \/ st = "failed"%string ->
  forall msg, exists y, In y (SessionStore.sessions (store (fst (alone (mark true its_id st msg) i v)))) /\ its_row st y.
Proof.
  destruct statements as [_ Hdid]. intros Hx (H1 & H2 & H3 & H4) Hst msg. unfold mark. rewrite alone_bind. cbn [alone command put_status stmt fst]. rewrite Hdid.
  cbn [store on_store]. rewrite status_sessions. exists (SessionStore.status_set (i_now i) st msg x). split.
  - apply in_UPDATE. exists x. split; [done|]. unfold SessionStore.status_where, SessionStore.same. rewrite H1, H4, String.eqb_refl. by destruct Hst as [->| ->].
  - destruct Hst as [->| ->]; done.
Qed.

Lemma mark_vms st msg v : vms (fst (alone (mark true its_id st msg) i v)) = vms v.
Proof. unfold mark. rewrite alone_bind. cbn [alone command put_status stmt fst]. by destruct (i_did i). Qed.

(** Preview settings that are not well-formed are refused too late: nothing else fails,
    the caller gets the error and no identifier, and the sandbox it asked for exists, as a
    VM that runs and a row that is running and billed. *)
Theorem invalid_preview_auth_leaks scheme token code :
  c_PreviewAuth (q_cfg q) = Some (scheme, token) -> ProcessRequest scheme token true = Some code -> 400 <= code < 500 ->
  i_rpc i = true -> i_rpc_did i = true ->
  let '(w', r) := alone (createSandboxRemote order true false server_region poolTemplateName q) i w in
  r = Fail code /\ (Registry.ID b, its_id) ∈ vms w' /\ exists x, In x (SessionStore.sessions (store w')) /\ its_row "running" x.
Proof.
  intros Hp Hpr Hcode Hrpc Hdid. apply (cold_alone (fun '(w', r) => r = Fail code /\ (Registry.ID b, its_id) ∈ vms w' /\ exists x, In x (SessionStore.sessions (store w')) /\ its_row "running" x)).
  intros v Hvm (x & Hx & Hrow). rewrite Hrpc, Hdid in *. rewrite alone_bind.
  pose proof (mark_row "running" v x Hx Hrow ltac:(by left) None) as Hy. pose proof (mark_vms "running" None v) as Hm.
  destruct (alone (mark _ _ _ _) i v) as [v1 []]. cbn [fst] in Hy, Hm. unfold preview_auth. rewrite Hp, alone_bind. cbn [alone bind command ask]. rewrite Hrpc, Hpr.
  replace (400 <=? code) with true by (symmetry; apply Z.leb_le; lia). replace (code <? 500) with true by (symmetry; apply Z.ltb_lt; lia). cbn [andb alone].
  split; [done|]. split; [|exact Hy]. rewrite Hm, Hvm. set_solver.
Qed.

(** A create that the worker does but does not answer in time: the row is failed, the VM
    runs, and nothing will destroy it for the caller. *)
Lemma lost_create_leaks :
  i_rpc i = false -> i_rpc_did i = true ->
  let '(w', r) := alone (createSandboxRemote order true false server_region poolTemplateName q) i w in
  r = Fail (if i_transient i then 503 else 500) /\ (Registry.ID b, its_id) ∈ vms w' /\ exists x, In x (SessionStore.sessions (store w')) /\ its_row "failed" x.
Proof.
  intros Hrpc Hdid. apply (cold_alone (fun '(w', r) => r = Fail (if i_transient i then 503 else 500) /\ (Registry.ID b, its_id) ∈ vms w' /\ exists x, In x (SessionStore.sessions (store w')) /\ its_row "failed" x)).
  intros v Hvm (x & Hx & Hrow). rewrite Hrpc, Hdid in *. rewrite alone_bind.
  pose proof (mark_row "failed" v x Hx Hrow ltac:(by right) (Some "worker create failed"%string)) as Hy. pose proof (mark_vms "failed" (Some "worker create failed"%string) v) as Hm.
  destruct (alone (mark _ _ _ _) i v) as [v1 []]. cbn [fst] in Hy, Hm. cbn [alone]. split; [done|]. split; [|exact Hy]. rewrite Hm, Hvm. set_solver.
Qed.

End Broken.
(** ** Examples *)

Definition one_worker : Registry.RedisWorkerRegistry :=
  Registry.handleHeartbeat Registry.new_registry (SandboxProxyFacts.worker "worker-1" "a:1" "http://a") false Registry.Ready true.

(** A worker with a box of the pool. *)
Definition stocked : world :=
  mkC (SessionStore.CreatePooledSession 1 (empty_db []) "sb-pool" "base" "eu" "worker-1") one_worker {[ ("worker-1", "sb-pool") ]}%string [].

Definition plain (auth : option (string * string)) : request :=
  {| q_cfg := {| c_Template := ""; c_Timeout := 300; c_CpuCount := 1; c_MemoryMB := 4096; c_DiskMB := 20480; c_Envs := ∅; c_PreviewAuth := auth;
                 c_ImageRef := ""; c_CheckpointID := ""; c_Image := false; c_Snapshot := ""; c_SecretStore := ""; c_BaseSecretStore := "";
                 c_EgressAllowlist := []; c_SecretAllowedHosts := ∅; c_SecretEnvs := ∅ |};
     q_org := Some "acme"; q_region := "eu"; q_agent := None |}%string.

Definition answer (rpc : bool) : input :=
  {| i_ok := true; i_did := true; i_rpc := rpc; i_rpc_did := rpc; i_now := 5; i_counts := fun _ => None; i_rr := 0; i_uid := "11111111"; i_locked := fun _ => false;
     i_conn := Registry.Ready; i_dial := true; i_transient := true; i_template := NoTemplate; i_status := "running" |}%string.

Lemma stocked_named : named (registry stocked).
Proof.
  split.
  - intros id e. apply Registry.wf_ids. apply Registry.heartbeat_wf, Registry.new_wf.
  - intros id Hid. assert (dom (SandboxProxyFacts.addresses (registry stocked)) = {["worker-1"%string]}) as E by (vm_compute; reflexivity).
    rewrite E in Hid. apply elem_of_singleton in Hid as ->. cbn. lia.
Qed.


Definition empty_worker : world := mkC (empty_db []) one_worker ∅ [].

Lemma invalid_preview_auth_leaks_witness :
  let '(w', r) := alone (createSandboxRemote id true false "eu" "base" (plain (Some ("bearer", "short")%string))) (answer true) empty_worker in
  r = Fail 400 /\ ("worker-1", "sb-11111111")%string ∈ vms w'.
Proof.
  pose proof (invalid_preview_auth_leaks id "eu" "base" (plain (Some ("bearer", "short")%string)) "acme" empty_worker
    (Registry.set_current (SandboxProxyFacts.worker "worker-1" "a:1" "http://a") 2) (answer true) eq_refl eq_refl (conj eq_refl eq_refl)
    ltac:(vm_compute; reflexivity) "bearer" "short" 400 eq_refl eq_refl ltac:(lia) eq_refl eq_refl) as H.
  destruct (alone _ _ empty_worker) as [w' r]. destruct H as (H1 & H2 & _). split; [exact H1|exact H2].
Defined.

(** A box that is claimed while its worker's pool is wiped loses its VM: the wipe has
    listed it before, and destroys what it listed. The customer got the box, the row is
    running and billed, and the VM is gone. Nothing fails in this run. *)
Theorem wipe_destroys_claimed_box :
  let wipe := (do _ <- WipeWorkerPool true "worker-1"; Ret tt) in
  let create := (do _ <- createSandboxRemote id true true "eu" "base" (plain None); Ret tt) in
  let es := [Start wipe; Start create; Run 0 (answer true)] ++ repeat (Run 1 (answer true)) 6 ++
            [Start (promote_claimed "sb-pool"); Run 2 (answer true)] ++ repeat (Run 0 (answer true)) 3 in
  let '(w', ts) := exec (stocked, []) es in
  ts = [Ret tt; Ret tt; Ret tt] /\ vms w' = ∅ /\
  map (fun s => (SessionStore.sandbox_id s, SessionStore.org_id s, SessionStore.status s)) (SessionStore.sessions (store w')) = [("sb-pool", "acme", "running")]%string.
Proof. vm_compute. split_and!; reflexivity. Qed.

End CreateFacts.
