(* ===== verification/Auth.v ===== *)
(** * Authentication

    src/internal/auth (jwt.go, middleware.go, apikey.go, single_tenant.go, signed_url.go,
    vmdo_token.go), the handlers that give out credentials (src/internal/api/identity.go,
    signed_urls.go, dashboard_agents.go, internal_sandbox.go, src/internal/worker/handlers.go)
    and the API keys of src/internal/db/store.go. Two secrets are shared: the one of the
    control plane and its workers, which signs sandbox and identity tokens and signed URLs,
    and the one of the edge and the control planes, which signs capability tokens and the
    connect tokens of VMs; the edge also signs sandbox tokens and the sessions of browsers
    with it, so a deployment that lets it do so gives both the same value. [step] is the history of what is signed: credentials are handed
    out by the control plane, the edge and the dashboard, and exchanged for others by
    requests that pass the middleware.

    HMAC, SHA-256, the JWT library and the UUID library are parameters; what is relied on
    is their documented behaviour. A UUID is its 128-bit value. Times are in nanoseconds,
    the dates inside tokens in seconds. *)

From S2P Require Import Prelude Replacer SecretsProxy Keyring.
From Stdlib Require Import Ascii.
#[local] Open Scope Z_scope.

Module Auth.
Import Replacer.

(** ** Libraries *)

Inductive hash := SHA256 | SHA384 | SHA512.
#[export] Instance hash_eq_dec : EqDecision hash.
Proof. solve_decision. Defined.

(** [hmac.New(h, key)] over a message, and [sha256.Sum256]. *)
Class Crypto := { HMAC : hash -> bytes -> bytes -> bytes; Sum256 : bytes -> bytes }.

Class CryptoLaws `(Crypto) : Prop := { HMAC_length : forall k m, length (HMAC SHA256 k m) = 32%nat }.

(** github.com/google/uuid *)
Class UUIDLib := { uuid_String : N -> string; uuid_Parse : string -> option N }.
Class UUIDLaws `(UUIDLib) : Prop := { Parse_String : forall u, uuid_Parse (uuid_String u) = Some u }.

Definition uuid_Nil : N := 0%N.

(** The claims of a token: a JSON object, its members as encoding/json finds them. *)
Inductive value := VNull | VString (s : string) | VNumber (n : Z) | VStrings (l : list string) | VOther.
Abbreviation payload := (gmap string value).

(** [json.Unmarshal] of one member into a string, a pointer to a string, a UUID; [None]:
    an error. *)
Definition string_field (p : payload) (k : string) : option string :=
  match p !! k with
  | None | Some VNull => Some ""%string
  | Some (VString s) => Some s
  | _ => None
  end.

Definition pstring_field (p : payload) (k : string) : option (option string) :=
  match p !! k with
  | None | Some VNull => Some None
  | Some (VString s) => Some (Some s)
  | _ => None
  end.

Definition uuid_field `{UUIDLib} (p : payload) (k : string) : option N :=
  match p !! k with
  | None | Some VNull => Some uuid_Nil
  | Some (VString s) => uuid_Parse s
  | _ => None
  end.

(** [jwt.RegisteredClaims], the members that are checked. *)
Record RegisteredClaims := { r_iss : string; r_aud : list string; r_exp : option Z; r_nbf : option Z }.

Definition date_field (p : payload) (k : string) : option (option Z) :=
  match p !! k with
  | None | Some VNull => Some None
  | Some (VNumber n) => Some (Some n)
  | _ => None
  end.

Definition aud_field (p : payload) : option (list string) :=
  match p !! "aud"%string with
  | None | Some VNull => Some []
  | Some (VString s) => Some [s]
  | Some (VStrings l) => Some l
  | _ => None
  end.

Definition registered (p : payload) : option RegisteredClaims :=
  iss ← string_field p "iss";
  aud ← aud_field p;
  exp ← date_field p "exp";
  nbf ← date_field p "nbf";
  Some {| r_iss := iss; r_aud := aud; r_exp := exp; r_nbf := nbf |}.

(** [jwt.WithIssuer] and [jwt.WithAudience]. *)
Record ParserOption := { o_iss : option string; o_aud : option string }.

Definition second : Z := 1000000000.

(** What the library's validator checks of the registered claims. *)
Definition Valid (o : ParserOption) (now : Z) (r : RegisteredClaims) : Prop :=
  match r_exp r with Some e => now < e * second | None => True end /\
  match r_nbf r with Some n => n * second <= now | None => True end /\
  match o_iss o with Some i => r_iss r = i | None => True end /\
  match o_aud o with Some a => a ∈ r_aud r | None => True end.

Inductive SigningMethod := SigningMethodHMAC (h : hash) | OtherMethod (alg : string).

(** github.com/golang-jwt/jwt/v5. [SigningString]: header and claims of a token made by
    [NewWithClaims(SigningMethodHS256, claims)]; [EdgeString]: the same as the edge, which
    is written in another language, writes them; [Assemble]: the token with its signature;
    [Decode]: the method, the claims, the text that is signed and the signature. *)
Class JWTLib `{Crypto} := {
  SigningString : payload -> bytes;
  EdgeString : payload -> bytes;
  Assemble : bytes -> bytes -> string;
  Decode : string -> option (SigningMethod * payload * bytes * bytes);
  ParseWithClaims : forall {T}, (payload -> option T) -> (T -> RegisteredClaims) -> ParserOption -> Z ->
    (SigningMethod -> option bytes) -> string -> option T
}.

(** The characters of base64url segments and the dots between them. *)
Definition token_char (c : ascii) : Prop := c <> ascii_of_N 10 /\ c <> ":"%char.

(** A token decodes to what it was made of; the claims are read from the text that is
    signed, which is made of base64url segments; and parsing accepts a token if its method's
    key verifies the signature and its claims are valid. *)
Class JWTLaws `{Crypto} (L : JWTLib) : Prop := {
  Decode_Assemble : forall p g,
    Decode (Assemble (SigningString p) g) = Some (SigningMethodHMAC SHA256, p, SigningString p, g);
  Decode_Edge : forall p g,
    Decode (Assemble (EdgeString p) g) = Some (SigningMethodHMAC SHA256, p, EdgeString p, g);
  Decode_text : forall t t' m m' p p' s g g',
    Decode t = Some (m, p, s, g) -> Decode t' = Some (m', p', s, g') -> m = m' /\ p = p';
  Decode_chars : forall t m p s g, Decode t = Some (m, p, s, g) -> Forall token_char s;
  Parse_spec : forall {T} (u : payload -> option T) reg o now keyFunc t c,
    ParseWithClaims u reg o now keyFunc t = Some c <->
    exists h p s g k, Decode t = Some (SigningMethodHMAC h, p, s, g) /\ u p = Some c /\
      keyFunc (SigningMethodHMAC h) = Some k /\ g = HMAC h k s /\ Valid o now (reg c)
}.

Section Model.
Context `{JWTLib, UUIDLib}.

(** ** jwt.go *)

Record SandboxClaims := { s_reg : RegisteredClaims; s_OrgID : N; s_SandboxID : string; s_WorkerID : string }.

Definition unmarshal_sandbox (p : payload) : option SandboxClaims :=
  r ← registered p;
  org ← uuid_field p "org_id";
  id ← string_field p "sandbox_id";
  worker ← string_field p "worker_id";
  Some {| s_reg := r; s_OrgID := org; s_SandboxID := id; s_WorkerID := worker |}.

Record IdentityClaims := { i_reg : RegisteredClaims; i_OrgID : string; i_UserID : option string; i_Email : option string;
                           i_WorkOSUserID : option string }.

Definition unmarshal_identity (p : payload) : option IdentityClaims :=
  r ← registered p;
  org ← string_field p "org_id";
  user ← pstring_field p "user_id";
  email ← pstring_field p "email";
  workos ← pstring_field p "workos_user_id";
  Some {| i_reg := r; i_OrgID := org; i_UserID := user; i_Email := email; i_WorkOSUserID := workos |}.

Record CapabilityClaims := { k_reg : RegisteredClaims; k_OrgID : string; k_CellID : string; k_UserID : option string;
                             k_Plan : string; k_BillingProvider : string }.

Definition unmarshal_capability (p : payload) : option CapabilityClaims :=
  r ← registered p;
  org ← string_field p "org_id";
  cell ← string_field p "cell_id";
  user ← pstring_field p "user_id";
  plan ← string_field p "plan";
  billing ← string_field p "billing_provider";
  Some {| k_reg := r; k_OrgID := org; k_CellID := cell; k_UserID := user; k_Plan := plan; k_BillingProvider := billing |}.

(** A member with a value, or left out. *)
Definition put (k : string) (v : option value) (p : payload) : payload :=
  match v with Some v => <[k := v]> p | None => p end.
Definition object (l : list (string * option value)) : payload := foldr (fun x => put (fst x) (snd x)) ∅ l.
Definition omitempty (s : string) : option value := if String.eqb s "" then None else Some (VString s).
Definition omitnil (s : option string) : option value := match s with Some s => Some (VString s) | None => None end.

(** [jwt.NewNumericDate]: whole seconds. *)
Definition NewNumericDate (t : Z) : Z := t / second.

(** The registered claims of an issued token. *)
Definition issued_claims (sub iss : string) (aud : option value) (now ttl : Z) : list (string * option value) :=
  [("sub"%string, omitempty sub); ("iss"%string, Some (VString iss)); ("aud"%string, aud);
   ("iat"%string, Some (VNumber (NewNumericDate now))); ("exp"%string, Some (VNumber (NewNumericDate (now + ttl))))].

Definition sandbox_payload (org : N) (sandboxID workerID : string) (now ttl : Z) : payload :=
  object ([("org_id"%string, Some (VString (uuid_String org))); ("sandbox_id"%string, Some (VString sandboxID));
           ("worker_id"%string, Some (VString workerID))] ++ issued_claims (uuid_String org) "opensandbox" None now ttl).

(** [NewWithClaims(SigningMethodHS256, claims).SignedString(secret)] *)
Definition SignedString (secret : bytes) (p : payload) : string :=
  Assemble (SigningString p) (HMAC SHA256 secret (SigningString p)).

Definition IssueSandboxToken (secret : bytes) (org : N) (sandboxID workerID : string) (now ttl : Z) : string :=
  SignedString secret (sandbox_payload org sandboxID workerID now ttl).

Definition AudSessionsAPI : string := "sessions-api".
Definition AudOpenComputerAPI : string := "opencomputer-api".

Record IdentityTokenInput := { n_OrgID : string; n_UserID : option string; n_Email : option string;
                               n_WorkOSUserID : option string; n_Audience : string }.

Definition identity_payload (i : IdentityTokenInput) (now ttl : Z) : payload :=
  object ([("org_id"%string, Some (VString (n_OrgID i))); ("user_id"%string, omitnil (n_UserID i));
           ("email"%string, omitnil (n_Email i)); ("workos_user_id"%string, omitnil (n_WorkOSUserID i))] ++
          issued_claims (n_OrgID i) "opensandbox" (Some (VStrings [n_Audience i])) now ttl).

(** [None]: the audience is missing. *)
Definition IssueIdentityToken (secret : bytes) (i : IdentityTokenInput) (now ttl : Z) : option string :=
  if String.eqb (n_Audience i) "" then None else Some (SignedString secret (identity_payload i now ttl)).

(** The key is given to tokens signed with an HMAC only. *)
Definition keyFunc (secret : bytes) (m : SigningMethod) : option bytes :=
  match m with SigningMethodHMAC _ => Some secret | OtherMethod _ => None end.

Definition ValidateIdentityToken (secret : bytes) (now : Z) (token expectedAudience : string) : option IdentityClaims :=
  ParseWithClaims unmarshal_identity i_reg {| o_iss := Some "opensandbox"%string; o_aud := Some expectedAudience |} now
    (keyFunc secret) token.

Definition CapabilityIssuer : string := "opensandbox-edge".

Definition capability_payload (orgID cellID plan billingProvider : string) (userID : option string) (now ttl : Z) : payload :=
  object ([("org_id"%string, Some (VString orgID)); ("cell_id"%string, Some (VString cellID)); ("user_id"%string, omitnil userID);
           ("plan"%string, omitempty plan); ("billing_provider"%string, omitempty billingProvider)] ++
          issued_claims orgID CapabilityIssuer None now ttl).

Definition IssueCapabilityToken (secret : bytes) (orgID cellID plan billingProvider : string) (userID : option string)
    (now ttl : Z) : string :=
  SignedString secret (capability_payload orgID cellID plan billingProvider userID now ttl).

Definition ValidateCapabilityToken (secret : bytes) (now : Z) (token : string) : option CapabilityClaims :=
  match ParseWithClaims unmarshal_capability k_reg {| o_iss := Some CapabilityIssuer; o_aud := None |} now (keyFunc secret) token with
  | Some claims => if String.eqb (k_OrgID claims) "" || String.eqb (k_CellID claims) "" then None else Some claims
  | None => None
  end.

Definition ValidateSandboxToken (secret : bytes) (now : Z) (token : string) : option SandboxClaims :=
  ParseWithClaims unmarshal_sandbox s_reg {| o_iss := None; o_aud := None |} now (keyFunc secret) token.

(** ** vmdo_token.go *)

Definition hex_digit (n : N) : ascii := ascii_of_N (if (n <? 10)%N then 48 + n else 87 + n).

(** [hex.EncodeToString] *)
Fixpoint hex_EncodeToString (b : bytes) : bytes :=
  match b with
  | [] => []
  | c :: b => hex_digit (N_of_ascii c / 16) :: hex_digit (N_of_ascii c mod 16) :: hex_EncodeToString b
  end.

Definition vmdo_message (sandboxID : string) : bytes := raw "vmdo:" ++ raw sandboxID.

Definition MintVMDOConnectToken (sessionJWTSecret : bytes) (sandboxID : string) : bytes :=
  if bool_decide (sessionJWTSecret = []) || String.eqb sandboxID "" then []
  else hex_EncodeToString (HMAC SHA256 sessionJWTSecret (vmdo_message sandboxID)).

(** ** The request and the echo context *)

(** The headers Authorization and X-API-Key, the query parameters api_key, token, path,
    expires and signature, and the path parameter :id. *)
Record request := { q_Authorization : string; q_XAPIKey : string; q_api_key : string; q_token : string;
                    q_path : string; q_expires : string; q_signature : string; q_id : string }.

Record context := { c_org : option N; c_user : option N; c_plan : option string; c_billing : option string;
                    c_email : option string; c_sandbox_id : option string; c_worker_id : option string;
                    c_cap : option CapabilityClaims }.

Definition fresh : context :=
  {| c_org := None; c_user := None; c_plan := None; c_billing := None; c_email := None; c_sandbox_id := None;
     c_worker_id := None; c_cap := None |}.

(** [next(c)] is called, or a status is answered. *)
Inductive outcome := Next (c : context) | Reply (code : Z).

(** ** middleware.go *)

Definition SetOrgID (o : N) (c : context) : context :=
  {| c_org := Some o; c_user := c_user c; c_plan := c_plan c; c_billing := c_billing c; c_email := c_email c;
     c_sandbox_id := c_sandbox_id c; c_worker_id := c_worker_id c; c_cap := c_cap c |}.
Definition SetUserID (u : N) (c : context) : context :=
  {| c_org := c_org c; c_user := Some u; c_plan := c_plan c; c_billing := c_billing c; c_email := c_email c;
     c_sandbox_id := c_sandbox_id c; c_worker_id := c_worker_id c; c_cap := c_cap c |}.
Definition SetPlan (p : string) (c : context) : context :=
  {| c_org := c_org c; c_user := c_user c; c_plan := if String.eqb p "" then c_plan c else Some p; c_billing := c_billing c;
     c_email := c_email c; c_sandbox_id := c_sandbox_id c; c_worker_id := c_worker_id c; c_cap := c_cap c |}.
Definition SetBillingProvider (p : string) (c : context) : context :=
  {| c_org := c_org c; c_user := c_user c; c_plan := c_plan c; c_billing := if String.eqb p "" then c_billing c else Some p;
     c_email := c_email c; c_sandbox_id := c_sandbox_id c; c_worker_id := c_worker_id c; c_cap := c_cap c |}.
Definition SetEmail (e : string) (c : context) : context :=
  {| c_org := c_org c; c_user := c_user c; c_plan := c_plan c; c_billing := c_billing c; c_email := Some e;
     c_sandbox_id := c_sandbox_id c; c_worker_id := c_worker_id c; c_cap := c_cap c |}.
Definition SetSandbox (id worker : string) (c : context) : context :=
  {| c_org := c_org c; c_user := c_user c; c_plan := c_plan c; c_billing := c_billing c; c_email := c_email c;
     c_sandbox_id := Some id; c_worker_id := Some worker; c_cap := c_cap c |}.
Definition SetCap (k : CapabilityClaims) (c : context) : context :=
  {| c_org := c_org c; c_user := c_user c; c_plan := c_plan c; c_billing := c_billing c; c_email := c_email c;
     c_sandbox_id := c_sandbox_id c; c_worker_id := c_worker_id c; c_cap := Some k |}.

(** [SetUserID] if the claim holds a UUID. *)
Definition set_user (user : option string) (c : context) : context :=
  match user with
  | Some s => match uuid_Parse s with Some u => SetUserID u c | None => c end
  | None => c
  end.

(** [strings.HasPrefix(h, Bearer)] and [strings.TrimPrefix]. *)
Definition bearer (h : string) : option string :=
  if SecretsProxy.HasPrefix h "Bearer " then Some (str (drop 7 (raw h))) else None.

(** [strings.Count(key, dot)] *)
Definition dots (key : string) : nat := length (filter (fun c => c = "."%char) (raw key)).

Definition APIKeyMiddleware (apiKey : string) (q : request) (c : context) : outcome :=
  if String.eqb apiKey "" then Next c
  else
    let provided := if String.eqb (q_XAPIKey q) "" then q_api_key q else q_XAPIKey q in
    if String.eqb provided "" then Reply 401
    else if String.eqb provided apiKey then Next c else Reply 403.

Definition applyIdentityClaims (claims : IdentityClaims) (c : context) : outcome :=
  match uuid_Parse (i_OrgID claims) with
  | None => Reply 403
  | Some orgID =>
      let c := set_user (i_UserID claims) (SetOrgID orgID c) in
      Next (match i_Email claims with Some e => SetEmail e c | None => c end)
  end.

(** ** API keys *)

(** A row of [api_keys]. *)
Record APIKey := { a_OrgID : N; a_CreatedBy : option N; a_KeyHash : bytes; a_ExpiresAt : option Z; a_LastUsed : option Z }.
Abbreviation table := (list APIKey).

Definition HashAPIKey (key : string) : bytes := hex_EncodeToString (Sum256 (raw key)).

Definition touch (now : Z) (r : APIKey) : APIKey :=
  {| a_OrgID := a_OrgID r; a_CreatedBy := a_CreatedBy r; a_KeyHash := a_KeyHash r; a_ExpiresAt := a_ExpiresAt r;
     a_LastUsed := Some now |}.

Definition has_hash (h : bytes) (r : APIKey) : bool := bool_decide (a_KeyHash r = h).

(** The table with the key marked as used; the organisation and the creator. *)
Definition ValidateAPIKey (now : Z) (keyPlaintext : string) (t : table) : table * option (N * option N) :=
  let hash := HashAPIKey keyPlaintext in
  match List.find (has_hash hash) t with
  | None => (t, None)
  | Some r =>
      if match a_ExpiresAt r with Some e => e <? now | None => false end then (t, None)
      else (map (fun r => if has_hash hash r then touch now r else r) t, Some (a_OrgID r, a_CreatedBy r))
  end.

(** ** [PGAPIKeyMiddleware] *)

(** [jwtIssuer] and [capTokenIssuer]: the secrets, where configured. *)
Record config := { staticKey : string; jwtIssuer : option bytes; capTokenIssuer : option bytes; cellID : string }.

(** The identity token of the Authorization header. *)
Definition identity_bearer (g : config) (now : Z) (q : request) : option IdentityClaims :=
  secret ← jwtIssuer g;
  token ← bearer (q_Authorization q);
  ValidateIdentityToken secret now token AudOpenComputerAPI.

(** The capability token of the Authorization header. *)
Definition capability_bearer (g : config) (now : Z) (q : request) : option CapabilityClaims :=
  secret ← capTokenIssuer g;
  token ← bearer (q_Authorization q);
  ValidateCapabilityToken secret now token.

Definition apply_capability (g : config) (claims : CapabilityClaims) (c : context) : outcome :=
  if negb (String.eqb (cellID g) "") && negb (String.eqb (k_CellID claims) (cellID g)) then Reply 403
  else match uuid_Parse (k_OrgID claims) with
       | None => Reply 403
       | Some orgID =>
           Next (SetBillingProvider (k_BillingProvider claims) (SetPlan (k_Plan claims)
             (set_user (k_UserID claims) (SetOrgID orgID c))))
       end.

Definition api_key (q : request) : string := if String.eqb (q_XAPIKey q) "" then q_api_key q else q_XAPIKey q.

(** An identity token in the place of the API key. *)
Definition identity_key (g : config) (now : Z) (key : string) : option IdentityClaims :=
  match jwtIssuer g with
  | Some secret =>
      if negb (String.eqb key "") && (dots key =? 2)%nat then ValidateIdentityToken secret now key AudOpenComputerAPI else None
  | None => None
  end.

(** [store]: the API keys, where a database is configured. *)
Definition PGAPIKeyMiddleware (g : config) (now : Z) (store : option table) (q : request) (c : context) : option table * outcome :=
  if negb (String.eqb (staticKey g) "") && bool_decide (store = None) then (store, APIKeyMiddleware (staticKey g) q c)
  else match identity_bearer g now q with
  | Some claims => (store, applyIdentityClaims claims c)
  | None =>
  match capability_bearer g now q with
  | Some claims => (store, apply_capability g claims c)
  | None =>
      let key := api_key q in
      match identity_key g now key with
      | Some claims => (store, applyIdentityClaims claims c)
      | None =>
          match store with
          | None => if String.eqb key "" && String.eqb (staticKey g) "" then (store, Next c)
                    else if String.eqb key "" then (store, Reply 401)
                    else (store, APIKeyMiddleware (staticKey g) q c)
          | Some t =>
              if String.eqb key "" then (store, Reply 401)
              else match ValidateAPIKey now key t with
                   | (t, None) => (Some t, Reply 403)
                   | (t, Some (orgID, userID)) =>
                       let c := SetOrgID orgID c in
                       (Some t, Next (match userID with Some u => SetUserID u c | None => c end))
                   end
          end
      end
  end
  end.

(** ** [SandboxJWTMiddleware] *)

Definition sandbox_token (q : request) : option string :=
  match bearer (q_Authorization q) with
  | Some t => Some t
  | None => if String.eqb (q_token q) "" then None else Some (q_token q)
  end.

Definition SandboxJWTMiddleware (secret : bytes) (now : Z) (q : request) (c : context) : outcome :=
  match sandbox_token q with
  | None => Reply 401
  | Some token =>
      match ValidateSandboxToken secret now token with
      | None => Reply 403
      | Some claims =>
          if negb (String.eqb (q_id q) "") && negb (String.eqb (s_SandboxID claims) (q_id q)) then Reply 403
          else Next (SetSandbox (s_SandboxID claims) (s_WorkerID claims) (SetOrgID (s_OrgID claims) c))
      end
  end.

(** ** [capTokenMiddleware] of the internal routes *)

Definition capTokenMiddleware (secret : bytes) (cell : string) (now : Z) (q : request) (c : context) : outcome :=
  match bearer (q_Authorization q) with
  | None => Reply 401
  | Some token =>
      match ValidateCapabilityToken secret now token with
      | None => Reply 403
      | Some claims =>
          if negb (String.eqb (k_CellID claims) cell) then Reply 403
          else
            let c := SetCap claims c in
            let c := match uuid_Parse (k_OrgID claims) with Some o => SetOrgID o c | None => c end in
            Next (SetBillingProvider (k_BillingProvider claims) (SetPlan (k_Plan claims) (set_user (k_UserID claims) c)))
      end
  end.

(** ** single_tenant.go *)

Record SingleTenantPrincipal := { p_UserID : N; p_OrgID : N; p_Email : string }.

Definition SingleTenantMiddleware (p : SingleTenantPrincipal) (c : context) : outcome :=
  if (p_UserID p =? uuid_Nil)%N || (p_OrgID p =? uuid_Nil)%N || String.eqb (p_Email p) "" then Reply 503
  else Next (SetEmail (p_Email p) (SetUserID (p_UserID p) (SetOrgID (p_OrgID p) c))).

(** ** signed_url.go *)

Record SignedURLParams := { u_SandboxID : string; u_Path : string; u_Operation : string; u_ExpiresAt : Z }.

Definition ExpiresAtUnix (u : SignedURLParams) : bytes := itoaZ (u_ExpiresAt u / second).

Definition newline : ascii := ascii_of_N 10.

Definition signPayload (u : SignedURLParams) : bytes :=
  raw "opensandbox-signed-url" ++ newline :: raw (u_SandboxID u) ++ newline :: raw (u_Path u) ++ newline ::
  raw (u_Operation u) ++ newline :: ExpiresAtUnix u.

Definition SignURL (secret : bytes) (u : SignedURLParams) : bytes :=
  hex_EncodeToString (HMAC SHA256 secret (signPayload u)).

(** [None]: no error. *)
Inductive urlError := URLExpired | InvalidEncoding | InvalidSignature.

Definition VerifyURL (secret : bytes) (now : Z) (u : SignedURLParams) (signature : bytes) : option urlError :=
  if u_ExpiresAt u <? now then Some URLExpired
  else match Keyring.hex_DecodeString signature with
       | None => Some InvalidEncoding
       | Some sigBytes =>
           let expectedBytes := match Keyring.hex_DecodeString (SignURL secret u) with Some b => b | None => [] end in
           if bool_decide (sigBytes = expectedBytes) then None else Some InvalidSignature
       end.

(** [strconv.ParseInt(s, 10, 64)] *)
Definition ParseInt (s : bytes) : option Z :=
  let number (neg : bool) (b : bytes) :=
    match b with
    | [] => None
    | _ => if forallb is_digit b then
             let v := if neg then - Z.of_N (digits_val b) else Z.of_N (digits_val b) in
             if (- 2 ^ 63 <=? v) && (v <? 2 ^ 63) then Some v else None
           else None
    end in
  match s with
  | "+"%char :: b => number false b
  | "-"%char :: b => number true b
  | b => number false b
  end.

Definition ParseExpiresUnix (s : string) : option Z :=
  match ParseInt (raw s) with Some n => Some (n * second) | None => None end.

(** ** api/signed_urls.go *)

Definition defaultSignedURLExpiry : Z := 3600.
Definition maxSignedURLExpiry : Z := 86400.

(** [url.QueryEscape] *)
Definition unreserved (c : ascii) : bool :=
  let n := N_of_ascii c in
  (48 <=? n)%N && (n <=? 57)%N || (65 <=? n)%N && (n <=? 90)%N || (97 <=? n)%N && (n <=? 122)%N ||
  (n =? 45)%N || (n =? 95)%N || (n =? 46)%N || (n =? 126)%N.

Definition upper_hex (n : N) : ascii := ascii_of_N (if (n <? 10)%N then 48 + n else 55 + n).

Fixpoint QueryEscape (b : bytes) : bytes :=
  match b with
  | [] => []
  | c :: b =>
      (if unreserved c then [c]
       else if bool_decide (c = " "%char) then ["+"%char]
       else ["%"%char; upper_hex (N_of_ascii c / 16); upper_hex (N_of_ascii c mod 16)]) ++ QueryEscape b
  end.

(** [url.QueryUnescape] *)
Fixpoint QueryUnescape (b : bytes) : option bytes :=
  match b with
  | [] => Some []
  | "%"%char :: b =>
      match b with
      | x :: y :: b =>
          match Keyring.hex_value x, Keyring.hex_value y, QueryUnescape b with
          | Some h, Some l, Some r => Some (ascii_of_N (16 * h + l) :: r)
          | _, _, _ => None
          end
      | _ => None
      end
  | "+"%char :: b => match QueryUnescape b with Some r => Some (" "%char :: r) | None => None end
  | c :: b => match QueryUnescape b with Some r => Some (c :: r) | None => None end
  end.

(** [strings.Cut] at the first occurrence of a separator. *)
Fixpoint Cut (sep : ascii) (b : bytes) : bytes * option bytes :=
  match b with
  | [] => ([], None)
  | c :: b => if bool_decide (c = sep) then ([], Some b)
              else match Cut sep b with (x, r) => (c :: x, r) end
  end.

(** The first value of a parameter in a raw query, as [url.ParseQuery] reads it. *)
Definition parameter (key : string) (part : bytes) : option bytes :=
  if existsb (fun c => bool_decide (c = ";"%char)) part then None
  else
    match Cut "=" part with
    | (k, v) =>
        match QueryUnescape k, QueryUnescape (match v with Some v => v | None => [] end) with
        | Some k, Some v => if bool_decide (k = raw key) then Some v else None
        | _, _ => None
        end
    end.

(** [fuel]: every round drops a separator. *)
Fixpoint get_loop (fuel : nat) (key : string) (query : bytes) : string :=
  match Cut "&" query with
  | (part, rest) =>
      match parameter key part with
      | Some v => str v
      | None => match fuel, rest with
                | S fuel, Some rest => get_loop fuel key rest
                | _, _ => ""
                end
      end
  end.

(** [c.QueryParam(key)] *)
Definition QueryParam (key : string) (query : bytes) : string := get_loop (length query) key query.

(** The query of a signed URL. *)
Definition signed_query (path : string) (u : SignedURLParams) (signature : bytes) : bytes :=
  raw "path=" ++ QueryEscape (raw path) ++ raw "&expires=" ++ ExpiresAtUnix u ++ raw "&signature=" ++ signature.

Definition clamp_expiry (expiresIn : Z) : Z :=
  let e := if expiresIn <=? 0 then defaultSignedURLExpiry else expiresIn in
  if maxSignedURLExpiry <? e then maxSignedURLExpiry else e.

Definition signed_params (now : Z) (id path op : string) (expiresIn : Z) : SignedURLParams :=
  {| u_SandboxID := id; u_Path := path; u_Operation := op; u_ExpiresAt := now + clamp_expiry expiresIn * second |}.

(** [bound]: the body is a valid request. What is signed, and the query of the URL. *)
Definition createSignedURL (g : config) (now : Z) (id : string) (bound : bool) (path : string) (expiresIn : Z) (op : string) :
    result Z (SignedURLParams * bytes) :=
  match jwtIssuer g with
  | None => Err 503
  | Some secret =>
      if negb bound then Err 400
      else if String.eqb path "" then Err 400
      else
        let u := signed_params now id path op expiresIn in
        Ok (u, signed_query path u (SignURL secret u))
  end.

(** The request of a signed URL, up to the point where it is delegated: the sandbox and the
    path. *)
Definition signed_request (g : config) (now : Z) (op : string) (q : request) : result Z (string * string) :=
  match jwtIssuer g with
  | None => Err 503
  | Some secret =>
      if String.eqb (q_path q) "" || String.eqb (q_expires q) "" || String.eqb (q_signature q) "" then Err 400
      else match ParseExpiresUnix (q_expires q) with
           | None => Err 400
           | Some expiresAt =>
               let u := {| u_SandboxID := q_id q; u_Path := q_path q; u_Operation := op; u_ExpiresAt := expiresAt |} in
               match VerifyURL secret now u (raw (q_signature q)) with
               | Some _ => Err 403
               | None => Ok (q_id q, q_path q)
               end
           end
  end.

Definition signedDownload (g : config) (now : Z) (q : request) := signed_request g now "download" q.
Definition signedUpload (g : config) (now : Z) (q : request) := signed_request g now "upload" q.

(** ** Handlers that exchange credentials *)

Definition minute : Z := 60 * second.
Definition identityTokenTTL : Z := 10 * minute.
Definition inboundJWTTTL : Z := 90 * second.
Definition downstreamJWTTTL : Z := 10 * minute.

(** A row of [users]: the email and the WorkOS identifier. *)
Record user := { us_Email : string; us_WorkOS : option string }.

Definition nonempty (s : option string) : option string :=
  match s with Some s => if String.eqb s "" then None else Some s | None => None end.

(** [users]: [GetUserByID]. *)
Definition createAuthToken (g : config) (users : N -> option user) (now : Z) (c : context) : result Z IdentityTokenInput :=
  match c_org c with
  | None => Err 401
  | Some orgID =>
      match jwtIssuer g with
      | None => Err 503
      | Some _ =>
          let u := match c_user c with Some u => users u | None => None end in
          Ok {| n_OrgID := uuid_String orgID;
                n_UserID := match c_user c with Some u => Some (uuid_String u) | None => None end;
                n_Email := match u with Some u => nonempty (Some (us_Email u)) | None => None end;
                n_WorkOSUserID := match u with Some u => nonempty (us_WorkOS u) | None => None end;
                n_Audience := AudSessionsAPI |}
      end
  end.

(** The two tokens that [dashboardAgentsProxy] mints. *)
Definition dashboardAgentsProxy (g : config) (users : N -> option user) (c : context) :
    result Z (IdentityTokenInput * IdentityTokenInput) :=
  match jwtIssuer g with
  | None => Err 503
  | Some _ =>
      match c_org c with
      | None => Err 401
      | Some orgID =>
          let inp aud := {| n_OrgID := uuid_String orgID;
                            n_UserID := match c_user c with Some u => Some (uuid_String u) | None => None end;
                            n_Email := nonempty (c_email c);
                            n_WorkOSUserID := match c_user c with
                                              | Some u => match users u with Some u => nonempty (us_WorkOS u) | None => None end
                                              | None => None
                                              end;
                            n_Audience := aud |} in
          Ok (inp AudSessionsAPI, inp AudOpenComputerAPI)
      end
  end.

Definition sandboxTokenTTL : Z := 24 * 60 * minute.

(** What the worker signs anew: the organisation, the sandbox and the worker. *)
Definition refreshToken (g : config) (q : request) (c : context) : result Z (N * string * string) :=
  match jwtIssuer g with
  | None => Err 503
  | Some _ => Ok (match c_org c with Some o => o | None => uuid_Nil end, q_id q,
                  match c_worker_id c with Some w => w | None => ""%string end)
  end.

(** ** What the edge signs

    The edge (cloudflare-workers/api-edge/src/index.ts) signs three kinds of tokens with the
    session secret, [mintCapToken], [mintSandboxToken] and [mintSessionJWT]. *)

Definition edge_claims (sub iss : string) (now ttl : Z) : list (string * option value) :=
  [("sub"%string, Some (VString sub)); ("iss"%string, Some (VString iss));
   ("iat"%string, Some (VNumber (NewNumericDate now))); ("exp"%string, Some (VNumber (NewNumericDate (now + ttl))))].

Definition edge_capability_payload (orgID cellID plan billingProvider : string) (userID : option string) (now ttl : Z) : payload :=
  object ([("org_id"%string, Some (VString orgID)); ("cell_id"%string, Some (VString cellID)); ("plan"%string, Some (VString plan));
           ("billing_provider"%string, omitempty billingProvider); ("user_id"%string, omitnil userID)] ++
          edge_claims orgID CapabilityIssuer now ttl).

Definition edge_sandbox_payload (orgID sandboxID workerID : string) (now ttl : Z) : payload :=
  object ([("org_id"%string, Some (VString orgID)); ("sandbox_id"%string, Some (VString sandboxID));
           ("worker_id"%string, Some (VString workerID))] ++ edge_claims orgID "opensandbox" now ttl).

Definition session_payload (orgID userID plan : string) (wsid : option string) (now ttl : Z) : payload :=
  object ([("org_id"%string, Some (VString orgID)); ("user_id"%string, Some (VString userID)); ("plan"%string, Some (VString plan));
           ("wsid"%string, omitnil wsid)] ++ edge_claims userID "opensandbox-session" now ttl).

(** ** What is signed *)

(** A sandbox token ([refreshed]: by a worker), an identity token ([dash]: for the
    dashboard), a signed URL, a connect token; and of the edge, a capability token, a
    sandbox token and the session of a browser. *)
Inductive issue :=
| ISandbox (refreshed : bool) (org : N) (id worker : string) (now ttl : Z)
| IIdentity (dash : bool) (i : IdentityTokenInput) (now ttl : Z)
| ICapability (org cell plan billing : string) (user : option string) (now ttl : Z)
| IURL (now : Z) (u : SignedURLParams)
| IVMDO (id : string)
| IEdgeSandbox (org id worker : string) (now ttl : Z)
| ISession (org user plan : string) (wsid : option string) (now ttl : Z).

Definition message (i : issue) : bytes :=
  match i with
  | ISandbox _ org id worker now ttl => SigningString (sandbox_payload org id worker now ttl)
  | IIdentity _ i now ttl => SigningString (identity_payload i now ttl)
  | ICapability org cell plan billing user now ttl => EdgeString (edge_capability_payload org cell plan billing user now ttl)
  | IURL _ u => signPayload u
  | IVMDO id => vmdo_message id
  | IEdgeSandbox org id worker now ttl => EdgeString (edge_sandbox_payload org id worker now ttl)
  | ISession org user plan wsid now ttl => EdgeString (session_payload org user plan wsid now ttl)
  end.

(** The secrets it may be signed with. The edge has a secret of its own, which may be
    either of the cell's or neither. *)
Definition signed_with (g : config) (k : bytes) (i : issue) : Prop :=
  match i with
  | ISandbox _ _ _ _ _ _ | IIdentity _ _ _ _ | IURL _ _ => jwtIssuer g = Some k
  | IVMDO _ | ICapability _ _ _ _ _ _ _ | IEdgeSandbox _ _ _ _ _ | ISession _ _ _ _ _ _ => True
  end.

Record state := { log : list issue; keys : option table }.

Definition sign (l : list issue) (t : option table) (st : state) : state := {| log := l ++ log st; keys := t |}.

(** The texts that a request claims were signed, with the signatures it shows. *)
Definition token_parts (t : option string) : list (bytes * bytes) :=
  match t with
  | Some t => match Decode t with Some (_, _, s, g) => [(s, g)] | None => [] end
  | None => []
  end.

Definition url_parts (op : string) (q : request) : list (bytes * bytes) :=
  match ParseExpiresUnix (q_expires q), Keyring.hex_DecodeString (raw (q_signature q)) with
  | Some e, Some g => [(signPayload {| u_SandboxID := q_id q; u_Path := q_path q; u_Operation := op; u_ExpiresAt := e |}, g)]
  | _, _ => []
  end.

Definition presented (q : request) : list (bytes * bytes) :=
  token_parts (bearer (q_Authorization q)) ++ token_parts (Some (api_key q)) ++ token_parts (sandbox_token q) ++
  url_parts "download" q ++ url_parts "upload" q.

(** A signature that verifies under one of the secrets is one that was made. *)
Definition unforged (g : config) (l : list issue) (x : bytes * bytes) : Prop :=
  forall h k, jwtIssuer g = Some k \/ capTokenIssuer g = Some k -> snd x = HMAC h k (fst x) ->
    h = SHA256 /\ exists i, i ∈ l /\ signed_with g k i /\ message i = fst x.

Definition honest (g : config) (l : list issue) (q : request) : Prop := Forall (unforged g l) (presented q).

(** Credentials are signed by the control plane for a sandbox, by the edge as it sees fit,
    and for the dashboard; the API keys change; and requests that pass the middleware are given others. *)
Inductive step (g : config) (users : N -> option user) : state -> state -> Prop :=
| step_mint org id worker now ttl st :
    step g users st (sign [ISandbox false org id worker now ttl] (keys st) st)
| step_edge org cell plan billing u now ttl st :
    step g users st (sign [ICapability org cell plan billing u now ttl] (keys st) st)
| step_edge_sandbox org id worker now ttl st :
    step g users st (sign [IEdgeSandbox org id worker now ttl] (keys st) st)
| step_session org user plan wsid now ttl st :
    step g users st (sign [ISession org user plan wsid now ttl] (keys st) st)
| step_vmdo id st :
    step g users st (sign [IVMDO id] (keys st) st)
| step_keys t st :
    step g users st (sign [] t st)
| step_dashboard c now i j st :
    dashboardAgentsProxy g users c = Ok (i, j) ->
    step g users st (sign [IIdentity true i now inboundJWTTTL; IIdentity true j now downstreamJWTTTL] (keys st) st)
| step_token q now t c i st :
    honest g (log st) q -> PGAPIKeyMiddleware g now (keys st) q fresh = (t, Next c) ->
    createAuthToken g users now c = Ok i ->
    step g users st (sign [IIdentity false i now identityTokenTTL] t st)
| step_url q now t c op path expiresIn u query st :
    honest g (log st) q -> PGAPIKeyMiddleware g now (keys st) q fresh = (t, Next c) ->
    op = "download"%string \/ op = "upload"%string ->
    createSignedURL g now (q_id q) true path expiresIn op = Ok (u, query) ->
    step g users st (sign [IURL now u] t st)
| step_refresh q now secret c org id worker st :
    honest g (log st) q -> jwtIssuer g = Some secret -> SandboxJWTMiddleware secret now q fresh = Next c ->
    refreshToken g q c = Ok (org, id, worker) ->
    step g users st (sign [ISandbox true org id worker now sandboxTokenTTL] (keys st) st).

Definition reachable (g : config) (users : N -> option user) (st : state) : Prop :=
  exists t, rtc (step g users) {| log := []; keys := t |} st.

End Model.
End Auth.
