(* ===== verification/AuthFacts.v ===== *)
(** * Authentication: who gets in

    Facts about Auth.v. Whatever requests are made in whatever order, a request is let in
    to the API as an organisation, to a worker for a sandbox, or to a file by a signed URL,
    only if that was granted to it, and has not run out. *)

From S2P Require Import Prelude Replacer SecretsProxy Keyring Auth.
From Stdlib Require Import Ascii.
#[local] Open Scope Z_scope.

Module AuthFacts.
Import Auth.

(** ** Strings and query strings *)

Lemma ascii_lt c : (N_of_ascii c < 256)%N.
Proof. apply N_ascii_bounded. Qed.

Lemma ascii_split c : ascii_of_N (16 * (N_of_ascii c / 16) + N_of_ascii c mod 16) = c.
Proof. rewrite <- N.div_mod by lia. apply ascii_N_embedding. Qed.

(** A property of the sixteen digits, by cases. *)
Lemma digit_cases (P : N -> Prop) :
  P 0%N -> P 1%N -> P 2%N -> P 3%N -> P 4%N -> P 5%N -> P 6%N -> P 7%N -> P 8%N -> P 9%N -> P 10%N -> P 11%N -> P 12%N ->
  P 13%N -> P 14%N -> P 15%N -> forall n, (n < 16)%N -> P n.
Proof.
  intros. destruct n as [|p]; [done|].
  assert (p = 1 \/ p = 2 \/ p = 3 \/ p = 4 \/ p = 5 \/ p = 6 \/ p = 7 \/ p = 8 \/ p = 9 \/ p = 10 \/ p = 11 \/ p = 12 \/
          p = 13 \/ p = 14 \/ p = 15)%positive as E by lia.
  by repeat (destruct E as [->|E]; [done|]); subst.
Qed.

Lemma hex_digit_value n : (n < 16)%N -> Keyring.hex_value (hex_digit n) = Some n.
Proof. revert n. apply digit_cases; done. Qed.

Lemma upper_hex_value n : (n < 16)%N -> Keyring.hex_value (upper_hex n) = Some n.
Proof. revert n. apply digit_cases; done. Qed.

Lemma nibbles c : (N_of_ascii c / 16 < 16)%N /\ (N_of_ascii c mod 16 < 16)%N.
Proof. pose proof (ascii_lt c). split; [apply N.Div0.div_lt_upper_bound; lia|apply N.mod_lt; lia]. Qed.

Lemma hex_roundtrip b : Keyring.hex_DecodeString (hex_EncodeToString b) = Some b.
Proof.
  induction b as [|c b IH]; [done|]. cbn [hex_EncodeToString Keyring.hex_DecodeString].
  destruct (nibbles c) as [H1 H2]. by rewrite !hex_digit_value, IH, ascii_split.
Qed.

(** The characters that a query keeps apart do not occur in what is escaped. *)
Definition plain (c : ascii) : Prop := c <> "&"%char /\ c <> "="%char /\ c <> ";"%char.

Lemma upper_hex_plain n : (n < 16)%N -> plain (upper_hex n).
Proof. revert n. apply digit_cases; by vm_compute. Qed.

Lemma hex_digit_plain n : (n < 16)%N -> plain (hex_digit n) /\ hex_digit n <> "%"%char /\ hex_digit n <> "+"%char.
Proof. revert n. apply digit_cases; vm_compute; split_and!; congruence. Qed.

Lemma unreserved_plain c : unreserved c = true -> plain c /\ c <> "%"%char /\ c <> "+"%char.
Proof.
  intros Hu. unfold plain. split_and!; intros ->; by vm_compute in Hu.
Qed.

Lemma unescape_char c b : c <> "%"%char -> c <> "+"%char ->
  QueryUnescape (c :: b) = match QueryUnescape b with Some r => Some (c :: r) | None => None end.
Proof. intros H1 H2. destruct c as [[] [] [] [] [] [] [] []]; try done; by exfalso; (apply H1 + apply H2). Qed.

Lemma escape_roundtrip b : QueryUnescape (QueryEscape b) = Some b.
Proof.
  induction b as [|c b IH]; [done|]. cbn [QueryEscape]. destruct (unreserved c) eqn:Hu.
  - destruct (unreserved_plain c Hu) as (_ & H1 & H2). cbn [app]. by rewrite unescape_char, IH.
  - case_bool_decide as E.
    + subst c. cbn [app QueryUnescape]. by rewrite IH.
    + destruct (nibbles c) as [H1 H2]. cbn [app QueryUnescape].
      by rewrite !upper_hex_value, IH, ascii_split.
Qed.

Lemma escape_plain b : Forall plain (QueryEscape b).
Proof.
  induction b as [|c b IH]; cbn [QueryEscape]; [constructor|]. apply Forall_app. split; [|done].
  destruct (unreserved c) eqn:Hu; [by repeat constructor; apply unreserved_plain|].
  case_bool_decide; [by repeat constructor|]. destruct (nibbles c) as [H1 H2].
  repeat constructor; try done; by apply upper_hex_plain.
Qed.

Lemma hex_plain b : Forall (fun c => plain c /\ c <> "%"%char /\ c <> "+"%char) (hex_EncodeToString b).
Proof.
  induction b as [|c b IH]; cbn [hex_EncodeToString]; [constructor|]. destruct (nibbles c) as [H1 H2].
  constructor; [by apply hex_digit_plain|]. constructor; [by apply hex_digit_plain|done].
Qed.

Lemma digits_plain n : Forall (fun c => plain c /\ c <> "%"%char /\ c <> "+"%char) (itoaZ n).
Proof.
  eapply Forall_impl; [apply itoaZ_chars|]. intros c [Hc| ->]; [|done].
  apply unreserved_plain. unfold unreserved. unfold is_digit in Hc. by rewrite Hc.
Qed.

Lemma unescape_same b : Forall (fun c => plain c /\ c <> "%"%char /\ c <> "+"%char) b -> QueryUnescape b = Some b.
Proof. induction 1 as [|c b (_ & H1 & H2) Hb IH]; [done|]. by rewrite unescape_char, IH. Qed.

Lemma Cut_sep sep a b : Forall (fun c => c <> sep) a -> Cut sep (a ++ sep :: b) = (a, Some b).
Proof.
  induction 1 as [|c a Hc Ha IH]; cbn [app Cut]; [by rewrite bool_decide_true|].
  by rewrite bool_decide_false, IH.
Qed.

Lemma Cut_none sep a : Forall (fun c => c <> sep) a -> Cut sep a = (a, None).
Proof. induction 1 as [|c a Hc Ha IH]; cbn [Cut]; [done|]. by rewrite bool_decide_false, IH. Qed.

Lemma existsb_plain b : Forall plain b -> existsb (fun c => bool_decide (c = ";"%char)) b = false.
Proof. induction 1 as [|c b (_ & _ & Hc) Hb IH]; [done|]. cbn. by rewrite bool_decide_false. Qed.

(** One part of a query. *)
Lemma parameter_part key k v x :
  Forall (fun c => plain c /\ c <> "%"%char /\ c <> "+"%char) (raw k) -> Forall plain v -> QueryUnescape v = Some x ->
  parameter key (raw k ++ "="%char :: v) = if String.eqb k key then Some x else None.
Proof.
  intros Hk Hv Hx. unfold parameter.
  assert (existsb (fun c => bool_decide (c = ";"%char)) (raw k ++ "="%char :: v) = false) as ->.
  { rewrite existsb_app. cbn [existsb]. rewrite (existsb_plain v Hv), existsb_plain; [done|].
    eapply Forall_impl; [exact Hk|]. by intros c [Hc _]. }
  rewrite Cut_sep by (eapply Forall_impl; [exact Hk|]; by intros c [(_ & Hc & _) _]).
  rewrite (unescape_same _ Hk), Hx. destruct (String.eqb_spec k key) as [->|Hne]; [by rewrite bool_decide_true|].
  rewrite bool_decide_false; [done|]. intros E. apply Hne. rewrite <- (str_raw k), <- (str_raw key). by rewrite E.
Qed.

Lemma get_step fuel key part rest : Forall (fun c => c <> "&"%char) part ->
  get_loop (S fuel) key (part ++ "&"%char :: rest) =
  match parameter key part with Some v => str v | None => get_loop fuel key rest end.
Proof. intros Hp. cbn [get_loop]. by rewrite Cut_sep. Qed.

Lemma get_last fuel key part : Forall (fun c => c <> "&"%char) part ->
  get_loop fuel key part = match parameter key part with Some v => str v | None => ""%string end.
Proof. intros Hp. destruct fuel; cbn [get_loop]; by rewrite Cut_none. Qed.

Lemma key_plain k : forallb (fun c => unreserved c) (raw k) = true ->
  Forall (fun c => plain c /\ c <> "%"%char /\ c <> "+"%char) (raw k).
Proof. rewrite forallb_forall. intros Hk. apply List.Forall_forall. intros c Hc. by apply unreserved_plain, Hk. Qed.

Lemma part_no_amp k v : forallb (fun c => unreserved c) (raw k) = true -> Forall plain v ->
  Forall (fun c => c <> "&"%char) (raw k ++ "="%char :: v).
Proof.
  intros Hk%key_plain Hv. apply Forall_app. split; [eapply Forall_impl; [exact Hk|]; by intros c [[Hc _] _]|].
  constructor; [done|]. eapply Forall_impl; [exact Hv|]. by intros c [Hc _].
Qed.

Lemma strict_plain b : Forall (fun c => plain c /\ c <> "%"%char /\ c <> "+"%char) b -> Forall plain b.
Proof. intros Hb. eapply Forall_impl; [exact Hb|]. by intros c [Hc _]. Qed.

(** The three parameters of a signed URL are read back. *)
Lemma signed_query_params path u g :
  let query := signed_query path u (hex_EncodeToString g) in
  QueryParam "path" query = path /\ QueryParam "expires" query = str (ExpiresAtUnix u) /\
  QueryParam "signature" query = str (hex_EncodeToString g).
Proof.
  set (v1 := QueryEscape (raw path)). set (v2 := ExpiresAtUnix u). set (v3 := hex_EncodeToString g). cbv zeta.
  assert (Forall plain v1) as H1 by apply escape_plain.
  assert (Forall plain v2) as H2 by apply strict_plain, digits_plain.
  assert (Forall plain v3) as H3 by apply strict_plain, hex_plain.
  assert (signed_query path u v3 = (raw "path" ++ "="%char :: v1) ++ "&"%char :: (raw "expires" ++ "="%char :: v2) ++
    "&"%char :: (raw "signature" ++ "="%char :: v3)) as E.
  { unfold signed_query. fold v1 v2. cbn [raw String.list_ascii_of_string app]. done. }
  unfold QueryParam. rewrite E.
  assert (exists f, length ((raw "path" ++ "="%char :: v1) ++ "&"%char :: (raw "expires" ++ "="%char :: v2) ++
    "&"%char :: (raw "signature" ++ "="%char :: v3)) = S (S f)) as [f ->] by by eexists.
  rewrite !get_step, !get_last by by apply part_no_amp.
  rewrite !(parameter_part _ "path" v1 (raw path)), !(parameter_part _ "expires" v2 v2), !(parameter_part _ "signature" v3 v3)
    by (first [done | by apply key_plain | apply escape_roundtrip | apply unescape_same, digits_plain | apply unescape_same, hex_plain]).
  cbn. by rewrite str_raw.
Qed.

(** [strconv.ParseInt] reads what [strconv.FormatInt] writes. *)
Lemma itoa_forallb n : forallb is_digit (itoa n) = true.
Proof. destruct (itoa_spec n) as (_ & Hd & _). apply forallb_forall. by rewrite List.Forall_forall in Hd. Qed.

Lemma digit_not_sign c b : is_digit c = true ->
  match c :: b with "+"%char :: b' => Some (false, b') | "-"%char :: b' => Some (true, b') | _ => None end = None.
Proof. intros Hc. destruct c as [[] [] [] [] [] [] [] []]; try done; by vm_compute in Hc. Qed.

Lemma ParseInt_digits b : b <> [] -> forallb is_digit b = true -> Z.of_N (digits_val b) < 2 ^ 63 ->
  ParseInt b = Some (Z.of_N (digits_val b)) /\ ParseInt ("-"%char :: b) = Some (- Z.of_N (digits_val b)).
Proof.
  intros Hne Hd Hlt. destruct b as [|c b]; [done|].
  assert (forall neg, (- 2 ^ 63 <=? (if neg : bool then - Z.of_N (digits_val (c :: b)) else Z.of_N (digits_val (c :: b)))) &&
    ((if neg : bool then - Z.of_N (digits_val (c :: b)) else Z.of_N (digits_val (c :: b))) <? 2 ^ 63) = true) as Hr.
  { intros neg. apply andb_true_iff. rewrite Z.leb_le, Z.ltb_lt. destruct neg; lia. }
  split.
  - assert (is_digit c = true) as Hc by (cbn in Hd; by apply andb_true_iff in Hd as [? _]).
    pose proof (digit_not_sign c b Hc) as Hs. unfold ParseInt. specialize (Hr false). cbn [negb] in Hr.
    destruct c as [[] [] [] [] [] [] [] []]; try discriminate Hs; by rewrite Hd, Hr.
  - unfold ParseInt. specialize (Hr true). by rewrite Hd, Hr.
Qed.

Lemma ParseInt_FormatInt n : - 2 ^ 63 < n < 2 ^ 63 -> ParseInt (itoaZ n) = Some n.
Proof.
  intros Hn. unfold itoaZ. destruct (itoa_spec (Z.to_N (- n))) as (H1 & _ & V1). destruct (itoa_spec (Z.to_N n)) as (H2 & _ & V2).
  destruct (n <? 0) eqn:E; bool_to_prop.
  - destruct (ParseInt_digits (itoa (Z.to_N (- n)))) as [_ ->]; [done|apply itoa_forallb|rewrite V1; lia|]. rewrite V1. f_equal. lia.
  - destruct (ParseInt_digits (itoa (Z.to_N n))) as [-> _]; [done|apply itoa_forallb|rewrite V2; lia|]. rewrite V2. f_equal. lia.
Qed.

(** ** What is signed *)

Definition no_newline (s : string) : Prop := Forall (fun c => c <> newline) (raw s).

Lemma expires_no_newline u : Forall (fun c => c <> newline) (ExpiresAtUnix u).
Proof. eapply Forall_impl; [apply itoaZ_chars|]. intros c [Hc| ->] E; [subst; by vm_compute in Hc|done]. Qed.

Lemma signPayload_shape u :
  signPayload u = raw "opensandbox-signed-url" ++ newline ::
    (((raw (u_SandboxID u) ++ newline :: raw (u_Path u)) ++ newline :: raw (u_Operation u)) ++ newline :: ExpiresAtUnix u).
Proof. unfold signPayload. by rewrite <- !app_assoc. Qed.

(** What is signed determines the operation, the expiry, and the sandbox and the path up to
    where one ends and the other begins. *)
Lemma signPayload_inj u u' : no_newline (u_Operation u) -> no_newline (u_Operation u') -> signPayload u = signPayload u' ->
  u_Operation u = u_Operation u' /\ u_ExpiresAt u / second = u_ExpiresAt u' / second /\
  raw (u_SandboxID u) ++ newline :: raw (u_Path u) = raw (u_SandboxID u') ++ newline :: raw (u_Path u').
Proof.
  intros Ho Ho' E. rewrite !signPayload_shape in E. apply app_inv_head in E.
  apply (f_equal tail) in E. cbn [tail] in E.
  assert (~ (fun c => c <> newline) newline) as Hn by (intros Hn; by apply Hn).
  apply (app_last_inj (fun c => c <> newline)) in E as [E Ex]; [|done|apply expires_no_newline..].
  apply (app_last_inj (fun c => c <> newline)) in E as [E Eo]; [|done|done|done].
  apply itoaZ_inj in Ex. split_and!; [|done|done]. by rewrite <- (str_raw (u_Operation u)), Eo, str_raw.
Qed.

Lemma clamp_expiry_bounds e : 1 <= clamp_expiry e <= 86400.
Proof. unfold clamp_expiry, defaultSignedURLExpiry, maxSignedURLExpiry. repeat case_goal; bool_to_prop; lia. Qed.

Section Facts.
Context `{JWTLaws} `{UUIDLaws}.
Implicit Types (g : config) (l : list issue) (q : request) (st : state).

(** The member of an object. *)
Fixpoint member (k : string) (l : list (string * option value)) : option value :=
  match l with
  | [] => None
  | (k', v) :: l => if String.eqb k' k then (match v with Some v => Some v | None => member k l end) else member k l
  end.

Lemma lookup_object (ms : list (string * option value)) k : object ms !! k = member k ms.
Proof.
  induction ms as [|[k' v] ms IH]; [apply lookup_empty|]. cbn [object foldr fst snd member]. fold (object ms).
  destruct (String.eqb_spec k' k) as [->|Hne], v; cbn [put]; rewrite <- ?IH; try done;
    [by rewrite lookup_insert_eq|by rewrite lookup_insert_ne].
Qed.

(** Members of the claims of an issued token. *)
Ltac members :=
  unfold registered, string_field, pstring_field, uuid_field, date_field, aud_field, sandbox_payload, identity_payload, capability_payload,
    edge_capability_payload, edge_sandbox_payload, session_payload, issued_claims, edge_claims, NewNumericDate;
  rewrite !lookup_object; cbn.

Lemma sandbox_members org id worker now ttl :
  unmarshal_sandbox (sandbox_payload org id worker now ttl) =
  Some {| s_reg := {| r_iss := "opensandbox"; r_aud := []; r_exp := Some ((now + ttl) / second); r_nbf := None |};
          s_OrgID := org; s_SandboxID := id; s_WorkerID := worker |}.
Proof. unfold unmarshal_sandbox. members. by rewrite Parse_String. Qed.

Lemma identity_members i now ttl :
  unmarshal_identity (identity_payload i now ttl) =
  Some {| i_reg := {| r_iss := "opensandbox"; r_aud := [n_Audience i]; r_exp := Some ((now + ttl) / second); r_nbf := None |};
          i_OrgID := n_OrgID i; i_UserID := n_UserID i; i_Email := n_Email i; i_WorkOSUserID := n_WorkOSUserID i |}.
Proof.
  unfold unmarshal_identity. members. by destruct (n_UserID i), (n_Email i), (n_WorkOSUserID i).
Qed.

Lemma capability_members org cell plan billing user now ttl :
  unmarshal_capability (edge_capability_payload org cell plan billing user now ttl) =
  Some {| k_reg := {| r_iss := CapabilityIssuer; r_aud := []; r_exp := Some ((now + ttl) / second); r_nbf := None |};
          k_OrgID := org; k_CellID := cell; k_UserID := user; k_Plan := plan; k_BillingProvider := billing |}.
Proof. unfold unmarshal_capability. members. unfold omitempty. destruct user, (String.eqb_spec billing ""); by subst. Qed.

Lemma edge_sandbox_members org id worker now ttl :
  unmarshal_sandbox (edge_sandbox_payload org id worker now ttl) =
  match uuid_Parse org with
  | Some o => Some {| s_reg := {| r_iss := "opensandbox"; r_aud := []; r_exp := Some ((now + ttl) / second); r_nbf := None |};
                      s_OrgID := o; s_SandboxID := id; s_WorkerID := worker |}
  | None => None
  end.
Proof. unfold unmarshal_sandbox. members. by destruct (uuid_Parse org). Qed.

(** The claims of an issued token. *)
Definition payload_of (i : issue) : option payload :=
  match i with
  | ISandbox _ org id worker now ttl => Some (sandbox_payload org id worker now ttl)
  | IIdentity _ i now ttl => Some (identity_payload i now ttl)
  | ICapability org cell plan billing user now ttl => Some (edge_capability_payload org cell plan billing user now ttl)
  | IEdgeSandbox org id worker now ttl => Some (edge_sandbox_payload org id worker now ttl)
  | ISession org user plan wsid now ttl => Some (session_payload org user plan wsid now ttl)
  | _ => None
  end.

(** The registered claims and the sandbox of an issued token. *)
Definition issued_registered (i : issue) : RegisteredClaims :=
  let claims iss aud now ttl := {| r_iss := iss; r_aud := aud; r_exp := Some ((now + ttl) / second); r_nbf := None |} in
  match i with
  | ISandbox _ _ _ _ now ttl | IEdgeSandbox _ _ _ now ttl => claims "opensandbox"%string [] now ttl
  | IIdentity _ i now ttl => claims "opensandbox"%string [n_Audience i] now ttl
  | ICapability _ _ _ _ _ now ttl => claims CapabilityIssuer [] now ttl
  | ISession _ _ _ _ now ttl => claims "opensandbox-session"%string [] now ttl
  | _ => {| r_iss := ""; r_aud := []; r_exp := None; r_nbf := None |}
  end.

Definition issued_sandbox (i : issue) : string :=
  match i with ISandbox _ _ id _ _ _ | IEdgeSandbox _ id _ _ _ => id | _ => "" end.

Lemma payload_members i p : payload_of i = Some p ->
  registered p = Some (issued_registered i) /\ string_field p "sandbox_id" = Some (issued_sandbox i).
Proof. destruct i; intros E; simplify_eq/=; by members. Qed.

(** The text that is signed, of a token, decodes to its claims. *)
Lemma token_message i p : payload_of i = Some p ->
  exists t, Decode t = Some (SigningMethodHMAC SHA256, p, message i, []).
Proof. destruct i; intros E; simplify_eq/=; eexists; first [apply Decode_Assemble | apply Decode_Edge]. Qed.

(** A text that is signed for another purpose is not that of a token. *)
Lemma url_not_token u : ~ Forall token_char (signPayload u).
Proof. intros Hc. unfold signPayload in Hc. apply Forall_app in Hc as [_ Hc]. inversion Hc as [|? ? [Hn _]]. by apply Hn. Qed.

Lemma message_token i : Forall token_char (message i) -> exists p, payload_of i = Some p.
Proof.
  destruct i as [| | |n u|id| |]; try by (intros; eexists).
  - intros Hc. by apply url_not_token in Hc.
  - intros Hc. exfalso. apply Forall_app in Hc as [Hc _]. rewrite List.Forall_forall in Hc.
    destruct (Hc ":"%char) as [_ Hn]; [cbn; auto 10|by apply Hn].
Qed.

(** A token whose signature verifies is one that was issued. *)
Lemma accepted_issue g l k t h p s sg :
  jwtIssuer g = Some k \/ capTokenIssuer g = Some k -> Forall (unforged g l) (token_parts (Some t)) ->
  Decode t = Some (SigningMethodHMAC h, p, s, sg) -> sg = HMAC h k s ->
  exists i, i ∈ l /\ payload_of i = Some p.
Proof.
  intros Hk Hu Hd Hs. unfold token_parts in Hu. rewrite Hd in Hu. inversion Hu as [|? ? Hx]; subst.
  destruct (Hx h k Hk eq_refl) as (-> & i & Hi & _ & Hm). cbn [fst] in Hm. exists i. split; [done|].
  destruct (message_token i) as (p' & Hp); [rewrite Hm; by eapply Decode_chars|].
  destruct (token_message i p' Hp) as [t' Ht']. rewrite Hm in Ht'. rewrite Hp. f_equal.
  by destruct (Decode_text _ _ _ _ _ _ _ _ _ Ht' Hd) as [_ ->].
Qed.

(** What parsing says of an issued token. *)
Lemma parsed_issue {T} (u : payload -> option T) reg o now g l k t c :
  jwtIssuer g = Some k \/ capTokenIssuer g = Some k -> Forall (unforged g l) (token_parts (Some t)) ->
  ParseWithClaims u reg o now (keyFunc k) t = Some c ->
  exists i p, i ∈ l /\ payload_of i = Some p /\ u p = Some c /\ Valid o now (reg c).
Proof.
  intros Hk Hu Hp. apply Parse_spec in Hp as (h & p & s & sg & k' & Hd & Hc & Hkey & Hs & Hv).
  cbn [keyFunc] in Hkey. injection Hkey as <-.
  destruct (accepted_issue g l k t h p s sg Hk Hu Hd Hs) as (i & Hi & Hp). by exists i, p.
Qed.

Lemma identity_registered p c : unmarshal_identity p = Some c -> registered p = Some (i_reg c).
Proof.
  unfold unmarshal_identity. destruct (registered p) as [r|]; [|done]. cbn.
  repeat (match goal with |- context [?x ≫= _] => destruct x; cbn; [|done] end). by intros [= <-].
Qed.

Lemma capability_registered p c : unmarshal_capability p = Some c -> registered p = Some (k_reg c).
Proof.
  unfold unmarshal_capability. destruct (registered p) as [r|]; [|done]. cbn.
  repeat (match goal with |- context [?x ≫= _] => destruct x; cbn; [|done] end). by intros [= <-].
Qed.

Lemma sandbox_registered p c : unmarshal_sandbox p = Some c ->
  registered p = Some (s_reg c) /\ string_field p "sandbox_id" = Some (s_SandboxID c).
Proof.
  unfold unmarshal_sandbox. destruct (registered p) as [r|]; [|done]. cbn.
  repeat (match goal with |- context [?x ≫= _] => destruct x; cbn; [|done] end). by intros [= <-].
Qed.

(** Not run out: the dates inside tokens are whole seconds. *)
Definition alive (issued ttl now : Z) : Prop := now < (issued + ttl) / second * second.

Lemma valid_identity g l k now t aud c :
  jwtIssuer g = Some k -> Forall (unforged g l) (token_parts (Some t)) -> ValidateIdentityToken k now t aud = Some c ->
  exists dash i n ttl, IIdentity dash i n ttl ∈ l /\ n_Audience i = aud /\ n_OrgID i = i_OrgID c /\ alive n ttl now.
Proof.
  intros Hk Hu Hv. unfold ValidateIdentityToken in Hv.
  eapply (parsed_issue _ _ _ _ g l) in Hv as (i & p & Hi & Hp & Hc & He & _ & Hiss & Haud); [|by left|done].
  pose proof (identity_registered p c Hc) as Hr. destruct (payload_members i p Hp) as [Hr' _]. rewrite Hr' in Hr. injection Hr as Hr.
  cbn in Hiss, Haud. rewrite <- Hr in Hiss, Haud, He. destruct i as [| dash i n ttl| | | | |]; try done; cbn [payload_of issued_registered r_iss r_aud r_exp] in *.
  - by apply elem_of_nil in Haud.
  - apply list_elem_of_singleton in Haud. simplify_eq. rewrite identity_members in Hc. simplify_eq. by exists dash, i, n, ttl.
  - by apply elem_of_nil in Haud.
Qed.

Lemma valid_capability g l k now t c :
  capTokenIssuer g = Some k -> Forall (unforged g l) (token_parts (Some t)) -> ValidateCapabilityToken k now t = Some c ->
  exists plan billing user n ttl, ICapability (k_OrgID c) (k_CellID c) plan billing user n ttl ∈ l /\ alive n ttl now.
Proof.
  intros Hk Hu Hv. unfold ValidateCapabilityToken in Hv. case_hyp Hv; [|done]. case_hyp Hv; [done|]. simplify_eq.
  eapply (parsed_issue _ _ _ _ g l) in Heqo as (i & p & Hi & Hp & Hc & He & _ & Hiss & _); [|by right|done].
  pose proof (capability_registered p c Hc) as Hr. destruct (payload_members i p Hp) as [Hr' _]. rewrite Hr' in Hr. injection Hr as Hr.
  cbn in Hiss. rewrite <- Hr in Hiss, He. destruct i as [| | org cell plan billing user n ttl| | | |]; try done; cbn [payload_of issued_registered r_iss r_aud r_exp] in *.
  simplify_eq. rewrite capability_members in Hc. simplify_eq. by exists plan, billing, user, n, ttl.
Qed.

(** Some token of the sandbox has been signed, and has not run out. *)
Definition token_for (l : list issue) (org : N) (id worker : string) (now : Z) : Prop :=
  (exists r n ttl, ISandbox r org id worker n ttl ∈ l /\ alive n ttl now) \/
  (exists o n ttl, IEdgeSandbox o id worker n ttl ∈ l /\ uuid_Parse o = Some org /\ alive n ttl now).

(** The control plane or the edge, not a worker, has signed a token of the sandbox. *)
Definition granted (l : list issue) (org : N) (id worker : string) : Prop :=
  (exists n ttl, ISandbox false org id worker n ttl ∈ l) \/
  (exists o n ttl, IEdgeSandbox o id worker n ttl ∈ l /\ uuid_Parse o = Some org).

Lemma valid_sandbox g l k now t c :
  jwtIssuer g = Some k -> Forall (unforged g l) (token_parts (Some t)) -> ValidateSandboxToken k now t = Some c ->
  s_SandboxID c <> ""%string -> token_for l (s_OrgID c) (s_SandboxID c) (s_WorkerID c) now.
Proof.
  intros Hk Hu Hv Hid. unfold ValidateSandboxToken in Hv.
  eapply (parsed_issue _ _ _ _ g l) in Hv as (i & p & Hi & Hp & Hc & He & _); [|by left|done].
  destruct (sandbox_registered p c Hc) as [Hr Hs]. destruct (payload_members i p Hp) as [Hr' Hs']. rewrite Hr' in Hr. injection Hr as Hr.
  rewrite Hs' in Hs. injection Hs as Hs. rewrite <- Hr in He. destruct i as [r org id worker n ttl| | | | |o id worker n ttl|];
    cbn [payload_of issued_registered issued_sandbox r_iss r_aud r_exp] in *; try (by rewrite <- Hs in Hid);
    injection Hp as <-; [rewrite sandbox_members in Hc|rewrite edge_sandbox_members in Hc].
  - injection Hc as <-. left. by exists r, n, ttl.
  - destruct (uuid_Parse o) as [org|] eqn:Eo; [|done]. injection Hc as <-. right. by exists o, n, ttl.
Qed.

(** ** What a request can show *)

Lemma honest_bearer g l q t : honest g l q -> bearer (q_Authorization q) = Some t -> Forall (unforged g l) (token_parts (Some t)).
Proof. intros Hh Hb. unfold honest, presented in Hh. rewrite Hb in Hh. by apply Forall_app in Hh as [Hh _]. Qed.

Lemma honest_key g l q : honest g l q -> Forall (unforged g l) (token_parts (Some (api_key q))).
Proof. unfold honest, presented. rewrite !Forall_app. tauto. Qed.

Lemma honest_sandbox g l q t : honest g l q -> sandbox_token q = Some t -> Forall (unforged g l) (token_parts (Some t)).
Proof. intros Hh Hb. unfold honest, presented in Hh. rewrite Hb, !Forall_app in Hh. tauto. Qed.

Lemma honest_url g l q op : honest g l q -> op = "download"%string \/ op = "upload"%string -> Forall (unforged g l) (url_parts op q).
Proof. unfold honest, presented. rewrite !Forall_app. intros Hh [->| ->]; tauto. Qed.

Lemma set_user_org u c : c_org (set_user u c) = c_org c.
Proof. unfold set_user. by repeat case_goal. Qed.

Lemma identity_org claims c c' : applyIdentityClaims claims c = Next c' ->
  exists o, uuid_Parse (i_OrgID claims) = Some o /\ c_org c' = Some o.
Proof.
  unfold applyIdentityClaims. destruct (uuid_Parse (i_OrgID claims)) as [o|]; [|done]. intros [= <-]. exists o. split; [done|].
  destruct (i_Email claims); cbn; by rewrite set_user_org.
Qed.

Lemma capability_org g claims c c' : apply_capability g claims c = Next c' ->
  exists o, uuid_Parse (k_OrgID claims) = Some o /\ c_org c' = Some o /\ (cellID g = ""%string \/ k_CellID claims = cellID g).
Proof.
  unfold apply_capability. destruct (negb _ && negb _) eqn:E; [done|].
  destruct (uuid_Parse (k_OrgID claims)) as [o|]; [|done]. intros [= <-]. exists o. split_and!; [done|cbn; by rewrite set_user_org|].
  destruct (String.eqb_spec (cellID g) ""), (String.eqb_spec (k_CellID claims) (cellID g)); auto. done.
Qed.

Lemma static_key_org k q c c' : APIKeyMiddleware k q c = Next c' -> c' = c.
Proof. unfold APIKeyMiddleware. repeat case_goal; congruence. Qed.

(** An API key of the organisation that has not run out. *)
Definition key_of (now : Z) (t : option (list APIKey)) (q : request) (o : N) : Prop :=
  exists rows r, t = Some rows /\ r ∈ rows /\ a_KeyHash r = HashAPIKey (api_key q) /\ a_OrgID r = o /\
    match a_ExpiresAt r with Some e => now <= e | None => True end.

Lemma ValidateAPIKey_row now key t t' o u : ValidateAPIKey now key t = (t', Some (o, u)) ->
  exists r, r ∈ t /\ a_KeyHash r = HashAPIKey key /\ a_OrgID r = o /\ match a_ExpiresAt r with Some e => now <= e | None => True end.
Proof.
  unfold ValidateAPIKey. destruct (List.find _ t) as [r|] eqn:Ef; [|done]. apply List.find_some in Ef as [Hr Hh].
  apply bool_decide_eq_true in Hh. destruct (a_ExpiresAt r) as [e|] eqn:Ee.
  - destruct (e <? now) eqn:E; [done|]. intros [= <- <- <-]. exists r. rewrite list_elem_of_In, Ee. bool_to_prop. done.
  - intros [= <- <- <-]. exists r. by rewrite list_elem_of_In, Ee.
Qed.

(** An identity token for the API, and a capability token for this cell. *)
Definition identity_of (now : Z) (l : list issue) (o : N) : Prop :=
  exists dash i n ttl, IIdentity dash i n ttl ∈ l /\ n_Audience i = AudOpenComputerAPI /\ uuid_Parse (n_OrgID i) = Some o /\ alive n ttl now.

Definition capability_of (now : Z) (g : config) (l : list issue) (o : N) : Prop :=
  exists org cell plan billing user n ttl, ICapability org cell plan billing user n ttl ∈ l /\ uuid_Parse org = Some o /\
    (cellID g = ""%string \/ cell = cellID g) /\ alive n ttl now.

Lemma api_grant g now st q t c o :
  honest g (log st) q -> PGAPIKeyMiddleware g now (keys st) q fresh = (t, Next c) -> c_org c = Some o ->
  key_of now (keys st) q o \/ identity_of now (log st) o \/ capability_of now g (log st) o.
Proof.
  intros Hh E Ho. unfold PGAPIKeyMiddleware in E. case_hyp E; [injection E as _ E; apply static_key_org in E; by subst|].
  destruct (identity_bearer g now q) as [cl|] eqn:Ei.
  { injection E as _ E. apply identity_org in E as (o' & Hp & Ho'). unfold identity_bearer in Ei.
    destruct (jwtIssuer g) as [k|] eqn:Ek; [|done]. cbn in Ei. destruct (bearer _) as [tk|] eqn:Eb; [|done]. cbn in Ei.
    eapply valid_identity in Ei as (d & i & n & ttl & Hi & Ha & Hn & Hl); [|done|by eapply honest_bearer].
    right; left. exists d, i, n, ttl. rewrite Hn. split_and!; congruence. }
  destruct (capability_bearer g now q) as [cl|] eqn:Ec.
  { injection E as _ E. apply capability_org in E as (o' & Hp & Ho' & Hcell). unfold capability_bearer in Ec.
    destruct (capTokenIssuer g) as [k|] eqn:Ek; [|done]. cbn in Ec. destruct (bearer _) as [tk|] eqn:Eb; [|done]. cbn in Ec.
    eapply valid_capability in Ec as (plan & billing & u & n & ttl & Hi & Hl); [|done|by eapply honest_bearer].
    right; right. eexists _, _, plan, billing, u, n, ttl. split_and!; [exact Hi|congruence|naive_solver|done]. }
  destruct (identity_key g now (api_key q)) as [cl|] eqn:Eik.
  { injection E as _ E. apply identity_org in E as (o' & Hp & Ho'). unfold identity_key in Eik.
    destruct (jwtIssuer g) as [k|] eqn:Ek; [|done]. case_hyp Eik; [|done].
    eapply valid_identity in Eik as (d & i & n & ttl & Hi & Ha & Hn & Hl); [|done|by apply honest_key].
    right; left. exists d, i, n, ttl. rewrite Hn. split_and!; congruence. }
  left. destruct (keys st) as [rows|].
  - case_hyp E; [done|]. destruct (ValidateAPIKey now (api_key q) rows) as [t' [[o' u]|]] eqn:Ev; [|done].
    apply ValidateAPIKey_row in Ev as (r & Hr & Hh' & Hor & Hx). injection E as _ <-. exists rows, r.
    destruct u; cbn in Ho; by simplify_eq.
  - repeat case_hyp E; injection E as _ E; [by subst|done|]. apply static_key_org in E. by subst.
Qed.

Lemma worker_grant g secret now l q c :
  honest g l q -> jwtIssuer g = Some secret -> SandboxJWTMiddleware secret now q fresh = Next c -> q_id q <> ""%string ->
  exists org worker, token_for l org (q_id q) worker now /\
    c_org c = Some org /\ c_sandbox_id c = Some (q_id q) /\ c_worker_id c = Some worker.
Proof.
  intros Hh Hk E Hid. unfold SandboxJWTMiddleware in E. destruct (sandbox_token q) as [tk|] eqn:Et; [|done].
  destruct (ValidateSandboxToken secret now tk) as [cl|] eqn:Ev; [|done]. case_hyp E; [done|]. injection E as <-.
  destruct (String.eqb_spec (q_id q) "") as [|_]; [done|]. destruct (String.eqb_spec (s_SandboxID cl) (q_id q)) as [Hs|]; [|done].
  eapply valid_sandbox in Ev; [|done|by eapply honest_sandbox|by rewrite Hs].
  rewrite Hs in Ev. exists (s_OrgID cl), (s_WorkerID cl). cbn. by rewrite Hs.
Qed.

(** The edge's tokens are read from the Authorization header only: in the place of the API
    key they are not taken for tokens. *)
Lemma capability_not_a_key g now k org cell plan billing user n ttl :
  let p := edge_capability_payload org cell plan billing user n ttl in
  identity_key g now (Assemble (EdgeString p) (HMAC SHA256 k (EdgeString p))) = None.
Proof.
  cbv zeta. unfold identity_key. destruct (jwtIssuer g) as [k'|]; [|done]. case_goal; [|done].
  destruct (ValidateIdentityToken _ _ _ _) as [c|] eqn:E; [|done]. exfalso. unfold ValidateIdentityToken in E.
  apply Parse_spec in E as (h & p & t & sg & k'' & Hd & Hc & _ & _ & _ & _ & Hi & _).
  rewrite Decode_Edge in Hd. injection Hd as <- <- <- <-. apply identity_registered in Hc.
  destruct (payload_members (ICapability org cell plan billing user n ttl) _ eq_refl) as [Hr _]. rewrite Hr in Hc. injection Hc as Hc.
  rewrite <- Hc in Hi. done.
Qed.

(** The text that is signed does not say where the identifier ends and the path begins. *)
Lemma signPayload_ambiguous op e :
  let nl s t := str (raw s ++ newline :: raw t) in
  signPayload {| u_SandboxID := "sb-1"; u_Path := nl "/a"%string "b"%string; u_Operation := op; u_ExpiresAt := e |} =
  signPayload {| u_SandboxID := nl "sb-1"%string "/a"%string; u_Path := "b"; u_Operation := op; u_ExpiresAt := e |}.
Proof. reflexivity. Qed.

(** ** Histories *)

(** What a worker signs anew was signed by the control plane or the edge; tokens that requests obtain
    are for the agents service only; URLs live as long as they may. *)
Record wf (l : list issue) : Prop := {
  wf_refresh : forall org id worker n ttl, ISandbox true org id worker n ttl ∈ l -> id <> ""%string -> granted l org id worker;
  wf_identity : forall i n ttl, IIdentity false i n ttl ∈ l -> n_Audience i = AudSessionsAPI;
  wf_url : forall n u, IURL n u ∈ l -> exists e, u = signed_params n (u_SandboxID u) (u_Path u) (u_Operation u) e /\
    (u_Operation u = "download"%string \/ u_Operation u = "upload"%string)
}.

Lemma granted_cons i l org id worker : granted l org id worker -> granted (i :: l) org id worker.
Proof.
  intros [(n & ttl & Hin)|(o & n & ttl & Hin & Ho)]; [left; exists n, ttl; by right|right; exists o, n, ttl].
  split; [by right|done].
Qed.

(** A token that has been signed goes back to one that was granted. *)
Lemma wf_granted l org id worker now : wf l -> id <> ""%string -> token_for l org id worker now -> granted l org id worker.
Proof.
  intros Hw Hid [([] & n & ttl & Hin & _)|(o & n & ttl & Hin & Ho & _)]; [by eapply wf_refresh|left|right]; eauto.
Qed.

(** Adding something that is itself well formed. *)
Lemma wf_add i l : wf l ->
  match i with
  | ISandbox true org id worker _ _ => id <> ""%string -> granted l org id worker
  | IIdentity false i _ _ => n_Audience i = AudSessionsAPI
  | IURL n u => exists e, u = signed_params n (u_SandboxID u) (u_Path u) (u_Operation u) e /\
      (u_Operation u = "download"%string \/ u_Operation u = "upload"%string)
  | _ => True
  end -> wf (i :: l).
Proof.
  intros [H1' H2' H3'] Hi. split.
  - intros org id worker n ttl [<-|Hin]%elem_of_cons Hid; apply granted_cons; [by apply Hi|by eapply H1'].
  - intros j n ttl [<-|Hin]%elem_of_cons; [done|by eapply H2'].
  - intros n u [<-|Hin]%elem_of_cons; [done|by apply H3'].
Qed.

Lemma createAuthToken_audience g users now c i : createAuthToken g users now c = Ok i -> n_Audience i = AudSessionsAPI.
Proof. unfold createAuthToken. repeat case_goal; intros; by simplify_eq. Qed.

Lemma createSignedURL_params g now id b path e op u query : createSignedURL g now id b path e op = Ok (u, query) ->
  u = signed_params now id path op e.
Proof. unfold createSignedURL. repeat case_goal; intros; by simplify_eq. Qed.

Lemma step_wf g users st st' : step g users st st' -> wf (log st) -> wf (log st').
Proof.
  intros Hs Hw. destruct Hs as [| | | | | |c now i j st Hd|q now t c i st Hh Hm Hc|q now t c op path e u query st Hh Hm Hop Hc|
    q now secret c org id worker st Hh Hk Hm Hc]; cbn [log sign app]; try (by apply wf_add); [done| | | |].
  - by apply wf_add; [apply wf_add|].
  - apply wf_add; [done|]. by eapply createAuthToken_audience.
  - apply createSignedURL_params in Hc. subst u. apply wf_add; [done|]. by exists e.
  - apply wf_add; [done|]. intros Hid. unfold refreshToken in Hc. rewrite Hk in Hc. injection Hc as Ho Hi Hwk. subst id.
    destruct (worker_grant g secret now (log st) q c Hh Hk Hm Hid) as (o & w & Hin & Eo & _ & Ew).
    rewrite Eo in Ho. rewrite Ew in Hwk. subst o w. by eapply wf_granted.
Qed.

Lemma auth_history_wf g users st : reachable g users st -> wf (log st).
Proof.
  intros [t Hr]. remember {| log := []; keys := t |} as s0 eqn:E. assert (wf (log s0)) as Hw.
  { subst. cbn. split; intros; by apply not_elem_of_nil in H3. }
  clear E. induction Hr as [|s1 s2 s3 Hs Hr IH]; [done|]. by apply IH, (step_wf g users s1).
Qed.

(** C7. The control plane lets a request in as an organisation only if it was granted that:
    whatever credentials the control plane, the workers and the edge signed and requests
    exchanged before, the request carries an API key of that organisation, an identity
    token that the dashboard was given for the API, or a capability token that the edge
    signed, for this cell where the cell has a name, and what it carries has not run out.
    Tokens that a customer obtains for the agents service, sandbox tokens of the control
    plane and of the edge, the sessions of browsers, connect tokens and signed URLs do not
    open the API, even if the secrets are the same. *)
Theorem api_admits_granted g users st q now t c o :
  reachable g users st -> honest g (log st) q -> PGAPIKeyMiddleware g now (keys st) q fresh = (t, Next c) -> c_org c = Some o ->
  key_of now (keys st) q o \/
  (exists i n ttl, IIdentity true i n ttl ∈ log st /\ n_Audience i = AudOpenComputerAPI /\ uuid_Parse (n_OrgID i) = Some o /\
    alive n ttl now) \/
  capability_of now g (log st) o.
Proof.
  intros Hr Hh E Ho. pose proof (auth_history_wf g users st Hr) as Hw.
  destruct (api_grant g now st q t c o Hh E Ho) as [Hk|[(d & i & n & ttl & Hi & Ha & Hp & Hl)|Hc]]; [by left| |by right; right].
  right; left. exists i, n, ttl. destruct d; [done|]. by rewrite (wf_identity _ Hw _ _ _ Hi) in Ha.
Qed.

(** C8. A worker lets a request in to a sandbox only if that was granted: a token for that
    sandbox, organisation and worker was signed that has not run out, and however often it
    was refreshed by workers, the control plane or the edge signed one for the same sandbox,
    organisation and worker. Identity and capability tokens, the sessions of browsers,
    connect tokens and signed URLs open no sandbox, even if the secrets are the same. *)
Theorem worker_admits_granted g users st q now secret c :
  reachable g users st -> honest g (log st) q -> jwtIssuer g = Some secret ->
  SandboxJWTMiddleware secret now q fresh = Next c -> q_id q <> ""%string ->
  exists org worker, c_org c = Some org /\ c_worker_id c = Some worker /\ c_sandbox_id c = Some (q_id q) /\
    token_for (log st) org (q_id q) worker now /\ granted (log st) org (q_id q) worker.
Proof.
  intros Hr Hh Hk E Hid. pose proof (auth_history_wf g users st Hr) as Hw.
  destruct (worker_grant g secret now (log st) q c Hh Hk E Hid) as (org & worker & Hl & Ho & Hs & Hwk).
  exists org, worker. split_and!; [done..|by eapply wf_granted].
Qed.

Lemma verified_url secret now u sig : VerifyURL secret now u sig = None ->
  now <= u_ExpiresAt u /\ Keyring.hex_DecodeString sig = Some (HMAC SHA256 secret (signPayload u)).
Proof.
  unfold VerifyURL. destruct (u_ExpiresAt u <? now) eqn:E; [done|]. destruct (Keyring.hex_DecodeString sig) as [b|]; [|done].
  unfold SignURL. rewrite hex_roundtrip. case_bool_decide; [|done]. bool_to_prop. by subst.
Qed.

(** C9. A file is served by a signed URL only if that was granted: an URL was signed for the
    same operation, which runs out in the second that the request names, not before now and
    at most a day after it was signed. What it was signed for, read as the sandbox and the
    path with a line break between them, is what the request names: as long as the
    identifiers of sandboxes hold no line break, it is the same sandbox and the same path.
    No token, of the edge's neither, passes for a signature. *)
Theorem signed_url_granted g users st q now op id path :
  reachable g users st -> honest g (log st) q -> op = "download"%string \/ op = "upload"%string ->
  signed_request g now op q = Ok (id, path) ->
  exists n u e, IURL n u ∈ log st /\ u_Operation u = op /\ now <= u_ExpiresAt u <= n + 86400 * second /\
    ParseExpiresUnix (q_expires q) = Some e /\ u_ExpiresAt u / second = e / second /\ now <= e /\
    raw (u_SandboxID u) ++ newline :: raw (u_Path u) = raw id ++ newline :: raw path /\
    (no_newline (u_SandboxID u) -> no_newline id -> u_SandboxID u = id /\ u_Path u = path).
Proof.
  intros Hr Hh Hop E. pose proof (auth_history_wf g users st Hr) as Hw. unfold signed_request in E.
  destruct (jwtIssuer g) as [k|] eqn:Ek; [|done]. case_hyp E; [done|].
  destruct (ParseExpiresUnix (q_expires q)) as [e|] eqn:Ee; [|done]. case_hyp E; [done|]. injection E as <- <-.
  apply verified_url in Heqo as [Hnow Hsig]. cbn [u_ExpiresAt] in Hnow.
  pose proof (honest_url g (log st) q op Hh Hop) as Hu. unfold url_parts in Hu. rewrite Ee, Hsig in Hu.
  inversion Hu as [|? ? Hx]; subst. destruct (Hx SHA256 k (or_introl Ek) eq_refl) as (_ & i & Hi & _ & Hm). cbn [fst] in Hm.
  assert (exists n u, i = IURL n u) as (n & u & ->).
  { destruct (payload_of i) as [p|] eqn:Hp; [|destruct i as [| | |n u|id'| |]; try done; by exists n, u]. exfalso.
    eapply url_not_token. rewrite <- Hm. destruct (token_message i p Hp) as [t' Ht']. by eapply Decode_chars. }
  destruct (wf_url _ Hw n u Hi) as (ein & Hp & Hopu). exists n, u, e.
  assert (forall o, o = "download"%string \/ o = "upload"%string -> no_newline o) as Hnl.
  { intros o [->| ->]; cbn; repeat (constructor; [done|]); constructor. }
  apply signPayload_inj in Hm as (E1 & E2 & E3); [|by apply Hnl..]. cbn [u_Operation u_ExpiresAt u_SandboxID u_Path] in E1, E2, E3.
  unfold ParseExpiresUnix in Ee. destruct (ParseInt (raw (q_expires q))) as [x|]; [|done].
  injection Ee as <-. pose proof E2 as E2'. rewrite Z.div_mul in E2 by done. pose proof (clamp_expiry_bounds ein) as Hb.
  assert (u_ExpiresAt u = n + clamp_expiry ein * second) as Hx' by by rewrite Hp.
  pose proof (Z.mul_div_le (u_ExpiresAt u) second eq_refl) as Hd.
  split_and!; [done|done|lia|rewrite Hx'; unfold second; lia|done|done|done|done|]. intros Hid Hid'.
  apply (app_sep_inj (fun c => c <> newline)) in E3 as [E3 E4]; [|by intros Hn; apply Hn|done|done].
  split; [by rewrite <- (str_raw (u_SandboxID u)), E3, str_raw|by rewrite <- (str_raw (u_Path u)), E4, str_raw].
Qed.

Lemma expires_nonempty u : String.eqb (str (ExpiresAtUnix u)) "" = false.
Proof.
  unfold ExpiresAtUnix, itoaZ. destruct (itoa_spec (Z.to_N (u_ExpiresAt u / second))) as (Hne & _). destruct (_ <? 0); [done|].
  by destruct (itoa _).
Qed.

Lemma signature_nonempty `{!CryptoLaws H} k m : String.eqb (str (hex_EncodeToString (HMAC SHA256 k m))) "" = false.
Proof. pose proof (HMAC_length k m) as Hl. by destruct (HMAC SHA256 k m). Qed.

(** A query string as the server reads it, with the sandbox of the path. *)
Definition url_request (id : string) (query : bytes) : request :=
  {| q_Authorization := ""; q_XAPIKey := ""; q_api_key := ""; q_token := ""; q_path := QueryParam "path" query;
     q_expires := QueryParam "expires" query; q_signature := QueryParam "signature" query; q_id := id |}.

(** The URL that is given out works, for the operation it was signed for, on any path
    whatever characters it holds, until the second it names, and is refused from then on;
    it lives a day at most. *)
Theorem signed_url_roundtrip `{!CryptoLaws H} g now id path expiresIn op u query t :
  createSignedURL g now id true path expiresIn op = Ok (u, query) -> 0 <= now < 2 ^ 63 ->
  let last := u_ExpiresAt u / second * second in
  now + 86400 * second >= u_ExpiresAt u /\ now < last /\
  signed_request g t op (url_request id query) = if last <? t then Err 403 else Ok (id, path).
Proof.
  intros E Hnow last. pose proof (createSignedURL_params _ _ _ _ _ _ _ _ _ E) as Hu. pose proof (clamp_expiry_bounds expiresIn) as Hb.
  unfold createSignedURL in E. destruct (jwtIssuer g) as [k|] eqn:Ek; [|done]. cbn [negb] in E.
  destruct (String.eqb_spec path "") as [|Hpath]; [done|]. injection E as _ <-. rewrite <- Hu.
  assert (u_ExpiresAt u = now + clamp_expiry expiresIn * second) as Hx by by rewrite Hu.
  pose proof (Z.div_mod (u_ExpiresAt u) second ltac:(done)) as Hdm.
  pose proof (Z.mod_pos_bound (u_ExpiresAt u) second ltac:(done)) as Hmod.
  assert (now < last) as Hlast by (unfold last, second in *; lia).
  split_and!; [rewrite Hx; unfold second; lia|done|].
  destruct (signed_query_params path u (HMAC SHA256 k (signPayload u))) as (Q1 & Q2 & Q3).
  unfold signed_request, url_request. rewrite Ek. unfold SignURL. cbn [q_path q_expires q_signature q_id]. rewrite Q1, Q2, Q3.
  rewrite (proj2 (String.eqb_neq path "") Hpath), expires_nonempty, signature_nonempty. cbn [orb].
  unfold ParseExpiresUnix, ExpiresAtUnix. rewrite raw_str, ParseInt_FormatInt by (unfold last, second in *; lia). fold last.
  unfold VerifyURL. cbn [u_ExpiresAt]. destruct (last <? t); [done|]. rewrite raw_str, hex_roundtrip.
  unfold SignURL. rewrite hex_roundtrip, bool_decide_true; [done|].
  unfold signPayload, ExpiresAtUnix. cbn [u_SandboxID u_Path u_Operation u_ExpiresAt]. unfold last. rewrite Z.div_mul by done.
  by rewrite Hu.
Qed.

End Facts.

(** ** Instances *)

(** A keyed checksum, tokens in binary and numbers as UUIDs satisfy what is relied on. *)
Definition hash_char (h : hash) : ascii := match h with SHA256 => "1" | SHA384 => "2" | SHA512 => "3" end.

#[local] Instance toy_crypto : Crypto :=
  {| HMAC h k m := take 32 (hash_char h :: ascii_of_nat (length m) :: k ++ repeat "0"%char 32); Sum256 m := m |}.
#[local] Instance toy_crypto_laws : CryptoLaws toy_crypto.
Proof. split. intros k m. cbn [HMAC toy_crypto]. rewrite length_take. cbn [length]. rewrite length_app, repeat_length. lia. Qed.

#[local] Instance toy_uuid : UUIDLib :=
  {| uuid_String u := str (itoa u); uuid_Parse s := if forallb is_digit (raw s) then Some (digits_val (raw s)) else None |}.
#[local] Instance toy_uuid_laws : UUIDLaws toy_uuid.
Proof. split. intros u. cbn [uuid_Parse uuid_String toy_uuid]. rewrite raw_str, itoa_forallb. by destruct (itoa_spec u) as (_ & _ & ->). Qed.

#[local] Instance value_eq_dec : EqDecision value.
Proof. solve_decision. Defined.
#[local] Instance value_countable : Countable value.
Proof.
  refine (inj_countable'
    (fun v => match v with VNull => inl (inl None) | VString s => inl (inr s) | VNumber n => inr (inl n)
              | VStrings l => inr (inr l) | VOther => inl (inl (Some tt)) end)
    (fun x => match x with inl (inl None) => VNull | inl (inl (Some _)) => VOther | inl (inr s) => VString s
              | inr (inl n) => VNumber n | inr (inr l) => VStrings l end) _).
  by intros [].
Defined.

Fixpoint bits (p : positive) : bytes :=
  match p with xH => [] | xO p => "0"%char :: bits p | xI p => "1"%char :: bits p end.
Fixpoint unbits (b : bytes) : option positive :=
  match b with
  | [] => Some xH
  | "0"%char :: b => xO <$> unbits b
  | "1"%char :: b => xI <$> unbits b
  | _ => None
  end.

Lemma unbits_bits p : unbits (bits p) = Some p.
Proof. by induction p as [p IH|p IH|]; cbn; rewrite ?IH. Qed.

Lemma unbits_chars b p : unbits b = Some p -> Forall (fun c => c = "0"%char \/ c = "1"%char) b.
Proof.
  revert p. induction b as [|c b IH]; intros p; [constructor|].
  destruct (decide (c = "0"%char)) as [->|H0]; [|destruct (decide (c = "1"%char)) as [->|H1]].
  - cbn. destruct (unbits b) eqn:E; [|done]. intros _. constructor; [by left|by eapply IH].
  - cbn. destruct (unbits b) eqn:E; [|done]. intros _. constructor; [by right|by eapply IH].
  - intros E. exfalso. destruct c as [[] [] [] [] [] [] [] []]; done.
Qed.

#[local] Instance Valid_dec o now r : Decision (Valid o now r).
Proof. unfold Valid. destruct (r_exp r), (r_nbf r), (o_iss o), (o_aud o); apply _. Defined.

Definition toy_decode (t : string) : option (SigningMethod * payload * bytes * bytes) :=
  match Cut "." (raw t) with
  | (s, Some g) => match unbits s ≫= decode with Some p => Some (SigningMethodHMAC SHA256, p, s, g) | None => None end
  | _ => None
  end.

#[local] Instance toy_jwt : JWTLib := {|
  SigningString p := bits (encode p);
  EdgeString p := bits (encode p);
  Assemble s g := str (s ++ "."%char :: g);
  Decode := toy_decode;
  ParseWithClaims T u reg o now keyFunc t :=
    match toy_decode t with
    | Some (m, p, s, g) =>
        match u p, keyFunc m with
        | Some c, Some k => if decide (g = HMAC SHA256 k s /\ Valid o now (reg c)) then Some c else None
        | _, _ => None
        end
    | None => None
    end
|}.

Lemma toy_decode_inv t m p s g : toy_decode t = Some (m, p, s, g) ->
  m = SigningMethodHMAC SHA256 /\ unbits s ≫= decode = Some p.
Proof. unfold toy_decode. destruct (Cut _ _) as [s' [g'|]]; [|done]. case_goal; intros; by simplify_eq. Qed.

Lemma toy_decode_signed p g : toy_decode (str (bits (encode p) ++ "."%char :: g)) = Some (SigningMethodHMAC SHA256, p, bits (encode p), g).
Proof.
  unfold toy_decode. rewrite raw_str, Cut_sep.
  - by rewrite unbits_bits; cbn; rewrite decode_encode.
  - eapply Forall_impl; [apply (unbits_chars _ _ (unbits_bits (encode p)))|]. by intros c [->| ->].
Qed.

#[local] Instance toy_jwt_laws : JWTLaws toy_jwt.
Proof.
  split.
  - apply toy_decode_signed.
  - apply toy_decode_signed.
  - intros t t' m m' p p' s g g' [-> E]%toy_decode_inv [-> E']%toy_decode_inv. rewrite E in E'. by simplify_eq.
  - intros t m p s g [_ E]%toy_decode_inv. destruct (unbits s) as [x|] eqn:Es; [|done].
    eapply Forall_impl; [by eapply unbits_chars|]. by intros c [->| ->].
  - intros T u reg o now kf t c. cbn [ParseWithClaims toy_jwt Decode]. split.
    + destruct (toy_decode t) as [[[[m p] s] g]|] eqn:Ed; [|done]. destruct (toy_decode_inv _ _ _ _ _ Ed) as [-> _].
      destruct (u p) as [c'|] eqn:Eu; [|done]. destruct (kf _) as [k|] eqn:Ek; [|done]. case_decide as D; [|done].
      intros [= <-]. destruct D. by exists SHA256, p, s, g, k.
    + intros (h & p & s & g & k & Ed & Eu & Ek & Eg & Ev). rewrite Ed, Eu. destruct (toy_decode_inv _ _ _ _ _ Ed) as [E _].
      injection E as ->. rewrite Ek. by rewrite decide_True.
Qed.

Definition toy_config : config :=
  {| staticKey := ""; jwtIssuer := Some (raw "jwt-secret"); capTokenIssuer := Some (raw "edge-secret"); cellID := "iad-1" |}.
Definition no_users (u : N) : option user := None.
Definition blank : state := {| log := []; keys := Some [] |}.
Definition with_token (id : string) (t : string) : request :=
  {| q_Authorization := "Bearer " ++ t; q_XAPIKey := ""; q_api_key := ""; q_token := ""; q_path := ""; q_expires := "";
     q_signature := ""; q_id := id |}.

Definition toy_dashboard : context := SetOrgID 7%N fresh.
Definition toy_identity : IdentityTokenInput :=
  {| n_OrgID := "7"; n_UserID := None; n_Email := None; n_WorkOSUserID := None; n_Audience := AudOpenComputerAPI |}.

Lemma reach_step g users st st' : reachable g users st -> step g users st st' -> reachable g users st'.
Proof. intros [t Hr] Hs. exists t. by eapply rtc_r. Qed.

Lemma reach_blank g users : reachable g users blank.
Proof. exists (Some []). constructor. Qed.

Lemma toy_unforged i l : i ∈ l -> signed_with toy_config (raw "jwt-secret") i ->
  unforged toy_config l (message i, HMAC SHA256 (raw "jwt-secret") (message i)).
Proof.
  intros Hi Hk h k Hg E. apply (f_equal (fun b : bytes => (b !! 0, b !! 2)%nat)) in E.
  destruct Hg as [[= <-]|[= <-]], h; try done. split; [done|]. by exists i.
Qed.

Lemma bearer_with t : bearer ("Bearer " ++ t) = Some t.
Proof. exact (f_equal Some (str_raw t)). Qed.

Lemma toy_honest i l id p : i ∈ l -> signed_with toy_config (raw "jwt-secret") i -> message i = SigningString p ->
  honest toy_config l (with_token id (SignedString (raw "jwt-secret") p)).
Proof.
  intros Hi Hk Hm. unfold honest, presented, sandbox_token. cbn [q_Authorization with_token]. rewrite bearer_with.
  assert (Forall (unforged toy_config l) (token_parts (Some (SignedString (raw "jwt-secret") p)))) as Ht.
  { unfold token_parts, SignedString. rewrite Decode_Assemble. constructor; [|constructor]. rewrite <- Hm. by apply toy_unforged. }
  rewrite !Forall_app. split_and!; try exact Ht; constructor.
Qed.

Definition toy_dashboard_state : state :=
  sign [IIdentity true {| n_OrgID := "7"; n_UserID := None; n_Email := None; n_WorkOSUserID := None; n_Audience := AudSessionsAPI |} 0 inboundJWTTTL;
        IIdentity true toy_identity 0 downstreamJWTTTL] (keys blank) blank.

Lemma api_admits_granted_witness :
  key_of 5 (keys toy_dashboard_state) (with_token "" (SignedString (raw "jwt-secret") (identity_payload toy_identity 0 downstreamJWTTTL))) 7%N \/
  (exists i n ttl, IIdentity true i n ttl ∈ log toy_dashboard_state /\ n_Audience i = AudOpenComputerAPI /\
    uuid_Parse (n_OrgID i) = Some 7%N /\ alive n ttl 5) \/
  capability_of 5 toy_config (log toy_dashboard_state) 7%N.
Proof.
  apply (api_admits_granted toy_config no_users toy_dashboard_state
    (with_token "" (SignedString (raw "jwt-secret") (identity_payload toy_identity 0 downstreamJWTTTL))) 5 (Some []) (SetOrgID 7%N fresh) 7%N).
  - eapply reach_step; [apply (reach_blank _ no_users)|]. apply (step_dashboard _ _ toy_dashboard). reflexivity.
  - by apply (toy_honest (IIdentity true toy_identity 0 downstreamJWTTTL)); [right; left| |].
  - vm_compute. reflexivity.
  - reflexivity.
Defined.

Definition toy_minted : state := sign [ISandbox false 7%N "sb-1" "w-1" 0 sandboxTokenTTL] (keys blank) blank.
Definition toy_token : string := IssueSandboxToken (raw "jwt-secret") 7%N "sb-1" "w-1" 0 sandboxTokenTTL.
Definition toy_refreshed : state := sign [ISandbox true 7%N "sb-1" "w-1" (60 * second) sandboxTokenTTL] (keys toy_minted) toy_minted.
Definition toy_second : request :=
  with_token "sb-1" (IssueSandboxToken (raw "jwt-secret") 7%N "sb-1" "w-1" (60 * second) sandboxTokenTTL).

(** A token that was refreshed once, after the first has run out. *)
Lemma worker_admits_granted_witness :
  let now := sandboxTokenTTL + second in
  exists org worker, Some 7%N = Some org /\ Some "w-1"%string = Some worker /\ Some "sb-1"%string = Some "sb-1"%string /\
    token_for (log toy_refreshed) org "sb-1" worker now /\ granted (log toy_refreshed) org "sb-1" worker.
Proof.
  intros now. apply (worker_admits_granted toy_config no_users toy_refreshed toy_second now (raw "jwt-secret")
    (SetSandbox "sb-1" "w-1" (SetOrgID 7%N fresh))).
  - eapply reach_step; [eapply reach_step; [apply (reach_blank _ no_users)|apply step_mint]|].
    apply (step_refresh _ _ (with_token "sb-1" toy_token) (60 * second) (raw "jwt-secret") (SetSandbox "sb-1" "w-1" (SetOrgID 7%N fresh)));
      [|reflexivity|vm_compute; reflexivity|reflexivity].
    by apply (toy_honest (ISandbox false 7%N "sb-1" "w-1" 0 sandboxTokenTTL)); [left| |].
  - by apply (toy_honest (ISandbox true 7%N "sb-1" "w-1" (60 * second) sandboxTokenTTL)); [left| |].
  - reflexivity.
  - vm_compute. reflexivity.
  - done.
Defined.

Definition toy_keys : option (list APIKey) :=
  Some [{| a_OrgID := 7%N; a_CreatedBy := None; a_KeyHash := HashAPIKey "osb_key"; a_ExpiresAt := None; a_LastUsed := None |}].
Definition toy_customer : request :=
  {| q_Authorization := ""; q_XAPIKey := "osb_key"; q_api_key := ""; q_token := ""; q_path := ""; q_expires := "";
     q_signature := ""; q_id := "sb-1" |}.
Definition toy_url (path : string) : SignedURLParams := signed_params 0 "sb-1" path "download" 60.
Definition toy_query (path : string) : bytes := signed_query path (toy_url path) (SignURL (raw "jwt-secret") (toy_url path)).
Definition toy_signed : state :=
  sign [IURL 0 (toy_url "/a b&c")] (fst (PGAPIKeyMiddleware toy_config 0 toy_keys toy_customer fresh)) {| log := []; keys := toy_keys |}.

Lemma toy_url_honest : honest toy_config (log toy_signed) (url_request "sb-1" (toy_query "/a b&c")).
Proof.
  unfold honest, presented. rewrite !Forall_app. split_and!; [constructor|constructor|constructor| |].
  - assert (url_parts "download" (url_request "sb-1" (toy_query "/a b&c")) =
      [(message (IURL 0 (toy_url "/a b&c")), HMAC SHA256 (raw "jwt-secret") (message (IURL 0 (toy_url "/a b&c"))))]) as ->
      by (vm_compute; reflexivity).
    constructor; [|constructor]. by apply toy_unforged; [left|].
  - assert (url_parts "upload" (url_request "sb-1" (toy_query "/a b&c")) =
      [(signPayload {| u_SandboxID := "sb-1"; u_Path := "/a b&c"; u_Operation := "upload"; u_ExpiresAt := 60 * second |},
        HMAC SHA256 (raw "jwt-secret") (signPayload (toy_url "/a b&c")))]) as -> by (vm_compute; reflexivity).
    constructor; [|constructor]. intros h k _ E. exfalso. apply (f_equal (fun b : bytes => b !! 1%nat)) in E.
    cbn [fst snd HMAC toy_crypto] in E. by vm_compute in E.
Qed.

Lemma signed_url_granted_witness :
  exists n u e, IURL n u ∈ log toy_signed /\ u_Operation u = "download"%string /\ second <= u_ExpiresAt u <= n + 86400 * second /\
    ParseExpiresUnix (q_expires (url_request "sb-1" (toy_query "/a b&c"))) = Some e /\ u_ExpiresAt u / second = e / second /\
    second <= e /\ raw (u_SandboxID u) ++ newline :: raw (u_Path u) = raw "sb-1" ++ newline :: raw "/a b&c" /\
    (no_newline (u_SandboxID u) -> no_newline "sb-1" -> u_SandboxID u = "sb-1"%string /\ u_Path u = "/a b&c"%string).
Proof.
  apply (signed_url_granted toy_config no_users toy_signed (url_request "sb-1" (toy_query "/a b&c")) second "download" "sb-1" "/a b&c").
  - exists toy_keys. apply rtc_once. apply (step_url _ _ toy_customer 0 _ (SetOrgID 7%N fresh) "download" "/a b&c" 60 _ (toy_query "/a b&c"));
      [repeat constructor|vm_compute; reflexivity|by left|reflexivity].
  - apply toy_url_honest.
  - by left.
  - vm_compute. reflexivity.
Defined.

Lemma signed_url_roundtrip_witness :
  let last := u_ExpiresAt (toy_url "/a b&c") / second * second in
  0 + 86400 * second >= u_ExpiresAt (toy_url "/a b&c") /\ 0 < last /\
  signed_request toy_config (59 * second) "download" (url_request "sb-1" (toy_query "/a b&c")) =
  if last <? 59 * second then Err 403 else Ok ("sb-1"%string, "/a b&c"%string).
Proof.
  apply (signed_url_roundtrip toy_config 0 "sb-1" "/a b&c" 60 "download" (toy_url "/a b&c") (toy_query "/a b&c") (59 * second)); [reflexivity|lia].
Defined.

End AuthFacts.
