(* ===== verification/ForeignReaper.v ===== *)
(** * The reaper of foreign VMs

    src/internal/worker/foreign_vm_reaper.go: a worker kills the VMs it runs for sandboxes
    that the session table places elsewhere. One pass lists the VMs, reads the session of
    each, and kills the strays unless there are suspiciously many. The table changes while
    the pass runs: what each lookup returns is an argument. [VMs] are the VMs of all
    workers, so that a pass composes with a migration (src/internal/db/store.go). *)

From S2P Require Import Prelude SessionStore SessionFacts.
#[local] Open Scope Z_scope.

Module ForeignReaper.
Import SessionStore SessionFacts.

Definition foreignReapCap : nat := 20.

Definition isStrayVM (s : option session) (workerID : string) : bool :=
  match s with
  | None => false
  | Some s =>
      if negb (same (migrating_to_worker s) "") then false
      else
        let foreignHome := negb (same (worker_id s) "") && negb (same (worker_id s) workerID) in
        let terminalHere := same (worker_id s) workerID && (same (status s) "stopped" || same (status s) "error") in
        (foreignHome && negb (same (status s) "running")) || terminalHere
  end.

(** [get]: what the lookup of each VM returns, [None] for an error or no row. *)
Definition strays (get : string -> option session) (workerID : string) (vms : list string) : list string :=
  List.filter (fun id => isStrayVM (get id) workerID) vms.

(** The VMs of all workers: worker and sandbox. *)
Abbreviation VMs := (gset (string * string)).

(** [Kill] of each stray; [ok]: the kill succeeds. *)
Definition kill_loop (ok : string -> bool) (workerID : string) (l : list string) (w : VMs) : VMs :=
  fold_left (fun w id => if ok id then w ∖ {[(workerID, id)]} else w) l w.

(** [listed]: what [List] returns. *)
Definition reapForeignVMsOnce (get : string -> option session) (ok : string -> bool) (workerID : string)
    (listed : option (list string)) (w : VMs) : VMs :=
  match listed with
  | None => w
  | Some vms =>
      let l := strays get workerID vms in
      match l with
      | [] => w
      | _ => if (foreignReapCap <? length l)%nat then w else kill_loop ok workerID l w
      end
  end.

(** Whether a worker has the VM, and what completing an incoming migration there answers:
    without the VM an error at once; [rest]: the outcome of resuming it and of reaching the
    agent. *)
Definition getVM (workerID id : string) (w : VMs) : bool := bool_decide ((workerID, id) ∈ w).
Definition CompleteIncomingMigration (rest : bool) (workerID id : string) (w : VMs) : bool :=
  if getVM workerID id w then rest else false.

(** ** What it spares *)

Lemma kill_loop_spec ok workerID l w x :
  x ∈ kill_loop ok workerID l w <-> x ∈ w /\ ~ (fst x = workerID /\ snd x ∈ l /\ ok (snd x) = true).
Proof.
  unfold kill_loop. revert w. induction l as [|id l IH]; intros w; cbn [fold_left]; [rewrite elem_of_nil; tauto|]. rewrite IH, elem_of_cons. destruct x as [wk v]. cbn [fst snd]. destruct (ok id) eqn:E.
  - rewrite elem_of_difference, elem_of_singleton. split.
    + intros [[Hx Hne] Hn]. split; [done|]. intros (-> & [->|Hin] & Hok); [by apply Hne|by apply Hn].
    + intros [Hx Hn]. split_and!; [done| |tauto]. intros [= -> ->]. apply Hn. auto.
  - split; [|tauto]. intros [Hx Hn]. split; [done|]. intros (-> & [->|Hin] & Hok); [congruence|by apply Hn].
Qed.

(** A pass of the reaper kills what it is meant to and nothing else, whatever changes in
    the table while it runs: a VM is gone afterwards only if this worker runs it and the
    session that was read for it has its home elsewhere and is not running, or has its
    home here and has ended; a VM whose session cannot be read, that runs, or that belongs
    here stays, and so does every VM when more than twenty would go. *)
Theorem foreign_reaper_spares get ok workerID listed w x :
  x ∈ w -> x ∉ reapForeignVMsOnce get ok workerID listed w ->
  fst x = workerID /\ ok (snd x) = true /\
  exists s vms, get (snd x) = Some s /\ listed = Some vms /\ In (snd x) vms /\ (length (strays get workerID vms) <= 20)%nat /\
    ((worker_id s <> workerID /\ status s <> "running"%string) \/
     (worker_id s = workerID /\ (status s = "stopped"%string \/ status s = "error"%string))).
Proof.
  intros Hx Hn. unfold reapForeignVMsOnce in Hn. destruct listed as [vms|]; [|done].
  destruct (strays get workerID vms) as [|v l] eqn:El; [done|]. rewrite <- El in *.
  destruct (foreignReapCap <? length (strays get workerID vms))%nat eqn:Ec; [done|]. bool_to_prop.
  destruct (decide (fst x = workerID /\ snd x ∈ strays get workerID vms /\ ok (snd x) = true)) as [(Hw & Hin & Hok)|Hne];
    [|exfalso; apply Hn, kill_loop_spec; by split].
  apply list_elem_of_In, filter_In in Hin as [Hin Hs]. split_and!; [done|done|]. unfold isStrayVM in Hs. destruct (get (snd x)) as [s|]; [|done].
  exists s, vms. split_and!; [done|done|done|done|]. unfold same in Hs. destruct (negb _); [done|].
  destruct (String.eqb_spec (worker_id s) workerID) as [Ew|Ew]; cbn [negb andb orb] in Hs; rewrite ?andb_false_r in Hs; cbn in Hs.
  - right. split; [done|]. apply orb_true_iff in Hs. by rewrite !String.eqb_eq in Hs.
  - left. rewrite orb_false_r in Hs. apply andb_true_iff in Hs as [_ Hs]. apply negb_true_iff, String.eqb_neq in Hs. done.
Qed.

Definition gone_session : session :=
  {| sandbox_id := "sb"; org_id := "org"; template := "base"; region := "iad"; worker_id := "w1"; status := "hibernated";
     agent_id := None; started_at := 1; stopped_at := None; error_msg := None; migrating_to_worker := "";
     hibernation_mode := Some "deep"%string; paused_at := None; updated_at := 1 |}.

Lemma foreign_reaper_spares_witness :
  fst ("w2", "sb")%string = "w2"%string /\ true = true /\
  exists s vms, Some gone_session = Some s /\ Some ["sb"%string] = Some vms /\ In "sb"%string vms /\
    (length (strays (fun _ => Some gone_session) "w2" vms) <= 20)%nat /\
    ((worker_id s <> "w2"%string /\ status s <> "running"%string) \/
     (worker_id s = "w2"%string /\ (status s = "stopped"%string \/ status s = "error"%string))).
Proof.
  apply (foreign_reaper_spares (fun _ => Some gone_session) (fun _ => true) "w2" (Some ["sb"%string]) {[("w2", "sb")%string]} ("w2", "sb")%string).
  - set_solver.
  - vm_compute. done.
Defined.

(** ** A migration under way *)

(** What a migration does to the row when the target does not complete. *)
Lemma lost_row_error now now' d id target e r :
  latest_session d id = Some r -> status r = "running"%string ->
  exists s, GetSandboxSession (FailMigrationPostQMP now' (SetMigrating now d id target) id e) id = Some s /\ status s = "error"%string.
Proof.
  intros Hr Hst. pose proof (latest_running d id r Hr Hst) as Hhit.
  set (f := fun r => set_migrating_to now target (set_status now "migrating" r)).
  assert (latest_session (SetMigrating now d id target) id = Some (f r)) as Hl by by apply latest_updated.
  assert (same (sandbox_id (f r)) id && same (status (f r)) "migrating" = true) as Hc.
  { apply andb_true_iff in Hhit as [Hh _]. change (sandbox_id (f r)) with (sandbox_id r). by rewrite Hh. }
  unfold FailMigrationPostQMP. destruct (List.find _ _) as [x|] eqn:Ef.
  - set (g := fun r => set_migrating_to now' "" (finish now' "error" (Some e) r)). exists (scan (g (f r))). split; [|done].
    unfold GetSandboxSession. change (latest_session (with_outbox _ (with_events _ (with_sessions (UPDATE _ g) (SetMigrating now d id target)))) id)
      with (latest_session (with_sessions (UPDATE (fun r => same (sandbox_id r) id && same (status r) "migrating") g) (SetMigrating now d id target)) id).
    by rewrite (latest_updated _ g _ id (f r)).
  - exfalso. assert (In (f r) (sessions (SetMigrating now d id target))) as Hin by (by apply latest_In, filter_In in Hl as [? _]).
    apply (List.find_none _ _ Ef) in Hin. by rewrite Hc in Hin.
Qed.

(** C40. The reaper kills the VM that a migration is moving in. The column that says where a
    sandbox is moving to is not read with its session, so the guard for migrations never
    holds; the sandbox has its home on the source and the status migrating, and a pass on
    the target at any moment of the migration that lists its VM takes it for a stray (unless
    there are more than twenty strays, when the pass does nothing). If the memory had
    moved, the last copy of it is gone: completing on the target finds no VM, and the
    failure that the control plane then records leaves the session in error. Only if the
    target had completed just before the pass, and the row is completed after it, does the
    session run, on a worker that has no VM. *)
Theorem reaper_kills_incoming (now now' : Z) (d : db) (id target : string) (r : session) (ok : string -> bool) (vms : list string) (w : VMs) :
  latest_session d id = Some r -> status r = "running"%string -> worker_id r <> ""%string -> worker_id r <> target ->
  ok id = true -> (forall v, (v, id) ∈ w -> v = target) ->
  let d' := SetMigrating now d id target in
  In id vms -> (length (strays (GetSandboxSession d') target vms) <= foreignReapCap)%nat ->
  let w' := reapForeignVMsOnce (GetSandboxSession d') ok target (Some vms) w in
  option_map migrating_to_worker (latest_session d' id) = Some target /\
  (forall v, (v, id) ∉ w') /\
  (forall rest, CompleteIncomingMigration rest target id w' = false) /\
  (forall e, exists s, GetSandboxSession (FailMigrationPostQMP now' d' id e) id = Some s /\ status s = "error"%string) /\
  exists d'' s, CompleteMigration now' d' id target = Some d'' /\ GetSandboxSession d'' id = Some s /\
    status s = "running"%string /\ worker_id s = target.
Proof.
  intros Hr Hst Hw1 Hw2 Hok Honly d' Hvms Hcap w'. pose proof (latest_running d id r Hr Hst) as Hhit.
  set (f := fun r => set_migrating_to now target (set_status now "migrating" r)).
  assert (latest_session d' id = Some (f r)) as Hl by by apply latest_updated.
  assert (forall v, (v, id) ∉ w') as Hgone.
  { intros v Hv. assert (isStrayVM (GetSandboxSession d' id) target = true) as Hs.
    { unfold GetSandboxSession. rewrite Hl. cbn. unfold same.
      by rewrite (proj2 (String.eqb_neq _ _) Hw1), (proj2 (String.eqb_neq _ _) Hw2). }
    assert (In id (strays (GetSandboxSession d') target vms)) as Hin by (by apply List.filter_In).
    unfold w', reapForeignVMsOnce in Hv. destruct (strays (GetSandboxSession d') target vms) as [|x l]; [done|].
    rewrite (proj2 (Nat.ltb_ge _ _) Hcap) in Hv. apply kill_loop_spec in Hv as [Hv Hn]. apply Hn. cbn [fst snd].
    split; [by apply Honly|]. split; [by apply list_elem_of_In|done]. }
  split_and!.
  - by rewrite Hl.
  - done.
  - intros rest. unfold CompleteIncomingMigration, getVM. by rewrite bool_decide_false by apply Hgone.
  - intros e. by apply (lost_row_error now now' d id target e r).
  - assert (complete_where id (f r) = true) as Hc.
    { apply andb_true_iff in Hhit as [Hh _]. unfold complete_where. change (sandbox_id (f r)) with (sandbox_id r). by rewrite Hh. }
    assert (In (f r) (sessions d')) as Hin by (by apply latest_In, filter_In in Hl as [? _]).
    unfold CompleteMigration. destruct (List.find (complete_where id) (sessions d')) as [x|] eqn:Ef;
      [|by rewrite (List.find_none _ _ Ef _ Hin) in Hc].
    set (g := fun r => set_error now' None (set_stopped now' None (set_migrating_to now' "" (set_worker now' target (set_status now' "running" r))))).
    eexists _, (scan (g (f r))). split; [reflexivity|]. split; [|done].
    change (option_map scan (latest_session (with_sessions (UPDATE (complete_where id) g) d') id) = Some (scan (g (f r)))).
    by rewrite (latest_updated _ g d' id (f r)).
Qed.

Definition running_row : session :=
  {| sandbox_id := "sb"; org_id := "org"; template := "base"; region := "iad"; worker_id := "w1"; status := "running";
     agent_id := None; started_at := 1; stopped_at := None; error_msg := None; migrating_to_worker := "";
     hibernation_mode := None; paused_at := None; updated_at := 1 |}.

Definition moving : db := {| sessions := [running_row]; scale_events := []; hibernations := []; outbox := []; subscriptions := [] |}.

Lemma reaper_kills_incoming_witness :
  let d' := SetMigrating 5 moving "sb" "w2" in
  let w' := reapForeignVMsOnce (GetSandboxSession d') (fun _ => true) "w2" (Some ["sb"%string]) {[("w2", "sb")%string]} in
  option_map migrating_to_worker (latest_session d' "sb") = Some "w2"%string /\
  (forall v, (v, "sb"%string) ∉ w') /\
  (forall rest, CompleteIncomingMigration rest "w2" "sb" w' = false) /\
  (forall e, exists s, GetSandboxSession (FailMigrationPostQMP 6 d' "sb" e) "sb" = Some s /\ status s = "error"%string) /\
  exists d'' s, CompleteMigration 6 d' "sb" "w2" = Some d'' /\ GetSandboxSession d'' "sb" = Some s /\
    status s = "running"%string /\ worker_id s = "w2"%string.
Proof.
  apply (reaper_kills_incoming 5 6 moving "sb" "w2" running_row (fun _ => true) ["sb"%string] {[("w2", "sb")%string]}); try done.
  - set_solver.
  - by left.
  - vm_compute. lia.
Defined.

End ForeignReaper.
