(* ===== verification/PreviewProxy.v ===== *)
(** * Preview URLs

    src/internal/proxy/controlplane_proxy.go (with parsePreviewHostname of proxy.go and the
    text of placeholder.go), src/internal/previewauth, and rotateSandboxPreviewAuth of
    src/internal/api/sandbox.go with SetSandboxPreviewAuth of src/internal/db/store.go: the
    public address of a port of a sandbox, the bearer token that can guard it, and how a
    control plane finds the worker to forward to. The state is that of the data-plane proxy
    with the column of token hashes; every statement and call is a step. *)

From S2P Require Import Prelude GoFloat SessionStore Registry Replacer SecretsProxy Threads SandboxProxy Keyring Auth.
From Stdlib Require Import Ascii.
#[local] Open Scope Z_scope.

Module PreviewProxy.
Export Threads.
Import Replacer.
#[local] Open Scope prog_scope.

(** ** Hostnames *)

(** [strings.Index(host, dot)] *)
Definition first_label (host : bytes) : option bytes :=
  match Auth.Cut "." host with (label, Some _) => Some label | _ => None end.

(** [strings.LastIndex(label, -p)]: the parts around the last occurrence. *)
Fixpoint cut_port (label : bytes) : option (bytes * bytes) :=
  match label with
  | [] => None
  | c :: rest =>
      match cut_port rest with
      | Some (id, port) => Some (c :: id, port)
      | None => if starts_with (raw "-p") label then Some ([], drop 2 label) else None
      end
  end.

(** [strconv.Atoi] is [ParseInt] on 64 bits. *)
Definition parsePreviewHostname (host : string) : option (string * Z) :=
  label ← first_label (raw host);
  x ← cut_port label;
  p ← Auth.ParseInt (snd x);
  if (p <? 1) || (65535 <? p) || bool_decide (fst x = []) then None else Some (str (fst x), p).

(** The host of the request without its port, in [Middleware]. *)
Definition hostOnly (host : string) : string :=
  match SecretsProxy.last_index ":" (raw host) with
  | Some i => str (take i (raw host))
  | None => host
  end.

Definition preview_target (host : string) : option (string * Z) := parsePreviewHostname (hostOnly host).

(** ** previewauth *)

Section Auth.
Context `{Auth.Crypto}.

Definition SHA256Hex (s : string) : string := str (Auth.hex_EncodeToString (Auth.Sum256 (raw s))).

(** The runes that [unicode.IsSpace] holds of, in UTF-8. *)
Definition spaces : list bytes :=
  map (map ascii_of_N)
    ([[9]; [10]; [11]; [12]; [13]; [32]; [194; 133]; [194; 160]; [225; 154; 128]; [226; 128; 128]; [226; 128; 129];
      [226; 128; 130]; [226; 128; 131]; [226; 128; 132]; [226; 128; 133]; [226; 128; 134]; [226; 128; 135]; [226; 128; 136];
      [226; 128; 137]; [226; 128; 138]; [226; 128; 168]; [226; 128; 169]; [226; 128; 175]; [226; 129; 159]; [227; 128; 128]])%N.

(** Drop the leading runes of a set; [fuel]: one byte at least is dropped each round. *)
Fixpoint trim_left (set : list bytes) (fuel : nat) (b : bytes) : bytes :=
  match fuel with
  | O => b
  | S fuel =>
      match List.find (fun x => starts_with x b) set with
      | Some x => trim_left set fuel (drop (length x) b)
      | None => b
      end
  end.

(** [strings.TrimSpace] *)
Definition TrimSpace (s : string) : string :=
  let b := trim_left spaces (String.length s) (raw s) in
  str (rev (trim_left (map (@rev ascii) spaces) (length b) (rev b))).

Definition lower (c : ascii) : ascii :=
  let n := N_of_ascii c in if (65 <=? n)%N && (n <=? 90)%N then ascii_of_N (n + 32) else c.

(** [strings.EqualFold] with a text of ASCII letters. *)
Definition EqualFold (a b : bytes) : bool := bool_decide (map lower a = map lower b).

(** The headers X-OC-Preview-Token and Authorization, and whether the client is a browser
    or asks for a websocket. *)
Record request := { q_host_id : string; q_XToken : string; q_Authorization : string; q_upgrade : bool }.

Definition ExtractToken (q : request) : string :=
  if negb (String.eqb (q_XToken q) "") then TrimSpace (q_XToken q)
  else
    let auth := raw (q_Authorization q) in
    if bool_decide (auth = []) then ""
    else if (length auth <? 7)%nat || negb (EqualFold (take 7 auth) (raw "Bearer ")) then ""
    else TrimSpace (str (drop 7 auth)).

Definition ConstantTimeEqualString (a b : string) : bool := String.eqb a b.

(** [random]: what [GenerateToken] returns. The plaintext and the hash, or a status. *)
Definition ProcessRequest (random : option string) (scheme token : string) : result Z (string * string) :=
  let scheme := if String.eqb scheme "" then "bearer"%string else scheme in
  if negb (String.eqb scheme "bearer") then Err 400
  else if String.eqb token "" || String.eqb token "auto" then
    match random with
    | Some t => Ok (t, SHA256Hex t)
    | None => Err 500
    end
  else if (16 <=? String.length token)%nat then Ok (token, SHA256Hex token)
  else Err 400.

(** The gate of [doProxy]: the status to refuse with. *)
Definition preview_gate (hash : option string) (q : request) : option Z :=
  match hash with
  | None => None
  | Some hash =>
      if String.eqb hash "" then None
      else
        let presented := ExtractToken q in
        if String.eqb presented "" then Some 401
        else if negb (ConstantTimeEqualString (SHA256Hex presented) hash) then Some 401
        else None
  end.

(** ** The state *)

(** [hashes]: the column preview_auth_hash of the latest session. *)
Record world := { base : SandboxProxy.world; hashes : gmap string string }.
Definition on_base (f : SandboxProxy.world -> SandboxProxy.world) (w : world) : world := {| base := f (base w); hashes := hashes w |}.

(** [i_org]: the plan and credits that [GetOrg] returns; [i_code], [i_body]: what the worker
    answers with; [i_random]: a fresh token. *)
Record input := { i_base : SandboxProxy.input; i_org : option (string * Z); i_code : Z; i_body : string; i_random : option string }.

Abbreviation program := (prog world input).

(** A program of the data-plane proxy. *)
Fixpoint lift {A} (p : SandboxProxy.program A) : program A :=
  match p with
  | Ret a => Ret a
  | Atom f k => Atom (fun i w => let '(b, r) := f (i_base i) (base w) in ({| base := b; hashes := hashes w |}, r)) (fun r => lift (k r))
  end.

(** ** Setting the token *)

Definition settable (id : string) (s : SessionStore.session) : bool :=
  SessionStore.same (SessionStore.sandbox_id s) id && SessionStore.is_in (SessionStore.status s) ["running"; "pending"; "hibernated"]%string.

(** Whether a row was updated, the latest or another; [None]: the statement failed. *)
Definition SetSandboxPreviewAuth (id hash : string) : program (option bool) :=
  command (fun i w =>
    let hit := existsb (settable id) (SessionStore.sessions (SandboxProxy.store (base w))) in
    let latest := match SessionStore.latest_session (SandboxProxy.store (base w)) id with Some s => settable id s | None => false end in
    (if SandboxProxy.i_did (i_base i) && latest then
       {| base := base w; hashes := if String.eqb hash "" then delete id (hashes w) else <[id := hash]> (hashes w) |}
     else w,
     if SandboxProxy.i_ok (i_base i) then Some hit else None)).

(** [org]: the organisation of the caller, where authenticated. The new token, or a status. *)
Definition rotateSandboxPreviewAuth (org : option string) (id : string) : program (result Z string) :=
  do found <- match org with
              | None => Ret true
              | Some o => command (fun i w => (w, SandboxProxy.i_ok (i_base i) &&
                  existsb (fun s => SessionStore.same (SessionStore.org_id s) o && SessionStore.same (SessionStore.sandbox_id s) id)
                    (SessionStore.sessions (SandboxProxy.store (base w)))))
              end;
  if negb found then Ret (Err 404)
  else
    do token <- command (fun i w => (w, i_random i));
    match token with
    | None => Ret (Err 500)
    | Some token =>
        do r <- SetSandboxPreviewAuth id (SHA256Hex token);
        match r with
        | None => Ret (Err 500)
        | Some false => Ret (Err 410)
        | Some true => Ret (Ok token)
        end
    end.

(** ** Forwarding *)

(** A status of the control plane, the page or message of an address that does not answer,
    what the worker answered, a connection handed over ([Closed]: dropped). *)
Inductive response := Reply (code : Z) | Unavailable | Answer (code : Z) (body : string) | Piped (url : string) | Closed.

Section Config.
Context (order : list Registry.WorkerEntry -> list Registry.WorkerEntry).
Variable cp : string.
Variable parses : string -> bool.

Definition deliver (id url : string) : program (option (Z * string)) :=
  command (fun i w =>
    (if SandboxProxy.i_did (i_base i) then
       on_base (SandboxProxy.on_served (fun l => l ++ [{| SandboxProxy.d_url := url; SandboxProxy.d_id := id; SandboxProxy.d_token := None |}])) w
     else w,
     if SandboxProxy.i_ok (i_base i) then Some (i_code i, i_body i) else None)).

Definition mark_stopped (id msg : string) : program unit :=
  lift (SandboxProxy.exec_store (fun i d => fst (SessionStore.UpdateSandboxSessionStatus (SandboxProxy.i_now i) d id "stopped" (Some msg)))).

(** A reply that the proxy takes for that of a worker without the sandbox. *)
Definition lost_reply (code : Z) (body : string) : bool :=
  (code =? 502) && (SandboxProxy.contains (raw body) (raw "not found") || SandboxProxy.contains (raw body) (raw "not available")).

Definition doHTTP (id url : string) : program response :=
  if negb (parses url) then Ret (Reply 502)
  else
    do r <- deliver id url;
    match r with
    | None => Ret Unavailable
    | Some (code, body) =>
        if lost_reply code body then
          do _ <- mark_stopped id "sandbox lost on worker"; Ret (Reply 410)
        else Ret (Answer (if code =? 0 then 200 else code) body)
    end.

Definition doWebSocket (id url : string) : program response :=
  if negb (parses url) then Ret (Reply 502)
  else
    do dialled <- lift SandboxProxy.ask;
    if negb dialled then Ret Unavailable
    else
      do hijacker <- lift SandboxProxy.ask;
      if negb hijacker then Ret (Reply 500)
      else
        do hijacked <- lift SandboxProxy.ask;
        if negb hijacked then Ret (Reply 500)
        else
          do r <- deliver id url;
          match r with Some _ => Ret (Piped url) | None => Ret Closed end.

Definition forward (q : request) (url : string) : program response :=
  if q_upgrade q then doWebSocket (q_host_id q) url else doHTTP (q_host_id q) url.

(** [wakeHibernatedSandbox]: the same statements and calls as in the data-plane proxy. *)
Definition wakeHibernatedSandbox (id : string) : program (option (Registry.WorkerEntry * string)) :=
  lift (SandboxProxy.wakeHibernatedSandbox order cp id).

Definition tryRecoverOrFail (q : request) (s : SessionStore.session) : program response :=
  if negb (String.eqb (SessionStore.migrating_to_worker s) "") then Ret (Reply 503)
  else
    do h <- lift (SandboxProxy.get_hibernation (q_host_id q));
    match h with
    | Some _ =>
        do r <- wakeHibernatedSandbox (q_host_id q);
        match r with
        | None => Ret Unavailable
        | Some (_, url) => forward q url
        end
    | None =>
        do _ <- mark_stopped (q_host_id q) "worker lost, sandbox not recoverable"; Ret (Reply 410)
    end.

(** The session and the hash of its token. *)
Definition get_session (id : string) : program (option (SessionStore.session * option string)) :=
  command (fun i w => (w,
    if SandboxProxy.i_ok (i_base i) then
      match SessionStore.GetSandboxSession (SandboxProxy.store (base w)) id with
      | Some s => Some (s, hashes w !! id)
      | None => None
      end
    else None)).

Definition doProxy (q : request) : program response :=
  do s <- get_session (q_host_id q);
  match s with
  | None => Ret (Reply 404)
  | Some (s, hash) =>
      match preview_gate hash q with
      | Some code => Ret (Reply code)
      | None =>
          if String.eqb (SessionStore.status s) "hibernated" then
            do org <- command (fun i w => (w, i_org i));
            if match org with Some (plan, credits) => String.eqb plan "free" && (credits <=? 0) | None => false end then Ret (Reply 402)
            else
              do r <- wakeHibernatedSandbox (q_host_id q);
              match r with
              | None => Ret Unavailable
              | Some (_, url) => forward q url
              end
          else if String.eqb (SessionStore.status s) "stopped" || String.eqb (SessionStore.status s) "error" then Ret (Reply 410)
          else
            do wk <- lift (SandboxProxy.get_worker cp (SessionStore.worker_id s));
            match wk with
            | None => tryRecoverOrFail q s
            | Some wk => if String.eqb (Registry.HTTPAddr wk) "" then Ret Unavailable else forward q (Registry.HTTPAddr wk)
            end
      end
  end.

End Config.

(** The message of a worker whose sandbox does not answer (src/internal/proxy/placeholder.go),
    as JSON; browsers get a page with status 503. *)
Definition upstream_unavailable (id : string) : string :=
  str (raw "{" ++ [ascii_of_N 34] ++ raw "error" ++ [ascii_of_N 34] ++ raw ":" ++ [ascii_of_N 34] ++
       raw "sandbox " ++ raw id ++ raw ": upstream unavailable" ++ [ascii_of_N 34] ++ raw "}").

End Auth.
End PreviewProxy.
