(* ===== verification/PreviewFacts.v ===== *)
(** * Preview URLs: facts

    Facts about PreviewProxy.v: the names that are given out are understood, which tokens
    open the gate they were set for, what a refused request can do, and what a reply of
    the program inside a sandbox does to its session. *)

From S2P Require Import Prelude GoFloat SessionStore SessionFacts Registry Replacer SecretsProxy Threads SandboxProxy SandboxProxyFacts Keyring Auth AuthFacts PreviewProxy.
From Stdlib Require Import Ascii.
#[local] Open Scope Z_scope.

Module PreviewFacts.
Import Replacer PreviewProxy.

(** ** Hostnames *)

Lemma cut_port_none b : Forall (fun c => c <> "-"%char) b -> cut_port b = None.
Proof.
  induction 1 as [|c b Hc Hb IH]; [done|]. cbn [cut_port]. rewrite IH. unfold starts_with. cbn. by rewrite bool_decide_false.
Qed.

Lemma cut_port_last id port : Forall (fun c => c <> "-"%char) port -> cut_port (id ++ "-"%char :: "p"%char :: port) = Some (id, port).
Proof.
  intros Hp. induction id as [|c id IH]; [|cbn [app cut_port]; by rewrite IH].
  cbn [app cut_port]. rewrite (cut_port_none port Hp). unfold starts_with. cbn. done.
Qed.

Lemma digits_no n c : is_digit c = false -> Forall (fun d => d <> c) (itoa n).
Proof.
  intros Hc. destruct (itoa_spec n) as (_ & Hd & _). eapply Forall_impl; [exact Hd|]. intros d Hd' ->. by rewrite Hc in Hd'.
Qed.

(** The host of a preview URL. *)
Definition preview_host (id : string) (port : Z) (domain : string) : string :=
  str (raw id ++ raw "-p" ++ itoa (Z.to_N port) ++ "."%char :: raw domain).

Lemma last_index_none c b : Forall (fun x => x <> c) b -> SecretsProxy.last_index c b = None.
Proof. induction 1 as [|x b Hx Hb IH]; cbn; [done|]. rewrite IH. by rewrite bool_decide_false. Qed.

Lemma last_index_app c a b : Forall (fun x => x <> c) b -> SecretsProxy.last_index c (a ++ c :: b) = Some (length a).
Proof.
  intros Hb. induction a as [|x a IH]; cbn [app length SecretsProxy.last_index]; [|by rewrite IH].
  rewrite last_index_none by done. by rewrite bool_decide_true.
Qed.

Lemma parse_preview_host id port domain :
  id <> ""%string -> Forall (fun c => c <> "."%char) (raw id) -> 1 <= port <= 65535 ->
  parsePreviewHostname (preview_host id port domain) = Some (id, port).
Proof.
  intros Hid Hdot Hport. unfold parsePreviewHostname, preview_host, first_label. rewrite raw_str.
  assert (raw id ++ raw "-p" ++ itoa (Z.to_N port) ++ "."%char :: raw domain =
    (raw id ++ "-"%char :: "p"%char :: itoa (Z.to_N port)) ++ "."%char :: raw domain) as -> by by rewrite <- app_assoc.
  rewrite AuthFacts.Cut_sep.
  2:{ apply Forall_app. split; [done|]. do 2 (constructor; [done|]). by apply digits_no. }
  cbn [mbind option_bind]. rewrite cut_port_last by by apply digits_no. cbn [mbind option_bind fst snd].
  destruct (itoa_spec (Z.to_N port)) as (Hne & _ & Hv).
  destruct (AuthFacts.ParseInt_digits (itoa (Z.to_N port)) Hne (AuthFacts.itoa_forallb _)) as [-> _]; [rewrite Hv; lia|]. cbn [mbind option_bind].
  rewrite Hv, Z2N.id by lia. rewrite (proj2 (Z.ltb_ge port 1)), (proj2 (Z.ltb_ge 65535 port)) by lia.
  rewrite bool_decide_false by by destruct id. cbn. by rewrite str_raw.
Qed.

(** Every name of a preview URL leads to its sandbox and port: whatever the identifier
    (even one that holds the separator), for every port, under any domain, and with or
    without a port number behind the host, the name is parsed to what it was made of. *)
Theorem preview_host_roundtrip id port domain suffix :
  id <> ""%string -> Forall (fun c => c <> "."%char /\ c <> ":"%char) (raw id) -> 1 <= port <= 65535 ->
  Forall (fun c => c <> ":"%char) (raw domain) -> Forall (fun c => c <> ":"%char) (raw suffix) ->
  preview_target (preview_host id port domain) = Some (id, port) /\
  preview_target (str (raw (preview_host id port domain) ++ ":"%char :: raw suffix)) = Some (id, port).
Proof.
  intros Hid Hc Hport Hdom Hs. unfold preview_target, hostOnly.
  assert (Forall (fun c => c <> "."%char) (raw id)) as Hdot by (eapply Forall_impl; [exact Hc|]; by intros c [? _]).
  assert (Forall (fun c => c <> ":"%char) (raw (preview_host id port domain))) as Hcol.
  { unfold preview_host. rewrite raw_str. rewrite !Forall_app. split_and!;
      [eapply Forall_impl; [exact Hc|]; by intros c [_ ?]|by repeat constructor|by apply digits_no|by constructor]. }
  split.
  - rewrite last_index_none by done. by apply parse_preview_host.
  - rewrite raw_str, last_index_app by done. rewrite take_app_length, str_raw. by apply parse_preview_host.
Qed.

Lemma preview_host_roundtrip_witness :
  preview_target (preview_host "sb-p1" 8080 "preview.dev") = Some ("sb-p1"%string, 8080) /\
  preview_target (str (raw (preview_host "sb-p1" 8080 "preview.dev") ++ ":"%char :: raw "443")) = Some ("sb-p1"%string, 8080).
Proof.
  apply (preview_host_roundtrip "sb-p1" 8080 "preview.dev" "443"); try done; try lia; by repeat constructor.
Defined.

(** ** Tokens *)

(** No white space at either end. *)
Definition trimmed (b : bytes) : Prop :=
  (forall x, In x spaces -> starts_with x b = false) /\ (forall x, In x (map (@rev ascii) spaces) -> starts_with x (rev b) = false).

Lemma trim_left_none set fuel b : (forall x, In x set -> starts_with x b = false) -> trim_left set fuel b = b.
Proof.
  intros Hb. destruct fuel as [|fuel]; [done|]. cbn. destruct (List.find _ set) as [x|] eqn:E; [|done].
  apply List.find_some in E as [Hx Hs]. by rewrite (Hb x Hx) in Hs.
Qed.

Lemma trim_left_clean set fuel b : (forall x, In x set -> x <> []) -> (length b <= fuel)%nat ->
  forall x, In x set -> starts_with x (trim_left set fuel b) = false.
Proof.
  intros Hne. revert b. induction fuel as [|fuel IH]; intros b Hf x Hx.
  - destruct b; [|cbn in Hf; lia]. cbn. specialize (Hne x Hx). by destruct x.
  - cbn. destruct (List.find _ set) as [y|] eqn:E.
    + apply List.find_some in E as [Hy Hs]. apply IH; [|done]. rewrite length_drop.
      pose proof (starts_with_length y b Hs). specialize (Hne y Hy). destruct y; [done|]. cbn in *. lia.
    + by apply (List.find_none _ _ E).
Qed.

(** What is left is an end of the text. *)
Lemma trim_left_suffix set fuel b : exists a, b = a ++ trim_left set fuel b.
Proof.
  revert b. induction fuel as [|fuel IH]; intros b; [by exists []|]. cbn. destruct (List.find _ set) as [y|] eqn:E; [|by exists []].
  destruct (IH (drop (length y) b)) as [a Ha]. exists (take (length y) b ++ a). rewrite <- app_assoc, <- Ha. by rewrite take_drop.
Qed.

Lemma spaces_nonempty : (forall x, In x spaces -> x <> []) /\ (forall x, In x (map (@rev ascii) spaces) -> x <> []).
Proof.
  split; intros x Hx ->; [|apply in_map_iff in Hx as (y & Hy & Hx); apply (f_equal (@rev ascii)) in Hy; rewrite rev_involutive in Hy; subst y];
    vm_compute in Hx; by repeat destruct Hx as [Hx|Hx].
Qed.

Lemma TrimSpace_trimmed s : trimmed (raw (TrimSpace s)).
Proof.
  unfold TrimSpace. set (b := trim_left spaces (String.length s) (raw s)). rewrite raw_str.
  assert (length (raw s) = String.length s) as Hl by (unfold raw; induction s; cbn; congruence).
  assert (forall x, In x spaces -> starts_with x b = false) as Hb by (apply trim_left_clean; [apply spaces_nonempty|lia]).
  set (r := trim_left (map (@rev ascii) spaces) (length b) (rev b)).
  assert (forall x, In x (map (@rev ascii) spaces) -> starts_with x r = false) as Hr
    by (apply trim_left_clean; [apply spaces_nonempty|rewrite length_rev; lia]).
  destruct (trim_left_suffix (map (@rev ascii) spaces) (length b) (rev b)) as [a Ha]. fold r in Ha.
  apply (f_equal (@rev ascii)) in Ha. rewrite rev_involutive, rev_app_distr in Ha.
  split; [|by rewrite rev_involutive]. intros x Hx. destruct (starts_with x (rev r)) eqn:E; [|done].
  rewrite <- (Hb x Hx). symmetry. apply starts_with_spec in E as [t Ht]. apply starts_with_spec.
  exists (t ++ rev a). rewrite Ha, Ht. by rewrite <- app_assoc.
Qed.

Lemma TrimSpace_same s : trimmed (raw s) -> TrimSpace s = s.
Proof.
  intros [H1 H2]. unfold TrimSpace. rewrite (trim_left_none spaces) by done. rewrite trim_left_none by done.
  by rewrite rev_involutive, str_raw.
Qed.

Section Facts.
Context `{Auth.Crypto}.

Lemma SHA256Hex_nonempty s : Auth.Sum256 (raw s) <> [] -> String.eqb (SHA256Hex s) "" = false.
Proof. unfold SHA256Hex. intros Hs. by destruct (Auth.Sum256 (raw s)). Qed.

Lemma SHA256Hex_inj s t : SHA256Hex s = SHA256Hex t -> Auth.Sum256 (raw s) = Auth.Sum256 (raw t).
Proof.
  unfold SHA256Hex. intros E%str_inj. apply (f_equal Keyring.hex_DecodeString) in E. rewrite !AuthFacts.hex_roundtrip in E. by injection E.
Qed.

Lemma ExtractToken_trimmed q : trimmed (raw (ExtractToken q)).
Proof.
  assert (trimmed (raw "")) as He.
  { split; intros x Hx; destruct x; try done; exfalso; [by apply (proj1 spaces_nonempty [] Hx)|by apply (proj2 spaces_nonempty [] Hx)]. }
  unfold ExtractToken. repeat case_goal; (apply TrimSpace_trimmed || exact He).
Qed.

(** The two ways to present a token. *)
Definition by_header (id token : string) : request := {| q_host_id := id; q_XToken := token; q_Authorization := ""; q_upgrade := false |}.
Definition by_bearer (id token : string) : request :=
  {| q_host_id := id; q_XToken := ""; q_Authorization := "Bearer " ++ token; q_upgrade := false |}.

Lemma extract_bearer id token : ExtractToken (by_bearer id token) = TrimSpace token.
Proof.
  unfold ExtractToken, by_bearer. cbn [q_XToken q_Authorization].
  change (raw ("Bearer " ++ token)) with (raw "Bearer " ++ raw token). rewrite bool_decide_false by done.
  rewrite length_app. cbn [length Nat.add]. change (take 7 (raw "Bearer " ++ raw token)) with (raw "Bearer ").
  change (drop 7 (raw "Bearer " ++ raw token)) with (raw token). by rewrite str_raw.
Qed.

(** C17. Which tokens open the preview URL they were set for. A token that is accepted, whether
    drawn or brought along, opens it in either header if it neither begins nor ends with
    white space. One that does, such as a token pasted with its line break, is accepted
    and stored all the same, but no request of any kind opens the URL with it again: the
    header is trimmed and the stored token is not. *)
Theorem preview_token_opens random scheme token plain hash id :
  ProcessRequest random scheme token = Ok (plain, hash) -> plain <> ""%string -> Auth.Sum256 (raw plain) <> [] ->
  (trimmed (raw plain) -> preview_gate (Some hash) (by_header id plain) = None /\ preview_gate (Some hash) (by_bearer id plain) = None) /\
  (~ trimmed (raw plain) -> forall q, preview_gate (Some hash) q = None ->
     exists other, other <> plain /\ Auth.Sum256 (raw other) = Auth.Sum256 (raw plain)).
Proof.
  intros E Hp Hs. assert (hash = SHA256Hex plain) as ->.
  { unfold ProcessRequest in E. repeat case_hyp E; by simplify_eq. }
  unfold preview_gate. rewrite SHA256Hex_nonempty by done. split.
  - intros Ht. rewrite extract_bearer. unfold ExtractToken at 1 2, by_header. cbn [q_XToken].
    rewrite (proj2 (String.eqb_neq plain "") Hp). cbn [negb]. rewrite (TrimSpace_same plain Ht), (proj2 (String.eqb_neq plain "") Hp).
    unfold ConstantTimeEqualString. by rewrite String.eqb_refl.
  - intros Ht q Hq. case_hyp Hq; [done|]. case_hyp Hq; [done|]. apply negb_false_iff, String.eqb_eq in Heqb0.
    exists (ExtractToken q). split; [|by apply SHA256Hex_inj]. intros Heq. apply Ht. rewrite <- Heq. apply ExtractToken_trimmed.
Qed.

(** ** Requests *)

Context (order : list Registry.WorkerEntry -> list Registry.WorkerEntry) (cp : string) (parses : string -> bool).

(** A request without the right token changes nothing and wakes nothing, whatever the
    state of the sandbox and whatever fails: the gate comes before everything else. *)
Theorem gate_before_wake q s n w code :
  (forall sess hash, SandboxProxy.i_ok (i_base (s n)) = true ->
     SessionStore.GetSandboxSession (SandboxProxy.store (base w)) (q_host_id q) = Some sess ->
     hash = hashes w !! q_host_id q -> preview_gate hash q = Some code) ->
  fst (run (doProxy order cp parses q) s n w) = w /\
  (snd (run (doProxy order cp parses q) s n w) = Reply 404 \/ snd (run (doProxy order cp parses q) s n w) = Reply code).
Proof.
  intros Hg. unfold doProxy. cbn. destruct (SandboxProxy.i_ok _) eqn:Ho; [|by split; [|left]].
  destruct (SessionStore.GetSandboxSession _ _) as [sess|] eqn:Es; [|by split; [|left]].
  rewrite (Hg sess _ eq_refl eq_refl eq_refl). cbn. by split; [|right].
Qed.

Lemma alone_lift {A} (p : SandboxProxy.program A) i w :
  alone (lift p) i w = let '(b, a) := alone p (i_base i) (base w) in ({| base := b; hashes := hashes w |}, a).
Proof.
  revert w. induction p as [a|B f k IH]; intros w; cbn; [by destruct w|]. destruct (f (i_base i) (base w)) as [b r]. by rewrite IH.
Qed.

Section Alone.
Variables (i : input) (q : request) (w : world).
Hypothesis fine : SandboxProxy.i_ok (i_base i) = true /\ SandboxProxy.i_did (i_base i) = true.

(** The statement that marks a session stopped. *)
Lemma mark_stopped_alone id msg (v : world) :
  alone (mark_stopped id msg) i v =
  (on_base (SandboxProxy.on_store (fun d => fst (SessionStore.UpdateSandboxSessionStatus (SandboxProxy.i_now (i_base i)) d id "stopped" (Some msg)))) v, tt).
Proof. destruct fine as [_ Hd]. unfold mark_stopped. rewrite alone_lift. cbn -[SessionStore.UpdateSandboxSessionStatus]. by rewrite Hd. Qed.

(** What the program inside a sandbox answers can take the sandbox off the books. A reply
    of status 502 whose text holds the words not found or not available is taken for that
    of a worker that has lost the sandbox: the session is marked stopped, its billing ends,
    and its owner is told that it is gone, while its VM runs on. Anyone who may open the
    URL can ask for such a reply. A worker that really has no such sandbox answers with
    another text, which is not recognised. *)
Theorem guest_reply_stops_session s wk :
  SessionStore.GetSandboxSession (SandboxProxy.store (base w)) (q_host_id q) = Some s -> SessionStore.status s = "running"%string ->
  preview_gate (hashes w !! q_host_id q) q = None -> q_upgrade q = false ->
  Registry.GetWorker (SandboxProxy.registry cp (base w)) (SessionStore.worker_id s) = Some wk ->
  Registry.HTTPAddr wk <> ""%string -> parses (Registry.HTTPAddr wk) = true ->
  let '(w', r) := alone (doProxy order cp parses q) i w in
  r = (if lost_reply (i_code i) (i_body i) then Reply 410 else Answer (if i_code i =? 0 then 200 else i_code i) (i_body i)) /\
  SandboxProxy.vms (base w') = SandboxProxy.vms (base w) /\
  SessionStore.sessions (SandboxProxy.store (base w')) =
    (if lost_reply (i_code i) (i_body i) then
       SessionStore.UPDATE (SessionStore.status_where (q_host_id q) "stopped")
         (SessionStore.status_set (SandboxProxy.i_now (i_base i)) "stopped" (Some "sandbox lost on worker"%string))
     else fun l => l) (SessionStore.sessions (SandboxProxy.store (base w))) /\
  lost_reply 502 (upstream_unavailable "sb-1a2b3c4d") = false.
Proof.
  intros Hs Hr Hg Hu Hw Ha Hp. destruct fine as [Hok Hd]. unfold doProxy. rewrite alone_bind. cbn -[bind forward lift]. rewrite Hok, Hs, Hg, Hr.
  cbn -[bind forward lift]. rewrite alone_bind, alone_lift.
  change (alone (SandboxProxy.get_worker cp (SessionStore.worker_id s)) (i_base i) (base w))
    with (base w, Registry.GetWorker (SandboxProxy.registry cp (base w)) (SessionStore.worker_id s)).
  cbv iota beta. rewrite Hw, (proj2 (String.eqb_neq _ _) Ha).
  unfold forward, doHTTP. rewrite Hu, Hp. cbn [negb]. rewrite alone_bind. cbn -[bind lost_reply mark_stopped]. rewrite Hok, Hd.
  destruct (lost_reply (i_code i) (i_body i)).
  - rewrite alone_bind, mark_stopped_alone. cbn -[SessionStore.UpdateSandboxSessionStatus].
    split_and!; [done|done|apply SessionFacts.status_sessions|by vm_compute].
  - cbn. split_and!; [done|done|done|by vm_compute].
Qed.

(** A sandbox in the paused tier has no checkpoint to wake from: its preview URL does not
    answer, however often it is asked for, and its worker is not asked to resume it. *)
Lemma paused_unreachable s :
  SessionStore.GetSandboxSession (SandboxProxy.store (base w)) (q_host_id q) = Some s -> SessionStore.status s = "hibernated"%string ->
  preview_gate (hashes w !! q_host_id q) q = None -> i_org i = None ->
  SessionStore.GetActiveHibernation (SandboxProxy.store (base w)) (q_host_id q) = None ->
  alone (doProxy order cp parses q) i w = (w, Unavailable).
Proof.
  intros Hs Hr Hg Ho Hh. destruct fine as [Hok Hd]. unfold doProxy. rewrite alone_bind. cbn -[bind lift wakeHibernatedSandbox].
  rewrite Hok, Hs, Hg, Hr. cbn -[bind lift wakeHibernatedSandbox]. rewrite alone_bind. cbn -[bind lift wakeHibernatedSandbox]. rewrite Ho.
  rewrite alone_bind. unfold wakeHibernatedSandbox. rewrite alone_lift. unfold SandboxProxy.wakeHibernatedSandbox. rewrite alone_bind.
  cbn -[bind]. rewrite Hok, Hh. cbn. by destruct w.
Qed.

(** After a rotation the hash of the new token is the one that the gate compares with. *)
Lemma rotation_effective org id token r w' :
  SessionStore.latest_session (SandboxProxy.store (base w)) id = Some r -> settable id r = true ->
  alone (rotateSandboxPreviewAuth org id) i w = (w', Ok token) ->
  hashes w' !! id = (if String.eqb (SHA256Hex token) "" then None else Some (SHA256Hex token)) /\ base w' = base w.
Proof.
  intros Hl Hset. destruct fine as [Hok Hd]. unfold rotateSandboxPreviewAuth. rewrite alone_bind.
  destruct (alone _ i w) as [w1 found] eqn:E1. assert (w1 = w) as -> by (destruct org; cbn in E1; by simplify_eq).
  destruct found; [|done]. cbn [negb]. rewrite alone_bind. cbn -[bind SetSandboxPreviewAuth].
  destruct (i_random i) as [t|]; [|done]. rewrite alone_bind. cbn. rewrite Hok, Hd, Hl, Hset.
  destruct (existsb _ _); [|done]. cbn. intros [= <- <-]. cbn. split; [|done].
  destruct (String.eqb (SHA256Hex t) ""); [by rewrite lookup_delete_eq|by rewrite lookup_insert_eq].
Qed.

End Alone.
End Facts.

(** ** Examples *)

#[local] Existing Instance AuthFacts.toy_crypto.

Definition pasted : string := str (raw "0123456789abcdef" ++ [ascii_of_N 10]).

Lemma preview_token_opens_witness :
  (trimmed (raw pasted) -> preview_gate (Some (SHA256Hex pasted)) (by_header "sb" pasted) = None /\
     preview_gate (Some (SHA256Hex pasted)) (by_bearer "sb" pasted) = None) /\
  (~ trimmed (raw pasted) -> forall q, preview_gate (Some (SHA256Hex pasted)) q = None ->
     exists other, other <> pasted /\ Auth.Sum256 (raw other) = Auth.Sum256 (raw pasted)).
Proof.
  apply (preview_token_opens None "" pasted pasted (SHA256Hex pasted) "sb"); [vm_compute; reflexivity|done|done].
Defined.

(** The token with a line break is accepted, and does not open the URL it was set for. *)
Example pasted_token_locks_out :
  ProcessRequest None "" pasted = Ok (pasted, SHA256Hex pasted) /\
  preview_gate (Some (SHA256Hex pasted)) (by_header "sb" pasted) = Some 401.
Proof. by vm_compute. Qed.

Definition awake : world := {|
  base := SandboxProxy.mkP (SessionFacts.run (SessionFacts.empty_db []) [(1, SessionFacts.Create "sb" "org" "base" "eu" "w1" "running" None)])%string
    {["cp1"%string := SandboxProxyFacts.two_workers]} ∅ ∅ ∅ [] [];
  hashes := ∅ |}.
Definition replying (code : Z) (body : string) : input :=
  {| i_base := SandboxProxyFacts.answer 9 0; i_org := None; i_code := code; i_body := body; i_random := None |}.
Definition visit : request := {| q_host_id := "sb"; q_XToken := ""; q_Authorization := ""; q_upgrade := false |}.

Lemma gate_before_wake_witness :
  let w := {| base := base awake; hashes := {["sb"%string := SHA256Hex "right"]} |} in
  fst (run (doProxy id "cp1" (fun _ => true) visit) (fun _ => replying 200 "") 0 w) = w /\
  (snd (run (doProxy id "cp1" (fun _ => true) visit) (fun _ => replying 200 "") 0 w) = Reply 404 \/
   snd (run (doProxy id "cp1" (fun _ => true) visit) (fun _ => replying 200 "") 0 w) = Reply 401).
Proof.
  intros w. apply (gate_before_wake id "cp1" (fun _ => true) visit (fun _ => replying 200 "") 0 w 401).
  intros sess hash _ _ ->. vm_compute. reflexivity.
Defined.

Lemma guest_reply_stops_session_witness :
  let '(w', r) := alone (doProxy id "cp1" (fun _ => true) visit) (replying 502 "page not found") awake in
  r = (if lost_reply 502 "page not found" then Reply 410 else Answer (if 502 =? 0 then 200 else 502) "page not found") /\
  SandboxProxy.vms (base w') = SandboxProxy.vms (base awake) /\
  SessionStore.sessions (SandboxProxy.store (base w')) =
    (if lost_reply 502 "page not found" then
       SessionStore.UPDATE (SessionStore.status_where "sb" "stopped")
         (SessionStore.status_set 9 "stopped" (Some "sandbox lost on worker"%string))
     else fun l => l) (SessionStore.sessions (SandboxProxy.store (base awake))) /\
  lost_reply 502 (upstream_unavailable "sb-1a2b3c4d") = false.
Proof.
  eapply (guest_reply_stops_session id "cp1" (fun _ => true) (replying 502 "page not found") visit awake);
    [by split|vm_compute; reflexivity|reflexivity|reflexivity|reflexivity|vm_compute; reflexivity|done|reflexivity].
Defined.

End PreviewFacts.
