(* ===== verification/Checkpoints.v ===== *)
(** * Checkpoints

    The checkpoint handlers of src/internal/api/sandbox.go (creating with its retention
    policy, promotion to a full checkpoint, restoring, forking, deleting, publishing,
    patches), the deletion of the dashboard, the checkpoint of an image build, the
    readiness gate of src/internal/api/router.go, and their statements in
    src/internal/db/store.go, for a control plane with a database, workers and an object
    store. Requests and the goroutines they leave behind ([jobs]) run at once; every
    statement and call is a step whose answer is an input.

    The secret stores of a fork are in SecretLayers.v: here it is an input whether they
    resolve. Events, webhooks, tokens and the golden version of a row are not part of the
    state. *)

From stdpp Require Import sorting.
From S2P Require Import Prelude SessionStore Threads.
From Stdlib Require Import Ascii.
#[local] Open Scope Z_scope.

Module Checkpoints.
Export Threads.
#[local] Open Scope prog_scope.

(** ** Rows and objects *)

(** The columns of [sandbox_checkpoints] that decide anything. *)
Record Checkpoint := {
  k_ID : string; k_SandboxID : string; k_OrgID : string; k_Name : string; k_Kind : string; k_Status : string;
  k_RootfsS3Key : option string; k_WorkspaceS3Key : option string;
  k_PromotionStatus : option string; k_PromotedCheckpointID : option string;
  k_PromotedRootfsS3Key : option string; k_PromotedWorkspaceS3Key : option string;
  k_IsPublic : bool; k_CreatedAt : Z
}.

(** The keys under which a worker stores a checkpoint (internal/qemu/manager.go). *)
Definition rootfsKey (sandboxID checkpointID : string) : string :=
  str (raw "checkpoints/" ++ raw sandboxID ++ "/"%char :: raw checkpointID ++ "/"%char :: raw "rootfs.tar.zst").
Definition workspaceKey (sandboxID checkpointID : string) : string :=
  str (raw "checkpoints/" ++ raw sandboxID ++ "/"%char :: raw checkpointID ++ "/"%char :: raw "workspace.tar.zst").

(** The row of a patch, without the script. *)
Record CheckpointPatch := { p_ID : string; p_CheckpointID : string; p_Sequence : Z }.

(** What goes on in the background: goroutines that take a checkpoint, promote it, restore
    one or delete objects, and the upload of a worker whose caller has given up. *)
Inductive job :=
| JCheckpoint (id sandboxID worker kind : string) (promote : option string) (pending : nat)
| JPromotion (id artifact worker rootfs workspace : string)
| JRestore (id sandboxID worker : string) (pending : nat)
| JDelete (keys : list string)
| JUpload (key : string).

(** [next]: the number of identifiers drawn by [uuid.New]. [objects]: the object store.
    [based_on], [last_seq], [patch_err]: the columns based_on_checkpoint_id,
    last_patch_sequence and whether patch_error is set, of the sessions of a sandbox. [ran]:
    which patches ran in which sandbox. [vms]: which worker runs a VM of which sandbox.
    [pending]: pendingCreates, entries by number; [closed]: the entries whose channel is
    closed, and whether without an error. *)
Record world := mkC {
  rows : list Checkpoint; next : N; objects : gset string; store : SessionStore.db;
  patches : list CheckpointPatch; based_on : gmap string string; last_seq : gmap string Z; patch_err : gset string;
  ran : list (string * string); vms : gset (string * string);
  pending : gmap string nat; closed : gmap nat bool; fresh : nat; jobs : list job
}.

Definition on_rows f w := mkC (f (rows w)) (next w) (objects w) (store w) (patches w) (based_on w) (last_seq w) (patch_err w) (ran w) (vms w) (pending w) (closed w) (fresh w) (jobs w).
Definition on_next f w := mkC (rows w) (f (next w)) (objects w) (store w) (patches w) (based_on w) (last_seq w) (patch_err w) (ran w) (vms w) (pending w) (closed w) (fresh w) (jobs w).
Definition on_objects f w := mkC (rows w) (next w) (f (objects w)) (store w) (patches w) (based_on w) (last_seq w) (patch_err w) (ran w) (vms w) (pending w) (closed w) (fresh w) (jobs w).
Definition on_store f w := mkC (rows w) (next w) (objects w) (f (store w)) (patches w) (based_on w) (last_seq w) (patch_err w) (ran w) (vms w) (pending w) (closed w) (fresh w) (jobs w).
Definition on_patches f w := mkC (rows w) (next w) (objects w) (store w) (f (patches w)) (based_on w) (last_seq w) (patch_err w) (ran w) (vms w) (pending w) (closed w) (fresh w) (jobs w).
Definition on_based f w := mkC (rows w) (next w) (objects w) (store w) (patches w) (f (based_on w)) (last_seq w) (patch_err w) (ran w) (vms w) (pending w) (closed w) (fresh w) (jobs w).
Definition on_seq f w := mkC (rows w) (next w) (objects w) (store w) (patches w) (based_on w) (f (last_seq w)) (patch_err w) (ran w) (vms w) (pending w) (closed w) (fresh w) (jobs w).
Definition on_err f w := mkC (rows w) (next w) (objects w) (store w) (patches w) (based_on w) (last_seq w) (f (patch_err w)) (ran w) (vms w) (pending w) (closed w) (fresh w) (jobs w).
Definition on_ran f w := mkC (rows w) (next w) (objects w) (store w) (patches w) (based_on w) (last_seq w) (patch_err w) (f (ran w)) (vms w) (pending w) (closed w) (fresh w) (jobs w).
Definition on_vms f w := mkC (rows w) (next w) (objects w) (store w) (patches w) (based_on w) (last_seq w) (patch_err w) (ran w) (f (vms w)) (pending w) (closed w) (fresh w) (jobs w).
Definition on_pending f w := mkC (rows w) (next w) (objects w) (store w) (patches w) (based_on w) (last_seq w) (patch_err w) (ran w) (vms w) (f (pending w)) (closed w) (fresh w) (jobs w).
Definition on_closed f w := mkC (rows w) (next w) (objects w) (store w) (patches w) (based_on w) (last_seq w) (patch_err w) (ran w) (vms w) (pending w) (f (closed w)) (fresh w) (jobs w).
Definition on_fresh f w := mkC (rows w) (next w) (objects w) (store w) (patches w) (based_on w) (last_seq w) (patch_err w) (ran w) (vms w) (pending w) (closed w) (f (fresh w)) (jobs w).
Definition on_jobs f w := mkC (rows w) (next w) (objects w) (store w) (patches w) (based_on w) (last_seq w) (patch_err w) (ran w) (vms w) (pending w) (closed w) (fresh w) (f (jobs w)).

(** An identifier drawn: never the same twice. *)
Definition uuid (n : N) : string := str (itoa n).

(** The answer to a step: whether it is reported as done, whether it was done, the time, a
    worker, whether the disks of the VM are merged, an identifier, which goroutine runs. *)
Record input := { i_ok : bool; i_did : bool; i_now : Z; i_worker : option string; i_merged : bool; i_id : string; i_job : nat }.

Abbreviation program := (prog world input).

Definition ask : program bool := command (fun i w => (w, i_ok i)).

(** A statement: its effect, and whether it reports success. *)
Definition exec_ (f : input -> world -> world) : program bool :=
  command (fun i w => (if i_did i then f i w else w, i_ok i)).

Definition go_ (j : job) : program unit := command (fun _ w => (on_jobs (fun l => l ++ [j]) w, tt)).

(** ** Statements *)

Definition same := SessionStore.same.

Definition CountCheckpointsByKind (sandboxID kind : string) (l : list Checkpoint) : nat :=
  length (List.filter (fun r => same (k_SandboxID r) sandboxID && same (k_Kind r) kind) l).

Definition created_before (a b : Checkpoint) : Prop := k_CreatedAt a <= k_CreatedAt b.
#[export] Instance created_before_dec : RelDecision created_before.
Proof. intros a b. unfold created_before. apply _. Defined.

Definition retention_candidate (sandboxID org kind : string) (w : world) (r : Checkpoint) : bool :=
  same (k_SandboxID r) sandboxID && same (k_OrgID r) org && (same kind "" || same (k_Kind r) kind) && negb (k_IsPublic r) &&
  negb (existsb (fun p => same (p_CheckpointID p) (k_ID r)) (patches w)) &&
  negb (existsb (fun x => same (snd x) (k_ID r)) (map_to_list (based_on w))).

Definition ListCheckpointRetentionCandidatesByKind (sandboxID org kind : string) (limit : nat) (w : world) : list Checkpoint :=
  take limit (merge_sort created_before (List.filter (retention_candidate sandboxID org kind w) (rows w))).

Definition update_row (id : string) (f : Checkpoint -> Checkpoint) (l : list Checkpoint) : list Checkpoint :=
  map (fun r => if same (k_ID r) id then f r else r) l.

Definition SetCheckpointReady (rootfs workspace : string) (r : Checkpoint) : Checkpoint :=
  {| k_ID := k_ID r; k_SandboxID := k_SandboxID r; k_OrgID := k_OrgID r; k_Name := k_Name r; k_Kind := k_Kind r; k_Status := "ready";
     k_RootfsS3Key := Some rootfs; k_WorkspaceS3Key := Some workspace; k_PromotionStatus := k_PromotionStatus r;
     k_PromotedCheckpointID := k_PromotedCheckpointID r; k_PromotedRootfsS3Key := k_PromotedRootfsS3Key r;
     k_PromotedWorkspaceS3Key := k_PromotedWorkspaceS3Key r; k_IsPublic := k_IsPublic r; k_CreatedAt := k_CreatedAt r |}.

Definition SetCheckpointFailed (r : Checkpoint) : Checkpoint :=
  {| k_ID := k_ID r; k_SandboxID := k_SandboxID r; k_OrgID := k_OrgID r; k_Name := k_Name r; k_Kind := k_Kind r; k_Status := "failed";
     k_RootfsS3Key := k_RootfsS3Key r; k_WorkspaceS3Key := k_WorkspaceS3Key r; k_PromotionStatus := k_PromotionStatus r;
     k_PromotedCheckpointID := k_PromotedCheckpointID r; k_PromotedRootfsS3Key := k_PromotedRootfsS3Key r;
     k_PromotedWorkspaceS3Key := k_PromotedWorkspaceS3Key r; k_IsPublic := k_IsPublic r; k_CreatedAt := k_CreatedAt r |}.

(** [SetCheckpointPromotionProcessing] and [SetCheckpointPromotionFailed] *)
Definition SetPromotionStatus (st : string) (r : Checkpoint) : Checkpoint :=
  {| k_ID := k_ID r; k_SandboxID := k_SandboxID r; k_OrgID := k_OrgID r; k_Name := k_Name r; k_Kind := k_Kind r; k_Status := k_Status r;
     k_RootfsS3Key := k_RootfsS3Key r; k_WorkspaceS3Key := k_WorkspaceS3Key r; k_PromotionStatus := Some st;
     k_PromotedCheckpointID := k_PromotedCheckpointID r; k_PromotedRootfsS3Key := k_PromotedRootfsS3Key r;
     k_PromotedWorkspaceS3Key := k_PromotedWorkspaceS3Key r; k_IsPublic := k_IsPublic r; k_CreatedAt := k_CreatedAt r |}.

Definition SetCheckpointPromotionReady (promotedID rootfs workspace : string) (r : Checkpoint) : Checkpoint :=
  {| k_ID := k_ID r; k_SandboxID := k_SandboxID r; k_OrgID := k_OrgID r; k_Name := k_Name r; k_Kind := k_Kind r; k_Status := k_Status r;
     k_RootfsS3Key := k_RootfsS3Key r; k_WorkspaceS3Key := k_WorkspaceS3Key r; k_PromotionStatus := Some "ready"%string;
     k_PromotedCheckpointID := Some promotedID; k_PromotedRootfsS3Key := Some rootfs;
     k_PromotedWorkspaceS3Key := Some workspace; k_IsPublic := k_IsPublic r; k_CreatedAt := k_CreatedAt r |}.

Definition GetCheckpoint (id : string) (l : list Checkpoint) : option Checkpoint := List.find (fun r => same (k_ID r) id) l.

Definition owned (org id : string) (r : Checkpoint) : bool := same (k_ID r) id && same (k_OrgID r) org.

(** One transaction: the references of forks are cleared and the row is deleted, with its
    patches (ON DELETE CASCADE), or nothing happens. Whether it reports success. *)
Definition DeleteCheckpoint (org id : string) : program bool :=
  command (fun i w =>
    if existsb (owned org id) (rows w) then
      (if i_did i then
         on_patches (List.filter (fun p => negb (same (p_CheckpointID p) id)))
           (on_based (fun m => filter (fun x => snd x <> id) m) (on_rows (List.filter (fun r => negb (owned org id r))) w))
       else w, i_ok i)
    else (w, false)).

(** ** Creating *)

Definition maxFullCheckpointsPerSandbox : nat := 10.
Definition maxDiskOnlyCheckpointsPerSandbox : nat := 100.
Definition maxCheckpointsForKind (kind : string) : nat :=
  if same kind "disk_only" then maxDiskOnlyCheckpointsPerSandbox else maxFullCheckpointsPerSandbox.

Definition shouldPromoteCheckpoint (kind : string) (promoteToFull : option bool) : bool :=
  same kind "disk_only" && match promoteToFull with None => true | Some b => b end.

Record createCheckpointRequest := { r_Name : string; r_Kind : string; r_PromoteToFull : option bool; r_Mode : string; r_MaxCount : Z }.

Inductive response := Reply (code : Z).

(** The keys of a row. *)
Definition row_keys (r : Checkpoint) : list string :=
  omap (fun k => k) [k_RootfsS3Key r; k_WorkspaceS3Key r; k_PromotedRootfsS3Key r; k_PromotedWorkspaceS3Key r].

Definition deleteCheckpointRecordAndObjects (cp : Checkpoint) (org : string) : program bool :=
  do ok <- DeleteCheckpoint org (k_ID cp);
  if negb ok then Ret false
  else do _ <- go_ (JDelete (row_keys cp)); Ret true.

(** The loop over the candidates; [false]: a deletion failed. *)
Fixpoint retention_loop (l : list Checkpoint) (org : string) : program bool :=
  match l with
  | [] => Ret true
  | cp :: l => do ok <- deleteCheckpointRecordAndObjects cp org; if ok then retention_loop l org else Ret false
  end.

(** What the retention policy makes of the count: a status, or the count afterwards. *)
Definition apply_retention (req : createCheckpointRequest) (sandboxID org kind : string) (limit count : nat) : program (result Z nat) :=
  if same (r_Mode req) "" || same (r_Mode req) "none" then Ret (Ok count)
  else if negb (same (r_Mode req) "delete_oldest") then Ret (Err 400)
  else
    let maxCount := if r_MaxCount req =? 0 then Z.of_nat limit else r_MaxCount req in
    if (maxCount <? 1) || (Z.of_nat limit <? maxCount) then Ret (Err 400)
    else if Z.of_nat count <? maxCount then Ret (Ok count)
    else
      let deleteCount := Z.to_nat (Z.of_nat count - maxCount + 1) in
      do candidates <- command (fun i w =>
        (w, if i_ok i then Some (ListCheckpointRetentionCandidatesByKind sandboxID org kind deleteCount w) else None));
      match candidates with
      | None => Ret (Err 500)
      | Some candidates =>
          if (length candidates <? deleteCount)%nat then Ret (Err 400)
          else
            do ok <- retention_loop candidates org;
            if negb ok then Ret (Err 500) else Ret (Ok (count - length candidates)%nat)
      end.

(** The insert draws the identifiers of the checkpoint and of its promoted form. *)
Definition CreateCheckpoint (sandboxID org name kind : string) (promote : bool) : program (result Z (string * option string)) :=
  command (fun i w =>
    if existsb (fun r => same (k_SandboxID r) sandboxID && same (k_Name r) name) (rows w) then (w, Err (if i_ok i then 409 else 500))
    else
      let id := uuid (next w) in
      let artifact := if promote then Some (uuid (next w + 1)%N) else None in
      let row := {| k_ID := id; k_SandboxID := sandboxID; k_OrgID := org; k_Name := name; k_Kind := kind; k_Status := "processing";
                    k_RootfsS3Key := None; k_WorkspaceS3Key := None; k_PromotionStatus := if promote then Some "pending"%string else None;
                    k_PromotedCheckpointID := artifact; k_PromotedRootfsS3Key := None; k_PromotedWorkspaceS3Key := None;
                    k_IsPublic := false; k_CreatedAt := i_now i |} in
      (on_next (fun n => (n + 2)%N) (if i_did i then on_rows (fun l => l ++ [row]) w else w),
       if i_ok i then Ok (id, artifact) else Err 500)).

(** A new entry of pendingCreates. *)
Definition store_pending (sandboxID : string) : program nat :=
  command (fun _ w => (on_fresh S (on_pending (insert sandboxID (fresh w)) w), fresh w)).
Definition delete_pending (sandboxID : string) : program unit := command (fun _ w => (on_pending (delete sandboxID) w, tt)).
Definition close_pending (p : nat) (ok : bool) : program unit := command (fun _ w => (on_closed (insert p ok) w, tt)).

Definition get_session (id : string) : program (option SessionStore.session) :=
  command (fun i w => (w, if i_ok i then SessionStore.GetSandboxSession (store w) id else None)).

(** The handler, up to the goroutine. [bound]: the body is read. *)
Definition createCheckpoint (org : option string) (sandboxID : string) (bound : bool) (req : createCheckpointRequest) : program response :=
  match org with
  | None => Ret (Reply 401)
  | Some org =>
      do s <- get_session sandboxID;
      match s with
      | None => Ret (Reply 404)
      | Some s =>
          if negb (same (SessionStore.org_id s) org) then Ret (Reply 403)
          else if negb (same (SessionStore.status s) "running") then Ret (Reply 400)
          else if negb bound || same (r_Name req) "" then Ret (Reply 400)
          else
            let kind := if same (r_Kind req) "" then "full"%string else r_Kind req in
            if negb (same kind "full") && negb (same kind "disk_only") then Ret (Reply 400)
            else if match r_PromoteToFull req with Some true => negb (same kind "disk_only") | _ => false end then Ret (Reply 400)
            else
              let limit := maxCheckpointsForKind kind in
              do count <- command (fun i w => (w, if i_ok i then Some (CountCheckpointsByKind sandboxID kind (rows w)) else None));
              match count with
              | None => Ret (Reply 500)
              | Some count =>
                  do r <- apply_retention req sandboxID org kind limit count;
                  match r with
                  | Err code => Ret (Reply code)
                  | Ok count =>
                      if (limit <=? count)%nat then Ret (Reply 400)
                      else
                        do r <- CreateCheckpoint sandboxID org (r_Name req) kind (shouldPromoteCheckpoint kind (r_PromoteToFull req));
                        match r with
                        | Err code => Ret (Reply code)
                        | Ok (id, artifact) =>
                            do p <- store_pending sandboxID;
                            do client <- ask;
                            if negb client then do _ <- delete_pending sandboxID; Ret (Reply 503)
                            else do _ <- go_ (JCheckpoint id sandboxID (SessionStore.worker_id s) kind artifact p); Ret (Reply 201)
                        end
                  end
              end
      end
  end.

(** ** The goroutines *)

(** [CreateCheckpoint] of a worker: it stores the archive, and returns the keys. What it
    does not report in time it may still do later. *)
Definition grpc_checkpoint (sandboxID checkpointID : string) : program (option (string * string)) :=
  command (fun i w =>
    let key := rootfsKey sandboxID checkpointID in
    if i_ok i then
      (if i_did i then on_objects (fun o => {[key]} ∪ o) w else w,
       Some (key, if i_merged i then ""%string else workspaceKey sandboxID checkpointID))
    else (if i_did i then on_jobs (fun l => l ++ [JUpload key]) w else w, None)).

(** [CreateSandbox] and [DestroySandbox] of a worker. *)
Definition grpc_create (worker sandboxID : string) : program bool :=
  exec_ (fun _ => on_vms (fun s => {[(worker, sandboxID)]} ∪ s)).
Definition grpc_destroy (worker sandboxID : string) : program bool :=
  exec_ (fun _ => on_vms (fun s => s ∖ {[(worker, sandboxID)]})).

(** The goroutine of [createCheckpoint]. *)
Definition checkpoint_job (id sandboxID worker kind : string) (promote : option string) (p : nat) : program unit :=
  do r <- grpc_checkpoint sandboxID id;
  do _ <- close_pending p (bool_decide (r <> None));
  match r with
  | None => do _ <- exec_ (fun _ => on_rows (update_row id SetCheckpointFailed)); Ret tt
  | Some (rootfs, workspace) =>
      do ok <- exec_ (fun _ => on_rows (update_row id (SetCheckpointReady rootfs workspace)));
      match promote with
      | Some artifact => if ok then go_ (JPromotion id artifact worker rootfs workspace) else Ret tt
      | None => Ret tt
      end
  end.

(** [promoteCheckpointToFull]: a VM is booted from the checkpoint, captured and destroyed. *)
Definition promoteCheckpointToFull (artifact worker : string) : program (option (string * string)) :=
  do client <- ask;
  if negb client then Ret None
  else
    do sb <- command (fun i w => (w, i_id i));
    do booted <- grpc_create worker sb;
    if negb booted then Ret None
    else
      do r <- grpc_checkpoint sb artifact;
      do _ <- grpc_destroy worker sb;
      Ret r.

(** The goroutine of [startCheckpointPromotion]. *)
Definition promotion_job (id artifact worker : string) : program unit :=
  do _ <- exec_ (fun _ => on_rows (update_row id (SetPromotionStatus "processing")));
  do r <- promoteCheckpointToFull artifact worker;
  match r with
  | None => do _ <- exec_ (fun _ => on_rows (update_row id (SetPromotionStatus "failed"))); Ret tt
  | Some (rootfs, workspace) =>
      do _ <- exec_ (fun _ => on_rows (update_row id (SetCheckpointPromotionReady artifact rootfs workspace))); Ret tt
  end.

(** The goroutine of [restoreCheckpoint]. *)
Definition restore_job (p : nat) : program unit := do ok <- ask; close_pending p ok.

(** A goroutine gets to run. *)
Definition goroutine : program unit :=
  do j <- command (fun i w =>
    match jobs w !! i_job i with
    | Some j => (on_jobs (fun l => take (i_job i) l ++ drop (S (i_job i)) l) w, Some j)
    | None => (w, None)
    end);
  match j with
  | None => Ret tt
  | Some (JCheckpoint id sb worker kind promote p) => checkpoint_job id sb worker kind promote p
  | Some (JPromotion id artifact worker _ _) => promotion_job id artifact worker
  | Some (JRestore _ _ _ p) => restore_job p
  | Some (JDelete keys) => for_each keys (fun key => do _ <- exec_ (fun _ => on_objects (fun o => o ∖ {[key]})); Ret tt)
  | Some (JUpload key) => command (fun _ w => (on_objects (fun o => {[key]} ∪ o) w, tt))
  end.

(** ** Restoring, deleting, waiting *)

Definition get_checkpoint (id : string) : program (option Checkpoint) :=
  command (fun i w => (w, if i_ok i then GetCheckpoint id (rows w) else None)).

(** [id]: [None] if it is no UUID. *)
Definition restoreCheckpoint (org : option string) (sandboxID : string) (id : option string) : program response :=
  match org, id with
  | None, _ => Ret (Reply 401)
  | Some _, None => Ret (Reply 400)
  | Some org, Some id =>
      do s <- get_session sandboxID;
      match s with
      | None => Ret (Reply 404)
      | Some s =>
          if negb (same (SessionStore.org_id s) org) then Ret (Reply 403)
          else if negb (same (SessionStore.status s) "running") then Ret (Reply 400)
          else
            do cp <- get_checkpoint id;
            match cp with
            | None => Ret (Reply 404)
            | Some cp =>
                if negb (same (k_SandboxID cp) sandboxID) then Ret (Reply 400)
                else if negb (same (k_Status cp) "ready") then Ret (Reply 400)
                else
                  do p <- store_pending sandboxID;
                  do client <- ask;
                  if negb client then do _ <- delete_pending sandboxID; Ret (Reply 503)
                  else do _ <- go_ (JRestore id sandboxID (SessionStore.worker_id s) p); Ret (Reply 200)
            end
      end
  end.

Definition deleteCheckpoint (org : option string) (sandboxID : string) (id : option string) : program response :=
  match org, id with
  | None, _ => Ret (Reply 401)
  | Some _, None => Ret (Reply 400)
  | Some org, Some id =>
      do cp <- get_checkpoint id;
      match cp with
      | None => Ret (Reply 404)
      | Some cp =>
          if negb (same (k_SandboxID cp) sandboxID) then Ret (Reply 400)
          else do ok <- deleteCheckpointRecordAndObjects cp org; Ret (Reply (if ok then 204 else 500))
      end
  end.

(** What a request that finds an entry is told: [None] if its context ends first. *)
Definition waitForReady (sandboxID : string) : program (option bool) :=
  do p <- command (fun _ w => (w, pending w !! sandboxID));
  match p with
  | None => Ret (Some true)
  | Some p =>
      do outcome <- command (fun i w => (w, if i_ok i then closed w !! p else None));
      match outcome with
      | Some ok => do _ <- delete_pending sandboxID; Ret (Some ok)
      | None => Ret None
      end
  end.

(** ** The other handlers *)

(** The dashboard deletes the row alone. *)
Definition dashboardDeleteCheckpoint (org id : option string) : program response :=
  match org, id with
  | None, _ => Ret (Reply 401)
  | Some _, None => Ret (Reply 400)
  | Some org, Some id =>
      do _ <- get_checkpoint id;
      do ok <- DeleteCheckpoint org id;
      Ret (Reply (if ok then 204 else 500))
  end.

Definition set_public (b : bool) (r : Checkpoint) : Checkpoint :=
  {| k_ID := k_ID r; k_SandboxID := k_SandboxID r; k_OrgID := k_OrgID r; k_Name := k_Name r; k_Kind := k_Kind r; k_Status := k_Status r;
     k_RootfsS3Key := k_RootfsS3Key r; k_WorkspaceS3Key := k_WorkspaceS3Key r; k_PromotionStatus := k_PromotionStatus r;
     k_PromotedCheckpointID := k_PromotedCheckpointID r; k_PromotedRootfsS3Key := k_PromotedRootfsS3Key r;
     k_PromotedWorkspaceS3Key := k_PromotedWorkspaceS3Key r; k_IsPublic := b; k_CreatedAt := k_CreatedAt r |}.

Definition SetCheckpointPublic (id org : string) (isPublic : bool) : program bool :=
  command (fun i w =>
    (if i_did i then on_rows (map (fun r => if owned org id r then set_public isPublic r else r)) w else w,
     i_ok i && existsb (owned org id) (rows w))).

(** What the handlers of a checkpoint of the organization begin with. *)
Definition org_checkpoint (org id : option string) : program (result Z (string * Checkpoint)) :=
  match org, id with
  | None, _ => Ret (Err 401)
  | Some _, None => Ret (Err 400)
  | Some org, Some id =>
      do cp <- get_checkpoint id;
      match cp with
      | None => Ret (Err 404)
      | Some cp => if negb (same (k_OrgID cp) org) then Ret (Err 403) else Ret (Ok (org, cp))
      end
  end.

Definition setCheckpointPublic (org id : option string) (isPublic : bool) : program response :=
  do r <- org_checkpoint org id;
  match r with
  | Err code => Ret (Reply code)
  | Ok (org, cp) => do ok <- SetCheckpointPublic (k_ID cp) org isPublic; Ret (Reply (if ok then 200 else 500))
  end.

(** The end of an image build: the checkpoint of the build sandbox, or of the machine it is
    finalized in. [None]: the build fails. *)
Definition checkpoint_build (org buildSandboxID name : string) (finalize : bool) : program (option string) :=
  do r <- CreateCheckpoint buildSandboxID org name "full" false;
  match r with
  | Err _ => Ret None
  | Ok (id, _) =>
      do r <- grpc_checkpoint (if finalize then buildSandboxID ++ "-fin" else buildSandboxID)%string id;
      match r with
      | None => Ret None
      | Some (rootfs, workspace) =>
          do _ <- exec_ (fun _ => on_rows (update_row id (SetCheckpointReady rootfs workspace)));
          Ret (Some id)
      end
  end.

(** ** Patches *)

(** The sequence number is one above the largest of the checkpoint. *)
Definition next_sequence (checkpoint : string) (l : list CheckpointPatch) : Z :=
  fold_right (fun p m => if same (p_CheckpointID p) checkpoint then Z.max (p_Sequence p) m else m) 0 l + 1.

(** The insert fails if the checkpoint is gone. *)
Definition CreateCheckpointPatch (patch checkpoint : string) : program bool :=
  command (fun i w =>
    if existsb (fun r => same (k_ID r) checkpoint) (rows w) then
      (if i_did i then
         on_patches (fun l => l ++ [{| p_ID := patch; p_CheckpointID := checkpoint; p_Sequence := next_sequence checkpoint l |}]) w
       else w, i_ok i)
    else (w, false)).

Definition sequence_order (a b : CheckpointPatch) : Prop := p_Sequence a <= p_Sequence b.
#[export] Instance sequence_order_dec : RelDecision sequence_order.
Proof. intros a b. unfold sequence_order. apply _. Defined.

Definition GetPendingPatches (checkpoint : string) (after : Z) (l : list CheckpointPatch) : list CheckpointPatch :=
  merge_sort sequence_order (List.filter (fun p => same (p_CheckpointID p) checkpoint && (after <? p_Sequence p)) l).

Definition patch_row (checkpoint patch : string) (p : CheckpointPatch) : bool := same (p_ID p) patch && same (p_CheckpointID p) checkpoint.

Definition DeleteCheckpointPatch (checkpoint patch : string) : program bool :=
  command (fun i w =>
    (if i_did i then on_patches (List.filter (fun p => negb (patch_row checkpoint patch p))) w else w,
     i_ok i && existsb (patch_row checkpoint patch) (patches w))).

(** [script]: the body is read and its script is not empty. *)
Definition createCheckpointPatch (org id : option string) (script : bool) : program response :=
  do r <- org_checkpoint org id;
  match r with
  | Err code => Ret (Reply code)
  | Ok (_, cp) =>
      if negb (same (k_Status cp) "ready") || negb script then Ret (Reply 400)
      else
        do patch <- command (fun _ w => (on_next N.succ w, uuid (next w)));
        do ok <- CreateCheckpointPatch patch (k_ID cp);
        Ret (Reply (if ok then 201 else 500))
  end.

(** [patch]: [None] if it is no UUID; that is checked before the checkpoint is read. *)
Definition deleteCheckpointPatch (org id patch : option string) : program response :=
  match org, id, patch with
  | Some _, Some _, None => Ret (Reply 400)
  | _, _, _ =>
      do r <- org_checkpoint org id;
      match r, patch with
      | Err code, _ => Ret (Reply code)
      | Ok (_, cp), Some patch => do ok <- DeleteCheckpointPatch (k_ID cp) patch; Ret (Reply (if ok then 204 else 404))
      | Ok _, None => Ret (Reply 400)
      end
  end.

(** A column of the sessions of a sandbox is set: nothing happens without one. *)
Definition on_session (id : string) (f : world -> world) (w : world) : world :=
  if SessionStore.GetSandboxSession (store w) id then f w else w.

Definition UpdateSandboxPatchSequence (id : string) (n : Z) : program bool :=
  exec_ (fun _ w => on_session id (on_seq (insert id n)) w).
Definition SetSandboxPatchError (id : string) (set : bool) : program bool :=
  exec_ (fun _ w => on_session id (on_err (fun s => if set then {[id]} ∪ s else s ∖ {[id]})) w).

(** The script runs in the sandbox; it may have run although an error is reported. *)
Definition execPatchOnSandbox (id : string) (p : CheckpointPatch) : program bool :=
  exec_ (fun _ => on_ran (fun l => l ++ [(id, p_ID p)])).

(** The loop: it stops at the first failure. *)
Fixpoint patch_loop (id : string) (l : list CheckpointPatch) : program unit :=
  match l with
  | [] => do _ <- SetSandboxPatchError id false; Ret tt
  | p :: l =>
      do ok <- execPatchOnSandbox id p;
      if negb ok then do _ <- SetSandboxPatchError id true; Ret tt
      else do _ <- UpdateSandboxPatchSequence id (p_Sequence p); patch_loop id l
  end.

Definition applyPendingPatches (id : string) : program unit :=
  do s <- command (fun i w => (w, if i_ok i then
    if SessionStore.GetSandboxSession (store w) id then Some (based_on w !! id, default 0 (last_seq w !! id)) else None else None));
  match s with
  | None | Some (None, _) => Ret tt
  | Some (Some checkpoint, after) =>
      do l <- command (fun i w => (w, if i_ok i then Some (GetPendingPatches checkpoint after (patches w)) else None));
      match l with
      | None | Some [] => Ret tt
      | Some l => do _ <- SetSandboxPatchError id false; patch_loop id l
      end
  end.

(** ** Forking *)

(** The checkpoint and the archive that a fork starts from. *)
Definition nonempty (s : option string) : option string := match s with Some ""%string | None => None | Some s => Some s end.

Definition fork_source (cp : Checkpoint) : option (string * string * string) :=
  match k_RootfsS3Key cp, k_WorkspaceS3Key cp with
  | Some rootfs, Some workspace =>
      if same (k_Kind cp) "disk_only" && bool_decide (k_PromotionStatus cp = Some "ready"%string) then
        match nonempty (k_PromotedCheckpointID cp), nonempty (k_PromotedRootfsS3Key cp), nonempty (k_PromotedWorkspaceS3Key cp) with
        | Some id, Some rootfs, Some workspace => Some (id, rootfs, workspace)
        | _, _, _ => Some (k_ID cp, rootfs, workspace)
        end
      else Some (k_ID cp, rootfs, workspace)
  | _, _ => None
  end.

(** [SetSandboxCheckpointID]: the reference must exist. *)
Definition SetSandboxCheckpointID (id checkpoint : string) : program bool :=
  exec_ (fun _ w => if existsb (fun r => same (k_ID r) checkpoint) (rows w) then on_session id (on_based (insert id checkpoint)) w else w).

(** The polling loop: the row once it is ready, or a status. *)
Fixpoint poll_ready (n : nat) (id : string) (cp : Checkpoint) : program (result Z Checkpoint) :=
  match n with
  | O => Ret (if same (k_Status cp) "ready" then Ok cp else Err 400)
  | S n =>
      do cp <- get_checkpoint id;
      match cp with
      | None => Ret (Err 404)
      | Some cp =>
          if same (k_Status cp) "ready" then Ret (Ok cp)
          else if same (k_Status cp) "failed" then Ret (Err 400)
          else poll_ready n id cp
      end
  end.

Definition await_ready (id : string) (cp : Checkpoint) : program (result Z Checkpoint) :=
  if same (k_Status cp) "ready" then Ret (Ok cp)
  else if same (k_Status cp) "failed" then Ret (Err 400)
  else poll_ready 30 id cp.

(** [template], [region]: of the new row. The sandbox, or a status. *)
Definition createFromCheckpointCore (org : option string) (id : option string) (template region : string) : program (result Z string) :=
  match org, id with
  | None, _ => Ret (Err 401)
  | Some _, None => Ret (Err 400)
  | Some org, Some id =>
      do cp <- get_checkpoint id;
      match cp with
      | None => Ret (Err 404)
      | Some cp =>
          if negb (same (k_OrgID cp) org) && negb (k_IsPublic cp) then Ret (Err 403)
          else
            do cp <- await_ready id cp;
            match cp with
            | Err code => Ret (Err code)
            | Ok cp =>
                match fork_source cp with
                | None => Ret (Err 400)
                | Some (_, rootfs, workspace) =>
                    do secrets <- ask;
                    if negb secrets then Ret (Err 400)
                    else
                      do c <- command (fun i w => (w, (i_worker i, i_id i)));
                      match c with
                      | (None, _) => Ret (Err 503)
                      | (Some worker, sandboxID) =>
                          do p <- store_pending sandboxID;
                          do _ <- exec_ (fun i => on_store (fun d =>
                            fst (SessionStore.CreateSandboxSessionWithStatus (i_now i) d sandboxID org template region worker "pending" None)));
                          do created <- grpc_create worker sandboxID;
                          do _ <- close_pending p created;
                          if negb created then
                            do _ <- exec_ (fun i => on_store (fun d =>
                              fst (SessionStore.UpdateSandboxSessionStatus (i_now i) d sandboxID "failed" (Some "fork"%string))));
                            do _ <- delete_pending sandboxID;
                            Ret (Err 500)
                          else
                            do _ <- exec_ (fun i => on_store (fun d => fst (SessionStore.UpdateSandboxSessionStatus (i_now i) d sandboxID "running" None)));
                            do _ <- SetSandboxCheckpointID sandboxID id;
                            do _ <- applyPendingPatches sandboxID;
                            Ret (Ok sandboxID)
                      end
                end
            end
      end
  end.

(** ** Threads *)

(** [Background]: something of [jobs] gets to run. [Sessions]: what other handlers do to the
    sessions. *)
Inductive request :=
| Create (org : option string) (sandboxID : string) (bound : bool) (req : createCheckpointRequest)
| Restore (org : option string) (sandboxID : string) (id : option string)
| Delete (org : option string) (sandboxID : string) (id : option string)
| DashboardDelete (org id : option string)
| Publish (org id : option string) (isPublic : bool)
| Build (org buildSandboxID name : string) (finalize : bool)
| Patch (org id : option string) (script : bool)
| Unpatch (org id patch : option string)
| ApplyPatches (sandboxID : string)
| Fork (org id : option string) (template region : string)
| Wait (sandboxID : string)
| Background
| Sessions (d : SessionStore.db).

Definition drop_ {A} (p : program A) : program unit := do _ <- p; Ret tt.

Definition thread (r : request) : program unit :=
  match r with
  | Create org sb bound req => drop_ (createCheckpoint org sb bound req)
  | Restore org sb id => drop_ (restoreCheckpoint org sb id)
  | Delete org sb id => drop_ (deleteCheckpoint org sb id)
  | DashboardDelete org id => drop_ (dashboardDeleteCheckpoint org id)
  | Publish org id b => drop_ (setCheckpointPublic org id b)
  | Build org sb name fin => drop_ (checkpoint_build org sb name fin)
  | Patch org id script => drop_ (createCheckpointPatch org id script)
  | Unpatch org id patch => drop_ (deleteCheckpointPatch org id patch)
  | ApplyPatches sb => applyPendingPatches sb
  | Fork org id template region => drop_ (createFromCheckpointCore org id template region)
  | Wait sb => drop_ (waitForReady sb)
  | Background => goroutine
  | Sessions d => command (fun _ w => (on_store (fun _ => d) w, tt))
  end.

(** A request arrives, or a thread makes a step. *)
Definition event_of (e : request + nat * input) : event world input :=
  match e with inl r => Start (thread r) | inr (t, i) => Run t i end.

Definition run_all (w : world) (es : list (request + nat * input)) : world := fst (exec (w, []) (map event_of es)).

End Checkpoints.
