(* ===== verification/CheckpointsFacts.v ===== *)
(** * Facts about checkpoints

    Whatever the interleaving, a checkpoint that is marked ready can be restored: its
    archive is in the object store, and so is the archive of its promoted form. Patches are
    applied in order and a failed run resumes where it stopped. Then the cases in which the
    handlers do less than they mean to. *)

From stdpp Require Import sorting.
From S2P Require Import Prelude SessionStore Threads Checkpoints.
From Stdlib Require Import Ascii.
#[local] Open Scope Z_scope.

Module CheckpointsFacts.
Export Checkpoints.
Implicit Types (w v : world) (r cp : Checkpoint) (i : input).

(** ** Names *)

Lemma uuid_inj m n : uuid m = uuid n -> m = n.
Proof. intros E. apply itoa_inj. by apply str_inj in E. Qed.

Definition plain_id (a : string) : Prop := Forall (fun c => c <> "/"%char) (raw a).

Lemma uuid_plain n : plain_id (uuid n).
Proof.
  unfold plain_id, uuid. rewrite raw_str. destruct (itoa_spec n) as (_ & Hd & _). eapply Forall_impl; [exact Hd|].
  intros c Hc ->. by vm_compute in Hc.
Qed.

Lemma rootfsKey_inj sb sb' a a' : plain_id a -> plain_id a' -> rootfsKey sb a = rootfsKey sb' a' -> a = a'.
Proof.
  intros Ha Ha' E. apply str_inj in E. apply app_inv_head in E.
  change (raw sb ++ "/"%char :: (raw a ++ "/"%char :: raw "rootfs.tar.zst") =
          raw sb' ++ "/"%char :: (raw a' ++ "/"%char :: raw "rootfs.tar.zst")) in E.
  assert (forall x b, raw x ++ "/"%char :: (raw b ++ "/"%char :: raw "rootfs.tar.zst")
    = (raw x ++ "/"%char :: raw b) ++ "/"%char :: raw "rootfs.tar.zst") as Hs by (intros; by rewrite <- app_assoc).
  rewrite !Hs in E. apply app_inv_tail in E. apply (app_last_inj (fun c => c <> "/"%char)) in E as [_ E]; [|by intros H; apply H|done|done].
  by rewrite <- (str_raw a), E, str_raw.
Qed.

(** No name of a root archive. *)
Definition not_archive (k : string) : Prop := forall sb a, k <> rootfsKey sb a.

Lemma not_archive_empty : not_archive "".
Proof. intros sb a E. by vm_compute in E. Qed.

Lemma not_archive_workspace sb a : not_archive (workspaceKey sb a).
Proof.
  intros sb' a' E. apply str_inj, app_inv_head in E. apply (f_equal (@rev ascii)) in E.
  rewrite !rev_app_distr in E. cbn [rev] in E. rewrite !rev_app_distr in E.
  by vm_compute in E.
Qed.

(** ** Identifiers *)

Definition ids (r : Checkpoint) : list string := k_ID r :: option_list (k_PromotedCheckpointID r).
#[local] Arguments ids : simpl never.

Definition fresh_id w (a : string) : Prop := exists n, (next w <= n)%N /\ a = uuid n.

(** An identifier whose archive matters, now or later. *)
Definition live w (a : string) : Prop := (exists r, In r (rows w) /\ In a (ids r)) \/ fresh_id w a.

(** Rows keep their identifiers or get new ones; an archive is removed only once nothing
    refers to it. *)
Record le (w w' : world) : Prop := {
  le_next : (next w <= next w')%N;
  le_rows r' : In r' (rows w') -> (exists r, In r (rows w) /\ ids r = ids r') \/ Forall (fresh_id w) (ids r');
  le_objects sb a : live w' a -> rootfsKey sb a ∈ objects w -> rootfsKey sb a ∈ objects w'
}.

Lemma fresh_later w w' a : (next w <= next w')%N -> fresh_id w' a -> fresh_id w a.
Proof. intros Hn (n & Hle & ->). exists n. split; [lia|done]. Qed.

Lemma live_later w w' a : le w w' -> live w' a -> live w a.
Proof.
  intros Hle [(r & Hr & Ha)|Hf]; [|right; eapply fresh_later; [apply Hle|done]].
  destruct (le_rows _ _ Hle r Hr) as [(r0 & Hr0 & E)|Hf].
  - left. exists r0. by rewrite E.
  - right. rewrite List.Forall_forall in Hf. by apply Hf.
Qed.

#[export] Instance le_preorder : PreOrder le.
Proof.
  split.
  - intros w. split; [lia| |done]. intros r Hr. left. by exists r.
  - intros w1 w2 w3 H12 H23. split.
    + etrans; [apply H12|apply H23].
    + intros r Hr. destruct (le_rows _ _ H23 r Hr) as [(r0 & Hr0 & E)|Hf].
      * destruct (le_rows _ _ H12 r0 Hr0) as [(r1 & Hr1 & E1)|Hf]; [left; exists r1; split; [done|by rewrite E1]|].
        right. by rewrite <- E.
      * right. eapply Forall_impl; [exact Hf|]. intros a. eapply fresh_later, H12.
    + intros sb a Hl Hi. apply (le_objects _ _ H23); [done|]. apply (le_objects _ _ H12); [|done]. by eapply live_later.
Qed.

(** ** The invariant *)

Record row_ok w r : Prop := {
  ro_ids a : In a (ids r) -> exists n, (n < next w)%N /\ a = uuid n;
  ro_rootfs k : k_RootfsS3Key r = Some k -> exists sb, k = rootfsKey sb (k_ID r);
  ro_workspace k : k_WorkspaceS3Key r = Some k -> not_archive k;
  ro_promoted k : k_PromotedRootfsS3Key r = Some k -> exists sb b, k_PromotedCheckpointID r = Some b /\ k = rootfsKey sb b;
  ro_promoted_workspace k : k_PromotedWorkspaceS3Key r = Some k -> not_archive k;
  ro_ready : k_Status r = "ready"%string -> is_Some (k_WorkspaceS3Key r) /\ exists k, k_RootfsS3Key r = Some k /\ k ∈ objects w;
  ro_promotion : k_PromotionStatus r = Some "ready"%string -> exists k, k_PromotedRootfsS3Key r = Some k /\ k ∈ objects w
}.

(** What a goroutine knows of its checkpoint. *)
Definition known w (id : string) (promote : option string) : Prop :=
  ~ fresh_id w id /\ forall b r, promote = Some b -> In r (rows w) -> k_ID r = id -> k_PromotedCheckpointID r = Some b.

(** A name that no row will have. *)
Definition doomed w (k : string) : Prop := forall sb a, live w a -> k <> rootfsKey sb a.

Definition job_ok w (j : job) : Prop :=
  match j with
  | JCheckpoint id _ _ _ promote _ => known w id promote
  | JPromotion id artifact _ _ _ => known w id (Some artifact)
  | JDelete keys => Forall (doomed w) keys
  | JRestore _ _ _ _ | JUpload _ => True
  end.

Record Inv w : Prop := {
  inv_rows r : In r (rows w) -> row_ok w r;
  inv_uniq r r' a : In r (rows w) -> In r' (rows w) -> In a (ids r) -> In a (ids r') -> r = r';
  inv_jobs : Forall (job_ok w) (jobs w)
}.

Definition fair i : Prop := i_ok i = true -> i_did i = true.

Abbreviation okc := (ok Inv le fair).

Lemma known_later w w' id promote : le w w' -> known w id promote -> known w' id promote.
Proof.
  intros Hle [Hf Hk]. split; [intros H; by apply Hf, (fresh_later w w'), H; apply Hle|]. intros b r Hb Hr Hid.
  destruct (le_rows _ _ Hle r Hr) as [(r0 & Hr0 & E)|Hr'].
  - injection E as E1 E2. assert (k_PromotedCheckpointID r0 = Some b) as E0 by (apply Hk; [done..|by rewrite E1]).
    rewrite E0 in E2. cbn in E2. destruct (k_PromotedCheckpointID r); cbn in E2; [by injection E2 as ->|done].
  - destruct Hf. inversion Hr'. by subst.
Qed.

Lemma doomed_later w w' k : le w w' -> doomed w k -> doomed w' k.
Proof. intros Hle Hd sb a Hl. apply Hd. by eapply live_later. Qed.

Lemma job_later w w' j : le w w' -> job_ok w j -> job_ok w' j.
Proof.
  intros Hle. destruct j; cbn; try done; [by apply known_later..|]. intros H. eapply Forall_impl; [exact H|]. intros k. by apply doomed_later.
Qed.

Lemma not_fresh w r a : row_ok w r -> In a (ids r) -> ~ fresh_id w a.
Proof. intros Hr Ha (n & Hn & ->). destruct (ro_ids _ _ Hr _ Ha) as (m & Hm & E). apply uuid_inj in E. lia. Qed.

Lemma live_plain w a : Inv w -> live w a -> plain_id a.
Proof.
  intros Hi [(r & Hr & Ha)|(n & _ & ->)]; [|apply uuid_plain]. destruct (ro_ids _ _ (inv_rows _ Hi r Hr) _ Ha) as (n & _ & ->). apply uuid_plain.
Qed.

(** ** Steps of the state *)

Definition keeps w w' : Prop := Inv w' /\ le w w'.

Lemma row_keep w w' r : row_ok w r -> (next w <= next w')%N ->
  (forall sb a, In a (ids r) -> rootfsKey sb a ∈ objects w -> rootfsKey sb a ∈ objects w') -> row_ok w' r.
Proof.
  intros Hr Hn Ho. split; try apply Hr.
  - intros a Ha. destruct (ro_ids _ _ Hr a Ha) as (n & Hlt & ->). exists n. split; [lia|done].
  - intros Hs. destruct (ro_ready _ _ Hr Hs) as (Hw & k & Hk & Hi). split; [done|]. exists k. split; [done|].
    destruct (ro_rootfs _ _ Hr k Hk) as [sb ->]. apply Ho; [by left|done].
  - intros Hs. destruct (ro_promotion _ _ Hr Hs) as (k & Hk & Hi). exists k. split; [done|].
    destruct (ro_promoted _ _ Hr k Hk) as (sb & b & Hb & ->). apply Ho; [|done]. unfold ids. rewrite Hb. by right; left.
Qed.

(** The rows are as they were. *)
Lemma keep_rows w w' : Inv w -> rows w' = rows w -> (next w <= next w')%N ->
  (forall sb a, live w a -> rootfsKey sb a ∈ objects w -> rootfsKey sb a ∈ objects w') -> Forall (job_ok w) (jobs w') -> keeps w w'.
Proof.
  intros Hi Hr Hn Ho Hj. assert (le w w') as Hle.
  { split; [done| |].
    - intros r. rewrite Hr. left. by exists r.
    - intros sb a [(r & Hr' & Ha)|Hf]; apply Ho; [left; exists r; by rewrite <- Hr|right; by eapply fresh_later]. }
  split; [|done]. split.
  - rewrite Hr. intros r Hr'. eapply row_keep; [by apply Hi|done|]. intros sb a Ha. apply Ho. left. by exists r.
  - rewrite Hr. apply Hi.
  - eapply Forall_impl; [exact Hj|]. intros j. by apply job_later.
Qed.

Lemma keep_frame w w' : Inv w -> rows w' = rows w -> next w' = next w -> objects w' = objects w -> jobs w' = jobs w -> keeps w w'.
Proof. intros Hi Hr Hn Ho Hj. apply keep_rows; rewrite ?Hr, ?Hn, ?Ho, ?Hj; [done|done|lia|done|apply Hi]. Qed.

Lemma keep_job w j : Inv w -> job_ok w j -> keeps w (on_jobs (fun l => l ++ [j]) w).
Proof. intros Hi Hj. apply keep_rows; cbn; [done|done|lia|done|]. apply Forall_app. split; [apply Hi|by repeat constructor]. Qed.

Lemma keep_upload w k : Inv w -> keeps w (on_objects (fun o => {[k]} ∪ o) w).
Proof. intros Hi. apply keep_rows; cbn; [done|done|lia|set_solver|apply Hi]. Qed.

Lemma keep_remove w k : Inv w -> doomed w k -> keeps w (on_objects (fun o => o ∖ {[k]}) w).
Proof.
  intros Hi Hd. apply keep_rows; cbn; [done|done|lia| |apply Hi]. intros sb a Hl Ho. apply elem_of_difference. split; [done|].
  intros E%elem_of_singleton. by apply (Hd sb a Hl).
Qed.

(** Columns of rows change. *)
Lemma keep_update w g : Inv w -> (forall r, In r (rows w) -> ids (g r) = ids r /\ row_ok w (g r)) -> keeps w (on_rows (map g) w).
Proof.
  intros Hi Hg.
  assert (forall r', In r' (map g (rows w)) -> exists r, In r (rows w) /\ r' = g r) as Hin.
  { intros r' Hr'. apply in_map_iff in Hr' as (r & <- & Hr). by exists r. }
  assert (le w (on_rows (map g) w)) as Hle.
  { split; cbn; [lia| |done]. intros r' Hr'. apply Hin in Hr' as (r & Hr & ->). left. exists r. split; [done|]. symmetry. by apply Hg. }
  split; [|done]. split; cbn.
  - intros r' Hr'. apply Hin in Hr' as (r & Hr & ->). eapply row_keep; [by apply Hg|done|done].
  - intros r1 r2 a H1 H2 Ha1 Ha2. apply Hin in H1 as (r & Hr & ->), H2 as (r' & Hr' & ->).
    destruct (Hg r Hr) as [E _], (Hg r' Hr') as [E' _]. rewrite E in Ha1. rewrite E' in Ha2.
    by rewrite (inv_uniq _ Hi r r' a).
  - eapply Forall_impl; [apply Hi|]. intros j. by apply job_later.
Qed.

Lemma keep_update_row w id f : Inv w ->
  (forall r, In r (rows w) -> k_ID r = id -> ids (f r) = ids r /\ row_ok w (f r)) -> keeps w (on_rows (update_row id f) w).
Proof.
  intros Hi Hf. apply keep_update; [done|]. intros r Hr. unfold same, SessionStore.same.
  destruct (String.eqb_spec (k_ID r) id) as [E|_]; [by apply Hf|split; [done|by apply Hi]].
Qed.

(** A row is deleted: its names are doomed. *)
Lemma keep_delete w P : Inv w -> keeps w (on_rows (List.filter P) w).
Proof.
  intros Hi. assert (le w (on_rows (List.filter P) w)) as Hle.
  { split; cbn; [lia| |done]. intros r Hr. apply filter_In in Hr as [Hr _]. left. by exists r. }
  split; [|done]. split; cbn.
  - intros r Hr. apply filter_In in Hr as [Hr _]. eapply row_keep; [by apply Hi|done|done].
  - intros r r' a Hr Hr'. apply filter_In in Hr as [Hr _], Hr' as [Hr' _]. by apply (inv_uniq _ Hi).
  - eapply Forall_impl; [apply Hi|]. intros j. by apply job_later.
Qed.

(** What a handler knows of a row it has read. *)
Record read_ok w cp : Prop := {
  rd_ids a : In a (ids cp) -> plain_id a /\ ~ fresh_id w a;
  rd_uniq r a : In r (rows w) -> In a (ids cp) -> In a (ids r) -> k_ID r = k_ID cp;
  rd_keys k : In k (row_keys cp) -> not_archive k \/ exists sb a, In a (ids cp) /\ k = rootfsKey sb a
}.

Lemma row_keys_shape w r k : row_ok w r -> In k (row_keys r) -> not_archive k \/ exists sb a, In a (ids r) /\ k = rootfsKey sb a.
Proof.
  intros Hr Hk. assert (k_RootfsS3Key r = Some k \/ k_WorkspaceS3Key r = Some k \/ k_PromotedRootfsS3Key r = Some k \/ k_PromotedWorkspaceS3Key r = Some k) as H.
  { unfold row_keys in Hk. cbn in Hk. repeat (case_match; cbn in Hk); naive_solver. }
  destruct H as [H|[H|[H|H]]].
  - right. destruct (ro_rootfs _ _ Hr k H) as [sb ->]. exists sb, (k_ID r). split; [by left|done].
  - left. by eapply ro_workspace.
  - right. destruct (ro_promoted _ _ Hr k H) as (sb & b & Hb & ->). exists sb, b. split; [|done]. unfold ids. rewrite Hb. by right; left.
  - left. by eapply ro_promoted_workspace.
Qed.

Lemma read_row w r : Inv w -> In r (rows w) -> read_ok w r.
Proof.
  intros Hi Hr. split.
  - intros a Ha. split; [eapply live_plain; [done|left; by exists r]|]. eapply not_fresh; [by apply Hi|done].
  - intros r' a Hr' Ha Ha'. by rewrite (inv_uniq _ Hi r' r a).
  - intros k. apply (row_keys_shape w). by apply Hi.
Qed.

Lemma read_later w w' cp : le w w' -> read_ok w cp -> read_ok w' cp.
Proof.
  intros Hle Hr. split; [| |apply Hr].
  - intros a Ha. destruct (rd_ids _ _ Hr a Ha) as [Hp Hf]. split; [done|]. intros H. apply Hf. eapply fresh_later; [apply Hle|done].
  - intros r a Hr' Ha Ha'. destruct (le_rows _ _ Hle r Hr') as [(r0 & Hr0 & E)|Hf].
    + rewrite <- E in Ha'. pose proof (rd_uniq _ _ Hr r0 a Hr0 Ha Ha') as E1. injection E as E _. by rewrite <- E.
    + rewrite List.Forall_forall in Hf. by destruct (rd_ids _ _ Hr a Ha) as [_ []]; apply Hf.
Qed.

Lemma same_eq a b : same a b = true <-> a = b.
Proof. unfold same, SessionStore.same. apply String.eqb_eq. Qed.

(** The names of a row that is deleted. *)
Lemma deleted_doomed w cp org : Inv w -> read_ok w cp -> existsb (owned org (k_ID cp)) (rows w) = true ->
  Forall (doomed (on_rows (List.filter (fun r => negb (owned org (k_ID cp) r))) w)) (row_keys cp).
Proof.
  intros Hi Hcp (r0 & Hr0 & Ho)%existsb_exists. apply List.Forall_forall. intros k Hk sb' a' Hl E.
  destruct (rd_keys _ _ Hcp k Hk) as [Hn|(sb & a & Ha & ->)]; [by apply (Hn sb' a')|].
  destruct (rd_ids _ _ Hcp a Ha) as [Hp Hf].
  assert (plain_id a') as Hp'.
  { eapply live_plain; [apply Hi|]. eapply live_later; [|exact Hl]. apply keep_delete, Hi. }
  apply rootfsKey_inj in E as <-; [|done..]. destruct Hl as [(r & Hr & Har)|Hf']; [|by apply Hf].
  cbn in Hr. apply filter_In in Hr as [Hr Hno]. pose proof (rd_uniq _ _ Hcp r a Hr Ha Har) as Eid.
  pose proof Ho as Ho'. unfold owned in Ho'. apply andb_prop in Ho' as [H0 _]. apply same_eq in H0.
  assert (r0 = r) as -> by (apply (inv_uniq _ Hi r0 r (k_ID cp)); [done|done|by left|by left]).
  by rewrite Ho in Hno.
Qed.

(** A row is inserted under identifiers just drawn. *)
Lemma keep_insert w r : Inv w -> ids r = uuid (next w) :: option_list (k_PromotedCheckpointID r) ->
  (forall b, k_PromotedCheckpointID r = Some b -> b = uuid (next w + 1)) ->
  k_RootfsS3Key r = None -> k_WorkspaceS3Key r = None -> k_PromotedRootfsS3Key r = None -> k_PromotedWorkspaceS3Key r = None ->
  k_Status r <> "ready"%string -> k_PromotionStatus r <> Some "ready"%string ->
  keeps w (on_next (fun n => (n + 2)%N) (on_rows (fun l => l ++ [r]) w)).
Proof.
  intros Hi Hid Hb E1 E2 E3 E4 Hs Hp. set (w' := on_next _ _).
  assert (forall a, In a (ids r) -> exists n, (next w <= n < next w + 2)%N /\ a = uuid n) as Hids.
  { intros a. rewrite Hid. intros [<-|Ha]; [exists (next w); split; [lia|done]|]. destruct (k_PromotedCheckpointID r) as [b|] eqn:Eb; [|done].
    destruct Ha as [<-|[]]. exists (next w + 1)%N. split; [lia|by apply Hb]. }
  assert (forall r', In r' (rows w') -> In r' (rows w) \/ r' = r) as Hin.
  { intros r' Hr'. cbn in Hr'. apply in_app_or in Hr' as [H|[H|[]]]; [by left|by right]. }
  assert (le w w') as Hle.
  { split; cbn; [lia| |done]. intros r' Hr'. destruct (Hin r' Hr') as [H| ->]; [left; by exists r'|]. right. apply List.Forall_forall.
    intros a Ha. destruct (Hids a Ha) as (n & Hn & ->). exists n. split; [lia|done]. }
  assert (forall r' a, In r' (rows w) -> In a (ids r') -> In a (ids r) -> False) as Hno.
  { intros r' a Hr' Ha' Ha. destruct (Hids a Ha) as (n & Hn & ->). eapply not_fresh; [by apply Hi|exact Ha'|]. exists n. split; [lia|done]. }
  split; [|done]. split.
  - intros r' Hr'. destruct (Hin r' Hr') as [H| ->]; [eapply row_keep; [by apply Hi|apply Hle|done]|]. split; try congruence.
    intros a Ha. destruct (Hids a Ha) as (n & Hn & ->). exists n. cbn. split; [lia|done].
  - intros r1 r2 a H1 H2 Ha1 Ha2. destruct (Hin r1 H1) as [H1'| ->], (Hin r2 H2) as [H2'| ->]; [by eapply inv_uniq| | |done].
    + by destruct (Hno r1 a).
    + by destruct (Hno r2 a).
  - cbn. eapply Forall_impl; [apply Hi|]. intros j. by apply job_later.
Qed.

(** ** Threads *)

Definition anything {A} : world -> A -> Prop := fun _ _ => True.

(** A program every command of which keeps the invariant, whatever the thread knows. *)
Fixpoint safe {A} (p : program A) : Prop :=
  match p with
  | Ret _ => True
  | Atom f k => (forall i v, Inv v -> keeps v (fst (f i v))) /\ forall b, safe (k b)
  end.

Lemma safe_ok {A} (p : program A) w : safe p -> okc w p anything.
Proof.
  revert w; induction p as [a|B f k IH]; intros w Hp; cbn; [done|]. destruct Hp as [Hf Hk]. intros i v _ _ Hi.
  destruct (Hf i v Hi). split_and!; [done..|]. by apply IH.
Qed.

Lemma safe_seq {A B} (p : program A) (k : A -> program B) : safe p -> (forall a, safe (k a)) -> safe (bind p k).
Proof. induction p as [a|C f k' IH]; cbn; [auto|]. intros [Hf Hk] H. split; [done|]. intros b. by apply IH. Qed.

Lemma safe_command {B} (f : input -> world -> world * B) : (forall i v, Inv v -> keeps v (fst (f i v))) -> safe (command f).
Proof. by split. Qed.

Lemma keep_refl w : Inv w -> keeps w w.
Proof. by split. Qed.

Lemma safe_exec f : (forall i v, Inv v -> keeps v (f i v)) -> safe (exec_ f).
Proof. intros Hf. apply safe_command. intros i v Hv. cbn. destruct (i_did i); [by apply Hf|by apply keep_refl]. Qed.

Create HintDb ckpt.
Ltac quiet := apply safe_command; intros ? ? ?; cbn; repeat case_match; cbn; first [by apply keep_refl|by apply keep_frame].
#[local] Hint Extern 1 (safe (command _)) => quiet : ckpt.

Lemma safe_session id : safe (get_session id).
Proof. quiet. Qed.
Lemma safe_checkpoint id : safe (get_checkpoint id).
Proof. quiet. Qed.
Lemma safe_ask : safe ask.
Proof. quiet. Qed.
Lemma safe_store_pending id : safe (store_pending id).
Proof. quiet. Qed.
Lemma safe_delete_pending id : safe (delete_pending id).
Proof. quiet. Qed.
Lemma safe_close_pending p b : safe (close_pending p b).
Proof. quiet. Qed.
Lemma safe_on_store f : safe (exec_ (fun i => on_store (f i))).
Proof. apply safe_exec. intros i v Hv. by apply keep_frame. Qed.
Lemma safe_create wk id : safe (grpc_create wk id).
Proof. apply safe_exec. intros i v Hv. by apply keep_frame. Qed.
Lemma safe_destroy wk id : safe (grpc_destroy wk id).
Proof. apply safe_exec. intros i v Hv. by apply keep_frame. Qed.
Lemma keep_session id f v : Inv v -> keeps v (f v) -> keeps v (on_session id f v).
Proof. intros Hv Hf. unfold on_session. case_match; [done|by apply keep_refl]. Qed.
Lemma safe_sequence id n : safe (UpdateSandboxPatchSequence id n).
Proof. apply safe_exec. intros i v Hv. apply keep_session; [done|]. by apply keep_frame. Qed.
Lemma safe_error id b : safe (SetSandboxPatchError id b).
Proof. apply safe_exec. intros i v Hv. apply keep_session; [done|]. by apply keep_frame. Qed.
Lemma safe_script id p : safe (execPatchOnSandbox id p).
Proof. apply safe_exec. intros i v Hv. by apply keep_frame. Qed.
Lemma safe_lineage id (cp : string) : safe (SetSandboxCheckpointID id cp).
Proof. apply safe_exec. intros i v Hv. case_match; [|by apply keep_refl]. apply keep_session; [done|]. by apply keep_frame. Qed.
Lemma safe_restore_job id sb wk p : safe (go_ (JRestore id sb wk p)).
Proof. apply safe_command. intros i v Hv. by apply keep_job. Qed.
Lemma safe_add_patch patch (cp : string) : safe (CreateCheckpointPatch patch cp).
Proof. quiet. Qed.
Lemma safe_delete_patch patch (cp : string) : safe (DeleteCheckpointPatch cp patch).
Proof. quiet. Qed.
#[local] Hint Resolve safe_session safe_checkpoint safe_ask safe_store_pending safe_delete_pending safe_close_pending safe_on_store
  safe_create safe_destroy safe_sequence safe_error safe_script safe_lineage safe_restore_job safe_add_patch safe_delete_patch : ckpt.

Lemma safe_ret {A} (a : A) : safe (Ret a : program A).
Proof. done. Qed.
#[local] Hint Resolve safe_ret : ckpt.

(** Programs made of such commands. *)
Ltac safe_steps := repeat first
  [ done
  | apply safe_seq; [solve [eauto with ckpt]|intros ?]
  | match goal with |- safe (match ?x with _ => _ end) => destruct x end
  | solve [eauto with ckpt] ].

Lemma safe_restore org sb id : safe (restoreCheckpoint org sb id).
Proof. unfold restoreCheckpoint. safe_steps. Qed.
Lemma safe_wait sb : safe (waitForReady sb).
Proof. unfold waitForReady. safe_steps. Qed.

Lemma safe_patch_loop id l : safe (patch_loop id l).
Proof. induction l as [|p l IH]; cbn [patch_loop]; safe_steps. Qed.
#[local] Hint Resolve safe_patch_loop : ckpt.

Lemma safe_patches id : safe (applyPendingPatches id).
Proof. unfold applyPendingPatches. safe_steps. Qed.
Lemma safe_org_checkpoint org id : safe (org_checkpoint org id).
Proof. unfold org_checkpoint. safe_steps. Qed.
#[local] Hint Resolve safe_patches safe_org_checkpoint : ckpt.

Lemma safe_SetCheckpointPublic id org b : safe (SetCheckpointPublic id org b).
Proof.
  apply safe_command. intros i v Hv. cbn. destruct (i_did i); [|by apply keep_refl]. apply keep_update; [done|]. intros r Hr.
  destruct (owned org id r); [|split; [done|by apply Hv]]. split; [done|]. by destruct (inv_rows _ Hv r Hr).
Qed.
#[local] Hint Resolve safe_SetCheckpointPublic : ckpt.

Lemma safe_uuid : safe (command (fun _ w => (on_next N.succ w, uuid (next w)))).
Proof. apply safe_command. intros i v Hv. apply keep_rows; cbn; [done|done|lia|done|apply Hv]. Qed.
#[local] Hint Resolve safe_uuid : ckpt.

Lemma safe_public org id b : safe (setCheckpointPublic org id b).
Proof. unfold setCheckpointPublic. safe_steps. Qed.
Lemma safe_patch org id b : safe (createCheckpointPatch org id b).
Proof. unfold createCheckpointPatch. safe_steps. Qed.
Lemma safe_unpatch org id patch : safe (deleteCheckpointPatch org id patch).
Proof. unfold deleteCheckpointPatch. safe_steps. Qed.

Lemma safe_poll n id cp : safe (poll_ready n id cp).
Proof. revert cp; induction n as [|n IH]; intros cp; cbn [poll_ready]; safe_steps. Qed.
Lemma safe_await id cp : safe (await_ready id cp).
Proof. unfold await_ready. do 2 (case_match; [done|]). apply safe_poll. Qed.
#[local] Hint Resolve safe_await : ckpt.
Lemma safe_fork org id t rg : safe (createFromCheckpointCore org id t rg).
Proof. unfold createFromCheckpointCore. safe_steps. Qed.

Lemma keep_trans w1 w2 w3 : keeps w1 w2 -> (Inv w2 -> keeps w2 w3) -> keeps w1 w3.
Proof. intros [H1 L1] H. destruct (H H1) as [H2 L2]. split; [done|]. by etrans. Qed.

(** A safe program in front. *)
Lemma okc_safe {A B} w (p : program A) (k : A -> program B) Q : safe p -> (forall v a, le w v -> okc v (k a) Q) -> okc w (bind p k) Q.
Proof. intros Hp Hk. eapply (ok_seq Inv le fair _ _ _ anything); [by apply safe_ok|]. intros v a Hle _. by apply Hk. Qed.

Ltac branch := match goal with |- ok _ _ _ _ (if ?b then _ else _) _ => destruct b end.
Ltac seq P := eapply (ok_seq Inv le fair _ _ _ P).

(** ** Deleting *)

Lemma okc_DeleteCheckpoint w org cp : read_ok w cp ->
  okc w (DeleteCheckpoint org (k_ID cp)) (fun v b => b = true -> Forall (doomed v) (row_keys cp)).
Proof.
  intros Hr. apply ok_command. intros i v Hf Hle Hi. apply (read_later w v) in Hr; [|done].
  destruct (existsb (owned org (k_ID cp)) (rows v)) eqn:E; cbn [fst snd]; [|split_and!; [done|reflexivity|done]].
  destruct (i_did i) eqn:Ed; [|split_and!; [done|reflexivity|]; intros Ho; by rewrite (Hf Ho) in Ed].
  set (v1 := on_rows _ v). set (v2 := on_patches _ _).
  assert (keeps v v2) as [H1 H2] by (eapply keep_trans; [by apply (keep_delete v)|intros H; by apply keep_frame]).
  split_and!; [done..|]. intros _. eapply Forall_impl; [by apply (deleted_doomed v cp org)|]. intros k Hk. done.
Qed.

Lemma okc_delete w cp org : read_ok w cp -> okc w (deleteCheckpointRecordAndObjects cp org) anything.
Proof.
  intros Hr. unfold deleteCheckpointRecordAndObjects. eapply ok_seq; [apply _|by apply okc_DeleteCheckpoint|].
  intros v [] Hle Hd; cbn [negb]; [|done]. seq (@anything unit); [|done]. apply ok_command. intros i v' _ Hle' Hi.
  destruct (keep_job v' (JDelete (row_keys cp)) Hi); [|done]. cbn. eapply Forall_impl; [by apply Hd|]. intros k. by apply doomed_later.
Qed.

Lemma okc_retention_loop w l org : Forall (read_ok w) l -> okc w (retention_loop l org) anything.
Proof.
  revert w; induction l as [|cp l IH]; intros w Hl; cbn [retention_loop]; [done|]. inversion_clear Hl as [|? ? H1 H2].
  eapply ok_seq; [apply _|by apply okc_delete|]. intros v [] Hle _; [|done]. apply IH. eapply Forall_impl; [exact H2|].
  intros r. by apply read_later.
Qed.

Lemma candidates_rows sb org kind n w : Forall (fun r => In r (rows w)) (ListCheckpointRetentionCandidatesByKind sb org kind n w).
Proof.
  unfold ListCheckpointRetentionCandidatesByKind. apply Forall_take. rewrite merge_sort_Permutation.
  apply List.Forall_forall. intros r Hr. by apply filter_In in Hr as [? _].
Qed.

Lemma okc_retention w req sb org kind limit count : okc w (apply_retention req sb org kind limit count) anything.
Proof.
  unfold apply_retention. cbv zeta. do 4 (branch; [done|]).
  seq (fun v (l : option (list Checkpoint)) => forall l', l = Some l' -> Forall (read_ok v) l').
  - apply ok_command. intros i v _ Hle Hi. split_and!; [done|reflexivity|]. cbn. intros l'. case_match; [|done]. intros [= <-].
    eapply Forall_impl; [apply candidates_rows|]. intros r. by apply read_row.
  - intros v [l|] Hle Hl; [|done]. case_match; [done|]. eapply ok_seq; [apply _|by apply okc_retention_loop, Hl|].
    intros v' [] _ _; done.
Qed.

Lemma okc_get_checkpoint w id : okc w (get_checkpoint id) (fun v (o : option Checkpoint) => forall cp', o = Some cp' -> read_ok v cp').
Proof.
  apply ok_command. intros i v _ _ Hi. split_and!; [done|reflexivity|]. cbn. intros cp. case_match; [|done]. intros Hg.
  apply find_some in Hg as [Hg _]. by apply read_row.
Qed.

Lemma okc_deleteCheckpoint w org sb id : okc w (deleteCheckpoint org sb id) anything.
Proof.
  unfold deleteCheckpoint. destruct org as [org|]; [|done]. destruct id as [id|]; [|done].
  eapply ok_seq; [apply _|apply okc_get_checkpoint|]. intros v [cp|] Hle Hcp; [|done]. case_match; [done|].
  eapply ok_seq; [apply _|by apply okc_delete, Hcp|done].
Qed.

(** ** Creating *)

Lemma okc_CreateCheckpoint w sb org name kind promote :
  okc w (CreateCheckpoint sb org name kind promote) (fun v (o : result Z (string * option string)) => forall id art, o = Ok (id, art) -> known v id art).
Proof.
  apply ok_command. intros i v Hf _ Hi. destruct (existsb _ (rows v)); cbn [fst snd]; [split_and!; [done|reflexivity|done]|].
  cbv zeta. set (row := Build_Checkpoint _ _ _ _ _ _ _ _ _ _ _ _ _ _).
  destruct (i_did i) eqn:Ed.
  - destruct (keep_insert v row Hi) as [H1 H2]; try done; [by intros b; cbn; destruct promote; intros [= <-]|by cbn; destruct promote|].
    split_and!; [done..|]. intros id art. destruct (i_ok i); [|done]. intros [= <- <-]. split.
    + intros (n & Hn & E). apply uuid_inj in E. cbn in Hn. lia.
    + intros b r Hb Hr Hid. cbn in Hr. apply in_app_or in Hr as [Hr|[<-|[]]]; [|done].
      destruct (not_fresh v r (k_ID r)); [by apply Hi|by left|]. exists (next v). by split.
  - destruct (keep_rows v (on_next (fun n => (n + 2)%N) v) Hi) as [H1 H2]; cbn; [done|lia|done|apply Hi|].
    split_and!; [done..|]. intros id art. destruct (i_ok i) eqn:Eo; [|done]. by rewrite (Hf Eo) in Ed.
Qed.

Lemma okc_go w j : job_ok w j -> okc w (go_ j) anything.
Proof.
  intros Hj. apply ok_command. intros i v _ Hle Hi. destruct (keep_job v j Hi); [by eapply job_later|]. done.
Qed.

Lemma okc_createCheckpoint w org sb bound req : okc w (createCheckpoint org sb bound req) anything.
Proof.
  unfold createCheckpoint. destruct org as [org|]; [|done]. apply okc_safe; [apply safe_session|]. intros v1 [s|] _; [|done].
  cbv zeta. do 5 (branch; [done|]).
  apply okc_safe; [quiet|]. intros v2 [n|] _; [|done].
  eapply ok_seq; [apply _|apply okc_retention|]. intros v3 [n'|code] _ _; [|done]. case_match; [done|].
  eapply ok_seq; [apply _|apply okc_CreateCheckpoint|]. intros v4 [[id art]|code] _ Hk; [|done].
  apply okc_safe; [apply safe_store_pending|]. intros v5 p H5. apply okc_safe; [apply safe_ask|]. intros v6 [] H6; cbn [negb].
  - eapply ok_seq; [apply _|apply okc_go|done]. cbn. eapply known_later; [exact H6|]. eapply known_later; [exact H5|]. by apply Hk.
  - apply okc_safe; [apply safe_delete_pending|]. done.
Qed.

(** ** The goroutines *)

(** The archive is there as long as anything may refer to it. *)
Definition stored w (sb a : string) : Prop := live w a -> rootfsKey sb a ∈ objects w.

Lemma stored_later w w' sb a : le w w' -> stored w sb a -> stored w' sb a.
Proof. intros Hle Hs Hl. apply (le_objects _ _ Hle); [done|]. apply Hs. by eapply live_later. Qed.

Definition captured (sb a : string) : world -> option (string * string) -> Prop :=
  fun w o => forall rootfs ws, o = Some (rootfs, ws) -> rootfs = rootfsKey sb a /\ not_archive ws /\ stored w sb a.

Lemma okc_capture w sb a : okc w (grpc_checkpoint sb a) (captured sb a).
Proof.
  apply ok_command. intros i v Hf _ Hi. destruct (i_ok i) eqn:Eo; cbn [fst snd].
  - rewrite (Hf Eo). destruct (keep_upload v (rootfsKey sb a) Hi) as [H1 H2]. split_and!; [done..|]. intros rootfs ws [= <- <-].
    split_and!; [done| |intros _; cbn; set_solver]. destruct (i_merged i); [apply not_archive_empty|apply not_archive_workspace].
  - assert (keeps v (if i_did i then on_jobs (fun l => l ++ [JUpload (rootfsKey sb a)]) v else v)) as [H1 H2].
    { destruct (i_did i); [by apply keep_job|by apply keep_refl]. }
    by split_and!.
Qed.

Lemma okc_update w id f :
  (forall v, le w v -> Inv v -> forall r, In r (rows v) -> k_ID r = id -> ids (f r) = ids r /\ row_ok v (f r)) ->
  okc w (exec_ (fun _ => on_rows (update_row id f))) anything.
Proof.
  intros Hf. apply ok_command. intros i v _ Hle Hi. cbn.
  destruct (i_did i); [|by split_and!]. destruct (keep_update_row v id f Hi); [by apply Hf|done].
Qed.

Lemma live_row w r a : In r (rows w) -> In a (ids r) -> live w a.
Proof. left. by exists r. Qed.

Lemma okc_ready w sb id ws : stored w sb id -> not_archive ws ->
  okc w (exec_ (fun _ => on_rows (update_row id (SetCheckpointReady (rootfsKey sb id) ws)))) anything.
Proof.
  intros Hs Hn. apply okc_update. intros v Hle Hi r Hr <-. split; [done|]. destruct (inv_rows _ Hi r Hr). split; cbn; try done.
  - intros k [= <-]. by exists sb.
  - by intros k [= <-].
  - intros _. split; [done|]. exists (rootfsKey sb (k_ID r)). split; [done|]. eapply stored_later; [done..|]. eapply live_row; [done|by left].
Qed.

Lemma okc_failed w id : okc w (exec_ (fun _ => on_rows (update_row id SetCheckpointFailed))) anything.
Proof. apply okc_update. intros v Hle Hi r Hr Hid. split; [done|]. by destruct (inv_rows _ Hi r Hr). Qed.

Lemma okc_promotion_status w id st : st <> "ready"%string -> okc w (exec_ (fun _ => on_rows (update_row id (SetPromotionStatus st)))) anything.
Proof. intros Hst. apply okc_update. intros v Hle Hi r Hr Hid. split; [done|]. destruct (inv_rows _ Hi r Hr). split; cbn; try done. by intros [= ->]. Qed.

Lemma okc_promotion_ready w id sb art ws : known w id (Some art) -> stored w sb art -> not_archive ws ->
  okc w (exec_ (fun _ => on_rows (update_row id (SetCheckpointPromotionReady art (rootfsKey sb art) ws)))) anything.
Proof.
  intros Hk Hs Hn. apply okc_update. intros v Hle Hi r Hr Hid. destruct (known_later w v id (Some art) Hle Hk) as [_ Hp].
  specialize (Hp art r eq_refl Hr Hid). assert (ids (SetCheckpointPromotionReady art (rootfsKey sb art) ws r) = ids r) as E.
  { unfold ids. by rewrite Hp. }
  split; [done|]. destruct (inv_rows _ Hi r Hr). split; [by rewrite E|..]; cbn; try done.
  - intros k [= <-]. by exists sb, art.
  - by intros k [= <-].
  - intros _. exists (rootfsKey sb art). split; [done|]. eapply stored_later; [done..|]. eapply live_row; [done|]. unfold ids. rewrite Hp. by right; left.
Qed.

Lemma okc_checkpoint_job w id sb wk kind promote p : known w id promote -> okc w (checkpoint_job id sb wk kind promote p) anything.
Proof.
  intros Hk. unfold checkpoint_job. eapply ok_seq; [apply _|apply okc_capture|]. intros v r Hv Hr.
  apply okc_safe; [apply safe_close_pending|]. intros v1 _ Hv1. destruct r as [[rootfs ws]|].
  - destruct (Hr rootfs ws eq_refl) as (-> & Hn & Hs). eapply ok_seq; [apply _|apply okc_ready; [by eapply stored_later|done]|].
    intros v2 b Hv2 _. destruct promote as [art|]; [|done]. destruct b; [|done]. apply okc_go. cbn.
    do 3 (eapply known_later; [eassumption|]). done.
  - eapply ok_seq; [apply _|apply okc_failed|]. done.
Qed.

Lemma okc_promote w art wk : okc w (promoteCheckpointToFull art wk) (fun v o => forall x, o = Some x -> exists sb, captured sb art v (Some x)).
Proof.
  unfold promoteCheckpointToFull. apply okc_safe; [apply safe_ask|]. intros v1 [] _; cbn [negb]; [|done].
  apply okc_safe; [quiet|]. intros v2 sb _. apply okc_safe; [apply safe_create|]. intros v3 [] _; cbn [negb]; [|done].
  eapply ok_seq; [apply _|apply okc_capture|]. intros v4 o _ Ho. apply okc_safe; [apply safe_destroy|]. intros v5 _ H5.
  cbn. intros x ->. exists sb. intros rootfs ws [= ->]. destruct (Ho rootfs ws eq_refl) as (? & ? & ?). split_and!; [done..|]. by eapply stored_later.
Qed.

Lemma okc_promotion_job w id art wk : known w id (Some art) -> okc w (promotion_job id art wk) anything.
Proof.
  intros Hk. unfold promotion_job. eapply ok_seq; [apply _|by apply okc_promotion_status|]. intros v1 _ H1 _.
  eapply ok_seq; [apply _|apply okc_promote|]. intros v2 [[rootfs ws]|] H2 Ho.
  - destruct (Ho _ eq_refl) as [sb Hc]. destruct (Hc rootfs ws eq_refl) as (-> & Hn & Hs).
    eapply ok_seq; [apply _|apply okc_promotion_ready; [|done|done]|done]. do 2 (eapply known_later; [eassumption|]). done.
  - eapply ok_seq; [apply _|by apply okc_promotion_status|done].
Qed.

Lemma okc_delete_job w keys : Forall (doomed w) keys ->
  okc w (for_each keys (fun key => bind (exec_ (fun _ => on_objects (fun o => o ∖ {[key]}))) (fun _ => Ret tt))) anything.
Proof.
  revert w; induction keys as [|k keys IH]; intros w Hd; cbn [for_each]; [done|]. inversion_clear Hd as [|? ? H1 H2].
  seq (@anything unit).
  - seq (@anything bool); [|done]. apply ok_command. intros i v _ Hle Hi. cbn. destruct (i_did i); [|by split_and!].
    destruct (keep_remove v k Hi); [by eapply doomed_later|done].
  - intros v [] Hle _. apply IH. eapply Forall_impl; [exact H2|]. intros x. by apply doomed_later.
Qed.

Lemma okc_goroutine w : okc w goroutine anything.
Proof.
  unfold goroutine. seq (fun v (o : option job) => forall j, o = Some j -> job_ok v j).
  - apply ok_command. intros i v _ Hle Hi. destruct (jobs v !! i_job i) as [j|] eqn:Ej; cbn [fst snd]; [|by split_and!].
    set (v' := on_jobs _ v). assert (keeps v v') as [H1 H2].
    { apply keep_rows; cbn; [done|done|lia|done|]. apply Forall_app. split; [apply Forall_take, Hi|apply Forall_drop, Hi]. }
    split_and!; [done..|]. intros j' [= <-]. eapply job_later; [done|]. eapply Forall_lookup_1; [apply Hi|done].
  - intros v [[id sb wk kind promote p|id art wk rootfs ws|id sb wk p|keys|key]|] Hle Hj; [..|done]; specialize (Hj _ eq_refl); cbn in Hj.
    + by apply okc_checkpoint_job.
    + by apply okc_promotion_job.
    + apply safe_ok. unfold restore_job. safe_steps.
    + by apply okc_delete_job.
    + apply safe_ok, safe_command. intros i v' Hv'. by apply keep_upload.
Qed.

Lemma okc_build w org sb name fin : okc w (checkpoint_build org sb name fin) anything.
Proof.
  unfold checkpoint_build. eapply ok_seq; [apply _|apply okc_CreateCheckpoint|]. intros v [[id art]|code] _ _; [|done].
  eapply ok_seq; [apply _|apply okc_capture|]. intros v1 [[rootfs ws]|] _ Hc; [|done].
  destruct (Hc rootfs ws eq_refl) as (-> & Hn & Hs). eapply ok_seq; [apply _|by apply okc_ready|done].
Qed.

Lemma safe_DeleteCheckpoint org id : safe (DeleteCheckpoint org id).
Proof.
  apply safe_command. intros i v Hv. case_match; [|by apply keep_refl]. cbn. destruct (i_did i); [|by apply keep_refl].
  eapply keep_trans; [by apply (keep_delete v)|]. intros Hk. by apply keep_frame.
Qed.
#[local] Hint Resolve safe_DeleteCheckpoint : ckpt.

Lemma okc_thread w x : okc w (thread x) done_.
Proof.
  destruct x; cbn [thread]; unfold drop_; try (seq (fun (_ : world) (_ : response) => True); [|done]).
  - apply okc_createCheckpoint.
  - apply safe_ok, safe_restore.
  - apply okc_deleteCheckpoint.
  - apply safe_ok. unfold dashboardDeleteCheckpoint. safe_steps.
  - apply safe_ok, safe_public.
  - eapply ok_seq; [apply _|apply okc_build|done].
  - apply safe_ok, safe_patch.
  - apply safe_ok, safe_unpatch.
  - apply safe_ok, safe_patches.
  - eapply ok_seq; [apply _|apply safe_ok, safe_fork|done].
  - eapply ok_seq; [apply _|apply safe_ok, safe_wait|done].
  - apply okc_goroutine.
  - apply safe_ok, safe_command. intros i v Hv. by apply keep_frame.
Qed.

Definition answers_fair (e : request + nat * input) : Prop := match e with inl _ => True | inr (_, i) => fair i end.

Lemma reachable_inv w es : rows w = [] -> jobs w = [] -> Forall answers_fair es -> Inv (run_all w es).
Proof.
  intros Hr Hj He. destruct (exec_ok Inv le fair (map event_of es) (w, [])) as [[H _] _]; [| |done].
  - split; [|done]. split; cbn; rewrite ?Hr, ?Hj; by try constructor.
  - apply Forall_map. eapply Forall_impl; [exact He|]. intros [x|[t i]]; cbn; [|done]. intros _ v _. apply okc_thread.
Qed.

(** The archive that a fork of a ready checkpoint takes. *)
Lemma fork_source_stored w r : row_ok w r -> k_Status r = "ready"%string ->
  exists a sb rootfs ws, fork_source r = Some (a, rootfs, ws) /\ In a (ids r) /\ rootfs = rootfsKey sb a /\ rootfs ∈ objects w.
Proof.
  intros Hr Hs. destruct (ro_ready _ _ Hr Hs) as ([ws Hws] & k & Hk & Ho). destruct (ro_rootfs _ _ Hr k Hk) as [sb Ek].
  assert (exists a sb rootfs ws', Some (k_ID r, k, ws) = Some (a, rootfs, ws') /\ In a (ids r) /\ rootfs = rootfsKey sb a /\ rootfs ∈ objects w) as Hown.
  { exists (k_ID r), sb, k, ws. split_and!; [done|by left|done|done]. }
  unfold fork_source. rewrite Hk, Hws. case_match eqn:E; [|done]. apply andb_prop in E as [_ E%bool_decide_eq_true].
  destruct (ro_promotion _ _ Hr E) as (k' & Hk' & Ho'). destruct (ro_promoted _ _ Hr k' Hk') as (sb' & b & Hb & Ek'). rewrite Hb, Hk'.
  assert (nonempty (Some k') = Some k') as -> by (subst k'; done).
  destruct (nonempty (Some b)) as [b'|] eqn:Eb; [|done]. assert (b' = b) as -> by (destruct b; cbn in Eb; congruence).
  destruct (nonempty (k_PromotedWorkspaceS3Key r)) as [ws'|]; [|done].
  exists b, sb', k', ws'. split_and!; [done| |done|done]. unfold ids. rewrite Hb. by right; left.
Qed.

(** C6. A checkpoint that the API shows as ready can be forked: from any database without
    checkpoints, in every interleaving of requests (creating with retention, deleting here
    and in the dashboard, restoring, publishing, patching, forking, image builds), of their
    goroutines, and of whatever happens to the sessions, the row names an archive (its own
    or that of its promoted form) that is in the object store under that row's identifier,
    and no deletion that is still to run names it. A call that reports success has been
    carried out; one that reports an error may have been, then or later. *)
Theorem ready_checkpoints_restorable (w : world) (es : list (request + nat * input)) :
  rows w = [] -> jobs w = [] -> Forall answers_fair es ->
  forall r, In r (rows (run_all w es)) -> k_Status r = "ready"%string ->
  exists a sb rootfs ws, fork_source r = Some (a, rootfs, ws) /\ In a (ids r) /\ rootfs = rootfsKey sb a /\
    rootfs ∈ objects (run_all w es) /\ forall keys, In (JDelete keys) (jobs (run_all w es)) -> ~ In rootfs keys.
Proof.
  intros Hr Hj He r Hin Hs. pose proof (reachable_inv w es Hr Hj He) as Hi.
  destruct (fork_source_stored _ r (inv_rows _ Hi r Hin) Hs) as (a & sb & rootfs & ws & Hf & Ha & E & Ho).
  exists a, sb, rootfs, ws. split_and!; [done..|]. intros keys Hk Hrk. pose proof (inv_jobs _ Hi) as Hjobs.
  rewrite List.Forall_forall in Hjobs. specialize (Hjobs _ Hk). cbn in Hjobs. rewrite List.Forall_forall in Hjobs.
  apply (Hjobs _ Hrk sb a); [by eapply live_row|done].
Qed.

(** ** The limits *)

Ltac branch_wp := match goal with |- wp _ (if ?b then _ else _) _ _ => destruct b end.

Definition tally (P : Checkpoint -> bool) w : nat := length (List.filter P (rows w)).

(** Rows were only deleted. *)
Definition fewer w v : Prop := (forall r, In r (rows v) -> In r (rows w)) /\ forall P, (tally P v <= tally P w)%nat.

Lemma fewer_refl w v : rows v = rows w -> fewer w v.
Proof. intros E. unfold fewer, tally. rewrite E. by split. Qed.

Lemma fewer_trans w1 w2 w3 : fewer w1 w2 -> fewer w2 w3 -> fewer w1 w3.
Proof. intros [H1 L1] [H2 L2]. split; [auto|]. intros P. etrans; [apply L2|apply L1]. Qed.

Lemma filter_filter_length {A} (P Q : A -> bool) l : (length (List.filter P (List.filter Q l)) <= length (List.filter P l))%nat.
Proof. induction l as [|x l IH]; cbn; [done|]. destruct (Q x); cbn; destruct (P x); cbn; lia. Qed.

Lemma filter_filter_less {A} (P Q : A -> bool) l x : In x l -> P x = true -> Q x = false ->
  (S (length (List.filter P (List.filter Q l))) <= length (List.filter P l))%nat.
Proof.
  intros Hx HP HQ. induction l as [|y l IH]; [done|]. cbn. destruct Hx as [->|Hx].
  - rewrite HP, HQ. cbn. pose proof (filter_filter_length P Q l). lia.
  - specialize (IH Hx). destruct (Q y); cbn; destruct (P y); cbn; lia.
Qed.

Lemma wp_delete M cp org w : (forall r, In r (rows w) -> k_ID r = k_ID cp -> M r = true) ->
  wp fair (deleteCheckpointRecordAndObjects cp org) (fun b v => fewer w v /\ (b = true -> (S (tally M v) <= tally M w)%nat)) w.
Proof.
  intros HM. unfold deleteCheckpointRecordAndObjects. apply wp_bind. intros i Hi.
  destruct (existsb (owned org (k_ID cp)) (rows w)) eqn:E; cbn [fst snd].
  - set (v := if i_did i then _ else w). assert (fewer w v) as Hv.
    { unfold v. destruct (i_did i); [|by apply fewer_refl]. split; [|intros P; apply filter_filter_length]. cbn. intros r Hr. by apply filter_In in Hr as [? _]. }
    destruct (i_ok i) eqn:Eo; cbn [negb]; [|by split]. apply wp_bind. intros j _. cbn [fst snd].
    split; [done|]. intros _. unfold v, tally. rewrite (Hi Eo). cbn. apply existsb_exists in E as (r & Hr & Ho).
    pose proof Ho as Hid. apply andb_prop in Hid as [Hid _]. apply same_eq in Hid.
    apply (filter_filter_less M _ (rows w) r); [done|by apply HM|by rewrite Ho].
  - split; [by apply fewer_refl|done].
Qed.

Lemma wp_retention_loop M l org w : (forall cp r, In cp l -> In r (rows w) -> k_ID r = k_ID cp -> M r = true) ->
  wp fair (retention_loop l org) (fun b v => fewer w v /\ (b = true -> (length l + tally M v <= tally M w)%nat)) w.
Proof.
  revert w; induction l as [|cp l IH]; intros w HM; cbn [retention_loop]; [split; [by apply fewer_refl|done]|].
  apply wp_bind. eapply wp_mono; [|apply (wp_delete M); intros r; apply HM; by left]. cbn. intros [] v [Hv Hc]; [|by split].
  eapply wp_mono; [|apply IH].
  - intros b v' [Hv' Hc']. split; [by eapply fewer_trans|]. intros Hb. specialize (Hc eq_refl). specialize (Hc' Hb). cbn. lia.
  - intros cp' r Hcp Hr. apply HM; [by right|]. by apply Hv.
Qed.

Definition of_kind (sandboxID kind : string) (r : Checkpoint) : bool := same (k_SandboxID r) sandboxID && same (k_Kind r) kind.

(** What the policy keeps. *)
Definition retained (limit : nat) (req : createCheckpointRequest) : Z := if r_MaxCount req =? 0 then Z.of_nat limit else r_MaxCount req.

Lemma wp_retention req sb org kind limit w : NoDup (map k_ID (rows w)) -> kind <> ""%string ->
  wp fair (apply_retention req sb org kind limit (tally (of_kind sb kind) w))
    (fun o v => fewer w v /\ match o with
       | Ok n => (tally (of_kind sb kind) v <= n)%nat /\ (r_Mode req = "delete_oldest"%string -> Z.of_nat n < retained limit req)
       | Err code => code <> 201
       end) w.
Proof.
  intros Hn Hk. unfold apply_retention. cbv zeta. fold (retained limit req). set (count := tally (of_kind sb kind) w).
  assert (fewer w w) as Hw by (by apply fewer_refl).
  destruct (_ || _) eqn:Em; [split; [done|]; split; [done|]; intros E; by rewrite E in Em|]. do 2 (branch_wp; [by split|]).
  destruct (Z.of_nat count <? retained limit req) eqn:Ec; [apply Z.ltb_lt in Ec; split; [done|]; by split|apply Z.ltb_ge in Ec]. set (d := Z.to_nat _). apply wp_bind. intros i _. cbn [fst snd].
  destruct (i_ok i); [|by split]. cbn [wp]. set (l := ListCheckpointRetentionCandidatesByKind _ _ _ _ _).
  destruct (length l <? d)%nat eqn:El; [by split|apply Nat.ltb_ge in El]. apply wp_bind. eapply wp_mono; [|apply (wp_retention_loop (of_kind sb kind))].
  - cbn. intros b v [Hv Hc]. destruct b; cbn; [|by split]. split; [done|]. specialize (Hc eq_refl). unfold count, d in *. lia.
  - intros cp r Hcp Hr Hid. apply list_elem_of_In in Hcp. unfold l, ListCheckpointRetentionCandidatesByKind in Hcp.
    apply elem_of_take in Hcp as (j & Hj & _). apply list_elem_of_lookup_2 in Hj. rewrite merge_sort_Permutation in Hj.
    apply list_elem_of_In, filter_In in Hj as [Hj Hc].
    assert (r = cp) as ->.
    { apply list_elem_of_In, list_elem_of_lookup_1 in Hr as [a Ha], Hj as [b Hb]. assert (a = b) as ->.
      { eapply NoDup_lookup; [exact Hn| |]; rewrite list_lookup_fmap, ?Ha, ?Hb; cbn; [done|by rewrite Hid]. }
      congruence. }
    unfold retention_candidate in Hc. unfold of_kind. rewrite !andb_true_iff in Hc. destruct Hc as [[[[[H1 _] H3] _] _] _]. rewrite H1. cbn.
    apply orb_prop in H3 as [H3|H3]; [|done]. by apply same_eq in H3.
Qed.

Lemma tally_insert P w r f : (tally P (on_next f (on_rows (fun l => l ++ [r]) w)) <= tally P w + (if P r then 1 else 0))%nat.
Proof. unfold tally. cbn. rewrite List.filter_app, length_app. cbn. by destruct (P r). Qed.

(** The insert, and what follows it. *)
Lemma wp_CreateCheckpoint sb org name kind promote w :
  wp fair (CreateCheckpoint sb org name kind promote)
    (fun o v => (forall code, o = Err code -> code <> 201) /\ forall sb' kind',
       (tally (of_kind sb' kind') v <= tally (of_kind sb' kind') w + (if same sb sb' && same kind kind' then 1 else 0))%nat) w.
Proof.
  intros i _. cbn [fst snd]. destruct (existsb _ _); cbn [fst snd wp].
  - split; [intros code [= <-]; by destruct (i_ok i)|]. intros sb' kind'. lia.
  - split; [intros code; destruct (i_ok i); by intros [= <-]|]. intros sb' kind'. destruct (i_did i); [|by unfold tally; cbn; lia].
    by etrans; [apply tally_insert|].
Qed.

Definition checkpoint_kind (req : createCheckpointRequest) : string := if same (r_Kind req) "" then "full" else r_Kind req.

(** What a request alone does to the numbers of checkpoints. *)
Definition within_limits (w : world) (sb : string) (req : createCheckpointRequest) (reply : response) v : Prop :=
  (forall sb' kind', (tally (of_kind sb' kind') v <= Nat.max (tally (of_kind sb' kind') w) (maxCheckpointsForKind kind'))%nat) /\
  (reply = Reply 201 -> r_Mode req = "delete_oldest"%string ->
   Z.of_nat (tally (of_kind sb (checkpoint_kind req)) v) <= retained (maxCheckpointsForKind (checkpoint_kind req)) req).

Lemma within_refused w sb req code v : fewer w v -> code <> 201 -> within_limits w sb req (Reply code) v.
Proof. intros [_ Hf] Hc. split; [|by intros [= ->]]. intros sb' kind'. specialize (Hf (of_kind sb' kind')). lia. Qed.

Lemma wp_createCheckpoint w org sb bound req : NoDup (map k_ID (rows w)) ->
  wp fair (createCheckpoint org sb bound req) (within_limits w sb req) w.
Proof.
  intros Hn. assert (forall code, code <> 201 -> within_limits w sb req (Reply code) w) as Href.
  { intros code. apply within_refused. by apply fewer_refl. }
  unfold createCheckpoint. destruct org as [org|]; [|by apply Href]. apply wp_bind. intros i _. cbn [fst snd wp].
  destruct (if i_ok i then _ else None) as [s|]; [|by apply Href]. cbv zeta. fold (checkpoint_kind req). do 3 (branch_wp; [by apply Href|]).
  set (kind := checkpoint_kind req). destruct (negb (same kind "full") && _) eqn:Ek; [by apply Href|]. branch_wp; [by apply Href|].
  assert (kind <> ""%string) as Hk by (intros E; by rewrite E in Ek).
  apply wp_bind. intros j _. cbn [fst snd wp]. destruct (i_ok j); [|by apply Href].
  apply wp_bind. eapply wp_mono; [|by apply (wp_retention req sb org kind (maxCheckpointsForKind kind))]. intros [n|code] v [Hv Hc];
    [|by apply within_refused]. destruct Hc as [Hc Hm]. destruct (maxCheckpointsForKind kind <=? n)%nat eqn:El; [by apply within_refused|].
  apply Nat.leb_gt in El. apply wp_bind. eapply wp_mono; [|apply wp_CreateCheckpoint]. intros o v' [Ho Ht].
  assert (forall reply v'', rows v'' = rows v' -> within_limits w sb req reply v'') as Hend.
  { intros reply v'' E. assert (forall P, tally P v'' = tally P v') as Et by (intros P; unfold tally; by rewrite E). split.
    - intros sb' kind'. rewrite Et. specialize (Ht sb' kind'). destruct Hv as [_ Hv]. specialize (Hv (of_kind sb' kind')).
      destruct (same sb sb' && same kind kind') eqn:Es; [|lia]. apply andb_prop in Es as [E1 E2]. apply same_eq in E1 as <-. apply same_eq in E2 as <-. lia.
    - intros _ Hmode. rewrite Et. specialize (Ht sb kind). specialize (Hm Hmode). fold kind. destruct (same sb sb && same kind kind); lia. }
  destruct o as [[id art]|code]; [|by apply Hend].
  apply wp_bind. intros i1 _. cbn [fst snd wp]. apply wp_bind. intros i2 _. cbn [fst snd wp].
  branch_wp; apply wp_bind; intros i3 _; by apply Hend.
Qed.

(** C35. The limits hold for requests that do not overlap: creating a checkpoint never takes
    the number of checkpoints of a sandbox and kind above its limit (10 full ones, 100 of
    the disk alone), whatever fails on the way; and with the policy "delete_oldest" at most
    maxCount of that kind are left when it succeeds. *)
Theorem create_within_limits (w : world) (org : option string) (sb : string) (bound : bool) (req : createCheckpointRequest)
    (answers : nat -> input) (n : nat) :
  (forall j, fair (answers j)) -> NoDup (map k_ID (rows w)) ->
  let '(w', reply) := run (createCheckpoint org sb bound req) answers n w in
  (forall sb' kind, (CountCheckpointsByKind sb' kind (rows w') <= Nat.max (CountCheckpointsByKind sb' kind (rows w)) (maxCheckpointsForKind kind))%nat) /\
  (reply = Reply 201 -> r_Mode req = "delete_oldest"%string ->
   Z.of_nat (CountCheckpointsByKind sb (checkpoint_kind req) (rows w')) <= retained (maxCheckpointsForKind (checkpoint_kind req)) req).
Proof.
  intros Hf Hn. destruct (run (createCheckpoint org sb bound req) answers n w) as [w' reply] eqn:E.
  pose proof (wp_run fair _ (within_limits w sb req) answers n w Hf (wp_createCheckpoint w org sb bound req Hn)) as H. by rewrite E in H.
Qed.

(** ** Patches *)

Definition level w (id : string) : Z := default 0 (last_seq w !! id).

Definition ran_in (id : string) (l : list CheckpointPatch) : list (string * string) := map (fun p => (id, p_ID p)) l.

(** Of the patches [l], those up to the recorded level have run, in order. *)
Definition in_order (id : string) (before : list (string * string)) (l : list CheckpointPatch) w : Prop :=
  exists k, ran w = before ++ ran_in id (take k l) /\ forall p, In p l -> p_Sequence p <= level w id -> In p (take k l).

Lemma wp_exec f (Q : bool -> world -> Prop) w :
  (forall i b, fair i -> (b = true -> i_did i = true) -> Q b (if i_did i then f i w else w)) -> wp fair (exec_ f) Q w.
Proof. intros H i Hi. cbn. by apply H. Qed.

Lemma sorted_below (pre l : list CheckpointPatch) p q :
  StronglySorted (fun a b => p_Sequence a < p_Sequence b) (pre ++ p :: l) -> In q (pre ++ p :: l) -> p_Sequence q <= p_Sequence p -> In q (pre ++ [p]).
Proof.
  intros Hs Hq Hle. apply in_app_or in Hq as [Hq|[<-|Hq]]; [apply in_or_app; by left|apply in_or_app; right; by left|].
  exfalso. assert (StronglySorted (fun a b => p_Sequence a < p_Sequence b) (p :: l)) as Hs'.
  { clear Hq Hle. induction pre as [|x pre IH]; [done|]. apply IH. by inversion Hs. }
  inversion_clear Hs' as [|? ? _ Hf]. rewrite List.Forall_forall in Hf. specialize (Hf q Hq). lia.
Qed.

Lemma patch_loop_in_order id before pre l w :
  StronglySorted (fun a b => p_Sequence a < p_Sequence b) (pre ++ l) -> ran w = before ++ ran_in id pre ->
  (forall p, In p (pre ++ l) -> p_Sequence p <= level w id -> In p pre) ->
  wp fair (patch_loop id l) (fun _ => in_order id before (pre ++ l)) w.
Proof.
  revert pre w; induction l as [|p l IH]; intros pre w Hs Hr Hl; cbn [patch_loop].
  - apply wp_bind, wp_exec. intros i b _ _. cbn. exists (length (pre ++ [])). rewrite take_ge by lia. rewrite app_nil_r in *.
    destruct (i_did i); [|by split]. unfold on_session. case_match; by split.
  - apply wp_bind, wp_exec. intros i b Hf Hb. set (w1 := if i_did i then _ else _).
    assert (level w1 id = level w id) as Hlev by (unfold w1; by destruct (i_did i)).
    destruct b; cbn [negb].
    + assert (ran w1 = before ++ ran_in id (pre ++ [p])) as Hr1.
      { unfold w1. rewrite (Hb eq_refl). cbn. rewrite Hr. unfold ran_in. by rewrite map_app, app_assoc. }
      apply wp_bind, wp_exec. intros j c _ _. set (w2 := if i_did j then _ else _).
      assert (ran w2 = ran w1 /\ (level w2 id = level w1 id \/ level w2 id = p_Sequence p)) as [Hr2 Hl2].
      { unfold w2, on_session. destruct (i_did j); [|split; [done|by left]]. case_match; [|split; [done|by left]].
        split; [done|]. right. unfold level. cbn. by rewrite lookup_insert_eq. }
      assert (pre ++ p :: l = (pre ++ [p]) ++ l) as Eapp by (by rewrite <- app_assoc).
      rewrite Eapp. apply IH; [by rewrite <- Eapp|by rewrite Hr2|]. rewrite <- Eapp. intros q Hq Hle.
      destruct Hl2 as [E|E]; rewrite E in Hle; [|by eapply sorted_below]. apply in_or_app. left. apply Hl; [done|]. by rewrite <- Hlev.
    + apply wp_bind, wp_exec. intros j c _ _. set (w2 := if i_did j then _ else _).
      assert (ran w2 = ran w1 /\ level w2 id = level w id) as [Hr2 Hl2].
      { rewrite <- Hlev. unfold w2, on_session. destruct (i_did j); [|done]. by case_match. }
      cbn. exists (if i_did i then S (length pre) else length pre). rewrite Hr2, Hl2. unfold w1. destruct (i_did i); cbn.
      * replace (S (length pre)) with (length (pre ++ [p])) by (rewrite length_app; cbn; lia).
        replace (pre ++ p :: l) with ((pre ++ [p]) ++ l) by (by rewrite <- app_assoc). rewrite take_app_length. split.
        -- rewrite Hr. unfold ran_in. by rewrite map_app, app_assoc.
        -- intros q Hq Hle. apply in_or_app. left. apply Hl; [|done]. by rewrite <- app_assoc in Hq.
      * rewrite take_app_length. by split.
Qed.

#[export] Instance sequence_order_total : Total sequence_order.
Proof. intros a b. unfold sequence_order. lia. Qed.
#[export] Instance sequence_order_trans : Transitive sequence_order.
Proof. intros a b c. unfold sequence_order. lia. Qed.

(** UNIQUE (checkpoint_id, sequence) *)
Definition sequences_unique (l : list CheckpointPatch) : Prop :=
  forall checkpoint, NoDup (map p_Sequence (List.filter (fun p => same (p_CheckpointID p) checkpoint) l)).

Lemma strictly_sorted l : StronglySorted sequence_order l -> NoDup (map p_Sequence l) -> StronglySorted (fun a b => p_Sequence a < p_Sequence b) l.
Proof.
  induction 1 as [|p l Hs IH Hf]; intros Hn; [constructor|]. cbn in Hn. apply NoDup_cons in Hn as [Hp Hn].
  constructor; [by apply IH|]. rewrite List.Forall_forall in *. intros q Hq. specialize (Hf q Hq). unfold sequence_order in Hf.
  assert (p_Sequence p <> p_Sequence q); [|lia]. intros E. apply Hp. rewrite E. apply list_elem_of_In. by apply in_map.
Qed.

Lemma pending_sorted checkpoint after l : sequences_unique l ->
  StronglySorted (fun a b => p_Sequence a < p_Sequence b) (GetPendingPatches checkpoint after l).
Proof.
  intros Hu. apply strictly_sorted; [apply StronglySorted_merge_sort; apply _|]. unfold GetPendingPatches. rewrite merge_sort_Permutation.
  specialize (Hu checkpoint). induction l as [|p l IH]; cbn in *; [constructor|]. destruct (same (p_CheckpointID p) checkpoint); cbn in *; [|by apply IH].
  apply NoDup_cons in Hu as [Hp Hn]. destruct (after <? p_Sequence p); [|by apply IH]. cbn. apply NoDup_cons. split; [|by apply IH].
  intros Hin. apply Hp. apply list_elem_of_In in Hin. apply in_map_iff in Hin as (q & E & Hq). apply list_elem_of_In, in_map_iff. exists q.
  split; [done|]. apply filter_In in Hq as [Hq Hc]. apply andb_prop in Hc as [Hc _]. by apply filter_In.
Qed.

Lemma pending_above checkpoint after l p : In p (GetPendingPatches checkpoint after l) -> after < p_Sequence p.
Proof.
  unfold GetPendingPatches. intros Hp. apply list_elem_of_In in Hp. rewrite merge_sort_Permutation in Hp. apply list_elem_of_In in Hp.
  apply filter_In in Hp as [_ Hp]. apply andb_prop in Hp as [_ Hp]. lia.
Qed.

(** C28. Patches reach a sandbox in order, and the recorded level never runs ahead: a call of
    applyPendingPatches, whatever fails in it, runs an initial part of the pending patches
    in the order of their sequence numbers, and every pending patch up to the level recorded
    afterwards is one that ran. So the next call starts with a patch that has not been
    recorded, and skips none. *)
Theorem patches_in_order (w : world) (id checkpoint : string) (answers : nat -> input) (n : nat) :
  (forall j, fair (answers j)) -> sequences_unique (patches w) -> based_on w !! id = Some checkpoint ->
  let w' := fst (run (applyPendingPatches id) answers n w) in
  let l := GetPendingPatches checkpoint (level w id) (patches w) in
  exists k, ran w' = ran w ++ ran_in id (take k l) /\ forall p, In p l -> p_Sequence p <= level w' id -> In p (take k l).
Proof.
  intros Hf Hu Hb. cbv zeta. set (l := GetPendingPatches _ _ _). change (in_order id (ran w) l (fst (run (applyPendingPatches id) answers n w))).
  apply (wp_run fair (applyPendingPatches id) (fun _ => in_order id (ran w) l)); [done|].
  assert (forall p, In p l -> p_Sequence p <= level w id -> In p (take 0 l)) as Hl0 by (intros p Hp Hle; apply pending_above in Hp; lia).
  assert (in_order id (ran w) l w) as H0 by (exists 0%nat; cbn; by rewrite app_nil_r).
  assert (wp fair (bind (SetSandboxPatchError id false) (fun _ => patch_loop id l)) (fun _ => in_order id (ran w) l) w) as Hloop.
  { apply wp_bind, wp_exec. intros o b _ _. set (w1 := if i_did o then _ else _).
    assert (ran w1 = ran w /\ level w1 id = level w id) as [Hr1 Hl1] by (unfold w1, on_session; destruct (i_did o); [|done]; by case_match).
    apply (patch_loop_in_order id (ran w) []); [by apply pending_sorted|by rewrite Hr1, app_nil_r|].
    intros q Hq Hle. rewrite Hl1 in Hle. by apply (Hl0 q). }
  unfold applyPendingPatches. intros i _. cbn [fst snd]. destruct (i_ok i); [|done]. destruct (SessionStore.GetSandboxSession _ _); [|done].
  rewrite Hb. change (default 0 (last_seq w !! id)) with (level w id). intros j _. cbn [fst snd]. fold l. destruct (i_ok j); [|done].
  by destruct l.
Qed.

(** The statements keep the sequence numbers of a checkpoint apart. *)
Lemma next_sequence_above checkpoint l p : In p l -> same (p_CheckpointID p) checkpoint = true -> p_Sequence p < next_sequence checkpoint l.
Proof.
  unfold next_sequence. induction l as [|q l IH]; intros Hp Hc; [done|]. cbn [fold_right]. destruct Hp as [->|Hp].
  - rewrite Hc. lia.
  - specialize (IH Hp Hc). case_match; lia.
Qed.

Lemma sequences_stay_unique l patch checkpoint : sequences_unique l ->
  sequences_unique (l ++ [{| p_ID := patch; p_CheckpointID := checkpoint; p_Sequence := next_sequence checkpoint l |}]).
Proof.
  intros Hu c. rewrite List.filter_app, map_app. cbn [List.filter p_CheckpointID]. destruct (same checkpoint c) eqn:E; cbn [map p_Sequence]; [|rewrite app_nil_r; apply Hu].
  apply NoDup_app. split_and!; [apply Hu| |apply NoDup_singleton]. intros x Hx Hx'. apply list_elem_of_singleton in Hx'. subst x.
  apply list_elem_of_In, in_map_iff in Hx as (p & Ep & Hp). apply filter_In in Hp as [Hp Hc]. apply same_eq in E as ->.
  pose proof (next_sequence_above c l p Hp Hc). lia.
Qed.

(** ** Runs *)

Definition yes : input :=
  {| i_ok := true; i_did := true; i_now := 0; i_worker := Some "w-1"%string; i_merged := false; i_id := "sb-2"; i_job := 0 |}.
Definition at_ (now : Z) : input :=
  {| i_ok := true; i_did := true; i_now := now; i_worker := Some "w-1"%string; i_merged := false; i_id := "sb-2"; i_job := 0 |}.
Definition single_disk : input :=
  {| i_ok := true; i_did := true; i_now := 0; i_worker := Some "w-1"%string; i_merged := true; i_id := "sb-2"; i_job := 0 |}.
Definition no : input :=
  {| i_ok := false; i_did := false; i_now := 0; i_worker := None; i_merged := false; i_id := ""; i_job := 0 |}.

(** One running sandbox and no checkpoints. *)
Definition one_sandbox : world :=
  mkC [] 0 ∅ {| SessionStore.sessions := [SessionStore.new_session 0 "sb-1" "org" "default" "iad" "w-1" "running" None];
                SessionStore.scale_events := []; SessionStore.hibernations := []; SessionStore.outbox := []; SessionStore.subscriptions := [] |}
      [] ∅ ∅ ∅ [] ∅ ∅ ∅ 0 [].

Definition new_checkpoint (name kind mode : string) (maxCount : Z) : request :=
  Create (Some "org"%string) "sb-1" true {| r_Name := name; r_Kind := kind; r_PromoteToFull := None; r_Mode := mode; r_MaxCount := maxCount |}.

(** Thread [t] makes [n] steps with the answer [i]. *)
Definition steps (t n : nat) (i : input) : list (request + nat * input) := repeat (inr (t, i)) n.

(** A disk-only checkpoint is created, taken and promoted. *)
Definition promoted_run (i : input) : list (request + nat * input) :=
  [inl (new_checkpoint "a" "disk_only" "" 0)] ++ steps 0 9 i ++ [inl Background] ++ steps 1 9 i ++ [inl Background] ++ steps 2 9 i.

Definition shown (w : world) : list (string * string * option (string * string * string)) :=
  map (fun r => (k_Status r, default "" (k_PromotionStatus r), fork_source r)) (rows w).

Lemma promoted_run_shown : shown (run_all one_sandbox (promoted_run yes)) =
  [("ready", "ready", Some ("1", "checkpoints/sb-2/1/rootfs.tar.zst", "checkpoints/sb-2/1/workspace.tar.zst"))]%string.
Proof. vm_compute. reflexivity. Qed.

(** The promoted form of a checkpoint with a single disk is never used: its workspace key is
    empty, and a fork takes that for a missing artifact. *)
Lemma promotion_unused_when_merged : shown (run_all one_sandbox (promoted_run single_disk)) =
  [("ready", "ready", Some ("0", "checkpoints/sb-1/0/rootfs.tar.zst", ""))]%string.
Proof. vm_compute. reflexivity. Qed.

(** *** Where the handlers do less than they mean to *)

Definition names_status (w : world) : list (string * string) := map (fun r => (k_Name r, k_Status r)) (rows w).

(** The worker cannot be reached after the insert: the client is told 503, and the row stays
    "processing" with nothing at work on it. *)
Lemma unreachable_worker_leaves_row :
  let w := run_all one_sandbox ([inl (new_checkpoint "a" "full" "" 0)] ++ steps 0 4 yes ++ steps 0 1 no ++ steps 0 9 yes) in
  names_status w = [("a", "processing")]%string /\ jobs w = [] /\ pending w = ∅.
Proof. vm_compute. done. Qed.

(** So it does after a build whose checkpoint fails. *)
Lemma failed_build_leaves_row :
  let w := run_all one_sandbox ([inl (Build "org" "sb-b" "_image_build_0" true)] ++ steps 0 1 yes ++ steps 0 9 no) in
  names_status w = [("_image_build_0", "processing")]%string /\ jobs w = [].
Proof. vm_compute. done. Qed.

(** Two checkpoints, taken one after the other. *)
Definition two_checkpoints : world := run_all one_sandbox
  ([inl (new_checkpoint "a" "full" "" 0)] ++ steps 0 9 (at_ 1) ++ [inl Background] ++ steps 1 9 yes ++
   [inl (new_checkpoint "b" "full" "" 0)] ++ steps 2 9 (at_ 2) ++ [inl Background] ++ steps 3 9 yes).

(** The retention policy deletes the oldest checkpoint for a request that is then refused
    because its name is taken. *)
Lemma retention_before_conflict :
  names_status two_checkpoints = [("a", "ready"); ("b", "ready")]%string /\
  let '(w, reply) := run (createCheckpoint (Some "org"%string) "sb-1" true
    {| r_Name := "b"; r_Kind := "full"; r_PromoteToFull := None; r_Mode := "delete_oldest"; r_MaxCount := 2 |}) (fun _ => yes) 0 two_checkpoints in
  reply = Reply 409 /\ names_status w = [("b", "ready")]%string.
Proof. vm_compute. done. Qed.

(** [n] full checkpoints, created one after the other. *)
Fixpoint creates (n t : nat) : list (request + nat * input) :=
  match n with O => [] | S n => [inl (new_checkpoint (str (itoa (N.of_nat t))) "full" "" 0)] ++ steps t 9 yes ++ creates n (S t) end.

(** The limit is checked in one statement and used in another: two requests at once exceed it. *)
Lemma limit_race :
  CountCheckpointsByKind "sb-1" "full" (rows (run_all one_sandbox (creates 12 0))) = maxFullCheckpointsPerSandbox /\
  CountCheckpointsByKind "sb-1" "full" (rows (run_all one_sandbox (creates 9 0 ++
    [inl (new_checkpoint "x" "full" "" 0); inl (new_checkpoint "y" "full" "" 0)] ++ steps 9 2 yes ++ steps 10 9 yes ++ steps 9 9 yes))) =
  S maxFullCheckpointsPerSandbox.
Proof. vm_compute. done. Qed.

(** A checkpoint deleted while it is taken leaves its archive behind. *)
Lemma deleted_while_taken_leaks :
  let w := run_all one_sandbox ([inl (new_checkpoint "a" "full" "" 0)] ++ steps 0 9 yes ++
    [inl (Delete (Some "org"%string) "sb-1" (Some "0"%string))] ++ steps 1 3 yes ++ [inl Background] ++ steps 2 9 yes ++ [inl Background] ++ steps 3 9 yes) in
  rows w = [] /\ jobs w = [] /\ elements (objects w) = ["checkpoints/sb-1/0/rootfs.tar.zst"%string].
Proof. vm_compute. done. Qed.

(** The dashboard deletes the row and never the archive; the API deletes both. *)
Lemma dashboard_delete_leaks :
  let w := run_all one_sandbox ([inl (new_checkpoint "a" "full" "" 0)] ++ steps 0 9 yes ++ [inl Background] ++ steps 1 9 yes ++
    [inl (DashboardDelete (Some "org"%string) (Some "0"%string))] ++ steps 2 9 yes) in
  let w' := run_all one_sandbox ([inl (new_checkpoint "a" "full" "" 0)] ++ steps 0 9 yes ++ [inl Background] ++ steps 1 9 yes ++
    [inl (Delete (Some "org"%string) "sb-1" (Some "0"%string))] ++ steps 2 9 yes ++ [inl Background] ++ steps 3 9 yes) in
  rows w = [] /\ jobs w = [] /\ elements (objects w) = ["checkpoints/sb-1/0/rootfs.tar.zst"%string] /\
  rows w' = [] /\ jobs w' = [] /\ elements (objects w') = [].
Proof. vm_compute. done. Qed.

(** A request that waited for one checkpoint removes the entry of the next: the sandbox is
    paused again and nothing makes requests wait. *)
Lemma waiter_opens_next_gate :
  let w := run_all one_sandbox ([inl (new_checkpoint "a" "full" "" 0)] ++ steps 0 9 yes ++ [inl Background] ++ steps 1 9 yes ++
    [inl (Wait "sb-1")] ++ steps 2 2 yes ++ [inl (new_checkpoint "b" "full" "" 0)] ++ steps 3 9 yes ++ steps 2 1 yes) in
  jobs w = [JCheckpoint "2" "sb-1" "w-1" "full" None 1] /\ pending w = ∅.
Proof. vm_compute. done. Qed.

(** A number is given again after its patch is deleted: a sandbox that had applied the old
    patch never gets the new one. *)
Lemma patch_sequence_reused :
  let w := run_all two_checkpoints ([inl (Patch (Some "org"%string) (Some "0"%string) true)] ++ steps 0 9 yes ++
    [inl (Fork (Some "org"%string) (Some "0"%string) "default" "iad")] ++ steps 1 20 yes ++
    [inl (Unpatch (Some "org"%string) (Some "0"%string) (Some "4"%string))] ++ steps 2 9 yes ++
    [inl (Patch (Some "org"%string) (Some "0"%string) true)] ++ steps 3 9 yes ++ [inl (ApplyPatches "sb-2")] ++ steps 4 9 yes) in
  ran w = [("sb-2", "4")]%string /\ level w "sb-2" = 1 /\ map (fun p => (p_ID p, p_Sequence p)) (patches w) = [("5"%string, 1)].
Proof. vm_compute. done. Qed.

(** *** The claims at these runs *)

Lemma ready_checkpoints_restorable_witness :
  exists r, In r (rows (run_all one_sandbox (promoted_run yes))) /\ k_Status r = "ready"%string /\
  exists a sb rootfs ws, fork_source r = Some (a, rootfs, ws) /\ In a (ids r) /\ rootfs = rootfsKey sb a /\
    rootfs ∈ objects (run_all one_sandbox (promoted_run yes)) /\
    forall keys, In (JDelete keys) (jobs (run_all one_sandbox (promoted_run yes))) -> ~ In rootfs keys.
Proof.
  assert (Forall answers_fair (promoted_run yes)) as Hf by (repeat (constructor; [done|]); constructor).
  assert (exists r, In r (rows (run_all one_sandbox (promoted_run yes))) /\ k_Status r = "ready"%string) as (r & Hr & Hs)
    by (eexists; split; [vm_compute; by left|reflexivity]).
  exists r. split; [exact Hr|]. split; [exact Hs|].
  exact (ready_checkpoints_restorable one_sandbox (promoted_run yes) eq_refl eq_refl Hf r Hr Hs).
Defined.

Lemma create_within_limits_witness :
  let '(w', reply) := run (createCheckpoint (Some "org"%string) "sb-1" true
    {| r_Name := "c"; r_Kind := ""; r_PromoteToFull := None; r_Mode := "delete_oldest"; r_MaxCount := 2 |}) (fun _ => yes) 0 two_checkpoints in
  reply = Reply 201 /\ names_status w' = [("b", "ready"); ("c", "processing")]%string /\
  Z.of_nat (CountCheckpointsByKind "sb-1" "full" (rows w')) <= 2.
Proof.
  assert (NoDup (map k_ID (rows two_checkpoints))) as Hn by (apply (bool_decide_unpack (NoDup (map k_ID (rows two_checkpoints)))); vm_compute; exact I).
  pose proof (create_within_limits two_checkpoints (Some "org"%string) "sb-1" true
    {| r_Name := "c"; r_Kind := ""; r_PromoteToFull := None; r_Mode := "delete_oldest"; r_MaxCount := 2 |} (fun _ => yes) 0 (fun _ H => H) Hn) as H.
  destruct (run _ _ _ _) as [w' reply] eqn:E. assert (reply = Reply 201 /\ names_status w' = [("b", "ready"); ("c", "processing")]%string) as [H1 H2].
  { vm_compute in E. injection E as <- <-. split; reflexivity. }
  split; [exact H1|]. split; [exact H2|]. by apply H.
Defined.

(** A sandbox forked from a checkpoint that has two patches since. *)
Definition patched_sandbox : world := run_all two_checkpoints ([inl (Fork (Some "org"%string) (Some "0"%string) "default" "iad")] ++ steps 0 20 yes ++
  [inl (Patch (Some "org"%string) (Some "0"%string) true)] ++ steps 1 9 yes ++ [inl (Patch (Some "org"%string) (Some "0"%string) true)] ++ steps 2 9 yes).

(** The second patch fails. *)
Definition second_fails (n : nat) : input := if (n =? 5)%nat then no else yes.

Lemma patches_in_order_witness :
  let w' := fst (run (applyPendingPatches "sb-2") second_fails 0 patched_sandbox) in
  let l := GetPendingPatches "0" (level patched_sandbox "sb-2") (patches patched_sandbox) in
  map p_Sequence l = [1; 2] /\ ran w' = [("sb-2", "4")]%string /\ level w' "sb-2" = 1 /\
  exists k, ran w' = ran patched_sandbox ++ ran_in "sb-2" (take k l) /\ forall p, In p l -> p_Sequence p <= level w' "sb-2" -> In p (take k l).
Proof.
  cbv zeta. split_and!; [vm_compute; reflexivity..|].
  apply (patches_in_order patched_sandbox "sb-2" "0" second_fails 0).
  - intros j. unfold second_fails. case_match; done.
  - assert (patches patched_sandbox = [{| p_ID := "4"; p_CheckpointID := "0"; p_Sequence := 1 |}; {| p_ID := "5"; p_CheckpointID := "0"; p_Sequence := 2 |}]) as ->
      by (vm_compute; reflexivity).
    intros c. cbn [List.filter p_CheckpointID]. destruct (same "0" c); cbn [map p_Sequence]; [|constructor].
    apply NoDup_cons. split; [|apply NoDup_singleton]. intros H. by apply list_elem_of_singleton in H.
  - vm_compute. reflexivity.
Defined.

End CheckpointsFacts.
